(* ===== verification/_CoqProject ===== *)
-Q . S2P
Prelude.v
CStrings.v
Ids.v
Protocol.v
PriorityQueues.v
OutboundMsg.v
OutgoingQueue.v
Connections.v
OutgoingWorker.v
Transport.v
Router.v
SessionManager.v
SubscriptionManager.v
VoiceSessions.v
Evidence.v
NodeRegistry.v
Transactions.v
ConnectionPool.v
HubService.v
HubCoherence.v
External.v
VoiceWorld.v
VoiceStores.v
ChannelKeys.v
VoiceService.v
VoiceFrame.v
VoiceProofs.v
VoiceHandlers.v
KeyProofs.v
VoiceRecovery.v
ServerEvents.v
CommandUtils.v
Messages.v
MessageService.v
UserService.v
Sql.v
Database.v
HubTables.v
HubInvariants.v
HubRepository.v
HubRefinement.v
MessageRepository.v
MessageInvariants.v
UserRepository.v
Store.v
SqlDemo.v
StoreLaws.v
SqlContract.v
MessageHistory.v
Accounts.v
SqlErrors.v
Endpoints.v
OriginPolicy.v
EnvConfig.v
ClusterConfig.v
ServerConfig.v
Metrics.v
ControlHttp.v
EventLog.v
Lifecycle.v
AppStack.v
Invites.v
Auth.v
Webhook.v
AppWorld.v
AppDemo.v
SessionCommands.v
HubCommands.v
ChannelCommands.v
ActivityCommands.v
Workers.v
HubEffects.v
CommandFrame.v
CommandPolicy.v
CommandProofs.v
CommandWrites.v
CommandSteps.v
SessionTokens.v
WorkerShutdown.v
AccessControl.v
