(* ===== verification/Prelude.v ===== *)
(** * Kergit server: a verification development

    Kergit is a chat and voice server in C++: clients speak protobuf envelopes
    over WebSockets, hubs have members with roles and text and voice channels,
    messages are stored in PostgreSQL, voice runs on LiveKit with end-to-end
    encryption keys kept by the server, users authenticate with Supabase tokens.

    ** The program and the files

    An inbound frame passes the socket callbacks ([Transport]), enters the
    inbound queue ([PriorityQueues]), is taken by a worker and dispatched to a
    command ([Workers]), which works on the session and subscription managers,
    the services and through them on the database, Redis and LiveKit, and
    answers with outbound messages; these are routed to the stack of each
    recipient ([Router], [OutgoingQueue]) and sent, numbered and retransmitted
    by the stack's worker ([OutgoingWorker], [Connections]).  LiveKit's webhooks
    and the reconciliation thread enter at the voice service.

    - This file: machine integers, [std::expected], the state monad [ST] and the
      monad [EX] of code that can throw, with preservation and Hoare-triple
      rules, list, map and option lemmas.  [CStrings]: decimal text.  [Ids]:
      [domains/ids/Ids.h], [Topic.h].  [Protocol], [ServerEvents]: the
      messages of [proto/] and the structs of [domains/].
    - Network: [PriorityQueues] ([app/queue]), [OutboundMsg], [OutgoingQueue],
      [Connections], [OutgoingWorker], [Transport], [Router] ([net/]).
    - Managers: [SessionManager], [SubscriptionManager] ([app/managers]),
      [VoiceSessions], [Evidence] ([app/services/voice]), [NodeRegistry]
      ([livekit/routing]).
    - Services over the database: [HubService] and [HubCoherence]
      ([app/services/hub]), [UserService], [Messages] and [MessageService] (the
      message service, its asynchronous writer and their queues).
    - Persistence ([infra/persistence]): [Transactions] (TransactionRunner.h) and
      [ConnectionPool]; [Sql] and [Database] (tables and a monad of statements
      with PostgreSQL's errors), [HubTables] (constraints and triggers of
      [sql/002_hubs.sql] and [003_channels.sql]), [HubRepository],
      [MessageRepository], [UserRepository] (the statements of the
      repositories), [Accounts] (audit, account deletion, sign-up); [Store] puts
      them into one database state and [SqlDemo] is a small one;
      [HubInvariants], [HubRefinement], [MessageInvariants], [StoreLaws],
      [SqlContract], [MessageHistory] and [SqlErrors] prove what the services
      rely on.
    - Voice: [External] (Redis, LiveKit, tokens), [VoiceWorld] (the state),
      [VoiceStores], [ChannelKeys], [VoiceService] (the handlers);
      [VoiceFrame], [VoiceProofs], [VoiceHandlers], [KeyProofs] and
      [VoiceRecovery] prove their guarantees.
    - Access from outside: [OriginPolicy] ([net/security/transport] and the
      WebSocket upgrade), [Webhook] ([livekit/webhook]), [Invites], [Auth]
      ([infra/security/token], [app/services/auth]).
    - Configuration: [EnvConfig] ([utils/EnvLoader]), [Endpoints]
      ([core/PublicEndpointConfig.cpp]), [ClusterConfig]
      ([core/LivekitClusterConfig.cpp], and [scripts/render_livekit_runtime.py]
      beside it), [ServerConfig] ([core/ServerConfig.h],
      [utils/PathResolver.h]).
    - Operation: [Metrics] ([utils/Metrics]), [ControlHttp] ([control/http]),
      [EventLog] ([utils/EventLogger.h]), [Lifecycle] (start and stop of
      [net/NetworkStack.cpp] and of the webhook and control servers),
      [AppStack] ([app/AppStack.cpp], [server/Server.cpp]).
    - Application: [CommandUtils], [AppWorld] (the state the commands share,
      audit, presence), [SessionCommands], [HubCommands], [ChannelCommands],
      [ActivityCommands] (every command of [app/commands]), [Workers]
      ([Dispatcher.cpp], [WorkerPool.cpp]); [AppDemo] is a small instance on
      which witnesses and examples run.
    - Guarantees of the application: [HubEffects] (triples of the hub service),
      [CommandFrame] (what the other services keep), [CommandPolicy] (the access
      policy as a relation), [CommandProofs] and [CommandWrites] (each command
      refines it), [CommandSteps] (an induction over all commands for predicates
      of the sessions and the queue), [SessionTokens], [WorkerShutdown],
      [AccessControl].

    A class is a record of its members, a member function one definition with
    the source's name; [foo_] is the member [foo_], [Command_execute] the
    [execute] of a command.  A function that locks its object's mutex for its
    whole body is atomic.  Where threads interleave inside a function it is
    split: the pool's workers, the write queue, the reconciler's and the
    writer's threads, and readers of a subscriber vector are step relations or
    sequences of operations.

    ** What the theorems show

    - Access control, for events handled one after another with ids in
      canonical spelling and hubs of different hash values: every command
      refines the policy, whether it returns or throws; the tables change only
      with the role the change needs; messages reach exactly the channel's
      subscribers, and as long as no command was cut short by an exception the
      subscribers of a hub are live sessions of its members.  Without these
      conditions: without a session a command does nothing; every session's
      user is the subject of an accepted token, and a token is accepted exactly
      when it is authentic and carries the claims answered.
    - Delivery: reliable frames are buffered until acknowledged, the bounded
      queues never lose an accepted high-priority item, overflow policy, order
      and numbering, the authentication gate of frames.
    - State: the session, subscription and voice managers refine simple tables;
      hub and user caches answer what the tables hold, under the same conditions
      on ids and hashes; a subscriber vector does
      not change while a reader holds it; node counters.
    - Voice: membership invariants over every sequence of calls; exactly the
      join webhooks that match what was staged give a row, and exactly the leave
      webhooks of the current voice take it; recovery leaves the users LiveKit
      lists; reconciliation keeps connected members; key acquisition, rotation
      and sealing.
    - Persistence, for transactions that run one after another: the SQL of the
      hub repository refines the abstract tables the services are verified
      against, each method with its exact effect; the schema's invariant survives
      every sequence of repository calls, and what they answer is well formed
      ([hub_limit_races] shows the limits broken by transactions that overlap);
      pages of messages are exact; a write
      transaction is applied at most once; an account deletion is all or
      nothing; the pool's slots are conserved; refusals by a limit or by a
      channel name in use reach the user as the message meant for them.
    - The outside: only allowed origins open a WebSocket, and only a trusted
      proxy speaks for another origin; only signed webhooks reach the voice
      service, and a participant's token is none.
    - Configuration: exactly the documents that keep the rules are accepted, by
      the server and by the deployment script alike; an accepted configuration
      is within its types and limits.
    - Operation and progress: components are wired before they are used, a stack
      that reports success is bound and a stop after that ends it, shutdown of
      the queues, the writer, the event log and the worker pool, reconciliation
      requests are served, recovery always returns; accepted messages are
      accounted for by what the database answered, and the writer's counters
      count it; high water marks under contention; the control server's answers
      read back as the figures they stand for, and so does the event log where
      its unescaped fields hold no separators.

    Some theorems are counterexamples to what a comment says or a reader would
    expect ([stop_loses_wakeup], [failed_leave_stays_subscribed],
    [shutdown_frees_writer_in_use], ...); their doc comments say so.

    ** Parameters

    What lies outside the sources is a class or a record of functions:
    [Parsers] (generated protobuf parsers), [Env] (sockets and clocks of a
    stack), [External X] (Redis, LiveKit's HTTP interface, clocks, random
    numbers, over a world state [X]), [JsonLib], [Crypto], [JwtLib], [Hs256],
    [InetPton] and [InetBytes], [Files] (the file system), [Python] (the
    script's libraries), the process environment, and the repositories
    [HubRepo D], [UserRepo D], [MessageRepo D] over a database state [D], which
    [StoreLaws] instantiates with the SQL model.  What a theorem relies on of
    them is a class of laws - [HubRepoLaws], [UserRepoLaws], [RedisLaws],
    [SeparateTables], [MessageStore] - and each such theorem has a witness on a
    concrete instance.  [std::hash] is a function into the integers, any that
    stays within [size_t] among them; the caches need it injective on the ids in
    play.

    ** Bounds and fuel

    Counters and sizes are integers with the wrap-around of their width written
    out ([wrap64], [wrap32]).  Loops that are not structural take fuel that is
    shown to be enough: the writer's loop as many turns as attempts are left in
    the queue, the event log's writer two turns more than there are entries,
    readers of lines and of JSON text the length of the text (three times, for
    nested values), the token scanner the length of the text, the end of a
    server thread the four operations it has left.  [AccessControl] assumes a
    session counter below [2^64], canonical hub ids and user ids (the SQL casts
    ids to [uuid]), and runs commands one at a time, to their return or to an
    exception; [Workers] and [SessionTokens] interleave any number of workers, a
    command's own effect being one step.  [Lifecycle] has one caller of a stack's
    [start] and [stop], as [AppStack] is.

    ** Not modelled

    The wire format (generated by protobuf), TLS, HTTP headers and the
    uWebSockets loop, which are libraries; concurrent snapshots and locks of
    PostgreSQL: transactions take effect one after another, though the source
    runs them at READ COMMITTED; the process logger ([utils/Logger.h]), which
    only prints, and the entries that commands and services write to the event
    log, which no code reads; the signal handler and the waiting
    loop of [server/main.cpp]; the storage bucket and legal-document tables,
    which no code of the server reads; the files the deployment script writes
    besides the proxy's routes, and the shell scripts. *)

From Stdlib Require Export ZArith Lia.
From stdpp Require Export base tactics numbers list gmap sets strings option.

(** ** Machine integers *)

Definition two64 : Z := 18446744073709551616%Z.
Definition two32 : Z := 4294967296%Z.
Definition two16 : Z := 65536%Z.

(** Arithmetic on [uint64_t] / [size_t] wraps modulo [2^64]. *)
Definition wrap64 (z : Z) : Z := (z `mod` two64)%Z.
Definition wrap32 (z : Z) : Z := (z `mod` two32)%Z.
Definition wrap16 (z : Z) : Z := (z `mod` two16)%Z.

(** [static_cast<int>] of an unsigned 32-bit value: two's complement. *)
Definition int32_of_uint32 (z : Z) : Z :=
  (if wrap32 z <? 2147483648 then wrap32 z else wrap32 z - two32)%Z.

Lemma wrap64_small z : (0 <= z < two64)%Z -> wrap64 z = z.
Proof. intros. unfold wrap64. by apply Z.mod_small. Qed.

Lemma wrap64_range z : (0 <= wrap64 z < two64)%Z.
Proof. unfold wrap64, two64. apply Z.mod_pos_bound. lia. Qed.

(** ** [std::expected] *)

Inductive expected (A E : Type) : Type :=
  | Ok (a : A)
  | Unexpected (e : E).
Arguments Ok {A E} _.
Arguments Unexpected {A E} _.

Definition has_value {A E} (r : expected A E) : bool :=
  match r with Ok _ => true | Unexpected _ => false end.

(** ** A state monad

    Code that threads an object's fields through many calls is written in the
    monad [ST S]: a computation maps a state to its result and the next state. *)

Definition ST (S A : Type) : Type := S -> A * S.

Definition st_ret {S A} (a : A) : ST S A := fun s => (a, s).
Definition st_bind {S A B} (m : ST S A) (k : A -> ST S B) : ST S B :=
  fun s => let '(a, s') := m s in k a s'.
Definition st_get {S} : ST S S := fun s => (s, s).
Definition st_gets {S A} (f : S -> A) : ST S A := fun s => (f s, s).
Definition st_modify {S} (f : S -> S) : ST S unit := fun s => (tt, f s).
Definition st_when {S} (b : bool) (m : ST S unit) : ST S unit :=
  if b then m else st_ret tt.
Fixpoint st_for {S A} (l : list A) (body : A -> ST S unit) : ST S unit :=
  match l with
  | [] => st_ret tt
  | x :: l' => st_bind (body x) (fun _ => st_for l' body)
  end.

Declare Scope st_scope.
Delimit Scope st_scope with st.
Notation "x <-- c1 ; c2" := (st_bind c1 (fun x => c2))
  (at level 60, c1 at next level, right associativity) : st_scope.
Notation "c1 ;;; c2" := (st_bind c1 (fun _ => c2))
  (at level 60, right associativity) : st_scope.

(** [preserves I m]: running [m] keeps the state predicate [I]. *)
Definition preserves {S A} (I : S -> Prop) (m : ST S A) : Prop :=
  forall s, I s -> I (snd (m s)).

Create HintDb preserve.

Section Preserves.
Context {S : Type} (I : S -> Prop).

Lemma preserves_ret {A} (a : A) : preserves I (st_ret a).
Proof. by intros s. Qed.

Lemma preserves_bind {A B} (m : ST S A) (k : A -> ST S B) :
  preserves I m -> (forall a, preserves I (k a)) -> preserves I (st_bind m k).
Proof.
  intros Hm Hk s Hs. unfold st_bind.
  specialize (Hm s Hs). destruct (m s) as [a s'] eqn:E. simpl in Hm. by apply Hk.
Qed.

Lemma preserves_get : preserves I st_get.
Proof. by intros s. Qed.

Lemma preserves_gets {A} (f : S -> A) : preserves I (st_gets f).
Proof. by intros s. Qed.

Lemma preserves_modify (f : S -> S) : (forall s, I s -> I (f s)) -> preserves I (st_modify f).
Proof. by intros Hf s Hs; apply Hf. Qed.

Lemma preserves_when (b : bool) (m : ST S unit) :
  preserves I m -> preserves I (st_when b m).
Proof. intros Hm. destruct b; [done | by intros s]. Qed.

Lemma preserves_for {A} (l : list A) (body : A -> ST S unit) :
  (forall x, preserves I (body x)) -> preserves I (st_for l body).
Proof.
  intros Hb. induction l as [|x l IH]; simpl; [by intros s|].
  by apply preserves_bind.
Qed.

Lemma preserves_if {A} (b : bool) (m1 m2 : ST S A) :
  preserves I m1 -> preserves I m2 -> preserves I (if b then m1 else m2).
Proof. by destruct b. Qed.
End Preserves.

#[export] Hint Resolve preserves_ret preserves_get preserves_gets preserves_bind
  preserves_when preserves_for preserves_if : preserve.

(** ** State and exceptions

    Code that can throw is written in [EX S]: the result is [None] when an
    exception leaves the call, and the state is the one at that point. *)

Definition EX (S A : Type) : Type := S -> option A * S.

Definition ex_ret {S A} (a : A) : EX S A := fun s => (Some a, s).
Definition ex_throw {S A} : EX S A := fun s => (None, s).
Definition ex_bind {S A B} (m : EX S A) (k : A -> EX S B) : EX S B :=
  fun s => match m s with
           | (Some a, s') => k a s'
           | (None, s') => (None, s')
           end.
Definition ex_gets {S A} (f : S -> A) : EX S A := fun s => (Some (f s), s).
Definition ex_modify {S} (f : S -> S) : EX S unit := fun s => (Some tt, f s).
Definition ex_lift {S A} (m : ST S A) : EX S A := fun s => let '(a, s') := m s in (Some a, s').
(** [try { m } catch (...) { h }]. *)
Definition ex_catch {S A} (m h : EX S A) : EX S A :=
  fun s => match m s with
           | (Some a, s') => (Some a, s')
           | (None, s') => h s'
           end.
Fixpoint ex_for {S A} (l : list A) (body : A -> EX S unit) : EX S unit :=
  match l with
  | [] => ex_ret tt
  | x :: l' => ex_bind (body x) (fun _ => ex_for l' body)
  end.

Declare Scope ex_scope.
Delimit Scope ex_scope with ex.
Notation "x <-- c1 ; c2" := (ex_bind c1 (fun x => c2))
  (at level 60, c1 at next level, right associativity) : ex_scope.
Notation "c1 ;;; c2" := (ex_bind c1 (fun _ => c2))
  (at level 60, right associativity) : ex_scope.

(** [ex_preserves I m]: whether it returns or throws, [m] keeps [I]. *)
Definition ex_preserves {S A} (I : S -> Prop) (m : EX S A) : Prop :=
  forall s, I s -> I (snd (m s)).

Section ExPreserves.
Context {S : Type} (I : S -> Prop).

Lemma ex_preserves_ret {A} (a : A) : ex_preserves I (ex_ret a).
Proof. by intros s. Qed.

Lemma ex_preserves_throw {A} : ex_preserves I (ex_throw (A := A)).
Proof. by intros s. Qed.

Lemma ex_preserves_bind {A B} (m : EX S A) (k : A -> EX S B) :
  ex_preserves I m -> (forall a, ex_preserves I (k a)) -> ex_preserves I (ex_bind m k).
Proof.
  intros Hm Hk s Hs. unfold ex_bind. specialize (Hm s Hs).
  destruct (m s) as [[a|] s'] eqn:E; simpl in *; [by apply Hk|done].
Qed.

Lemma ex_preserves_gets {A} (f : S -> A) : ex_preserves I (ex_gets f).
Proof. by intros s. Qed.

Lemma ex_preserves_modify (f : S -> S) :
  (forall s, I s -> I (f s)) -> ex_preserves I (ex_modify f).
Proof. by intros Hf s Hs; apply Hf. Qed.

Lemma ex_preserves_lift {A} (m : ST S A) : preserves I m -> ex_preserves I (ex_lift m).
Proof. intros Hm s Hs. unfold ex_lift. specialize (Hm s Hs). by destruct (m s). Qed.

Lemma ex_preserves_catch {A} (m h : EX S A) :
  ex_preserves I m -> ex_preserves I h -> ex_preserves I (ex_catch m h).
Proof.
  intros Hm Hh s Hs. unfold ex_catch. specialize (Hm s Hs).
  destruct (m s) as [[a|] s'] eqn:E; simpl in *; [done|by apply Hh].
Qed.

Lemma ex_preserves_for {A} (l : list A) (body : A -> EX S unit) :
  (forall x, ex_preserves I (body x)) -> ex_preserves I (ex_for l body).
Proof.
  intros Hb. induction l as [|x l IH]; simpl; [by intros s|]. by apply ex_preserves_bind.
Qed.

Lemma ex_preserves_if {A} (b : bool) (m1 m2 : EX S A) :
  ex_preserves I m1 -> ex_preserves I m2 -> ex_preserves I (if b then m1 else m2).
Proof. by destruct b. Qed.
End ExPreserves.

#[export] Hint Resolve ex_preserves_ret ex_preserves_throw ex_preserves_gets ex_preserves_bind
  ex_preserves_catch ex_preserves_for ex_preserves_if ex_preserves_lift : preserve.

(** [ex_triple P m Q E]: from [P], [m] returns into [Q] or throws into [E]. *)
Definition ex_triple {S A} (P : S -> Prop) (m : EX S A) (Q : A -> S -> Prop) (E : S -> Prop)
  : Prop :=
  forall s, P s -> match m s with (Some a, s') => Q a s' | (None, s') => E s' end.

Lemma ex_triple_ret {S A} (P : S -> Prop) (a : A) (Q : A -> S -> Prop) E :
  (forall s, P s -> Q a s) -> ex_triple P (ex_ret a) Q E.
Proof. intros HQ s Hs. by apply HQ. Qed.

Lemma ex_triple_gets {S A} (P : S -> Prop) (f : S -> A) E :
  ex_triple P (ex_gets f) (fun a s => P s /\ a = f s) E.
Proof. by intros s Hs. Qed.

Lemma ex_triple_gets_keep {S A} (P : S -> Prop) (f : S -> A) E :
  ex_triple P (ex_gets f) (fun _ => P) E.
Proof. by intros s Hs. Qed.

Lemma ex_triple_modify {S} (P Q : S -> Prop) (f : S -> S) E :
  (forall s, P s -> Q (f s)) -> ex_triple P (ex_modify f) (fun _ s => Q s) E.
Proof. intros HQ s Hs. by apply HQ. Qed.

Lemma ex_triple_modify_keep {S} (P : S -> Prop) (f : S -> S) E :
  (forall s, P s -> P (f s)) -> ex_triple P (ex_modify f) (fun _ => P) E.
Proof. intros Hf s. apply Hf. Qed.

Lemma ex_triple_bind {S A B} (P : S -> Prop) (m : EX S A) (k : A -> EX S B) Q R E :
  ex_triple P m Q E -> (forall a, ex_triple (Q a) (k a) R E) ->
  ex_triple P (ex_bind m k) R E.
Proof.
  intros Hm Hk s Hs. specialize (Hm s Hs). unfold ex_bind.
  destruct (m s) as [[a|] s']; [by apply Hk|done].
Qed.

Lemma ex_triple_conseq {S A} (P P' : S -> Prop) (m : EX S A) (Q Q' : A -> S -> Prop)
  (E E' : S -> Prop) :
  ex_triple P m Q E -> (forall s, P' s -> P s) -> (forall a s, Q a s -> Q' a s) ->
  (forall s, E s -> E' s) -> ex_triple P' m Q' E'.
Proof.
  intros Hm HP HQ HE s Hs. specialize (Hm s (HP s Hs)).
  destruct (m s) as [[a|] s']; auto.
Qed.

Lemma ex_triple_for {S A} (P : S -> Prop) (l : list A) (body : A -> EX S unit) E :
  (forall x, x ∈ l -> ex_triple P (body x) (fun _ => P) E) ->
  ex_triple P (ex_for l body) (fun _ => P) E.
Proof.
  induction l as [|x l IH]; intros Hb; simpl; [by apply ex_triple_ret|].
  eapply ex_triple_bind; [apply Hb; left|]. intros []. apply IH. intros y Hy. apply Hb. by right.
Qed.

Lemma ex_triple_catch {S A} (P : S -> Prop) (m h : EX S A) Q E1 E :
  ex_triple P m Q E1 -> ex_triple E1 h Q E -> ex_triple P (ex_catch m h) Q E.
Proof.
  intros Hm Hh s Hs. specialize (Hm s Hs). unfold ex_catch.
  destruct (m s) as [[a|] s']; [done|by apply Hh].
Qed.

Lemma ex_triple_keeps {S A} (I : S -> Prop) (m : EX S A) :
  ex_preserves I m -> ex_triple I m (fun _ => I) I.
Proof. intros Hm s Hs. specialize (Hm s Hs). by destruct (m s) as [[a|] s']. Qed.

(** A step that keeps the precondition, whose result does not matter. *)
Lemma ex_triple_preserves {S A} (I : S -> Prop) (m : EX S A) :
  ex_triple I m (fun _ => I) I -> ex_preserves I m.
Proof. intros Hm s Hs. specialize (Hm s Hs). by destruct (m s) as [[a|] s']. Qed.

Lemma ex_triple_skip {S A B} (P : S -> Prop) (m : EX S A) (k : A -> EX S B) Q (E : S -> Prop) :
  ex_preserves P m -> (forall a, ex_triple P (k a) Q E) -> (forall s, P s -> E s) ->
  ex_triple P (ex_bind m k) Q E.
Proof.
  intros Hm Hk HE. eapply ex_triple_bind; [|exact Hk].
  eapply ex_triple_conseq; [by apply ex_triple_keeps|auto..].
Qed.

(** Read a value the precondition knows about. *)
Lemma ex_triple_read {S A B} (P : S -> Prop) (f : S -> A) (k : A -> EX S B) Q E :
  (forall s, P s -> ex_triple (fun s' => P s' /\ f s' = f s) (k (f s)) Q E) ->
  ex_triple P (ex_bind (ex_gets f) k) Q E.
Proof. intros Hk s Hs. unfold ex_bind. simpl. by apply (Hk s Hs s). Qed.

(** A pure fact of the precondition can be moved out. *)
Lemma ex_triple_ex {S A B} (P : B -> S -> Prop) (phi : B -> Prop) (m : EX S A) Q E :
  (forall x, phi x -> ex_triple (P x) m Q E) ->
  ex_triple (fun s => exists x, P x s /\ phi x) m Q E.
Proof. intros Hm s (x & Hs & Hx). by apply (Hm x). Qed.

(** What the precondition implies, whatever the state. *)
Lemma ex_triple_fact {S A} (P : S -> Prop) (phi : Prop) (m : EX S A) Q E :
  (forall s, P s -> phi) -> (phi -> ex_triple P m Q E) -> ex_triple P m Q E.
Proof. intros Hp Hm s Hs. by apply Hm; [eapply Hp|]. Qed.

Lemma ex_triple_pure {S A} (P : S -> Prop) (phi : Prop) (m : EX S A) Q E :
  (phi -> ex_triple P m Q E) -> ex_triple (fun s => P s /\ phi) m Q E.
Proof. intros Hm s [Hs Hphi]. by apply Hm. Qed.
