(* ===== verification/CStrings.v ===== *)
(** * Numbers in strings

    What the sources use of [std::to_string], [std::stoull], [std::stoul] and
    [std::stoll]: decimal text to 64-bit integers, with the leading white
    space, signs, trailing text and range errors of the C library. *)

From S2P Require Import Prelude.
From Stdlib Require Import Ascii.

Local Open Scope Z_scope.

Definition code (c : ascii) : Z := Z.of_N (N_of_ascii c).
Definition chr (n : Z) : ascii := ascii_of_N (Z.to_N n).

(** [std::isspace] in the C locale. *)
Definition isspace (c : ascii) : bool :=
  ((9 <=? code c) && (code c <=? 13)) || (code c =? 32).

Definition digit (c : ascii) : option Z :=
  if (48 <=? code c) && (code c <=? 57) then Some (code c - 48) else None.

Fixpoint skip_space (s : string) : string :=
  match s with
  | String c s' => if isspace c then skip_space s' else s
  | EmptyString => EmptyString
  end.

(** The value of the leading digits. *)
Fixpoint read_digits (acc : Z) (s : string) : Z :=
  match s with
  | String c s' =>
    match digit c with Some d => read_digits (10 * acc + d) s' | None => acc end
  | EmptyString => acc
  end.

Definition starts_with_digit (s : string) : bool :=
  match s with String c _ => bool_decide (is_Some (digit c)) | EmptyString => false end.

(** An optional sign and the digits after it; [None]: no conversion. *)
Definition read_signed (s : string) : option (bool * Z) :=
  let '(neg, rest) :=
    match skip_space s with
    | String c s' =>
      if code c =? 45 then (true, s')
      else if code c =? 43 then (false, s') else (false, String c s')
    | EmptyString => (false, EmptyString)
    end in
  if starts_with_digit rest then Some (neg, read_digits 0 rest) else None.

(** [None]: [std::invalid_argument] or [std::out_of_range] is thrown. *)
Definition stoull (s : string) : option Z :=
  match read_signed s with
  | None => None
  | Some (neg, n) => if n <? two64 then Some (if neg then wrap64 (- n) else n) else None
  end.

(** [unsigned long] is 64 bits wide. *)
Definition stoul : string -> option Z := stoull.

Definition two63 : Z := 9223372036854775808.

Definition stoll (s : string) : option Z :=
  match read_signed s with
  | None => None
  | Some (neg, n) =>
    let v := if neg then - n else n in
    if (- two63 <=? v) && (v <? two63) then Some v else None
  end.

(** [std::to_string] of an unsigned value; [fuel] bounds the digits. *)
Fixpoint to_string_aux (fuel : nat) (n : Z) (rest : string) : string :=
  match fuel with
  | O => rest
  | S f =>
    if n <? 10 then String (chr (48 + n)) rest
    else to_string_aux f (n / 10) (String (chr (48 + n mod 10)) rest)
  end.

(** Twenty digits hold any 64-bit value. *)
Definition std_to_string (n : Z) : string := to_string_aux 20 n "".

(** [parse_positive_seconds] and [parse_reconcile_interval_seconds]: a positive
    number of seconds from an environment variable, or the default. *)
Definition parse_positive_seconds (raw : string) (fallback : Z) : Z :=
  if bool_decide (raw = ""%string) then fallback
  else match stoll raw with
       | Some parsed => if parsed <=? 0 then fallback else parsed
       | None => fallback
       end.

(** ** Round trip *)

Lemma code_chr n : 0 <= n < 256 -> code (chr n) = n.
Proof.
  intros H. unfold code, chr. rewrite N_ascii_embedding by lia. lia.
Qed.

Lemma digit_chr n : 0 <= n < 10 -> digit (chr (48 + n)) = Some n.
Proof.
  intros H. unfold digit. rewrite code_chr by lia.
  destruct (Z.leb_spec 48 (48 + n)), (Z.leb_spec (48 + n) 57); simpl; try lia. f_equal. lia.
Qed.

Lemma to_string_aux_read f : forall n rest,
  0 <= n < 10 ^ Z.of_nat f -> read_digits 0 (to_string_aux f n rest) = read_digits n rest.
Proof.
  induction f as [|f IH]; intros n rest Hn; cbn [to_string_aux].
  { simpl in Hn. replace n with 0 by lia. done. }
  destruct (Z.ltb_spec n 10) as [Hlt|Hge].
  - cbn [read_digits]. rewrite digit_chr by lia. f_equal.
  - assert (Hdiv : 0 <= n / 10 < 10 ^ Z.of_nat f).
    { rewrite Nat2Z.inj_succ, Z.pow_succ_r in Hn by lia.
      split; [apply Z.div_pos; lia|]. apply Z.div_lt_upper_bound; lia. }
    rewrite IH by done. cbn [read_digits].
    rewrite digit_chr by (apply Z.mod_pos_bound; lia). f_equal.
    symmetry. apply Z.div_mod. lia.
Qed.

Lemma to_string_aux_head f : forall n rest,
  0 <= n -> starts_with_digit rest = true \/ (0 < f)%nat ->
  starts_with_digit (to_string_aux f n rest) = true.
Proof.
  induction f as [|f IH]; intros n rest Hn Hor; cbn [to_string_aux].
  { destruct Hor; [done|lia]. }
  destruct (Z.ltb_spec n 10).
  - simpl. rewrite digit_chr by lia. done.
  - apply IH; [apply Z.div_pos; lia|]. left. simpl.
    by rewrite digit_chr by (apply Z.mod_pos_bound; lia).
Qed.

Lemma digit_head c s : starts_with_digit (String c s) = true ->
  isspace c = false /\ (code c =? 45) = false /\ (code c =? 43) = false.
Proof.
  simpl. rewrite bool_decide_eq_true. unfold digit, isspace.
  destruct (Z.leb_spec 48 (code c)), (Z.leb_spec (code c) 57); simpl; intros [d Hd]; try done.
  destruct (Z.leb_spec 9 (code c)), (Z.leb_spec (code c) 13), (Z.eqb_spec (code c) 32),
    (Z.eqb_spec (code c) 45), (Z.eqb_spec (code c) 43); simpl; try done; lia.
Qed.

Lemma read_signed_digits s :
  starts_with_digit s = true -> read_signed s = Some (false, read_digits 0 s).
Proof.
  destruct s as [|c s]; [done|]. intros H. destruct (digit_head _ _ H) as (Hs & Hm & Hp).
  unfold read_signed. cbn [skip_space]. rewrite Hs, Hm, Hp, H. done.
Qed.

(** Any [uint64_t] survives [to_string] and [stoull]. *)
Lemma stoull_to_string n : 0 <= n < two64 -> stoull (std_to_string n) = Some n.
Proof.
  intros Hn. unfold stoull, std_to_string. rewrite read_signed_digits.
  - rewrite to_string_aux_read by (unfold two64 in Hn; simpl; lia). simpl.
    destruct (Z.ltb_spec n two64); [done|lia].
  - apply to_string_aux_head; [lia|]. right. lia.
Qed.

Lemma parse_positive_seconds_pos raw d : 0 < d -> 0 < parse_positive_seconds raw d.
Proof.
  intros Hd. unfold parse_positive_seconds. case_bool_decide; [done|].
  destruct (stoll raw) as [p|]; [|done]. destruct (Z.leb_spec p 0); lia.
Qed.
