(* ===== verification/Ids.v ===== *)
(** * Identifiers and topics

    [domains/ids/Ids.h] and [app/managers/subscription/Topic.h]: the typed ids
    (one string each), the global connection id (net stack and connection) and
    the subscription topics keyed on them. *)

From S2P Require Import Prelude.

(** ** Typed ids *)

Record HubId := mkHubId { hub_value : string }.
Record ChannelId := mkChannelId { channel_value : string }.
Record UserId := mkUserId { user_value : string }.
Record MessageId := mkMessageId { message_value : string }.
Record ConnId := mkConnId { conn_value : string }.
Record NetStackId := mkNetStackId { netstack_value : string }.

Record GlobalConnId := mkGlobalConnId {
  netstack_id : NetStackId;
  conn_id : ConnId
}.

#[export] Instance HubId_eq_dec : EqDecision HubId.
Proof. solve_decision. Defined.
#[export] Instance ChannelId_eq_dec : EqDecision ChannelId.
Proof. solve_decision. Defined.
#[export] Instance UserId_eq_dec : EqDecision UserId.
Proof. solve_decision. Defined.
#[export] Instance MessageId_eq_dec : EqDecision MessageId.
Proof. solve_decision. Defined.
#[export] Instance ConnId_eq_dec : EqDecision ConnId.
Proof. solve_decision. Defined.
#[export] Instance NetStackId_eq_dec : EqDecision NetStackId.
Proof. solve_decision. Defined.
#[export] Instance GlobalConnId_eq_dec : EqDecision GlobalConnId.
Proof. solve_decision. Defined.

#[export] Instance HubId_countable : Countable HubId :=
  inj_countable' hub_value mkHubId ltac:(by intros []).
#[export] Instance ChannelId_countable : Countable ChannelId :=
  inj_countable' channel_value mkChannelId ltac:(by intros []).
#[export] Instance UserId_countable : Countable UserId :=
  inj_countable' user_value mkUserId ltac:(by intros []).
#[export] Instance ConnId_countable : Countable ConnId :=
  inj_countable' conn_value mkConnId ltac:(by intros []).
#[export] Instance NetStackId_countable : Countable NetStackId :=
  inj_countable' netstack_value mkNetStackId ltac:(by intros []).
#[export] Instance GlobalConnId_countable : Countable GlobalConnId :=
  inj_countable' (fun g => (netstack_id g, conn_id g))
    (fun p => mkGlobalConnId p.1 p.2) ltac:(by intros []).

(** [to_string(const GlobalConnId&)]. *)
Definition to_string (id : GlobalConnId) : string :=
  (netstack_value (netstack_id id) +:+ "/" +:+ conn_value (conn_id id))%string.

(** A default-constructed id holds the empty string. *)
Definition empty_hub : HubId := mkHubId "".
Definition empty_channel : ChannelId := mkChannelId "".
Definition empty_user : UserId := mkUserId "".

(** ** Topics *)

Module Topic.

Inductive TopicKind := Hub | Channel | User.

#[global] Instance TopicKind_eq_dec : EqDecision TopicKind.
Proof. solve_decision. Defined.

Record t := mk {
  kind : TopicKind;
  primary : string;
  secondary : string
}.

#[global] Instance t_eq_dec : EqDecision t.
Proof. solve_decision. Defined.

Definition kind_code (k : TopicKind) : nat :=
  match k with Hub => 0 | Channel => 1 | User => 2 end.
Definition kind_of_code (n : nat) : TopicKind :=
  match n with 0 => Hub | 1 => Channel | _ => User end.

#[global] Instance t_countable : Countable t :=
  inj_countable' (fun x => (kind_code (kind x), primary x, secondary x))
    (fun p => mk (kind_of_code p.1.1) p.1.2 p.2) ltac:(by intros [[] ? ?]).

Definition HubTopic (hub : HubId) : t := mk Hub (hub_value hub) "".
Definition ChannelTopic (hub : HubId) (channel : ChannelId) : t :=
  mk Channel (hub_value hub) (channel_value channel).
Definition UserTopic (user : UserId) : t := mk User (user_value user) "".

Definition extractHubId (topic : t) : HubId :=
  match kind topic with
  | Hub | Channel => mkHubId (primary topic)
  | User => empty_hub
  end.
Definition extractChannelId (topic : t) : ChannelId :=
  match kind topic with
  | Channel => mkChannelId (secondary topic)
  | _ => empty_channel
  end.
Definition extractUserId (topic : t) : UserId :=
  match kind topic with
  | User => mkUserId (primary topic)
  | _ => empty_user
  end.

End Topic.
