(* ===== verification/Protocol.v ===== *)
(** * The wire protocol and the domain types

    [proto/envelope.proto], [proto/command/*.proto], [proto/event/*.proto],
    [proto/domain/*.proto] as records and inductive types, the domain structs
    of [domains/*.h], [proto/ParsedPayload.h] (the parse of an inbound
    envelope) and the conversions of [app/commands/utils.cpp].  The protobuf
    runtime itself is a parameter: [Parsers] holds one [ParseFromString] per
    command message. *)

From S2P Require Import Prelude.
From S2P Require Import Ids.

(** ** Envelope types *)

Module Envelope.

(** [Envelope::Type].  proto3 enums are open: a wire value outside the list
    survives parsing, here as [Unrecognized]. *)
Inductive Type_ :=
  | UNKNOWN | CommandError | PING | PONG | ACK
  | AUTH | AUTH_OK | REQUEST_STATE_SYNC | STATE_SYNC | STATE_DELTA | RT_SIGNAL
  | TYPING | ACTIVE_CHANNEL | VOICE_JOIN | VOICE_KICK_PARTICIPANT | VOICE_ACTIVITY
  | VOICE_TOKEN_ISSUED | VOICE_SELF_STATUS | VOICE_SELF_REVOKED | VOICE_KEY_UPDATE
  | MESSAGE_SEND | MESSAGE_FETCH_BEFORE
  | HUB_CREATE | HUB_JOIN | HUB_CREATE_JOIN_CODE | HUB_LEAVE | HUB_REMOVE
  | HUB_MEMBER_KICK | HUB_UPDATE | HUB_MEMBER_ROLE_UPDATE | HUB_INVITE_VALIDATE
  | USER_UPDATE | CHANNEL_CREATE | CHANNEL_UPDATE | CHANNEL_REMOVE
  | Unrecognized (n : Z).

#[global] Instance Type_eq_dec : EqDecision Type_.
Proof. solve_decision. Defined.

Definition known : list Type_ :=
  [UNKNOWN; CommandError; PING; PONG; ACK; AUTH; AUTH_OK; REQUEST_STATE_SYNC; STATE_SYNC;
   STATE_DELTA; RT_SIGNAL; TYPING; ACTIVE_CHANNEL; VOICE_JOIN; VOICE_KICK_PARTICIPANT;
   VOICE_ACTIVITY; VOICE_TOKEN_ISSUED; VOICE_SELF_STATUS; VOICE_SELF_REVOKED;
   VOICE_KEY_UPDATE; MESSAGE_SEND; MESSAGE_FETCH_BEFORE; HUB_CREATE; HUB_JOIN;
   HUB_CREATE_JOIN_CODE; HUB_LEAVE; HUB_REMOVE; HUB_MEMBER_KICK; HUB_UPDATE;
   HUB_MEMBER_ROLE_UPDATE; HUB_INVITE_VALIDATE; USER_UPDATE; CHANNEL_CREATE;
   CHANNEL_UPDATE; CHANNEL_REMOVE].

(** The field numbers of the [.proto] file. *)
Definition number (ty : Type_) : Z :=
  match ty with
  | UNKNOWN => 0 | CommandError => 1 | PING => 10 | PONG => 11 | ACK => 12
  | AUTH => 20 | AUTH_OK => 21 | REQUEST_STATE_SYNC => 22 | STATE_SYNC => 23
  | STATE_DELTA => 24 | RT_SIGNAL => 25 | TYPING => 30 | ACTIVE_CHANNEL => 31
  | VOICE_JOIN => 33 | VOICE_KICK_PARTICIPANT => 34 | VOICE_ACTIVITY => 35
  | VOICE_TOKEN_ISSUED => 36 | VOICE_SELF_STATUS => 37 | VOICE_SELF_REVOKED => 38
  | VOICE_KEY_UPDATE => 39 | MESSAGE_SEND => 40 | MESSAGE_FETCH_BEFORE => 42
  | HUB_CREATE => 50 | HUB_JOIN => 51 | HUB_CREATE_JOIN_CODE => 52 | HUB_LEAVE => 53
  | HUB_REMOVE => 54 | HUB_MEMBER_KICK => 55 | HUB_UPDATE => 56
  | HUB_MEMBER_ROLE_UPDATE => 57 | HUB_INVITE_VALIDATE => 58 | USER_UPDATE => 70
  | CHANNEL_CREATE => 80 | CHANNEL_UPDATE => 81 | CHANNEL_REMOVE => 85
  | Unrecognized n => n
  end%Z.

Definition encode_type (ty : Type_) : Z + Z :=
  match ty with Unrecognized n => inr n | _ => inl (number ty) end.
Definition decode_type (c : Z + Z) : Type_ :=
  match c with
  | inr n => Unrecognized n
  | inl n => default UNKNOWN (List.find (fun ty => bool_decide (number ty = n)) known)
  end.

#[global] Instance Type_countable : Countable Type_ :=
  inj_countable' encode_type decode_type ltac:(by intros []).

(** [message Envelope]; [payload] is the serialized inner message. *)
Record t := mk {
  version : Z;
  type : Type_;
  seq : Z;
  payload : string
}.

End Envelope.

(** ** Domain types *)

(** [domains/Hub.h]. *)
Inductive Role := USER | ADMIN | OWNER.
(** [domains/Channel.h]. *)
Inductive ChannelType := CHAT | VOICE.

#[export] Instance Role_eq_dec : EqDecision Role.
Proof. solve_decision. Defined.
#[export] Instance ChannelType_eq_dec : EqDecision ChannelType.
Proof. solve_decision. Defined.

(** [enum HubRole] and [enum ChannelType] of the protocol, open as well. *)
Inductive HubRole := HubRole_UNSPECIFIED | HubRole_MEMBER | HubRole_OWNER | HubRole_ADMIN
  | HubRole_other (n : Z).
Inductive ProtoChannelType := ChannelType_UNSPECIFIED | ChannelType_TEXT | ChannelType_VOICE
  | ChannelType_other (n : Z).

#[export] Instance HubRole_eq_dec : EqDecision HubRole.
Proof. solve_decision. Defined.

(** [message ChannelRef]. *)
Record ChannelRef := mkChannelRef { ref_hub_id : string; ref_channel_id : string }.

(** [enum CommandErrorCode] ([proto/event/error.proto]). *)
Inductive CommandErrorCode :=
  | ERR_UNSPECIFIED | UNAUTHORIZED | TOKEN_EXPIRED | FORBIDDEN | INVALID_SESSION
  | INVALID_FORMAT | INVALID_ARGUMENT | DUPLICATE_COMMAND | NOT_FOUND | RATE_LIMITED
  | INTERNAL_ERROR | DUPLICATE_IN_FLIGHT | VOICE_TAKEOVER_REQUIRED
  | SESSION_LIMIT_EXCEEDED | INVITE_EXPIRED.

#[export] Instance CommandErrorCode_eq_dec : EqDecision CommandErrorCode.
Proof. solve_decision. Defined.

(** [static_cast<int>(code)]. *)
Definition error_number (c : CommandErrorCode) : Z :=
  match c with
  | ERR_UNSPECIFIED => 0 | UNAUTHORIZED => 1 | TOKEN_EXPIRED => 2 | FORBIDDEN => 3
  | INVALID_SESSION => 4 | INVALID_FORMAT => 10 | INVALID_ARGUMENT => 11
  | DUPLICATE_COMMAND => 12 | NOT_FOUND => 13 | RATE_LIMITED => 14 | INTERNAL_ERROR => 15
  | DUPLICATE_IN_FLIGHT => 16 | VOICE_TAKEOVER_REQUIRED => 17
  | SESSION_LIMIT_EXCEEDED => 18 | INVITE_EXPIRED => 19
  end%Z.

(** ** Client commands *)

Inductive AuthType := AuthType_UNSPECIFIED | AuthType_AUTH | AuthType_REAUTH | AuthType_other (n : Z).
Inductive AuthProvider := AuthProvider_UNSPECIFIED | AuthProvider_SUPABASE | AuthProvider_other (n : Z).

#[export] Instance AuthType_eq_dec : EqDecision AuthType.
Proof. solve_decision. Defined.
#[export] Instance AuthProvider_eq_dec : EqDecision AuthProvider.
Proof. solve_decision. Defined.

(** A sub-message that is not set reads as its default value; [has_x()] is the
    [option].  [channel] fields are read through [cmd.channel()], so they are
    plain [ChannelRef]s. *)
Record VoiceResume := mkVoiceResume { vr_channel : ChannelRef; vr_resume_id : string }.
Record Authenticate := mkAuthenticate {
  auth_type : AuthType; auth_provider : AuthProvider; auth_token : string;
  auth_voice_resume : option VoiceResume }.
Record RequestStateSync := mkRequestStateSync { rss_hub_ids : list string }.
Record Typing := mkTyping { ty_channel : ChannelRef; ty_is_typing : bool }.
Record MessageCursor := mkMessageCursor {
  cur_message_id : string; cur_created_at_unix_us : Z; cur_message_seq : Z }.
Record SelectActiveChannel := mkSelectActiveChannel {
  sac_channel : ChannelRef; sac_latest_limit : Z; sac_known_latest_cursor : option MessageCursor }.
Record JoinVoiceChannelRequest := mkJoinVoiceChannelRequest {
  jv_channel : ChannelRef; jv_prefer_muted : bool; jv_prefer_deafened : bool }.
Record KickVoiceParticipant := mkKickVoiceParticipant { kv_channel : ChannelRef; kv_user_id : string }.
Record VoiceChannelActivity := mkVoiceChannelActivity {
  va_channel : ChannelRef; va_is_muted : bool; va_is_deafened : bool }.
Inductive MessageAttachmentKind := MessageAttachmentKind_UNSPECIFIED
  | MessageAttachmentKind_IMAGE | MessageAttachmentKind_FILE | MessageAttachmentKind_other (n : Z).
Record MessageAttachment := mkMessageAttachment {
  at_id : string; at_kind : MessageAttachmentKind; at_storage_key : string; at_mime_type : string;
  at_display_name : string; at_size_bytes : Z; at_storage_bucket : string }.
Record MessageLinkPreview := mkMessageLinkPreview {
  lp_url : string; lp_title : string; lp_description : string; lp_site_name : string;
  lp_image_url : string }.
Record SendMessage := mkSendMessage {
  sm_channel : ChannelRef; sm_content : string; sm_attachments : list MessageAttachment;
  sm_link_preview : option MessageLinkPreview }.
Record FetchMessagesBefore := mkFetchMessagesBefore {
  fm_channel : ChannelRef; fm_before_cursor : option MessageCursor; fm_limit : Z }.
Record CreateHub := mkCreateHub { ch_name : string }.
Record JoinHub := mkJoinHub { jh_join_code : string }.
Record CreateHubJoinCode := mkCreateHubJoinCode { chj_hub_id : string }.
Record ValidateHubInvite := mkValidateHubInvite { vhi_join_code : string }.
Record LeaveHub := mkLeaveHub { lh_hub_id : string }.
Record RemoveHub := mkRemoveHub { rh_hub_id : string }.
Record KickHubMember := mkKickHubMember { kh_hub_id : string; kh_user_id : string }.
Record UpdateHub := mkUpdateHub {
  uh_hub_id : string; uh_name : option string; uh_avatar_seed : option string }.
Record UpdateHubMemberRole := mkUpdateHubMemberRole {
  ur_hub_id : string; ur_user_id : string; ur_role : HubRole }.
Record CreateChannel := mkCreateChannel {
  cc_hub_id : string; cc_name : string; cc_type : ProtoChannelType }.
Record UpdateChannel := mkUpdateChannel { uc_channel : ChannelRef; uc_name : option string }.
Record RemoveChannel := mkRemoveChannel { rc_channel : ChannelRef }.
Record UpdateUser := mkUpdateUser {
  uu_username : option string; uu_avatar_seed : option string; uu_display_name : option string }.
Record Ping := mkPing { last_recv_seq : Z }.

(** [sercom::protocol::ParsedPayload]. *)
Inductive ParsedPayload :=
  | P_monostate
  | P_Authenticate (m : Authenticate) | P_RequestStateSync (m : RequestStateSync)
  | P_Typing (m : Typing) | P_SelectActiveChannel (m : SelectActiveChannel)
  | P_JoinVoiceChannelRequest (m : JoinVoiceChannelRequest)
  | P_KickVoiceParticipant (m : KickVoiceParticipant)
  | P_VoiceChannelActivity (m : VoiceChannelActivity) | P_SendMessage (m : SendMessage)
  | P_FetchMessagesBefore (m : FetchMessagesBefore) | P_CreateHub (m : CreateHub)
  | P_JoinHub (m : JoinHub) | P_CreateHubJoinCode (m : CreateHubJoinCode)
  | P_ValidateHubInvite (m : ValidateHubInvite) | P_LeaveHub (m : LeaveHub)
  | P_RemoveHub (m : RemoveHub) | P_KickHubMember (m : KickHubMember)
  | P_UpdateHub (m : UpdateHub) | P_UpdateHubMemberRole (m : UpdateHubMemberRole)
  | P_CreateChannel (m : CreateChannel) | P_UpdateChannel (m : UpdateChannel)
  | P_RemoveChannel (m : RemoveChannel) | P_UpdateUser (m : UpdateUser) | P_Ping (m : Ping).

(** [T::ParseFromString] of the generated classes. *)
Record Parsers := mkParsers {
  parse_Ping : string -> option Ping;
  parse_Authenticate : string -> option Authenticate;
  parse_RequestStateSync : string -> option RequestStateSync;
  parse_Typing : string -> option Typing;
  parse_SelectActiveChannel : string -> option SelectActiveChannel;
  parse_JoinVoiceChannelRequest : string -> option JoinVoiceChannelRequest;
  parse_KickVoiceParticipant : string -> option KickVoiceParticipant;
  parse_VoiceChannelActivity : string -> option VoiceChannelActivity;
  parse_SendMessage : string -> option SendMessage;
  parse_FetchMessagesBefore : string -> option FetchMessagesBefore;
  parse_CreateHub : string -> option CreateHub;
  parse_JoinHub : string -> option JoinHub;
  parse_CreateHubJoinCode : string -> option CreateHubJoinCode;
  parse_ValidateHubInvite : string -> option ValidateHubInvite;
  parse_LeaveHub : string -> option LeaveHub;
  parse_RemoveHub : string -> option RemoveHub;
  parse_KickHubMember : string -> option KickHubMember;
  parse_UpdateHub : string -> option UpdateHub;
  parse_UpdateHubMemberRole : string -> option UpdateHubMemberRole;
  parse_CreateChannel : string -> option CreateChannel;
  parse_UpdateChannel : string -> option UpdateChannel;
  parse_RemoveChannel : string -> option RemoveChannel;
  parse_UpdateUser : string -> option UpdateUser
}.

(** [ParsedPayloadResult]: a payload or an error text. *)
Abbreviation ParsedPayloadResult := (expected ParsedPayload string).

Definition parse_payload_as {T} (parse : string -> option T) (inject : T -> ParsedPayload)
  (env : Envelope.t) (error : string) : ParsedPayloadResult :=
  match parse (Envelope.payload env) with
  | None => Unexpected error
  | Some msg => Ok (inject msg)
  end.

Definition parse_inbound_payload (ps : Parsers) (env : Envelope.t) : ParsedPayloadResult :=
  if negb (Envelope.version env =? 1)%Z then Unexpected "Unsupported protocol version"
  else
    match Envelope.type env with
    | Envelope.PING => parse_payload_as (parse_Ping ps) P_Ping env "Invalid PING payload"
    | Envelope.AUTH =>
      parse_payload_as (parse_Authenticate ps) P_Authenticate env "Invalid AUTH payload"
    | Envelope.REQUEST_STATE_SYNC =>
      parse_payload_as (parse_RequestStateSync ps) P_RequestStateSync env
        "Invalid REQUEST_STATE_SYNC payload"
    | Envelope.TYPING => parse_payload_as (parse_Typing ps) P_Typing env "Invalid TYPING payload"
    | Envelope.ACTIVE_CHANNEL =>
      parse_payload_as (parse_SelectActiveChannel ps) P_SelectActiveChannel env
        "Invalid ACTIVE_CHANNEL payload"
    | Envelope.VOICE_JOIN =>
      parse_payload_as (parse_JoinVoiceChannelRequest ps) P_JoinVoiceChannelRequest env
        "Invalid VOICE_JOIN payload"
    | Envelope.VOICE_KICK_PARTICIPANT =>
      parse_payload_as (parse_KickVoiceParticipant ps) P_KickVoiceParticipant env
        "Invalid VOICE_KICK_PARTICIPANT payload"
    | Envelope.VOICE_ACTIVITY =>
      parse_payload_as (parse_VoiceChannelActivity ps) P_VoiceChannelActivity env
        "Invalid VOICE_ACTIVITY payload"
    | Envelope.MESSAGE_SEND =>
      parse_payload_as (parse_SendMessage ps) P_SendMessage env "Invalid MESSAGE_SEND payload"
    | Envelope.MESSAGE_FETCH_BEFORE =>
      parse_payload_as (parse_FetchMessagesBefore ps) P_FetchMessagesBefore env
        "Invalid MESSAGE_FETCH_BEFORE payload"
    | Envelope.HUB_CREATE =>
      parse_payload_as (parse_CreateHub ps) P_CreateHub env "Invalid HUB_CREATE payload"
    | Envelope.HUB_JOIN =>
      parse_payload_as (parse_JoinHub ps) P_JoinHub env "Invalid HUB_JOIN payload"
    | Envelope.HUB_CREATE_JOIN_CODE =>
      parse_payload_as (parse_CreateHubJoinCode ps) P_CreateHubJoinCode env
        "Invalid HUB_CREATE_JOIN_CODE payload"
    | Envelope.HUB_INVITE_VALIDATE =>
      parse_payload_as (parse_ValidateHubInvite ps) P_ValidateHubInvite env
        "Invalid HUB_INVITE_VALIDATE payload"
    | Envelope.HUB_LEAVE =>
      parse_payload_as (parse_LeaveHub ps) P_LeaveHub env "Invalid HUB_LEAVE payload"
    | Envelope.HUB_REMOVE =>
      parse_payload_as (parse_RemoveHub ps) P_RemoveHub env "Invalid HUB_REMOVE payload"
    | Envelope.HUB_MEMBER_KICK =>
      parse_payload_as (parse_KickHubMember ps) P_KickHubMember env
        "Invalid HUB_MEMBER_KICK payload"
    | Envelope.HUB_UPDATE =>
      parse_payload_as (parse_UpdateHub ps) P_UpdateHub env "Invalid HUB_UPDATE payload"
    | Envelope.HUB_MEMBER_ROLE_UPDATE =>
      parse_payload_as (parse_UpdateHubMemberRole ps) P_UpdateHubMemberRole env
        "Invalid HUB_MEMBER_ROLE_UPDATE payload"
    | Envelope.CHANNEL_CREATE =>
      parse_payload_as (parse_CreateChannel ps) P_CreateChannel env
        "Invalid CHANNEL_CREATE payload"
    | Envelope.CHANNEL_UPDATE =>
      parse_payload_as (parse_UpdateChannel ps) P_UpdateChannel env
        "Invalid CHANNEL_UPDATE payload"
    | Envelope.CHANNEL_REMOVE =>
      parse_payload_as (parse_RemoveChannel ps) P_RemoveChannel env
        "Invalid CHANNEL_REMOVE payload"
    | Envelope.USER_UPDATE =>
      parse_payload_as (parse_UpdateUser ps) P_UpdateUser env "Invalid USER_UPDATE payload"
    | Envelope.UNKNOWN => Unexpected "Unknown message type"
    | Envelope.CommandError | Envelope.PONG | Envelope.AUTH_OK | Envelope.STATE_SYNC
    | Envelope.STATE_DELTA | Envelope.RT_SIGNAL | Envelope.VOICE_TOKEN_ISSUED
    | Envelope.VOICE_SELF_STATUS | Envelope.VOICE_SELF_REVOKED =>
      Unexpected "Server-only message type"
    | _ => Unexpected "Unsupported message type"
    end.
