(* ===== verification/PriorityQueues.v ===== *)
(** * The two-level queues

    [app/queue/EventQueue.h] and [app/queue/Msg.h] (inbound events) and
    [net/outbound/OutgoingQueue.h] (outbound messages): bounded queues with a
    high and a low priority deque.  What a queue promises its clients is the
    class [PrioQueue]: it behaves like the abstract queue [SQ].  The properties
    are proved of [SQ] and hold of both implementations through the class. *)

From S2P Require Import Prelude.
From S2P Require Import Ids.
From S2P Require Import Protocol.

(** ** The abstract queue *)

Inductive Priority := High | Low.

#[export] Instance Priority_eq_dec : EqDecision Priority.
Proof. solve_decision. Defined.

Inductive PushOutcome := PushOk | PushDroppedLow | PushDroppedHigh.

Section Abstract.
Context {A : Type} (prio : A -> Priority).

(** Capacity 0 means unbounded; [sq_lost] counts, modulo
    [2^64], what was refused or evicted. *)
Record SQ := mkSQ { sq_cap : Z; sq_high : list A; sq_low : list A; sq_lost : Z }.

Definition sq_size (q : SQ) : Z := Z.of_nat (length (sq_high q) + length (sq_low q)).

Definition sq_full (q : SQ) : bool := (0 <? sq_cap q)%Z && (sq_cap q <=? sq_size q)%Z.

Definition sq_append (q : SQ) (x : A) : SQ :=
  match prio x with
  | Low => mkSQ (sq_cap q) (sq_high q) (sq_low q ++ [x]) (sq_lost q)
  | High => mkSQ (sq_cap q) (sq_high q ++ [x]) (sq_low q) (sq_lost q)
  end.

Definition sq_lose (q : SQ) (low : list A) : SQ :=
  mkSQ (sq_cap q) (sq_high q) low (wrap64 (sq_lost q + 1)).

Definition sq_push (q : SQ) (x : A) : PushOutcome * SQ :=
  if sq_full q then
    match prio x, sq_low q with
    | Low, _ => (PushDroppedLow, sq_lose q (sq_low q))
    | High, [] => (PushDroppedHigh, sq_lose q [])
    | High, low => (PushOk, sq_append (sq_lose q (removelast low)) x)
    end
  else (PushOk, sq_append q x).

Definition sq_pop (q : SQ) : option A * SQ :=
  match sq_high q, sq_low q with
  | x :: h, l => (Some x, mkSQ (sq_cap q) h l (sq_lost q))
  | [], x :: l => (Some x, mkSQ (sq_cap q) [] l (sq_lost q))
  | [], [] => (None, q)
  end.
End Abstract.
Arguments SQ : clear implicits.

(** What a queue implementation promises.  [pq_ok] is its representation
    invariant; a push needs the size to stay below [2^64]. *)
Class PrioQueue (Q A : Type) := {
  pq_prio : A -> Priority;
  pq_push : Q -> A -> PushOutcome * Q;
  pq_pop : Q -> option A * Q;
  pq_abs : Q -> SQ A;
  pq_ok : Q -> Prop;
  pq_push_sim : forall q x, pq_ok q -> (sq_size (pq_abs q) + 1 < two64)%Z ->
    pq_ok (pq_push q x).2 /\
    ((pq_push q x).1, pq_abs (pq_push q x).2) = sq_push pq_prio (pq_abs q) x;
  pq_pop_sim : forall q, pq_ok q ->
    pq_ok (pq_pop q).2 /\ ((pq_pop q).1, pq_abs (pq_pop q).2) = sq_pop (pq_abs q)
}.

(** ** Traces

    A trace of pushes and pops, with the items accepted and delivered so far. *)

Inductive qop (A : Type) := QPush (x : A) | QPop.
Arguments QPush {A} _.
Arguments QPop {A}.

Record history (A : Type) := mkHistory {
  offered : nat;
  accepted : list A;
  delivered : list A
}.
Arguments mkHistory {A} _ _ _.
Arguments offered {A} _.
Arguments accepted {A} _.
Arguments delivered {A} _.

Definition note_push {A} (h : history A) (x : A) (o : PushOutcome) : history A :=
  mkHistory (S (offered h))
    (match o with PushOk => accepted h ++ [x] | _ => accepted h end) (delivered h).

Definition note_pop {A} (h : history A) (x : option A) : history A :=
  mkHistory (offered h) (accepted h)
    (match x with Some y => delivered h ++ [y] | None => delivered h end).

Definition qstep {Q A} `{PrioQueue Q A} (st : history A * Q) (o : qop A) : history A * Q :=
  let '(h, q) := st in
  match o with
  | QPush x => let '(r, q') := pq_push q x in (note_push h x r, q')
  | QPop => let '(r, q') := pq_pop q in (note_pop h r, q')
  end.

Definition qrun {Q A} `{PrioQueue Q A} (q : Q) (ops : list (qop A)) : history A * Q :=
  foldl qstep (mkHistory 0 [] [], q) ops.

Section TraceInvariant.
Context {A : Type} (prio : A -> Priority).

Definition highs (l : list A) : list A := filter (fun x => prio x = High) l.
Definition lows (l : list A) : list A := filter (fun x => prio x = Low) l.

(** Accepted high items are delivered or queued, all of them and in order;
    low items are delivered in order, some may be missing; the queue keeps to
    its capacity; every item offered is delivered, queued or counted lost. *)
Record trace_ok (h : history A) (q : SQ A) : Prop := mk_trace_ok {
  tr_high : highs (delivered h) ++ sq_high q = highs (accepted h);
  tr_low : lows (delivered h) ++ sq_low q `sublist_of` lows (accepted h);
  tr_high_prio : Forall (fun x => prio x = High) (sq_high q);
  tr_low_prio : Forall (fun x => prio x = Low) (sq_low q);
  tr_cap : (0 < sq_cap q)%Z -> (sq_size q <= sq_cap q)%Z;
  tr_count : sq_lost q =
    wrap64 (Z.of_nat (offered h) - Z.of_nat (length (delivered h)) - sq_size q)
}.

Lemma highs_snoc l x : highs (l ++ [x]) = highs l ++ (if decide (prio x = High) then [x] else []).
Proof. unfold highs. by rewrite list.filter_app. Qed.
Lemma lows_snoc l x : lows (l ++ [x]) = lows l ++ (if decide (prio x = Low) then [x] else []).
Proof. unfold lows. by rewrite list.filter_app. Qed.

Lemma highs_lows_length l : (length (highs l) + length (lows l) = length l)%nat.
Proof.
  induction l as [|x l IH]; [done|]. unfold highs, lows in *. rewrite !filter_cons.
  destruct (prio x); simpl; lia.
Qed.

Lemma append_trace_ok h q x :
  trace_ok h q -> ((0 < sq_cap q)%Z -> (sq_size q < sq_cap q)%Z) ->
  trace_ok (note_push h x PushOk) (sq_append prio q x).
Proof.
  intros [H1 H2 H3 H4 H5 H6] Hroom. unfold sq_append, sq_size in *.
  destruct (prio x) eqn:Hp; split; simpl; rewrite ?highs_snoc, ?lows_snoc, ?Hp; simpl;
    rewrite ?app_nil_r, ?app_assoc, ?length_app; try done.
  - by rewrite H1.
  - apply Forall_app. by rewrite Forall_singleton.
  - unfold sq_size. simpl. rewrite length_app. simpl. lia.
  - rewrite H6. unfold sq_size. simpl. rewrite length_app. f_equal. simpl. lia.
  - by apply sublist_app.
  - apply Forall_app. by rewrite Forall_singleton.
  - unfold sq_size. simpl. rewrite length_app. simpl. lia.
  - rewrite H6. unfold sq_size. simpl. rewrite length_app. f_equal. simpl. lia.
Qed.

Lemma refuse_trace_ok h q x o low : o <> PushOk ->
  low = sq_low q -> trace_ok h q -> trace_ok (note_push h x o) (sq_lose q low).
Proof.
  intros Ho -> [H1 H2 H3 H4 H5 H6].
  assert (accepted (note_push h x o) = accepted h) as Ha by (by destruct o).
  split; try done; rewrite ?Ha; try done. simpl. unfold sq_size in *. simpl.
  rewrite H6. unfold wrap64. rewrite Zplus_mod_idemp_l. f_equal. lia.
Qed.

(** Evicting the newest low item. *)
Lemma evict_trace_ok h q :
  trace_ok h q -> sq_low q <> [] ->
  let q' := sq_lose q (removelast (sq_low q)) in
  sq_size q' = (sq_size q - 1)%Z /\ trace_ok h q'.
Proof.
  intros [H1 H2 H3 H4 H5 H6] Hne. simpl.
  destruct (exists_last Hne) as (l & y & Hl). rewrite Hl in *. rewrite removelast_last.
  assert (Hsz : sq_size (sq_lose q l) = (sq_size q - 1)%Z).
  { unfold sq_size. simpl. rewrite Hl, length_app. simpl. lia. }
  split; [done|]. split; try done; rewrite ?Hsz.
  - rewrite app_assoc in H2. simpl. etrans; [|apply H2]. by apply sublist_inserts_r.
  - by apply Forall_app in H4 as [H4 _].
  - simpl. intros Hc. specialize (H5 Hc). lia.
  - simpl. rewrite H6. unfold wrap64. rewrite Zplus_mod_idemp_l. f_equal. lia.
Qed.

Lemma push_trace_ok h q x :
  trace_ok h q ->
  trace_ok (note_push h x (sq_push prio q x).1) (sq_push prio q x).2.
Proof.
  intros Hok. unfold sq_push. destruct (sq_full q) eqn:Hf.
  - destruct (prio x) eqn:Hp; [|by apply refuse_trace_ok].
    destruct (sq_low q) as [|y l] eqn:Hl; [by apply refuse_trace_ok|].
    rewrite <- Hl. simpl. destruct (evict_trace_ok h q Hok) as [Hsz Hok']; [by rewrite Hl|].
    apply append_trace_ok; [done|]. rewrite Hsz. simpl. intros Hc.
    apply (tr_cap _ _ Hok) in Hc. lia.
  - simpl. apply append_trace_ok; [done|]. intros Hc. unfold sq_full in Hf.
    apply andb_false_iff in Hf as [Hf|Hf]; [apply Z.ltb_ge in Hf|apply Z.leb_gt in Hf]; lia.
Qed.

Lemma pop_trace_ok h q :
  trace_ok h q -> trace_ok (note_pop h (sq_pop q).1) (sq_pop q).2.
Proof.
  intros [H1 H2 H3 H4 H5 H6]. destruct q as [cap hh ll lost]. unfold sq_pop, sq_size in *.
  simpl in *. destruct hh as [|x hs]; [destruct ll as [|x ls]|].
  - by split.
  - apply list.Forall_cons in H4 as [Hx H4].
    split; simpl; rewrite ?highs_snoc, ?lows_snoc, ?Hx; simpl;
      rewrite ?app_nil_r, <- ?app_assoc, ?length_app; unfold sq_size; simpl in *; try done.
    + by rewrite app_nil_r in H1.
    + lia.
    + rewrite H6. f_equal. lia.
  - apply list.Forall_cons in H3 as [Hx H3].
    split; simpl; rewrite ?highs_snoc, ?lows_snoc, ?Hx; simpl;
      rewrite ?app_nil_r, <- ?app_assoc, ?length_app; unfold sq_size; simpl in *; try done.
    + lia.
    + rewrite H6. f_equal. lia.
Qed.

Lemma empty_trace_ok cap : trace_ok (mkHistory 0 [] []) (mkSQ cap [] [] 0).
Proof. split; try done; try constructor. unfold sq_size. simpl. lia. Qed.
End TraceInvariant.

Section Simulation.
Context {Q A : Type} `{PrioQueue Q A}.

Lemma trace_size (prio : A -> Priority) h q :
  trace_ok prio h q -> (sq_size q <= Z.of_nat (length (accepted h)))%Z.
Proof.
  intros [H1 H2 _ _ _ _]. apply sublist_length in H2.
  apply (f_equal length) in H1. rewrite length_app in H1, H2. unfold sq_size.
  pose proof (highs_lows_length prio (accepted h)). lia.
Qed.

Lemma qrun_invariant ops : forall (h : history A) (q : Q),
  pq_ok q -> trace_ok pq_prio h (pq_abs q) ->
  (Z.of_nat (length (accepted h)) + Z.of_nat (length ops) < two64)%Z ->
  let '(h', q') := foldl qstep (h, q) ops in
  pq_ok q' /\ trace_ok pq_prio h' (pq_abs q').
Proof.
  induction ops as [|o ops IH]; intros h q Hok Htr Hlen; [done|]. simpl in Hlen.
  pose proof (trace_size _ _ _ Htr) as Hsz. destruct o as [x|]; simpl.
  - destruct (pq_push_sim q x Hok) as [Hok' Hsim]; [lia|].
    pose proof (push_trace_ok pq_prio h (pq_abs q) x Htr) as Htr'. rewrite <- Hsim in Htr'.
    destruct (pq_push q x) as [r q']. simpl in *. apply IH; try done.
    assert (length (accepted (note_push h x r)) <= S (length (accepted h)))%nat; [|lia].
    destruct r; simpl; rewrite ?length_app; simpl; lia.
  - destruct (pq_pop_sim q Hok) as [Hok' Hsim].
    pose proof (pop_trace_ok pq_prio h (pq_abs q) Htr) as Htr'. rewrite <- Hsim in Htr'.
    destruct (pq_pop q) as [r q']. simpl in *. apply IH; try done. simpl. lia.
Qed.

Lemma qrun_offered ops : forall (q : Q) (h : history A),
  (length (accepted (foldl qstep (h, q) ops).1) <= length (accepted h) + length ops)%nat.
Proof.
  induction ops as [|o ops IH]; intros q h; simpl; [lia|]. destruct o as [x|]; simpl.
  - destruct (pq_push q x) as [r q']. etrans; [apply IH|].
    destruct r; simpl; rewrite ?length_app; simpl; lia.
  - destruct (pq_pop q) as [r q']. etrans; [apply IH|]. simpl. lia.
Qed.

(** A low item is handed out only when no high item waits. *)
Lemma pop_high_first q x :
  pq_ok q -> Forall (fun y => pq_prio y = High) (sq_high (pq_abs q)) ->
  (pq_pop q).1 = Some x -> pq_prio x = Low -> sq_high (pq_abs q) = [].
Proof.
  intros Hok Hh Hx Hp. destruct (pq_pop_sim q Hok) as [_ Hsim]. apply (f_equal fst) in Hsim.
  simpl in Hsim. rewrite Hx in Hsim. unfold sq_pop in Hsim.
  destruct (sq_high (pq_abs q)) as [|y l]; [done|]. simpl in Hsim. simplify_eq.
  apply list.Forall_cons in Hh as [Hy _]. congruence.
Qed.

(** A high item is refused only by a full queue of high items. *)
Lemma push_high_refused q x :
  pq_ok q -> (sq_size (pq_abs q) + 1 < two64)%Z ->
  (pq_push q x).1 = PushDroppedHigh ->
  sq_low (pq_abs q) = [] /\ (0 < sq_cap (pq_abs q) <= sq_size (pq_abs q))%Z.
Proof.
  intros Hok Hr Hx. destruct (pq_push_sim q x Hok Hr) as [_ Hsim]. apply (f_equal fst) in Hsim.
  simpl in Hsim. rewrite Hx in Hsim. unfold sq_push, sq_full in Hsim.
  destruct ((0 <? sq_cap (pq_abs q))%Z && _) eqn:Hf; [|done].
  apply andb_true_iff in Hf as [H1 H2]. apply Z.ltb_lt in H1. apply Z.leb_le in H2.
  destruct (pq_prio x), (sq_low (pq_abs q)); try done.
Qed.
End Simulation.

(** ** Inbound events *)

Module EventQueue.

(** [app/queue/Msg.h]. *)
Inductive Event :=
  | ConnectionEvent (conn_id : GlobalConnId) (user_id : UserId)
  | DisconnectionEvent (conn_id : GlobalConnId) (code : Z) (reason : string)
  | MessageEvent (conn_id : GlobalConnId) (env : Envelope.t).

Definition classify_event (evt : Event) : Priority :=
  match evt with
  | MessageEvent _ env =>
    match Envelope.type env with
    | Envelope.TYPING => Low
    | Envelope.VOICE_ACTIVITY => Low
    | Envelope.VOICE_JOIN => High
    | _ => High
    end
  | _ => High
  end.

(** The queue and the counters it updates. *)
Record t := mk {
  high_ : list Event;
  low_ : list Event;
  capacity_ : Z;
  size_ : Z;
  stopped_ : bool;
  dropped_inbound_total : Z;
  dropped_inbound_low_overflow : Z;
  dropped_inbound_high_overflow : Z;
  evicted_inbound_low_for_high : Z;
  event_queue_highwater : Z
}.

Definition create (capacity : Z) : t := mk [] [] capacity 0 false 0 0 0 0 0.

Definition record_drop_low_overflow (q : t) : t :=
  mk (high_ q) (low_ q) (capacity_ q) (size_ q) (stopped_ q)
     (wrap64 (dropped_inbound_total q + 1)) (wrap64 (dropped_inbound_low_overflow q + 1))
     (dropped_inbound_high_overflow q) (evicted_inbound_low_for_high q) (event_queue_highwater q).

Definition record_drop_high_overflow (q : t) : t :=
  mk (high_ q) (low_ q) (capacity_ q) (size_ q) (stopped_ q)
     (wrap64 (dropped_inbound_total q + 1)) (dropped_inbound_low_overflow q)
     (wrap64 (dropped_inbound_high_overflow q + 1)) (evicted_inbound_low_for_high q)
     (event_queue_highwater q).

Definition record_evict_low_for_high (q : t) : t :=
  mk (high_ q) (low_ q) (capacity_ q) (size_ q) (stopped_ q)
     (wrap64 (dropped_inbound_total q + 1)) (dropped_inbound_low_overflow q)
     (dropped_inbound_high_overflow q) (wrap64 (evicted_inbound_low_for_high q + 1))
     (event_queue_highwater q).

(** The deques and [size_] replaced. *)
Definition with_items (q : t) (high low : list Event) (size : Z) : t :=
  mk high low (capacity_ q) size (stopped_ q)
     (dropped_inbound_total q) (dropped_inbound_low_overflow q)
     (dropped_inbound_high_overflow q) (evicted_inbound_low_for_high q) (event_queue_highwater q).

(** The tail of [push_impl]: append, count, [update_highwater]. *)
Definition push_append (q : t) (event : Event) : t :=
  let q1 := match classify_event event with
            | Low => with_items q (high_ q) (low_ q ++ [event]) (wrap64 (size_ q + 1))
            | High => with_items q (high_ q ++ [event]) (low_ q) (wrap64 (size_ q + 1))
            end in
  mk (high_ q1) (low_ q1) (capacity_ q1) (size_ q1) (stopped_ q1)
     (dropped_inbound_total q1) (dropped_inbound_low_overflow q1)
     (dropped_inbound_high_overflow q1) (evicted_inbound_low_for_high q1)
     (Z.max (event_queue_highwater q1) (size_ q1)).

Definition push_impl (q : t) (event : Event) : PushOutcome * t :=
  if (0 <? capacity_ q)%Z && (capacity_ q <=? size_ q)%Z then
    match classify_event event with
    | Low => (PushDroppedLow, record_drop_low_overflow q)
    | High =>
      match low_ q with
      | [] => (PushDroppedHigh, record_drop_high_overflow q)
      | _ :: _ =>
        let q1 := with_items q (high_ q) (removelast (low_ q)) (wrap64 (size_ q - 1)) in
        (PushOk, push_append (record_evict_low_for_high q1) event)
      end
    end
  else (PushOk, push_append q event).

(** [pop_front_locked] requires a non-empty queue. *)
Definition pop_front_locked (q : t) : option Event * t :=
  match high_ q with
  | x :: h => (Some x, with_items q h (low_ q) (wrap64 (size_ q - 1)))
  | [] =>
    match low_ q with
    | x :: l => (Some x, with_items q [] l (wrap64 (size_ q - 1)))
    | [] => (None, q)
    end
  end.

Definition try_pop (q : t) : option Event * t :=
  if (size_ q =? 0)%Z then (None, q) else pop_front_locked q.

(** [wait_pop] as seen by the caller: [None] while it stays parked, otherwise
    the return value and the popped event. *)
Definition wait_pop (q : t) : option (bool * option Event) * t :=
  if (0 <? size_ q)%Z || stopped_ q then
    if (size_ q =? 0)%Z then (Some (false, None), q)
    else let '(x, q') := pop_front_locked q in (Some (true, x), q')
  else (None, q).

Definition stop (q : t) : t :=
  mk (high_ q) (low_ q) (capacity_ q) (size_ q) true
     (dropped_inbound_total q) (dropped_inbound_low_overflow q)
     (dropped_inbound_high_overflow q) (evicted_inbound_low_for_high q) (event_queue_highwater q).

Definition abs (q : t) : SQ Event :=
  mkSQ (capacity_ q) (high_ q) (low_ q) (dropped_inbound_total q).

Definition ok (q : t) : Prop := size_ q = sq_size (abs q) /\ (size_ q < two64)%Z.

Lemma queue_create_ok capacity : ok (create capacity).
Proof. split; reflexivity. Qed.

Lemma push_append_sim q x : ok q -> (sq_size (abs q) + 1 < two64)%Z ->
  ok (push_append q x) /\ abs (push_append q x) = sq_append classify_event (abs q) x.
Proof.
  unfold ok, push_append, sq_append, sq_size. intros [Hs Hb] Hr. simpl in *.
  destruct (classify_event x); simpl; rewrite length_app; simpl;
    (split; [|done]); rewrite wrap64_small; lia.
Qed.

Lemma push_sim q x : ok q -> (sq_size (abs q) + 1 < two64)%Z ->
  ok (push_impl q x).2 /\
  ((push_impl q x).1, abs (push_impl q x).2) = sq_push classify_event (abs q) x.
Proof.
  intros Hok Hr. pose proof Hok as [Hs Hb]. unfold push_impl, sq_push, sq_full. simpl.
  rewrite Hs. destruct ((0 <? capacity_ q)%Z && _) eqn:Hfull.
  - destruct (classify_event x) eqn:Hc; [|split; [exact Hok|reflexivity]].
    destruct (low_ q) as [|y l] eqn:Hl; [split; [exact Hok|]; unfold sq_lose; simpl; by rewrite <- Hl|].
    set (q1 := record_evict_low_for_high _).
    assert (Hlen : length (removelast (y :: l)) = length l).
    { rewrite removelast_firstn_len, length_take. simpl. lia. }
    assert (ok q1 /\ (sq_size (abs q1) + 1 < two64)%Z) as [Hok1 Hr1].
    { unfold ok, sq_size in *. simpl in *. rewrite Hl in *. cbn [length] in *.
      rewrite Hlen. rewrite wrap64_small; lia. }
    destruct (push_append_sim q1 x Hok1 Hr1) as [H1 H2].
    split; [done|]. simpl fst. simpl snd. by rewrite H2.
  - destruct (push_append_sim q x Hok Hr) as [H1 H2]. split; [done|]. simpl. by rewrite H2.
Qed.

Lemma pop_front_sim q : ok q ->
  ok (pop_front_locked q).2 /\
  ((pop_front_locked q).1, abs (pop_front_locked q).2) = sq_pop (abs q).
Proof.
  unfold ok, pop_front_locked, sq_pop, sq_size. intros [Hs Hb]. simpl in *.
  destruct (high_ q) as [|x h] eqn:Hh; [destruct (low_ q) as [|x l] eqn:Hl|]; simpl in *.
  - split; [|done]. by rewrite Hh, Hl.
  - split; [|done]. rewrite wrap64_small; lia.
  - split; [|done]. rewrite wrap64_small; lia.
Qed.

Lemma try_pop_sim q : ok q ->
  ok (try_pop q).2 /\ ((try_pop q).1, abs (try_pop q).2) = sq_pop (abs q).
Proof.
  intros Hok. unfold try_pop. destruct (Z.eqb_spec (size_ q) 0) as [H0|H0].
  - split; [done|]. destruct Hok as [Hs _]. rewrite H0 in Hs. unfold sq_size, sq_pop in *.
    simpl in *. destruct (high_ q) as [|? ?]; [|simpl in Hs; lia].
    by destruct (low_ q) as [|? ?]; [|simpl in Hs; lia].
  - by apply pop_front_sim.
Qed.

#[global] Instance event_queue : PrioQueue t Event := {|
  pq_prio := classify_event; pq_push := push_impl; pq_pop := try_pop;
  pq_abs := abs; pq_ok := ok; pq_push_sim := push_sim; pq_pop_sim := try_pop_sim |}.

(** Over any sequence of pushes and pops on a fresh inbound queue, the
    high-priority events delivered so far followed by those still queued are
    exactly the high-priority events accepted, in order: an accepted
    authoritative event is never lost, reordered or evicted.  Low-priority
    events keep their order, the queue never exceeds its capacity, and the drop
    counter accounts for every event neither delivered nor queued. *)
Theorem event_queue_keeps_accepted_high (capacity : Z) (ops : list (qop Event))
  (Hlen : (Z.of_nat (length ops) < two64)%Z) :
  let '(h, q) := qrun (create capacity) ops in
  highs classify_event (delivered h) ++ high_ q = highs classify_event (accepted h) /\
  lows classify_event (delivered h) ++ low_ q `sublist_of` lows classify_event (accepted h) /\
  size_ q = Z.of_nat (length (high_ q) + length (low_ q)) /\
  ((0 < capacity_ q)%Z -> (size_ q <= capacity_ q)%Z) /\
  dropped_inbound_total q =
    wrap64 (Z.of_nat (offered h) - Z.of_nat (length (delivered h)) - size_ q).
Proof.
  pose proof (qrun_invariant ops (mkHistory 0 [] []) (create capacity) (queue_create_ok capacity)
                (empty_trace_ok _ capacity)) as H.
  unfold qrun. destruct (foldl qstep _ ops) as [h q].
  destruct H as [[Hs _] [T1 T2 _ _ T5 T6]]; [simpl; lia|]. rewrite Hs. by split_and!.
Qed.

Lemma event_queue_keeps_accepted_high_witness :
  let c := mkGlobalConnId (mkNetStackId "n") (mkConnId "c") in
  let ev ty := MessageEvent c (Envelope.mk 1 ty 0 "x") in
  let '(h, q) := qrun (create 2)
    [QPush (ev Envelope.AUTH); QPush (ev Envelope.TYPING); QPush (ev Envelope.VOICE_JOIN);
     QPush (ev Envelope.HUB_JOIN); QPop] in
  delivered h = [ev Envelope.AUTH] /\ high_ q = [ev Envelope.VOICE_JOIN] /\
  highs classify_event (delivered h) ++ high_ q = highs classify_event (accepted h).
Proof.
  intros c ev.
  pose proof (event_queue_keeps_accepted_high 2
    [QPush (ev Envelope.AUTH); QPush (ev Envelope.TYPING); QPush (ev Envelope.VOICE_JOIN);
     QPush (ev Envelope.HUB_JOIN); QPop] eq_refl) as H.
  destruct (qrun _ _) as [h q] eqn:E. vm_compute in E. injection E as <- <-.
  split; [reflexivity|]. split; [reflexivity|]. apply H.
Defined.

(** On every reachable inbound queue a low-priority event is popped only
    when no high-priority event waits, and a high-priority event is refused
    only when the queue is filled to its capacity with high-priority events. *)
Theorem event_queue_priority (capacity : Z) (ops : list (qop Event))
  (Hlen : (Z.of_nat (length ops) + 1 < two64)%Z) :
  let q := (qrun (create capacity) ops).2 in
  (forall x, (try_pop q).1 = Some x -> classify_event x = Low -> high_ q = []) /\
  (forall x, (push_impl q x).1 = PushDroppedHigh ->
     low_ q = [] /\ Z.of_nat (length (high_ q)) = capacity_ q).
Proof.
  pose proof (qrun_invariant ops (mkHistory 0 [] []) (create capacity) (queue_create_ok capacity)
                (empty_trace_ok _ capacity)) as H.
  pose proof (qrun_offered ops (create capacity) (mkHistory 0 [] [])) as Hoff.
  unfold qrun in *. destruct (foldl qstep _ ops) as [h q].
  destruct H as [Hok Htr]; [simpl; lia|]. cbn zeta. simpl snd.
  pose proof (trace_size _ _ _ Htr) as Hsz. simpl in Hoff, Hsz. split.
  - intros x Hx Hp. by apply (pop_high_first q x Hok (tr_high_prio _ _ _ Htr)).
  - intros x Hx. destruct (push_high_refused q x Hok) as [H1 H2]; [simpl; lia|done|].
    split; [done|]. pose proof (tr_cap _ _ _ Htr (proj1 H2)) as Hcap.
    unfold sq_size in *. simpl in *. rewrite H1 in *. simpl in *. lia.
Qed.

Lemma event_queue_priority_witness :
  let c := mkGlobalConnId (mkNetStackId "n") (mkConnId "c") in
  let ev ty := MessageEvent c (Envelope.mk 1 ty 0 "x") in
  let q := (qrun (create 1) [QPush (ev Envelope.AUTH)]).2 in
  (push_impl q (ev Envelope.HUB_JOIN)).1 = PushDroppedHigh /\
  low_ q = [] /\ Z.of_nat (length (high_ q)) = capacity_ q.
Proof.
  intros c ev q. split; [reflexivity|].
  apply (proj2 (event_queue_priority 1 [QPush (ev Envelope.AUTH)] eq_refl) (ev Envelope.HUB_JOIN)).
  reflexivity.
Defined.

(** What a worker that keeps calling [wait_pop] receives, [n] calls at most. *)
Fixpoint drain (n : nat) (q : t) : list Event * t :=
  match n with
  | O => ([], q)
  | S n' =>
    match wait_pop q with
    | (Some (true, Some x), q') => let '(l, q'') := drain n' q' in (x :: l, q'')
    | _ => ([], q)
    end
  end.

Lemma wait_pop_nonempty q : ok q -> high_ q ++ low_ q <> [] ->
  exists x q', wait_pop q = (Some (true, Some x), q') /\ ok q' /\
    high_ q ++ low_ q = x :: high_ q' ++ low_ q' /\ stopped_ q' = stopped_ q.
Proof.
  intros Hok Hne. destruct (pop_front_sim q Hok) as [Hok' _]. destruct Hok as [Hs _].
  unfold wait_pop. unfold sq_size in Hs. simpl in Hs. rewrite <- length_app in Hs.
  assert (0 < size_ q)%Z as Hpos.
  { rewrite Hs. destruct (high_ q ++ low_ q); [done|]. simpl. lia. }
  rewrite (proj2 (Z.ltb_lt _ _) Hpos). simpl.
  destruct (Z.eqb_spec (size_ q) 0) as [|_]; [lia|].
  unfold pop_front_locked in *. destruct (high_ q) as [|x h]; [destruct (low_ q) as [|x l]|];
    simpl in *; [done|by eauto 10..].
Qed.

Lemma wait_pop_empty q : ok q -> high_ q ++ low_ q = [] ->
  wait_pop q = (if stopped_ q then Some (false, None) else None, q).
Proof.
  intros [Hs _] He. unfold sq_size in Hs. simpl in Hs. rewrite <- length_app, He in Hs.
  unfold wait_pop. rewrite Hs. simpl. by destruct (stopped_ q).
Qed.

Lemma drain_all n : forall q, ok q -> (length (high_ q ++ low_ q) <= n)%nat ->
  exists q', drain n q = (high_ q ++ low_ q, q') /\ ok q' /\ high_ q' ++ low_ q' = [] /\
    stopped_ q' = stopped_ q.
Proof.
  induction n as [|n IH]; intros q Hok Hlen; simpl.
  - destruct (high_ q ++ low_ q) eqn:E; [|simpl in Hlen; lia]. by exists q.
  - destruct (decide (high_ q ++ low_ q = [])) as [He|Hne].
    + rewrite (wait_pop_empty q Hok He). destruct (stopped_ q) eqn:Hst; exists q; by rewrite He.
    + destruct (wait_pop_nonempty q Hok Hne) as (x & q' & -> & Hok' & Heq & Hst).
      rewrite Heq in Hlen |- *. simpl in Hlen.
      destruct (IH q' Hok') as (q'' & -> & ? & ? & Hst'); [lia|].
      exists q''. by rewrite Hst', Hst.
Qed.

(** Shutdown loses nothing: after [stop] on any reachable queue, workers
    calling [wait_pop] receive every queued event, high priority first and in
    order, and only then are told to leave; while the queue is not stopped an
    empty queue parks the caller instead. *)
Theorem event_queue_shutdown_drains (capacity : Z) (ops : list (qop Event)) (n : nat)
  (Hlen : (Z.of_nat (length ops) < two64)%Z) :
  let q := (qrun (create capacity) ops).2 in
  (length (high_ q ++ low_ q) <= n)%nat ->
  exists q', drain n (stop q) = (high_ q ++ low_ q, q') /\
    wait_pop q' = (Some (false, None), q').
Proof.
  pose proof (qrun_invariant ops (mkHistory 0 [] []) (create capacity) (queue_create_ok capacity)
                (empty_trace_ok _ capacity)) as H.
  unfold qrun. destruct (foldl qstep _ ops) as [h q].
  destruct H as [Hok _]; [simpl; lia|]. cbn zeta. simpl snd. intros Hn.
  destruct (drain_all n (stop q) Hok Hn) as (q' & -> & Hok' & He & Hst).
  exists q'. split; [done|]. rewrite (wait_pop_empty q' Hok' He), Hst. done.
Qed.

Lemma event_queue_shutdown_drains_witness :
  let c := mkGlobalConnId (mkNetStackId "n") (mkConnId "c") in
  let ev ty := MessageEvent c (Envelope.mk 1 ty 0 "x") in
  let q := (qrun (create 8) [QPush (ev Envelope.TYPING); QPush (ev Envelope.AUTH)]).2 in
  exists q', drain 5 (stop q) = ([ev Envelope.AUTH; ev Envelope.TYPING], q') /\
    wait_pop q' = (Some (false, None), q').
Proof.
  intros c ev.
  apply (event_queue_shutdown_drains 8 [QPush (ev Envelope.TYPING); QPush (ev Envelope.AUTH)] 5).
  - reflexivity.
  - simpl. lia.
Defined.

End EventQueue.
