(* ===== verification/OutboundMsg.v ===== *)
(** * Outbound messages

    [net/outbound/Msg.h] and the connection's [AuthState]
    ([net/connection/ConnectionRegistery.h]).  The bytes of a payload are a type
    parameter [B]: serialized strings on the network side, the typed server
    events before serialization on the application side. *)

From S2P Require Import Prelude.
From S2P Require Import Ids.
From S2P Require Import PriorityQueues.

Inductive AuthState := AUTH_PENDING | AUTHENTICATED | AUTH_FAILED.

#[export] Instance AuthState_eq_dec : EqDecision AuthState.
Proof. solve_decision. Defined.

Section Msg.
Context {B : Type}.

(** [data] is a [shared_ptr], null when absent. *)
Record Payload := mkPayload { data : option B; is_binary : bool }.

Record SendPayload := mkSendPayload { payload : Payload; reliable : bool }.

Record UpdateAuthState := mkUpdateAuthState {
  auth_next : AuthState; auth_expires : Z; auth_user : option UserId }.

Record DropConnection := mkDropConnection { drop_code : Z; drop_reason : string }.

Inductive Action :=
  | ActSend (a : SendPayload)
  | ActAuth (a : UpdateAuthState)
  | ActDrop (a : DropConnection).

(** [Target] is its vector of connections. *)
Record OutgoingMessage := mkOutgoing {
  priority : Priority; target : list GlobalConnId; action : Action }.

Record OutboundItem := mkItem { item_priority : Priority; item_action : Action }.
End Msg.
Arguments Payload : clear implicits.
Arguments SendPayload : clear implicits.
Arguments Action : clear implicits.
Arguments OutgoingMessage : clear implicits.
Arguments OutboundItem : clear implicits.

(** [make_outgoing_message], [make_reliable_outgoing_message] and
    [make_drop_connection] of [app/commands/utils.cpp]. *)
Definition make_outgoing_message {B} (tgt : list GlobalConnId) (bytes : B) : OutgoingMessage B :=
  mkOutgoing High tgt (ActSend (mkSendPayload (mkPayload (Some bytes) true) false)).

Definition make_reliable_outgoing_message {B} (tgt : list GlobalConnId) (bytes : B)
  : OutgoingMessage B :=
  mkOutgoing High tgt (ActSend (mkSendPayload (mkPayload (Some bytes) true) true)).

Definition make_drop_connection {B} (conn : GlobalConnId) (code : Z) (reason : string)
  : OutgoingMessage B :=
  mkOutgoing High [conn] (ActDrop (mkDropConnection code reason)).
