(* ===== verification/OutgoingQueue.v ===== *)
(** * The shared outbound queue

    [net/outbound/OutgoingQueue.h]: the second implementation of [PrioQueue];
    a message carries its priority. *)

From S2P Require Import Prelude.
From S2P Require Import Ids.
From S2P Require Import PriorityQueues.
From S2P Require Import OutboundMsg.

Module OutgoingQueue.

Section Queue.
Context {B : Type}.

Record t := mk {
  high_ : list (OutgoingMessage B);
  low_ : list (OutgoingMessage B);
  capacity_ : Z;
  size_ : Z;
  dropped_outbound_total : Z;
  dropped_outbound_overflow_low_pri : Z;
  dropped_outbound_overflow_high_pri : Z;
  outbound_queue_highwater : Z
}.

Definition create (capacity : Z) : t := mk [] [] capacity 0 0 0 0 0.

Definition record_drop_low (q : t) : t :=
  mk (high_ q) (low_ q) (capacity_ q) (size_ q) (wrap64 (dropped_outbound_total q + 1))
     (wrap64 (dropped_outbound_overflow_low_pri q + 1)) (dropped_outbound_overflow_high_pri q)
     (outbound_queue_highwater q).

Definition record_drop_high (q : t) : t :=
  mk (high_ q) (low_ q) (capacity_ q) (size_ q) (wrap64 (dropped_outbound_total q + 1))
     (dropped_outbound_overflow_low_pri q) (wrap64 (dropped_outbound_overflow_high_pri q + 1))
     (outbound_queue_highwater q).

Definition with_items (q : t) (high low : list (OutgoingMessage B)) (size : Z) : t :=
  mk high low (capacity_ q) size (dropped_outbound_total q)
     (dropped_outbound_overflow_low_pri q) (dropped_outbound_overflow_high_pri q)
     (outbound_queue_highwater q).

Definition push_append (q : t) (msg : OutgoingMessage B) : t :=
  let q1 := match priority msg with
            | Low => with_items q (high_ q) (low_ q ++ [msg]) (wrap64 (size_ q + 1))
            | High => with_items q (high_ q ++ [msg]) (low_ q) (wrap64 (size_ q + 1))
            end in
  mk (high_ q1) (low_ q1) (capacity_ q1) (size_ q1) (dropped_outbound_total q1)
     (dropped_outbound_overflow_low_pri q1) (dropped_outbound_overflow_high_pri q1)
     (Z.max (outbound_queue_highwater q1) (size_ q1)).

Definition push_impl (q : t) (msg : OutgoingMessage B) : PushOutcome * t :=
  if (0 <? capacity_ q)%Z && (capacity_ q <=? size_ q)%Z then
    match priority msg with
    | Low => (PushDroppedLow, record_drop_low q)
    | High =>
      match low_ q with
      | [] => (PushDroppedHigh, record_drop_high q)
      | _ :: _ =>
        let q1 := with_items q (high_ q) (removelast (low_ q)) (wrap64 (size_ q - 1)) in
        (PushOk, push_append (record_drop_low q1) msg)
      end
    end
  else (PushOk, push_append q msg).

Definition try_pop (q : t) : option (OutgoingMessage B) * t :=
  if (size_ q =? 0)%Z then (None, q)
  else
    match high_ q with
    | x :: h => (Some x, with_items q h (low_ q) (wrap64 (size_ q - 1)))
    | [] =>
      match low_ q with
      | x :: l => (Some x, with_items q [] l (wrap64 (size_ q - 1)))
      | [] => (None, q)
      end
    end.

Definition abs (q : t) : SQ (OutgoingMessage B) :=
  mkSQ (capacity_ q) (high_ q) (low_ q) (dropped_outbound_total q).

Definition ok (q : t) : Prop := size_ q = sq_size (abs q) /\ (size_ q < two64)%Z.

Lemma out_create_ok capacity : ok (create capacity).
Proof. split; reflexivity. Qed.

Lemma out_append_sim q x : ok q -> (sq_size (abs q) + 1 < two64)%Z ->
  ok (push_append q x) /\ abs (push_append q x) = sq_append priority (abs q) x.
Proof.
  unfold ok, push_append, sq_append, sq_size. intros [Hs Hb] Hr. simpl in *.
  destruct (priority x); simpl; rewrite length_app; simpl;
    (split; [|done]); rewrite wrap64_small; lia.
Qed.

Lemma out_push_sim q x : ok q -> (sq_size (abs q) + 1 < two64)%Z ->
  ok (push_impl q x).2 /\
  ((push_impl q x).1, abs (push_impl q x).2) = sq_push priority (abs q) x.
Proof.
  intros Hok Hr. pose proof Hok as [Hs Hb]. unfold push_impl, sq_push, sq_full. simpl.
  rewrite Hs. destruct ((0 <? capacity_ q)%Z && _) eqn:Hfull.
  - destruct (priority x) eqn:Hc; [|split; [exact Hok|reflexivity]].
    destruct (low_ q) as [|y l] eqn:Hl; [split; [exact Hok|]; unfold sq_lose; simpl; by rewrite <- Hl|].
    set (q1 := record_drop_low _).
    assert (Hlen : length (removelast (y :: l)) = length l).
    { rewrite removelast_firstn_len, length_take. simpl. lia. }
    assert (ok q1 /\ (sq_size (abs q1) + 1 < two64)%Z) as [Hok1 Hr1].
    { unfold ok, sq_size in *. simpl in *. rewrite Hl in *. cbn [length] in *.
      rewrite Hlen. rewrite wrap64_small; lia. }
    destruct (out_append_sim q1 x Hok1 Hr1) as [H1 H2].
    split; [done|]. simpl fst. simpl snd. by rewrite H2.
  - destruct (out_append_sim q x Hok Hr) as [H1 H2]. split; [done|]. simpl. by rewrite H2.
Qed.

Lemma out_pop_sim q : ok q ->
  ok (try_pop q).2 /\ ((try_pop q).1, abs (try_pop q).2) = sq_pop (abs q).
Proof.
  unfold ok, try_pop, sq_pop, sq_size. intros [Hs Hb]. simpl in *.
  destruct (Z.eqb_spec (size_ q) 0) as [H0|H0]; simpl.
  - destruct (high_ q) as [|x h] eqn:Hh; [|simpl in Hs; lia].
    destruct (low_ q) as [|x l] eqn:Hl; [|simpl in Hs; lia]. split; [by rewrite ?Hh, ?Hl|done].
  - destruct (high_ q) as [|x h] eqn:Hh; [destruct (low_ q) as [|x l] eqn:Hl|]; simpl in *;
      [lia| |]; (split; [rewrite wrap64_small; lia|done]).
Qed.

#[global] Instance outgoing_queue : PrioQueue t (OutgoingMessage B) := {|
  pq_prio := priority; pq_push := push_impl; pq_pop := try_pop;
  pq_abs := abs; pq_ok := ok; pq_push_sim := out_push_sim; pq_pop_sim := out_pop_sim |}.

End Queue.
Arguments t : clear implicits.

(** Over any sequence of pushes and pops on a fresh outbound queue, every
    accepted high-priority message is delivered or still queued, in order; low
    ones keep their order; the capacity is respected; and every message offered
    is delivered, queued, or counted in [dropped_outbound_total]. *)
Theorem outgoing_queue_keeps_accepted_high {B : Type} (capacity : Z)
  (ops : list (qop (OutgoingMessage B)))
  (Hlen : (Z.of_nat (length ops) < two64)%Z) :
  let '(h, q) := qrun (create capacity) ops in
  highs priority (delivered h) ++ high_ q = highs priority (accepted h) /\
  lows priority (delivered h) ++ low_ q `sublist_of` lows priority (accepted h) /\
  size_ q = Z.of_nat (length (high_ q) + length (low_ q)) /\
  ((0 < capacity_ q)%Z -> (size_ q <= capacity_ q)%Z) /\
  dropped_outbound_total q =
    wrap64 (Z.of_nat (offered h) - Z.of_nat (length (delivered h)) - size_ q).
Proof.
  pose proof (qrun_invariant ops (mkHistory 0 [] []) (create capacity) (out_create_ok capacity)
                (empty_trace_ok _ capacity)) as H.
  unfold qrun. destruct (foldl qstep _ ops) as [h q].
  destruct H as [[Hs _] [T1 T2 _ _ T5 T6]]; [simpl; lia|]. rewrite Hs. by split_and!.
Qed.

Lemma outgoing_queue_keeps_accepted_high_witness :
  let m p := mkOutgoing (B := string) p [] (ActDrop (mkDropConnection 0 "x")) in
  let '(h, q) := qrun (create 2)
    [QPush (m High); QPush (m Low); QPush (m High); QPop; QPush (m Low)] in
  high_ q = [m High] /\ low_ q = [m Low] /\ dropped_outbound_total q = 1%Z /\
  highs priority (delivered h) ++ high_ q = highs priority (accepted h).
Proof.
  intros m.
  pose proof (outgoing_queue_keeps_accepted_high 2
    [QPush (m High); QPush (m Low); QPush (m High); QPop; QPush (m Low)] eq_refl) as H.
  destruct (qrun _ _) as [h q] eqn:E. vm_compute in E. injection E as <- <-.
  split; [reflexivity|]. split; [reflexivity|]. split; [reflexivity|]. apply H.
Defined.

End OutgoingQueue.
