(* ===== verification/Connections.v ===== *)
(** * Connections of one network stack

    [net/connection/ConnectionRegistery.{h,cpp}] and [net/transport/Handle.h]:
    the per-connection context and the registry, with the part of the loop
    thread's world every transport component works on.  A socket is identified
    by the connection id its [PerSocketData] holds.  The uWS socket and the
    clocks are outside: [Env] says what the n-th query to them answers, and the
    loop counts its queries. *)

From S2P Require Import Prelude.
From S2P Require Import Ids.
From S2P Require Import Protocol.
From S2P Require Import PriorityQueues.
From S2P Require Import OutboundMsg.
From S2P Require Import OutgoingQueue.

Inductive TransportKind := TextWebSocket | VoiceWebSocket.

(** [WsHandle::ws]: null or a socket. *)
Abbreviation WsHandle := (option ConnId).

Definition valid (h : WsHandle) : bool := bool_decide (is_Some h).

(** [UwsSocket::SendStatus].  [BACKPRESSURE]: the frame was accepted and queued
    by the socket; [DROPPED]: it was not. *)
Inductive SendStatus := BACKPRESSURE | SUCCESS | DROPPED.

#[export] Instance SendStatus_eq_dec : EqDecision SendStatus.
Proof. solve_decision. Defined.

Record Env := mkEnv {
  env_steady_clock : nat -> Z;
  env_system_clock : nat -> Z;
  env_send_status : nat -> SendStatus;
  env_buffered_amount : nat -> Z
}.

Section Context_.
Context {B : Type}.

Record HeartbeatState := mkHeartbeat { connected_at : Z; last_seen_at : Z }.

(** [ConnectionContext::PerConnectionOutbox]. *)
Record Outbox := mkOutbox {
  ob_q : list (OutboundItem B);
  ob_capacity : nat;
  slow_hits : Z;
  drop_pending : bool
}.

(** [ReliableOutbound::Pending]. *)
Record Pending := mkPending {
  p_seq : Z;
  p_bytes : B;
  p_last_sent_at : Z;
  p_attempts : Z
}.

(** [ConnectionContext::ReliableOutbound]. *)
Record Reliable := mkReliable {
  next_seq : Z;
  acked_seq : Z;
  buffer : list Pending;
  rel_capacity : nat
}.

(** [ConnectionContext]; its [pending] deque is never filled by the program. *)
Record Ctx := mkCtx {
  ctx_conn_id : ConnId;
  handle : WsHandle;
  ctx_kind : TransportKind;
  port_index : nat;
  heartbeat : HeartbeatState;
  auth_state : AuthState;
  auth_expires_at : Z;
  user_id : option UserId;
  outbox : Outbox;
  rel : Reliable
}.

(** The constructor with its member initialisers; [created] is the clock read
    by the initialisers of [HeartbeatState]. *)
Definition new_context (conn : ConnId) (h : WsHandle) (k : TransportKind) (port_idx : nat)
  (created : Z) : Ctx :=
  mkCtx conn h k port_idx (mkHeartbeat created created) AUTH_PENDING 0 None
    (mkOutbox [] 128 0 false) (mkReliable 0 0 [] 256).

Definition set_outbox (c : Ctx) (o : Outbox) : Ctx :=
  mkCtx (ctx_conn_id c) (handle c) (ctx_kind c) (port_index c) (heartbeat c) (auth_state c)
    (auth_expires_at c) (user_id c) o (rel c).
Definition set_rel (c : Ctx) (r : Reliable) : Ctx :=
  mkCtx (ctx_conn_id c) (handle c) (ctx_kind c) (port_index c) (heartbeat c) (auth_state c)
    (auth_expires_at c) (user_id c) (outbox c) r.
Definition set_heartbeat (c : Ctx) (h : HeartbeatState) : Ctx :=
  mkCtx (ctx_conn_id c) (handle c) (ctx_kind c) (port_index c) h (auth_state c)
    (auth_expires_at c) (user_id c) (outbox c) (rel c).
Definition set_auth_state (c : Ctx) (a : AuthState) : Ctx :=
  mkCtx (ctx_conn_id c) (handle c) (ctx_kind c) (port_index c) (heartbeat c) a
    (auth_expires_at c) (user_id c) (outbox c) (rel c).
Definition set_auth (c : Ctx) (a : UpdateAuthState) : Ctx :=
  mkCtx (ctx_conn_id c) (handle c) (ctx_kind c) (port_index c) (heartbeat c) (auth_next a)
    (auth_expires a) (auth_user a) (outbox c) (rel c).
Definition set_queue (c : Ctx) (q : list (OutboundItem B)) : Ctx :=
  set_outbox c (mkOutbox q (ob_capacity (outbox c)) (slow_hits (outbox c))
                         (drop_pending (outbox c))).

(** What the event-loop thread of a stack owns, and what it has done to the
    outside: frames handed to sockets, sockets ended, messages and closures
    reported to the application ([hooks_]). *)
Record Net := mkNet {
  connections_ : gmap ConnId Ctx;
  out_q : OutgoingQueue.t B;
  pending_unacked_conns_ : gset ConnId;
  active_connections : Z;
  frames : list (ConnId * B * bool);
  ended : list (ConnId * Z * string);
  on_message_calls : list (ConnId * Envelope.t);
  on_close_calls : list (ConnId * Z * string);
  queries : nat
}.

Definition set_connections (n : Net) (m : gmap ConnId Ctx) : Net :=
  mkNet m (out_q n) (pending_unacked_conns_ n) (active_connections n) (frames n) (ended n)
    (on_message_calls n) (on_close_calls n) (queries n).
Definition set_out_q (n : Net) (q : OutgoingQueue.t B) : Net :=
  mkNet (connections_ n) q (pending_unacked_conns_ n) (active_connections n) (frames n) (ended n)
    (on_message_calls n) (on_close_calls n) (queries n).
Definition set_unacked (n : Net) (u : gset ConnId) : Net :=
  mkNet (connections_ n) (out_q n) u (active_connections n) (frames n) (ended n)
    (on_message_calls n) (on_close_calls n) (queries n).
Definition query (n : Net) : Net :=
  mkNet (connections_ n) (out_q n) (pending_unacked_conns_ n) (active_connections n) (frames n)
    (ended n) (on_message_calls n) (on_close_calls n) (S (queries n)).
Definition put_frame (n : Net) (f : ConnId * B * bool) : Net :=
  mkNet (connections_ n) (out_q n) (pending_unacked_conns_ n) (active_connections n)
    (frames n ++ [f]) (ended n) (on_message_calls n) (on_close_calls n) (queries n).

(** ** The registry *)

(** [emplace] keeps an existing entry. *)
Definition attach (n : Net) (conn_id : ConnId) (context : Ctx) : Net :=
  match connections_ n !! conn_id with
  | Some _ => n
  | None => set_connections n (<[conn_id := context]> (connections_ n))
  end.

Definition detach (n : Net) (conn_id : ConnId) : Net :=
  set_connections n (delete conn_id (connections_ n)).

Definition get (n : Net) (conn_id : ConnId) : expected Ctx string :=
  match connections_ n !! conn_id with
  | Some c => Ok c
  | None => Unexpected "Connection ID not found"
  end.

(** [get_view]: the view's fields are read off the context. *)
Definition get_view (n : Net) (conn_id : ConnId) : option Ctx := connections_ n !! conn_id.

Definition get_ids (n : Net) : list ConnId := (map_to_list (connections_ n)).*1.

(** [mutate] with a mutator that only touches the context. *)
Definition mutate (n : Net) (conn_id : ConnId) (mutator : Ctx -> Ctx) : bool * Net :=
  match connections_ n !! conn_id with
  | Some c => (true, set_connections n (<[conn_id := mutator c]> (connections_ n)))
  | None => (false, n)
  end.

(** ** The socket *)

(** The [.close] handler of [WebSocketTransport.cpp]: uWS calls it from
    [ws->end], and when the peer goes away. *)
Definition close_handler (n : Net) (conn_id : ConnId) (code : Z) (reason : string) : Net :=
  let n1 := detach n conn_id in
  mkNet (connections_ n1) (out_q n1) (pending_unacked_conns_ n1)
    (wrap64 (active_connections n1 - 1)) (frames n1) (ended n1) (on_message_calls n1)
    (on_close_calls n1 ++ [(conn_id, code, reason)]) (queries n1).

(** [WsHandle::end]. *)
Definition end_handle (n : Net) (h : WsHandle) (code : Z) (reason : string) : Net :=
  match h with
  | None => n
  | Some s =>
    close_handler
      (mkNet (connections_ n) (out_q n) (pending_unacked_conns_ n) (active_connections n)
         (frames n) (ended n ++ [(s, code, reason)]) (on_message_calls n) (on_close_calls n)
         (queries n)) s code reason
  end.

(** [TextWSServer::send]. *)
Definition transport_send (e : Env) (n : Net) (h : WsHandle) (bytes : B) (binary : bool)
  : bool * Net :=
  match h with
  | None => (false, n)
  | Some s =>
    let status := env_send_status e (queries n) in
    let n1 := query n in
    (bool_decide (status = SUCCESS),
     match status with DROPPED => n1 | _ => put_frame n1 (s, bytes, binary) end)
  end.

Definition kBackpressureHighWatermark : Z := 512 * 1024.

(** [TextWSServer::is_backpressured]. *)
Definition is_backpressured (e : Env) (n : Net) (h : WsHandle) : bool * Net :=
  match h with
  | None => (false, n)
  | Some _ =>
    (bool_decide (kBackpressureHighWatermark <= env_buffered_amount e (queries n))%Z, query n)
  end.

Definition steady_now (e : Env) (n : Net) : Z * Net := (env_steady_clock e (queries n), query n).
Definition system_now (e : Env) (n : Net) : Z * Net := (env_system_clock e (queries n), query n).

End Context_.
Arguments Outbox : clear implicits.
Arguments Pending : clear implicits.
Arguments Reliable : clear implicits.
Arguments Ctx : clear implicits.
Arguments Net : clear implicits.
