(* ===== verification/OutgoingWorker.v ===== *)
(** * The outbound worker

    [net/outbound/OutgoingWorker.{h,cpp}] and [net/outbound/ReliableSeq.h]: the
    loop-thread worker that moves messages from the shared queue to the
    connections' outboxes, flushes outboxes to sockets, numbers and retains
    reliable frames until they are acknowledged, and retransmits them.
    Clock values and timeouts are in microseconds. *)

From S2P Require Import Prelude.
From S2P Require Import Ids.
From S2P Require Import Protocol.
From S2P Require Import PriorityQueues.
From S2P Require Import OutboundMsg.
From S2P Require Import OutgoingQueue.
From S2P Require Import Connections.

Module Worker.

(** [OutgoingWorkerConfig]. *)
Record Config := mkConfig {
  time_budget : Z;
  max_per_tick : nat;
  retransmit_timeout : Z;
  max_retransmits : Z
}.

Definition default_config : Config := mkConfig 1000 256 500000 8.

Section Worker.
Context {B : Type}.
(** [Envelope::ParseFromString] (default envelope on failure) and
    [Envelope::SerializeAsString] of the protobuf runtime. *)
Context (parse_envelope : B -> Envelope.t) (serialize_envelope : Envelope.t -> B).
Context (e : Env) (cfg : Config).

(** [ReliableSeq.h]. *)
Definition stamp_envelope_seq (base_envelope : B) (seq : Z) : B :=
  let env := parse_envelope base_envelope in
  serialize_envelope (Envelope.mk (Envelope.version env) (Envelope.type env) seq
                                  (Envelope.payload env)).

(** ** Filling the outboxes *)

Definition is_low (m : OutboundItem B) : bool := bool_decide (item_priority m = Low).

(** Erase the last element that satisfies [is_low], if any
    ([find_if] from [rbegin], then [erase(std::next(rit).base())]). *)
Fixpoint erase_last_low (q : list (OutboundItem B)) : option (list (OutboundItem B)) :=
  match q with
  | [] => None
  | m :: q' =>
    match erase_last_low q' with
    | Some q'' => Some (m :: q'')
    | None => if is_low m then Some q' else None
    end
  end.

(** The mutator of [enqueue_to_outbox]. *)
Definition outbox_push (ob : Outbox B) (item : OutboundItem B) : Outbox B :=
  if (length (ob_q ob) <? ob_capacity ob)%nat then
    mkOutbox (ob_q ob ++ [item]) (ob_capacity ob) (slow_hits ob) (drop_pending ob)
  else if is_low item then ob
  else
    match erase_last_low (ob_q ob) with
    | Some q => mkOutbox (q ++ [item]) (ob_capacity ob) (slow_hits ob) (drop_pending ob)
    | None =>
      let hits := wrap32 (slow_hits ob + 1) in
      if (4 <=? hits)%Z then
        mkOutbox [mkItem High (ActDrop (mkDropConnection 4409 "slow_outbox_overflow"))]
          (ob_capacity ob) 0 true
      else mkOutbox (ob_q ob) (ob_capacity ob) hits (drop_pending ob)
    end.

Definition enqueue_to_outbox (n : Net B) (global_id : GlobalConnId) (msg : OutgoingMessage B)
  (touched : gset ConnId) : gset ConnId * Net B :=
  let item := mkItem (priority msg) (action msg) in
  let '(found, n1) := mutate n (conn_id global_id)
                        (fun ctx => set_outbox ctx (outbox_push (outbox ctx) item)) in
  (if found then {[conn_id global_id]} ∪ touched else touched, n1).

Fixpoint distribute_to (conns : list GlobalConnId) (msg : OutgoingMessage B) (n : Net B)
  (touched : gset ConnId) : gset ConnId * Net B :=
  match conns with
  | [] => (touched, n)
  | g :: conns' =>
    let '(touched1, n1) := enqueue_to_outbox n g msg touched in
    distribute_to conns' msg n1 touched1
  end.

Definition distribute (n : Net B) (msg : OutgoingMessage B) (touched : gset ConnId)
  : gset ConnId * Net B :=
  distribute_to (target msg) msg n touched.

(** [tick_deadline_enabled_ && now() >= tick_deadline_]. *)
Definition deadline_passed (n : Net B) (deadline : option Z) : bool * Net B :=
  match deadline with
  | None => (false, n)
  | Some d => let '(t, n1) := steady_now e n in (bool_decide (d <= t)%Z, n1)
  end.

(** [drain_queue]; [budget] is [cfg_.max_per_tick - processed]. *)
Fixpoint drain_queue (budget : nat) (deadline : option Z) (n : Net B) (touched : gset ConnId)
  : gset ConnId * Net B :=
  match budget with
  | O => (touched, n)
  | S budget' =>
    let '(late, n1) := deadline_passed n deadline in
    if late then (touched, n1)
    else
      match OutgoingQueue.try_pop (out_q n1) with
      | (None, q') => (touched, set_out_q n1 q')
      | (Some msg, q') =>
        let '(touched2, n2) := distribute (set_out_q n1 q') msg touched in
        drain_queue budget' deadline n2 touched2
      end
  end.

(** ** Flushing one outbox *)

(** [send_payload] on a connection's context: whether the action was consumed. *)
Definition send_payload (conn_id : ConnId) (action : SendPayload B) (n : Net B) (ctx : Ctx B)
  : bool * Net B * Ctx B :=
  match data (payload action) with
  | None => (true, n, ctx)
  | Some bytes =>
    let '(bp, n1) := is_backpressured e n (handle ctx) in
    if bp then (false, n1, ctx)
    else if negb (valid (handle ctx)) then (true, n1, ctx)
    else if reliable action then
      let seq := wrap64 (next_seq (rel ctx) + 1) in
      let wire := stamp_envelope_seq bytes seq in
      let '(sent, n2) := transport_send e n1 (handle ctx) wire (is_binary (payload action)) in
      if negb sent then (false, n2, ctx)
      else
        let '(t, n3) := steady_now e n2 in
        (true, set_unacked n3 ({[conn_id]} ∪ pending_unacked_conns_ n3),
         set_rel ctx (mkReliable seq (acked_seq (rel ctx))
                        (buffer (rel ctx) ++ [mkPending seq wire t 1]) (rel_capacity (rel ctx))))
    else
      let '(sent, n2) := transport_send e n1 (handle ctx) bytes (is_binary (payload action)) in
      (sent, n2, ctx)
  end.

(** The [UpdateAuthState] branch: [AUTH_FAILED] is terminal. *)
Definition apply_auth (ctx : Ctx B) (a : UpdateAuthState) : Ctx B :=
  if bool_decide (auth_state ctx = AUTH_FAILED) && negb (bool_decide (auth_next a = AUTH_FAILED))
  then ctx else set_auth ctx a.

(** The loop of [flush_connection_outbox] over the queue [q]: the pending drop,
    what is left of the queue, and the new state. *)
Fixpoint flush_loop (conn_id : ConnId) (q : list (OutboundItem B)) (n : Net B) (ctx : Ctx B)
  : option DropConnection * list (OutboundItem B) * Net B * Ctx B :=
  match q with
  | [] => (None, [], n, ctx)
  | msg :: q' =>
    match item_action msg with
    | ActSend a =>
      let '(processed, n1, ctx1) := send_payload conn_id a n ctx in
      if processed then flush_loop conn_id q' n1 ctx1 else (None, q, n1, ctx1)
    | ActAuth a => flush_loop conn_id q' n (apply_auth ctx a)
    | ActDrop d => (Some d, [], n, ctx)
    end
  end.

Definition flush_connection_outbox (n : Net B) (conn_id : ConnId) : Net B :=
  match connections_ n !! conn_id with
  | None => n
  | Some ctx =>
    let '(pending_drop, q, n1, ctx1) := flush_loop conn_id (ob_q (outbox ctx)) n ctx in
    let n2 := set_connections n1 (<[conn_id := set_queue ctx1 q]> (connections_ n1)) in
    match pending_drop with
    | Some d => end_handle n2 (handle ctx) (drop_code d) (drop_reason d)
    | None => n2
    end
  end.

(** ** Acknowledgements and retransmission *)

Fixpoint drop_acked (ack_seq : Z) (buf : list (Pending B)) : list (Pending B) :=
  match buf with
  | [] => []
  | p :: buf' => if (p_seq p <=? ack_seq)%Z then drop_acked ack_seq buf' else buf
  end.

Definition on_ack (n : Net B) (conn_id : ConnId) (ack_seq : Z) : Net B :=
  match connections_ n !! conn_id with
  | None => set_unacked n (pending_unacked_conns_ n ∖ {[conn_id]})
  | Some ctx =>
    let r := rel ctx in
    let acked := if (acked_seq r <? ack_seq)%Z then ack_seq else acked_seq r in
    let buf := drop_acked ack_seq (buffer r) in
    let n1 := set_connections n
      (<[conn_id := set_rel ctx (mkReliable (next_seq r) acked buf (rel_capacity r))]>
         (connections_ n)) in
    match buf with
    | [] => set_unacked n1 (pending_unacked_conns_ n1 ∖ {[conn_id]})
    | _ :: _ => n1
    end
  end.

(** The resend loop of [retransmit_sweep] over the buffer. *)
Fixpoint resend_overdue (now : Z) (h : WsHandle) (buf : list (Pending B)) (n : Net B)
  : option DropConnection * list (Pending B) * Net B :=
  match buf with
  | [] => (None, [], n)
  | p :: buf' =>
    if (now - p_last_sent_at p <? retransmit_timeout cfg)%Z then
      let '(d, rest, n1) := resend_overdue now h buf' n in (d, p :: rest, n1)
    else if (max_retransmits cfg <=? p_attempts p)%Z then
      (Some (mkDropConnection 4409 "reliable_ack_timeout"), buf, n)
    else
      let '(bp, n1) := is_backpressured e n h in
      if bp then (None, buf, n1)
      else
        let '(sent, n2) := transport_send e n1 h (p_bytes p) true in
        let p' := if sent then mkPending (p_seq p) (p_bytes p) now (wrap16 (p_attempts p + 1))
                  else p in
        let '(d, rest, n3) := resend_overdue now h buf' n2 in (d, p' :: rest, n3)
  end.

(** One connection of the sweep: an optional drop with the handle to end, and
    whether the connection leaves the unacked index. *)
Definition sweep_connection (now : Z) (n : Net B) (conn_id : ConnId)
  : option (WsHandle * DropConnection) * bool * Net B :=
  match connections_ n !! conn_id with
  | None => (None, true, n)
  | Some ctx =>
    let r := rel ctx in
    match buffer r with
    | [] => (None, true, n)
    | _ :: _ =>
      if (rel_capacity r <? length (buffer r))%nat then
        (Some (handle ctx, mkDropConnection 4409 "reliable_buffer_overflow"), true, n)
      else if negb (valid (handle ctx)) then (None, false, n)
      else
        let '(drop, buf, n1) := resend_overdue now (handle ctx) (buffer r) n in
        let n2 := set_connections n1
          (<[conn_id := set_rel ctx (mkReliable (next_seq r) (acked_seq r) buf (rel_capacity r))]>
             (connections_ n1)) in
        match drop with
        | Some d => (Some (handle ctx, d), true, n2)
        | None => (None, false, n2)
        end
    end
  end.

Fixpoint sweep_loop (now : Z) (conns : list ConnId) (n : Net B)
  : list (WsHandle * DropConnection) * list ConnId * Net B :=
  match conns with
  | [] => ([], [], n)
  | c :: conns' =>
    let '(drop, erase, n1) := sweep_connection now n c in
    let '(drops, to_erase, n2) := sweep_loop now conns' n1 in
    (match drop with Some d => d :: drops | None => drops end,
     if erase then c :: to_erase else to_erase, n2)
  end.

Definition end_all (drops : list (WsHandle * DropConnection)) (n : Net B) : Net B :=
  foldl (fun acc hd => end_handle acc hd.1 (drop_code hd.2) (drop_reason hd.2)) n drops.

Definition retransmit_sweep (n : Net B) : Net B :=
  if decide (pending_unacked_conns_ n = ∅) then n
  else
    let '(now, n1) := steady_now e n in
    let '(drops, to_erase, n2) := sweep_loop now (elements (pending_unacked_conns_ n1)) n1 in
    let n3 := set_unacked n2 (pending_unacked_conns_ n2 ∖ list_to_set to_erase) in
    end_all drops n3.

(** ** One tick *)

Fixpoint flush_touched (conns : list ConnId) (deadline : option Z) (n : Net B) : Net B :=
  match conns with
  | [] => n
  | c :: conns' =>
    let '(late, n1) := deadline_passed n deadline in
    if late then n1 else flush_touched conns' deadline (flush_connection_outbox n1 c)
  end.

Definition tick (n : Net B) : Net B :=
  let '(start, n1) := steady_now e n in
  let deadline := if (0 <? time_budget cfg)%Z then Some (start + time_budget cfg)%Z else None in
  let '(touched, n2) := drain_queue (max_per_tick cfg) deadline n1 ∅ in
  retransmit_sweep (flush_touched (elements touched) deadline n2).

(** ** Invariant of a connection's delivery state

    [fs] are the frames handed to sockets so far. *)

(** Frame number [s] of connection [c] was handed to its socket. *)
Definition transmitted (fs : list (ConnId * B * bool)) (c : ConnId) (s : Z) (bytes : B) : Prop :=
  (exists base, bytes = stamp_envelope_seq base s) /\ exists bin, (c, bytes, bin) ∈ fs.

Record rel_ok (fs : list (ConnId * B * bool)) (c : ConnId) (r : Reliable B) : Prop := mk_rel_ok {
  ro_seqs : p_seq <$> buffer r =
    seqZ (next_seq r - Z.of_nat (length (buffer r)) + 1) (Z.of_nat (length (buffer r)));
  ro_low : (0 <= next_seq r - Z.of_nat (length (buffer r)) <= acked_seq r)%Z;
  ro_bytes : forall p, p ∈ buffer r -> transmitted fs c (p_seq p) (p_bytes p);
  ro_attempts : forall p, p ∈ buffer r ->
    (1 <= p_attempts p <= Z.max 1 (max_retransmits cfg))%Z;
  ro_all : forall s, (1 <= s <= next_seq r)%Z -> exists bytes, transmitted fs c s bytes;
  ro_count : (next_seq r <= Z.of_nat (length fs))%Z
}.

Record outbox_ok (ob : Outbox B) : Prop := mk_outbox_ok {
  oo_capacity : ob_capacity ob = 128%nat;
  oo_len : (length (ob_q ob) <= 128)%nat;
  oo_hits : (0 <= slow_hits ob < 4)%Z
}.

Record ctx_ok (fs : list (ConnId * B * bool)) (c : ConnId) (ctx : Ctx B) : Prop := mk_ctx_ok {
  co_handle : handle ctx = Some c;
  co_rel : rel_ok fs c (rel ctx);
  co_outbox : outbox_ok (outbox ctx)
}.

(** Every live connection is well formed, and those with unacknowledged frames
    are in the index the sweep visits. *)
Record net_ok (n : Net B) : Prop := mk_net_ok {
  no_ctx : forall c ctx, connections_ n !! c = Some ctx -> ctx_ok (frames n) c ctx;
  no_unacked : forall c ctx, connections_ n !! c = Some ctx ->
    buffer (rel ctx) <> [] -> c ∈ pending_unacked_conns_ n
}.

(** What an operation that works on one context does to the rest of the loop's
    state: frames are only appended, the index only grows. *)
Record net_ext (n n' : Net B) : Prop := mk_net_ext {
  nx_frames : frames n `prefix_of` frames n';
  nx_conns : connections_ n' = connections_ n;
  nx_unacked : pending_unacked_conns_ n ⊆ pending_unacked_conns_ n'
}.

#[local] Instance net_ext_preorder : PreOrder net_ext.
Proof.
  split.
  - intros n. by split.
  - intros n1 n2 n3 [H1 H2 H3] [H4 H5 H6]. split; [by etrans|by rewrite H5|set_solver].
Qed.

Lemma transmitted_mono fs fs' c s bytes :
  fs `prefix_of` fs' -> transmitted fs c s bytes -> transmitted fs' c s bytes.
Proof.
  intros [k ->] [Hb (bin & Hin)]. split; [done|]. exists bin. apply elem_of_app. by left.
Qed.

Lemma rel_ok_mono fs fs' c r : fs `prefix_of` fs' -> rel_ok fs c r -> rel_ok fs' c r.
Proof.
  intros Hp [H1 H2 H3 H4 H5 H6]. split; try done.
  - intros p Hin. eapply transmitted_mono; eauto.
  - intros s Hs. destruct (H5 s Hs) as [bytes Hb]. exists bytes. by eapply transmitted_mono.
  - apply prefix_length in Hp. lia.
Qed.

Lemma ctx_ok_mono fs fs' c ctx : fs `prefix_of` fs' -> ctx_ok fs c ctx -> ctx_ok fs' c ctx.
Proof. intros Hp [H1 H2 H3]. split; try done. by eapply rel_ok_mono. Qed.

(** *** Queries and sends *)

Lemma is_backpressured_ext n h : net_ext n (is_backpressured e n h).2.
Proof. destruct h; [|done]. by split. Qed.

Lemma steady_now_ext n : net_ext n (steady_now e n).2.
Proof. by split. Qed.

Lemma transport_send_ext n h bytes bin : net_ext n (transport_send e n h bytes bin).2.
Proof.
  destruct h as [s|]; [|done]. simpl.
  destruct (env_send_status e (queries n)); split; try done; simpl; by apply prefix_app_r.
Qed.

Lemma transport_send_frame (n : Net B) s bytes bin :
  (transport_send e n (Some s) bytes bin).1 = true ->
  frames (transport_send e n (Some s) bytes bin).2 = frames n ++ [(s, bytes, bin)].
Proof.
  simpl. intros H. apply bool_decide_eq_true in H. by rewrite H.
Qed.

(** Numbering and retaining one more frame. *)
Lemma rel_ok_push fs c (r : Reliable B) bytes t bin :
  rel_ok fs c r -> (Z.of_nat (length (fs ++ [(c, stamp_envelope_seq bytes (next_seq r + 1), bin)])) < two64)%Z ->
  let seq := (next_seq r + 1)%Z in
  let wire := stamp_envelope_seq bytes seq in
  wrap64 seq = seq /\
  rel_ok (fs ++ [(c, wire, bin)]) c
    (mkReliable seq (acked_seq r) (buffer r ++ [mkPending seq wire t 1]) (rel_capacity r)).
Proof.
  intros Hok Hlen seq wire. rewrite length_app in Hlen. simpl in Hlen.
  assert (Ht : transmitted (fs ++ [(c, wire, bin)]) c seq wire).
  { split; [by exists bytes|]. exists bin. apply elem_of_app. right. by left. }
  pose proof (ro_count _ _ _ Hok) as Hcnt.
  apply (rel_ok_mono _ (fs ++ [(c, wire, bin)])) in Hok; [|by apply prefix_app_r].
  destruct Hok as [H1 H2 H3 H4 H5 _].
  split; [apply wrap64_small; lia|]. split; simpl; rewrite ?length_app; simpl.
  - rewrite fmap_app, H1. simpl.
    replace (Z.of_nat (length (buffer r) + 1)) with (Z.of_nat (length (buffer r)) + 1)%Z by lia.
    rewrite seqZ_app by lia. f_equal; [f_equal; lia|].
    unfold seqZ. simpl. f_equal. lia.
  - lia.
  - intros p [Hp| ->%list_elem_of_singleton]%elem_of_app; [by apply H3|done].
  - intros p [Hp| ->%list_elem_of_singleton]%elem_of_app; [by apply H4|simpl; lia].
  - intros s Hs. destruct (decide (s = seq)) as [->|Hne]; [by eauto|]. apply H5. lia.
  - lia.
Qed.

(** *** Flushing *)

Lemma send_payload_ext c a n ctx : net_ext n (send_payload c a n ctx).1.2.
Proof.
  unfold send_payload. destruct (data (payload a)) as [bytes|]; [|done].
  pose proof (is_backpressured_ext n (handle ctx)) as H1.
  destruct (is_backpressured e n (handle ctx)) as [bp n1]. simpl in H1.
  destruct bp; [done|]. destruct (negb (valid (handle ctx))); [done|].
  destruct (reliable a).
  - pose proof (transport_send_ext n1 (handle ctx)
      (stamp_envelope_seq bytes (wrap64 (next_seq (rel ctx) + 1))) (is_binary (payload a))) as H2.
    destruct (transport_send e n1 _ _ _) as [sent n2]. simpl in H2.
    destruct (negb sent); simpl; etrans; [exact H1|done|exact H1|].
    etrans; [exact H2|]. split; [done|done|set_solver].
  - pose proof (transport_send_ext n1 (handle ctx) bytes (is_binary (payload a))) as H2.
    destruct (transport_send e n1 _ _ _) as [sent n2]. simpl in *. by etrans.
Qed.

Lemma send_payload_ok c a n ctx :
  ctx_ok (frames n) c ctx ->
  (Z.of_nat (length (frames (send_payload c a n ctx).1.2)) < two64)%Z ->
  ctx_ok (frames (send_payload c a n ctx).1.2) c (send_payload c a n ctx).2 /\
  (buffer (rel (send_payload c a n ctx).2) <> [] ->
     buffer (rel ctx) <> [] \/ c ∈ pending_unacked_conns_ (send_payload c a n ctx).1.2) /\
  outbox (send_payload c a n ctx).2 = outbox ctx.
Proof.
  intros Hok Hlen. pose proof (nx_frames _ _ (send_payload_ext c a n ctx)) as Hext.
  pose proof (ctx_ok_mono _ _ _ _ Hext Hok) as Hmono. revert Hlen Hmono. clear Hext.
  unfold send_payload. destruct (data (payload a)) as [bytes|]; [|by auto].
  pose proof (nx_frames _ _ (is_backpressured_ext n (handle ctx))) as H1.
  destruct (is_backpressured e n (handle ctx)) as [bp n1]. simpl in H1.
  destruct bp; [by auto|]. destruct (negb (valid (handle ctx))) eqn:Hv; [by auto|].
  apply (ctx_ok_mono _ _ _ _ H1) in Hok. destruct Hok as [Hh Hr Ho].
  destruct (reliable a); [|destruct (transport_send e n1 _ _ _); by auto].
  pose proof (ro_count _ _ _ Hr) as Hcnt. pose proof (ro_low _ _ _ Hr) as Hlow.
  rewrite Hh. set (wire := stamp_envelope_seq _ _).
  pose proof (transport_send_frame n1 c wire (is_binary (payload a))) as Hsend.
  destruct (transport_send e n1 (Some c) wire _) as [sent n2]. simpl in Hsend.
  destruct sent; simpl; [|by auto]. intros Hlen _. rewrite (Hsend eq_refl) in *.
  assert (Hs : wrap64 (next_seq (rel ctx) + 1) = (next_seq (rel ctx) + 1)%Z).
  { apply wrap64_small. rewrite length_app in Hlen. simpl in Hlen. lia. }
  subst wire. rewrite Hs in *.
  destruct (rel_ok_push (frames n1) c (rel ctx) bytes (env_steady_clock e (queries n2))
              (is_binary (payload a)) Hr Hlen) as [_ Hr'].
  split; [split; done|]. split; [|done]. intros _. right. set_solver.
Qed.

Lemma flush_loop_ext c q : forall n ctx, net_ext n (flush_loop c q n ctx).1.2.
Proof.
  induction q as [|m q IH]; intros n ctx; simpl; [done|].
  destruct (item_action m) as [a|a|d]; [|apply IH|done].
  pose proof (send_payload_ext c a n ctx) as H1.
  destruct (send_payload c a n ctx) as [[b n1] ctx1]. simpl in H1.
  destruct b; [|done]. etrans; [exact H1|apply IH].
Qed.

Lemma apply_auth_ok fs c ctx a : ctx_ok fs c ctx -> ctx_ok fs c (apply_auth ctx a).
Proof. intros [H1 H2 H3]. unfold apply_auth. by case_match. Qed.

Lemma apply_auth_same ctx a :
  rel (apply_auth ctx a) = rel ctx /\ outbox (apply_auth ctx a) = outbox ctx.
Proof. unfold apply_auth. by case_match. Qed.

Lemma flush_loop_ok c q : forall n ctx,
  ctx_ok (frames n) c ctx ->
  (Z.of_nat (length (frames (flush_loop c q n ctx).1.2)) < two64)%Z ->
  ctx_ok (frames (flush_loop c q n ctx).1.2) c (flush_loop c q n ctx).2 /\
  (buffer (rel (flush_loop c q n ctx).2) <> [] ->
     buffer (rel ctx) <> [] \/ c ∈ pending_unacked_conns_ (flush_loop c q n ctx).1.2) /\
  outbox (flush_loop c q n ctx).2 = outbox ctx /\
  (flush_loop c q n ctx).1.1.2 `suffix_of` q.
Proof.
  induction q as [|m q IH]; intros n ctx Hok Hlen; simpl in *; [by auto|].
  destruct (item_action m) as [a|a|d].
  - pose proof (send_payload_ok c a n ctx Hok) as Hs.
    destruct (send_payload c a n ctx) as [[b n1] ctx1]. simpl in Hs.
    destruct b; simpl in *; [|destruct Hs as (? & ? & ?); [done|]; by auto].
    pose proof (flush_loop_ext c q n1 ctx1) as [Hp _ Hu].
    pose proof (prefix_length _ _ Hp) as Hpl.
    destruct Hs as (H1 & H2 & H3); [lia|].
    destruct (IH n1 ctx1 H1 Hlen) as (I1 & I2 & I3 & I4).
    split; [done|]. split; [|split; [congruence|by apply suffix_cons_r]].
    intros Hb. destruct (I2 Hb) as [Hb'|Hb']; [|by right].
    destruct (H2 Hb') as [?|?]; [by left|right; set_solver].
  - destruct (apply_auth_same ctx a) as [Hr Ho].
    destruct (IH n (apply_auth ctx a)) as (I1 & I2 & I3 & I4); [by apply apply_auth_ok|done|].
    rewrite Hr in I2. rewrite Ho in I3. split_and!; try done. by apply suffix_cons_r.
  - split_and!; try done; [by left|]. apply suffix_nil.
Qed.

(** *** Ending connections *)

Lemma detach_ok n c : net_ok n -> net_ok (detach n c).
Proof.
  intros [H1 H2]. split; simpl; intros c' ctx [_ Hc]%lookup_delete_Some; eauto.
Qed.

Lemma end_handle_ok n h code reason : net_ok n -> net_ok (end_handle n h code reason).
Proof.
  intros Hok. destruct h as [s|]; [|done]. simpl.
  destruct (detach_ok n s Hok) as [H1 H2]. by split.
Qed.

Lemma end_handle_frames (n : Net B) h code reason :
  frames (end_handle n h code reason) = frames n.
Proof. by destruct h. Qed.

Lemma end_all_frames drops : forall n, frames (end_all drops n) = frames n.
Proof.
  induction drops as [|[h d] drops IH]; intros n; [done|]. unfold end_all in *. simpl.
  by rewrite IH, end_handle_frames.
Qed.

(** Storing a context under its id. *)
Lemma store_ok n n' c ctx' :
  net_ok n -> net_ext n n' ->
  ctx_ok (frames n') c ctx' ->
  (buffer (rel ctx') <> [] -> c ∈ pending_unacked_conns_ n') ->
  net_ok (set_connections n' (<[c := ctx']> (connections_ n'))).
Proof.
  intros [H1 H2] [Hf Hc Hu] Hctx Hb. rewrite Hc. split; simpl.
  - intros c0 ctx0 [[<- <-]|[_ Hx]]%lookup_insert_Some; [done|].
    eapply ctx_ok_mono; [exact Hf|by apply H1].
  - intros c0 ctx0 [[<- <-]|[_ Hx]]%lookup_insert_Some; [done|]. intros Hne.
    apply Hu. by eapply H2.
Qed.

Lemma set_queue_ok fs c ctx q :
  ctx_ok fs c ctx -> q `suffix_of` ob_q (outbox ctx) -> ctx_ok fs c (set_queue ctx q).
Proof.
  intros [H1 H2 [H3 H4 H5]] Hq. apply suffix_length in Hq. split; try done. split; simpl; try done. lia.
Qed.

Lemma flush_ok n c :
  net_ok n -> (Z.of_nat (length (frames (flush_connection_outbox n c))) < two64)%Z ->
  net_ok (flush_connection_outbox n c).
Proof.
  intros Hok. unfold flush_connection_outbox.
  destruct (connections_ n !! c) as [ctx|] eqn:Hc; [|done].
  pose proof (flush_loop_ext c (ob_q (outbox ctx)) n ctx) as Hext.
  pose proof (flush_loop_ok c (ob_q (outbox ctx)) n ctx (no_ctx _ Hok _ _ Hc)) as Hl.
  destruct (flush_loop c (ob_q (outbox ctx)) n ctx) as [[[drop q] n1] ctx1]. simpl in *.
  intros Hlen. assert (Hlen' : (Z.of_nat (length (frames n1)) < two64)%Z).
  { destruct drop; [|done]. by rewrite end_handle_frames in Hlen. }
  destruct (Hl Hlen') as (H1 & H2 & H3 & H4).
  assert (Hst : net_ok (set_connections n1 (<[c := set_queue ctx1 q]> (connections_ n1)))).
  { apply (store_ok n n1); [done|done| |].
    - apply set_queue_ok; [done|]. by rewrite H3.
    - simpl. intros Hb. destruct (H2 Hb) as [Hb'|]; [|done].
      apply (nx_unacked _ _ Hext). by eapply (no_unacked _ Hok). }
  destruct drop; [by apply end_handle_ok|done].
Qed.

Lemma flush_frames n c : frames n `prefix_of` frames (flush_connection_outbox n c).
Proof.
  unfold flush_connection_outbox. destruct (connections_ n !! c) as [ctx|]; [|done].
  pose proof (flush_loop_ext c (ob_q (outbox ctx)) n ctx) as [Hext _ _].
  destruct (flush_loop c (ob_q (outbox ctx)) n ctx) as [[[drop q] n1] ctx1]. simpl in *.
  destruct drop; [|done]. by rewrite end_handle_frames.
Qed.

(** *** Filling the outboxes *)

Lemma erase_last_low_length q q' :
  erase_last_low q = Some q' -> length q = S (length q').
Proof.
  revert q'. induction q as [|m q IH]; intros q'; simpl; [done|].
  destruct (erase_last_low q) as [q''|].
  - intros [= <-]. simpl. by rewrite (IH q'').
  - destruct (is_low m); [|done]. by intros [= <-].
Qed.

Lemma outbox_push_ok ob item : outbox_ok ob -> outbox_ok (outbox_push ob item).
Proof.
  intros [H1 H2 H3]. unfold outbox_push.
  destruct (Nat.ltb_spec (length (ob_q ob)) (ob_capacity ob)).
  { split; simpl; try done. rewrite length_app. simpl. lia. }
  destruct (is_low item); [done|].
  destruct (erase_last_low (ob_q ob)) as [q|] eqn:E.
  { apply erase_last_low_length in E. split; simpl; try done. rewrite length_app. simpl. lia. }
  assert (wrap32 (slow_hits ob + 1) = slow_hits ob + 1)%Z as ->.
  { unfold wrap32. apply Z.mod_small. unfold two32. lia. }
  destruct (Z.leb_spec 4 (slow_hits ob + 1)); split; simpl; try done; lia.
Qed.

Lemma enqueue_ok n g msg touched :
  net_ok n -> net_ok (enqueue_to_outbox n g msg touched).2 /\
  frames (enqueue_to_outbox n g msg touched).2 = frames n.
Proof.
  intros Hok. unfold enqueue_to_outbox, mutate.
  destruct (connections_ n !! conn_id g) as [ctx|] eqn:Hc; [|done]. simpl.
  split; [|done]. apply (store_ok n n); [done|done| |].
  - destruct (no_ctx _ Hok _ _ Hc) as [H1 H2 H3]. split; try done. by apply outbox_push_ok.
  - exact (no_unacked _ Hok _ _ Hc).
Qed.

Lemma distribute_ok conns msg : forall n touched,
  net_ok n -> net_ok (distribute_to conns msg n touched).2 /\
  frames (distribute_to conns msg n touched).2 = frames n.
Proof.
  induction conns as [|g conns IH]; intros n touched Hok; simpl; [done|].
  destruct (enqueue_ok n g msg touched Hok) as [H1 H2].
  destruct (enqueue_to_outbox n g msg touched) as [t1 n1]. simpl in *.
  rewrite <- H2. by apply IH.
Qed.

Lemma set_out_q_ok n q : net_ok n -> net_ok (set_out_q n q).
Proof. intros [H1 H2]. by split. Qed.

Lemma query_ok n : net_ok n -> net_ok (query n).
Proof. intros [H1 H2]. by split. Qed.

Lemma deadline_ok n d : net_ok n ->
  net_ok (deadline_passed n d).2 /\ frames (deadline_passed n d).2 = frames n.
Proof. intros Hok. destruct d; simpl; [|done]. split; [by apply query_ok|done]. Qed.

Lemma drain_queue_ok budget d : forall n touched,
  net_ok n -> net_ok (drain_queue budget d n touched).2 /\
  frames (drain_queue budget d n touched).2 = frames n.
Proof.
  induction budget as [|budget IH]; intros n touched Hok; simpl; [done|].
  destruct (deadline_ok n d Hok) as [Hok1 Hf1].
  destruct (deadline_passed n d) as [late n1]. simpl in *.
  destruct late; [done|].
  destruct (OutgoingQueue.try_pop (out_q n1)) as [[msg|] q'];
    [|split; [by apply set_out_q_ok|done]].
  destruct (distribute_ok (target msg) msg (set_out_q n1 q') touched) as [Hok2 Hf2];
    [by apply set_out_q_ok|]. unfold distribute.
  destruct (distribute_to _ _ _ _) as [t2 n2]. simpl in *.
  destruct (IH n2 t2 Hok2) as [H3 H4]. split; [done|]. congruence.
Qed.

Lemma flush_touched_frames conns d : forall n,
  frames n `prefix_of` frames (flush_touched conns d n).
Proof.
  induction conns as [|c conns IH]; intros n; simpl; [done|].
  assert (frames (deadline_passed n d).2 = frames n) as Hf by by destruct d.
  destruct (deadline_passed n d) as [late n1]. simpl in Hf. rewrite <- Hf.
  destruct late; [done|]. etrans; [apply flush_frames|apply IH].
Qed.

Lemma flush_touched_ok conns d : forall n,
  net_ok n -> (Z.of_nat (length (frames (flush_touched conns d n))) < two64)%Z ->
  net_ok (flush_touched conns d n).
Proof.
  induction conns as [|c conns IH]; intros n Hok Hlen; simpl in *; [done|].
  destruct (deadline_ok n d Hok) as [Hok1 Hf1].
  destruct (deadline_passed n d) as [late n1]. simpl in *.
  destruct late; [done|]. apply IH; [|done]. apply flush_ok; [done|].
  pose proof (prefix_length _ _ (flush_touched_frames conns d (flush_connection_outbox n1 c))). lia.
Qed.

(** *** Acknowledgements *)

(** A cumulative acknowledgement removes a prefix of the buffer, all of it
    at or below the acknowledged number. *)
Lemma drop_acked_split ack buf :
  exists l, buf = l ++ drop_acked ack buf /\ Forall (fun p => (p_seq p <= ack)%Z) l.
Proof.
  induction buf as [|p buf (l & Heq & Hl)]; simpl; [by exists []|].
  destruct (Z.leb_spec (p_seq p) ack).
  - exists (p :: l). split; [simpl; by rewrite <- Heq|by constructor].
  - by exists [].
Qed.

Lemma seqZ_suffix (l1 l2 : list Z) (a m : Z) :
  l1 ++ l2 = seqZ a m -> (Z.of_nat (length (l1 ++ l2)) = m) ->
  l2 = seqZ (a + Z.of_nat (length l1)) (Z.of_nat (length l2)) /\
  l1 = seqZ a (Z.of_nat (length l1)).
Proof.
  intros Heq Hlen. rewrite length_app in Hlen.
  replace m with (Z.of_nat (length l1) + Z.of_nat (length l2))%Z in Heq by lia.
  rewrite seqZ_app in Heq by lia.
  apply app_inj_1 in Heq as [H1 H2]; [by split|].
  rewrite length_seqZ. lia.
Qed.

Lemma rel_ok_ack fs c r ack :
  rel_ok fs c r ->
  rel_ok fs c (mkReliable (next_seq r)
    (if (acked_seq r <? ack)%Z then ack else acked_seq r) (drop_acked ack (buffer r))
    (rel_capacity r)).
Proof.
  intros [H1 H2 H3 H4 H5 H6].
  destruct (drop_acked_split ack (buffer r)) as (l & Heq & Hl).
  set (buf := drop_acked ack (buffer r)) in *. rewrite Heq in H1, H2.
  rewrite fmap_app in H1. pose proof H1 as H1'.
  rewrite length_app in H1', H2.
  apply seqZ_suffix in H1 as [Hs2 Hs1]; [|by rewrite !length_app, !length_fmap].
  rewrite !length_fmap in Hs1, Hs2. rewrite length_app in Hs1, Hs2.
  assert (Hin : forall p, p ∈ buf -> p ∈ buffer r).
  { intros p Hp. rewrite Heq. apply elem_of_app. by right. }
  split; simpl.
  - etrans; [exact Hs2|]. rewrite length_fmap. f_equal. lia.
  - split; [lia|]. destruct l as [|p0 l0 _] using rev_ind.
    + simpl in *. destruct (Z.ltb_spec (acked_seq r) ack); lia.
    + apply Forall_app in Hl as [_ Hl]. rewrite Forall_singleton in Hl.
      assert (p_seq p0 = next_seq r - Z.of_nat (length buf))%Z as Hp0.
      { apply (f_equal list.last) in Hs1. rewrite fmap_app in Hs1.
        change (p_seq <$> [p0]) with [p_seq p0] in Hs1. rewrite last_snoc in Hs1.
        rewrite length_app in Hs1, H2. simpl in Hs1.
        replace (Z.of_nat (length l0 + 1)) with (Z.of_nat (length l0) + 1)%Z in Hs1 by lia.
        rewrite seqZ_app in Hs1 by lia. unfold seqZ at 2 in Hs1. simpl in Hs1.
        rewrite last_snoc in Hs1. injection Hs1 as Hs1. lia. }
      destruct (Z.ltb_spec (acked_seq r) ack); lia.
  - intros p Hp. apply H3. by apply Hin.
  - intros p Hp. apply H4. by apply Hin.
  - done.
  - done.
Qed.

Lemma on_ack_ok n c ack : net_ok n -> net_ok (on_ack n c ack) /\ frames (on_ack n c ack) = frames n.
Proof.
  intros Hok. pose proof Hok as [H1 H2]. unfold on_ack.
  destruct (connections_ n !! c) as [ctx|] eqn:Hc.
  - destruct (H1 _ _ Hc) as [Hh Hr Ho].
    pose proof (rel_ok_ack (frames n) c (rel ctx) ack Hr) as Hr'.
    set (ctx' := set_rel ctx _). destruct (drop_acked ack (buffer (rel ctx))) as [|p buf] eqn:Hb.
    + split; [|done]. split; simpl; intros c0 ctx0 [[<- <-]|[Hne Hx]]%lookup_insert_Some.
      * by split.
      * by apply H1.
      * unfold ctx'. simpl. done.
      * intros Hbuf. pose proof (H2 _ _ Hx Hbuf). set_solver.
    + split; [|done]. apply (store_ok n n); [done|done| |].
      * by split.
      * intros _. apply (H2 _ _ Hc). intros He. by rewrite He in Hb.
  - split; [|done]. split; simpl; [done|]. intros c0 ctx0 Hx Hb.
    pose proof (H2 _ _ Hx Hb). assert (c0 <> c) by congruence. set_solver.
Qed.

(** *** Retransmission *)

(** [max_retransmits] is a [uint16_t]. *)
Context (Hcfg : (0 <= max_retransmits cfg < two16)%Z).

(** What a sweep may change in a buffered frame: its send time and attempts. *)
Definition resent (p p' : Pending B) : Prop :=
  p_seq p' = p_seq p /\ p_bytes p' = p_bytes p /\
  (p_attempts p' = p_attempts p \/
   ((p_attempts p < max_retransmits cfg)%Z /\ p_attempts p' = wrap16 (p_attempts p + 1))).

Lemma resend_overdue_ext now h buf : forall n, net_ext n (resend_overdue now h buf n).2.
Proof.
  induction buf as [|p buf IH]; intros n; simpl; [done|].
  destruct (now - p_last_sent_at p <? retransmit_timeout cfg)%Z.
  { specialize (IH n). by destruct (resend_overdue now h buf n) as [[d rest] n1]. }
  destruct (max_retransmits cfg <=? p_attempts p)%Z; [done|].
  pose proof (is_backpressured_ext n h) as H1.
  destruct (is_backpressured e n h) as [bp n1]. simpl in H1. destruct bp; [done|].
  pose proof (transport_send_ext n1 h (p_bytes p) true) as H2.
  destruct (transport_send e n1 h (p_bytes p) true) as [sent n2]. simpl in H2.
  specialize (IH n2). destruct (resend_overdue now h buf n2) as [[d rest] n3]. simpl in *.
  etrans; [exact H1|]. by etrans.
Qed.

Lemma resend_overdue_resent now h buf : forall n,
  Forall2 resent buf (resend_overdue now h buf n).1.2.
Proof.
  assert (Hrefl : forall l, Forall2 resent l l).
  { induction l; constructor; [|done]. split_and!; auto. }
  induction buf as [|p buf IH]; intros n; simpl; [constructor|].
  destruct (now - p_last_sent_at p <? retransmit_timeout cfg)%Z.
  { specialize (IH n). destruct (resend_overdue now h buf n) as [[d rest] n1]. simpl in *.
    constructor; [split_and!; auto|done]. }
  destruct (Z.leb_spec (max_retransmits cfg) (p_attempts p)); [apply Hrefl|].
  destruct (is_backpressured e n h) as [bp n1]. destruct bp; [apply Hrefl|].
  destruct (transport_send e n1 h (p_bytes p) true) as [sent n2].
  specialize (IH n2). destruct (resend_overdue now h buf n2) as [[d rest] n3]. simpl in *.
  constructor; [|done]. destruct sent; split_and!; simpl; auto.
Qed.

Lemma rel_ok_resent fs c r buf :
  rel_ok fs c r -> Forall2 resent (buffer r) buf ->
  rel_ok fs c (mkReliable (next_seq r) (acked_seq r) buf (rel_capacity r)).
Proof using Hcfg.
  intros [H1 H2 H3 H4 H5 H6] Hf. pose proof (Forall2_length Hf) as Hlen.
  assert (Hseq : p_seq <$> buf = p_seq <$> buffer r).
  { clear -Hf. induction Hf as [|p p' l l' (Hs & _) _ IH]; [done|].
    rewrite !fmap_cons. by rewrite Hs, IH. }
  assert (Hold : forall p', p' ∈ buf -> exists p, p ∈ buffer r /\ resent p p').
  { intros p' (i & Hi)%list_elem_of_lookup. destruct (Forall2_lookup_r _ _ _ _ _ Hf Hi) as (p & Hp & Hr).
    exists p. split; [|done]. by eapply list_elem_of_lookup_2. }
  split; simpl; rewrite <- ?Hlen; try done.
  - by rewrite Hseq.
  - intros p' Hp'. destruct (Hold _ Hp') as (p & Hp & Hs & Hb & _). rewrite Hs, Hb. by apply H3.
  - intros p' Hp'. destruct (Hold _ Hp') as (p & Hp & _ & _ & Ha). pose proof (H4 p Hp).
    destruct Ha as [->|[Hlt ->]]; [done|]. unfold wrap16. rewrite Z.mod_small; lia.
Qed.

(** The sweep of one connection changes only that connection's buffer entries. *)
Definition same_shape (o o' : option (Ctx B)) : Prop :=
  match o, o' with
  | None, None => True
  | Some ctx, Some ctx' =>
    handle ctx' = handle ctx /\ outbox ctx' = outbox ctx /\ auth_state ctx' = auth_state ctx /\
    Forall2 resent (buffer (rel ctx)) (buffer (rel ctx'))
  | _, _ => False
  end.

Lemma same_shape_refl o : same_shape o o.
Proof.
  destruct o as [ctx|]; simpl; [|done]. split_and!; try done.
  induction (buffer (rel ctx)); constructor; [split_and!; auto|done].
Qed.

Lemma sweep_connection_shape now n c :
  forall c', same_shape (connections_ n !! c') (connections_ (sweep_connection now n c).2 !! c').
Proof.
  intros c'. unfold sweep_connection.
  destruct (connections_ n !! c) as [ctx|] eqn:Hc; [|apply same_shape_refl].
  destruct (buffer (rel ctx)) as [|p buf] eqn:Hb; [apply same_shape_refl|].
  rewrite <- Hb. case_match; [apply same_shape_refl|]. case_match; [apply same_shape_refl|].
  pose proof (resend_overdue_resent now (handle ctx) (buffer (rel ctx)) n) as Hr.
  pose proof (resend_overdue_ext now (handle ctx) (buffer (rel ctx)) n) as [_ Hcn _].
  destruct (resend_overdue now (handle ctx) (buffer (rel ctx)) n) as [[d buf'] n1]. simpl in *.
  assert (same_shape (connections_ n !! c') (<[c := set_rel ctx
    (mkReliable (next_seq (rel ctx)) (acked_seq (rel ctx)) buf' (rel_capacity (rel ctx)))]>
    (connections_ n1) !! c')) as Hs.
  { rewrite lookup_insert, Hcn. case_decide; [|apply same_shape_refl]. subst c'. by rewrite Hc. }
  by destruct d.
Qed.

Lemma sweep_connection_ok now n c :
  net_ok n -> net_ok (sweep_connection now n c).2.
Proof using Hcfg.
  intros Hok. unfold sweep_connection.
  destruct (connections_ n !! c) as [ctx|] eqn:Hc; [|done].
  destruct (buffer (rel ctx)) as [|p buf] eqn:Hb; [done|].
  rewrite <- Hb. case_match; [done|]. case_match; [done|].
  pose proof (resend_overdue_resent now (handle ctx) (buffer (rel ctx)) n) as Hr.
  pose proof (resend_overdue_ext now (handle ctx) (buffer (rel ctx)) n) as Hext.
  destruct (resend_overdue now (handle ctx) (buffer (rel ctx)) n) as [[d buf'] n1]. simpl in *.
  assert (Hst : net_ok (set_connections n1 (<[c := set_rel ctx
    (mkReliable (next_seq (rel ctx)) (acked_seq (rel ctx)) buf' (rel_capacity (rel ctx)))]>
    (connections_ n1)))).
  { apply (store_ok n n1); [done|done| |].
    - destruct (ctx_ok_mono _ _ _ _ (nx_frames _ _ Hext) (no_ctx _ Hok _ _ Hc)) as [H1 H2 H3].
      split; try done. by apply rel_ok_resent.
    - intros _. apply (nx_unacked _ _ Hext). apply (no_unacked _ Hok _ _ Hc). by rewrite Hb. }
  by destruct d.
Qed.

(** Why the sweep may take a connection out of the index. *)
Definition leaves_index (n : Net B) (drops : list (WsHandle * DropConnection)) (c : ConnId) : Prop :=
  match connections_ n !! c with
  | None => True
  | Some ctx => buffer (rel ctx) = [] \/ exists d, (handle ctx, d) ∈ drops
  end.

Lemma sweep_connection_leaves now n c drop n1 :
  sweep_connection now n c = (drop, true, n1) ->
  leaves_index n1 (match drop with Some d => [d] | None => [] end) c.
Proof.
  unfold sweep_connection, leaves_index.
  destruct (connections_ n !! c) as [ctx|] eqn:Hc; [|intros [= <- <-]; by rewrite Hc].
  destruct (buffer (rel ctx)) as [|p buf] eqn:Hb; [intros [= <- <-]; rewrite Hc; by left|].
  case_match.
  { intros [= <- <-]. rewrite Hc. right. eexists. apply list_elem_of_singleton. reflexivity. }
  case_match; [done|].
  destruct (resend_overdue now (handle ctx) _ n) as [[[d|] buf'] n2]; [|done].
  intros [= <- <-]. simpl. rewrite lookup_insert_eq. right. exists d. simpl.
  by apply list_elem_of_singleton.
Qed.

Lemma leaves_index_step n n1 drops c :
  (forall c', same_shape (connections_ n !! c') (connections_ n1 !! c')) ->
  leaves_index n drops c -> leaves_index n1 drops c.
Proof.
  intros Hs. unfold leaves_index. specialize (Hs c).
  destruct (connections_ n !! c) as [ctx|], (connections_ n1 !! c) as [ctx1|]; try done.
  destruct Hs as (Hh & _ & _ & Hf). intros [Hb|Hd].
  - left. rewrite Hb in Hf. by apply Forall2_nil_inv_l in Hf.
  - right. by rewrite Hh.
Qed.

Lemma sweep_connection_frames now n c :
  frames n `prefix_of` frames (sweep_connection now n c).2.
Proof.
  unfold sweep_connection. destruct (connections_ n !! c) as [ctx|]; [|done].
  destruct (buffer (rel ctx)) as [|p buf] eqn:Hb; [done|].
  rewrite <- Hb. case_match; [done|]. case_match; [done|].
  pose proof (resend_overdue_ext now (handle ctx) (buffer (rel ctx)) n) as [Hext _ _].
  by destruct (resend_overdue now (handle ctx) (buffer (rel ctx)) n) as [[[d|] buf'] n1].
Qed.

Lemma leaves_index_more n drops drops' c :
  (forall d, d ∈ drops -> d ∈ drops') -> leaves_index n drops c -> leaves_index n drops' c.
Proof.
  unfold leaves_index. destruct (connections_ n !! c); [|done]. naive_solver.
Qed.

(** Membership in the index only shrinks by connections that may leave. *)
Lemma sweep_loop_leaves now conns : forall n c,
  (c ∈ (sweep_loop now conns n).1.2 \/ leaves_index n [] c ->
   leaves_index (sweep_loop now conns n).2 (sweep_loop now conns n).1.1 c) /\
  (forall d0, leaves_index n [d0] c ->
   leaves_index (sweep_loop now conns n).2 (d0 :: (sweep_loop now conns n).1.1) c).
Proof.
  induction conns as [|c0 conns IH]; intros n c; simpl.
  { split; [|done]. intros [Hc|Hc]; [by apply not_elem_of_nil in Hc|done]. }
  pose proof (sweep_connection_shape now n c0) as Hs.
  pose proof (sweep_connection_leaves now n c0) as Hl.
  destruct (sweep_connection now n c0) as [[drop erase] n1]. simpl in *.
  destruct (IH n1 c) as [I1 I2].
  destruct (sweep_loop now conns n1) as [[drops to_erase] n2]. simpl in *.
  assert (Hmore : forall ds, leaves_index n2 ds c -> (forall d, d ∈ ds -> d ∈ drops) ->
    leaves_index n2 (match drop with Some d => d :: drops | None => drops end) c).
  { intros ds Hd Hsub. eapply leaves_index_more; [|exact Hd]. intros d Hdin.
    destruct drop; [right|]; by apply Hsub. }
  split.
  - intros [Hc|Hc].
    + destruct erase; [apply elem_of_cons in Hc as [->|Hc]|].
      * specialize (Hl _ _ eq_refl). destruct drop as [d|]; [by apply I2|].
        apply I1. by right.
      * apply (Hmore drops); [|done]. apply I1. by left.
      * apply (Hmore drops); [|done]. apply I1. by left.
    + apply (Hmore drops); [|done]. apply I1. right. by eapply leaves_index_step.
  - intros d0 Hd0. apply (leaves_index_step n n1) in Hd0; [|done]. apply I2 in Hd0.
    eapply leaves_index_more; [|exact Hd0]. intros d. rewrite !elem_of_cons.
    intros [->|Hd]; [by left|]. right. destruct drop; [by right|done].
Qed.

Lemma sweep_loop_ok now conns : forall n, net_ok n -> net_ok (sweep_loop now conns n).2.
Proof using Hcfg.
  induction conns as [|c conns IH]; intros n Hok; simpl; [done|].
  pose proof (sweep_connection_ok now n c Hok) as Hok1.
  destruct (sweep_connection now n c) as [[drop erase] n1]. simpl in *.
  specialize (IH n1 Hok1). by destruct (sweep_loop now conns n1) as [[drops to_erase] n2].
Qed.

Lemma sweep_loop_frames now conns : forall n,
  frames n `prefix_of` frames (sweep_loop now conns n).2.
Proof.
  induction conns as [|c conns IH]; intros n; simpl; [done|].
  pose proof (sweep_connection_frames now n c) as Hf1.
  destruct (sweep_connection now n c) as [[drop erase] n1]. simpl in *.
  specialize (IH n1). destruct (sweep_loop now conns n1) as [[drops to_erase] n2]. simpl in *.
  by etrans.
Qed.

Lemma end_all_lookup drops : forall n c ctx,
  connections_ (end_all drops n) !! c = Some ctx ->
  connections_ n !! c = Some ctx /\ forall d, (Some c, d) ∉ drops.
Proof.
  induction drops as [|[h d] drops IH]; intros n c ctx; unfold end_all; simpl.
  { intros H. split; [done|]. intros d Hd. by apply not_elem_of_nil in Hd. }
  intros H. apply IH in H as [H1 H2]. destruct h as [s|]; simpl in *.
  - apply lookup_delete_Some in H1 as [Hne H1]. split; [done|].
    intros d0 [[= -> _]|Hd]%elem_of_cons; [done|]. by apply (H2 d0).
  - split; [done|]. intros d0 [?|Hd]%elem_of_cons; [done|]. by apply (H2 d0).
Qed.

Lemma end_all_unacked drops : forall n : Net B,
  pending_unacked_conns_ (end_all drops n) = pending_unacked_conns_ n.
Proof.
  induction drops as [|[h d] drops IH]; intros n; unfold end_all in *; simpl; [done|].
  rewrite IH. by destruct h.
Qed.

Lemma retransmit_sweep_frames n : frames n `prefix_of` frames (retransmit_sweep n).
Proof.
  unfold retransmit_sweep. case_decide; [done|]. simpl.
  set (conns := elements _). set (now := env_steady_clock e _).
  pose proof (sweep_loop_frames now conns (query n)) as Hf.
  destruct (sweep_loop now conns (query n)) as [[drops to_erase] n2]. simpl in *.
  by rewrite end_all_frames.
Qed.

Lemma retransmit_sweep_ok n : net_ok n -> net_ok (retransmit_sweep n).
Proof using Hcfg.
  intros Hok. unfold retransmit_sweep. case_decide; [done|]. simpl.
  set (conns := elements _). set (now := env_steady_clock e _).
  pose proof (sweep_loop_ok now conns (query n) (query_ok _ Hok)) as Hok2.
  pose proof (fun c => proj1 (sweep_loop_leaves now conns (query n) c)) as Hl.
  destruct (sweep_loop now conns (query n)) as [[drops to_erase] n2]. simpl in *.
  destruct Hok2 as [H1 H2]. split.
  - intros c ctx Hc. rewrite end_all_frames. apply end_all_lookup in Hc as [Hc _]. by apply H1.
  - intros c ctx Hc Hb. apply end_all_lookup in Hc as [Hc Hd]. rewrite end_all_unacked. simpl in *.
    apply elem_of_difference. split; [by eapply H2|]. rewrite elem_of_list_to_set. intros Hin.
    specialize (Hl c (or_introl Hin)). unfold leaves_index in Hl. rewrite Hc in Hl.
    destruct Hl as [?|[d Hdin]]; [done|].
    rewrite (co_handle _ _ _ (H1 _ _ Hc)) in Hdin. by apply (Hd d).
Qed.

Lemma distribute_frames conns msg : forall (n : Net B) touched,
  frames (distribute_to conns msg n touched).2 = frames n.
Proof.
  induction conns as [|g conns IH]; intros n touched; simpl; [done|].
  unfold enqueue_to_outbox, mutate.
  destruct (connections_ n !! conn_id g); by rewrite IH.
Qed.

Lemma drain_queue_frames budget d : forall n touched,
  frames (drain_queue budget d n touched).2 = frames n.
Proof.
  induction budget as [|budget IH]; intros n touched; simpl; [done|].
  assert (frames (deadline_passed n d).2 = frames n) as Hf by by destruct d.
  destruct (deadline_passed n d) as [late n1]. simpl in Hf. destruct late; [done|].
  destruct (OutgoingQueue.try_pop (out_q n1)) as [[msg|] q']; [|done].
  pose proof (distribute_frames (target msg) msg (set_out_q n1 q') touched) as Hd.
  unfold distribute. destruct (distribute_to _ _ _ _) as [t2 n2]. simpl in *.
  by rewrite IH, Hd.
Qed.

Lemma tick_frames n : frames n `prefix_of` frames (tick n).
Proof.
  unfold tick. simpl. set (d := if (0 <? time_budget cfg)%Z then _ else None).
  pose proof (drain_queue_frames (max_per_tick cfg) d (query n) ∅) as Hf.
  destruct (drain_queue (max_per_tick cfg) d (query n) ∅) as [touched n2]. simpl in *.
  rewrite <- Hf. etrans; [apply flush_touched_frames|apply retransmit_sweep_frames].
Qed.

Lemma tick_ok n :
  net_ok n -> (Z.of_nat (length (frames (tick n))) < two64)%Z -> net_ok (tick n).
Proof using Hcfg.
  intros Hok. unfold tick. simpl. set (d := if (0 <? time_budget cfg)%Z then _ else None).
  destruct (drain_queue_ok (max_per_tick cfg) d (query n) ∅ (query_ok _ Hok)) as [Hok1 _].
  destruct (drain_queue (max_per_tick cfg) d (query n) ∅) as [touched n2]. simpl in *.
  intros Hlen. apply retransmit_sweep_ok, flush_touched_ok; [done|].
  pose proof (prefix_length _ _ (retransmit_sweep_frames (flush_touched (elements touched) d n2))).
  lia.
Qed.

(** ** Outbox policy *)

Definition high_items (q : list (OutboundItem B)) : list (OutboundItem B) :=
  filter (fun m => item_priority m = High) q.

Lemma is_low_spec m : is_low m = true <-> item_priority m = Low.
Proof. apply bool_decide_eq_true. Qed.

Lemma erase_last_low_high q q' :
  erase_last_low q = Some q' -> high_items q' = high_items q.
Proof.
  revert q'. induction q as [|m q IH]; intros q'; simpl; [done|].
  destruct (erase_last_low q) as [q''|].
  - intros [= <-]. unfold high_items in *. rewrite !filter_cons. by rewrite (IH q'').
  - destruct (is_low m) eqn:Hl; [|done]. intros [= <-]. unfold high_items. rewrite filter_cons.
    apply is_low_spec in Hl. by rewrite decide_False by (rewrite Hl; discriminate).
Qed.

Lemma erase_last_low_none q :
  erase_last_low q = None -> Forall (fun m => item_priority m = High) q.
Proof.
  induction q as [|m q IH]; simpl; [constructor|].
  destruct (erase_last_low q); [done|]. destruct (is_low m) eqn:Hl; [done|]. intros _.
  constructor; [|by apply IH]. destruct (item_priority m) eqn:Hp; [done|].
  apply is_low_spec in Hp. congruence.
Qed.

Lemma high_items_snoc q m :
  high_items (q ++ [m]) = high_items q ++ (if decide (item_priority m = High) then [m] else []).
Proof. unfold high_items. by rewrite list.filter_app. Qed.

Lemma outbox_push_cases ob item : outbox_ok ob ->
  high_items (ob_q (outbox_push ob item)) =
    high_items (ob_q ob) ++ (if decide (item_priority item = High) then [item] else []) \/
  (item_priority item = High /\ length (ob_q ob) = 128%nat /\
   Forall (fun m => item_priority m = High) (ob_q ob) /\
   (ob_q (outbox_push ob item) = ob_q ob /\
    slow_hits (outbox_push ob item) = (slow_hits ob + 1)%Z \/
    slow_hits ob = 3%Z /\
    ob_q (outbox_push ob item) =
      [mkItem High (ActDrop (mkDropConnection 4409 "slow_outbox_overflow"))])).
Proof.
  intros [H1 H2 H3]. unfold outbox_push.
  destruct (Nat.ltb_spec (length (ob_q ob)) (ob_capacity ob)); [left; apply high_items_snoc|].
  destruct (is_low item) eqn:Hl.
  { left. apply is_low_spec in Hl. rewrite Hl. simpl. by rewrite app_nil_r. }
  assert (Hp : item_priority item = High).
  { destruct (item_priority item) eqn:E; [done|]. apply is_low_spec in E. congruence. }
  destruct (erase_last_low (ob_q ob)) as [q|] eqn:E.
  { left. simpl. rewrite high_items_snoc. by rewrite (erase_last_low_high _ _ E). }
  right. apply erase_last_low_none in E. split_and!; [done|lia|done|].
  assert (wrap32 (slow_hits ob + 1) = slow_hits ob + 1)%Z as ->.
  { unfold wrap32. apply Z.mod_small. unfold two32. lia. }
  destruct (Z.leb_spec 4 (slow_hits ob + 1)); simpl; [right; split; [lia|done]|by left].
Qed.

(** ** What a flush sends *)

(** The reliable payloads among consumed items. *)
Definition reliable_payloads (items : list (OutboundItem B)) : list B :=
  omap (fun m => match item_action m with
                 | ActSend a => if reliable a then data (payload a) else None
                 | _ => None
                 end) items.

(** The numbered frames for payloads [bs], counting from [s]. *)
Fixpoint number_from (s : Z) (bs : list B) : list (Z * B) :=
  match bs with
  | [] => []
  | b :: bs' => (s, stamp_envelope_seq b s) :: number_from (s + 1) bs'
  end.

Definition numbered (buf : list (Pending B)) : list (Z * B) :=
  (fun p => (p_seq p, p_bytes p)) <$> buf.

Lemma send_payload_numbers c a n ctx :
  ctx_ok (frames n) c ctx ->
  (Z.of_nat (length (frames (send_payload c a n ctx).1.2)) < two64)%Z ->
  let r := send_payload c a n ctx in
  let sent := if r.1.1 then reliable_payloads [mkItem High (ActSend a)] else [] in
  numbered (buffer (rel r.2)) =
    numbered (buffer (rel ctx)) ++ number_from (next_seq (rel ctx) + 1) sent /\
  next_seq (rel r.2) = (next_seq (rel ctx) + Z.of_nat (length sent))%Z.
Proof.
  intros [Hh Hr _]. unfold send_payload, reliable_payloads. cbn [omap list_omap item_action].
  destruct (data (payload a)) as [bytes|] eqn:Hd.
  2:{ intros _. simpl. destruct (reliable a); simpl; rewrite app_nil_r; (split; [done|lia]). }
  pose proof (is_backpressured_ext n (handle ctx)) as [Hf _ _].
  destruct (is_backpressured e n (handle ctx)) as [bp n1]. simpl in Hf.
  destruct bp; [intros _; simpl; rewrite app_nil_r; split; [done|lia]|].
  rewrite Hh. simpl negb. cbn iota. destruct (reliable a).
  - set (wire := stamp_envelope_seq bytes _).
    pose proof (transport_send_frame n1 c wire (is_binary (payload a))) as Hsend.
    destruct (transport_send e n1 (Some c) wire (is_binary (payload a))) as [sent n2].
    simpl in Hsend. destruct sent; simpl; [|intros _; rewrite app_nil_r; split; [done|lia]].
    rewrite (Hsend eq_refl), length_app. simpl. intros Hlen.
    pose proof (ro_count _ _ _ Hr). pose proof (ro_low _ _ _ Hr). apply prefix_length in Hf.
    assert (wrap64 (next_seq (rel ctx) + 1) = next_seq (rel ctx) + 1)%Z as Hw
      by (apply wrap64_small; lia).
    subst wire. rewrite Hw. unfold numbered. rewrite fmap_app. by split.
  - destruct (transport_send e n1 (Some c) bytes (is_binary (payload a))) as [sent n2].
    intros _. destruct sent; simpl; rewrite app_nil_r; (split; [done|lia]).
Qed.

Lemma number_from_app s bs1 bs2 :
  number_from s (bs1 ++ bs2) =
  number_from s bs1 ++ number_from (s + Z.of_nat (length bs1)) bs2.
Proof.
  revert s. induction bs1 as [|b bs1 IH]; intros s; simpl; [by rewrite Z.add_0_r|].
  rewrite IH. do 3 f_equal. lia.
Qed.

(** How the queue [q] was consumed: a prefix [front] was processed, and either
    [rest] stays or a drop ended the loop. *)
Definition consumed (q front rest : list (OutboundItem B)) (drop : option DropConnection) : Prop :=
  match drop with
  | None => q = front ++ rest
  | Some d => rest = [] /\ exists p skipped, q = front ++ mkItem p (ActDrop d) :: skipped
  end.

Lemma consumed_cons m q front rest drop :
  consumed q front rest drop -> consumed (m :: q) (m :: front) rest drop.
Proof.
  destruct drop as [d|]; simpl; [|by intros ->].
  intros (-> & p & sk & ->). split; [done|]. by exists p, sk.
Qed.

Lemma flush_loop_numbers c q : forall n ctx,
  ctx_ok (frames n) c ctx ->
  (Z.of_nat (length (frames (flush_loop c q n ctx).1.2)) < two64)%Z ->
  exists front,
    consumed q front (flush_loop c q n ctx).1.1.2 (flush_loop c q n ctx).1.1.1 /\
    numbered (buffer (rel (flush_loop c q n ctx).2)) =
      numbered (buffer (rel ctx)) ++
      number_from (next_seq (rel ctx) + 1) (reliable_payloads front) /\
    next_seq (rel (flush_loop c q n ctx).2) =
      (next_seq (rel ctx) + Z.of_nat (length (reliable_payloads front)))%Z.
Proof.
  induction q as [|m q IH]; intros n ctx Hok Hlen; simpl in *.
  { exists []. simpl. rewrite app_nil_r. split_and!; [done|done|lia]. }
  destruct m as [p [a|a|d]]; simpl in *.
  - pose proof (send_payload_ok c a n ctx Hok) as Hs.
    pose proof (send_payload_numbers c a n ctx Hok) as Hn. cbv zeta in Hn.
    remember (reliable_payloads [mkItem High (ActSend a)]) as single eqn:Hsingle.
    destruct (send_payload c a n ctx) as [[b n1] ctx1]. simpl in Hs, Hn.
    destruct b; simpl in *.
    + pose proof (prefix_length _ _ (nx_frames _ _ (flush_loop_ext c q n1 ctx1))) as Hpl.
      destruct Hs as (H1 & _ & _); [lia|]. destruct Hn as [Hn1 Hn2]; [lia|].
      destruct (IH n1 ctx1 H1 Hlen) as (front & I1 & I2 & I3).
      exists (mkItem p (ActSend a) :: front). split; [by apply consumed_cons|].
      assert (reliable_payloads (mkItem p (ActSend a) :: front) =
              single ++ reliable_payloads front) as ->.
      { rewrite Hsingle. unfold reliable_payloads. simpl. by destruct (reliable a); [destruct (data (payload a))|]. }
      rewrite I2, I3, Hn1, Hn2, number_from_app, length_app, <- app_assoc. split; [|lia].
      do 3 f_equal. lia.
    + destruct Hn as [Hn1 Hn2]; [done|]. exists []. simpl. split_and!; done.
  - destruct (apply_auth_same ctx a) as [Hr Ho].
    destruct (IH n (apply_auth ctx a)) as (front & I1 & I2 & I3); [by apply apply_auth_ok|done|].
    exists (mkItem p (ActAuth a) :: front). rewrite Hr in *. split; [by apply consumed_cons|done].
  - exists []. simpl. rewrite app_nil_r. split_and!; [done|by eauto|done|lia].
Qed.

Lemma drop_acked_above ack buf a :
  p_seq <$> buf = seqZ a (Z.of_nat (length buf)) ->
  Forall (fun p => (ack < p_seq p)%Z) (drop_acked ack buf).
Proof.
  revert a. induction buf as [|p buf IH]; intros a Heq; [constructor|].
  rewrite fmap_cons, seqZ_cons in Heq by (simpl; lia). injection Heq as Hp Hs. simpl.
  replace (Z.pred (Z.of_nat (S (length buf)))) with (Z.of_nat (length buf)) in Hs by lia.
  destruct (Z.leb_spec (p_seq p) ack); [exact (IH (Z.succ a) Hs)|].
  constructor; [lia|]. apply list.Forall_forall. intros q Hq.
  assert (Hin : p_seq q ∈ p_seq <$> buf) by (apply list_elem_of_fmap; eauto).
  rewrite Hs in Hin. apply elem_of_seqZ in Hin. lia.
Qed.

(** Every assigned number is acknowledged or buffered. *)
Lemma delivered_or_buffered fs c r s :
  rel_ok fs c r -> (1 <= s <= next_seq r)%Z ->
  (exists bytes, transmitted fs c s bytes) /\
  ((s <= acked_seq r)%Z \/
   exists p, p ∈ buffer r /\ p_seq p = s /\ transmitted fs c s (p_bytes p)).
Proof.
  intros [H1 H2 H3 H4 H5 H6] Hs. split; [by apply H5|].
  destruct (Z.le_gt_cases s (acked_seq r)) as [?|Hgt]; [by left|]. right.
  assert (Hin : s ∈ p_seq <$> buffer r) by (rewrite H1; apply elem_of_seqZ; lia).
  apply list_elem_of_fmap in Hin as (p & -> & Hp). exists p. split_and!; [done|done|by apply H3].
Qed.

(** ** Properties *)

(** Enqueueing never loses a high-priority item silently.  Either all
    queued high-priority items keep their order and the new item (if high
    priority) is behind them, or the outbox was full of high-priority items;
    then the item is refused and counted, and the fourth refusal replaces the
    backlog by a single drop of the connection with code 4409. *)
Theorem outbox_overflow_policy (ob : Outbox B) (item : OutboundItem B) (Hok : outbox_ok ob) :
  outbox_ok (outbox_push ob item) /\
  (high_items (ob_q (outbox_push ob item)) =
     high_items (ob_q ob) ++ (if decide (item_priority item = High) then [item] else []) \/
   (item_priority item = High /\ length (ob_q ob) = 128%nat /\
    Forall (fun m => item_priority m = High) (ob_q ob) /\
    (ob_q (outbox_push ob item) = ob_q ob /\
     slow_hits (outbox_push ob item) = (slow_hits ob + 1)%Z \/
     slow_hits ob = 3%Z /\
     ob_q (outbox_push ob item) =
       [mkItem High (ActDrop (mkDropConnection 4409 "slow_outbox_overflow"))]))).
Proof. split; [by apply outbox_push_ok|by apply outbox_push_cases]. Qed.

(** A flush consumes a prefix of the connection's outbox, in order, and
    numbers exactly the reliable payloads of that prefix with the next
    consecutive sequence numbers, retaining for each the bytes stamped with its
    number; it stops early only at an item the socket did not take or at a drop. *)
Theorem flush_numbers_reliable_in_order (n : Net B) (c : ConnId) (ctx : Ctx B)
  (Hok : net_ok n) (Hc : connections_ n !! c = Some ctx)
  (Hlen : (Z.of_nat (length (frames (flush_connection_outbox n c))) < two64)%Z) :
  let '(drop, rest, n1, ctx1) := flush_loop c (ob_q (outbox ctx)) n ctx in
  exists front,
    consumed (ob_q (outbox ctx)) front rest drop /\
    numbered (buffer (rel ctx1)) =
      numbered (buffer (rel ctx)) ++ number_from (next_seq (rel ctx) + 1) (reliable_payloads front) /\
    next_seq (rel ctx1) = (next_seq (rel ctx) + Z.of_nat (length (reliable_payloads front)))%Z /\
    (drop = None -> exists ctx2, connections_ (flush_connection_outbox n c) !! c = Some ctx2 /\
       ob_q (outbox ctx2) = rest /\ rel ctx2 = rel ctx1).
Proof.
  pose proof (flush_loop_numbers c (ob_q (outbox ctx)) n ctx (no_ctx _ Hok _ _ Hc)) as Hn.
  revert Hlen. unfold flush_connection_outbox. rewrite Hc.
  destruct (flush_loop c (ob_q (outbox ctx)) n ctx) as [[[drop rest] n1] ctx1]. simpl in Hn.
  intros Hlen. destruct Hn as (front & H1 & H2 & H3).
  { destruct drop; [by rewrite end_handle_frames in Hlen|done]. }
  exists front. split_and!; try done. intros ->. simpl. rewrite lookup_insert_eq. by eauto.
Qed.

(** A cumulative acknowledgement never forgets an unacknowledged frame: the
    frames it removes are all numbered at or below the acknowledged number, the
    remaining ones are kept unchanged and in order, and the highest
    acknowledgement seen never decreases. *)
Theorem ack_removes_only_acked (n : Net B) (c : ConnId) (ack : Z) (ctx : Ctx B)
  (Hok : net_ok n) (Hc : connections_ n !! c = Some ctx) :
  exists ctx' gone, connections_ (on_ack n c ack) !! c = Some ctx' /\
    buffer (rel ctx) = gone ++ buffer (rel ctx') /\
    Forall (fun p => (p_seq p <= ack)%Z) gone /\
    Forall (fun p => (ack < p_seq p)%Z) (buffer (rel ctx')) /\
    acked_seq (rel ctx') = Z.max (acked_seq (rel ctx)) ack /\
    net_ok (on_ack n c ack).
Proof.
  pose proof (proj1 (on_ack_ok n c ack Hok)) as Hok'.
  pose proof (drop_acked_split ack (buffer (rel ctx))) as (gone & Heq & Hg).
  pose proof (ro_seqs _ _ _ (co_rel _ _ _ (no_ctx _ Hok _ _ Hc))) as Hseq.
  revert Hok'. unfold on_ack. rewrite Hc. intros Hok'.
  exists (set_rel ctx (mkReliable (next_seq (rel ctx))
    (if (acked_seq (rel ctx) <? ack)%Z then ack else acked_seq (rel ctx))
    (drop_acked ack (buffer (rel ctx))) (rel_capacity (rel ctx)))), gone.
  split; [destruct (drop_acked ack (buffer (rel ctx))); simpl; by rewrite lookup_insert_eq|].
  split; [done|]. split; [done|]. split; [by eapply drop_acked_above|]. split; [|done].
  simpl. destruct (Z.ltb_spec (acked_seq (rel ctx)) ack); lia.
Qed.

(** One tick of the worker, from a well-formed state, leaves every live
    connection well formed: frame numbers are consecutive and end at the highest
    number assigned, every assigned number was handed to the socket and is
    acknowledged or still buffered with its exact bytes, a connection with
    unacknowledged frames is visited by the next sweep, no frame is sent more
    often than the retransmission limit, and the outbox stays within 128 items. *)
Theorem tick_keeps_delivery_state (n : Net B)
  (Hok : net_ok n) (Hlen : (Z.of_nat (length (frames (tick n))) < two64)%Z) :
  net_ok (tick n) /\
  forall c ctx s, connections_ (tick n) !! c = Some ctx -> (1 <= s <= next_seq (rel ctx))%Z ->
    (exists bytes, transmitted (frames (tick n)) c s bytes) /\
    ((s <= acked_seq (rel ctx))%Z \/
     exists p, p ∈ buffer (rel ctx) /\ p_seq p = s /\
       transmitted (frames (tick n)) c s (p_bytes p)).
Proof using Hcfg.
  pose proof (tick_ok n Hok Hlen) as Hok'. split; [done|]. intros c ctx s Hc Hs.
  apply (delivered_or_buffered (frames (tick n)) c (rel ctx)); [|done].
  apply (co_rel _ _ _ (no_ctx _ Hok' _ _ Hc)).
Qed.

(** A freshly opened connection is well formed. *)
Lemma new_context_ok fs c kind port created :
  ctx_ok fs c (new_context c (Some c) kind port created).
Proof.
  split; [done| |split; simpl; lia].
  split; simpl; try (intros p Hp; by apply not_elem_of_nil in Hp); try done; try lia.
Qed.

(** When the shared queue is empty, a tick leaves every outbox as it was:
    what a flush left behind for want of room on the socket is taken up again
    only when another message for that connection arrives. *)
Lemma drain_empty budget d : forall (n : Net B) touched,
  OutgoingQueue.ok (out_q n) -> OutgoingQueue.high_ (out_q n) = [] ->
  OutgoingQueue.low_ (out_q n) = [] ->
  (drain_queue budget d n touched).1 = touched /\
  connections_ (drain_queue budget d n touched).2 = connections_ n.
Proof.
  intros n touched [Hs _] Hh Hl. destruct budget as [|budget]; simpl; [done|].
  assert (connections_ (deadline_passed n d).2 = connections_ n /\
          out_q (deadline_passed n d).2 = out_q n) as [Hc Hq] by by destruct d.
  destruct (deadline_passed n d) as [late n1]. simpl in Hc, Hq. destruct late; [done|].
  unfold sq_size in Hs. simpl in Hs. rewrite Hh, Hl in Hs. simpl in Hs.
  unfold OutgoingQueue.try_pop. by rewrite Hq, Hs.
Qed.

Lemma sweep_loop_outbox now conns : forall n c ctx,
  connections_ (sweep_loop now conns n).2 !! c = Some ctx ->
  exists ctx0, connections_ n !! c = Some ctx0 /\ outbox ctx = outbox ctx0.
Proof.
  induction conns as [|c0 conns IH]; intros n c ctx; simpl; [by eauto|].
  pose proof (sweep_connection_shape now n c0 c) as Hs.
  destruct (sweep_connection now n c0) as [[drop erase] n1]. simpl in Hs.
  specialize (IH n1 c ctx). destruct (sweep_loop now conns n1) as [[drops er] n2]. simpl in *.
  intros Hc. destruct (IH Hc) as (ctx1 & H1 & H2). rewrite H1 in Hs.
  destruct (connections_ n !! c) as [ctx0|]; [|done]. destruct Hs as (_ & Ho & _).
  exists ctx0. split; [done|congruence].
Qed.

(** On a tick that finds the shared queue empty, every outbox keeps its
    contents: a payload left behind by backpressure is not retried by the
    following ticks but only once a new message reaches the same connection. *)
Theorem idle_tick_does_not_retry (n : Net B)
  (Hq : OutgoingQueue.ok (out_q n)) (Hh : OutgoingQueue.high_ (out_q n) = [])
  (Hl : OutgoingQueue.low_ (out_q n) = []) (c : ConnId) (ctx : Ctx B)
  (Hc : connections_ (tick n) !! c = Some ctx) :
  exists ctx0, connections_ n !! c = Some ctx0 /\ outbox ctx = outbox ctx0.
Proof using.
  revert Hc. unfold tick. simpl. set (d := if (0 <? time_budget cfg)%Z then _ else None).
  destruct (drain_empty (max_per_tick cfg) d (query n) ∅ Hq Hh Hl) as [Ht Hcn].
  destruct (drain_queue (max_per_tick cfg) d (query n) ∅) as [touched n2]. simpl in *.
  rewrite Ht, elements_empty. simpl. rewrite <- Hcn. unfold retransmit_sweep.
  case_decide; [by eauto|]. simpl.
  pose proof (sweep_loop_outbox (env_steady_clock e (queries n2))
                (elements (pending_unacked_conns_ n2)) (query n2) c ctx) as Hs.
  destruct (sweep_loop _ _ (query n2)) as [[drops er] n3]. simpl in *.
  intros Hc. apply end_all_lookup in Hc as [Hc _]. by apply Hs.
Qed.

End Worker.

(** ** Concrete instances *)

Module Demo.

(** Payloads are envelopes; serialization is the identity. *)
Abbreviation B := Envelope.t.

Definition env_ok : Env :=
  mkEnv (fun n => Z.of_nat n) (fun n => Z.of_nat n) (fun _ => SUCCESS) (fun _ => 0%Z).

(** The socket reports backpressure on every send. *)
Definition env_bp : Env :=
  mkEnv (fun n => Z.of_nat n) (fun n => Z.of_nat n) (fun _ => BACKPRESSURE) (fun _ => 0%Z).

Definition c1 : ConnId := mkConnId "c1".
Definition g1 : GlobalConnId := mkGlobalConnId (mkNetStackId "n") c1.
Definition ev : B := Envelope.mk 1 Envelope.VOICE_KEY_UPDATE 0 "k".

Definition net0 (msgs : list (OutgoingMessage B)) : Net B :=
  mkNet {[c1 := new_context c1 (Some c1) TextWebSocket 0 0]}
    (foldl (fun q m => (OutgoingQueue.push_impl q m).2) (OutgoingQueue.create 100) msgs)
    ∅ 1 [] [] [] [] 0.

Lemma net0_ok msgs : net_ok (fun x => x) (fun x => x) default_config (net0 msgs).
Proof.
  split; simpl; intros c ctx [<- <-]%lookup_singleton_Some; [|done].
  apply new_context_ok.
Qed.

(** A connection whose outbox holds a reliable payload and an auth update. *)
Definition ctx2 : Ctx B :=
  set_queue (new_context c1 (Some c1) TextWebSocket 0 0)
    [mkItem High (ActSend (mkSendPayload (mkPayload (Some ev) true) true));
     mkItem High (ActAuth (mkUpdateAuthState AUTHENTICATED 100 None))].

Definition net_with (ctx : Ctx B) : Net B :=
  mkNet {[c1 := ctx]} (OutgoingQueue.create 100) ∅ 1 [] [] [] [] 0.

Definition net2 : Net B := net_with ctx2.

(** The same with one plain payload. *)
Definition net3 : Net B :=
  net_with (set_queue (new_context c1 (Some c1) TextWebSocket 0 0)
    [mkItem High (ActSend (mkSendPayload (mkPayload (Some ev) true) false))]).

Lemma net2_ok : net_ok (fun x => x) (fun x => x) default_config net2.
Proof.
  split; simpl; intros c ctx [<- <-]%lookup_singleton_Some; [|done].
  destruct (new_context_ok (fun x : B => x) (fun x => x) default_config [] c1 TextWebSocket 0 0)
    as [H1 H2 H3].
  split; try done. split; simpl; lia.
Qed.

Abbreviation run_tick e n := (tick (fun x : B => x) (fun x : B => x) e default_config n).

(** Two reliable messages leave with numbers 1 and 2 and stay buffered. *)
Example two_reliable :
  let n := run_tick env_ok (net0 [make_reliable_outgoing_message [g1] ev;
                                  make_reliable_outgoing_message [g1] ev]) in
  option_map (fun ctx => p_seq <$> buffer (rel ctx)) (connections_ n !! c1) = Some [1; 2]%Z.
Proof. vm_compute. reflexivity. Qed.

End Demo.

Lemma tick_keeps_delivery_state_witness :
  let n := Demo.net0 [make_reliable_outgoing_message [Demo.g1] Demo.ev] in
  let n' := tick (fun x => x) (fun x => x) Demo.env_ok default_config n in
  net_ok (fun x => x) (fun x => x) default_config n' /\ length (frames n') = 1%nat.
Proof.
  intros n n'. split; [|vm_compute; reflexivity].
  apply (tick_keeps_delivery_state (fun x => x) (fun x => x) Demo.env_ok default_config).
  - vm_compute. split; [discriminate|reflexivity].
  - apply Demo.net0_ok.
  - vm_compute. reflexivity.
Defined.

Lemma flush_numbers_reliable_in_order_witness :
  let '(drop, rest, n1, ctx1) :=
    flush_loop (fun x => x) (fun x => x) Demo.env_ok Demo.c1 (ob_q (outbox Demo.ctx2))
      Demo.net2 Demo.ctx2 in
  (exists front, consumed (ob_q (outbox Demo.ctx2)) front rest drop /\
     next_seq (rel ctx1) = Z.of_nat (length (reliable_payloads front))) /\
  next_seq (rel ctx1) = 1%Z /\ rest = [].
Proof.
  pose proof (flush_numbers_reliable_in_order (fun x => x) (fun x => x) Demo.env_ok default_config
    Demo.net2 Demo.c1 Demo.ctx2 Demo.net2_ok eq_refl eq_refl) as H.
  destruct (flush_loop _ _ _ _ _ _ _) as [[[drop rest] n1] ctx1] eqn:E.
  destruct H as (front & Hf & _ & Hn & _). split; [by exists front|].
  vm_compute in E. injection E as <- <- <- <-. split; reflexivity.
Defined.

Lemma outbox_overflow_policy_witness :
  let ob := mkOutbox (B := Envelope.t) [] 128 0 false in
  outbox_ok (outbox_push ob (mkItem High (ActDrop (mkDropConnection 1 "x")))).
Proof.
  intros ob. apply (outbox_overflow_policy ob). split; simpl; [reflexivity|lia|lia].
Defined.

Lemma ack_removes_only_acked_witness :
  let n := Demo.run_tick Demo.env_ok (Demo.net0 [make_reliable_outgoing_message [Demo.g1] Demo.ev;
                                  make_reliable_outgoing_message [Demo.g1] Demo.ev]) in
  exists ctx', connections_ (on_ack n Demo.c1 1) !! Demo.c1 = Some ctx' /\
    Forall (fun p => (1 < p_seq p)%Z) (buffer (rel ctx')) /\ acked_seq (rel ctx') = 1%Z.
Proof.
  intros n. destruct (connections_ n !! Demo.c1) as [ctx|] eqn:Hc; [|vm_compute in Hc; discriminate].
  destruct (ack_removes_only_acked (fun x => x) (fun x => x) default_config n Demo.c1 1 ctx)
    as (ctx' & gone & H1 & _ & _ & H4 & H5 & _).
  - apply (tick_ok (fun x => x) (fun x => x) Demo.env_ok default_config).
    + vm_compute. split; [discriminate|reflexivity].
    + apply Demo.net0_ok.
    + vm_compute. reflexivity.
  - exact Hc.
  - exists ctx'. split; [exact H1|]. split; [exact H4|]. rewrite H5.
    vm_compute in Hc. injection Hc as <-. reflexivity.
Defined.

Lemma idle_tick_does_not_retry_witness :
  exists ctx, connections_ (Demo.run_tick Demo.env_ok Demo.net2) !! Demo.c1 = Some ctx /\
    length (ob_q (outbox ctx)) = 2%nat.
Proof.
  destruct (connections_ (Demo.run_tick Demo.env_ok Demo.net2) !! Demo.c1) as [ctx|] eqn:Hc;
    [|vm_compute in Hc; discriminate].
  exists ctx. split; [reflexivity|].
  destruct (idle_tick_does_not_retry (fun x => x) (fun x => x) Demo.env_ok default_config Demo.net2
    (conj eq_refl eq_refl) eq_refl eq_refl Demo.c1 ctx Hc) as (ctx0 & H0 & ->).
  vm_compute in H0. injection H0 as <-. reflexivity.
Defined.

(** A send the socket answers with [BACKPRESSURE] was queued by the socket, yet
    the worker keeps the payload and sends it again: the frame goes out twice. *)
Example backpressured_frame_sent_twice :
  let once := flush_connection_outbox (fun x => x) (fun x => x) Demo.env_bp Demo.net3 Demo.c1 in
  let twice := flush_connection_outbox (fun x => x) (fun x => x) Demo.env_bp once Demo.c1 in
  frames twice = [(Demo.c1, Demo.ev, true); (Demo.c1, Demo.ev, true)].
Proof. vm_compute. reflexivity. Qed.

End Worker.
