(* ===== verification/Transport.v ===== *)
(** * Transport callbacks, heartbeat and routing

    The socket callbacks of [net/transport/websocket/WebSocketTransport.cpp]
    ([.upgrade] after the origin check, [.open], [.message], [.close]), the
    sweep of [net/runtime/HeartbeatService.cpp], and the fan-out of
    [net/NetworkRouter.cpp].  Together with the outbound worker they are the
    events of a stack's loop thread, [net_step]; the theorems are about every
    sequence of them. *)

From S2P Require Import Prelude.
From S2P Require Import Ids.
From S2P Require Import Protocol.
From S2P Require Import PriorityQueues.
From S2P Require Import OutboundMsg.
From S2P Require Import OutgoingQueue.
From S2P Require Import Connections.
From S2P Require Import OutgoingWorker.

Module Transport.

(** [WsLimits] and [HeartbeatConfig]; times in microseconds. *)
Record Limits := mkLimits { max_message_bytes : Z; max_connections : Z }.
Record HeartbeatConfig := mkHeartbeatConfig {
  timeout : Z;
  auth_pending_timeout : Z;
  close_code : Z;
  close_reason : string
}.

Definition default_heartbeat : HeartbeatConfig :=
  mkHeartbeatConfig 75000000 5000000 4000 "client_heartbeat_timeout".

Section Transport.
Context {B : Type}.
(** Serialization on the outbound side, and the pong frame. *)
Context (parse_envelope : B -> Envelope.t) (serialize_envelope : Envelope.t -> B) (pong : B).
(** [ParseFromArray]/[ParseFromString] on the inbound side. *)
Context (parse_frame : string -> option Envelope.t).
Context (parse_ping : string -> option Ping) (parse_ack : string -> option Z).
Context (e : Env) (cfg : Worker.Config) (hcfg : HeartbeatConfig) (limits : Limits).

Abbreviation net := (Net B).

(** ** Heartbeat service *)

Definition heartbeat_on_open (n : net) (conn_id : ConnId) : net :=
  match connections_ n !! conn_id with
  | None => n
  | Some c =>
    let '(now, n1) := system_now e n in
    set_connections n1 (<[conn_id := set_heartbeat c (mkHeartbeat now now)]> (connections_ n1))
  end.

Definition note_seen (n : net) (conn_id : ConnId) : net :=
  let '(now, n1) := system_now e n in
  (mutate n1 conn_id
     (fun c => set_heartbeat c (mkHeartbeat (connected_at (heartbeat c)) now))).2.

Definition fail_auth (n : net) (id : ConnId) : net :=
  (mutate n id (fun real => set_auth_state real AUTH_FAILED)).2.

(** One connection of [HeartbeatService::tick]. *)
Definition heartbeat_check (now : Z) (n : net) (id : ConnId) : net :=
  match get_view n id with
  | None => n
  | Some view =>
    if negb (valid (handle view)) then n
    else
      match auth_state view with
      | AUTH_FAILED => end_handle n (handle view) 4401 "auth_failed"
      | AUTH_PENDING =>
        if (auth_pending_timeout hcfg <=? now - connected_at (heartbeat view))%Z then
          end_handle (fail_auth n id) (handle view) 4403 "auth_timeout"
        else n
      | AUTHENTICATED =>
        if (auth_expires_at view <=? now)%Z then
          end_handle (fail_auth n id) (handle view) 4402 "auth_token_expired"
        else if (timeout hcfg <? now - last_seen_at (heartbeat view))%Z then
          end_handle n (handle view) (close_code hcfg) (close_reason hcfg)
        else n
      end
  end.

Definition heartbeat_tick (running : bool) (n : net) : net :=
  if negb running then n
  else
    let '(now, n1) := system_now e n in
    foldl (heartbeat_check now) n1 (get_ids n1).

(** ** Socket callbacks *)

(** [.upgrade] once the origin was accepted, followed by [.open].  The refusal
    with 503 leaves no trace. *)
Definition upgrade_open (n : net) (conn_id : ConnId) (port_idx : nat) : net :=
  if (max_connections limits <=? active_connections n)%Z then n
  else
    let n1 := mkNet (connections_ n) (out_q n) (pending_unacked_conns_ n)
                (wrap64 (active_connections n + 1)) (frames n) (ended n) (on_message_calls n)
                (on_close_calls n) (queries n) in
    let '(created, n2) := system_now e n1 in
    heartbeat_on_open
      (attach n2 conn_id (new_context conn_id (Some conn_id) TextWebSocket port_idx created))
      conn_id.

Definition call_on_message (n : net) (conn_id : ConnId) (env : Envelope.t) : net :=
  mkNet (connections_ n) (out_q n) (pending_unacked_conns_ n) (active_connections n) (frames n)
    (ended n) (on_message_calls n ++ [(conn_id, env)]) (on_close_calls n) (queries n).

(** The end of [.message]: the PING and ACK fast paths, then the application. *)
Definition deliver_frame (n : net) (conn_id : ConnId) (env : Envelope.t) : net :=
  match Envelope.type env with
  | Envelope.PING =>
    let n1 := note_seen n conn_id in
    let n2 := match parse_ping (Envelope.payload env) with
              | Some ping => if (0 <? last_recv_seq ping)%Z
                             then Worker.on_ack n1 conn_id (last_recv_seq ping) else n1
              | None => n1
              end in
    (transport_send e n2 (Some conn_id) pong true).2
  | Envelope.ACK =>
    match parse_ack (Envelope.payload env) with
    | Some ack_seq => Worker.on_ack n conn_id ack_seq
    | None => n
    end
  | _ => call_on_message n conn_id env
  end.

(** [.message] for a binary frame [data] of [size] bytes on socket [conn_id]. *)
Definition message_handler (n : net) (conn_id : ConnId) (data : string) (size : Z) : net :=
  let ws_end := end_handle n (Some conn_id) in
  if (max_message_bytes limits <? size)%Z then ws_end 1009%Z "Message too big"
  else
    match parse_frame data with
    | None => ws_end 1002%Z "Invalid envelope"
    | Some env =>
      if negb (Envelope.version env =? 1)%Z then ws_end 1002%Z "Protocol version mismatch"
      else
        match get_view n conn_id with
        | None => ws_end 4401%Z "connection_not_found"
        | Some view =>
          if bool_decide (auth_state view = AUTH_FAILED) then ws_end 4401%Z "auth_failed"
          else if negb (bool_decide (auth_state view = AUTHENTICATED)) &&
                  negb (bool_decide (Envelope.type env = Envelope.AUTH)) then n
          else
            deliver_frame n conn_id env
        end
    end.

(** ** Events of the loop thread *)

Inductive net_event :=
  | EvConnect (conn_id : ConnId) (port_idx : nat)
  | EvMessage (conn_id : ConnId) (data : string) (size : Z)
  | EvPeerClose (conn_id : ConnId) (code : Z) (reason : string)
  | EvPush (msg : OutgoingMessage B)
  | EvTick
  | EvHeartbeat (running : bool).

Definition net_step (n : net) (ev : net_event) : net :=
  match ev with
  | EvConnect c port => upgrade_open n c port
  | EvMessage c data size => message_handler n c data size
  | EvPeerClose c code reason => close_handler n c code reason
  | EvPush msg => set_out_q n (OutgoingQueue.push_impl (out_q n) msg).2
  | EvTick => Worker.tick parse_envelope serialize_envelope e cfg n
  | EvHeartbeat running => heartbeat_tick running n
  end.

Definition net_run (n : net) (evs : list net_event) : net := foldl net_step n evs.

Definition empty_net (capacity : Z) : net :=
  mkNet ∅ (OutgoingQueue.create capacity) ∅ 0 [] [] [] [] 0.

(** ** Delivery state under every event *)

Abbreviation net_ok := (Worker.net_ok parse_envelope serialize_envelope cfg).
Abbreviation ctx_ok := (Worker.ctx_ok parse_envelope serialize_envelope cfg).

Lemma net_ok_ext n n' :
  net_ok n -> connections_ n' = connections_ n ->
  pending_unacked_conns_ n' = pending_unacked_conns_ n ->
  frames n `prefix_of` frames n' -> net_ok n'.
Proof.
  intros [H1 H2] Hc Hu Hf. split; rewrite Hc.
  - intros c ctx Hx. eapply Worker.ctx_ok_mono; [exact Hf|by apply H1].
  - rewrite Hu. apply H2.
Qed.

(** Replacing a context by one with the same handle, outbox and frames. *)
Lemma update_ok n c ctx ctx' :
  net_ok n -> connections_ n !! c = Some ctx ->
  handle ctx' = handle ctx -> outbox ctx' = outbox ctx -> rel ctx' = rel ctx ->
  net_ok (set_connections n (<[c := ctx']> (connections_ n))).
Proof.
  intros Hok Hc Hh Ho Hr.
  apply (Worker.store_ok _ _ _ n n); [done|done| |].
  - destruct (Worker.no_ctx _ _ _ _ Hok _ _ Hc) as [G1 G2 G3]. split; congruence.
  - rewrite Hr. by apply (Worker.no_unacked _ _ _ _ Hok).
Qed.

Lemma mutate_ok n c f :
  net_ok n -> (forall ctx, handle (f ctx) = handle ctx /\ outbox (f ctx) = outbox ctx /\
                           rel (f ctx) = rel ctx) ->
  net_ok (mutate n c f).2.
Proof.
  intros Hok Hf. unfold mutate. destruct (connections_ n !! c) as [ctx|] eqn:Hc; [|done].
  destruct (Hf ctx) as (H1 & H2 & H3). by eapply update_ok.
Qed.

Lemma note_seen_ok n c : net_ok n -> net_ok (note_seen n c).
Proof.
  intros Hok. unfold note_seen. simpl. apply mutate_ok; [|done]. by eapply net_ok_ext.
Qed.

Lemma fail_auth_ok n c : net_ok n -> net_ok (fail_auth n c).
Proof. intros Hok. by apply mutate_ok. Qed.

Lemma end_handle_net_ok n h code reason : net_ok n -> net_ok (end_handle n h code reason).
Proof. apply Worker.end_handle_ok. Qed.

Lemma heartbeat_check_ok now n c : net_ok n -> net_ok (heartbeat_check now n c).
Proof.
  intros Hok. unfold heartbeat_check.
  repeat (case_match; try done; try apply end_handle_net_ok; try apply fail_auth_ok; try done).
Qed.

Lemma heartbeat_tick_ok running n : net_ok n -> net_ok (heartbeat_tick running n).
Proof.
  intros Hok. unfold heartbeat_tick. destruct (negb running); [done|]. simpl.
  assert (Hq : net_ok (query n)) by by eapply net_ok_ext.
  change (get_ids (query n)) with (get_ids n). revert Hq. generalize (query n).
  induction (get_ids n) as [|c l IH]; intros m Hm; [done|]. simpl. apply IH.
  by apply heartbeat_check_ok.
Qed.

Lemma upgrade_open_ok n c port : net_ok n -> net_ok (upgrade_open n c port).
Proof.
  intros Hok. unfold upgrade_open. case_match; [done|]. simpl.
  set (n2 := query _). assert (Hn2 : net_ok n2) by by eapply net_ok_ext.
  set (ctx := new_context _ _ _ _ _).
  assert (Ha : net_ok (attach n2 c ctx)).
  { unfold attach. destruct (connections_ n2 !! c) eqn:Hc; [done|].
    apply (Worker.store_ok _ _ _ n2 n2); [done|done|apply Worker.new_context_ok|done]. }
  unfold heartbeat_on_open. destruct (connections_ (attach n2 c ctx) !! c) as [ctx0|] eqn:Hc; [|done].
  simpl. apply (update_ok (query (attach n2 c ctx)) c ctx0); try done. by eapply net_ok_ext.
Qed.

Lemma on_ack_net_ok n c ack : net_ok n -> net_ok (Worker.on_ack n c ack).
Proof. intros Hok. by apply Worker.on_ack_ok. Qed.

Lemma transport_send_net_ok n h b bin : net_ok n -> net_ok (transport_send e n h b bin).2.
Proof.
  intros Hok. destruct h as [c|]; [|done]. simpl.
  destruct (env_send_status e (queries n)); eapply net_ok_ext; try done; simpl; by apply prefix_app_r.
Qed.

Lemma message_handler_ok n c data size : net_ok n -> net_ok (message_handler n c data size).
Proof.
  intros Hok. unfold message_handler, deliver_frame.
  repeat (case_match; try done; try (apply end_handle_net_ok; done));
    try (by eapply net_ok_ext); try (by apply on_ack_net_ok);
    apply transport_send_net_ok; try apply on_ack_net_ok; by apply note_seen_ok.
Qed.

Context (Hcfg : (0 <= Worker.max_retransmits cfg < two16)%Z).

Lemma net_step_ok n ev :
  net_ok n ->
  (Z.of_nat (length (frames (net_step n ev))) < two64)%Z ->
  net_ok (net_step n ev).
Proof using Hcfg.
  intros Hok Hlen. destruct ev as [c port|c data size|c code reason|msg| |running]; simpl in *.
  - by apply upgrade_open_ok.
  - by apply message_handler_ok.
  - eapply net_ok_ext; [by apply Worker.detach_ok|done..].
  - by eapply net_ok_ext.
  - by apply Worker.tick_ok.
  - by apply heartbeat_tick_ok.
Qed.

(** Frames are only ever appended. *)

Lemma heartbeat_frames now l : forall n : net, frames (foldl (heartbeat_check now) n l) = frames n.
Proof.
  induction l as [|c l IH]; intros n; [done|]. simpl. rewrite IH.
  unfold heartbeat_check, fail_auth, mutate.
  repeat (case_match; try done; rewrite ?Worker.end_handle_frames; simpl; try done).
Qed.

Lemma on_ack_frames (n : net) c ack : frames (Worker.on_ack n c ack) = frames n.
Proof. unfold Worker.on_ack. by repeat case_match. Qed.

Lemma transport_send_prefix (n m : net) h b bin :
  frames m = frames n -> frames n `prefix_of` frames (transport_send e m h b bin).2.
Proof. intros <-. apply Worker.transport_send_ext. Qed.

Lemma note_seen_frames (n : net) c : frames (note_seen n c) = frames n.
Proof. unfold note_seen, mutate. simpl. by case_match. Qed.

Lemma message_handler_frames (n : net) c data size :
  frames n `prefix_of` frames (message_handler n c data size).
Proof.
  unfold message_handler, deliver_frame.
  repeat (case_match; rewrite ?Worker.end_handle_frames, ?on_ack_frames; try done);
    apply transport_send_prefix; by rewrite ?on_ack_frames, note_seen_frames.
Qed.

Lemma net_step_frames n ev : frames n `prefix_of` frames (net_step n ev).
Proof.
  destruct ev as [c port|c data size|c code reason|msg| |running]; simpl; try done.
  - unfold upgrade_open, heartbeat_on_open, attach. by repeat (case_match; simpl).
  - apply message_handler_frames.
  - apply Worker.tick_frames.
  - unfold heartbeat_tick. destruct (negb running); [done|]. simpl. by rewrite heartbeat_frames.
Qed.

Lemma net_run_frames evs : forall n, frames n `prefix_of` frames (net_run n evs).
Proof.
  induction evs as [|ev evs IH]; intros n; [done|]. simpl.
  etrans; [apply net_step_frames|apply IH].
Qed.

Lemma net_run_ok evs : forall n, net_ok n ->
  (Z.of_nat (length (frames (net_run n evs))) < two64)%Z -> net_ok (net_run n evs).
Proof using Hcfg.
  induction evs as [|ev evs IH]; intros n Hok Hlen; [done|]. simpl in *.
  apply IH; [|done]. apply net_step_ok; [done|].
  pose proof (prefix_length _ _ (net_run_frames evs (net_step n ev))). lia.
Qed.

Lemma empty_net_ok capacity : net_ok (empty_net capacity).
Proof. split; intros c ctx Hc; simpl in Hc; by apply lookup_empty_Some in Hc. Qed.

(** C5: in every state a stack's loop thread can reach, through any sequence of
    connects, inbound frames, peer closures, pushed messages, worker ticks and
    heartbeat sweeps: for every live connection, each reliable frame number up
    to the highest assigned was handed to the socket, and is either at or below
    the client's cumulative acknowledgement or still buffered with exactly the
    transmitted bytes; and a connection with unacknowledged frames is in the
    retransmission index. *)
Theorem reliable_frames_never_lost (capacity : Z) (evs : list net_event)
  (Hlen : (Z.of_nat (length (frames (net_run (empty_net capacity) evs))) < two64)%Z) :
  let n := net_run (empty_net capacity) evs in
  forall c ctx, connections_ n !! c = Some ctx ->
    (buffer (rel ctx) <> [] -> c ∈ pending_unacked_conns_ n) /\
    forall s, (1 <= s <= next_seq (rel ctx))%Z ->
      (exists bytes, Worker.transmitted parse_envelope serialize_envelope (frames n) c s bytes) /\
      ((s <= acked_seq (rel ctx))%Z \/
       exists p, p ∈ buffer (rel ctx) /\ p_seq p = s /\
         Worker.transmitted parse_envelope serialize_envelope (frames n) c s (p_bytes p)).
Proof using Hcfg.
  intros n c ctx Hc.
  pose proof (net_run_ok evs _ (empty_net_ok capacity) Hlen) as Hok. fold n in Hok.
  split; [by apply (Worker.no_unacked _ _ _ _ Hok)|]. intros s Hs.
  apply (Worker.delivered_or_buffered _ _ cfg); [|done].
  apply (Worker.co_rel _ _ _ _ _ _ (Worker.no_ctx _ _ _ _ Hok _ _ Hc)).
Qed.

(** ** Failed authentication is final *)

(** Every connection of [n'] was one of [n], and stays failed if it was. *)
Definition auth_kept (n n' : net) : Prop :=
  forall c ctx', connections_ n' !! c = Some ctx' ->
    exists ctx, connections_ n !! c = Some ctx /\
      (auth_state ctx = AUTH_FAILED -> auth_state ctx' = AUTH_FAILED).

#[local] Instance auth_kept_preorder : PreOrder auth_kept.
Proof.
  split.
  - intros n c ctx Hc. by exists ctx.
  - intros n1 n2 n3 H12 H23 c ctx3 H3. destruct (H23 _ _ H3) as (ctx2 & H2 & Ha2).
    destruct (H12 _ _ H2) as (ctx1 & H1 & Ha1). exists ctx1. auto.
Qed.

Lemma auth_kept_same n n' : connections_ n' = connections_ n -> auth_kept n n'.
Proof. intros Heq c ctx. rewrite Heq. by exists ctx. Qed.

Lemma auth_kept_delete n n' c : connections_ n' = delete c (connections_ n) -> auth_kept n n'.
Proof. intros Heq c' ctx. rewrite Heq. intros [_ Hc]%lookup_delete_Some. by exists ctx. Qed.

Lemma auth_kept_store n n' c ctx ctx' :
  connections_ n !! c = Some ctx -> connections_ n' = <[c := ctx']> (connections_ n) ->
  (auth_state ctx = AUTH_FAILED -> auth_state ctx' = AUTH_FAILED) -> auth_kept n n'.
Proof.
  intros Hc Heq Ha c' ctx0. rewrite Heq. intros [[<- <-]|[_ Hx]]%lookup_insert_Some; eauto.
Qed.

Lemma auth_kept_mutate n c f :
  (forall ctx, auth_state ctx = AUTH_FAILED -> auth_state (f ctx) = AUTH_FAILED) ->
  auth_kept n (mutate n c f).2.
Proof.
  intros Hf. unfold mutate. destruct (connections_ n !! c) as [ctx|] eqn:Hc; [|done].
  eapply (auth_kept_store _ _ c); [exact Hc|done|apply Hf].
Qed.

Lemma auth_kept_end n h code reason : auth_kept n (end_handle n h code reason).
Proof. destruct h as [c|]; [|done]. by apply (auth_kept_delete _ _ c). Qed.

Abbreviation send_payload := (Worker.send_payload parse_envelope serialize_envelope e).
Abbreviation flush_loop := (Worker.flush_loop parse_envelope serialize_envelope e).

Lemma send_payload_auth c a n ctx : auth_state (send_payload c a n ctx).2 = auth_state ctx.
Proof. unfold Worker.send_payload. by repeat (case_match; simplify_eq; simpl). Qed.

Lemma flush_loop_auth c q : forall n ctx,
  auth_state ctx = AUTH_FAILED -> auth_state (flush_loop c q n ctx).2 = AUTH_FAILED.
Proof.
  induction q as [|m q IH]; intros n ctx Ha; simpl; [done|].
  destruct (item_action m) as [a|a|d]; [|apply IH|done].
  - pose proof (send_payload_auth c a n ctx) as Hs.
    destruct (send_payload c a n ctx) as [[b n1] ctx1]. simpl in Hs.
    destruct b; simpl; [apply IH|]; congruence.
  - unfold Worker.apply_auth. rewrite Ha. simpl.
    destruct (bool_decide (auth_next a = AUTH_FAILED)) eqn:E; simpl; [|done].
    by apply bool_decide_eq_true in E.
Qed.

Lemma flush_auth n c :
  auth_kept n (Worker.flush_connection_outbox parse_envelope serialize_envelope e n c).
Proof.
  unfold Worker.flush_connection_outbox.
  destruct (connections_ n !! c) as [ctx|] eqn:Hc; [|done].
  pose proof (flush_loop_auth c (ob_q (outbox ctx)) n ctx) as Ha.
  pose proof (Worker.nx_conns _ _ (Worker.flush_loop_ext parse_envelope serialize_envelope e c
                (ob_q (outbox ctx)) n ctx)) as Hcn.
  destruct (flush_loop c (ob_q (outbox ctx)) n ctx) as [[[drop q] n1] ctx1]. simpl in *.
  assert (Hk : auth_kept n (set_connections n1 (<[c := set_queue ctx1 q]> (connections_ n1)))).
  { eapply (auth_kept_store _ _ c); [exact Hc|simpl; by rewrite Hcn|done]. }
  destruct drop; [|done]. etrans; [exact Hk|apply auth_kept_end].
Qed.

Lemma distribute_auth conns msg : forall (n : net) touched,
  auth_kept n (Worker.distribute_to conns msg n touched).2.
Proof.
  induction conns as [|g conns IH]; intros n touched; simpl; [done|].
  unfold Worker.enqueue_to_outbox.
  pose proof (auth_kept_mutate n (conn_id g) (fun ctx => set_outbox ctx
    (Worker.outbox_push (outbox ctx) (mkItem (priority msg) (action msg))))) as Hm.
  destruct (mutate n (conn_id g) _) as [found n1]. simpl in *.
  etrans; [by apply Hm|apply IH].
Qed.

Lemma drain_auth budget d : forall (n : net) touched,
  auth_kept n (Worker.drain_queue e budget d n touched).2.
Proof.
  induction budget as [|budget IH]; intros n touched; simpl; [done|].
  assert (auth_kept n (Worker.deadline_passed e n d).2) as Hd
    by (destruct d; [by apply auth_kept_same|done]).
  destruct (Worker.deadline_passed e n d) as [late n1]. simpl in Hd. destruct late; [done|].
  destruct (OutgoingQueue.try_pop (out_q n1)) as [[msg|] q']; [|done].
  pose proof (distribute_auth (target msg) msg (set_out_q n1 q') touched) as Hm.
  unfold Worker.distribute. destruct (Worker.distribute_to _ _ _ _) as [t2 n2]. simpl in *.
  etrans; [exact Hd|]. etrans; [exact Hm|apply IH].
Qed.

Lemma flush_touched_auth conns d : forall n,
  auth_kept n (Worker.flush_touched parse_envelope serialize_envelope e conns d n).
Proof.
  induction conns as [|c conns IH]; intros n; simpl; [done|].
  assert (auth_kept n (Worker.deadline_passed e n d).2) as Hd
    by (destruct d; [by apply auth_kept_same|done]).
  destruct (Worker.deadline_passed e n d) as [late n1]. simpl in Hd. destruct late; [done|].
  etrans; [exact Hd|]. etrans; [apply flush_auth|apply IH].
Qed.

Lemma sweep_loop_auth now conns : forall n : net,
  auth_kept n (Worker.sweep_loop e cfg now conns n).2.
Proof.
  induction conns as [|c0 conns IH]; intros n; simpl; [done|].
  pose proof (Worker.sweep_connection_shape e cfg now n c0) as Hs.
  destruct (Worker.sweep_connection e cfg now n c0) as [[drop erase] n1]. simpl in Hs.
  specialize (IH n1). destruct (Worker.sweep_loop e cfg now conns n1) as [[drops er] n2].
  simpl in *. etrans; [|exact IH]. intros c ctx' Hc. specialize (Hs c). rewrite Hc in Hs.
  destruct (connections_ n !! c) as [ctx|]; [|done]. destruct Hs as (_ & _ & Ha & _).
  exists ctx. split; [done|congruence].
Qed.

Lemma end_all_auth drops : forall n : net, auth_kept n (Worker.end_all drops n).
Proof.
  intros n c ctx Hc. apply Worker.end_all_lookup in Hc as [Hc _]. by exists ctx.
Qed.

Lemma retransmit_auth (m : net) : auth_kept m (Worker.retransmit_sweep e cfg m).
Proof.
  unfold Worker.retransmit_sweep. case_decide; [done|]. simpl.
  pose proof (sweep_loop_auth (env_steady_clock e (queries m))
                (elements (pending_unacked_conns_ m)) (query m)) as H2.
  destruct (Worker.sweep_loop _ _ _ _ (query m)) as [[drops er] n3]. simpl in *.
  etrans; [exact H2|]. etrans; [|apply end_all_auth]. by apply auth_kept_same.
Qed.

Lemma tick_auth n : auth_kept n (Worker.tick parse_envelope serialize_envelope e cfg n).
Proof.
  unfold Worker.tick. simpl. set (d := if (0 <? Worker.time_budget cfg)%Z then _ else None).
  pose proof (drain_auth (Worker.max_per_tick cfg) d (query n) ∅) as H1.
  destruct (Worker.drain_queue e (Worker.max_per_tick cfg) d (query n) ∅) as [touched n2].
  simpl in *. etrans; [exact H1|]. etrans; [apply flush_touched_auth|apply retransmit_auth].
Qed.

Lemma on_ack_auth (n : net) c ack : auth_kept n (Worker.on_ack n c ack).
Proof.
  unfold Worker.on_ack. destruct (connections_ n !! c) as [ctx|] eqn:Hc.
  - case_match; by eapply (auth_kept_store _ _ c ctx).
  - by apply auth_kept_same.
Qed.

Lemma heartbeat_check_auth now n c : auth_kept n (heartbeat_check now n c).
Proof.
  assert (Hf : auth_kept n (fail_auth n c)) by (by apply auth_kept_mutate).
  unfold heartbeat_check.
  repeat (case_match; try done; try apply auth_kept_end);
    (etrans; [exact Hf|apply auth_kept_end]).
Qed.

Lemma message_handler_auth n c data size : auth_kept n (message_handler n c data size).
Proof.
  assert (Hs : auth_kept n (note_seen n c)).
  { unfold note_seen. simpl. etrans; [|by apply auth_kept_mutate]. by apply auth_kept_same. }
  assert (Hsend : forall m, auth_kept n m -> auth_kept n (transport_send e m (Some c) pong true).2).
  { intros m Hm. etrans; [exact Hm|]. apply auth_kept_same, Worker.transport_send_ext. }
  unfold message_handler, deliver_frame.
  repeat (case_match; try done; try apply auth_kept_end);
    try (by apply auth_kept_same); try apply on_ack_auth;
    apply Hsend; try done; etrans; [exact Hs|apply on_ack_auth].
Qed.

Lemma net_step_auth n ev c ctx' :
  (forall port, ev <> EvConnect c port) ->
  connections_ (net_step n ev) !! c = Some ctx' ->
  exists ctx, connections_ n !! c = Some ctx /\
    (auth_state ctx = AUTH_FAILED -> auth_state ctx' = AUTH_FAILED).
Proof.
  intros Hev. destruct ev as [c0 port|c0 data size|c0 code reason|msg| |running]; simpl.
  - assert (Hne : c0 <> c) by (intros ->; by apply (Hev port)).
    unfold upgrade_open, heartbeat_on_open, attach.
    repeat (case_match; simpl; rewrite ?lookup_insert_ne by done; try (intros; by exists ctx')).
  - apply message_handler_auth.
  - apply (auth_kept_delete n (close_handler n c0 code reason) c0 eq_refl).
  - intros Hx. by exists ctx'.
  - apply tick_auth.
  - unfold heartbeat_tick. destruct (negb running); [intros Hx; by exists ctx'|]. simpl.
    change (get_ids (query n)) with (get_ids n).
    assert (Hk : forall l m, auth_kept m (foldl (heartbeat_check (env_system_clock e (queries n))) m l)).
    { induction l as [|x l IH]; intros m; [done|]. simpl.
      etrans; [apply heartbeat_check_auth|apply IH]. }
    apply (Hk (get_ids n) (query n)).
Qed.

(** A connection whose authentication failed (rejected token, expiry or
    timeout) is never accepted again: whatever frames, queued auth updates,
    ticks or sweeps follow, as long as the connection lives it stays failed. *)
Theorem auth_failed_is_terminal (n : net) (evs : list net_event) (c : ConnId) (ctx ctx' : Ctx B)
  (Hnew : forall port, EvConnect c port ∉ evs)
  (Hc : connections_ n !! c = Some ctx) (Hf : auth_state ctx = AUTH_FAILED)
  (Hc' : connections_ (net_run n evs) !! c = Some ctx') :
  auth_state ctx' = AUTH_FAILED.
Proof using.
  clear Hcfg. revert n ctx Hc Hf Hc'. induction evs as [|ev evs IH]; intros n ctx Hc Hf Hc'; simpl in *.
  { congruence. }
  assert (Hpast : forall m l, (forall port, EvConnect c port ∉ l) ->
    connections_ (net_run m l) !! c = Some ctx' -> is_Some (connections_ m !! c)).
  { intros m l. revert m. induction l as [|x l IHl]; intros m Hl Hm; [by eexists|]. simpl in Hm.
    destruct (IHl (net_step m x)) as [cx Hcx]; [set_solver|done|].
    destruct (net_step_auth m x c cx) as (c0 & H0 & _); [set_solver|done|]. by eexists. }
  destruct (Hpast (net_step n ev) evs) as [ctx1 H1]; [set_solver|done|].
  destruct (net_step_auth n ev c ctx1) as (ctx0 & H0 & Ha); [set_solver|done|].
  apply (IH ltac:(set_solver) (net_step n ev) ctx1); [done| |done].
  apply Ha. congruence.
Qed.

(** ** The gate in front of the application *)

Lemma on_ack_messages (n : net) c ack :
  on_message_calls (Worker.on_ack n c ack) = on_message_calls n.
Proof. unfold Worker.on_ack. by repeat case_match. Qed.

Lemma note_seen_messages (n : net) c : on_message_calls (note_seen n c) = on_message_calls n.
Proof. unfold note_seen, mutate. simpl. by case_match. Qed.

Lemma transport_send_messages (n : net) h b bin :
  on_message_calls (transport_send e n h b bin).2 = on_message_calls n.
Proof. destruct h; [|done]. simpl. by case_match. Qed.

(** A frame passes: it is small enough, parses, speaks version 1, and comes
    from an authenticated connection (heartbeats and acks aside) or is the
    authentication request of a pending one. *)
Definition passes (n : net) (c : ConnId) (data : string) (size : Z) (env : Envelope.t) : Prop :=
  (size <= max_message_bytes limits)%Z /\ parse_frame data = Some env /\
  Envelope.version env = 1%Z /\
  exists ctx, connections_ n !! c = Some ctx /\
    ((auth_state ctx = AUTHENTICATED /\ Envelope.type env <> Envelope.PING /\
      Envelope.type env <> Envelope.ACK) \/
     (auth_state ctx = AUTH_PENDING /\ Envelope.type env = Envelope.AUTH)).

Lemma snoc_neq {X} (l : list X) x : l <> l ++ [x].
Proof. intros H. apply (f_equal length) in H. rewrite length_app in H. simpl in H. lia. Qed.

Lemma deliver_frame_messages (n : net) c env :
  on_message_calls (deliver_frame n c env) =
  on_message_calls n ++
    (if bool_decide (Envelope.type env = Envelope.PING) ||
        bool_decide (Envelope.type env = Envelope.ACK) then [] else [(c, env)]).
Proof using.
  clear Hcfg.
  unfold deliver_frame. destruct (Envelope.type env); try done; simpl bool_decide; cbn [orb];
    rewrite app_nil_r, ?transport_send_messages;
    repeat (case_match; rewrite ?on_ack_messages, ?note_seen_messages; try done).
Qed.

(** The socket layer hands a frame to the application exactly when it
    passes the size, format, version and authentication checks: nothing but an
    AUTH request gets through from a connection that is not authenticated, and
    nothing at all from one whose authentication failed. *)
Theorem message_gate (n : net) (c : ConnId) (data : string) (size : Z) (env : Envelope.t) :
  on_message_calls (message_handler n c data size) = on_message_calls n ++ [(c, env)] <->
  passes n c data size env.
Proof using parse_envelope serialize_envelope.
  clear Hcfg.
  unfold message_handler, passes, get_view.
  destruct (Z.ltb_spec (max_message_bytes limits) size) as [Hs|Hs].
  { split; [|lia]. simpl. intros H. by apply snoc_neq in H. }
  destruct (parse_frame data) as [env0|].
  2:{ split; [|naive_solver]. simpl. intros H. by apply snoc_neq in H. }
  destruct (Z.eqb_spec (Envelope.version env0) 1) as [Hv|Hv]; simpl.
  2:{ split; [|naive_solver]. intros H. by apply snoc_neq in H. }
  destruct (connections_ n !! c) as [ctx|].
  2:{ split; [|naive_solver]. intros H. by apply snoc_neq in H. }
  destruct (auth_state ctx) eqn:Ha; simpl.
  - destruct (bool_decide (Envelope.type env0 = Envelope.AUTH)) eqn:Ht; simpl.
    + apply bool_decide_eq_true in Ht. rewrite deliver_frame_messages, Ht. simpl. split.
      * intros [= <-]%app_inv_head. split_and!; try done. exists ctx. split; [done|]. by right.
      * naive_solver.
    + apply bool_decide_eq_false in Ht. split; [intros H; by apply snoc_neq in H|].
      intros (_ & [= ->] & _ & ctx0 & [= <-] & [(Hx & _)|(_ & Hx)]); congruence.
  - rewrite deliver_frame_messages.
    destruct (bool_decide_reflect (Envelope.type env0 = Envelope.PING)) as [Hp|Hp];
      destruct (bool_decide_reflect (Envelope.type env0 = Envelope.ACK)) as [Hk|Hk]; simpl;
      try (split; [intros H; apply app_inv_head in H; done|];
           intros (_ & [= ->] & _ & ctx0 & [= <-] & [(_ & Hx & Hy)|(Hx & _)]); congruence).
    split.
    + intros [= <-]%app_inv_head. split_and!; try done. exists ctx. split; [done|]. by left.
    + by intros (_ & [= ->] & _).
  - split; [intros H; by apply snoc_neq in H|].
    intros (_ & _ & _ & ctx0 & [= <-] & [(Hx & _)|(Hx & _)]); congruence.
Qed.

(** ** What the heartbeat sweep closes *)

Definition reap (now : Z) (ctx : Ctx B) : option (Z * string) :=
  match auth_state ctx with
  | AUTH_FAILED => Some (4401%Z, "auth_failed")
  | AUTH_PENDING =>
    if (auth_pending_timeout hcfg <=? now - connected_at (heartbeat ctx))%Z
    then Some (4403%Z, "auth_timeout") else None
  | AUTHENTICATED =>
    if (auth_expires_at ctx <=? now)%Z then Some (4402%Z, "auth_token_expired")
    else if (timeout hcfg <? now - last_seen_at (heartbeat ctx))%Z
    then Some (close_code hcfg, close_reason hcfg) else None
  end.

Lemma heartbeat_check_spec now (n : net) id ctx :
  connections_ n !! id = Some ctx -> handle ctx = Some id ->
  connections_ (heartbeat_check now n id) =
    (if reap now ctx then delete id (connections_ n) else connections_ n) /\
  ended (heartbeat_check now n id) =
    ended n ++ (match reap now ctx with Some (code, r) => [(id, code, r)] | None => [] end).
Proof using.
  intros Hc Hh. unfold heartbeat_check, reap, get_view, fail_auth, mutate. rewrite Hc, Hh. simpl.
  destruct (auth_state ctx); repeat case_match; simplify_eq; simpl; rewrite ?app_nil_r; try done;
    by rewrite ?delete_insert_eq.
Qed.

Lemma heartbeat_fold now : forall (ids : list ConnId) (n : net),
  NoDup ids ->
  (forall id, id ∈ ids -> exists ctx, connections_ n !! id = Some ctx /\ handle ctx = Some id) ->
  let n' := foldl (heartbeat_check now) n ids in
  (forall c, connections_ n' !! c =
     match connections_ n !! c with
     | Some ctx => if decide (c ∈ ids) then (if reap now ctx then None else Some ctx) else Some ctx
     | None => None
     end) /\
  (forall c code r, (c, code, r) ∈ ended n' <->
     (c, code, r) ∈ ended n \/
     (c ∈ ids /\ exists ctx, connections_ n !! c = Some ctx /\ reap now ctx = Some (code, r))).
Proof using.
  clear -hcfg. induction ids as [|id ids IH]; intros n Hnd Hids; simpl.
  { split; [|set_solver]. intros c. by destruct (connections_ n !! c). }
  apply list.NoDup_cons in Hnd as [Hid Hnd].
  destruct (Hids id) as (ctx & Hc & Hh); [by left|].
  destruct (heartbeat_check_spec now n id ctx Hc Hh) as [Hconn Hend].
  set (n1 := heartbeat_check now n id) in *.
  assert (Hother : forall c, c <> id -> connections_ n1 !! c = connections_ n !! c).
  { intros c Hne. rewrite Hconn. destruct (reap now ctx); [|done]. by rewrite lookup_delete_ne. }
  destruct (IH n1 Hnd) as [I1 I2].
  { intros id' Hid'. rewrite Hother by set_solver. apply Hids. by right. }
  split.
  - intros c. rewrite I1. destruct (decide (c = id)) as [->|Hne].
    + rewrite Hconn, Hc. rewrite (decide_True _ _ (list_elem_of_here _ _)).
      destruct (reap now ctx) eqn:Hr; [by rewrite lookup_delete_eq|]. rewrite Hc.
      by rewrite decide_False.
    + rewrite Hother by done. destruct (connections_ n !! c); [|done].
      assert (c ∈ id :: ids <-> c ∈ ids) as Hiff by set_solver.
      by destruct (decide (c ∈ id :: ids)), (decide (c ∈ ids)); try tauto.
  - intros c code r. rewrite I2, Hend, elem_of_app, elem_of_cons.
    assert ((c, code, r) ∈ (match reap now ctx with Some (code, r) => [(id, code, r)] | None => [] end)
            <-> c = id /\ reap now ctx = Some (code, r)) as ->.
    { destruct (reap now ctx) as [[co re]|]; rewrite ?list_elem_of_singleton, ?elem_of_nil; naive_solver. }
    destruct (decide (c = id)) as [->|Hne]; [|rewrite Hother by done; naive_solver].
    rewrite Hc. naive_solver.
Qed.

(** A heartbeat sweep closes exactly the connections that failed
    authentication, did not authenticate in time, hold an expired token or went
    silent for longer than the timeout, each with its close code, and leaves
    every other connection untouched. *)
Theorem heartbeat_sweep_exact (n : net) (Hok : net_ok n) :
  let now := env_system_clock e (queries n) in
  let n' := heartbeat_tick true n in
  (forall c, connections_ n' !! c =
     match connections_ n !! c with
     | Some ctx => if reap now ctx then None else Some ctx
     | None => None
     end) /\
  (forall c code r, (c, code, r) ∈ ended n' <->
     (c, code, r) ∈ ended n \/
     exists ctx, connections_ n !! c = Some ctx /\ reap now ctx = Some (code, r)).
Proof using.
  intros now n'. assert (Hids : forall c, c ∈ get_ids n <-> is_Some (connections_ n !! c)).
  { intros c. unfold get_ids. rewrite list_elem_of_fmap. split.
    - intros ([c' ctx] & -> & H). apply elem_of_map_to_list in H. by eexists.
    - intros [ctx H]. exists (c, ctx). split; [done|]. by apply elem_of_map_to_list. }
  destruct (heartbeat_fold now (get_ids n) (query n)) as [H1 H2].
  - apply NoDup_fst_map_to_list.
  - intros id [ctx Hc]%Hids. exists ctx. split; [done|].
    apply (Worker.co_handle _ _ _ _ _ _ (Worker.no_ctx _ _ _ _ Hok _ _ Hc)).
  - split.
    + intros c. etrans; [apply (H1 c)|]. simpl. destruct (connections_ n !! c) eqn:Hc; [|done].
      rewrite decide_True; [done|]. apply Hids. by eexists.
    + intros c code r. etrans; [apply (H2 c code r)|]. simpl.
      split; (intros [?|H]; [by left|right]).
      * destruct H as [_ H]. done.
      * destruct H as (ctx & Hc & Hr). split; [apply Hids; by eexists|by eauto].
Qed.

End Transport.

(** ** Concrete instances *)

Module Demo.

Abbreviation B := Envelope.t.
Definition limits : Limits := mkLimits 1000 10.
(** Frames parse to an AUTH request, unless they are marked as a ping. *)
Definition parse_frame (s : string) : option Envelope.t :=
  if String.eqb s "ping" then Some (Envelope.mk 1 Envelope.PING 0 s)
  else Some (Envelope.mk 1 Envelope.AUTH 0 s).
Definition parse_ping (s : string) : option Ping := Some (mkPing 0).
Definition parse_ack (s : string) : option Z := Some 1%Z.
Definition pong : B := Envelope.mk 1 Envelope.PONG 0 "".

Abbreviation run n evs :=
  (net_run (fun x : B => x) (fun x : B => x) pong parse_frame parse_ping parse_ack
     Worker.Demo.env_ok Worker.default_config default_heartbeat limits n evs).

Definition evs : list (@net_event B) :=
  [EvConnect Worker.Demo.c1 0;
   EvPush (make_reliable_outgoing_message [Worker.Demo.g1] Worker.Demo.ev); EvTick].

End Demo.

Lemma reliable_frames_never_lost_witness :
  let n := Demo.run (empty_net 100) Demo.evs in
  exists ctx, connections_ n !! Worker.Demo.c1 = Some ctx /\ next_seq (rel ctx) = 1%Z /\
    exists p, p ∈ buffer (rel ctx) /\ p_seq p = 1%Z.
Proof.
  intros n. destruct (connections_ n !! Worker.Demo.c1) as [ctx|] eqn:Hc;
    [|vm_compute in Hc; discriminate].
  exists ctx. split; [reflexivity|].
  assert (Hn : next_seq (rel ctx) = 1%Z /\ acked_seq (rel ctx) = 0%Z).
  { vm_compute in Hc. injection Hc as <-. split; reflexivity. }
  destruct Hn as [Hn Ha]. split; [exact Hn|].
  destruct (reliable_frames_never_lost (fun x : Envelope.t => x) (fun x => x) Demo.pong
    Demo.parse_frame Demo.parse_ping Demo.parse_ack Worker.Demo.env_ok Worker.default_config
    default_heartbeat Demo.limits) with (capacity := 100%Z) (evs := Demo.evs)
    (c := Worker.Demo.c1) (ctx := ctx) as [_ H].
  - vm_compute. split; [discriminate|reflexivity].
  - vm_compute. reflexivity.
  - exact Hc.
  - destruct (H 1%Z) as [_ [Hx|(p & Hp & Hs & _)]]; [lia|lia|]. exists p. split; assumption.
Defined.

Lemma auth_failed_is_terminal_witness :
  let ctx := set_auth_state (new_context Worker.Demo.c1 (Some Worker.Demo.c1) TextWebSocket 0 0)
               AUTH_FAILED in
  let n := set_connections (empty_net 100) {[Worker.Demo.c1 := ctx]} in
  let late := mkOutgoing High [Worker.Demo.g1]
                (ActAuth (mkUpdateAuthState AUTHENTICATED 100 None)) in
  exists ctx', connections_ (Demo.run n [EvPush late; EvTick]) !! Worker.Demo.c1 = Some ctx' /\
    auth_state ctx' = AUTH_FAILED.
Proof.
  intros ctx n late.
  destruct (connections_ (Demo.run n [EvPush late; EvTick]) !! Worker.Demo.c1) as [ctx'|] eqn:Hc;
    [|vm_compute in Hc; discriminate].
  exists ctx'. split; [reflexivity|].
  apply (auth_failed_is_terminal (fun x : Envelope.t => x) (fun x => x) Demo.pong
    Demo.parse_frame Demo.parse_ping Demo.parse_ack Worker.Demo.env_ok Worker.default_config
    default_heartbeat Demo.limits n [EvPush late; EvTick] Worker.Demo.c1 ctx ctx').
  - intros port Hin. apply elem_of_cons in Hin as [Hin|Hin]; [discriminate|].
    apply elem_of_cons in Hin as [Hin|Hin]; [discriminate|]. by apply not_elem_of_nil in Hin.
  - reflexivity.
  - reflexivity.
  - exact Hc.
Defined.

Lemma heartbeat_sweep_exact_witness :
  let n := Demo.run (empty_net 100) [EvConnect Worker.Demo.c1 0] in
  let strict := mkHeartbeatConfig 10 0 4000 "silent" in
  connections_ (heartbeat_tick Worker.Demo.env_ok strict true n) !! Worker.Demo.c1 = None.
Proof.
  intros n strict.
  destruct (heartbeat_sweep_exact (fun x : Envelope.t => x) (fun x => x) Worker.Demo.env_ok
    Worker.default_config strict n) as [H _].
  - apply (net_run_ok (fun x => x) (fun x => x) Demo.pong Demo.parse_frame Demo.parse_ping
      Demo.parse_ack Worker.Demo.env_ok Worker.default_config default_heartbeat Demo.limits).
    + vm_compute. split; [discriminate|reflexivity].
    + apply empty_net_ok.
    + vm_compute. reflexivity.
  - rewrite H. vm_compute. reflexivity.
Defined.

End Transport.
