(* ===== verification/Router.v ===== *)
(** * Routing messages to network stacks

    [net/NetworkRouter.cpp]: a message is forwarded whole when there is one
    stack, and otherwise split by the stack that owns each recipient. *)

From S2P Require Import Prelude.
From S2P Require Import Ids.
From S2P Require Import PriorityQueues.
From S2P Require Import OutboundMsg.
From S2P Require Import OutgoingQueue.

Module Router.

Section Router.
Context {B : Type}.

(** [net_stacks_by_id_], reduced to the outbound sink of each stack. *)
Abbreviation Stacks := (gmap NetStackId (OutgoingQueue.t B)).

(** [grouped[cid.netstack_id].push_back(cid)] over the recipients. *)
Definition group (conns : list GlobalConnId) : gmap NetStackId (list GlobalConnId) :=
  foldl (fun m cid =>
           <[netstack_id cid := default [] (m !! netstack_id cid) ++ [cid]]> m) ∅ conns.

(** How [overall] absorbs the outcome of one stack. *)
Definition worse (overall res : PushOutcome) : PushOutcome :=
  match res, overall with
  | PushDroppedHigh, _ => PushDroppedHigh
  | PushDroppedLow, PushOk => PushDroppedLow
  | _, _ => overall
  end.

Definition forward (msg : OutgoingMessage B) (conns : list GlobalConnId) : OutgoingMessage B :=
  mkOutgoing (priority msg) conns (action msg).

Definition push_group (msg : OutgoingMessage B) (acc : PushOutcome * Stacks)
  (grp : NetStackId * list GlobalConnId) : PushOutcome * Stacks :=
  let '(overall, stacks) := acc in
  match stacks !! grp.1 with
  | None => (overall, stacks)
  | Some q =>
    let '(res, q') := OutgoingQueue.push_impl q (forward msg grp.2) in
    (worse overall res, <[grp.1 := q']> stacks)
  end.

Definition push (stacks : Stacks) (msg : OutgoingMessage B) : PushOutcome * Stacks :=
  match map_to_list stacks with
  | [(id, q)] =>
    let '(res, q') := OutgoingQueue.push_impl q msg in (res, <[id := q']> stacks)
  | _ => foldl (push_group msg) (PushOk, stacks) (map_to_list (group (target msg)))
  end.

(** The recipients of [conns] on stack [id], in their order. *)
Definition on_stack (id : NetStackId) (conns : list GlobalConnId) : list GlobalConnId :=
  filter (fun cid => netstack_id cid = id) conns.

Lemma group_lookup conns id :
  group conns !! id =
  match on_stack id conns with [] => None | l => Some l end.
Proof.
  unfold group. induction conns as [|cid conns IH] using rev_ind; [done|].
  rewrite foldl_snoc, lookup_insert. unfold on_stack in *. rewrite list.filter_app, filter_cons.
  case_decide as Hid.
  - subst id. rewrite IH. by destruct (filter _ conns).
  - rewrite IH. simpl. by rewrite app_nil_r.
Qed.

Lemma push_group_lookup msg grps : forall overall stacks,
  NoDup grps.*1 -> forall id,
  (foldl (push_group msg) (overall, stacks) grps).2 !! id =
  match stacks !! id with
  | None => None
  | Some q =>
    match list_to_map (M := gmap NetStackId (list GlobalConnId)) grps !! id with
    | None => Some q
    | Some l => Some (OutgoingQueue.push_impl q (forward msg l)).2
    end
  end.
Proof.
  induction grps as [|[id0 l0] grps IH]; intros overall stacks Hnd id.
  { simpl. destruct (stacks !! id); [|done]. by rewrite lookup_empty. }
  apply list.NoDup_cons in Hnd as [Hid0 Hnd]. cbn [foldl]. unfold push_group at 2. simpl fst.
  simpl snd. simpl list_to_map. destruct (stacks !! id0) as [q0|] eqn:E0.
  - destruct (OutgoingQueue.push_impl q0 (forward msg l0)) as [res q'] eqn:Ep.
    rewrite (IH _ _ Hnd id), !lookup_insert. case_decide; [subst id0|done].
    rewrite E0, Ep. by rewrite not_elem_of_list_to_map_1.
  - rewrite (IH _ _ Hnd id), lookup_insert. case_decide; [subst id0; by rewrite E0|done].
Qed.

(** With several stacks, each stack's queue receives the message exactly
    once, addressed to its own recipients in their original order, a stack
    without recipients receives nothing, and recipients of unknown stacks are
    skipped. *)
Theorem router_partitions_recipients (stacks : Stacks) (msg : OutgoingMessage B)
  (Hmany : size stacks <> 1%nat) (id : NetStackId) :
  (push stacks msg).2 !! id =
  match stacks !! id, on_stack id (target msg) with
  | None, _ => None
  | Some q, [] => Some q
  | Some q, l => Some (OutgoingQueue.push_impl q (forward msg l)).2
  end.
Proof.
  assert (Hp : push stacks msg =
    foldl (push_group msg) (PushOk, stacks) (map_to_list (group (target msg)))).
  { unfold push. destruct (map_to_list stacks) as [|[k q] [|? ?]] eqn:E; try done.
    apply (f_equal length) in E. rewrite length_map_to_list in E. done. }
  rewrite Hp, push_group_lookup by apply NoDup_fst_map_to_list.
  rewrite list_to_map_to_list, group_lookup. by destruct (stacks !! id), (on_stack id (target msg)).
Qed.

End Router.

Lemma router_partitions_recipients_witness :
  let g s c := mkGlobalConnId (mkNetStackId s) (mkConnId c) in
  let q := OutgoingQueue.create (B := string) 10 in
  let stacks := <[mkNetStackId "a" := q]> {[mkNetStackId "b" := q]} in
  let msg := make_outgoing_message [g "a" "1"; g "b" "2"; g "a" "3"] "hi" in
  option_map (fun q => target <$> OutgoingQueue.high_ q) ((push stacks msg).2 !! mkNetStackId "a")
  = Some [[g "a" "1"; g "a" "3"]].
Proof.
  intros g q stacks msg.
  rewrite (router_partitions_recipients stacks msg); vm_compute; [reflexivity|discriminate].
Defined.

End Router.
