(* ===== verification/SessionManager.v ===== *)
(** * Logical sessions

    [app/managers/session/SessionManager.{h,cpp}]: the maps from transport
    connections to users and to internal session ids, and their inverses.  The
    mutex makes every public member atomic, so each is one function here. *)

From S2P Require Import Prelude.
From S2P Require Import Ids.
From S2P Require Import Protocol.

Module Session.

(** [SessionId] is a [uint64_t]. *)
Abbreviation SessionId := Z (only parsing).

Definition SessionError : Type := string.

Record SessionInfo := mkInfo {
  current_hub : option HubId;
  current_channel : option ChannelId
}.

Definition default_info : SessionInfo := mkInfo None None.

Record t := mk {
  max_sessions_per_user_ : nat;
  next_session_id_ : Z;
  sessions_ : gmap UserId SessionInfo;
  conn_to_session_ : gmap GlobalConnId UserId;
  conn_to_session_id_ : gmap GlobalConnId SessionId;
  session_id_to_user_ : gmap SessionId UserId;
  session_id_to_conns_ : gmap SessionId (gset GlobalConnId);
  user_to_session_ids_ : gmap UserId (gset SessionId);
  (** [utils::metrics::counters().active_users], an atomic [uint64_t]. *)
  active_users_metric : Z
}.

(** [SessionManager::SessionManager]. *)
Definition create (max_sessions_per_user : nat) : t :=
  mk max_sessions_per_user 0 ∅ ∅ ∅ ∅ ∅ ∅ 0.

(** [mintSessionIdLocked]: [++next_session_id_]. *)
Definition mintSessionIdLocked (sm : t) : SessionId := wrap64 (next_session_id_ sm + 1).

Definition userHasActiveSessionsLocked (sm : t) (user : UserId) : bool :=
  match user_to_session_ids_ sm !! user with
  | Some ids => bool_decide (ids ≠ ∅)
  | None => false
  end.

Definition conns_of_session (sm : t) (sid : SessionId) : list GlobalConnId :=
  match session_id_to_conns_ sm !! sid with
  | Some conns => elements conns
  | None => []
  end.

Definition collectUserConnectionsLocked (sm : t) (user : UserId) : list GlobalConnId :=
  match user_to_session_ids_ sm !! user with
  | None => []
  | Some ids => concat (map (conns_of_session sm) (elements ids))
  end.

Definition attachConnection (sm : t) (conn : GlobalConnId) (user : UserId)
  : expected SessionId CommandErrorCode * t :=
  match conn_to_session_id_ sm !! conn with
  | Some existing => (Ok existing, sm)
  | None =>
    let limited :=
      match user_to_session_ids_ sm !! user with
      | Some ids => (0 <? max_sessions_per_user_ sm)%nat &&
                    (max_sessions_per_user_ sm <=? size ids)%nat
      | None => false
      end in
    if limited then (Unexpected SESSION_LIMIT_EXCEEDED, sm)
    else
      let had_active_sessions := userHasActiveSessionsLocked sm user in
      let session_id := mintSessionIdLocked sm in
      (Ok session_id,
       mk (max_sessions_per_user_ sm)
          session_id
          (match sessions_ sm !! user with
           | Some _ => sessions_ sm
           | None => <[user := default_info]> (sessions_ sm)
           end)
          (<[conn := user]> (conn_to_session_ sm))
          (<[conn := session_id]> (conn_to_session_id_ sm))
          (<[session_id := user]> (session_id_to_user_ sm))
          (<[session_id := {[conn]} ∪ default ∅ (session_id_to_conns_ sm !! session_id)]>
             (session_id_to_conns_ sm))
          (<[user := {[session_id]} ∪ default ∅ (user_to_session_ids_ sm !! user)]>
             (user_to_session_ids_ sm))
          (if had_active_sessions then active_users_metric sm
           else wrap64 (active_users_metric sm + 1)))
  end.

(** The tail of [removeConnection] once the session id has lost its last
    connection: forget the session, then the user when no session is left. *)
Definition dropSession (sm : t) (user : UserId) (session_id : SessionId) : t :=
  let uts :=
    match user_to_session_ids_ sm !! user with
    | Some ids =>
      let ids' := ids ∖ {[session_id]} in
      if decide (ids' = ∅) then delete user (user_to_session_ids_ sm)
      else <[user := ids']> (user_to_session_ids_ sm)
    | None => user_to_session_ids_ sm
    end in
  let sm1 := mk (max_sessions_per_user_ sm) (next_session_id_ sm) (sessions_ sm)
                (conn_to_session_ sm) (conn_to_session_id_ sm)
                (delete session_id (session_id_to_user_ sm))
                (session_id_to_conns_ sm) uts (active_users_metric sm) in
  if userHasActiveSessionsLocked sm1 user then sm1
  else mk (max_sessions_per_user_ sm1) (next_session_id_ sm1)
          (delete user (sessions_ sm1))
          (conn_to_session_ sm1) (conn_to_session_id_ sm1)
          (session_id_to_user_ sm1) (session_id_to_conns_ sm1)
          (user_to_session_ids_ sm1) (wrap64 (active_users_metric sm1 - 1)).

Definition removeConnection (sm : t) (conn : GlobalConnId) : t :=
  match conn_to_session_ sm !! conn with
  | None =>
    mk (max_sessions_per_user_ sm) (next_session_id_ sm) (sessions_ sm)
       (conn_to_session_ sm) (delete conn (conn_to_session_id_ sm))
       (session_id_to_user_ sm) (session_id_to_conns_ sm)
       (user_to_session_ids_ sm) (active_users_metric sm)
  | Some user =>
    let cts := delete conn (conn_to_session_ sm) in
    match conn_to_session_id_ sm !! conn with
    | None =>
      mk (max_sessions_per_user_ sm) (next_session_id_ sm) (sessions_ sm) cts
         (conn_to_session_id_ sm) (session_id_to_user_ sm) (session_id_to_conns_ sm)
         (user_to_session_ids_ sm) (active_users_metric sm)
    | Some session_id =>
      let with_conns scs :=
        mk (max_sessions_per_user_ sm) (next_session_id_ sm) (sessions_ sm) cts
           (delete conn (conn_to_session_id_ sm)) (session_id_to_user_ sm) scs
           (user_to_session_ids_ sm) (active_users_metric sm) in
      match session_id_to_conns_ sm !! session_id with
      | Some conns =>
        let conns' := conns ∖ {[conn]} in
        if decide (conns' = ∅)
        then dropSession (with_conns (delete session_id (session_id_to_conns_ sm))) user session_id
        else with_conns (<[session_id := conns']> (session_id_to_conns_ sm))
      | None => dropSession (with_conns (session_id_to_conns_ sm)) user session_id
      end
    end
  end.

Definition with_sessions (sm : t) (ss : gmap UserId SessionInfo) : t :=
  mk (max_sessions_per_user_ sm) (next_session_id_ sm) ss (conn_to_session_ sm)
     (conn_to_session_id_ sm) (session_id_to_user_ sm) (session_id_to_conns_ sm)
     (user_to_session_ids_ sm) (active_users_metric sm).

Definition joinTextChannel (sm : t) (user : UserId) (hub : HubId) (channel : ChannelId) : t :=
  match sessions_ sm !! user with
  | None => sm
  | Some _ => with_sessions sm (<[user := mkInfo (Some hub) (Some channel)]> (sessions_ sm))
  end.

(** [leaveTextChannel] resets [current_hub] only. *)
Definition leaveTextChannel (sm : t) (user : UserId) : t :=
  match sessions_ sm !! user with
  | None => sm
  | Some info =>
    with_sessions sm (<[user := mkInfo None (current_channel info)]> (sessions_ sm))
  end.

Definition hasSession (sm : t) (user : UserId) : bool := userHasActiveSessionsLocked sm user.

Definition sessionOfConnection (sm : t) (conn : GlobalConnId) : expected UserId SessionError :=
  match conn_to_session_ sm !! conn with
  | None => Unexpected "Connection not found"
  | Some u => Ok u
  end.

Definition sessionIdOfConnection (sm : t) (conn : GlobalConnId)
  : expected SessionId SessionError :=
  match conn_to_session_id_ sm !! conn with
  | None => Unexpected "Session id not found for connection"
  | Some s => Ok s
  end.

Definition getSession (sm : t) (user : UserId) : expected SessionInfo SessionError :=
  match sessions_ sm !! user with
  | None => Unexpected "Session not found"
  | Some i => Ok i
  end.

Definition getSessionConnections (sm : t) (user : UserId) : list GlobalConnId :=
  collectUserConnectionsLocked sm user.

Definition getSessionIdConnections (sm : t) (sid : SessionId) : list GlobalConnId :=
  conns_of_session sm sid.

Definition getUserSessionIds (sm : t) (user : UserId) : list SessionId :=
  match user_to_session_ids_ sm !! user with
  | None => []
  | Some ids => elements ids
  end.

Definition sessionIdHasConnections (sm : t) (sid : SessionId) : bool :=
  match session_id_to_conns_ sm !! sid with
  | Some conns => bool_decide (conns ≠ ∅)
  | None => false
  end.

Definition activeUsers (sm : t) : list UserId :=
  (filter (fun p : UserId * gset SessionId => p.2 ≠ ∅) (map_to_list (user_to_session_ids_ sm))).*1.


(** ** Abstract specification

    What the manager promises is a table from live connections to the user and
    the session id each was given.  Attaching inserts a row, removing deletes
    it, and every query is a query on the table. *)

Abbreviation Table := (gmap GlobalConnId (UserId * SessionId)).

Definition session_ids_of (tbl : Table) (user : UserId) (sid : SessionId) : Prop :=
  exists conn, tbl !! conn = Some (user, sid).

Definition user_online (tbl : Table) (user : UserId) : Prop :=
  exists conn sid, tbl !! conn = Some (user, sid).

(** The users that own a row. *)
Definition online_users (tbl : Table) : gset UserId :=
  list_to_set ((map_to_list tbl).*2.*1).

Record repr (sm : t) (tbl : Table) : Prop := mk_repr {
  r_conn : forall c, conn_to_session_ sm !! c = fst <$> tbl !! c;
  r_sid : forall c, conn_to_session_id_ sm !! c = snd <$> tbl !! c;
  r_inj : forall c1 c2 u1 u2 s,
    tbl !! c1 = Some (u1, s) -> tbl !! c2 = Some (u2, s) -> c1 = c2;
  r_user : forall s u,
    session_id_to_user_ sm !! s = Some u <-> exists c, tbl !! c = Some (u, s);
  r_conns : forall s cs,
    session_id_to_conns_ sm !! s = Some cs <->
    exists c u, tbl !! c = Some (u, s) /\ cs = {[c]};
  r_ids : forall u ids,
    user_to_session_ids_ sm !! u = Some ids <->
    ids ≠ ∅ /\ (forall s, s ∈ ids <-> session_ids_of tbl u s);
  r_sessions : forall u, is_Some (sessions_ sm !! u) <-> user_online tbl u;
  r_fresh : forall c u s, tbl !! c = Some (u, s) -> (0 < s <= next_session_id_ sm)%Z;
  r_next : (0 <= next_session_id_ sm < two64)%Z;
  r_metric : active_users_metric sm = wrap64 (Z.of_nat (size (online_users tbl)));
  r_limit : forall u ids,
    user_to_session_ids_ sm !! u = Some ids ->
    (0 < max_sessions_per_user_ sm)%nat -> (size ids <= max_sessions_per_user_ sm)%nat
}.

Lemma online_users_spec tbl u : u ∈ online_users tbl <-> user_online tbl u.
Proof.
  unfold online_users, user_online. rewrite elem_of_list_to_set.
  setoid_rewrite list_elem_of_fmap. split.
  - intros ([u' s] & -> & H). apply list_elem_of_fmap in H as ([c [u1 s1]] & [= -> ->] & H).
    apply elem_of_map_to_list in H. eauto.
  - intros (c & s & H). exists (u, s). split; [done|].
    apply list_elem_of_fmap. exists (c, (u, s)). split; [done|].
    by apply elem_of_map_to_list.
Qed.

Lemma session_create_repr n : repr (create n) ∅.
Proof.
  split; simpl; intros *; try done.
  - rewrite lookup_empty. split; [done|]. intros (? & H). simplify_map_eq.
  - rewrite lookup_empty. split; [done|]. intros (? & ? & H & _). simplify_map_eq.
  - rewrite lookup_empty. split; [done|]. intros [Hne H].
    apply set_choose_L in Hne as [s Hs]. apply H in Hs as (? & Hs). simplify_map_eq.
  - rewrite lookup_empty. split; [by intros []|]. intros (? & ? & H). simplify_map_eq.
Qed.

Section Repr.
Context (sm : t) (tbl : Table) (R : repr sm tbl).

Lemma repr_ids_none u : user_to_session_ids_ sm !! u = None <-> ~ user_online tbl u.
Proof.
  split.
  - intros Hn (c & s & Hc).
    destruct (decide (user_to_session_ids_ sm !! u = None)) as [_|Hx]; [|done].
    assert (Hs : is_Some (user_to_session_ids_ sm !! u)); [|by rewrite Hn in Hs; destruct Hs].
    set (ids := list_to_set (omap (fun p : GlobalConnId * (UserId * SessionId) =>
      if decide (p.2.1 = u) then Some p.2.2 else None) (map_to_list tbl)) : gset SessionId).
    exists ids. apply (r_ids _ _ R).
    assert (Hids : forall x, x ∈ ids <-> session_ids_of tbl u x).
    { intros x. unfold ids, session_ids_of. rewrite elem_of_list_to_set, list_elem_of_omap.
      split.
      - intros ([c' [u' s']] & Hin & Heq). simpl in Heq. case_decide; simplify_eq.
        apply elem_of_map_to_list in Hin. eauto.
      - intros (c' & Hc'). exists (c', (u, x)). simpl.
        rewrite elem_of_map_to_list. split; [done|]. by rewrite decide_True. }
    split; [|done]. intros He. assert (s ∈ ids) as Hin by (apply Hids; by exists c).
    rewrite He in Hin. by apply not_elem_of_empty in Hin.
  - intros Hn. destruct (user_to_session_ids_ sm !! u) as [ids|] eqn:E; [|done].
    apply (r_ids _ _ R) in E as [Hne Hids]. apply set_choose_L in Hne as [s Hs].
    apply Hids in Hs as [c Hc]. destruct Hn. by exists c, s.
Qed.

Lemma repr_active u : userHasActiveSessionsLocked sm u = true <-> user_online tbl u.
Proof.
  unfold userHasActiveSessionsLocked.
  destruct (user_to_session_ids_ sm !! u) as [ids|] eqn:E.
  - pose proof E as E'. apply (r_ids _ _ R) in E' as [Hne Hids].
    rewrite bool_decide_eq_true_2 by done. split; [intros _|done].
    apply set_choose_L in Hne as [s Hs]. apply Hids in Hs as [c Hc]. by exists c, s.
  - split; [done|]. intros Hon. by apply repr_ids_none in E.
Qed.
End Repr.

(** ** Effect of a row insertion or deletion on the derived notions *)

Section TableUpdate.
Context (tbl : Table) (conn : GlobalConnId) (user : UserId) (sid : SessionId).

Lemma session_ids_of_insert (Hn : tbl !! conn = None) u s :
  session_ids_of (<[conn := (user, sid)]> tbl) u s <->
  (u = user /\ s = sid) \/ session_ids_of tbl u s.
Proof.
  unfold session_ids_of. split.
  - intros [c Hc]. apply lookup_insert_Some in Hc as [[-> [= -> ->]] | [_ Hc]]; eauto.
  - intros [[-> ->] | [c Hc]].
    + exists conn. apply lookup_insert_eq.
    + exists c. rewrite lookup_insert_ne; [done|]. congruence.
Qed.

Lemma user_online_iff u : user_online tbl u <-> exists s, session_ids_of tbl u s.
Proof. unfold user_online, session_ids_of. naive_solver. Qed.

Context (Hin : tbl !! conn = Some (user, sid)).
Context (Hinj : forall c1 c2 u1 u2 s,
  tbl !! c1 = Some (u1, s) -> tbl !! c2 = Some (u2, s) -> c1 = c2).

Lemma session_ids_of_delete u s :
  session_ids_of (delete conn tbl) u s <-> session_ids_of tbl u s /\ s <> sid.
Proof.
  unfold session_ids_of. split.
  - intros [c Hc]. apply lookup_delete_Some in Hc as [Hne Hc]. split; [by exists c|].
    intros ->. destruct Hne. eapply Hinj; eauto.
  - intros [[c Hc] Hs]. exists c. apply lookup_delete_Some. split; [congruence|done].
Qed.
End TableUpdate.

Lemma online_users_insert tbl conn user sid :
  tbl !! conn = None ->
  online_users (<[conn := (user, sid)]> tbl) = {[user]} ∪ online_users tbl.
Proof.
  intros Hn. apply set_eq. intros u.
  rewrite elem_of_union, elem_of_singleton, !online_users_spec, !user_online_iff.
  setoid_rewrite session_ids_of_insert; [|done]. naive_solver.
Qed.

(** ** Attaching a connection *)

Section Attach.
Context (sm : t) (tbl : Table) (R : repr sm tbl).
Context (conn : GlobalConnId) (user : UserId).
Context (Hn : tbl !! conn = None).
Context (Hroom : (next_session_id_ sm + 1 < two64)%Z).

Let sid := mintSessionIdLocked sm.
Let tbl' : Table := <[conn := (user, sid)]> tbl.

Lemma mint_value : sid = (next_session_id_ sm + 1)%Z.
Proof. unfold sid, mintSessionIdLocked. apply wrap64_small. pose proof (r_next _ _ R). lia. Qed.

Lemma mint_unused c u s : tbl !! c = Some (u, s) -> s <> sid.
Proof. intros Hc. rewrite mint_value. pose proof (r_fresh _ _ R _ _ _ Hc). lia. Qed.

Lemma mint_conns_none : session_id_to_conns_ sm !! sid = None.
Proof.
  destruct (session_id_to_conns_ sm !! sid) eqn:E; [|done].
  apply (r_conns _ _ R) in E as (c & u & Hc & _). by apply mint_unused in Hc.
Qed.

(** Rows of the extended table. *)
Lemma attach_rows c p : tbl' !! c = Some p <-> (c = conn /\ p = (user, sid)) \/ tbl !! c = Some p.
Proof.
  unfold tbl'. rewrite lookup_insert_Some. split; [naive_solver|].
  intros [[-> ->] | Hc]; [by left|]. right. split; [congruence|done].
Qed.

Lemma attach_ids u ids :
  (if decide (u = user) then Some ({[sid]} ∪ default ∅ (user_to_session_ids_ sm !! user))
   else user_to_session_ids_ sm !! u) = Some ids <->
  ids ≠ ∅ /\ (forall s, s ∈ ids <-> session_ids_of tbl' u s).
Proof.
  unfold tbl'. setoid_rewrite session_ids_of_insert; [|done].
  case_decide as Hu.
  - subst u. assert (Hmem : forall s,
      s ∈ ({[sid]} ∪ default ∅ (user_to_session_ids_ sm !! user) : gset SessionId) <->
      (user = user /\ s = sid) \/ session_ids_of tbl user s).
    { intros s. rewrite elem_of_union, elem_of_singleton.
      destruct (user_to_session_ids_ sm !! user) as [ids0|] eqn:E; simpl.
      - apply (r_ids _ _ R) in E as [_ E]. rewrite E. naive_solver.
      - apply (repr_ids_none _ _ R) in E. rewrite user_online_iff in E. set_solver. }
    split.
    + intros [= <-]. split; [set_solver|done].
    + intros [_ H]. f_equal. apply set_eq. intros s. by rewrite Hmem, H.
  - rewrite (r_ids _ _ R). naive_solver.
Qed.

Lemma attach_sessions u :
  is_Some ((match sessions_ sm !! user with
            | Some _ => sessions_ sm
            | None => <[user := default_info]> (sessions_ sm)
            end) !! u) <-> user_online tbl' u.
Proof.
  rewrite user_online_iff. unfold tbl'. setoid_rewrite session_ids_of_insert; [|done].
  pose proof (r_sessions _ _ R u) as Hs. rewrite user_online_iff in Hs.
  destruct (sessions_ sm !! user) eqn:E.
  - rewrite Hs. split; [naive_solver|]. intros (s' & [[-> ->]|H]); [|by eauto].
    apply Hs. by eexists.
  - rewrite lookup_insert. case_decide; subst.
    + split; [eauto|done].
    + rewrite Hs. naive_solver.
Qed.

Lemma attach_metric :
  (if userHasActiveSessionsLocked sm user then active_users_metric sm
   else wrap64 (active_users_metric sm + 1)) = wrap64 (Z.of_nat (size (online_users tbl'))).
Proof.
  unfold tbl'. rewrite online_users_insert by done.
  pose proof (repr_active _ _ R user) as Ha. rewrite <- online_users_spec in Ha.
  rewrite (r_metric _ _ R).
  destruct (userHasActiveSessionsLocked sm user) eqn:E.
  - do 2 f_equal. f_equal. set_solver.
  - rewrite size_union by set_solver. rewrite size_singleton.
    unfold wrap64. rewrite Zplus_mod_idemp_l. f_equal. lia.
Qed.

(** The limit check of [attachConnection] passes. *)
Definition below_limit : Prop :=
  forall ids, user_to_session_ids_ sm !! user = Some ids ->
    (0 < max_sessions_per_user_ sm)%nat -> (size ids < max_sessions_per_user_ sm)%nat.

Lemma attach_limit u ids :
  below_limit ->
  <[user := {[sid]} ∪ default ∅ (user_to_session_ids_ sm !! user)]>
    (user_to_session_ids_ sm) !! u = Some ids ->
  (0 < max_sessions_per_user_ sm)%nat -> (size ids <= max_sessions_per_user_ sm)%nat.
Proof.
  intros Hlim Hids Hmax. rewrite lookup_insert in Hids. case_decide; subst.
  - simplify_eq. rewrite size_union.
    + rewrite size_singleton. destruct (user_to_session_ids_ sm !! user) as [ids0|] eqn:E; simpl.
      * specialize (Hlim _ E Hmax). lia.
      * change (1 + 0 <= max_sessions_per_user_ sm)%nat. lia.
    + intros s. rewrite elem_of_singleton. intros -> Hs.
      destruct (user_to_session_ids_ sm !! user) as [ids0|] eqn:E; simpl in Hs; [|set_solver].
      apply (r_ids _ _ R) in E as [_ E]. apply E in Hs as [c Hc]. by apply mint_unused in Hc.
  - by eapply (r_limit _ _ R).
Qed.

Lemma limit_check :
  below_limit ->
  match user_to_session_ids_ sm !! user with
  | Some ids => (0 <? max_sessions_per_user_ sm)%nat &&
                (max_sessions_per_user_ sm <=? size ids)%nat
  | None => false
  end = false.
Proof.
  intros Hlim. destruct (user_to_session_ids_ sm !! user) as [ids|] eqn:E; [|done].
  specialize (Hlim _ E).
  destruct (Nat.ltb_spec 0 (max_sessions_per_user_ sm)); [|done]. simpl.
  apply Nat.leb_gt. by apply Hlim.
Qed.

Lemma attach_repr :
  below_limit ->
  exists sm', attachConnection sm conn user = (Ok sid, sm') /\ repr sm' tbl' /\
    next_session_id_ sm' = sid.
Proof.
  intros Hlim. unfold attachConnection.
  rewrite (r_sid _ _ R), Hn. simpl. rewrite limit_check by done.
  eexists. split; [reflexivity|]. split; [|done].
  fold sid. split; simpl.
  - intros c. unfold tbl'. rewrite !lookup_insert. case_decide; [done|]. apply (r_conn _ _ R).
  - intros c. unfold tbl'. rewrite !lookup_insert. case_decide; [done|]. apply (r_sid _ _ R).
  - intros c1 c2 u1 u2 s H1 H2. apply attach_rows in H1, H2.
    destruct H1 as [[-> [= -> ->]]|H1], H2 as [[-> ?]|H2]; simplify_eq; try done.
    + by apply mint_unused in H2.
    + by apply mint_unused in H1.
    + by eapply (r_inj _ _ R).
  - intros s u. setoid_rewrite attach_rows. rewrite lookup_insert_Some, (r_user _ _ R). split.
    + intros [[<- <-] | [_ [c Hc]]]; eauto.
    + intros [c [[-> [= -> ->]] | Hc]]; [by left|]. right.
      split; [|by eauto]. intros <-. by eapply mint_unused.
  - intros s cs. setoid_rewrite attach_rows.
    rewrite lookup_insert_Some, (r_conns _ _ R), mint_conns_none. simpl.
    rewrite (right_id_L ∅ (∪)). split.
    + intros [[<- <-] | [_ (c & u & Hc & ->)]]; eauto 10.
    + intros (c & u & [[-> [= -> ->]] | Hc] & ->); [by left|]. right.
      split; [|by eauto]. intros <-. by eapply mint_unused.
  - intros u ids. rewrite lookup_insert, <- attach_ids.
    destruct (decide (u = user)), (decide (user = u)); by simplify_eq.
  - apply attach_sessions.
  - intros c u s Hc. rewrite mint_value. pose proof (r_next _ _ R).
    apply attach_rows in Hc as [[-> [= -> ->]] | Hc]; [rewrite mint_value; lia|].
    pose proof (r_fresh _ _ R _ _ _ Hc). lia.
  - rewrite mint_value. pose proof (r_next _ _ R). lia.
  - apply attach_metric.
  - intros u ids. by apply attach_limit.
Qed.
End Attach.

(** ** Removing a connection *)

Lemma online_users_delete tbl conn user sid :
  tbl !! conn = Some (user, sid) ->
  (forall c1 c2 u1 u2 s, tbl !! c1 = Some (u1, s) -> tbl !! c2 = Some (u2, s) -> c1 = c2) ->
  forall u, u ∈ online_users (delete conn tbl) <->
    u ∈ online_users tbl /\ (u = user -> exists s, s <> sid /\ session_ids_of tbl user s).
Proof.
  intros Hin Hinj u. rewrite !online_users_spec, !user_online_iff.
  setoid_rewrite session_ids_of_delete; [|done..]. split.
  - intros (s & Hs & Hne). split; [eauto|]. intros ->. eauto.
  - intros ((s & Hs) & Hu). destruct (decide (u = user)) as [->|Hne].
    + destruct (Hu eq_refl) as (s' & ? & ?). eauto.
    + exists s. split; [done|]. intros ->. destruct Hs as [c Hc].
      assert (c = conn) as -> by (eapply Hinj; eauto). congruence.
Qed.

Section Remove.
Context (sm : t) (tbl : Table) (R : repr sm tbl).
Context (conn : GlobalConnId) (user : UserId) (sid : SessionId).
Context (Hin : tbl !! conn = Some (user, sid)).

Let tbl' : Table := delete conn tbl.

Lemma remove_rows c p : tbl' !! c = Some p <-> c <> conn /\ tbl !! c = Some p.
Proof. unfold tbl'. rewrite lookup_delete_Some. naive_solver. Qed.

Lemma remove_row_sid c u s : tbl !! c = Some (u, s) -> c <> conn <-> s <> sid.
Proof.
  intros Hc. split; intros Hne Heq; subst; destruct Hne; [|congruence].
  by eapply (r_inj _ _ R).
Qed.

Lemma remove_ids_of u s : session_ids_of tbl' u s <-> session_ids_of tbl u s /\ s <> sid.
Proof. apply (session_ids_of_delete _ _ user); [done|apply (r_inj _ _ R)]. Qed.

(** The session ids of [user] before and after. *)
Lemma remove_user_ids :
  exists ids, user_to_session_ids_ sm !! user = Some ids /\ sid ∈ ids /\
    (forall s, s ∈ ids ∖ {[sid]} <-> session_ids_of tbl' user s).
Proof.
  destruct (user_to_session_ids_ sm !! user) as [ids|] eqn:E.
  - pose proof E as E'. apply (r_ids _ _ R) in E' as [_ Hids]. exists ids.
    split; [done|]. split; [apply Hids; by exists conn|].
    intros s. rewrite remove_ids_of, <- Hids. set_solver.
  - apply (repr_ids_none _ _ R) in E. destruct E. by exists conn, sid.
Qed.

(** The map of a user's session ids after [dropSession]. *)
Definition dropped_ids : gmap UserId (gset SessionId) :=
  match user_to_session_ids_ sm !! user with
  | Some ids =>
    let ids' := ids ∖ {[sid]} in
    if decide (ids' = ∅) then delete user (user_to_session_ids_ sm)
    else <[user := ids']> (user_to_session_ids_ sm)
  | None => user_to_session_ids_ sm
  end.

Lemma dropped_ids_lookup u :
  dropped_ids !! u =
  if decide (u = user) then
    ids ← user_to_session_ids_ sm !! user;
    if decide (ids ∖ {[sid]} = ∅) then None else Some (ids ∖ {[sid]})
  else user_to_session_ids_ sm !! u.
Proof.
  unfold dropped_ids. destruct remove_user_ids as (ids & E & _). rewrite E. simpl.
  do 2 case_decide; subst; by simplify_map_eq.
Qed.

Lemma dropped_ids_spec u ids :
  dropped_ids !! u = Some ids <->
  ids ≠ ∅ /\ (forall s, s ∈ ids <-> session_ids_of tbl' u s).
Proof.
  rewrite dropped_ids_lookup. case_decide as Hu; [subst u|].
  - destruct remove_user_ids as (ids0 & E & _ & Hids). rewrite E. simpl.
    case_decide as He.
    + split; [done|]. intros [Hne H]. destruct Hne. apply set_eq. intros s.
      rewrite H, <- Hids, He. done.
    + split; [intros [= <-]; by split|]. intros [_ H]. f_equal. apply set_eq. intros s.
      by rewrite H, Hids.
  - rewrite (r_ids _ _ R). setoid_rewrite remove_ids_of.
    assert (forall s, session_ids_of tbl u s -> s <> sid) as Hs; [|naive_solver].
    intros s [c Hc] ->. assert (c = conn) as -> by by eapply (r_inj _ _ R).
    congruence.
Qed.

Lemma dropped_active :
  match dropped_ids !! user with
  | Some ids => bool_decide (ids ≠ ∅)
  | None => false
  end = true <-> user_online tbl' user.
Proof.
  rewrite user_online_iff. destruct (dropped_ids !! user) as [ids|] eqn:E.
  - apply dropped_ids_spec in E as [Hne Hids]. rewrite bool_decide_eq_true_2 by done.
    split; [|done]. intros _. apply set_choose_L in Hne as [s Hs]. exists s. by apply Hids.
  - split; [done|]. intros (s & Hs). destruct remove_user_ids as (ids & E0 & _ & Hids).
    apply Hids in Hs. rewrite dropped_ids_lookup, decide_True, E0 in E by done. simpl in E.
    case_decide as He; [|done]. rewrite He in Hs. by apply not_elem_of_empty in Hs.
Qed.

Lemma remove_online u : u <> user -> user_online tbl' u <-> user_online tbl u.
Proof.
  intros Hne. unfold user_online. setoid_rewrite remove_rows.
  split; [naive_solver|]. intros (c & s & Hc). exists c, s. split; [congruence|done].
Qed.

Lemma remove_sessions (b : bool) :
  (b = true <-> user_online tbl' user) -> forall u,
  is_Some ((if b then sessions_ sm else delete user (sessions_ sm)) !! u) <->
  user_online tbl' u.
Proof.
  intros Hb u. destruct (decide (u = user)) as [->|Hne].
  - destruct b.
    + rewrite (r_sessions _ _ R). split; intros _; [by apply Hb|]. by exists conn, sid.
    + rewrite lookup_delete_eq. split; [by intros []|]. by intros ?%Hb.
  - rewrite remove_online, <- (r_sessions _ _ R) by done.
    destruct b; [done|]. by rewrite lookup_delete_ne.
Qed.

Lemma remove_metric (b : bool) :
  (b = true <-> user_online tbl' user) ->
  (if b then active_users_metric sm else wrap64 (active_users_metric sm - 1)) =
  wrap64 (Z.of_nat (size (online_users tbl'))).
Proof.
  intros Hb. rewrite (r_metric _ _ R).
  assert (Hu : user ∈ online_users tbl) by (apply online_users_spec; by exists conn, sid).
  destruct b.
  - do 2 f_equal. f_equal. apply set_eq. intros u. rewrite !online_users_spec.
    destruct (decide (u = user)) as [->|]; [|by rewrite remove_online].
    rewrite <- online_users_spec. naive_solver.
  - assert (online_users tbl = {[user]} ∪ online_users tbl') as ->.
    { apply set_eq. intros u. rewrite elem_of_union, elem_of_singleton.
      destruct (decide (u = user)) as [->|]; [naive_solver|].
      rewrite !online_users_spec, remove_online by done. naive_solver. }
    rewrite size_union, size_singleton.
    + unfold wrap64. rewrite Zminus_mod_idemp_l. f_equal. lia.
    + intros u ->%elem_of_singleton Hu'. apply online_users_spec in Hu'. by apply Hb in Hu'.
Qed.

(** [removeConnection] of a live connection in one record. *)
Lemma remove_result :
  exists b : bool, (b = true <-> user_online tbl' user) /\
  removeConnection sm conn =
  mk (max_sessions_per_user_ sm) (next_session_id_ sm)
     (if b then sessions_ sm else delete user (sessions_ sm))
     (delete conn (conn_to_session_ sm)) (delete conn (conn_to_session_id_ sm))
     (delete sid (session_id_to_user_ sm)) (delete sid (session_id_to_conns_ sm))
     dropped_ids
     (if b then active_users_metric sm else wrap64 (active_users_metric sm - 1)).
Proof.
  exists (match dropped_ids !! user with
          | Some ids => bool_decide (ids ≠ ∅) | None => false end).
  split; [apply dropped_active|].
  unfold removeConnection. rewrite (r_conn _ _ R), (r_sid _ _ R), Hin. simpl.
  assert (session_id_to_conns_ sm !! sid = Some {[conn]}) as ->
    by (apply (r_conns _ _ R); eauto).
  rewrite decide_True by set_solver. unfold dropSession. simpl. fold dropped_ids.
  unfold userHasActiveSessionsLocked. simpl.
  by destruct (match dropped_ids !! user with
               | Some ids => bool_decide (ids ≠ ∅) | None => false end).
Qed.

Lemma remove_present_repr : repr (removeConnection sm conn) tbl'.
Proof.
  destruct remove_result as (b & Hb & ->). split; simpl.
  - intros c. unfold tbl'. rewrite !lookup_delete. case_decide; [done|]. apply (r_conn _ _ R).
  - intros c. unfold tbl'. rewrite !lookup_delete. case_decide; [done|]. apply (r_sid _ _ R).
  - intros c1 c2 u1 u2 s [_ H1]%remove_rows [_ H2]%remove_rows. by eapply (r_inj _ _ R).
  - intros s u. setoid_rewrite remove_rows. rewrite lookup_delete_Some, (r_user _ _ R). split.
    + intros (Hne & c & Hc). exists c. split; [|done]. by apply (remove_row_sid _ _ _ Hc).
    + intros (c & Hne & Hc). split; [|by eauto]. apply (remove_row_sid _ _ _ Hc) in Hne. done.
  - intros s cs. setoid_rewrite remove_rows. rewrite lookup_delete_Some, (r_conns _ _ R). split.
    + intros (Hne & c & u & Hc & ->). exists c, u. split; [|done]. split; [|done].
      by apply (remove_row_sid _ _ _ Hc).
    + intros (c & u & [Hne Hc] & ->). split; [|by eauto].
      by apply (remove_row_sid _ _ _ Hc) in Hne.
  - apply dropped_ids_spec.
  - by apply remove_sessions.
  - intros c u s [_ Hc]%remove_rows. by apply (r_fresh _ _ R) in Hc.
  - apply (r_next _ _ R).
  - by apply remove_metric.
  - intros u ids. rewrite dropped_ids_lookup. case_decide; [subst u|by apply (r_limit _ _ R)].
    destruct (user_to_session_ids_ sm !! user) as [ids0|] eqn:E; simpl; [|done].
    case_decide; [done|]. intros [= <-] Hm. pose proof (r_limit _ _ R _ _ E Hm).
    assert (size (ids0 ∖ {[sid]}) <= size ids0)%nat by (apply subseteq_size; set_solver). lia.
Qed.
End Remove.

Lemma remove_repr sm tbl conn : repr sm tbl -> repr (removeConnection sm conn) (delete conn tbl).
Proof.
  intros R. destruct (tbl !! conn) as [[u s]|] eqn:E; [by eapply remove_present_repr|].
  rewrite delete_id by done. unfold removeConnection.
  rewrite (r_conn _ _ R), E. simpl. rewrite (delete_id (conn_to_session_id_ sm)).
  - by destruct sm.
  - rewrite (r_sid _ _ R), E. done.
Qed.

(** ** The manager as a machine, and the table machine it implements *)

Inductive op :=
  | OpAttach (conn : GlobalConnId) (user : UserId)
  | OpRemove (conn : GlobalConnId)
  | OpJoinText (user : UserId) (hub : HubId) (channel : ChannelId)
  | OpLeaveText (user : UserId).

(** What a call returns, when it returns something. *)
Abbreviation answer := (option (expected SessionId CommandErrorCode)).

Definition step (sm : t) (o : op) : answer * t :=
  match o with
  | OpAttach conn user => let '(r, sm') := attachConnection sm conn user in (Some r, sm')
  | OpRemove conn => (None, removeConnection sm conn)
  | OpJoinText u h c => (None, joinTextChannel sm u h c)
  | OpLeaveText u => (None, leaveTextChannel sm u)
  end.

Fixpoint run (sm : t) (ops : list op) : list answer * t :=
  match ops with
  | [] => ([], sm)
  | o :: ops' =>
    let '(a, sm1) := step sm o in
    let '(as_, sm2) := run sm1 ops' in (a :: as_, sm2)
  end.

(** The specification: a table, the number of ids handed out, and the limit. *)
Record spec := mk_spec { sp_limit : nat; sp_count : Z; sp_table : Table }.

Definition spec_ids (tbl : Table) (u : UserId) : gset SessionId :=
  list_to_set (omap (fun p : GlobalConnId * (UserId * SessionId) =>
    if decide (p.2.1 = u) then Some p.2.2 else None) (map_to_list tbl)).

Definition spec_step (sp : spec) (o : op) : answer * spec :=
  match o with
  | OpAttach conn user =>
    match sp_table sp !! conn with
    | Some (_, sid) => (Some (Ok sid), sp)
    | None =>
      if bool_decide (0 < sp_limit sp <= size (spec_ids (sp_table sp) user))%nat
      then (Some (Unexpected SESSION_LIMIT_EXCEEDED), sp)
      else let sid := (sp_count sp + 1)%Z in
        (Some (Ok sid), mk_spec (sp_limit sp) sid (<[conn := (user, sid)]> (sp_table sp)))
    end
  | OpRemove conn =>
    (None, mk_spec (sp_limit sp) (sp_count sp) (delete conn (sp_table sp)))
  | OpJoinText _ _ _ | OpLeaveText _ => (None, sp)
  end.

Fixpoint spec_run (sp : spec) (ops : list op) : list answer * spec :=
  match ops with
  | [] => ([], sp)
  | o :: ops' =>
    let '(a, sp1) := spec_step sp o in
    let '(as_, sp2) := spec_run sp1 ops' in (a :: as_, sp2)
  end.

Definition refines (sm : t) (sp : spec) : Prop :=
  repr sm (sp_table sp) /\ next_session_id_ sm = sp_count sp /\
  max_sessions_per_user_ sm = sp_limit sp.

Lemma spec_ids_elem tbl u s : s ∈ spec_ids tbl u <-> session_ids_of tbl u s.
Proof.
  unfold spec_ids, session_ids_of. rewrite elem_of_list_to_set, list_elem_of_omap. split.
  - intros ([c' [u' s']] & Hin & Heq). simpl in Heq. case_decide; simplify_eq.
    apply elem_of_map_to_list in Hin. eauto.
  - intros (c' & Hc'). exists (c', (u, s)). simpl.
    rewrite elem_of_map_to_list. split; [done|]. by rewrite decide_True.
Qed.

Lemma spec_ids_repr sm tbl u : repr sm tbl ->
  default ∅ (user_to_session_ids_ sm !! u) = spec_ids tbl u.
Proof.
  intros R. apply set_eq. intros s. rewrite spec_ids_elem.
  destruct (user_to_session_ids_ sm !! u) as [ids|] eqn:E; simpl.
  - by apply (r_ids _ _ R) in E as [_ E].
  - apply (repr_ids_none _ _ R) in E. rewrite user_online_iff in E. set_solver.
Qed.

Lemma with_sessions_repr sm tbl ss :
  repr sm tbl -> (forall u, is_Some (ss !! u) <-> is_Some (sessions_ sm !! u)) ->
  repr (with_sessions sm ss) tbl.
Proof. intros [] Hss. split; try done. intros u. simpl. by rewrite Hss. Qed.

Lemma update_session_dom (ss : gmap UserId SessionInfo) u i j :
  ss !! u = Some i -> forall u', is_Some (<[u := j]> ss !! u') <-> is_Some (ss !! u').
Proof.
  intros Hu u'. rewrite lookup_insert. case_decide; [subst|done].
  rewrite Hu. split; intros _; by eexists.
Qed.

Lemma step_text sm o tbl :
  repr sm tbl -> (match o with OpJoinText _ _ _ | OpLeaveText _ => True | _ => False end) ->
  repr (step sm o).2 tbl /\ (step sm o).1 = None /\
  next_session_id_ (step sm o).2 = next_session_id_ sm /\
  max_sessions_per_user_ (step sm o).2 = max_sessions_per_user_ sm.
Proof.
  intros R Ho. destruct o as [| |u h c|u]; try done; simpl;
    unfold joinTextChannel, leaveTextChannel;
    destruct (sessions_ sm !! u) as [i|] eqn:E; try done;
    (split; [|done]); apply with_sessions_repr; try done; by eapply update_session_dom.
Qed.

Lemma remove_counters sm conn :
  next_session_id_ (removeConnection sm conn) = next_session_id_ sm /\
  max_sessions_per_user_ (removeConnection sm conn) = max_sessions_per_user_ sm.
Proof.
  unfold removeConnection, dropSession. repeat (case_match; simpl; try done).
Qed.

Lemma attach_limited sm tbl conn user :
  repr sm tbl -> tbl !! conn = None ->
  (0 < max_sessions_per_user_ sm <= size (spec_ids tbl user))%nat ->
  attachConnection sm conn user = (Unexpected SESSION_LIMIT_EXCEEDED, sm).
Proof.
  intros R Hn [Hpos Hle]. unfold attachConnection. rewrite (r_sid _ _ R), Hn. simpl.
  rewrite <- (spec_ids_repr _ _ _ R) in Hle.
  destruct (user_to_session_ids_ sm !! user) as [ids|] eqn:E; simpl in Hle.
  - by rewrite (proj2 (Nat.ltb_lt _ _) Hpos), (proj2 (Nat.leb_le _ _) Hle).
  - change (max_sessions_per_user_ sm <= 0)%nat in Hle. lia.
Qed.

Lemma attach_counters sm conn user r sm' :
  attachConnection sm conn user = (r, sm') ->
  max_sessions_per_user_ sm' = max_sessions_per_user_ sm.
Proof. unfold attachConnection. intros H. by repeat case_match; simplify_eq. Qed.

Lemma step_refines sm sp o :
  refines sm sp -> (sp_count sp + 1 < two64)%Z ->
  (step sm o).1 = (spec_step sp o).1 /\ refines (step sm o).2 (spec_step sp o).2.
Proof.
  intros (R & Hc & Hl) Hroom. destruct o as [conn user|conn|u h c|u]; simpl.
  - destruct (sp_table sp !! conn) as [[u0 s0]|] eqn:E.
    + unfold attachConnection. rewrite (r_sid _ _ R), E. done.
    + case_bool_decide as Hlim.
      * rewrite (attach_limited _ _ _ _ R E) by lia. done.
      * assert (Hr : (next_session_id_ sm + 1 < two64)%Z) by lia.
        destruct (attach_repr sm _ R conn user E Hr) as (sm' & Ha & R' & Hnext).
        { intros ids Hids Hm. rewrite <- (spec_ids_repr _ _ _ R), Hids in Hlim. simpl in Hlim. lia. }
        pose proof (attach_counters _ _ _ _ _ Ha) as Hmax.
        rewrite (mint_value _ _ R Hr) in *. rewrite Ha, Hc. simpl.
        split; [done|]. split; [by rewrite <- Hc|]. simpl. split; [|congruence].
        by rewrite Hnext, Hc.
  - destruct (remove_counters sm conn) as [Hx Hy].
    split; [done|]. split; [by apply remove_repr|]. simpl. by rewrite Hx, Hy.
  - destruct (step_text sm (OpJoinText u h c) _ R I) as (? & ? & Hx & Hy).
    split; [done|]. split; [done|]. simpl in *. by rewrite Hx, Hy.
  - destruct (step_text sm (OpLeaveText u) _ R I) as (? & ? & Hx & Hy).
    split; [done|]. split; [done|]. simpl in *. by rewrite Hx, Hy.
Qed.

Lemma spec_step_count sp o : (sp_count (spec_step sp o).2 <= sp_count sp + 1)%Z.
Proof. destruct o; simpl; repeat case_match; simpl; lia. Qed.

Lemma run_refines ops : forall sm sp,
  refines sm sp -> (sp_count sp + Z.of_nat (length ops) < two64)%Z ->
  (run sm ops).1 = (spec_run sp ops).1 /\ refines (run sm ops).2 (spec_run sp ops).2.
Proof.
  induction ops as [|o ops IH]; intros sm sp Hr Hlen; [done|]. simpl in *.
  destruct (step_refines sm sp o Hr) as [Ha Hr1]; [lia|].
  pose proof (spec_step_count sp o) as Hcnt.
  destruct (step sm o) as [a sm1], (spec_step sp o) as [a' sp1]. simpl in *. subst a'.
  destruct (IH sm1 sp1 Hr1) as [Hb Hr2]; [lia|].
  destruct (run sm1 ops) as [b sm2], (spec_run sp1 ops) as [b' sp2]. simpl in *. by subst b'.
Qed.

(** C17: starting from an empty manager, any sequence of attach, remove and text
    channel calls gives the answers of the table machine (the same session ids,
    the same limit errors), and the six maps of the manager keep representing
    exactly the machine's table; the counter of session ids is assumed not to
    reach its 64-bit end. *)
Theorem session_manager_refines_table (max_sessions : nat) (ops : list op)
  (Hlen : (Z.of_nat (length ops) < two64)%Z) :
  let impl := run (create max_sessions) ops in
  let sp := spec_run (mk_spec max_sessions 0 ∅) ops in
  impl.1 = sp.1 /\ repr impl.2 (sp_table sp.2).
Proof.
  destruct (run_refines ops (create max_sessions) (mk_spec max_sessions 0 ∅)) as [Ha [Hr _]].
  - split; [apply session_create_repr|done].
  - simpl. lia.
  - done.
Qed.

Definition demo_ops : list op :=
  [OpAttach (mkGlobalConnId (mkNetStackId "net-1") (mkConnId "1")) (mkUserId "u1");
   OpAttach (mkGlobalConnId (mkNetStackId "net-1") (mkConnId "2")) (mkUserId "u1");
   OpAttach (mkGlobalConnId (mkNetStackId "net-1") (mkConnId "3")) (mkUserId "u1");
   OpRemove (mkGlobalConnId (mkNetStackId "net-1") (mkConnId "1"));
   OpAttach (mkGlobalConnId (mkNetStackId "net-1") (mkConnId "3")) (mkUserId "u1")].

Lemma session_manager_refines_table_witness :
  (run (create 2) demo_ops).1 =
    [Some (Ok 1%Z); Some (Ok 2%Z); Some (Unexpected SESSION_LIMIT_EXCEEDED); None; Some (Ok 3%Z)]
  /\ repr (run (create 2) demo_ops).2 (sp_table (spec_run (mk_spec 2 0 ∅) demo_ops).2).
Proof.
  split; [vm_compute; reflexivity|].
  apply (session_manager_refines_table 2 demo_ops). vm_compute. reflexivity.
Defined.

(** ** Queries *)

Lemma repr_conns_of sm tbl c u s : repr sm tbl ->
  tbl !! c = Some (u, s) -> conns_of_session sm s = [c].
Proof.
  intros R Hc. unfold conns_of_session.
  assert (session_id_to_conns_ sm !! s = Some {[c]}) as -> by (apply (r_conns _ _ R); eauto).
  apply elements_singleton.
Qed.

Lemma repr_user_conns sm tbl u c : repr sm tbl ->
  c ∈ getSessionConnections sm u <-> exists s, tbl !! c = Some (u, s).
Proof.
  intros R. unfold getSessionConnections, collectUserConnectionsLocked.
  destruct (user_to_session_ids_ sm !! u) as [ids|] eqn:E.
  - apply (r_ids _ _ R) in E as [_ Hids]. rewrite list_elem_of_In, in_concat. split.
    + intros (l & Hl & Hc). apply in_map_iff in Hl as (s & <- & Hs).
      apply list_elem_of_In, elem_of_elements, Hids in Hs as [c' Hc'].
      rewrite (repr_conns_of _ _ _ _ _ R Hc') in Hc. destruct Hc as [->|[]]. eauto.
    + intros (s & Hs). exists [c]. split; [|by left]. apply in_map_iff. exists s.
      split; [by eapply repr_conns_of|]. apply list_elem_of_In, elem_of_elements, Hids. by exists c.
  - apply (repr_ids_none _ _ R) in E. split; [by intros ?%not_elem_of_nil|].
    intros (s & Hs). destruct E. by exists c, s.
Qed.

Lemma repr_active_users sm tbl u : repr sm tbl -> u ∈ activeUsers sm <-> user_online tbl u.
Proof.
  intros R. unfold activeUsers. rewrite list_elem_of_fmap. split.
  - intros ([u' ids] & -> & [Hne Hin]%list_elem_of_filter). apply elem_of_map_to_list in Hin.
    apply (r_ids _ _ R) in Hin as [_ Hids]. simpl in Hne. apply set_choose_L in Hne as [s Hs].
    apply Hids in Hs as [c Hc]. by exists c, s.
  - intros Hon. destruct (user_to_session_ids_ sm !! u) as [ids|] eqn:E.
    + exists (u, ids). split; [done|]. apply list_elem_of_filter.
      split; [|by apply elem_of_map_to_list]. by apply (r_ids _ _ R) in E as [? _].
    + by apply (repr_ids_none _ _ R) in E.
Qed.

(** On a manager that represents a table, every query returns what the
    table holds: the owner and the id of a connection, the single connection of
    a live session id, the connections, the session ids and the presence of a
    user, the list of online users, and the metric counts the online users. *)
Theorem session_queries_answer_table (sm : t) (tbl : Table) (R : repr sm tbl) :
  (forall c u s, tbl !! c = Some (u, s) ->
     sessionOfConnection sm c = Ok u /\ sessionIdOfConnection sm c = Ok s /\
     getSessionIdConnections sm s = [c] /\ sessionIdHasConnections sm s = true) /\
  (forall c, tbl !! c = None ->
     has_value (sessionOfConnection sm c) = false /\
     has_value (sessionIdOfConnection sm c) = false) /\
  (forall u c, c ∈ getSessionConnections sm u <-> exists s, tbl !! c = Some (u, s)) /\
  (forall u s, s ∈ getUserSessionIds sm u <-> exists c, tbl !! c = Some (u, s)) /\
  (forall u, hasSession sm u = true <-> user_online tbl u) /\
  (forall u, u ∈ activeUsers sm <-> user_online tbl u) /\
  (forall u, has_value (getSession sm u) = true <-> user_online tbl u) /\
  active_users_metric sm = wrap64 (Z.of_nat (size (online_users tbl))).
Proof.
  split_and!.
  - intros c u s Hc. unfold sessionOfConnection, sessionIdOfConnection, sessionIdHasConnections.
    rewrite (r_conn _ _ R), (r_sid _ _ R), Hc. simpl. split_and!; [done|done| |].
    + by eapply repr_conns_of.
    + assert (session_id_to_conns_ sm !! s = Some {[c]}) as -> by (apply (r_conns _ _ R); eauto).
      apply bool_decide_eq_true. set_solver.
  - intros c Hc. unfold sessionOfConnection, sessionIdOfConnection.
    by rewrite (r_conn _ _ R), (r_sid _ _ R), Hc.
  - intros u c. by apply repr_user_conns.
  - intros u s. unfold getUserSessionIds. pose proof (spec_ids_repr _ _ u R) as Hs.
    rewrite <- (spec_ids_elem tbl u s), <- Hs.
    destruct (user_to_session_ids_ sm !! u); simpl; [apply elem_of_elements|].
    rewrite elem_of_empty. apply elem_of_nil.
  - apply (repr_active _ _ R).
  - intros u. by apply repr_active_users.
  - intros u. rewrite <- (r_sessions _ _ R). unfold getSession.
    destruct (sessions_ sm !! u); simpl; [by split; eauto|]. split; [done|by intros []].
  - apply (r_metric _ _ R).
Qed.

Lemma session_queries_answer_table_witness :
  let c := mkGlobalConnId (mkNetStackId "net-1") (mkConnId "7") in
  let sm := (attachConnection (create 2) c (mkUserId "u1")).2 in
  sessionOfConnection sm c = Ok (mkUserId "u1") /\ hasSession sm (mkUserId "u1") = true.
Proof.
  set (c := mkGlobalConnId (mkNetStackId "net-1") (mkConnId "7")).
  assert (R : repr (attachConnection (create 2) c (mkUserId "u1")).2
                   {[c := (mkUserId "u1", 1%Z)]}).
  { destruct (attach_repr (create 2) ∅ (session_create_repr 2) c (mkUserId "u1")) as (sm' & Ha & Hr & _).
    - done.
    - vm_compute. reflexivity.
    - intros ids H. simpl in H. simplify_map_eq.
    - rewrite Ha. exact Hr. }
  pose proof (session_queries_answer_table _ _ R) as (H1 & _ & _ & _ & H5 & _).
  split.
  - apply (H1 c (mkUserId "u1") 1%Z). reflexivity.
  - apply H5. exists c, 1%Z. reflexivity.
Defined.

End Session.
