(* ===== verification/SubscriptionManager.v ===== *)
(** * Topic subscriptions

    [app/managers/subscription/SubscriptionManager.{h,cpp}]: the index from
    topics to subscribers and its inverse.  Subscriber vectors are shared with
    readers through [std::shared_ptr] and copied on write, so the model has a
    heap of vectors, the pointers of the topic map, and the pointers readers
    hold; [use_count] counts both.  A vector that no pointer reaches any more
    stays in the heap as garbage. *)

From S2P Require Import Prelude.
From S2P Require Import Ids.

Module Subscription.

Abbreviation loc := nat (only parsing).
Abbreviation SubscriberVec := (list GlobalConnId).

Record t := mk {
  vecs : gmap nat SubscriberVec;
  next_loc : loc;
  topic_to_conns_ : gmap Topic.t nat;
  conn_to_topics_ : gmap GlobalConnId (gset Topic.t);
  (** The [shared_ptr]s handed out by [getSubscribers] and still alive. *)
  readers : gmap nat nat
}.

Definition create : t := mk ∅ 0 ∅ ∅ ∅.

(** [shared_ptr::use_count]: owners among the topic entries and the readers. *)
Definition use_count (s : t) (l : loc) : nat :=
  length (filter (fun p : Topic.t * nat => p.2 = l) (map_to_list (topic_to_conns_ s))) +
  length (filter (fun p : nat * nat => p.2 = l) (map_to_list (readers s))).

Definition vec_at (s : t) (l : loc) : SubscriberVec := default [] (vecs s !! l).

(** [vec_ptr = std::make_shared<SubscriberVec>(v)] for a topic's entry. *)
Definition make_shared (s : t) (topic : Topic.t) (v : SubscriberVec) : t :=
  mk (<[next_loc s := v]> (vecs s)) (S (next_loc s))
     (<[topic := next_loc s]> (topic_to_conns_ s)) (conn_to_topics_ s) (readers s).

(** Writing through a [shared_ptr]. *)
Definition set_vec (s : t) (l : loc) (v : SubscriberVec) : t :=
  mk (<[l := v]> (vecs s)) (next_loc s) (topic_to_conns_ s) (conn_to_topics_ s) (readers s).

Definition with_topics (s : t) (m : gmap Topic.t nat) : t :=
  mk (vecs s) (next_loc s) m (conn_to_topics_ s) (readers s).

Definition with_conns (s : t) (m : gmap GlobalConnId (gset Topic.t)) : t :=
  mk (vecs s) (next_loc s) (topic_to_conns_ s) m (readers s).

(** The copy-on-write guard: copy when a reader still holds the snapshot. *)
Definition unshare (s : t) (topic : Topic.t) (l : loc) : t * loc :=
  if (1 <? use_count s l)%nat then (make_shared s topic (vec_at s l), next_loc s)
  else (s, l).

(** [*it = std::move(vec.back()); vec.pop_back()] at the first match. *)
Definition swap_erase (conn : GlobalConnId) (v : SubscriberVec) : SubscriberVec :=
  match list_find (eq conn) v with
  | Some (i, _) => removelast (match list.last v with Some b => <[i := b]> v | None => v end)
  | None => v
  end.

(** [l] is the location the topic's entry holds. *)
Definition eraseConnFromTopic (s : t) (topic : Topic.t) (l : loc) (conn : GlobalConnId)
  : bool * t :=
  let '(s1, l1) := unshare s topic l in
  let v := swap_erase conn (vec_at s1 l1) in
  (bool_decide (v = []), set_vec s1 l1 v).

(** The find / erase / drop-entry sequence both removal paths share. *)
Definition dropFromTopic (s : t) (topic : Topic.t) (conn : GlobalConnId) : t :=
  match topic_to_conns_ s !! topic with
  | None => s
  | Some l =>
    let '(emptied, s1) := eraseConnFromTopic s topic l conn in
    if emptied then with_topics s1 (delete topic (topic_to_conns_ s1)) else s1
  end.

Definition subscribeConnection (s : t) (conn : GlobalConnId) (topic : Topic.t) : bool * t :=
  let topics := default ∅ (conn_to_topics_ s !! conn) in
  if decide (topic ∈ topics) then (false, s)
  else
    let s1 := with_conns s (<[conn := {[topic]} ∪ topics]> (conn_to_topics_ s)) in
    let '(s2, l) :=
      match topic_to_conns_ s1 !! topic with
      | None => (make_shared s1 topic [], next_loc s1)
      | Some l => unshare s1 topic l
      end in
    (true, set_vec s2 l (vec_at s2 l ++ [conn])).

(** Erase a topic from a connection's set, and the set when it is empty. *)
Definition dropFromConn (m : gmap GlobalConnId (gset Topic.t)) (conn : GlobalConnId)
  (topic : Topic.t) : gmap GlobalConnId (gset Topic.t) :=
  match m !! conn with
  | None => m
  | Some topics =>
    let topics' := topics ∖ {[topic]} in
    if decide (topics' = ∅) then delete conn m else <[conn := topics']> m
  end.

Definition unsubscribeConnection (s : t) (conn : GlobalConnId) (topic : Topic.t) : bool * t :=
  match conn_to_topics_ s !! conn with
  | None => (false, s)
  | Some topics =>
    if decide (topic ∈ topics) then
      (true, dropFromTopic (with_conns s (dropFromConn (conn_to_topics_ s) conn topic)) topic conn)
    else (false, s)
  end.

Definition isSubscribed (s : t) (conn : GlobalConnId) (topic : Topic.t) : bool :=
  match conn_to_topics_ s !! conn with
  | None => false
  | Some topics => bool_decide (topic ∈ topics)
  end.

(** The caller keeps the returned pointer under the handle [h]. *)
Definition getSubscribers (s : t) (h : nat) (topic : Topic.t) : option loc * t :=
  match topic_to_conns_ s !! topic with
  | None => (None, s)
  | Some l =>
    (Some l, mk (vecs s) (next_loc s) (topic_to_conns_ s) (conn_to_topics_ s)
                (<[h := l]> (readers s)))
  end.

(** A reader's [shared_ptr] goes out of scope. *)
Definition releaseReader (s : t) (h : nat) : t :=
  mk (vecs s) (next_loc s) (topic_to_conns_ s) (conn_to_topics_ s) (delete h (readers s)).

Definition getSubscriptionsForConnection (s : t) (conn : GlobalConnId)
  : expected (gset Topic.t) string :=
  match conn_to_topics_ s !! conn with
  | None => Unexpected "Connection not found"
  | Some topics => Ok topics
  end.

Definition removeAllForConnection (s : t) (conn : GlobalConnId) : t :=
  match conn_to_topics_ s !! conn with
  | None => s
  | Some topics =>
    let s1 := foldl (fun acc topic => dropFromTopic acc topic conn) s (elements topics) in
    with_conns s1 (delete conn (conn_to_topics_ s1))
  end.

Definition removeAllForTopic (s : t) (topic : Topic.t) : t :=
  match topic_to_conns_ s !! topic with
  | None => s
  | Some l =>
    let m := foldl (fun acc conn => dropFromConn acc conn topic) (conn_to_topics_ s) (vec_at s l) in
    with_topics (with_conns s m) (delete topic (topic_to_conns_ s))
  end.

(** ** Specification: a finite relation between connections and topics *)

Abbreviation Rel := (gset (GlobalConnId * Topic.t)).

(** The subscribers a topic's entry holds. *)
Definition subs (s : t) (topic : Topic.t) : SubscriberVec :=
  match topic_to_conns_ s !! topic with Some l => vec_at s l | None => [] end.

(** What reader [h] sees through its pointer. *)
Definition snapshot (s : t) (h : nat) : option SubscriberVec :=
  l ← readers s !! h; vecs s !! l.

(** Every pointer is allocated, topics do not share vectors, and the vectors
    hold each subscriber once. *)
Record heap_ok (s : t) : Prop := mk_heap_ok {
  ho_topic : forall tp l, topic_to_conns_ s !! tp = Some l -> (l < next_loc s)%nat;
  ho_vec : forall tp l, topic_to_conns_ s !! tp = Some l -> is_Some (vecs s !! l);
  ho_reader : forall h l, readers s !! h = Some l -> (l < next_loc s)%nat;
  ho_inj : forall tp1 tp2 l,
    topic_to_conns_ s !! tp1 = Some l -> topic_to_conns_ s !! tp2 = Some l -> tp1 = tp2;
  ho_nodup : forall tp, NoDup (subs s tp);
  ho_nonempty : forall tp l, topic_to_conns_ s !! tp = Some l -> vec_at s l <> []
}.

Record repr (s : t) (R : Rel) : Prop := mk_repr {
  rp_heap : heap_ok s;
  rp_subs : forall tp c, c ∈ subs s tp <-> (c, tp) ∈ R;
  rp_conn : forall c tp, tp ∈ default ∅ (conn_to_topics_ s !! c) <-> (c, tp) ∈ R;
  rp_conn_nonempty : forall c ts, conn_to_topics_ s !! c = Some ts -> ts ≠ ∅
}.

(** ** Copy on write *)

Lemma use_count_reader s tp l h :
  topic_to_conns_ s !! tp = Some l -> readers s !! h = Some l -> (1 < use_count s l)%nat.
Proof.
  intros Ht Hh. unfold use_count.
  assert (forall K `{Countable K} (m : gmap K nat) k, m !! k = Some l ->
    (0 < length (filter (fun p : K * nat => p.2 = l) (map_to_list m)))%nat) as Hpos.
  { intros K ? ? m k Hk.
    assert ((k, l) ∈ filter (fun p : K * nat => p.2 = l) (map_to_list m)) as Hin.
    { apply list_elem_of_filter. split; [done|]. by apply elem_of_map_to_list. }
    destruct (filter _ _); [by apply not_elem_of_nil in Hin|]. simpl. lia. }
  pose proof (Hpos _ _ _ _ _ Ht). pose proof (Hpos _ _ _ _ _ Hh). lia.
Qed.

Section Swap.
Context (conn : GlobalConnId).

Lemma swap_erase_perm v1 v2 : conn ∉ v1 ->
  swap_erase conn (v1 ++ conn :: v2) ≡ₚ v1 ++ v2.
Proof.
  intros Hv1. unfold swap_erase.
  assert (list_find (eq conn) (v1 ++ conn :: v2) = Some (length v1, conn)) as ->.
  { apply list_find_Some. split_and!.
    - by rewrite list_lookup_middle.
    - done.
    - intros j y Hj Hlt ->. apply Hv1. rewrite lookup_app_l in Hj by done.
      by eapply list_elem_of_lookup_2. }
  destruct v2 as [|b v2 _] using rev_ind.
  - rewrite last_snoc, insert_app_r_alt, Nat.sub_diag by done. simpl.
    by rewrite removelast_last, app_nil_r.
  - rewrite app_comm_cons, app_assoc, last_snoc, <- app_assoc.
    rewrite insert_app_r_alt, Nat.sub_diag by done. simpl.
    rewrite app_comm_cons, app_assoc, removelast_last.
    solve_Permutation.
Qed.

Lemma swap_erase_spec v : NoDup v ->
  NoDup (swap_erase conn v) /\ forall c, c ∈ swap_erase conn v <-> c ∈ v /\ c <> conn.
Proof.
  intros Hnd. destruct (decide (conn ∈ v)) as [Hin|Hout].
  - apply list_elem_of_split in Hin as (v1 & v2 & ->).
    apply list.NoDup_app in Hnd as (H1 & H2 & H3). apply list.NoDup_cons in H3 as [H3 H4].
    assert (conn ∉ v1) as Hv1 by (intros Hx; apply (H2 _ Hx); left).
    rewrite (swap_erase_perm v1 v2 Hv1). split.
    + apply list.NoDup_app. split_and!; [done| |done]. intros x Hx Hx'. apply (H2 _ Hx). by right.
    + intros c. rewrite (swap_erase_perm v1 v2 Hv1), !elem_of_app, elem_of_cons. naive_solver.
  - unfold swap_erase. destruct (list_find (eq conn) v) as [[i x]|] eqn:E.
    + apply list_find_Some in E as (Hi & -> & _). destruct Hout.
      by eapply list_elem_of_lookup_2.
    + split; [done|]. intros c. split; [|tauto]. intros Hc. split; [done|]. by intros ->.
Qed.
End Swap.

(** A pointer that may be written: the topic's alone. *)
Definition exclusive (s : t) (topic : Topic.t) (l : loc) : Prop :=
  topic_to_conns_ s !! topic = Some l /\ forall h, readers s !! h <> Some l.

Lemma vec_at_vecs s s' l : vecs s !! l = vecs s' !! l -> vec_at s l = vec_at s' l.
Proof. unfold vec_at. by intros ->. Qed.

Section Write.
Context (s : t) (topic : Topic.t) (l : loc) (v : SubscriberVec).
Context (Hok : heap_ok s) (Hex : exclusive s topic l).

Lemma set_vec_subs tp : subs (set_vec s l v) tp = if decide (tp = topic) then v else subs s tp.
Proof using Hok Hex.
  destruct Hex as [Ht _]. unfold subs, vec_at. simpl. case_decide as Htp; [subst|].
  - by rewrite Ht, lookup_insert_eq.
  - destruct (topic_to_conns_ s !! tp) as [l'|] eqn:E; [|done].
    rewrite lookup_insert_ne; [done|]. intros ->. destruct Htp. by eapply (ho_inj _ Hok).
Qed.

Lemma set_vec_snapshot h : snapshot (set_vec s l v) h = snapshot s h.
Proof using Hex.
  destruct Hex as [_ Hr]. unfold snapshot. simpl.
  destruct (readers s !! h) as [l'|] eqn:E; simpl; [|done].
  rewrite lookup_insert_ne; [done|]. intros ->. by apply (Hr h).
Qed.

Lemma set_vec_ok : NoDup v -> v <> [] -> heap_ok (set_vec s l v).
Proof using Hok Hex.
  intros Hnd Hne. destruct Hok as [H1 H2 H3 H4 H5 H6]. split; try done.
  - intros tp l' Hl'. simpl. rewrite lookup_insert. case_decide; [by eexists|by eapply H2].
  - intros tp. rewrite set_vec_subs. by case_decide.
  - intros tp l' Hl'. unfold vec_at. simpl. rewrite lookup_insert.
    case_decide; [done|by eapply H6].
Qed.

(** Writing the empty vector and dropping the entry. *)
Lemma clear_subs tp :
  let s' := with_topics (set_vec s l []) (delete topic (topic_to_conns_ s)) in
  subs s' tp = if decide (tp = topic) then [] else subs s tp.
Proof using Hok Hex.
  destruct Hex as [Ht _]. unfold subs, vec_at. simpl. rewrite lookup_delete.
  case_decide as H1; case_decide as H2; try done; subst; try done.
  destruct (topic_to_conns_ s !! tp) as [l'|] eqn:E; [|done].
  rewrite lookup_insert_ne; [done|]. intros ->. destruct H2. by eapply (ho_inj _ Hok).
Qed.

Lemma clear_ok :
  heap_ok (with_topics (set_vec s l []) (delete topic (topic_to_conns_ s))).
Proof using Hok Hex.
  pose proof Hok as [H1 H2 H3 H4 H5 H6]. split; simpl.
  - intros tp l' [_ Hl]%lookup_delete_Some. eauto.
  - intros tp l' [_ Hl]%lookup_delete_Some. rewrite lookup_insert. case_decide; [by eexists|eauto].
  - done.
  - intros tp1 tp2 l' [_ ?]%lookup_delete_Some [_ ?]%lookup_delete_Some. eauto.
  - intros tp. rewrite clear_subs. case_decide; [constructor|done].
  - intros tp l' [Hne Hl]%lookup_delete_Some. unfold vec_at. simpl.
    rewrite lookup_insert_ne; [by eapply H6|]. intros ->. destruct Hne, Hex. by eapply H4.
Qed.
End Write.

(** After the guard the topic owns its vector alone, and nothing a subscriber
    list or a reader shows has changed. *)
Record unshared (s s1 : t) (topic : Topic.t) (l1 : loc) : Prop := mk_unshared {
  un_ok : heap_ok s1;
  un_ex : exclusive s1 topic l1;
  un_vec : vec_at s1 l1 = subs s topic;
  un_subs : forall tp, subs s1 tp = subs s tp;
  un_snap : forall h, snapshot s1 h = snapshot s h;
  un_conns : conn_to_topics_ s1 = conn_to_topics_ s;
  un_readers : readers s1 = readers s
}.

Section Unshare.
Context (s : t) (topic : Topic.t) (v : SubscriberVec) (Hok : heap_ok s).

Lemma make_shared_subs tp :
  subs (make_shared s topic v) tp = if decide (tp = topic) then v else subs s tp.
Proof using Hok.
  unfold subs, vec_at. simpl. rewrite lookup_insert.
  case_decide as H1; case_decide as H2; try done; subst; try done.
  - by rewrite lookup_insert_eq.
  - destruct (topic_to_conns_ s !! tp) as [l'|] eqn:E; [|done].
    apply (ho_topic _ Hok) in E. rewrite lookup_insert_ne; [done|lia].
Qed.

Lemma make_shared_snapshot h : snapshot (make_shared s topic v) h = snapshot s h.
Proof using Hok.
  unfold snapshot. simpl. destruct (readers s !! h) as [l'|] eqn:E; simpl; [|done].
  apply (ho_reader _ Hok) in E. rewrite lookup_insert_ne; [done|lia].
Qed.

Lemma make_shared_exclusive : exclusive (make_shared s topic v) topic (next_loc s).
Proof using Hok.
  split; simpl; [apply lookup_insert_eq|]. intros h Hh. apply (ho_reader _ Hok) in Hh. lia.
Qed.

Lemma make_shared_ok : NoDup v -> v <> [] -> heap_ok (make_shared s topic v).
Proof using Hok.
  intros Hnd Hne. pose proof Hok as [H1 H2 H3 H4 H5 H6]. split; simpl.
  - intros tp l [[_ <-]|[_ Hl]]%lookup_insert_Some; [lia|]. apply H1 in Hl. lia.
  - intros tp l Hl. rewrite lookup_insert. case_decide; [by eexists|].
    apply lookup_insert_Some in Hl as [[_ ?]|[_ Hl]]; [done|]. by eapply H2.
  - intros h l Hl. apply H3 in Hl. lia.
  - intros tp1 tp2 l [[<- <-]|[? Ha]]%lookup_insert_Some [[<- Hx]|[? Hb]]%lookup_insert_Some; try done.
    + apply H1 in Hb. lia.
    + apply H1 in Ha. lia.
    + by eapply H4.
  - intros tp. rewrite make_shared_subs. by case_decide.
  - intros tp l Hl. unfold vec_at. simpl. rewrite lookup_insert. case_decide; [done|].
    apply lookup_insert_Some in Hl as [[_ ?]|[_ Hl]]; [done|]. by eapply H6.
Qed.
End Unshare.

Lemma unshare_spec s topic l :
  heap_ok s -> topic_to_conns_ s !! topic = Some l ->
  unshared s (unshare s topic l).1 topic (unshare s topic l).2.
Proof.
  intros Hok Ht. assert (Hv : vec_at s l = subs s topic) by (unfold subs; by rewrite Ht).
  unfold unshare. destruct (Nat.ltb_spec 1 (use_count s l)) as [Huc|Huc]; simpl.
  - pose proof (ho_nodup _ Hok topic) as Hnd. pose proof (ho_nonempty _ Hok _ _ Ht) as Hne.
    rewrite <- Hv in Hnd. split; simpl; try done.
    + by apply make_shared_ok.
    + by apply make_shared_exclusive.
    + rewrite <- Hv. unfold vec_at at 1. simpl. by rewrite lookup_insert_eq.
    + intros tp. rewrite make_shared_subs by done. case_decide; by subst.
    + intros h. by apply make_shared_snapshot.
  - split; try done. split; [done|]. intros h Hh.
    pose proof (use_count_reader _ _ _ _ Ht Hh). lia.
Qed.

(** Erasing one subscriber of one topic. *)
Lemma dropFromTopic_spec s topic conn :
  heap_ok s ->
  let s' := dropFromTopic s topic conn in
  heap_ok s' /\ conn_to_topics_ s' = conn_to_topics_ s /\ readers s' = readers s /\
  (forall tp c, c ∈ subs s' tp <-> c ∈ subs s tp /\ ~ (tp = topic /\ c = conn)) /\
  (forall h, snapshot s' h = snapshot s h).
Proof.
  intros Hok. unfold dropFromTopic.
  destruct (topic_to_conns_ s !! topic) as [l|] eqn:Ht.
  - unfold eraseConnFromTopic. pose proof (unshare_spec s topic l Hok Ht) as U.
    destruct (unshare s topic l) as [s1 l1]. simpl in U. destruct U as [U1 U2 U3 U4 U5 U6 U7].
    pose proof (ho_nodup _ Hok topic) as Hnd. rewrite <- U3 in Hnd.
    destruct (swap_erase_spec conn _ Hnd) as [Hnd' Hin'].
    set (v := swap_erase conn (vec_at s1 l1)) in *. simpl.
    case_bool_decide as Hv.
    + rewrite Hv in *. split_and!; try done.
      * by apply clear_ok.
      * intros tp c. rewrite clear_subs by done. rewrite U4. case_decide; [subst tp|naive_solver].
        rewrite Hin', U3. naive_solver.
      * intros h. rewrite <- U5. apply (set_vec_snapshot _ _ _ [] U2).
    + split_and!; try done.
      * by apply (set_vec_ok _ topic).
      * intros tp c. rewrite (set_vec_subs _ topic) by done. rewrite U4.
        case_decide; [subst tp|naive_solver]. rewrite Hin', U3. naive_solver.
      * intros h. rewrite <- U5. by apply (set_vec_snapshot _ topic).
  - split_and!; try done. intros tp c. split; [|tauto]. intros Hc. split; [done|].
    intros [-> ->]. unfold subs in Hc. rewrite Ht in Hc. by apply not_elem_of_nil in Hc.
Qed.

(** Erasing topics from connections' sets. *)
Section Conns.
Implicit Types m : gmap GlobalConnId (gset Topic.t).

Definition sets_nonempty m : Prop := forall c ts, m !! c = Some ts -> ts ≠ ∅.

Lemma dropFromConn_spec m conn topic : sets_nonempty m ->
  sets_nonempty (dropFromConn m conn topic) /\
  forall c tp, tp ∈ default ∅ (dropFromConn m conn topic !! c) <->
    tp ∈ default ∅ (m !! c) /\ ~ (c = conn /\ tp = topic).
Proof.
  intros Hne. unfold dropFromConn. destruct (m !! conn) as [ts|] eqn:E.
  - case_decide as He; split.
    + intros c ts' [_ Hc]%lookup_delete_Some. eauto.
    + intros c tp. destruct (decide (c = conn)) as [->|Hc].
      * rewrite lookup_delete_eq, E. simpl. set_solver.
      * rewrite lookup_delete_ne by done. naive_solver.
    + intros c ts' [[_ <-]|[_ Hc]]%lookup_insert_Some; [done|eauto].
    + intros c tp. destruct (decide (c = conn)) as [->|Hc].
      * rewrite lookup_insert_eq, E. simpl. set_solver.
      * rewrite lookup_insert_ne by done. naive_solver.
  - split; [done|]. intros c tp. split; [|tauto]. intros Htp. split; [done|].
    intros [-> ->]. rewrite E in Htp. simpl in Htp. set_solver.
Qed.

Lemma dropFromConn_fold topic conns : forall m, sets_nonempty m ->
  let m' := foldl (fun acc conn => dropFromConn acc conn topic) m conns in
  sets_nonempty m' /\
  forall c tp, tp ∈ default ∅ (m' !! c) <->
    tp ∈ default ∅ (m !! c) /\ ~ (c ∈ conns /\ tp = topic).
Proof.
  induction conns as [|c0 conns IH]; intros m Hne; simpl.
  - split; [done|]. intros. rewrite elem_of_nil. tauto.
  - destruct (dropFromConn_spec m c0 topic Hne) as [Hne' Hm].
    destruct (IH _ Hne') as [Hne'' Hm']. split; [done|].
    intros c tp. rewrite Hm', Hm, elem_of_cons. naive_solver.
Qed.
End Conns.

Lemma heap_ok_with_conns s m : heap_ok s -> heap_ok (with_conns s m).
Proof. by intros []. Qed.

Lemma dropFromTopic_fold conn topics : forall s, heap_ok s ->
  let s' := foldl (fun acc topic => dropFromTopic acc topic conn) s topics in
  heap_ok s' /\ conn_to_topics_ s' = conn_to_topics_ s /\ readers s' = readers s /\
  (forall tp c, c ∈ subs s' tp <-> c ∈ subs s tp /\ ~ (tp ∈ topics /\ c = conn)) /\
  (forall h, snapshot s' h = snapshot s h).
Proof.
  induction topics as [|tp0 topics IH]; intros s Hok; simpl.
  - split_and!; try done. intros. rewrite elem_of_nil. tauto.
  - destruct (dropFromTopic_spec s tp0 conn Hok) as (H1 & H2 & H3 & H4 & H5).
    destruct (IH _ H1) as (I1 & I2 & I3 & I4 & I5).
    split_and!; [done|congruence|congruence| |].
    + intros tp c. rewrite I4, H4, elem_of_cons. naive_solver.
    + intros h. by rewrite I5, H5.
Qed.

(** ** The operations against the relation *)

Lemma sub_create_repr : repr create ∅.
Proof.
  split; [split|..]; unfold subs; simpl; intros; simplify_map_eq; try done; [constructor|set_solver].
Qed.

Section Subscribe.
Context (s : t) (R : Rel) (Hrepr : repr s R) (conn : GlobalConnId) (topic : Topic.t).

Lemma subscribed_iff : topic ∈ default ∅ (conn_to_topics_ s !! conn) <-> (conn, topic) ∈ R.
Proof using Hrepr. apply (rp_conn _ _ Hrepr). Qed.

(** The connection index after a real insertion. *)
Lemma subscribe_conns s' :
  conn_to_topics_ s' = <[conn := {[topic]} ∪ default ∅ (conn_to_topics_ s !! conn)]>
                          (conn_to_topics_ s) ->
  heap_ok s' ->
  (forall tp c, c ∈ subs s' tp <-> c ∈ subs s tp \/ (tp = topic /\ c = conn)) ->
  repr s' ({[(conn, topic)]} ∪ R).
Proof using Hrepr.
  intros Hc Hok Hs. split; [done|..].
  - intros tp c. rewrite Hs, (rp_subs _ _ Hrepr). set_solver.
  - intros c tp. rewrite Hc, lookup_insert. case_decide as Heq; [subst c|].
    + simpl. rewrite !elem_of_union, (rp_conn _ _ Hrepr). set_solver.
    + rewrite (rp_conn _ _ Hrepr). set_solver.
  - intros c ts. rewrite Hc. intros [[_ <-]|[_ Hx]]%lookup_insert_Some; [set_solver|].
    by eapply (rp_conn_nonempty _ _ Hrepr).
Qed.

Lemma subscribe_spec : (conn, topic) ∉ R ->
  exists s', subscribeConnection s conn topic = (true, s') /\
    repr s' ({[(conn, topic)]} ∪ R) /\ readers s' = readers s /\
    (forall h, snapshot s' h = snapshot s h).
Proof using Hrepr.
  intros Hnew. unfold subscribeConnection. rewrite decide_False by by rewrite subscribed_iff.
  set (m := <[conn := _]> _). set (s1 := with_conns s m).
  assert (Hok1 : heap_ok s1) by apply heap_ok_with_conns, Hrepr.
  assert (Hfresh : conn ∉ subs s topic) by by rewrite (rp_subs _ _ Hrepr).
  simpl. destruct (topic_to_conns_ s !! topic) as [l|] eqn:Ht.
  - pose proof (unshare_spec s1 topic l Hok1 Ht) as U.
    destruct (unshare s1 topic l) as [s2 l2]. destruct U as [U1 U2 U3 U4 U5 U6 U7]. simpl in *.
    eexists. split; [reflexivity|]. split_and!; [|done|].
    + apply subscribe_conns; [done|apply (set_vec_ok _ topic); try done|].
      * rewrite U3. apply list.NoDup_app. split_and!; [apply (ho_nodup _ Hok1)| |apply NoDup_singleton].
        intros x Hx ->%list_elem_of_singleton. by apply Hfresh.
      * by destruct (vec_at s2 l2).
      * intros tp c. rewrite (set_vec_subs _ topic), U4 by done. case_decide; [subst tp|naive_solver].
        rewrite U3, elem_of_app, list_elem_of_singleton. naive_solver.
    + intros h. rewrite (set_vec_snapshot _ topic) by done. apply U5.
  - eexists. split; [reflexivity|].
    assert (Hvec : vec_at (make_shared s1 topic []) (next_loc s) = []).
    { unfold vec_at. simpl. by rewrite lookup_insert_eq. }
    assert (Hsubs : subs s topic = []) by (unfold subs; by rewrite Ht).
    assert (Heq : set_vec (make_shared s1 topic []) (next_loc s) [conn] = make_shared s1 topic [conn]).
    { unfold set_vec, make_shared. simpl. by rewrite insert_insert_eq. }
    change (next_loc s1) with (next_loc s). rewrite Hvec. simpl. rewrite Heq.
    split_and!; [|done|].
    + apply subscribe_conns; [done|apply make_shared_ok; try done; apply NoDup_singleton|].
      intros tp c. rewrite make_shared_subs by done. case_decide; [subst tp|naive_solver].
      rewrite Hsubs, list_elem_of_singleton, elem_of_nil. naive_solver.
    + intros h. by apply (make_shared_snapshot s1).
Qed.

Lemma subscribe_again : (conn, topic) ∈ R -> subscribeConnection s conn topic = (false, s).
Proof using Hrepr.
  intros Hin. unfold subscribeConnection. by rewrite decide_True by by rewrite subscribed_iff.
Qed.

Lemma unsubscribe_spec : (conn, topic) ∈ R ->
  exists s', unsubscribeConnection s conn topic = (true, s') /\
    repr s' (R ∖ {[(conn, topic)]}) /\ readers s' = readers s /\
    (forall h, snapshot s' h = snapshot s h).
Proof using Hrepr.
  intros Hin. unfold unsubscribeConnection. apply subscribed_iff in Hin.
  destruct (conn_to_topics_ s !! conn) as [ts|] eqn:E; simpl in Hin; [|set_solver].
  rewrite decide_True by done. eexists. split; [reflexivity|].
  destruct (dropFromConn_spec (conn_to_topics_ s) conn topic) as [Hne Hm].
  { intros c ts'. apply (rp_conn_nonempty _ _ Hrepr). }
  set (s1 := with_conns s _).
  destruct (dropFromTopic_spec s1 topic conn) as (H1 & H2 & H3 & H4 & H5).
  { apply heap_ok_with_conns, Hrepr. }
  split_and!; [|done|done]. split; [done|..].
  - intros tp c. rewrite H4. change (subs s1 tp) with (subs s tp).
    rewrite (rp_subs _ _ Hrepr). set_solver.
  - intros c tp. rewrite H2. simpl. rewrite Hm, (rp_conn _ _ Hrepr). set_solver.
  - intros c ts'. rewrite H2. apply Hne.
Qed.

Lemma unsubscribe_absent : (conn, topic) ∉ R -> unsubscribeConnection s conn topic = (false, s).
Proof using Hrepr.
  intros Hout. rewrite <- subscribed_iff in Hout. unfold unsubscribeConnection.
  destruct (conn_to_topics_ s !! conn); [|done]. by rewrite decide_False.
Qed.

Lemma remove_connection_spec :
  let s' := removeAllForConnection s conn in
  repr s' (filter (fun p : GlobalConnId * Topic.t => p.1 ≠ conn) R) /\ readers s' = readers s /\
  (forall h, snapshot s' h = snapshot s h).
Proof using Hrepr.
  unfold removeAllForConnection.
  destruct (conn_to_topics_ s !! conn) as [ts|] eqn:E.
  - destruct (dropFromTopic_fold conn (elements ts) s) as (H1 & H2 & H3 & H4 & H5); [apply Hrepr|].
    split_and!; [|done|done]. split; [by apply heap_ok_with_conns|..].
    + intros tp c. rewrite elem_of_filter. simpl.
      change (c ∈ subs (with_conns ?x _) tp) with (c ∈ subs x tp). rewrite H4.
      rewrite (rp_subs _ _ Hrepr), elem_of_elements.
      pose proof (rp_conn _ _ Hrepr conn tp) as Hc. rewrite E in Hc. simpl in Hc.
      destruct (decide (c = conn)) as [->|]; naive_solver.
    + intros c tp. rewrite elem_of_filter. simpl. rewrite H2, lookup_delete.
      case_decide as Hx; [subst; simpl; set_solver|]. rewrite (rp_conn _ _ Hrepr). naive_solver.
    + intros c ts'. simpl. rewrite H2. intros [_ Hx]%lookup_delete_Some.
      by eapply (rp_conn_nonempty _ _ Hrepr).
  - split_and!; try done.
    assert (filter (fun p : GlobalConnId * Topic.t => p.1 ≠ conn) R = R) as ->; [|done].
    apply set_eq. intros [c tp]. rewrite elem_of_filter. split; [tauto|]. intros Hin.
    split; [|done]. simpl. intros ->. apply (rp_conn _ _ Hrepr) in Hin. rewrite E in Hin.
    simpl in Hin. set_solver.
Qed.

Lemma remove_topic_spec :
  let s' := removeAllForTopic s topic in
  repr s' (filter (fun p : GlobalConnId * Topic.t => p.2 ≠ topic) R) /\ readers s' = readers s /\
  (forall h, snapshot s' h = snapshot s h).
Proof using Hrepr.
  unfold removeAllForTopic. pose proof (rp_heap _ _ Hrepr) as [G1 G2 G3 G4 G5 G6].
  pose proof (rp_subs _ _ Hrepr topic) as Hsubs. unfold subs in Hsubs.
  destruct (topic_to_conns_ s !! topic) as [l|] eqn:Ht.
  - destruct (dropFromConn_fold topic (vec_at s l) (conn_to_topics_ s)) as [Hne Hm].
    { intros c ts'. apply (rp_conn_nonempty _ _ Hrepr). }
    split_and!; try done.
    assert (Hs : forall tp, subs (with_topics s (delete topic (topic_to_conns_ s))) tp =
              if decide (tp = topic) then [] else subs s tp).
    { intros tp. unfold subs. simpl. rewrite lookup_delete.
      by destruct (decide (tp = topic)), (decide (topic = tp)); subst. }
    split.
    + split; simpl; try done.
      * intros tp l' [_ ?]%lookup_delete_Some. eauto.
      * intros tp l' [_ ?]%lookup_delete_Some. eauto.
      * intros tp1 tp2 l' [_ ?]%lookup_delete_Some [_ ?]%lookup_delete_Some. eauto.
      * intros tp. change (NoDup (subs (with_topics s (delete topic (topic_to_conns_ s))) tp)).
        rewrite Hs. case_decide; [constructor|done].
      * intros tp l' [_ ?]%lookup_delete_Some. by eapply G6.
    + intros tp c. change (c ∈ subs (with_topics s (delete topic (topic_to_conns_ s))) tp
        <-> (c, tp) ∈ filter (fun p : GlobalConnId * Topic.t => p.2 ≠ topic) R).
      rewrite Hs, elem_of_filter, <- (rp_subs _ _ Hrepr). simpl. case_decide; [|naive_solver].
      rewrite elem_of_nil. naive_solver.
    + intros c tp. simpl. rewrite Hm, elem_of_filter, (rp_conn _ _ Hrepr), Hsubs. simpl.
      destruct (decide (tp = topic)) as [->|]; naive_solver.
    + intros c ts'. apply Hne.
  - split_and!; try done.
    assert (filter (fun p : GlobalConnId * Topic.t => p.2 ≠ topic) R = R) as ->; [|done].
    apply set_eq. intros [c tp]. rewrite elem_of_filter. split; [tauto|]. intros Hin.
    split; [|done]. simpl. intros ->. apply Hsubs in Hin. by apply not_elem_of_nil in Hin.
Qed.
End Subscribe.

(** ** Sequences of calls *)

Inductive op :=
  | OpSubscribe (conn : GlobalConnId) (topic : Topic.t)
  | OpUnsubscribe (conn : GlobalConnId) (topic : Topic.t)
  | OpRead (h : nat) (topic : Topic.t)
  | OpRelease (h : nat)
  | OpRemoveConnection (conn : GlobalConnId)
  | OpRemoveTopic (topic : Topic.t).

(** The boolean a call returns; for [getSubscribers], whether it is non-null. *)
Definition step (s : t) (o : op) : option bool * t :=
  match o with
  | OpSubscribe c tp => let '(b, s') := subscribeConnection s c tp in (Some b, s')
  | OpUnsubscribe c tp => let '(b, s') := unsubscribeConnection s c tp in (Some b, s')
  | OpRead h tp => let '(l, s') := getSubscribers s h tp in (Some (bool_decide (is_Some l)), s')
  | OpRelease h => (None, releaseReader s h)
  | OpRemoveConnection c => (None, removeAllForConnection s c)
  | OpRemoveTopic tp => (None, removeAllForTopic s tp)
  end.

Fixpoint run (s : t) (ops : list op) : list (option bool) * t :=
  match ops with
  | [] => ([], s)
  | o :: ops' =>
    let '(a, s1) := step s o in let '(l, s2) := run s1 ops' in (a :: l, s2)
  end.

Definition spec_step (R : Rel) (o : op) : option bool * Rel :=
  match o with
  | OpSubscribe c tp => (Some (bool_decide ((c, tp) ∉ R)), {[(c, tp)]} ∪ R)
  | OpUnsubscribe c tp => (Some (bool_decide ((c, tp) ∈ R)), R ∖ {[(c, tp)]})
  | OpRead h tp =>
    (Some (bool_decide (filter (fun p : GlobalConnId * Topic.t => p.2 = tp) R ≠ ∅)), R)
  | OpRelease h => (None, R)
  | OpRemoveConnection c => (None, filter (fun p : GlobalConnId * Topic.t => p.1 ≠ c) R)
  | OpRemoveTopic tp => (None, filter (fun p : GlobalConnId * Topic.t => p.2 ≠ tp) R)
  end.

Fixpoint spec_run (R : Rel) (ops : list op) : list (option bool) * Rel :=
  match ops with
  | [] => ([], R)
  | o :: ops' =>
    let '(a, R1) := spec_step R o in let '(l, R2) := spec_run R1 ops' in (a :: l, R2)
  end.

(** The operations of a call sequence that reassign or drop handle [h]. *)
Definition touches (h : nat) (o : op) : bool :=
  match o with OpRead h' _ | OpRelease h' => bool_decide (h' = h) | _ => false end.

Lemma readers_repr s R rd :
  repr s R -> (forall h l, rd !! h = Some l -> (l < next_loc s)%nat) ->
  repr (mk (vecs s) (next_loc s) (topic_to_conns_ s) (conn_to_topics_ s) rd) R.
Proof. intros [[] ? ? ?] Hrd. done. Qed.

Lemma subscribed_topic s R tp : repr s R ->
  bool_decide (is_Some (topic_to_conns_ s !! tp)) =
  bool_decide (filter (fun p : GlobalConnId * Topic.t => p.2 = tp) R ≠ ∅).
Proof.
  intros Hr. apply bool_decide_ext. split.
  - intros [l Hl]. pose proof (ho_nonempty _ (rp_heap _ _ Hr) _ _ Hl) as Hne.
    pose proof (rp_subs _ _ Hr tp) as Hs. unfold subs in Hs. rewrite Hl in Hs.
    destruct (vec_at s l) as [|c v]; [done|]. intros He.
    assert ((c, tp) ∈ R) as Hin by (apply Hs; left).
    assert ((c, tp) ∈ filter (fun p : GlobalConnId * Topic.t => p.2 = tp) R) as Hx.
    { by apply elem_of_filter. }
    rewrite He in Hx. by apply not_elem_of_empty in Hx.
  - intros Hne. apply set_choose_L in Hne as [[c tp'] [Heq Hin]%elem_of_filter].
    simpl in Heq. subst tp'. apply (rp_subs _ _ Hr) in Hin. unfold subs in Hin.
    destruct (topic_to_conns_ s !! tp); [by eexists|by apply not_elem_of_nil in Hin].
Qed.

Lemma sub_step_refines s R o : repr s R ->
  (step s o).1 = (spec_step R o).1 /\ repr (step s o).2 (spec_step R o).2.
Proof.
  intros Hr. destruct o as [c tp|c tp|h tp|h|c|tp]; simpl.
  - case_bool_decide as Hin.
    + destruct (subscribe_spec s R Hr c tp Hin) as (s' & -> & ? & _). done.
    + rewrite (subscribe_again s R Hr c tp Hin). simpl.
      by replace ({[(c, tp)]} ∪ R) with R by set_solver.
  - case_bool_decide as Hin.
    + destruct (unsubscribe_spec s R Hr c tp Hin) as (s' & -> & ? & _). done.
    + rewrite (unsubscribe_absent s R Hr c tp Hin). simpl.
      by replace (R ∖ {[(c, tp)]}) with R by set_solver.
  - rewrite <- (subscribed_topic s R tp Hr). unfold getSubscribers.
    destruct (topic_to_conns_ s !! tp) as [l|] eqn:E; simpl; [|done].
    split; [done|]. apply readers_repr; [done|].
    intros h' l' [[_ <-]|[_ Hx]]%lookup_insert_Some.
    + by eapply (ho_topic _ (rp_heap _ _ Hr)).
    + by eapply (ho_reader _ (rp_heap _ _ Hr)).
  - split; [done|]. apply readers_repr; [done|]. intros h' l' [_ Hx]%lookup_delete_Some.
    by eapply (ho_reader _ (rp_heap _ _ Hr)).
  - split; [done|]. by apply remove_connection_spec.
  - split; [done|]. by apply remove_topic_spec.
Qed.

Lemma step_snapshot s R o h : repr s R -> touches h o = false ->
  snapshot (step s o).2 h = snapshot s h.
Proof.
  intros Hr Ho. destruct o as [c tp|c tp|h' tp|h'|c|tp]; simpl in *.
  - destruct (decide ((c, tp) ∈ R)) as [Hin|Hin].
    + by rewrite (subscribe_again s R Hr c tp Hin).
    + by destruct (subscribe_spec s R Hr c tp Hin) as (s' & -> & _ & _ & ?).
  - destruct (decide ((c, tp) ∈ R)) as [Hin|Hin].
    + by destruct (unsubscribe_spec s R Hr c tp Hin) as (s' & -> & _ & _ & ?).
    + by rewrite (unsubscribe_absent s R Hr c tp Hin).
  - unfold getSubscribers. destruct (topic_to_conns_ s !! tp); [|done]. simpl.
    apply bool_decide_eq_false in Ho. unfold snapshot. simpl. by rewrite lookup_insert_ne.
  - apply bool_decide_eq_false in Ho. unfold snapshot. simpl. by rewrite lookup_delete_ne.
  - by apply (remove_connection_spec _ R).
  - by apply (remove_topic_spec _ R).
Qed.

Lemma sub_run_refines ops : forall s R, repr s R ->
  (run s ops).1 = (spec_run R ops).1 /\ repr (run s ops).2 (spec_run R ops).2.
Proof.
  induction ops as [|o ops IH]; intros s R Hr; [done|]. simpl.
  destruct (sub_step_refines s R o Hr) as [Ha Hr1].
  destruct (step s o) as [a s1], (spec_step R o) as [a' R1]. simpl in *. subst a'.
  destruct (IH s1 R1 Hr1) as [Hb Hr2].
  destruct (run s1 ops) as [b s2], (spec_run R1 ops) as [b' R2]. simpl in *. by subst b'.
Qed.

Lemma run_snapshot ops h : forall s R, repr s R -> forallb (fun o => negb (touches h o)) ops = true ->
  snapshot (run s ops).2 h = snapshot s h.
Proof.
  induction ops as [|o ops IH]; intros s R Hr Ho; [done|]. simpl in *.
  apply andb_true_iff in Ho as [Ho Hos]. apply negb_true_iff in Ho.
  pose proof (step_snapshot s R o h Hr Ho) as Hs. destruct (sub_step_refines s R o Hr) as [_ Hr1].
  destruct (step s o) as [a s1]. simpl in *. rewrite <- Hs, <- (IH s1 _ Hr1 Hos).
  by destruct (run s1 ops).
Qed.

(** C18: from an empty manager, any sequence of calls returns what the relation
    between connections and topics says, and afterwards both indexes agree with
    the relation: a topic's vector lists each subscriber once and nobody else,
    [isSubscribed] decides membership, and a connection is listed exactly while
    it has a topic. *)
Theorem subscription_manager_refines_relation (ops : list op) :
  let s := (run create ops).2 in
  let R := (spec_run ∅ ops).2 in
  (run create ops).1 = (spec_run ∅ ops).1 /\
  (forall tp, NoDup (subs s tp) /\ forall c, c ∈ subs s tp <-> (c, tp) ∈ R) /\
  (forall c tp, isSubscribed s c tp = true <-> (c, tp) ∈ R) /\
  (forall c, has_value (getSubscriptionsForConnection s c) = true <-> exists tp, (c, tp) ∈ R).
Proof.
  destruct (sub_run_refines ops create ∅ sub_create_repr) as [Ha Hr].
  set (s := (run create ops).2) in *. set (R := (spec_run ∅ ops).2) in *.
  pose proof (rp_conn _ _ Hr) as Hc. split_and!; [done|..].
  - intros tp. split; [apply (ho_nodup _ (rp_heap _ _ Hr))|apply (rp_subs _ _ Hr)].
  - intros c tp. rewrite <- Hc. unfold isSubscribed.
    destruct (conn_to_topics_ s !! c); simpl; [apply bool_decide_eq_true|set_solver].
  - intros c. setoid_rewrite <- Hc. unfold getSubscriptionsForConnection.
    destruct (conn_to_topics_ s !! c) as [ts|] eqn:E; simpl.
    + apply (rp_conn_nonempty _ _ Hr) in E. split; [|done]. intros _. by apply set_choose_L.
    + set_solver.
Qed.

(** The vector a reader obtained from [getSubscribers] is never changed by
    later calls of any kind while the reader holds it: after any sequence of
    calls that does not reassign or release the reader's pointer, it still
    shows the subscribers the topic had when it was read. *)
Theorem subscriber_snapshot_immutable (ops1 ops2 : list op) (h : nat) (tp : Topic.t)
  (Hsub : topic_to_conns_ (run create ops1).2 !! tp <> None)
  (Huntouched : forallb (fun o => negb (touches h o)) ops2 = true) :
  let s1 := (run create ops1).2 in
  let s2 := (step s1 (OpRead h tp)).2 in
  snapshot (run s2 ops2).2 h = Some (subs s1 tp).
Proof.
  destruct (sub_run_refines ops1 create ∅ sub_create_repr) as [_ Hr].
  destruct (sub_step_refines _ _ (OpRead h tp) Hr) as [_ Hr2]. cbv zeta.
  rewrite (run_snapshot _ _ _ _ Hr2 Huntouched).
  set (s1 := (run create ops1).2) in *. unfold step, getSubscribers, subs.
  destruct (topic_to_conns_ s1 !! tp) as [l|] eqn:E; [|done].
  unfold snapshot. simpl. rewrite lookup_insert_eq. simpl. unfold vec_at.
  by destruct (ho_vec _ (rp_heap _ _ Hr) _ _ E) as [v ->].
Qed.

Lemma subscriber_snapshot_immutable_witness :
  let c n := mkGlobalConnId (mkNetStackId "net-1") (mkConnId n) in
  let tp := Topic.HubTopic (mkHubId "h") in
  let s1 := (run create [OpSubscribe (c "a") tp; OpSubscribe (c "b") tp]).2 in
  let s2 := (step s1 (OpRead 0 tp)).2 in
  let s3 := (run s2 [OpUnsubscribe (c "a") tp; OpSubscribe (c "d") tp]).2 in
  snapshot s3 0 = Some [c "a"; c "b"] /\ subs s3 tp = [c "b"; c "d"].
Proof.
  intros c tp s1 s2 s3. split; [|vm_compute; reflexivity].
  transitivity (Some (subs s1 tp)); [|vm_compute; reflexivity].
  apply (subscriber_snapshot_immutable
           [OpSubscribe (c "a") tp; OpSubscribe (c "b") tp]
           [OpUnsubscribe (c "a") tp; OpSubscribe (c "d") tp] 0 tp).
  - vm_compute. discriminate.
  - vm_compute. reflexivity.
Defined.

End Subscription.
