(* ===== verification/VoiceSessions.v ===== *)
(** * Voice participation

    [app/services/voice/VoiceSessionManager.{h,cpp}]: who is in which voice
    channel, which session owns each user's voice connection, and the mute and
    deafen flags.  The two nested maps implement one table from users to
    channel, owner session and flags. *)

From S2P Require Import Prelude.
From S2P Require Import Ids.
From S2P Require Import Protocol.
From S2P Require Import SessionManager.

Module VoiceSessions.

Abbreviation SessionId := Session.SessionId (only parsing).

Record ParticipantState := mkState { muted : bool; deafened : bool }.
Definition default_state : ParticipantState := mkState false false.

Record UserVoiceState := mkVoice { channel : ChannelId; owner_session : Z }.

Record t := mk {
  channels_ : gmap ChannelId (gmap UserId ParticipantState);
  user_to_channel_ : gmap UserId UserVoiceState
}.

Definition create : t := mk ∅ ∅.

(** Erase a user from a channel's map, and the channel when that empties it. *)
Definition erase_participant (m : gmap ChannelId (gmap UserId ParticipantState))
  (ch : ChannelId) (ps : gmap UserId ParticipantState) (user : UserId)
  : bool * gmap ChannelId (gmap UserId ParticipantState) :=
  let ps' := delete user ps in
  if decide (ps' = ∅) then (true, delete ch m) else (false, <[ch := ps']> m).

(** The head of [join]: leave the old channel, and the flags to carry over,
    which are kept only for the session that owned them. *)
Definition leave_old (v : t) (user : UserId) (session : SessionId)
  : ParticipantState * gmap ChannelId (gmap UserId ParticipantState) :=
  match user_to_channel_ v !! user with
  | None => (default_state, channels_ v)
  | Some old =>
    let old_participants := default ∅ (channels_ v !! channel old) in
    let carry := if (owner_session old =? session)%Z
                 then default default_state (old_participants !! user) else default_state in
    (carry, (erase_participant (channels_ v) (channel old) old_participants user).2)
  end.

Definition join (v : t) (ch : ChannelId) (user : UserId) (session : SessionId) : bool * t :=
  let '(carry_state, chans) := leave_old v user session in
  let participants := default ∅ (chans !! ch) in
  let was_empty := bool_decide (participants = ∅) in
  let participants' := match participants !! user with
                       | Some _ => participants
                       | None => <[user := carry_state]> participants
                       end in
  (was_empty, mk (<[ch := participants']> chans)
                 (<[user := mkVoice ch session]> (user_to_channel_ v))).

Definition leave (v : t) (ch : ChannelId) (user : UserId) : bool * t :=
  match user_to_channel_ v !! user with
  | Some uv =>
    if negb (bool_decide (channel uv = ch)) then (false, v)
    else
      let u2c := delete user (user_to_channel_ v) in
      match channels_ v !! ch with
      | None => (false, mk (channels_ v) u2c)
      | Some ps => let '(e, m) := erase_participant (channels_ v) ch ps user in (e, mk m u2c)
      end
  | None =>
    match channels_ v !! ch with
    | None => (false, v)
    | Some ps =>
      let '(e, m) := erase_participant (channels_ v) ch ps user in
      (e, mk m (user_to_channel_ v))
    end
  end.

(** The common tail of [leave_user] and [leave_if_owner]. *)
Definition remove_from (v : t) (user : UserId) (ch : ChannelId) : bool * t :=
  let u2c := delete user (user_to_channel_ v) in
  match channels_ v !! ch with
  | None => (true, mk (channels_ v) u2c)
  | Some ps => let '(e, m) := erase_participant (channels_ v) ch ps user in (e, mk m u2c)
  end.

Record LeaveResult := mkLeave { lr_channel : option ChannelId; lr_became_empty : bool }.

Definition leave_user (v : t) (user : UserId) : LeaveResult * t :=
  match user_to_channel_ v !! user with
  | None => (mkLeave None false, v)
  | Some uv =>
    let '(e, v') := remove_from v user (channel uv) in (mkLeave (Some (channel uv)) e, v')
  end.

Record LeaveIfOwnerResult := mkLeaveIfOwner {
  removed : bool; lo_channel : option ChannelId; lo_became_empty : bool }.

Definition leave_if_owner (v : t) (user : UserId) (expected_owner_session : SessionId)
  : LeaveIfOwnerResult * t :=
  match user_to_channel_ v !! user with
  | None => (mkLeaveIfOwner false None false, v)
  | Some uv =>
    if negb (owner_session uv =? expected_owner_session)%Z
    then (mkLeaveIfOwner false None false, v)
    else let '(e, v') := remove_from v user (channel uv) in
         (mkLeaveIfOwner true (Some (channel uv)) e, v')
  end.

(** The participant entry of a user, with the map that holds it. *)
Definition find_participant (v : t) (user : UserId)
  : option (ChannelId * gmap UserId ParticipantState * ParticipantState) :=
  uv ← user_to_channel_ v !! user;
  ps ← channels_ v !! channel uv;
  st ← ps !! user;
  Some (channel uv, ps, st).

Definition put_participant (v : t) (user : UserId) (ch : ChannelId)
  (ps : gmap UserId ParticipantState) (st : ParticipantState) : t :=
  mk (<[ch := <[user := st]> ps]> (channels_ v)) (user_to_channel_ v).

Definition set_muted (v : t) (user : UserId) (m : bool) : bool * t :=
  match find_participant v user with
  | None => (false, v)
  | Some (ch, ps, st) =>
    if Bool.eqb (muted st) m then (false, v)
    else (true, put_participant v user ch ps (mkState m (deafened st)))
  end.

Definition set_deafened (v : t) (user : UserId) (d : bool) : bool * t :=
  match find_participant v user with
  | None => (false, v)
  | Some (ch, ps, st) =>
    let changed1 := negb (Bool.eqb (deafened st) d) in
    let desired_muted := d in
    let changed2 := negb (Bool.eqb (muted st) desired_muted) in
    (changed1 || changed2, put_participant v user ch ps (mkState desired_muted d))
  end.

Definition user_channel (v : t) (user : UserId) : option ChannelId :=
  channel <$> user_to_channel_ v !! user.

Definition user_session (v : t) (user : UserId) : option SessionId :=
  owner_session <$> user_to_channel_ v !! user.

Definition transfer_owner_session (v : t) (user : UserId) (expected_owner next_owner : SessionId)
  : bool * t :=
  match user_to_channel_ v !! user with
  | None => (false, v)
  | Some uv =>
    if negb (owner_session uv =? expected_owner)%Z then (false, v)
    else (true, mk (channels_ v)
                   (<[user := mkVoice (channel uv) next_owner]> (user_to_channel_ v)))
  end.

Definition participants_in_channel (v : t) (ch : ChannelId) : list (UserId * ParticipantState) :=
  match channels_ v !! ch with Some ps => map_to_list ps | None => [] end.

Definition users_in_channel (v : t) (ch : ChannelId) : list UserId :=
  (participants_in_channel v ch).*1.

Definition active_voice_user_count (v : t) : Z := Z.of_nat (size (user_to_channel_ v)).

Definition active_channels (v : t) : list ChannelId := (map_to_list (channels_ v)).*1.

(** The loop of [clear_channel] over the channel's users. *)
Definition forget_user (ch : ChannelId) (m : gmap UserId UserVoiceState) (user : UserId)
  : gmap UserId UserVoiceState :=
  match m !! user with
  | Some uv => if bool_decide (channel uv = ch) then delete user m else m
  | None => m
  end.

Definition clear_channel (v : t) (ch : ChannelId) : list UserId * t :=
  match channels_ v !! ch with
  | None => ([], v)
  | Some ps =>
    let users := (map_to_list ps).*1 in
    (users, mk (delete ch (channels_ v)) (foldl (forget_user ch) (user_to_channel_ v) users))
  end.

Definition is_empty (v : t) (ch : ChannelId) : bool :=
  match channels_ v !! ch with None => true | Some ps => bool_decide (ps = ∅) end.

(** ** Specification: one table *)

Record entry := mkEntry { e_channel : ChannelId; e_owner : Z; e_state : ParticipantState }.
Abbreviation Table := (gmap UserId entry).

(** Nobody in the table is in [ch]. *)
Definition nobody_in (tbl : Table) (ch : ChannelId) : bool :=
  bool_decide (filter (fun kv : UserId * entry => e_channel kv.2 = ch) tbl = ∅).

Abbreviation Channels := (gmap ChannelId (gmap UserId ParticipantState)).

(** The channel maps hold exactly the table's rows, and no empty map. *)
Record chans_repr (m : Channels) (tbl : Table) : Prop := mk_chans_repr {
  cr_part : forall c u, m !! c ≫= (fun ps => ps !! u) =
    (x ← tbl !! u; if decide (e_channel x = c) then Some (e_state x) else None);
  cr_nonempty : forall c ps, m !! c = Some ps -> ps ≠ ∅
}.

Record repr (v : t) (tbl : Table) : Prop := mk_repr {
  vr_user : forall u, user_to_channel_ v !! u =
    (fun x => mkVoice (e_channel x) (e_owner x)) <$> tbl !! u;
  vr_chans : chans_repr (channels_ v) tbl
}.

Lemma nobody_in_true tbl c :
  nobody_in tbl c = true <-> forall u x, tbl !! u = Some x -> e_channel x <> c.
Proof.
  unfold nobody_in. rewrite bool_decide_eq_true. split.
  - intros He u x Hu Hc. apply (map_filter_empty_not_lookup _ _ u x He); done.
  - intros H. apply map_empty. intros u. apply map_lookup_filter_None. right.
    intros x Hx. by eapply H.
Qed.

Section Chans.
Context (m : Channels) (tbl : Table) (R : chans_repr m tbl).

Lemma chans_none c : m !! c = None <-> nobody_in tbl c = true.
Proof using R.
  destruct R as [H2 H3]. rewrite nobody_in_true. split.
  - intros Hn u x Hu Hc. specialize (H2 c u). rewrite Hn, Hu in H2. simpl in H2.
    by rewrite decide_True in H2.
  - intros Hn. destruct (m !! c) as [ps|] eqn:E; [|done].
    pose proof (H3 _ _ E) as Hne. apply map_choose in Hne as (u & st & Hu).
    specialize (H2 c u). rewrite E in H2. simpl in H2. rewrite Hu in H2.
    destruct (tbl !! u) as [x|] eqn:Hx; [|done]. simpl in H2.
    case_decide as Hc; [|done]. by apply Hn in Hx.
Qed.

(** The map that holds a row. *)
Lemma chans_row u x : tbl !! u = Some x ->
  exists ps, m !! e_channel x = Some ps /\ ps !! u = Some (e_state x).
Proof using R.
  intros Hu. pose proof (cr_part _ _ R (e_channel x) u) as H. rewrite Hu in H. simpl in H.
  rewrite decide_True in H by done.
  destruct (m !! e_channel x) as [ps|]; [|done]. by exists ps.
Qed.

Lemma chans_lookup c ps u : m !! c = Some ps ->
  ps !! u = (x ← tbl !! u; if decide (e_channel x = c) then Some (e_state x) else None).
Proof using R. intros Hc. rewrite <- (cr_part _ _ R c u), Hc. done. Qed.

(** Erasing a row's participant. *)
Lemma chans_erase u x ps :
  tbl !! u = Some x -> m !! e_channel x = Some ps ->
  chans_repr (erase_participant m (e_channel x) ps u).2 (delete u tbl) /\
  (erase_participant m (e_channel x) ps u).1 = nobody_in (delete u tbl) (e_channel x).
Proof using R.
  intros Hu Hc.
  assert (R' : chans_repr (erase_participant m (e_channel x) ps u).2 (delete u tbl)).
  { unfold erase_participant. case_decide as He; simpl; split.
    - intros c u'. destruct (decide (c = e_channel x)) as [->|Hne].
      + rewrite lookup_delete_eq. simpl. rewrite lookup_delete. case_decide; [done|].
        rewrite <- (chans_lookup _ _ u' Hc).
        apply (f_equal (fun m : gmap UserId ParticipantState => m !! u')) in He.
        by rewrite lookup_delete_ne, lookup_empty in He by done.
      + rewrite lookup_delete_ne by done. rewrite (cr_part _ _ R), lookup_delete.
        case_decide; [subst u'|done]. rewrite Hu. simpl. by rewrite decide_False.
    - intros c ps' [_ H]%lookup_delete_Some. by eapply (cr_nonempty _ _ R).
    - intros c u'. destruct (decide (c = e_channel x)) as [->|Hne].
      + rewrite lookup_insert_eq. simpl. rewrite !lookup_delete. case_decide; [done|].
        by apply chans_lookup.
      + rewrite lookup_insert_ne by done. rewrite (cr_part _ _ R), lookup_delete.
        case_decide; [subst u'|done]. rewrite Hu. simpl. by rewrite decide_False.
    - intros c ps' [[_ <-]|[_ H]]%lookup_insert_Some; [done|]. by eapply (cr_nonempty _ _ R). }
  split; [done|]. revert R'. unfold erase_participant. case_decide as He; simpl; intros R'.
  - symmetry. apply nobody_in_true. intros u' x' Hu' Hx'.
    pose proof (cr_part _ _ R' (e_channel x) u') as H. rewrite lookup_delete_eq, Hu' in H.
    simpl in H. by rewrite decide_True in H.
  - destruct (nobody_in (delete u tbl) (e_channel x)) eqn:En; [|done].
    rewrite nobody_in_true in En. exfalso. apply He. apply map_empty. intros u'.
    pose proof (cr_part _ _ R' (e_channel x) u') as H. rewrite lookup_insert_eq in H. simpl in H.
    rewrite H. destruct (delete u tbl !! u') as [x'|] eqn:E; [|done]. simpl.
    by rewrite decide_False by by eapply En.
Qed.

(** Adding a participant for a user without a row. *)
Lemma chans_insert u x :
  tbl !! u = None ->
  chans_repr (<[e_channel x := <[u := e_state x]> (default ∅ (m !! e_channel x))]> m)
             (<[u := x]> tbl).
Proof using R.
  intros Hu. split.
  - intros c u'. rewrite !lookup_insert. case_decide as Hc.
    + subst c. simpl. rewrite lookup_insert. case_decide; [subst; simpl; by rewrite decide_True|].
      destruct (m !! e_channel x) as [ps|] eqn:E; simpl.
      * by apply chans_lookup.
      * rewrite lookup_empty. rewrite <- (cr_part _ _ R), E. done.
    + rewrite (cr_part _ _ R). case_decide; [subst u'|done]. rewrite Hu. simpl.
      by rewrite decide_False.
  - intros c ps [[_ <-]|[_ H]]%lookup_insert_Some; [apply insert_non_empty|].
    by eapply (cr_nonempty _ _ R).
Qed.

(** Changing the flags of a row. *)
Lemma chans_update u x ps st :
  tbl !! u = Some x -> m !! e_channel x = Some ps ->
  chans_repr (<[e_channel x := <[u := st]> ps]> m)
             (<[u := mkEntry (e_channel x) (e_owner x) st]> tbl).
Proof using R.
  intros Hu Hc. split.
  - intros c u'. rewrite !lookup_insert. case_decide as Hcc.
    + subst c. simpl. rewrite lookup_insert. case_decide; [subst; simpl; by rewrite decide_True|].
      by apply chans_lookup.
    + rewrite (cr_part _ _ R). case_decide; [subst u'|done]. rewrite Hu. simpl.
      by rewrite !decide_False.
  - intros c ps' [[_ <-]|[_ H]]%lookup_insert_Some; [apply insert_non_empty|].
    by eapply (cr_nonempty _ _ R).
Qed.

(** Changing the owner of a row. *)
Lemma chans_owner u x o :
  tbl !! u = Some x -> chans_repr m (<[u := mkEntry (e_channel x) o (e_state x)]> tbl).
Proof using R.
  intros Hu. split; [|apply R]. intros c u'. rewrite (cr_part _ _ R), lookup_insert.
  case_decide; [subst u'; by rewrite Hu|done].
Qed.

(** Dropping a channel. *)
Lemma clear_chans c :
  chans_repr (delete c m) (filter (fun kv : UserId * entry => e_channel kv.2 <> c) tbl).
Proof using R.
  split.
  - intros c' u. rewrite map_lookup_filter. destruct (decide (c' = c)) as [->|Hne].
    + rewrite lookup_delete_eq. simpl. destruct (tbl !! u) as [x|]; [|done]. simpl.
      case_guard as Hx; simpl; [|done]. by rewrite decide_False.
    + rewrite lookup_delete_ne by done. rewrite (cr_part _ _ R).
      destruct (tbl !! u) as [x|]; [|done]. simpl. case_guard as Hx; simpl; [done|].
      rewrite decide_False; [done|]. intros <-. naive_solver.
  - intros c' ps [_ H]%lookup_delete_Some. by eapply (cr_nonempty _ _ R).
Qed.
End Chans.

(** ** Sequences of calls *)

Inductive op :=
  | OpJoin (ch : ChannelId) (u : UserId) (s : Z)
  | OpLeave (ch : ChannelId) (u : UserId)
  | OpLeaveUser (u : UserId)
  | OpLeaveIfOwner (u : UserId) (s : Z)
  | OpMute (u : UserId) (b : bool)
  | OpDeafen (u : UserId) (b : bool)
  | OpTransfer (u : UserId) (expected next : Z)
  | OpClear (ch : ChannelId).

Inductive answer :=
  | ABool (b : bool)
  | ALeave (r : LeaveResult)
  | ALeaveIfOwner (r : LeaveIfOwnerResult)
  | AUsers (us : gset UserId).

Definition step (v : t) (o : op) : answer * t :=
  match o with
  | OpJoin c u s => let '(b, v') := join v c u s in (ABool b, v')
  | OpLeave c u => let '(b, v') := leave v c u in (ABool b, v')
  | OpLeaveUser u => let '(r, v') := leave_user v u in (ALeave r, v')
  | OpLeaveIfOwner u s => let '(r, v') := leave_if_owner v u s in (ALeaveIfOwner r, v')
  | OpMute u b => let '(r, v') := set_muted v u b in (ABool r, v')
  | OpDeafen u b => let '(r, v') := set_deafened v u b in (ABool r, v')
  | OpTransfer u a b => let '(r, v') := transfer_owner_session v u a b in (ABool r, v')
  | OpClear c => let '(us, v') := clear_channel v c in (AUsers (list_to_set us), v')
  end.

Definition carry (tbl : Table) (u : UserId) (s : Z) : ParticipantState :=
  match tbl !! u with
  | Some x => if (e_owner x =? s)%Z then e_state x else default_state
  | None => default_state
  end.

Definition spec_step (tbl : Table) (o : op) : answer * Table :=
  match o with
  | OpJoin c u s =>
    (ABool (nobody_in (delete u tbl) c), <[u := mkEntry c s (carry tbl u s)]> tbl)
  | OpLeave c u =>
    match tbl !! u with
    | Some x => if decide (e_channel x = c)
                then (ABool (nobody_in (delete u tbl) c), delete u tbl) else (ABool false, tbl)
    | None => (ABool false, tbl)
    end
  | OpLeaveUser u =>
    match tbl !! u with
    | Some x => (ALeave (mkLeave (Some (e_channel x)) (nobody_in (delete u tbl) (e_channel x))),
                 delete u tbl)
    | None => (ALeave (mkLeave None false), tbl)
    end
  | OpLeaveIfOwner u s =>
    match tbl !! u with
    | Some x =>
      if (e_owner x =? s)%Z then
        (ALeaveIfOwner (mkLeaveIfOwner true (Some (e_channel x))
                          (nobody_in (delete u tbl) (e_channel x))), delete u tbl)
      else (ALeaveIfOwner (mkLeaveIfOwner false None false), tbl)
    | None => (ALeaveIfOwner (mkLeaveIfOwner false None false), tbl)
    end
  | OpMute u b =>
    match tbl !! u with
    | Some x =>
      if Bool.eqb (muted (e_state x)) b then (ABool false, tbl)
      else (ABool true, <[u := mkEntry (e_channel x) (e_owner x)
                                 (mkState b (deafened (e_state x)))]> tbl)
    | None => (ABool false, tbl)
    end
  | OpDeafen u b =>
    match tbl !! u with
    | Some x =>
      (ABool (negb (Bool.eqb (deafened (e_state x)) b) || negb (Bool.eqb (muted (e_state x)) b)),
       <[u := mkEntry (e_channel x) (e_owner x) (mkState b b)]> tbl)
    | None => (ABool false, tbl)
    end
  | OpTransfer u a b =>
    match tbl !! u with
    | Some x =>
      if (e_owner x =? a)%Z
      then (ABool true, <[u := mkEntry (e_channel x) b (e_state x)]> tbl) else (ABool false, tbl)
    | None => (ABool false, tbl)
    end
  | OpClear c =>
    (AUsers (dom (filter (fun kv : UserId * entry => e_channel kv.2 = c) tbl)),
     filter (fun kv : UserId * entry => e_channel kv.2 <> c) tbl)
  end.

Fixpoint run (v : t) (ops : list op) : list answer * t :=
  match ops with
  | [] => ([], v)
  | o :: ops' => let '(a, v1) := step v o in let '(l, v2) := run v1 ops' in (a :: l, v2)
  end.

Fixpoint spec_run (tbl : Table) (ops : list op) : list answer * Table :=
  match ops with
  | [] => ([], tbl)
  | o :: ops' =>
    let '(a, t1) := spec_step tbl o in let '(l, t2) := spec_run t1 ops' in (a :: l, t2)
  end.

Section Refine.
Context (v : t) (tbl : Table) (R : repr v tbl).

Lemma vs_user u : user_to_channel_ v !! u =
  (fun x => mkVoice (e_channel x) (e_owner x)) <$> tbl !! u.
Proof using R. apply (vr_user _ _ R). Qed.

Lemma remove_from_repr u x :
  tbl !! u = Some x ->
  exists v', remove_from v u (e_channel x) = (nobody_in (delete u tbl) (e_channel x), v') /\
    repr v' (delete u tbl).
Proof using R.
  intros Hu. destruct (chans_row _ _ (vr_chans _ _ R) u x Hu) as (ps & Hc & _).
  destruct (chans_erase _ _ (vr_chans _ _ R) u x ps Hu Hc) as [R' He].
  unfold remove_from. rewrite Hc.
  destruct (erase_participant (channels_ v) (e_channel x) ps u) as [e m]. simpl in *.
  subst e. eexists. split; [reflexivity|]. split; simpl; [|done].
  intros u'. rewrite !lookup_delete. case_decide; [done|apply vs_user].
Qed.

Lemma find_participant_repr u :
  find_participant v u = None /\ tbl !! u = None \/
  exists x ps, tbl !! u = Some x /\ channels_ v !! e_channel x = Some ps /\
    find_participant v u = Some (e_channel x, ps, e_state x).
Proof using R.
  unfold find_participant. rewrite vs_user. destruct (tbl !! u) as [x|] eqn:Hu; [right|by left].
  destruct (chans_row _ _ (vr_chans _ _ R) u x Hu) as (ps & Hc & Hp).
  exists x, ps. split_and!; [done|done|]. simpl. rewrite Hc. simpl. by rewrite Hp.
Qed.

Lemma put_participant_repr u x ps st :
  tbl !! u = Some x -> channels_ v !! e_channel x = Some ps ->
  repr (put_participant v u (e_channel x) ps st)
       (<[u := mkEntry (e_channel x) (e_owner x) st]> tbl).
Proof using R.
  intros Hu Hc. split; simpl; [|by apply chans_update, Hc; [apply R|]].
  intros u'. rewrite lookup_insert. case_decide; [subst; by rewrite vs_user, Hu|apply vs_user].
Qed.

Lemma leave_old_repr u s :
  exists chans, leave_old v u s = (carry tbl u s, chans) /\ chans_repr chans (delete u tbl).
Proof using R.
  unfold leave_old, carry. rewrite vs_user. destruct (tbl !! u) as [x|] eqn:Hu; simpl.
  - destruct (chans_row _ _ (vr_chans _ _ R) u x Hu) as (ps & Hc & Hp). rewrite Hc. simpl.
    rewrite Hp. eexists. split; [reflexivity|].
    by apply (chans_erase _ _ (vr_chans _ _ R) u x ps).
  - eexists. split; [reflexivity|]. rewrite delete_id by done. apply R.
Qed.

Lemma join_repr c u s :
  exists v', join v c u s = (nobody_in (delete u tbl) c, v') /\
    repr v' (<[u := mkEntry c s (carry tbl u s)]> tbl).
Proof using R.
  destruct (leave_old_repr u s) as (chans & Heq & Rc). unfold join. rewrite Heq.
  assert (Hpu : default ∅ (chans !! c) !! u = None).
  { destruct (chans !! c) as [ps|] eqn:E; simpl; [|apply lookup_empty].
    rewrite (chans_lookup _ _ Rc _ _ u E), lookup_delete_eq. done. }
  rewrite Hpu. eexists. split.
  { f_equal. pose proof (chans_none _ _ Rc c) as Hn.
    destruct (chans !! c) as [ps|] eqn:E; simpl.
    - rewrite bool_decide_eq_false_2 by by eapply (cr_nonempty _ _ Rc).
      destruct (nobody_in (delete u tbl) c); [|done].
      pose proof (proj2 Hn eq_refl). discriminate.
    - rewrite bool_decide_eq_true_2 by done. symmetry. by apply Hn. }
  split; simpl.
  - intros u'. rewrite !lookup_insert. case_decide; [done|apply vs_user].
  - rewrite <- (insert_delete_eq tbl u).
    apply (chans_insert _ _ Rc u (mkEntry c s (carry tbl u s))). apply lookup_delete_eq.
Qed.

Lemma leave_repr c u :
  ABool (leave v c u).1 = (spec_step tbl (OpLeave c u)).1 /\
  repr (leave v c u).2 (spec_step tbl (OpLeave c u)).2.
Proof using R.
  simpl. unfold leave. rewrite vs_user.
  destruct (tbl !! u) as [x|] eqn:Hu; simpl.
  - destruct (decide (e_channel x = c)) as [Hc|Hc].
    + subst c. rewrite bool_decide_eq_true_2 by done. simpl.
      destruct (remove_from_repr u x Hu) as (v' & Hr & R'). unfold remove_from in Hr.
      destruct (chans_row _ _ (vr_chans _ _ R) u x Hu) as (ps & Hps & _). rewrite Hps in *.
      destruct (erase_participant _ _ _ _) as [e m]. by simplify_eq.
    + rewrite bool_decide_eq_false_2 by done. done.
  - destruct (channels_ v !! c) as [ps|] eqn:Hc; [|done].
    assert (Hpu : ps !! u = None).
    { rewrite (chans_lookup _ _ (vr_chans _ _ R) _ _ u Hc), Hu. done. }
    unfold erase_participant. rewrite delete_id by done.
    rewrite decide_False by by eapply (cr_nonempty _ _ (vr_chans _ _ R)).
    rewrite insert_id by done. by destruct v.
Qed.

(** Forgetting a list of users who are all in [c]. *)
Lemma forget_users c us : forall m : gmap UserId UserVoiceState,
  (forall u uv, u ∈ us -> m !! u = Some uv -> channel uv = c) ->
  forall u, foldl (forget_user c) m us !! u = if decide (u ∈ us) then None else m !! u.
Proof using.
  clear. induction us as [|u0 us IH]; intros m Hc u; [done|]. cbn [foldl].
  assert (Hf : forall u', forget_user c m u0 !! u' = if decide (u' = u0) then None else m !! u').
  { intros u'. unfold forget_user. destruct (m !! u0) as [uv|] eqn:E.
    - rewrite bool_decide_eq_true_2 by (eapply Hc; [left|done]). rewrite lookup_delete.
      by destruct (decide (u0 = u')), (decide (u' = u0)); subst.
    - case_decide; by subst. }
  rewrite IH.
  - rewrite Hf. repeat case_decide; try done; set_solver.
  - intros u' uv Hin. rewrite Hf. case_decide; [done|]. intros Hm. eapply Hc; [by right|done].
Qed.

Lemma clear_repr c :
  list_to_set (clear_channel v c).1 =
    dom (filter (fun kv : UserId * entry => e_channel kv.2 = c) tbl) /\
  repr (clear_channel v c).2 (filter (fun kv : UserId * entry => e_channel kv.2 <> c) tbl).
Proof using R.
  unfold clear_channel. destruct (channels_ v !! c) as [ps|] eqn:Hc; simpl.
  - assert (Hin : forall u, u ∈ (map_to_list ps).*1 <-> exists x, tbl !! u = Some x /\ e_channel x = c).
    { intros u. rewrite list_elem_of_fmap.
      pose proof (chans_lookup _ _ (vr_chans _ _ R) _ _ u Hc) as Hp. split.
      - intros ([u' st] & -> & H). apply elem_of_map_to_list in H. simpl in *. rewrite H in Hp.
        destruct (tbl !! u') as [x|]; [|done]. simpl in Hp. case_decide; [|done]. by exists x.
      - intros (x & Hx & He). rewrite Hx in Hp. simpl in Hp. rewrite decide_True in Hp by done.
        exists (u, e_state x). split; [done|]. by apply elem_of_map_to_list. }
    split.
    + apply set_eq. intros u. rewrite elem_of_list_to_set, Hin, elem_of_dom. unfold is_Some.
      setoid_rewrite map_lookup_filter_Some. done.
    + split; simpl.
      * intros u. rewrite forget_users.
        2:{ intros u' uv Hu' Huv. apply Hin in Hu' as (x & Hx & He).
            rewrite vs_user, Hx in Huv. simpl in Huv. by simplify_eq. }
        case_decide as Hu; [apply Hin in Hu as (x & Hx & He)|].
        -- symmetry. apply fmap_None, map_lookup_filter_None. right. intros x' Hx'. simpl.
           rewrite Hx in Hx'. simplify_eq. naive_solver.
        -- rewrite vs_user. destruct (tbl !! u) as [x|] eqn:Hx; simpl.
           ++ assert (filter (fun kv : UserId * entry => e_channel kv.2 <> c) tbl !! u = Some x) as ->.
              { apply map_lookup_filter_Some. split; [done|]. simpl. intros He. apply Hu, Hin. eauto. }
              done.
           ++ symmetry. apply fmap_None, map_lookup_filter_None. by left.
      * apply (clear_chans _ _ (vr_chans _ _ R)).
  - apply (chans_none _ _ (vr_chans _ _ R)) in Hc. rewrite nobody_in_true in Hc. split.
    + symmetry. apply dom_empty_iff_L, map_empty. intros u. apply map_lookup_filter_None. right.
      intros x Hx. by eapply Hc.
    + assert (filter (fun kv : UserId * entry => e_channel kv.2 <> c) tbl = tbl) as ->; [|done].
      apply map_filter_id. intros u x Hx. by eapply Hc.
Qed.

Lemma step_repr o :
  (step v o).1 = (spec_step tbl o).1 /\ repr (step v o).2 (spec_step tbl o).2.
Proof using R.
  destruct o as [c u s|c u|u|u s|u b|u b|u a b|c].
  - destruct (join_repr c u s) as (v' & H & R'). cbn [step]. by rewrite H.
  - pose proof (leave_repr c u) as H. cbn [step]. by destruct (leave v c u).
  - cbn [step spec_step]. unfold leave_user. rewrite vs_user.
    destruct (tbl !! u) as [x|] eqn:Hu; [|done]. cbn.
    destruct (remove_from_repr u x Hu) as (v' & H & R'). by rewrite H.
  - cbn [step spec_step]. unfold leave_if_owner. rewrite vs_user.
    destruct (tbl !! u) as [x|] eqn:Hu; [|done]. cbn.
    destruct (remove_from_repr u x Hu) as (v' & H & R'). rewrite H.
    by destruct (e_owner x =? s)%Z.
  - cbn [step spec_step]. unfold set_muted.
    destruct (find_participant_repr u) as [[-> ->]|(x & ps & Hu & Hc & ->)]; [done|].
    rewrite Hu. destruct (Bool.eqb (muted (e_state x)) b); [done|].
    split; [done|]. by apply put_participant_repr.
  - cbn [step spec_step]. unfold set_deafened.
    destruct (find_participant_repr u) as [[-> ->]|(x & ps & Hu & Hc & ->)]; [done|].
    rewrite Hu. split; [done|]. by apply put_participant_repr.
  - cbn [step spec_step]. unfold transfer_owner_session. rewrite vs_user.
    destruct (tbl !! u) as [x|] eqn:Hu; [|done]. cbn. destruct (e_owner x =? a)%Z; [|done].
    split; [done|]. split; cbn; [|by apply chans_owner; [apply R|]].
    intros u'. rewrite !lookup_insert. case_decide; [done|apply vs_user].
  - pose proof (clear_repr c) as [H R']. cbn [step spec_step].
    destruct (clear_channel v c). simpl in *. by rewrite H.
Qed.

(** The read-only calls answer from the table. *)
Lemma queries_repr :
  (forall u, user_channel v u = e_channel <$> tbl !! u) /\
  (forall u, user_session v u = e_owner <$> tbl !! u) /\
  (forall c u st, (u, st) ∈ participants_in_channel v c <->
     exists x, tbl !! u = Some x /\ e_channel x = c /\ e_state x = st) /\
  (forall c, c ∈ active_channels v <-> exists u x, tbl !! u = Some x /\ e_channel x = c) /\
  (forall c, is_empty v c = nobody_in tbl c) /\
  active_voice_user_count v = Z.of_nat (size tbl).
Proof using R.
  split_and!.
  - intros u. unfold user_channel. rewrite vs_user. by destruct (tbl !! u).
  - intros u. unfold user_session. rewrite vs_user. by destruct (tbl !! u).
  - intros c u st. unfold participants_in_channel. pose proof (cr_part _ _ (vr_chans _ _ R) c u) as Hp.
    destruct (channels_ v !! c) as [ps|]; simpl in Hp.
    + rewrite elem_of_map_to_list, Hp. destruct (tbl !! u) as [x|]; simpl; [|naive_solver].
      case_decide; naive_solver.
    + split; [set_solver|]. intros (x & Hx & He & _). rewrite Hx in Hp. simpl in Hp.
      by rewrite decide_True in Hp.
  - intros c. unfold active_channels. rewrite list_elem_of_fmap. split.
    + intros ([c' ps] & -> & Hm). apply elem_of_map_to_list in Hm. simpl.
      pose proof (cr_nonempty _ _ (vr_chans _ _ R) _ _ Hm) as (u & st & Hu)%map_choose.
      rewrite (chans_lookup _ _ (vr_chans _ _ R) _ _ u Hm) in Hu.
      destruct (tbl !! u) as [x|] eqn:Hx; [|done]. simpl in Hu. case_decide; [|done]. eauto.
    + intros (u & x & Hx & <-). destruct (chans_row _ _ (vr_chans _ _ R) u x Hx) as (ps & Hc & _).
      exists (e_channel x, ps). split; [done|]. by apply elem_of_map_to_list.
  - intros c. unfold is_empty. pose proof (chans_none _ _ (vr_chans _ _ R) c) as Hn.
    destruct (channels_ v !! c) as [ps|] eqn:E.
    + rewrite bool_decide_eq_false_2 by by eapply (cr_nonempty _ _ (vr_chans _ _ R)).
      destruct (nobody_in tbl c); [|done]. pose proof (proj2 Hn eq_refl). discriminate.
    + symmetry. by apply Hn.
  - unfold active_voice_user_count. f_equal.
    assert (user_to_channel_ v = (fun x => mkVoice (e_channel x) (e_owner x)) <$> tbl) as ->.
    { apply map_eq. intros u. by rewrite lookup_fmap, vs_user. }
    apply map_size_fmap.
Qed.
End Refine.

Lemma create_repr : repr create ∅.
Proof.
  split; [done|]. split; [|done]. intros c u. simpl. by rewrite !lookup_empty.
Qed.

Lemma run_repr ops : forall v tbl, repr v tbl ->
  (run v ops).1 = (spec_run tbl ops).1 /\ repr (run v ops).2 (spec_run tbl ops).2.
Proof.
  induction ops as [|o ops IH]; intros v tbl R; [done|]. cbn [run spec_run].
  destruct (step_repr _ _ R o) as [Ha Rs].
  destruct (step v o) as [a v1], (spec_step tbl o) as [a' t1]. simpl in Ha, Rs. subst a'.
  destruct (IH _ _ Rs) as [Hl Rl].
  destruct (run v1 ops), (spec_run t1 ops). simpl in *. by rewrite Hl.
Qed.

(** C19: the voice session manager is one table.  From the empty manager, any
    sequence of joins, leaves, owner transfers, flag changes and channel
    clears answers exactly as a single table from users to channel, owner
    session and flags does - first-in and last-out included, stale leaves and
    leaves by a session that is not the owner ignored, flags carried over only
    by the owning session - and afterwards the channel listings, owner
    queries, emptiness tests and the user count read that table. *)
Theorem voice_sessions_refine_table (ops : list op) :
  let v := (run create ops).2 in
  let tbl := (spec_run ∅ ops).2 in
  (run create ops).1 = (spec_run ∅ ops).1 /\
  (forall u, user_channel v u = e_channel <$> tbl !! u) /\
  (forall u, user_session v u = e_owner <$> tbl !! u) /\
  (forall c u st, (u, st) ∈ participants_in_channel v c <->
     exists x, tbl !! u = Some x /\ e_channel x = c /\ e_state x = st) /\
  (forall c, c ∈ active_channels v <-> exists u x, tbl !! u = Some x /\ e_channel x = c) /\
  (forall c, is_empty v c = nobody_in tbl c) /\
  active_voice_user_count v = Z.of_nat (size tbl).
Proof.
  destruct (run_repr ops _ _ create_repr) as [Ha R]. split; [done|]. by apply queries_repr.
Qed.

End VoiceSessions.
