(* ===== verification/Evidence.v ===== *)
(** * Missing-room evidence and the reconcile scheduler

    [app/services/voice/ReconcileEvidenceTracker.{h,cpp}]: the grace-period
    state that decides when a room or participant reported missing is
    confirmed gone; and [app/services/voice/VoiceReconciler.{h,cpp}]: the
    request set and the loop that drains it.  Time points and durations are
    integers in one unit (the clock's ticks). *)

From S2P Require Import Prelude.
From S2P Require Import Ids.

Module Evidence.

(** ** Operations *)

Record ReconcileQuerySummary := mkSummary {
  configured_queries : Z; successful_queries : Z; failed_queries : Z; participant_count : Z }.

Definition all_queries_succeeded (s : ReconcileQuerySummary) : bool :=
  (0 <? configured_queries s)%Z && (successful_queries s =? configured_queries s)%Z &&
  (failed_queries s =? 0)%Z.

Definition unanimously_absent (s : ReconcileQuerySummary) : bool :=
  all_queries_succeeded s && (participant_count s =? 0)%Z.

Record ObservationResult := mkResult {
  first_observation : bool; confirmed : bool; first_reason : string }.

Record MissingObservation := mkObs { first_seen : Z; reason : string }.

Record t := mk {
  missing_ttl_ : Z;
  missing_channels_ : gmap ChannelId MissingObservation;
  missing_participants_ : gmap ChannelId (gmap UserId MissingObservation)
}.

Definition create (missing_ttl : Z) : t := mk missing_ttl ∅ ∅.

(** [try_emplace]: the entry kept under the key, and whether it is new. *)
Definition try_emplace {K} `{Countable K} (m : gmap K MissingObservation) (k : K)
  (o : MissingObservation) : MissingObservation * bool * gmap K MissingObservation :=
  match m !! k with
  | Some o' => (o', false, m)
  | None => (o, true, <[k := o]> m)
  end.

(** Erase a user's entry, and the channel's map when that empties it. *)
Definition erase_user (m : gmap ChannelId (gmap UserId MissingObservation)) (channel : ChannelId)
  (by_user : gmap UserId MissingObservation) (user : UserId)
  : gmap ChannelId (gmap UserId MissingObservation) :=
  let by_user' := delete user by_user in
  if decide (by_user' = ∅) then delete channel m else <[channel := by_user']> m.

Definition observe_channel_missing (s : t) (channel : ChannelId) (why : string) (now : Z)
  : ObservationResult * t :=
  let '(it, inserted, m) := try_emplace (missing_channels_ s) channel (mkObs now why) in
  let result := mkResult inserted
                  (negb inserted && (missing_ttl_ s <=? now - first_seen it)%Z) (reason it) in
  if confirmed result
  then (result, mk (missing_ttl_ s) (delete channel m) (delete channel (missing_participants_ s)))
  else (result, mk (missing_ttl_ s) m (missing_participants_ s)).

Definition observe_participant_missing (s : t) (channel : ChannelId) (user : UserId)
  (why : string) (now : Z) : ObservationResult * t :=
  let by_user0 := default ∅ (missing_participants_ s !! channel) in
  let '(it, inserted, by_user) := try_emplace by_user0 user (mkObs now why) in
  let result := mkResult inserted
                  (negb inserted && (missing_ttl_ s <=? now - first_seen it)%Z) (reason it) in
  if confirmed result
  then (result, mk (missing_ttl_ s) (missing_channels_ s)
                  (erase_user (missing_participants_ s) channel by_user user))
  else (result, mk (missing_ttl_ s) (missing_channels_ s)
                  (<[channel := by_user]> (missing_participants_ s))).

Definition clear_channel_missing (s : t) (channel : ChannelId) : t :=
  mk (missing_ttl_ s) (delete channel (missing_channels_ s)) (missing_participants_ s).

Definition clear_participant_missing (s : t) (channel : ChannelId) (user : UserId) : t :=
  match missing_participants_ s !! channel with
  | None => s
  | Some by_user =>
    mk (missing_ttl_ s) (missing_channels_ s)
       (erase_user (missing_participants_ s) channel by_user user)
  end.

Definition reset_channel (s : t) (channel : ChannelId) : t :=
  mk (missing_ttl_ s) (delete channel (missing_channels_ s))
     (delete channel (missing_participants_ s)).

Definition reset_all (s : t) : t := mk (missing_ttl_ s) ∅ ∅.

Definition tracked_missing_channels (s : t) : list ChannelId :=
  (map_to_list (missing_channels_ s)).*1.

(** ** Histories *)

(** What can be observed missing. *)
Inductive key := KChannel (c : ChannelId) | KParticipant (c : ChannelId) (u : UserId).

#[global] Instance key_eq_dec : EqDecision key.
Proof. solve_decision. Defined.

Definition key_channel (k : key) : ChannelId :=
  match k with KChannel c | KParticipant c _ => c end.

Inductive op :=
  | Observe (k : key) (why : string) (now : Z)
  | Clear (k : key)
  | ResetChannel (c : ChannelId)
  | ResetAll.

Definition observe (s : t) (k : key) (why : string) (now : Z) : ObservationResult * t :=
  match k with
  | KChannel c => observe_channel_missing s c why now
  | KParticipant c u => observe_participant_missing s c u why now
  end.

Definition clear (s : t) (k : key) : t :=
  match k with
  | KChannel c => clear_channel_missing s c
  | KParticipant c u => clear_participant_missing s c u
  end.

Definition step (s : t) (o : op) : option ObservationResult * t :=
  match o with
  | Observe k why now => let '(r, s') := observe s k why now in (Some r, s')
  | Clear k => (None, clear s k)
  | ResetChannel c => (None, reset_channel s c)
  | ResetAll => (None, reset_all s)
  end.

(** One entry of a history: the call and what it answered. *)
Abbreviation entry := (op * option ObservationResult)%type.

(** Histories of a tracker made by [create ttl], with the state they reach. *)
Inductive reachable (ttl : Z) : list entry -> t -> Prop :=
  | reach_nil : reachable ttl [] (create ttl)
  | reach_snoc h s o r s' :
      reachable ttl h s -> step s o = (r, s') -> reachable ttl (h ++ [(o, r)]) s'.

(** Does this entry discard the evidence kept for [k]?  A confirmation uses the
    evidence up; one of a channel takes its participants' with it. *)
Definition discards (k : key) (e : entry) : Prop :=
  match e with
  | (Observe k' _ _, Some r) =>
    confirmed r = true /\ (k' = k \/ k' = KChannel (key_channel k))
  | (Observe _ _ _, None) => False
  | (Clear k', _) => k' = k
  | (ResetChannel c, _) => c = key_channel k
  | (ResetAll, _) => True
  end.

(** [k] was first reported at [t0] for [why], and the report still stands. *)
Definition standing (h : list entry) (k : key) (t0 : Z) (why : string) : Prop :=
  exists before after,
    h = before ++ (Observe k why t0, Some (mkResult true false why)) :: after /\
    Forall (fun e => ~ discards k e) after.

(** The evidence the tracker holds for [k]. *)
Definition evidence (s : t) (k : key) : option MissingObservation :=
  match k with
  | KChannel c => missing_channels_ s !! c
  | KParticipant c u => missing_participants_ s !! c ≫= (fun m => m !! u)
  end.

(** ** Proofs *)

Lemma erase_user_lookup m c u by_user c' u' :
  m !! c = Some by_user ->
  erase_user m c by_user u !! c' ≫= (fun x => x !! u') =
  if decide (c' = c /\ u' = u) then None else m !! c' ≫= (fun x => x !! u').
Proof.
  intros Em. unfold erase_user. destruct (decide (c' = c)) as [->|Hc].
  - rewrite Em. simpl. case_decide as He.
    + rewrite lookup_delete_eq. simpl.
      destruct (decide (u' = u)) as [->|Hu]; [by rewrite decide_True|].
      rewrite decide_False by naive_solver. symmetry.
      apply (f_equal (fun m : gmap _ _ => m !! u')) in He.
      by rewrite lookup_delete_ne, lookup_empty in He by done.
    + rewrite lookup_insert_eq. simpl. rewrite lookup_delete.
      destruct (decide (u = u')), (decide (c = c /\ u' = u)); naive_solver.
  - rewrite (decide_False (P := c' = c /\ u' = u)) by naive_solver. case_decide.
    + by rewrite lookup_delete_ne.
    + by rewrite lookup_insert_ne.
Qed.

(** What an observation of [k] answers and leaves, in terms of [evidence]. *)
Definition observed (s : t) (k : key) (why : string) (now : Z) (r : ObservationResult) (s' : t)
  : Prop :=
  missing_ttl_ s' = missing_ttl_ s /\
  match evidence s k with
  | None => r = mkResult true false why /\ evidence s' k = Some (mkObs now why)
  | Some o =>
    r = mkResult false (missing_ttl_ s <=? now - first_seen o)%Z (reason o) /\
    evidence s' k = if confirmed r then None else Some o
  end /\
  (forall k', k' <> k -> evidence s' k' =
     if confirmed r && bool_decide (k = KChannel (key_channel k')) then None else evidence s k').

Lemma observe_channel_evidence s c why now r s' :
  observe s (KChannel c) why now = (r, s') -> observed s (KChannel c) why now r s'.
Proof.
  unfold observed. simpl. unfold observe_channel_missing, try_emplace.
  destruct (missing_channels_ s !! c) as [o|] eqn:E; simpl.
  - destruct (missing_ttl_ s <=? now - first_seen o)%Z eqn:Ec; intros [= <- <-]; simpl;
      (split; [done|]); (split; [split; [done|]; by rewrite ?lookup_delete_eq|]);
      intros [c'|c' u'] Hk; simpl; try done.
    + rewrite lookup_delete_ne by congruence. by rewrite bool_decide_eq_false_2 by congruence.
    + rewrite lookup_delete. destruct (decide (c = c')) as [->|Hne].
      * by rewrite bool_decide_eq_true_2.
      * by rewrite bool_decide_eq_false_2 by congruence.
  - intros [= <- <-]. simpl. split; [done|]. split; [by rewrite lookup_insert_eq|].
    intros [c'|c' u'] Hk; simpl; [|done]. by rewrite lookup_insert_ne by congruence.
Qed.

Lemma observe_participant_evidence s c u why now r s' :
  observe s (KParticipant c u) why now = (r, s') -> observed s (KParticipant c u) why now r s'.
Proof.
  unfold observed. simpl. unfold observe_participant_missing, try_emplace.
  destruct (missing_participants_ s !! c) as [m|] eqn:Em; simpl;
    [destruct (m !! u) as [o|] eqn:E; simpl|rewrite lookup_empty; simpl].
  - destruct (missing_ttl_ s <=? now - first_seen o)%Z eqn:Ec; intros [= <- <-]; simpl;
      (split; [done|]).
    + split; [split; [done|]; by rewrite erase_user_lookup, decide_True|].
      intros [c'|c' u'] Hk; simpl; [done|].
      by rewrite erase_user_lookup, decide_False by naive_solver.
    + rewrite insert_id by done. split; [split; [done|]; by rewrite Em|].
      by intros [c'|c' u'] Hk.
  - intros [= <- <-]. simpl. split; [done|].
    rewrite lookup_insert_eq. simpl. rewrite lookup_insert_eq. split; [done|].
    intros [c'|c' u'] Hk; simpl; [done|]. rewrite lookup_insert. case_decide as Hc; [|done].
    subst c'. simpl. by rewrite lookup_insert_ne, Em by congruence.
  - intros [= <- <-]. simpl. split; [done|].
    rewrite lookup_insert_eq. simpl. rewrite lookup_insert_eq. split; [done|].
    intros [c'|c' u'] Hk; simpl; [done|]. rewrite lookup_insert. case_decide as Hc; [|done].
    subst c'. simpl. by rewrite lookup_insert_ne, Em by congruence.
Qed.

Lemma observe_evidence s k why now r s' :
  observe s k why now = (r, s') -> observed s k why now r s'.
Proof.
  destruct k; [apply observe_channel_evidence|apply observe_participant_evidence].
Qed.

Lemma clear_evidence s k k' :
  evidence (clear s k) k' = if decide (k' = k) then None else evidence s k'.
Proof.
  destruct k as [c|c u]; simpl.
  - destruct k' as [c'|c' u']; simpl; [|done].
    rewrite lookup_delete. destruct (decide (c = c')), (decide (KChannel c' = KChannel c));
      naive_solver.
  - unfold clear_participant_missing. destruct (missing_participants_ s !! c) as [m|] eqn:Em.
    + destruct k' as [c'|c' u']; simpl; [done|].
      rewrite erase_user_lookup by done. repeat case_decide; naive_solver.
    + case_decide; [subst; simpl; by rewrite Em|done].
Qed.

Lemma reset_channel_evidence s c k :
  evidence (reset_channel s c) k = if decide (c = key_channel k) then None else evidence s k.
Proof.
  destruct k as [c'|c' u']; simpl; rewrite lookup_delete; by case_decide.
Qed.

Lemma reach_ttl ttl h s : reachable ttl h s -> missing_ttl_ s = ttl.
Proof.
  induction 1 as [|h s o r s' _ IH Hs]; [done|]. rewrite <- IH. clear IH.
  destruct o as [k why now|k|c|]; simpl in Hs.
  - destruct (observe s k why now) as [r' s''] eqn:E. simplify_eq.
    by apply observe_evidence in E as [? _].
  - simplify_eq. destruct k as [c|c u]; [done|]. simpl. unfold clear_participant_missing.
    by destruct (missing_participants_ s !! c).
  - by simplify_eq.
  - by simplify_eq.
Qed.

Lemma standing_snoc h k t0 why e :
  standing (h ++ [e]) k t0 why <->
  e = (Observe k why t0, Some (mkResult true false why)) \/
  standing h k t0 why /\ ~ discards k e.
Proof.
  split.
  - intros (b & a & Heq & Hf). destruct (list.last a) as [e'|] eqn:Hl.
    + apply last_Some in Hl as [a' ->]. right.
      rewrite app_comm_cons, app_assoc in Heq. apply app_inj_2 in Heq as [-> [= ->]]; [|done].
      rewrite Forall_app, Forall_singleton in Hf. destruct Hf. split; [by exists b, a'|done].
    + apply last_None in Hl as ->. apply app_inj_2 in Heq as [_ [= ->]]; [|done]. by left.
  - intros [->|[(b & a & -> & Hf) He]].
    + exists h, []. by split.
    + exists b, (a ++ [e]). rewrite <- app_assoc. split; [done|].
      rewrite Forall_app, Forall_singleton. done.
Qed.

(** The tracker holds exactly the standing reports. *)
Lemma evidence_standing ttl h s : reachable ttl h s ->
  forall k t0 why, evidence s k = Some (mkObs t0 why) <-> standing h k t0 why.
Proof.
  induction 1 as [|h s o r s' Hr IH Hs]; intros k t0 why.
  { split; [by destruct k|]. intros (b & a & Heq & _). by destruct b. }
  rewrite standing_snoc, <- IH. clear IH.
  destruct o as [k' why' now|k'|c|]; simpl in Hs.
  - destruct (observe s k' why' now) as [r' s''] eqn:E. simplify_eq.
    apply observe_evidence in E as (_ & Hk & Hother).
    destruct (decide (k = k')) as [<-|Hne].
    + destruct (evidence s k) as [[t1 w1]|] eqn:Ev.
      * destruct Hk as [-> ->]. simpl. destruct (missing_ttl_ s <=? now - t1)%Z; naive_solver.
      * destruct Hk as [-> ->]. simpl. naive_solver.
    + rewrite Hother by done. simpl. destruct (confirmed r') eqn:Ec; simpl;
        [case_bool_decide|]; naive_solver.
  - simplify_eq. rewrite clear_evidence. simpl. case_decide; naive_solver.
  - simplify_eq. rewrite reset_channel_evidence. simpl. case_decide; naive_solver.
  - simplify_eq. simpl. destruct k; simpl; rewrite ?lookup_empty; naive_solver.
Qed.

(** A missing room or participant is confirmed gone exactly when the
    grace window has passed.  In any history of the tracker, an observation
    made at [now] answers "confirmed" if and only if the same room or
    participant was first reported missing at some [t0] with
    [now - t0 >= missing_ttl], and nothing since - a clear, a reset of the
    channel or of everything, an earlier confirmation of it or of its channel
    - discarded that report; the answer then carries the reason of that first
    report.  It answers "first observation" iff no report stands. *)
Theorem evidence_confirms_exactly_after_window ttl h s k why now r s' :
  reachable ttl h s -> step s (Observe k why now) = (Some r, s') ->
  (confirmed r = true <-> exists t0 w, standing h k t0 w /\ (now - t0 >= ttl)%Z) /\
  (first_observation r = true <-> forall t0 w, ~ standing h k t0 w) /\
  (forall t0 w, standing h k t0 w -> first_reason r = w).
Proof.
  intros Hr Hs. pose proof (evidence_standing _ _ _ Hr k) as Hst. simpl in Hs.
  destruct (observe s k why now) as [r' s''] eqn:E. simplify_eq.
  apply observe_evidence in E as (_ & Hk & _). rewrite (reach_ttl _ _ _ Hr) in Hk.
  destruct (evidence s k) as [[t1 w1]|] eqn:Ev.
  - destruct Hk as [-> _]. simpl. pose proof (proj1 (Hst t1 w1) eq_refl) as H1. split_and!.
    + rewrite Z.leb_le. split; [intros; exists t1, w1; split; [done|lia]|].
      intros (t0 & w & H0 & Ht). apply Hst in H0 as [= <- <-]. lia.
    + split; [done|]. intros Hn. by apply Hn in H1.
    + intros t0 w H0. by apply Hst in H0 as [= <- <-].
  - destruct Hk as [-> _]. simpl. split_and!.
    + split; [done|]. intros (t0 & w & H0 & _). by apply Hst in H0.
    + split; [|done]. intros _ t0 w H0. by apply Hst in H0.
    + intros t0 w H0. by apply Hst in H0.
Qed.

(** Two observations of a room 60 apart, with a window of 60. *)
Lemma evidence_confirms_exactly_after_window_witness :
  let c := mkChannelId "c" in
  let s1 := (step (create 60) (Observe (KChannel c) "http" 10)).2 in
  exists r s', step s1 (Observe (KChannel c) "poll" 70) = (Some r, s') /\
  confirmed r = true /\ first_reason r = "http"%string.
Proof.
  eexists _, _. split; [vm_compute; reflexivity|].
  assert (Hr : reachable 60
    ([] ++ [(Observe (KChannel (mkChannelId "c")) "http" 10, Some (mkResult true false "http"))])
    (step (create 60) (Observe (KChannel (mkChannelId "c")) "http" 10)).2).
  { eapply reach_snoc; [apply reach_nil|reflexivity]. }
  assert (Hst : standing
    [(Observe (KChannel (mkChannelId "c")) "http" 10, Some (mkResult true false "http"))]
    (KChannel (mkChannelId "c")) 10 "http").
  { exists [], []. by split. }
  destruct (evidence_confirms_exactly_after_window 60 _ _ (KChannel (mkChannelId "c")) "poll" 70
    (mkResult false true "http") (mk 60 ∅ ∅) Hr) as (Hc & _ & Hw).
  { vm_compute. reflexivity. }
  split.
  - apply Hc. exists 10%Z, "http"%string. split; [exact Hst|lia].
  - exact (Hw _ _ Hst).
Defined.

End Evidence.

(** ** The reconcile scheduler *)

Module Reconciler.

(** Calls made on the [ReconcileTarget]; an exception it throws is logged and
    dropped, so a call has no other effect on the scheduler. *)
Inductive call := CallChannel (c : ChannelId) | CallFull (why : string).

(** Where the background thread is: not started or finished, waiting on the
    condition variable, or working through a batch it took. *)
Inductive thread := Stopped | Waiting | Batch (l : list ChannelId).

Record t := mk {
  reconcile_interval_ : Z;
  running_ : bool;
  stop_requested_ : bool;
  pending_channels_ : gset ChannelId;
  reconcile_thread_ : thread;
  next_full_run : Z
}.

Definition create (interval : Z) : t := mk interval false false ∅ Stopped 0.

Definition request (s : t) (channel : ChannelId) : t :=
  if bool_decide (channel_value channel = ""%string) then s
  else mk (reconcile_interval_ s) (running_ s) (stop_requested_ s)
          ({[channel]} ∪ pending_channels_ s) (reconcile_thread_ s) (next_full_run s).

(** [start]: [clk] is the clock when the thread begins [run_loop]. *)
Definition start (s : t) (clk : Z) : list call * t :=
  if running_ s then ([], s)
  else ([CallFull "startup"],
        mk (reconcile_interval_ s) true false (pending_channels_ s) Waiting
           (clk + reconcile_interval_ s)).

(** [stop], up to the [join]: the thread ends by its own steps. *)
Definition stop (s : t) : t :=
  if running_ s then mk (reconcile_interval_ s) false true ∅ (reconcile_thread_ s) (next_full_run s)
  else s.

Definition set_thread (s : t) (p : gset ChannelId) (th : thread) (next : Z) : t :=
  mk (reconcile_interval_ s) (running_ s) (stop_requested_ s) p th next.

(** One step of [run_loop] at clock [clk]: the wait and the critical section,
    one call of the batch, or the periodic check at the end of an iteration. *)
Definition run_loop_step (s : t) (clk : Z) : list call * t :=
  match reconcile_thread_ s with
  | Stopped => ([], s)
  | Waiting =>
    if stop_requested_ s then ([], set_thread s (pending_channels_ s) Stopped (next_full_run s))
    else if bool_decide (pending_channels_ s = ∅) && (clk <? next_full_run s)%Z then ([], s)
    else ([], set_thread s ∅ (Batch (elements (pending_channels_ s))) (next_full_run s))
  | Batch (c :: l) => ([CallChannel c], set_thread s (pending_channels_ s) (Batch l) (next_full_run s))
  | Batch [] =>
    if (next_full_run s <=? clk)%Z
    then ([CallFull "periodic"],
          set_thread s (pending_channels_ s) Waiting (clk + reconcile_interval_ s))
    else ([], set_thread s (pending_channels_ s) Waiting (next_full_run s))
  end.

(** Interleavings of callers and the thread. *)
Inductive op := Request (c : ChannelId) | Start (clk : Z) | Stop | Thread (clk : Z).

Definition step (s : t) (o : op) : list call * t :=
  match o with
  | Request c => ([], request s c)
  | Start clk => start s clk
  | Stop => ([], stop s)
  | Thread clk => run_loop_step s clk
  end.

Fixpoint run (s : t) (ops : list op) : list call * t :=
  match ops with
  | [] => ([], s)
  | o :: ops' =>
    let '(cs, s1) := step s o in let '(cs', s2) := run s1 ops' in (cs ++ cs', s2)
  end.

(** The thread has been started and not told to stop. *)
Definition active (s : t) : Prop :=
  running_ s = true /\ stop_requested_ s = false /\ reconcile_thread_ s <> Stopped.

Definition queued (s : t) (c : ChannelId) : Prop :=
  c ∈ pending_channels_ s \/ exists l, reconcile_thread_ s = Batch l /\ c ∈ l.

Definition is_stop (o : op) : bool := match o with Stop => true | _ => false end.

(** While active, a queued channel stays queued until it is called. *)
Lemma rec_step_queued s o :
  is_stop o = false -> active s ->
  active (step s o).2 /\
  forall c, queued s c -> CallChannel c ∈ (step s o).1 \/ queued (step s o).2 c.
Proof.
  intros Ho (Hr & Hs & Ht). destruct o as [c0|clk| |clk]; try done; cbn [step].
  - split; [unfold active, request; by case_bool_decide|]. intros c Hq. right.
    unfold queued, request in *. case_bool_decide; [done|]. simpl. set_solver.
  - unfold start. rewrite Hr. split; [done|]. by right.
  - unfold run_loop_step. destruct (reconcile_thread_ s) as [| |[|c0 l]] eqn:Et; [done| | |].
    + rewrite Hs. destruct (bool_decide (pending_channels_ s = ∅) && (clk <? next_full_run s)%Z).
      * split; [split_and!; [done|done|cbn; congruence]|]. by right.
      * split; [done|]. intros c [Hc|(l & Hl & _)]; [|congruence]. right. right.
        exists (elements (pending_channels_ s)). split; [done|]. by apply elem_of_elements.
    + assert (Hq : forall c n, queued s c -> queued (set_thread s (pending_channels_ s) Waiting n) c).
      { intros c n [Hc|(l & Hl & Hc)]; [by left|]. rewrite Et in Hl. simplify_eq. set_solver. }
      destruct (next_full_run s <=? clk)%Z; (split; [done|]); intros c Hc; right; by apply Hq.
    + split; [done|]. intros c [Hc|(l' & Hl & Hc)]; [by right; left|].
      rewrite Et in Hl. simplify_eq. apply elem_of_cons in Hc as [->|Hc]; [left; set_solver|].
      right. right. by exists l.
Qed.

Lemma rec_run_queued ops : forall s,
  Forall (fun o => is_stop o = false) ops -> active s ->
  active (run s ops).2 /\
  forall c, queued s c -> CallChannel c ∈ (run s ops).1 \/ queued (run s ops).2 c.
Proof.
  induction ops as [|o ops IH]; intros s Hf Ha; [split; [done|]; by right|].
  apply list.Forall_cons in Hf as [Ho Hf]. cbn [run].
  destruct (rec_step_queued s o Ho Ha) as [Ha1 Hq1]. destruct (step s o) as [cs s1]. simpl in *.
  destruct (IH s1 Hf Ha1) as [Ha2 Hq2]. destruct (run s1 ops) as [cs' s2]. simpl in *.
  split; [done|]. intros c Hc. rewrite elem_of_app.
  destruct (Hq1 c Hc) as [?|Hc1]; [by left; left|]. destruct (Hq2 c Hc1); auto.
Qed.

Lemma rec_run_app ops1 ops2 s :
  run s (ops1 ++ ops2) =
  ((run s ops1).1 ++ (run (run s ops1).2 ops2).1, (run (run s ops1).2 ops2).2).
Proof.
  revert s. induction ops1 as [|o ops1 IH]; intros s; simpl; [by destruct (run s ops2)|].
  destruct (step s o) as [cs s1]. rewrite IH. destruct (run s1 ops1) as [cs' s2]. simpl.
  by rewrite app_assoc.
Qed.

(** The thread alone works through its batch, whatever the clock reads. *)
Lemma rec_batch l : forall s clks,
  reconcile_thread_ s = Batch l -> length clks = length l ->
  (run s (Thread <$> clks)).1 = CallChannel <$> l /\
  reconcile_thread_ (run s (Thread <$> clks)).2 = Batch [] /\
  pending_channels_ (run s (Thread <$> clks)).2 = pending_channels_ s.
Proof.
  induction l as [|c l IH]; intros s [|clk clks] Ht Hlen; try done.
  simpl in Hlen. cbn [run fmap list_fmap step]. unfold run_loop_step. rewrite Ht.
  set (s1 := set_thread s _ _ _). destruct (IH s1 clks eq_refl ltac:(lia)) as (H1 & H2 & H3).
  change (list_fmap _ _ Thread clks) with (Thread <$> clks).
  destruct (run s1 (Thread <$> clks)). simpl in *. by rewrite H1.
Qed.

(** How many thread steps serve everything queued in [s]: its batch, the end
    of the iteration, the wake-up, and the requests taken then. *)
Definition steps_owed (s : t) : nat :=
  match reconcile_thread_ s with Batch l => length l + 1 | _ => 0 end +
  (1 + size (pending_channels_ s)).

Lemma rec_wait_serves s clks c :
  reconcile_thread_ s = Waiting -> active s -> c ∈ pending_channels_ s ->
  length clks = 1 + size (pending_channels_ s) ->
  CallChannel c ∈ (run s (Thread <$> clks)).1.
Proof.
  intros Ht (_ & Hs & _) Hc Hlen. destruct clks as [|clk clks]; [done|].
  cbn [run fmap list_fmap step]. unfold run_loop_step. rewrite Ht, Hs.
  rewrite bool_decide_eq_false_2 by set_solver. cbn [andb].
  set (s1 := set_thread s _ _ _).
  destruct (rec_batch (elements (pending_channels_ s)) s1 clks) as (H1 & _); [done| |].
  { simpl in Hlen. unfold size, set_size in Hlen. simpl in Hlen. lia. }
  change (list_fmap _ _ Thread clks) with (Thread <$> clks).
  destruct (run s1 (Thread <$> clks)). simpl in *. rewrite H1.
  apply list_elem_of_fmap. exists c. split; [done|]. by apply elem_of_elements.
Qed.

Lemma rec_serves s clks c :
  active s -> queued s c -> length clks = steps_owed s ->
  CallChannel c ∈ (run s (Thread <$> clks)).1.
Proof.
  intros Ha Hq Hlen. unfold steps_owed in Hlen.
  destruct (reconcile_thread_ s) as [| |l] eqn:Et; [by destruct Ha as (_ & _ & ?)| |].
  - destruct Hq as [Hc|(l & Hl & _)]; [|congruence]. by apply rec_wait_serves.
  - rewrite <- (take_drop (length l) clks), fmap_app, rec_run_app. cbn [fst].
    destruct (rec_batch l s (take (length l) clks)) as (H1 & H2 & H3); [done| |].
    { rewrite length_take. lia. }
    assert (Ha1 : active (run s (Thread <$> take (length l) clks)).2).
    { apply rec_run_queued; [|done]. by apply Forall_fmap, list.Forall_forall. }
    set (s1 := (run s (Thread <$> take (length l) clks)).2) in *. rewrite elem_of_app.
    destruct Hq as [Hc|(l' & Hl & Hc)].
    2:{ rewrite Et in Hl. simplify_eq. left. rewrite H1. apply list_elem_of_fmap. by exists c. }
    right. destruct (drop (length l) clks) as [|clk clks'] eqn:Ed.
    { apply (f_equal length) in Ed. rewrite length_drop in Ed. simpl in Ed. lia. }
    apply (f_equal length) in Ed. rewrite length_drop in Ed. simpl in Ed.
    cbn [run fmap list_fmap].
    assert (Hw : reconcile_thread_ (step s1 (Thread clk)).2 = Waiting /\
                 pending_channels_ (step s1 (Thread clk)).2 = pending_channels_ s1).
    { cbn [step]. unfold run_loop_step. rewrite H2. by destruct (next_full_run s1 <=? clk)%Z. }
    destruct (rec_step_queued s1 (Thread clk) eq_refl Ha1) as [Ha2 _].
    destruct (step s1 (Thread clk)) as [cs s2]. cbn [fst snd] in *. destruct Hw as [Hw Hp].
    change (list_fmap _ _ Thread clks') with (Thread <$> clks').
    pose proof (rec_wait_serves s2 clks' c Hw Ha2) as Hserve. rewrite Hp, H3 in Hserve.
    specialize (Hserve Hc ltac:(lia)).
    destruct (run s2 (Thread <$> clks')). simpl in *. set_solver.
Qed.

(** C40: an on-demand reconcile is never lost.  After a request for a channel
    with an id, under any interleaving of further requests, start calls and
    thread steps (no stop), the channel is reconciled by then or still queued,
    and if the thread then gets [steps_owed] steps - at any clock readings, so
    the periodic interval plays no part - it has been reconciled. *)
Theorem reconcile_request_served s c ops clks :
  active s -> channel_value c <> ""%string ->
  Forall (fun o => is_stop o = false) ops ->
  let '(calls, s') := run (request s c) ops in
  length clks = steps_owed s' ->
  CallChannel c ∈ calls ++ (run s' (Thread <$> clks)).1.
Proof.
  intros Ha Hc Hf. destruct (rec_step_queued s (Request c) eq_refl Ha) as [Ha1 _]. cbn in Ha1.
  destruct (rec_run_queued ops (request s c) Hf Ha1) as [Ha2 Hq].
  destruct (run (request s c) ops) as [calls s']. simpl in *. intros Hlen.
  rewrite elem_of_app. destruct (Hq c) as [?|Hq']; [|by left|right; by apply rec_serves].
  left. unfold request. rewrite bool_decide_eq_false_2 by done. simpl. set_solver.
Qed.

(** A request that arrives while the thread is in the middle of a batch. *)
Lemma reconcile_request_served_witness :
  let a := mkChannelId "a" in
  let b := mkChannelId "b" in
  let s := mk 60 true false ∅ (Batch [a]) 100 in
  CallChannel b ∈ ([] : list call) ++
    (run (request s b) (Thread <$> [1; 2; 3; 4]%Z)).1.
Proof.
  intros a b s. pose proof (reconcile_request_served s b [] [1; 2; 3; 4]%Z) as H.
  cbn [run] in H. apply H.
  - by split_and!.
  - discriminate.
  - constructor.
  - vm_compute. reflexivity.
Defined.

End Reconciler.
