(* ===== verification/NodeRegistry.v ===== *)
(** * LiveKit node registry

    [livekit/routing/LivekitNodeRegistry.{h,cpp}]: the media nodes, which room
    is bound to which node, which rooms are counted on a node, and the two
    node choices (least loaded, round robin).  A load score is a [double]
    [users + rooms * 0.25]; it is kept in quarters, which is exact for the
    doubles involved as long as the counters stay below [2^51]. *)

From S2P Require Import Prelude.
From S2P Require Import Ids.

Module NodeRegistry.

(** ** Operations *)

Record LivekitNode := mkNode {
  node_id : string; public_host : string; private_host : string;
  active_rooms : Z; active_users : Z;
  load_score : Z  (* quarters *)
}.

Definition update_load (n : LivekitNode) : LivekitNode :=
  mkNode (node_id n) (public_host n) (private_host n) (active_rooms n) (active_users n)
    (4 * active_users n + active_rooms n).

Definition set_rooms (n : LivekitNode) (r : Z) : LivekitNode :=
  mkNode (node_id n) (public_host n) (private_host n) r (active_users n) (load_score n).
Definition set_users (n : LivekitNode) (u : Z) : LivekitNode :=
  mkNode (node_id n) (public_host n) (private_host n) (active_rooms n) u (load_score n).

(** [if (node.active_rooms > 0) node.active_rooms--; node.update_load();] *)
Definition dec_rooms (n : LivekitNode) : LivekitNode :=
  update_load (if (0 <? active_rooms n)%Z then set_rooms n (active_rooms n - 1) else n).
(** [node.active_rooms++; node.update_load();] *)
Definition inc_rooms (n : LivekitNode) : LivekitNode :=
  update_load (set_rooms n (wrap64 (active_rooms n + 1))).

Record t := mk {
  nodes_ : gmap string LivekitNode;
  node_order_ : list string;
  room_to_node_ : gmap ChannelId string;
  counted_room_to_node_ : gmap ChannelId string;
  round_robin_cursor_ : Z
}.

Definition create : t := mk ∅ [] ∅ ∅ 0.

(** [None]: the call throws. *)
Definition register_node (s : t) (node : LivekitNode) : option t :=
  match nodes_ s !! node_id node with
  | Some _ => None
  | None => Some (mk (<[node_id node := node]> (nodes_ s)) (node_order_ s ++ [node_id node])
                    (room_to_node_ s) (counted_room_to_node_ s) (round_robin_cursor_ s))
  end.

Definition get_node (s : t) (id : string) : option LivekitNode := nodes_ s !! id.

Definition get_room_node (s : t) (room : ChannelId) : option LivekitNode :=
  match room_to_node_ s !! room with None => None | Some id => nodes_ s !! id end.

Definition bind_room (s : t) (room : ChannelId) (id : string) : t :=
  match nodes_ s !! id with
  | None => s
  | Some _ =>
    if bool_decide (room_to_node_ s !! room = Some id) then s
    else
      let '(nodes, counted) :=
        match counted_room_to_node_ s !! room with
        | Some old =>
          if negb (bool_decide (old = id))
          then (alter inc_rooms id (alter dec_rooms old (nodes_ s)),
                <[room := id]> (counted_room_to_node_ s))
          else (nodes_ s, counted_room_to_node_ s)
        | None => (nodes_ s, counted_room_to_node_ s)
        end in
      mk nodes (node_order_ s) (<[room := id]> (room_to_node_ s)) counted (round_robin_cursor_ s)
  end.

(** Take a room off the node it is counted on. *)
Definition uncount (s : t) (room : ChannelId) : gmap string LivekitNode :=
  match counted_room_to_node_ s !! room with
  | Some old => alter dec_rooms old (nodes_ s)
  | None => nodes_ s
  end.

Definition clear_room (s : t) (room : ChannelId) : t :=
  mk (uncount s room) (node_order_ s) (delete room (room_to_node_ s))
     (delete room (counted_room_to_node_ s)) (round_robin_cursor_ s).

Definition increment_room (s : t) (room : ChannelId) (id : string) : t :=
  match nodes_ s !! id with
  | None => s
  | Some _ =>
    if bool_decide (counted_room_to_node_ s !! room = Some id) then s
    else mk (alter inc_rooms id (uncount s room)) (node_order_ s)
            (<[room := id]> (room_to_node_ s)) (<[room := id]> (counted_room_to_node_ s))
            (round_robin_cursor_ s)
  end.

Definition decrement_room (s : t) (room : ChannelId) : t :=
  mk (uncount s room) (node_order_ s) (room_to_node_ s)
     (delete room (counted_room_to_node_ s)) (round_robin_cursor_ s).

Definition with_nodes (s : t) (nodes : gmap string LivekitNode) : t :=
  mk nodes (node_order_ s) (room_to_node_ s) (counted_room_to_node_ s) (round_robin_cursor_ s).

Definition increment_user (s : t) (id : string) : t :=
  with_nodes s (alter (fun n => update_load (set_users n (wrap64 (active_users n + 1)))) id
                  (nodes_ s)).

Definition decrement_user (s : t) (id : string) : t :=
  with_nodes s (alter (fun n => update_load
    (if (0 <? active_users n)%Z then set_users n (active_users n - 1) else n)) id (nodes_ s)).

(** The scan of [pick_node]: the first node, then any strictly less loaded. *)
Fixpoint pick_scan (nodes : gmap string LivekitNode) (order : list string)
  (best : option LivekitNode) : option LivekitNode :=
  match order with
  | [] => best
  | id :: order' =>
    match nodes !! id with
    | None => pick_scan nodes order' best
    | Some n =>
      let best' := match best with
                   | None => Some n
                   | Some b => if (load_score n <? load_score b)%Z then Some n else Some b
                   end in
      pick_scan nodes order' best'
    end
  end.

Definition pick_node (s : t) : option LivekitNode := pick_scan (nodes_ s) (node_order_ s) None.

(** The attempts of [any_node]. *)
Fixpoint any_attempts (s : t) (attempts : nat) (cursor : Z) : option LivekitNode * Z :=
  match attempts with
  | O => (None, cursor)
  | S k =>
    let i := Z.to_nat (cursor `mod` Z.of_nat (length (node_order_ s)))%Z in
    let cursor' := wrap64 (cursor + 1) in
    match node_order_ s !! i ≫= (fun id => nodes_ s !! id) with
    | Some n => (Some n, cursor')
    | None => any_attempts s k cursor'
    end
  end.

Definition any_node (s : t) : option LivekitNode * t :=
  match node_order_ s with
  | [] => (None, s)
  | _ =>
    let '(r, c) := any_attempts s (length (node_order_ s)) (round_robin_cursor_ s) in
    (r, mk (nodes_ s) (node_order_ s) (room_to_node_ s) (counted_room_to_node_ s) c)
  end.

Definition list_nodes (s : t) : list LivekitNode :=
  omap (fun id => nodes_ s !! id) (node_order_ s).

(** ** Sequences of calls *)

Inductive op :=
  | Register (id pub priv : string)
  | Bind (room : ChannelId) (id : string)
  | ClearRoom (room : ChannelId)
  | IncRoom (room : ChannelId) (id : string)
  | DecRoom (room : ChannelId)
  | IncUser (id : string)
  | DecUser (id : string)
  | AnyNode.

(** A registration that throws leaves the registry as it was. *)
Definition step (s : t) (o : op) : t :=
  match o with
  | Register id pub priv => default s (register_node s (mkNode id pub priv 0 0 0))
  | Bind r id => bind_room s r id
  | ClearRoom r => clear_room s r
  | IncRoom r id => increment_room s r id
  | DecRoom r => decrement_room s r
  | IncUser id => increment_user s id
  | DecUser id => decrement_user s id
  | AnyNode => (any_node s).2
  end.

Definition run (s : t) (ops : list op) : t := foldl step s ops.

(** The rooms counted on a node. *)
Definition rooms_on (counted : gmap ChannelId string) (id : string) : nat :=
  size (filter (fun kv : ChannelId * string => kv.2 = id) counted).

(** What the counted rooms should be, without counters: a started room counts
    for the node it is (re)bound to, until it is finished or cleared. *)
Record Spec := mkSpec { sp_nodes : gset string; sp_bound : gmap ChannelId string;
                        sp_counted : gmap ChannelId string }.

Definition spec_step (a : Spec) (o : op) : Spec :=
  match o with
  | Register id _ _ => mkSpec ({[id]} ∪ sp_nodes a) (sp_bound a) (sp_counted a)
  | Bind r id =>
    if decide (id ∈ sp_nodes a /\ sp_bound a !! r <> Some id)
    then mkSpec (sp_nodes a) (<[r := id]> (sp_bound a)) (alter (fun _ => id) r (sp_counted a))
    else a
  | ClearRoom r => mkSpec (sp_nodes a) (delete r (sp_bound a)) (delete r (sp_counted a))
  | IncRoom r id =>
    if decide (id ∈ sp_nodes a /\ sp_counted a !! r <> Some id)
    then mkSpec (sp_nodes a) (<[r := id]> (sp_bound a)) (<[r := id]> (sp_counted a))
    else a
  | DecRoom r => mkSpec (sp_nodes a) (sp_bound a) (delete r (sp_counted a))
  | IncUser _ | DecUser _ | AnyNode => a
  end.

Definition spec_run (a : Spec) (ops : list op) : Spec := foldl spec_step a ops.

(** ** Counting rooms *)

Lemma rooms_on_insert m r n id : m !! r = None ->
  rooms_on (<[r := n]> m) id = rooms_on m id + (if decide (n = id) then 1 else 0).
Proof.
  intros Hr. unfold rooms_on. rewrite map_filter_insert. simpl. case_decide.
  - rewrite map_size_insert_None; [lia|]. apply map_lookup_filter_None. by left.
  - rewrite delete_id by done. lia.
Qed.

Lemma rooms_on_delete m r n id : m !! r = Some n ->
  rooms_on m id = rooms_on (delete r m) id + (if decide (n = id) then 1 else 0).
Proof.
  intros Hr. rewrite <- (insert_delete_id m r n Hr) at 1.
  apply rooms_on_insert, lookup_delete_eq.
Qed.

Lemma rooms_on_size m id : rooms_on m id <= size m.
Proof. unfold rooms_on. apply map_size_filter. Qed.

(** A node's room counter is the number of rooms counted on it, and its score
    is up to date. *)
Definition counters_ok (nodes : gmap string LivekitNode) (counted : gmap ChannelId string) : Prop :=
  forall id n, nodes !! id = Some n ->
    node_id n = id /\ active_rooms n = Z.of_nat (rooms_on counted id) /\
    (0 <= active_users n)%Z /\ load_score n = (4 * active_users n + active_rooms n)%Z.

Lemma counters_dec nodes counted r old :
  counters_ok nodes counted -> counted !! r = Some old ->
  counters_ok (alter dec_rooms old nodes) (delete r counted).
Proof.
  intros H Hr id n Hn. pose proof (rooms_on_delete counted r old id Hr) as Hc.
  apply lookup_alter_Some in Hn as [(<- & n0 & Hn0 & ->)|[Hne Hn]].
  - rewrite decide_True in Hc by done. destruct (H _ _ Hn0) as (H1 & H2 & H3 & H4).
    unfold dec_rooms. destruct (Z.ltb_spec 0 (active_rooms n0)); simpl; [|lia].
    split_and!; [done|lia|done|done].
  - rewrite decide_False in Hc by done. destruct (H _ _ Hn) as (H1 & H2 & H3 & H4).
    split_and!; [done|lia|done|done].
Qed.

Lemma counters_inc nodes counted r id :
  counters_ok nodes counted -> counted !! r = None ->
  (Z.of_nat (size counted) + 1 < two64)%Z ->
  counters_ok (alter inc_rooms id nodes) (<[r := id]> counted).
Proof.
  intros H Hr Hsz id' n Hn. pose proof (rooms_on_insert counted r id id' Hr) as Hc.
  pose proof (rooms_on_size counted id') as Hle.
  apply lookup_alter_Some in Hn as [(<- & n0 & Hn0 & ->)|[Hne Hn]].
  - rewrite decide_True in Hc by done. destruct (H _ _ Hn0) as (H1 & H2 & H3 & H4).
    simpl. rewrite wrap64_small by lia. split_and!; [done|lia|done|done].
  - rewrite decide_False in Hc by done. destruct (H _ _ Hn) as (H1 & H2 & H3 & H4).
    split_and!; [done|lia|done|done].
Qed.

(** Taking a room off its node, counted or not. *)
Lemma counters_uncount s r :
  counters_ok (nodes_ s) (counted_room_to_node_ s) ->
  counters_ok (uncount s r) (delete r (counted_room_to_node_ s)).
Proof.
  intros H. unfold uncount. destruct (counted_room_to_node_ s !! r) as [old|] eqn:E.
  - by apply counters_dec.
  - by rewrite delete_id.
Qed.

Lemma uncount_dom s r : dom (uncount s r) = dom (nodes_ s).
Proof. unfold uncount. destruct (counted_room_to_node_ s !! r); [apply dom_alter_L|done]. Qed.

(** ** Refinement *)

Record ok (s : t) (a : Spec) (k : nat) : Prop := mk_ok {
  ok_nodes : dom (nodes_ s) = sp_nodes a;
  ok_bound : room_to_node_ s = sp_bound a;
  ok_counted : counted_room_to_node_ s = sp_counted a;
  ok_counters : counters_ok (nodes_ s) (counted_room_to_node_ s);
  ok_order : NoDup (node_order_ s) /\ forall id, id ∈ node_order_ s <-> id ∈ dom (nodes_ s);
  ok_refs : forall r id, room_to_node_ s !! r = Some id \/ counted_room_to_node_ s !! r = Some id ->
    id ∈ dom (nodes_ s);
  ok_size : size (counted_room_to_node_ s) <= k
}.

Lemma size_insert_le (m : gmap ChannelId string) r id : size (<[r := id]> m) <= S (size m).
Proof.
  destruct (m !! r) eqn:E; [rewrite map_size_insert_Some by eauto|rewrite map_size_insert_None by done];
    lia.
Qed.

Lemma size_delete_le (m : gmap ChannelId string) r : size (delete r m) <= size m.
Proof. rewrite map_size_delete. destruct (m !! r); simpl; lia. Qed.

Lemma register_ok s a k id pub priv :
  ok s a k -> ok (step s (Register id pub priv)) (spec_step a (Register id pub priv)) (S k).
Proof.
  intros [H1 H2 H3 H4 [H5 H6] H7 H8]. cbn [step spec_step]. unfold register_node. simpl.
  destruct (nodes_ s !! id) as [n|] eqn:E; simpl.
  - assert (id ∈ sp_nodes a) by (rewrite <- H1; by apply elem_of_dom).
    split; simpl; try done; [|lia]. rewrite H1. set_solver.
  - assert (Hnew : id ∉ dom (nodes_ s)) by by apply not_elem_of_dom.
    assert (Hz : rooms_on (counted_room_to_node_ s) id = 0).
    { unfold rooms_on. apply map_size_empty_iff, map_empty. intros r.
      apply map_lookup_filter_None. right. intros id' Hr Hid. simpl in Hid. subst id'.
      apply Hnew. apply (H7 r). by right. }
    split; simpl; try done.
    + rewrite dom_insert_L, H1. done.
    + intros id' n [[<- <-]|[_ Hn]]%lookup_insert_Some; [|by apply H4].
      simpl. rewrite Hz. done.
    + split.
      * apply list.NoDup_app. split_and!; [done| |apply NoDup_singleton].
        intros x Hx ->%list_elem_of_singleton. by apply Hnew, H6.
      * intros id'. rewrite elem_of_app, list_elem_of_singleton, H6, dom_insert. set_solver.
    + intros r id' Hr. rewrite dom_insert. apply elem_of_union_r. by eapply H7.
    + lia.
Qed.

Lemma bind_ok s a k r id :
  ok s a k -> (Z.of_nat k + 1 < two64)%Z ->
  ok (step s (Bind r id)) (spec_step a (Bind r id)) (S k).
Proof.
  intros [H1 H2 H3 H4 H5 H7 H8] Hk. cbn [step spec_step]. unfold bind_room.
  destruct (nodes_ s !! id) as [n|] eqn:E.
  2:{ rewrite decide_False; [split; try done; lia|]. rewrite <- H1, elem_of_dom, E. by intros [[? ?] ?]. }
  assert (Hid : id ∈ dom (nodes_ s)) by by apply elem_of_dom.
  case_bool_decide as Hb.
  { rewrite decide_False by (rewrite <- H2; naive_solver). split; try done; lia. }
  rewrite decide_True by (rewrite <- H1, <- H2; done).
  destruct (counted_room_to_node_ s !! r) as [old|] eqn:Ec.
  - case_bool_decide as Ho; simpl.
    + subst old. split; simpl; try done.
      * by rewrite H2.
      * rewrite <- H3. symmetry. apply map_eq. intros r'. rewrite lookup_alter.
        case_decide; [subst; by rewrite Ec|done].
      * intros r' id'. rewrite lookup_insert. case_decide; naive_solver.
      * lia.
    + assert (Hi : <[r := id]> (counted_room_to_node_ s) =
                   <[r := id]> (delete r (counted_room_to_node_ s))) by by rewrite insert_delete_eq.
      split; simpl.
      * by rewrite !dom_alter_L.
      * by rewrite H2.
      * rewrite <- H3. apply map_eq. intros r'. rewrite lookup_alter, lookup_insert.
        case_decide; [subst; by rewrite Ec|done].
      * rewrite Hi. apply counters_inc; [by apply counters_dec|apply lookup_delete_eq|].
        pose proof (size_delete_le (counted_room_to_node_ s) r). lia.
      * by rewrite !dom_alter_L.
      * intros r' id'. rewrite !dom_alter_L, !lookup_insert. case_decide; naive_solver.
      * rewrite map_size_insert_Some by eauto. lia.
  - split; simpl; try done.
    + by rewrite H2.
    + rewrite <- H3. symmetry. apply map_eq. intros r'. rewrite lookup_alter.
      case_decide; [subst; by rewrite Ec|done].
    + intros r' id'. rewrite lookup_insert. case_decide; naive_solver.
    + lia.
Qed.

Lemma uncount_ok s a k r :
  ok s a k ->
  ok (step s (ClearRoom r)) (spec_step a (ClearRoom r)) (S k) /\
  ok (step s (DecRoom r)) (spec_step a (DecRoom r)) (S k).
Proof.
  intros [H1 H2 H3 H4 H5 H7 H8]. pose proof (size_delete_le (counted_room_to_node_ s) r).
  split; split; simpl; rewrite ?uncount_dom, ?H2, ?H3; try done.
  all: rewrite <- ?H3, <- ?H2 in *.
  all: try (by apply counters_uncount).
  all: try (intros r' id'; rewrite !lookup_delete_Some; naive_solver).
  all: rewrite <- ?H3; try lia.
Qed.

Lemma inc_ok s a k r id :
  ok s a k -> (Z.of_nat k + 1 < two64)%Z ->
  ok (step s (IncRoom r id)) (spec_step a (IncRoom r id)) (S k).
Proof.
  intros [H1 H2 H3 H4 H5 H7 H8] Hk. cbn [step spec_step]. unfold increment_room.
  destruct (nodes_ s !! id) as [n|] eqn:E.
  2:{ rewrite decide_False; [split; try done; lia|]. rewrite <- H1, elem_of_dom, E. by intros [[? ?] ?]. }
  assert (Hid : id ∈ dom (nodes_ s)) by by apply elem_of_dom.
  case_bool_decide as Hb.
  { rewrite decide_False by (rewrite <- H3; naive_solver). split; try done; lia. }
  rewrite decide_True by (rewrite <- H1, <- H3; done).
  split; simpl; rewrite ?dom_alter_L, ?uncount_dom, ?H2, ?H3; try done.
  - rewrite <- H3, <- insert_delete_eq.
    apply counters_inc; [by apply counters_uncount|apply lookup_delete_eq|].
    pose proof (size_delete_le (counted_room_to_node_ s) r). lia.
  - rewrite <- H2, <- H3. intros r' id'. rewrite !lookup_insert. case_decide; naive_solver.
  - pose proof (size_insert_le (counted_room_to_node_ s) r id). rewrite <- H3. lia.
Qed.

Lemma user_ok s a k f id :
  ok s a k ->
  (forall n, (0 <= active_users n)%Z -> node_id (f n) = node_id n /\
     active_rooms (f n) = active_rooms n /\ (0 <= active_users (f n))%Z /\
     load_score (f n) = (4 * active_users (f n) + active_rooms (f n))%Z) ->
  ok (with_nodes s (alter f id (nodes_ s))) a (S k).
Proof.
  intros [H1 H2 H3 H4 H5 H7 H8] Hf. split; simpl; rewrite ?dom_alter_L; try done; [|lia].
  intros id' n [(<- & n0 & Hn0 & ->)|[Hne Hn]]%lookup_alter_Some; [|by apply H4].
  destruct (H4 _ _ Hn0) as (Ha & Hb & Hc & Hd). destruct (Hf n0 Hc) as (-> & Hr & Hu & Hl).
  rewrite Hl, Hr. split_and!; done.
Qed.

Lemma step_ok s a k o :
  ok s a k -> (Z.of_nat k + 1 < two64)%Z -> ok (step s o) (spec_step a o) (S k).
Proof.
  intros H Hk. destruct o as [id p q|r id|r|r id|r|id|id|].
  - by apply register_ok.
  - by apply bind_ok.
  - by apply uncount_ok.
  - by apply inc_ok.
  - by apply uncount_ok.
  - apply user_ok; [done|]. intros n Hn. simpl. pose proof (wrap64_range (active_users n + 1)).
    split_and!; try done; lia.
  - apply user_ok; [done|]. intros n Hn. destruct (Z.ltb_spec 0 (active_users n)); simpl;
      split_and!; try done; lia.
  - destruct H as [H1 H2 H3 H4 H5 H7 H8]. cbn [step spec_step]. unfold any_node.
    destruct (node_order_ s) eqn:Eo; [split; simpl; [done|done|done|done|by rewrite Eo|done|lia]|].
    destruct (any_attempts s _ _). split; simpl; [done|done|done|done|done|done|lia].
Qed.

Lemma run_ok ops : forall s a k,
  ok s a k -> (Z.of_nat (k + length ops) < two64)%Z ->
  ok (run s ops) (spec_run a ops) (k + length ops).
Proof.
  induction ops as [|o ops IH]; intros s a k H Hk; simpl in *.
  - by rewrite Nat.add_0_r.
  - replace (k + S (length ops)) with (S k + length ops) in * by lia.
    apply IH; [|lia]. apply step_ok; [done|lia].
Qed.

Lemma create_ok : ok create (mkSpec ∅ ∅ ∅) 0.
Proof.
  split; simpl; [by rewrite dom_empty_L|done|done|done| | |done].
  - rewrite dom_empty_L. split; [constructor|set_solver].
  - intros r id [H|H]; by rewrite lookup_empty in H.
Qed.

(** ** Node choice *)

Lemma pick_scan_spec nodes order : forall best,
  match pick_scan nodes order best with
  | None => best = None /\ forall id, id ∈ order -> nodes !! id = None
  | Some b =>
    (best = Some b \/ exists i id, order !! i = Some id /\ nodes !! id = Some b /\
       (forall j id' n, j < i -> order !! j = Some id' -> nodes !! id' = Some n ->
          (load_score b < load_score n)%Z) /\
       (forall b0, best = Some b0 -> (load_score b < load_score b0)%Z)) /\
    (forall b0, best = Some b0 -> (load_score b <= load_score b0)%Z) /\
    (forall id n, id ∈ order -> nodes !! id = Some n -> (load_score b <= load_score n)%Z)
  end.
Proof.
  induction order as [|id order IH]; intros best; simpl.
  { destruct best as [b|]; [|split; [done|set_solver]].
    split_and!; [by left|intros ? [= ->]; lia|set_solver]. }
  destruct (nodes !! id) as [n|] eqn:En.
  - set (best' := match best with Some _ => _ | None => _ end).
    specialize (IH best'). destruct (pick_scan nodes order best') as [b|].
    2:{ destruct IH as [IH _]. subst best'. destruct best as [b0|]; [|done].
        by destruct (load_score n <? load_score b0)%Z. }
    destruct IH as (H1 & H2 & H3).
    assert (Hn : (load_score b <= load_score n)%Z /\
                 forall b0, best = Some b0 -> (load_score b <= load_score b0)%Z).
    { subst best'. destruct best as [b0|]; [|split; [by apply H2|done]].
      destruct (Z.ltb_spec (load_score n) (load_score b0)); specialize (H2 _ eq_refl);
        (split; [lia|]); intros ? [= <-]; lia. }
    split_and!; [|apply Hn|set_solver].
    destruct H1 as [H1|(i & id' & Hi & Hb & Hlt & Hb')].
    + subst best'. destruct best as [b0|].
      * destruct (Z.ltb_spec (load_score n) (load_score b0)); [|by left]. right.
        exists 0, id. simplify_eq. split_and!; [done|done|intros; lia|]. intros ? [= <-]. lia.
      * right. exists 0, id. simplify_eq. split_and!; [done|done|intros; lia|done].
    + right. exists (S i), id'. split_and!; [done|done| |].
      * intros [|j] id'' n' Hj Hid'' Hn'; simpl in *; [|by eapply (Hlt j); [lia| |]].
        assert (n' = n) as -> by congruence. subst best'. destruct best as [b0|]; [|by apply Hb'].
        destruct (Z.ltb_spec (load_score n) (load_score b0)); specialize (Hb' _ eq_refl); lia.
      * intros b0 ->. subst best'. simpl in Hb'.
        destruct (Z.ltb_spec (load_score n) (load_score b0)); specialize (Hb' _ eq_refl); lia.
  - specialize (IH best). destruct (pick_scan nodes order best) as [b|].
    + destruct IH as (H1 & H2 & H3). split_and!; [|done|].
      * destruct H1 as [->|(i & id' & Hi & Hb & Hlt & Hb')]; [by left|]. right.
        exists (S i), id'. split_and!; [done|done| |done].
        intros [|j] id'' n' Hj Hid'' Hn'; simpl in *; [congruence|by eapply (Hlt j); [lia| |]].
      * intros id' n [->|Hin]%elem_of_cons Hn; [congruence|by eapply H3].
    + destruct IH as [-> IH]. split; [done|]. intros id' [->|?]%elem_of_cons; [done|by apply IH].
Qed.

(** Node counters and node choice.  After any sequence of registry calls
    from the empty registry (fewer than [2^64] of them), the bindings and the
    counted rooms are those of the reference bookkeeping [spec_step]; every
    node's room counter is exactly the number of rooms counted on it and its
    load score is [users + rooms / 4]; and [pick_node] answers a least loaded
    node, the earliest registered among equals, or nothing only when no node
    is registered. *)
Theorem node_registry_counts_rooms (ops : list op) :
  (Z.of_nat (length ops) < two64)%Z ->
  let s := run create ops in
  let a := spec_run (mkSpec ∅ ∅ ∅) ops in
  room_to_node_ s = sp_bound a /\ counted_room_to_node_ s = sp_counted a /\
  dom (nodes_ s) = sp_nodes a /\
  (forall id n, get_node s id = Some n ->
     active_rooms n = Z.of_nat (rooms_on (sp_counted a) id) /\
     load_score n = (4 * active_users n + active_rooms n)%Z) /\
  match pick_node s with
  | None => sp_nodes a = ∅
  | Some b =>
    exists i, node_order_ s !! i = Some (node_id b) /\ get_node s (node_id b) = Some b /\
    forall j id n, node_order_ s !! j = Some id -> get_node s id = Some n ->
      (load_score b <= load_score n)%Z /\ (j < i -> (load_score b < load_score n)%Z)
  end.
Proof.
  intros Hk s a. destruct (run_ok ops _ _ _ create_ok Hk) as [H1 H2 H3 H4 [H5 H6] H7 H8].
  fold s a in H1, H2, H3, H4, H5, H6, H7, H8. split_and!; try done.
  - intros id n Hn. destruct (H4 _ _ Hn) as (_ & Hr & _ & Hl). by rewrite <- H3.
  - unfold pick_node. pose proof (pick_scan_spec (nodes_ s) (node_order_ s) None) as Hp.
    destruct (pick_scan _ _ _) as [b|].
    + destruct Hp as ([?|(i & id & Hi & Hb & Hlt & _)] & _ & Hle); [done|].
      destruct (H4 _ _ Hb) as (Hid & _). rewrite Hid. exists i. split_and!; [done|done|].
      intros j id' n Hj Hn. split; [eapply Hle; [by eapply list_elem_of_lookup_2|done]|].
      intros Hji. by eapply Hlt.
    + destruct Hp as [_ Hp]. rewrite <- H1. apply dom_empty_iff_L, map_empty. intros id.
      destruct (nodes_ s !! id) eqn:E; [|done].
      assert (id ∈ node_order_ s) by (apply H6, elem_of_dom; eauto). by rewrite Hp in E.
Qed.

(** Two nodes, a room started on the first and moved to the second. *)
Lemma node_registry_counts_rooms_witness :
  let r := mkChannelId "r" in
  let ops := [Register "a" "" ""; Register "b" "" ""; IncRoom r "a"; Bind r "b"; IncUser "a"] in
  (Z.of_nat (length ops) < two64)%Z /\
  active_rooms <$> get_node (run create ops) "b" = Some 1%Z /\
  exists n, get_node (run create ops) "b" = Some n /\
    active_rooms n = Z.of_nat (rooms_on (sp_counted (spec_run (mkSpec ∅ ∅ ∅) ops)) "b").
Proof.
  intros r ops. assert (H : (Z.of_nat (length ops) < two64)%Z) by (vm_compute; reflexivity).
  pose proof (node_registry_counts_rooms ops H) as (_ & _ & _ & Hc & _).
  split; [done|]. split; [vm_compute; reflexivity|].
  destruct (get_node (run create ops) "b") as [n|] eqn:E.
  - exists n. split; [done|]. by apply Hc.
  - vm_compute in E. discriminate.
Defined.

(** *** Round robin *)

(** The answers of [k] successive calls of [any_node]. *)
Fixpoint any_nodes (s : t) (k : nat) : list (option LivekitNode) :=
  match k with
  | O => []
  | S k' => let '(r, s') := any_node s in r :: any_nodes s' k'
  end.

Lemma omap_total {A B} (f : A -> option B) (l : list A) i :
  (forall x, x ∈ l -> is_Some (f x)) -> omap f l !! i = l !! i ≫= f.
Proof.
  revert i. induction l as [|x l IH]; intros i H; [done|].
  destruct (H x ltac:(left)) as [y Hy]. simpl. rewrite Hy.
  destruct i as [|i]; simpl; [done|]. apply IH. intros x' Hx'. apply H. by right.
Qed.

Lemma list_nodes_lookup s a k i :
  ok s a k -> list_nodes s !! i = node_order_ s !! i ≫= (fun id => nodes_ s !! id).
Proof.
  intros H. apply omap_total. intros id Hid. by apply elem_of_dom, (ok_order _ _ _ H).
Qed.

Lemma list_nodes_length s a k : ok s a k -> length (list_nodes s) = length (node_order_ s).
Proof.
  intros H. unfold list_nodes. assert (Hin : forall id, id ∈ node_order_ s -> is_Some (nodes_ s !! id)).
  { intros id Hid. by apply elem_of_dom, (ok_order _ _ _ H). }
  revert Hin. clear. induction (node_order_ s) as [|id l IH]; intros H; [done|]. simpl.
  destruct (H id ltac:(left)) as [n Hn]. rewrite Hn. simpl. f_equal. apply IH.
  intros id' Hid'. apply H. by right.
Qed.

(** The first attempt of [any_node] succeeds. *)
Lemma any_node_ok s a k :
  ok s a k -> node_order_ s <> [] ->
  any_node s =
  (list_nodes s !! Z.to_nat (round_robin_cursor_ s `mod` Z.of_nat (length (node_order_ s)))%Z,
   mk (nodes_ s) (node_order_ s) (room_to_node_ s) (counted_room_to_node_ s)
      (wrap64 (round_robin_cursor_ s + 1))).
Proof.
  intros H Hne. unfold any_node.
  assert (Hlen : 0 < length (node_order_ s)) by (destruct (node_order_ s); [done|simpl; lia]).
  set (i := Z.to_nat (round_robin_cursor_ s `mod` Z.of_nat (length (node_order_ s)))%Z).
  assert (Hi : i < length (list_nodes s)).
  { rewrite (list_nodes_length _ _ _ H). subst i.
    pose proof (Z.mod_pos_bound (round_robin_cursor_ s) (Z.of_nat (length (node_order_ s)))). lia. }
  apply lookup_lt_is_Some in Hi as [n Hn]. rewrite Hn. rewrite (list_nodes_lookup _ _ _ _ H) in Hn.
  destruct (length (node_order_ s)) as [|k'] eqn:Ek; [lia|]. cbn [any_attempts]. rewrite Ek. fold i.
  rewrite Hn. by destruct (node_order_ s).
Qed.

Lemma any_nodes_lookup k' : forall s a k i,
  ok s a k -> node_order_ s <> [] -> i < k' ->
  (0 <= round_robin_cursor_ s)%Z -> (round_robin_cursor_ s + Z.of_nat k' < two64)%Z ->
  any_nodes s k' !! i =
  Some (list_nodes s !! Z.to_nat ((round_robin_cursor_ s + Z.of_nat i) `mod`
                                    Z.of_nat (length (node_order_ s)))%Z).
Proof.
  induction k' as [|k' IH]; intros s a k i H Hne Hi H0 Hk; [lia|]. cbn [any_nodes].
  rewrite (any_node_ok _ _ _ H Hne). destruct i as [|i]; simpl; [by rewrite Z.add_0_r|].
  rewrite (IH _ a k); simpl.
  - rewrite wrap64_small by lia. do 4 f_equal. lia.
  - by destruct H; split.
  - done.
  - lia.
  - apply wrap64_range.
  - rewrite wrap64_small by lia. lia.
Qed.

(** Round robin is fair.  In any registry reached from the empty one,
    [n] successive calls of [any_node], for the [n] registered nodes, answer
    every node exactly once, in registration order from the cursor on (as
    long as the cursor does not wrap in between). *)
Theorem any_node_round_robin (ops : list op) :
  let s := run create ops in
  let n := length (list_nodes s) in
  (Z.of_nat (length ops) < two64)%Z ->
  (0 <= round_robin_cursor_ s)%Z -> (round_robin_cursor_ s + Z.of_nat n < two64)%Z ->
  any_nodes s n = Some <$> rotate (Z.to_nat (round_robin_cursor_ s)) (list_nodes s).
Proof.
  intros s n Hlen H0 Hk. pose proof (run_ok ops _ _ _ create_ok Hlen) as H. fold s in H.
  assert (Hn : n = length (node_order_ s)) by apply (list_nodes_length _ _ _ H).
  assert (Hl : length (any_nodes s n) = n).
  { clear. generalize s. induction n as [|n IH]; intros s'; [done|]. simpl.
    destruct (any_node s') as [r s'']. simpl. by rewrite IH. }
  apply list_eq_same_length with n; [by rewrite length_fmap, length_rotate|done|].
  intros i x y Hi Hx Hy.
  assert (Hne : node_order_ s <> []) by (intros He; rewrite He in Hn; simpl in Hn; lia).
  rewrite (any_nodes_lookup n s _ _ i H Hne Hi H0 Hk) in Hx.
  rewrite list_lookup_fmap, lookup_rotate_r in Hy by done. unfold rotate_nat_add in Hy.
  fold n in Hy. rewrite Hn, Z2Nat.id in Hy by done.
  destruct (list_nodes s !! _) as [z|]; simpl in Hy; [|done]. by simplify_eq.
Qed.

Lemma any_node_round_robin_witness :
  let ops := [Register "a" "" ""; Register "b" "" ""; Register "c" "" ""; AnyNode] in
  List.map (option_map node_id) (any_nodes (run create ops) 3) = [Some "b"; Some "c"; Some "a"]%string.
Proof.
  intros ops.
  assert (H1 : (Z.of_nat (length ops) < two64)%Z) by (vm_compute; reflexivity).
  assert (H2 : (0 <= round_robin_cursor_ (run create ops))%Z) by (vm_compute; discriminate).
  assert (H3 : (round_robin_cursor_ (run create ops) +
                Z.of_nat (length (list_nodes (run create ops))) < two64)%Z)
    by (vm_compute; reflexivity).
  pose proof (any_node_round_robin ops H1 H2 H3) as H.
  change 3 with (length (list_nodes (run create ops))). rewrite H. vm_compute. reflexivity.
Defined.

End NodeRegistry.
