(* ===== verification/Transactions.v ===== *)
(** * Database transactions

    [infra/persistence/TransactionRunner.h]: one unit of work on a pooled
    connection, its commit, and the retry policy for dropped connections.
    What happens to the connection is the environment's choice: a script of
    outcomes, one per attempt.  The work itself is a function on the database
    contents that throws or runs to its end. *)

From S2P Require Import Prelude.

Module TransactionRunner.

Section Run.
Context {DB E A : Type}.
(** [fn] on the contents: the exception it throws, or its result and the new
    contents when it runs to its end. *)
Variable fn : DB -> E + A * DB.

(** What one attempt meets. *)
Inductive attempt :=
  | WorkBroken                      (* connection lost before commit *)
  | WorkThrows                      (* an exception that is not [fn]'s own doing *)
  | Committed
  | CommitBroken (applied : bool)   (* connection lost in [commit()] *)
  | CommitThrows (applied : bool).  (* any other exception of [commit()], such as
                                       one that leaves the outcome in doubt *)

(** The rest of the script: the lease, then attempts separated by reconnects. *)
Record Script := mkScript {
  lease_ok : bool;
  attempts : list attempt;
  reconnects : list bool
}.

Inductive outcome :=
  | Returned (a : A)
  | TransientPersistenceError
  | Propagated (e : option E).    (* any other exception, unchanged *)

(** The contents when the work is committed. *)
Definition applied_db (d : DB) : DB := match fn d with inr (_, d') => d' | inl _ => d end.

(** The effect of one attempt on the contents. *)
Definition after_attempt (d : DB) (x : attempt) : DB :=
  match x with
  | Committed | CommitBroken true | CommitThrows true => applied_db d
  | _ => d
  end.

Definition kMaxAttempts : nat := 2.

(** The retry loop; [no] is the attempt's number.  A script that is too short
    counts as a lost connection. *)
Fixpoint attempt_loop (fuel : nat) (idempotent : bool) (no : nat) (xs : list attempt)
  (rs : list bool) (d : DB) : outcome * DB :=
  match fuel with
  | O => (TransientPersistenceError, d)
  | S fuel' =>
    let '(x, xs') := match xs with x :: xs' => (x, xs') | [] => (WorkBroken, []) end in
    let d' := after_attempt d x in
    let broken (commit_attempted : bool) :=
      if (idempotent || negb commit_attempted) && (no <? kMaxAttempts)
      then match rs with
           | true :: rs' => attempt_loop fuel' idempotent (S no) xs' rs' d'
           | _ => (TransientPersistenceError, d')
           end
      else (TransientPersistenceError, d') in
    match x, fn d with
    | WorkBroken, _ => broken false
    | WorkThrows, _ => (Propagated None, d')
    | _, inl e => (Propagated (Some e), d')
    | Committed, inr (a, _) => (Returned a, d')
    | CommitThrows _, inr _ => (Propagated None, d')
    | CommitBroken _, inr _ => broken true
    end
  end.

Definition run (idempotent : bool) (sc : Script) (d : DB) : outcome * DB :=
  if lease_ok sc then attempt_loop kMaxAttempts idempotent 1 (attempts sc) (reconnects sc) d
  else (TransientPersistenceError, d).

Definition read (sc : Script) (d : DB) : outcome * DB := run true sc d.
Definition write (sc : Script) (d : DB) : outcome * DB := run false sc d.

(** ** Proofs *)

(** The fuel is never the reason for an answer: one more step changes nothing. *)
Lemma attempt_loop_fuel fuel idem no xs rs d :
  kMaxAttempts < fuel + no -> 0 < fuel ->
  attempt_loop (S fuel) idem no xs rs d = attempt_loop fuel idem no xs rs d.
Proof.
  revert no xs rs d. induction fuel as [|fuel IH]; intros no xs rs d Hno Hf; [lia|].
  cbn [attempt_loop]. destruct (match xs with [] => _ | _ => _ end) as [x xs'].
  assert (Hb : forall c, (idem || negb c) && (no <? kMaxAttempts) = true ->
    forall rs', attempt_loop (S fuel) idem (S no) xs' rs' (after_attempt d x) =
                attempt_loop fuel idem (S no) xs' rs' (after_attempt d x)).
  { intros c Hc rs'. apply andb_true_iff in Hc as [_ Hlt%Nat.ltb_lt].
    apply IH; unfold kMaxAttempts in *; lia. }
  destruct x; try done; destruct (fn d) as [e|[a d1]]; try done.
  all: match goal with |- context [if ?b then _ else _] => destruct b eqn:Eb end; [|done];
    destruct rs as [|[] rs']; try done; by eapply Hb.
Qed.

Lemma write_loop_once fuel no xs rs d :
  let '(r, d') := attempt_loop fuel false no xs rs d in
  (d' = d \/ exists a, fn d = inr (a, d')) /\
  match r with
  | Returned a => fn d = inr (a, d')
  | Propagated (Some e) => fn d = inl e
  | _ => True
  end.
Proof.
  revert no xs rs d. induction fuel as [|fuel IH]; intros no xs rs d; cbn [attempt_loop]; [auto|].
  destruct (match xs with [] => _ | _ => _ end) as [x xs'].
  destruct x as [| | |[]|[]]; cbn [after_attempt orb negb andb]; unfold applied_db;
    destruct (fn d) as [e|[a d1]] eqn:Ef; eauto.
  all: destruct (no <? kMaxAttempts); [|auto]; destruct rs as [|[] rs']; auto;
    specialize (IH (S no) xs' rs' d); by rewrite Ef in IH.
Qed.

(** C24: a mutation is applied at most once.  Whatever happens to the
    connection - lost while the work runs, lost in the commit with the outcome
    unknown, reconnects that fail - a [write] leaves the database as it was or
    with the mutation applied exactly once; it returns only in the second
    case, with the result of that application, and an exception of the work
    itself reaches the caller unchanged. *)
Theorem write_applied_at_most_once (sc : Script) (d : DB) :
  let '(r, d') := write sc d in
  (d' = d \/ exists a, fn d = inr (a, d')) /\
  match r with
  | Returned a => fn d = inr (a, d')
  | Propagated (Some e) => fn d = inl e
  | _ => True
  end.
Proof.
  unfold write, run. destruct (lease_ok sc); [apply write_loop_once|]. auto.
Qed.

(** An idempotent query is retried after any drop, also in the commit, so a
    single drop with a working reconnect is invisible to the caller. *)
Theorem read_survives_one_drop (x : attempt) (a : A) (d : DB) :
  (forall d', fn d' = inr (a, d')) ->
  x = WorkBroken \/ (exists b, x = CommitBroken b) ->
  read (mkScript true [x; Committed] [true]) d = (Returned a, d).
Proof.
  intros Hq Hx. unfold read, run. simpl. unfold applied_db.
  destruct Hx as [->|[[] ->]]; simpl; unfold applied_db; by rewrite !Hq.
Qed.

(** When a lost or failed commit has not been applied, a call that does not
    return leaves no trace. *)
Definition settled (x : attempt) : bool :=
  match x with CommitBroken true | CommitThrows true => false | _ => true end.

Lemma attempt_loop_settled fuel idem no xs rs d :
  forallb settled xs ->
  match attempt_loop fuel idem no xs rs d with
  | (Returned a, d') => fn d = inr (a, d')
  | (_, d') => d' = d
  end.
Proof.
  revert no xs rs d. induction fuel as [|fuel IH]; intros no xs rs d Hxs; cbn [attempt_loop]; [auto|].
  destruct (match xs with [] => _ | _ => _ end) as [x xs'] eqn:Ex.
  assert (settled x /\ forallb settled xs') as [Hx Hxs'].
  { destruct xs as [|y ys]; injection Ex as <- <-; [done|]. simpl in Hxs.
    by apply andb_prop_elim in Hxs. }
  destruct x as [| | |[]|[]]; try done; cbn [after_attempt]; unfold applied_db;
    destruct (fn d) as [e|[a d1]] eqn:Ef; try done.
  all: destruct ((idem || negb _) && (no <? kMaxAttempts)); [|auto]; destruct rs as [|[] rs']; auto;
    specialize (IH (S no) xs' rs' d Hxs'); by rewrite Ef in IH.
Qed.

Lemma run_settled idem sc d :
  forallb settled (attempts sc) ->
  match run idem sc d with
  | (Returned a, d') => fn d = inr (a, d')
  | (_, d') => d' = d
  end.
Proof.
  intros Hs. unfold run. destruct (lease_ok sc); [by apply attempt_loop_settled|done].
Qed.

(** A query leaves no trace whatever happens to its commits. *)
Lemma attempt_loop_query fuel idem no xs rs d :
  (forall d1 a d2, fn d1 = inr (a, d2) -> d2 = d1) ->
  match attempt_loop fuel idem no xs rs d with
  | (Returned a, d') => d' = d /\ fn d = inr (a, d)
  | (_, d') => d' = d
  end.
Proof.
  intros Hq. revert no xs rs. induction fuel as [|fuel IH]; intros no xs rs; cbn [attempt_loop]; [done|].
  destruct (match xs with [] => _ | _ => _ end) as [x xs'].
  assert (Hd : after_attempt d x = d).
  { unfold after_attempt, applied_db. destruct x as [| | |[]|[]]; try done;
      destruct (fn d) as [e|[a d1]] eqn:Ef; try done; by apply (Hq d a). }
  rewrite Hd. destruct x as [| | |[]|[]]; try done; destruct (fn d) as [e|[a d1]] eqn:Ef; try done.
  all: try (rewrite (Hq _ _ _ Ef) in Ef |- *; done).
  all: destruct ((idem || negb _) && (no <? kMaxAttempts)); [|done]; destruct rs as [|[] rs']; try done;
    apply (IH (S no) xs' rs').
Qed.

Lemma run_query idem sc d :
  (forall d1 a d2, fn d1 = inr (a, d2) -> d2 = d1) ->
  match run idem sc d with
  | (Returned a, d') => d' = d /\ fn d = inr (a, d)
  | (_, d') => d' = d
  end.
Proof. intros Hq. unfold run. destruct (lease_ok sc); [by apply attempt_loop_query|done]. Qed.

(** A mutation is applied at most once; when a call that does not return has
    applied it, a commit was lost or failed after it took effect. *)
Lemma run_once sc d :
  match run false sc d with
  | (Returned a, d') => fn d = inr (a, d')
  | (_, d') => d' = d \/ forallb settled (attempts sc) = false /\ exists a, fn d = inr (a, d')
  end.
Proof.
  destruct (forallb settled (attempts sc)) eqn:Es.
  - pose proof (run_settled false sc d) as Hr. rewrite Es in Hr. specialize (Hr I).
    destruct (run false sc d) as [[]]; auto.
  - unfold run. destruct (lease_ok sc); [|auto].
    pose proof (write_loop_once kMaxAttempts 1 (attempts sc) (reconnects sc) d) as Hw.
    destruct (attempt_loop _ _ _ _ _ d) as [[a| |e] d']; [tauto|destruct Hw as [[]]; auto..].
Qed.
End Run.

(** Reading a counter over a connection dropped in its commit. *)
Lemma read_survives_one_drop_witness :
  read (fun d : nat => inr (A := unit) (7, d)) (mkScript true [CommitBroken true; Committed] [true]) 3 =
  (Returned 7, 3).
Proof.
  apply (read_survives_one_drop (fun d : nat => inr (A := unit) (7, d)) (CommitBroken true) 7 3).
  - intros d'. reflexivity.
  - right. exists true. reflexivity.
Defined.

End TransactionRunner.
