(* ===== verification/ConnectionPool.v ===== *)
(** * The connection pool

    [infra/persistence/ConnectionPool.cpp] and the [ConnectionLease] of its
    header, shared by any number of threads.  Each locked section is one
    operation on the pool; connecting happens outside of the lock, so other
    threads' sections come between the parts of [acquire] and [refresh].
    Connections are known by their address: a new one differs from those that
    are alive, and an address may come back after its connection is gone. *)

From S2P Require Import Prelude.

Module ConnectionPool.

Abbreviation conn := positive.   (* [pqxx::connection*] *)

Record Pool := mkPool {
  slots : list (option conn);
  free_slots : list nat;         (* the back first *)
  conn_index : gmap conn nat
}.

(** ** The locked sections *)

(** [map.emplace(c, i)] does not overwrite. *)
Definition emplace (c : conn) (i : nat) (m : gmap conn nat) : gmap conn nat :=
  match m !! c with Some _ => m | None => <[c := i]> m end.

(** Pre-warming: connect the slots in order until the first failure.  [opens]
    is what the attempts give. *)
Fixpoint prewarm (i : nat) (opens : list (option conn)) (p : Pool) : Pool :=
  match opens with
  | Some c :: opens' =>
    prewarm (S i) opens' (mkPool (<[i := Some c]> (slots p)) (free_slots p)
      (emplace c i (conn_index p)))
  | _ => p
  end.

(** The constructor; [None] is its exception. *)
Definition make (pool_size : nat) (opens : list (option conn)) : option Pool :=
  if bool_decide (pool_size = 0) then None
  else let p := prewarm 0 (take pool_size opens) (mkPool (replicate pool_size None) [] ∅) in
       Some (mkPool (slots p) (seq 0 pool_size) (conn_index p)).

(** [acquire]'s first section, when the wait ends: a free slot, or the
    exception for the timeout. *)
Definition take_slot (p : Pool) : option (nat * Pool) :=
  match free_slots p with
  | i :: rest => Some (i, mkPool (slots p) rest (conn_index p))
  | [] => None
  end.

(** [!slot || !slot->is_open()]; [is_open] is the connection's answer. *)
Definition needs_connection (is_open : conn -> bool) (i : nat) (p : Pool) : bool :=
  match slots p !! i with Some (Some c) => negb (is_open c) | _ => true end.

(** The slot goes back when connecting fails. *)
Definition give_back (i : nat) (p : Pool) : Pool := mkPool (slots p) (i :: free_slots p) (conn_index p).

(** [if (slot) conn_index_.erase(slot.get())]. *)
Definition unindex (i : nat) (p : Pool) : gmap conn nat :=
  match slots p !! i with Some (Some c) => delete c (conn_index p) | _ => conn_index p end.

(** The swap at the end of [acquire] and of [refresh]. *)
Definition install (i : nat) (fresh : conn) (p : Pool) : Pool :=
  mkPool (<[i := Some fresh]> (slots p)) (free_slots p) (emplace fresh i (unindex i p)).

(** [refresh]'s first section; [None] is the exception for an unknown connection. *)
Definition refresh_index (c : conn) (p : Pool) : option nat := conn_index p !! c.

Definition release (c : conn) (p : Pool) : option Pool :=
  match conn_index p !! c with
  | Some i => Some (give_back i p)
  | None => None
  end.

(** ** Threads *)

(** What a thread inside the pool's functions, or with a lease, is about. *)
Inductive phase :=
  | Acquired (i : nat)                   (* [acquire] behind the first section *)
  | Connected (i : nat) (fresh : conn)   (* before the swap *)
  | Leased (c : conn)                    (* [ConnectionLease::conn_] *)
  | Refreshing (i : nat) (c : conn)      (* [refresh] behind the first section *)
  | Refreshed (i : nat) (c fresh : conn).

Record State := mkState { pool : Pool; threads : gmap nat phase }.

(** The connections alive: those of the slots, and the new ones. *)
Definition fresh_of (ph : phase) : option conn :=
  match ph with Connected _ f | Refreshed _ _ f => Some f | _ => None end.
Definition alive (s : State) (c : conn) : Prop :=
  Some c ∈ slots (pool s) \/ exists t ph, threads s !! t = Some ph /\ fresh_of ph = Some c.

Definition at_phase (t : nat) (ph : phase) (p : Pool) (s : State) : State :=
  mkState p (<[t := ph]> (threads s)).
Definition left_pool (t : nat) (p : Pool) (s : State) : State := mkState p (delete t (threads s)).

Inductive step : State -> State -> Prop :=
  (* [acquire]: the predicate holds before the timeout *)
  | step_acquire t i p s :
      threads s !! t = None -> take_slot (pool s) = Some (i, p) -> step s (at_phase t (Acquired i) p s)
  (* the slot's connection is there and open *)
  | step_reuse t i c is_open s :
      threads s !! t = Some (Acquired i) -> needs_connection is_open i (pool s) = false ->
      slots (pool s) !! i = Some (Some c) -> step s (at_phase t (Leased c) (pool s) s)
  | step_connect t i fresh is_open s :
      threads s !! t = Some (Acquired i) -> needs_connection is_open i (pool s) = true ->
      ~ alive s fresh -> step s (at_phase t (Connected i fresh) (pool s) s)
  (* the database is down: the slot goes back, the exception leaves [acquire] *)
  | step_unreachable t i is_open s :
      threads s !! t = Some (Acquired i) -> needs_connection is_open i (pool s) = true ->
      step s (left_pool t (give_back i (pool s)) s)
  | step_install t i fresh s :
      threads s !! t = Some (Connected i fresh) ->
      step s (at_phase t (Leased fresh) (install i fresh (pool s)) s)
  (* [ConnectionLease::reconnect] *)
  | step_refresh t c i s :
      threads s !! t = Some (Leased c) -> refresh_index c (pool s) = Some i ->
      step s (at_phase t (Refreshing i c) (pool s) s)
  | step_reconnect t c i fresh s :
      threads s !! t = Some (Refreshing i c) -> ~ alive s fresh ->
      step s (at_phase t (Refreshed i c fresh) (pool s) s)
  (* the exception leaves [refresh]; the lease is as before *)
  | step_still_down t c i s :
      threads s !! t = Some (Refreshing i c) -> step s (at_phase t (Leased c) (pool s) s)
  | step_swap t c i fresh s :
      threads s !! t = Some (Refreshed i c fresh) ->
      step s (at_phase t (Leased fresh) (install i fresh (pool s)) s)
  (* [~ConnectionLease] *)
  | step_release t c p s :
      threads s !! t = Some (Leased c) -> release c (pool s) = Some p -> step s (left_pool t p s).

Inductive reachable (n : nat) : State -> Prop :=
  | reach_made opens p :
      NoDup (omap id opens) -> make n opens = Some p -> reachable n (mkState p ∅)
  | reach_step s s' : reachable n s -> step s s' -> reachable n s'.

(** ** The invariant *)

(** The slot a thread holds. *)
Definition holds (p : Pool) (ph : phase) : option nat :=
  match ph with
  | Acquired i | Connected i _ | Refreshing i _ | Refreshed i _ _ => Some i
  | Leased c => conn_index p !! c
  end.
(** The connection its lease refers to. *)
Definition lease_of (ph : phase) : option conn :=
  match ph with Leased c | Refreshing _ c | Refreshed _ c _ => Some c | _ => None end.

(** The index and the slots say the same. *)
Definition lockstep (p : Pool) : Prop :=
  forall c i, conn_index p !! c = Some i <-> slots p !! i = Some (Some c).

Record inv (n : nat) (s : State) : Prop := mk_inv {
  in_slots : length (slots (pool s)) = n;
  in_lockstep : lockstep (pool s);
  in_nodup : NoDup (free_slots (pool s));
  in_free : forall i, i ∈ free_slots (pool s) -> i < n;
  in_held : forall t ph, threads s !! t = Some ph ->
    exists i, holds (pool s) ph = Some i /\ i < n /\ i ∉ free_slots (pool s);
  in_lease : forall t ph c, threads s !! t = Some ph -> lease_of ph = Some c ->
    exists i, conn_index (pool s) !! c = Some i /\ holds (pool s) ph = Some i;
  in_exclusive : forall t t' ph ph' i, threads s !! t = Some ph -> threads s !! t' = Some ph' ->
    holds (pool s) ph = Some i -> holds (pool s) ph' = Some i -> t = t';
  in_all : forall i, i < n -> i ∈ free_slots (pool s) \/
    exists t ph, threads s !! t = Some ph /\ holds (pool s) ph = Some i;
  in_fresh : forall t ph c, threads s !! t = Some ph -> fresh_of ph = Some c ->
    conn_index (pool s) !! c = None;
  in_fresh_unique : forall t t' ph ph' c, threads s !! t = Some ph -> threads s !! t' = Some ph' ->
    fresh_of ph = Some c -> fresh_of ph' = Some c -> t = t'
}.

(** ** Proofs *)

Lemma emplace_fresh c i m : m !! c = None -> emplace c i m = <[c := i]> m.
Proof. unfold emplace. by intros ->. Qed.

(** One slot gets a new connection. *)
Lemma install_lockstep i f p :
  lockstep p -> i < length (slots p) -> conn_index p !! f = None ->
  lockstep (install i f p) /\ conn_index (install i f p) !! f = Some i /\
  (forall c j, conn_index p !! c = Some j -> j <> i -> conn_index (install i f p) !! c = Some j) /\
  (forall c, c <> f -> conn_index p !! c = None -> conn_index (install i f p) !! c = None).
Proof.
  intros Hl Hi Hf. assert (Hu : unindex i p !! f = None).
  { unfold unindex. destruct (slots p !! i) as [[c0|]|]; [|done..]. rewrite lookup_delete_None. auto. }
  assert (Hun : forall c j, unindex i p !! c = Some j <-> conn_index p !! c = Some j /\ j <> i).
  { intros c j. unfold unindex. destruct (slots p !! i) as [[c0|]|] eqn:E.
    - rewrite lookup_delete_Some. split; intros [H1 H2]; split; try done.
      + intros ->. apply Hl in H2. congruence.
      + intros <-. apply Hl in E. congruence.
    - split; [intros Hc; split; [done|]|by intros [? _]]. intros ->. apply Hl in Hc. congruence.
    - split; [intros Hc; split; [done|]|by intros [? _]]. intros ->. apply Hl in Hc. congruence. }
  unfold install, lockstep. simpl. rewrite (emplace_fresh _ _ _ Hu). split_and!.
  - intros c j. rewrite lookup_insert_Some, list_lookup_insert_Some, Hun, (Hl c j). split.
    + intros [[<- <-]|(Hne & Hc & Hj)]; [by left|]. right. by split.
    + intros [(<- & [= <-] & _)|[Hne Hc]]; [by left|]. right. split; [|done].
      intros <-. apply Hl in Hc. congruence.
  - by rewrite lookup_insert_eq.
  - intros c j Hc Hj. rewrite lookup_insert_ne by congruence. by apply Hun.
  - intros c Hne Hc. rewrite lookup_insert_ne by done. apply eq_None_not_Some. intros [j [Hj _]%Hun].
    congruence.
Qed.

Lemma not_alive_new n s f :
  inv n s -> ~ alive s f ->
  conn_index (pool s) !! f = None /\
  forall t ph, threads s !! t = Some ph -> fresh_of ph <> Some f.
Proof.
  intros Hinv Hf. split.
  - apply eq_None_not_Some. intros [i Hi%(in_lockstep n s Hinv)]. destruct Hf. left.
    by eapply list_elem_of_lookup_2.
  - intros t ph Ht Hph. destruct Hf. right. eauto.
Qed.

(** A thread goes on with the slot it holds, the pool as it is. *)
Lemma inv_phase n s t ph ph' :
  inv n s -> threads s !! t = Some ph -> holds (pool s) ph' = holds (pool s) ph ->
  (forall c, lease_of ph' = Some c -> conn_index (pool s) !! c = holds (pool s) ph) ->
  (forall c, fresh_of ph' = Some c -> ~ alive s c) ->
  inv n (at_phase t ph' (pool s) s).
Proof.
  intros Hinv Ht Hh Hl Hf. pose proof Hinv as [I1 I2 I3 I4 I5 I6 I7 I8 I9 I10].
  constructor; simpl; try done.
  - intros u x. rewrite lookup_insert_Some. intros [[<- <-]|[_ Hu]]; [rewrite Hh|]; eauto.
  - intros u x c. rewrite lookup_insert_Some. intros [[<- <-]|[_ Hu]] Hc; [|eauto].
    destruct (I5 t ph Ht) as (i & Hi & _). exists i. by rewrite Hh, (Hl c Hc).
  - intros u v x y i. rewrite !lookup_insert_Some.
    intros [[<- <-]|[Hu Hx]] [[<- <-]|[Hv Hy]] Hi Hj; rewrite ?Hh in *; eauto.
  - intros i Hi. destruct (I8 i Hi) as [|(u & x & Hu & Hx)]; [by left|]. right.
    destruct (decide (t = u)) as [<-|Hne].
    + exists t, ph'. rewrite lookup_insert_eq, Hh. split; [done|congruence].
    + exists u, x. by rewrite lookup_insert_ne.
  - intros u x c. rewrite lookup_insert_Some. intros [[<- <-]|[_ Hu]] Hc; [|eauto].
    by apply (not_alive_new n s c Hinv), Hf.
  - intros u v x y c. rewrite !lookup_insert_Some.
    intros [[<- <-]|[Hu Hx]] [[<- <-]|[Hv Hy]] Hc Hc'; eauto.
    + destruct (not_alive_new n s c Hinv) as [_ Hn]; [auto|]. by destruct (Hn v y Hy).
    + destruct (not_alive_new n s c Hinv) as [_ Hn]; [auto|]. by destruct (Hn u x Hx).
Qed.

#[local] Arguments install : simpl never.

(** A new connection for the slot of a thread. *)
Lemma inv_install n s t ph i f :
  inv n s -> threads s !! t = Some ph -> holds (pool s) ph = Some i -> fresh_of ph = Some f ->
  inv n (at_phase t (Leased f) (install i f (pool s)) s).
Proof.
  intros [I1 I2 I3 I4 I5 I6 I7 I8 I9 I10] Ht Hi Hf.
  destruct (I5 t ph Ht) as (i' & Hi' & Hn & Hfree). assert (i' = i) as -> by congruence.
  destruct (install_lockstep i f (pool s)) as (L1 & L2 & L3 & L4); [done|lia|eauto|].
  assert (Hother : forall u x, u <> t -> threads s !! u = Some x ->
    exists j, holds (pool s) x = Some j /\ j <> i /\ holds (install i f (pool s)) x = Some j).
  { intros u x Hne Hu. destruct (I5 u x Hu) as (j & Hj & _). exists j.
    assert (j <> i) by (intros ->; eauto). split_and!; try done. destruct x; simpl in *; eauto. }
  constructor; simpl; try done.
  - by rewrite length_insert.
  - intros u x. rewrite lookup_insert_Some. intros [[<- <-]|[Hne Hu]]; [simpl; eauto|].
    destruct (Hother u x) as (j & Hj & _ & Hj'); [done..|]. destruct (I5 u x Hu) as (k & Hk & ?).
    exists k. split; [congruence|done].
  - intros u x c. rewrite lookup_insert_Some. intros [[<- <-]|[Hne Hu]] Hc.
    { simpl in *. exists i. by simplify_eq. }
    destruct (I6 u x c Hu Hc) as (k & Hk & Hk'). destruct (Hother u x) as (j & Hj & Hji & Hj'); [done..|].
    exists j. split; [|done]. apply L3; [congruence|done].
  - intros u v x y k. rewrite !lookup_insert_Some.
    intros [[<- <-]|[Hu Hx]] [[<- <-]|[Hv Hy]] Hk Hk'; simpl in *; [done|..].
    + destruct (Hother v y) as (j & Hj & Hji & Hj'); [done..|]. congruence.
    + destruct (Hother u x) as (j & Hj & Hji & Hj'); [done..|]. congruence.
    + destruct (Hother u x) as (j & Hj & Hji & Hj'); [done..|].
      destruct (Hother v y) as (j' & ? & ? & ?); [done..|]. apply (I7 u v x y k); congruence.
  - intros k Hk. destruct (I8 k Hk) as [|(u & x & Hu & Hx)]; [by left|]. right.
    destruct (decide (u = t)) as [->|Hne].
    + exists t, (Leased f). rewrite lookup_insert_eq. split; [done|]. assert (x = ph) as -> by congruence.
      assert (k = i) as -> by congruence. exact L2.
    + exists u, x. rewrite lookup_insert_ne by done. split; [done|].
      destruct (Hother u x) as (j & Hj & Hji & Hj'); [done..|]. congruence.
  - intros u x c. rewrite lookup_insert_Some. intros [[<- <-]|[Hne Hu]] Hc; [done|].
    apply L4; [intros ->; eauto|eauto].
  - intros u v x y c. rewrite !lookup_insert_Some.
    intros [[<- <-]|[Hu Hx]] [[<- <-]|[Hv Hy]] Hc Hc'; simpl in *; try done. eauto.
Qed.

(** A thread takes the slot at the back. *)
Lemma inv_take n s t i p :
  inv n s -> threads s !! t = None -> take_slot (pool s) = Some (i, p) ->
  inv n (at_phase t (Acquired i) p s).
Proof.
  intros [I1 I2 I3 I4 I5 I6 I7 I8 I9 I10] Ht. unfold take_slot.
  destruct (free_slots (pool s)) as [|i0 rest] eqn:E; [done|]. intros [= -> <-].
  apply list.NoDup_cons in I3 as [Hi Hnd].
  assert (Hn : forall u x, threads s !! u = Some x -> holds (pool s) x <> Some i).
  { intros u x Hu Hx. destruct (I5 u x Hu) as (j & Hj & _ & Hj'). destruct Hj'. set_solver. }
  assert (Hh : forall x, holds (mkPool (slots (pool s)) rest (conn_index (pool s))) x = holds (pool s) x)
    by (by intros []).
  constructor; simpl; try done.
  - intros j Hj. apply I4. set_solver.
  - intros u x. rewrite lookup_insert_Some. intros [[<- <-]|[_ Hu]].
    + exists i. split_and!; [done| |done]. apply I4. set_solver.
    + destruct (I5 u x Hu) as (j & ? & ? & ?). exists j. split_and!; try done. set_solver.
  - intros u x c. rewrite lookup_insert_Some. intros [[<- <-]|[_ Hu]] Hc; [done|eauto].
  - intros u v x y j. rewrite !lookup_insert_Some.
    intros [[<- <-]|[Hu Hx]] [[<- <-]|[Hv Hy]] Hj Hj'; [done|..].
    + destruct (Hn v y Hy). rewrite Hh in Hj'. simpl in Hj. congruence.
    + destruct (Hn u x Hx). rewrite Hh in Hj. simpl in Hj'. congruence.
    + rewrite Hh in Hj, Hj'. eauto.
  - intros j Hj. destruct (I8 j Hj) as [[->|?]%elem_of_cons|(u & x & Hu & Hx)]; [|by left|].
    + right. exists t, (Acquired i). by rewrite lookup_insert_eq.
    + right. exists u, x. rewrite lookup_insert_ne by congruence. done.
  - intros u x c. rewrite lookup_insert_Some. intros [[<- <-]|[_ Hu]] Hc; [done|eauto].
  - intros u v x y c. rewrite !lookup_insert_Some.
    intros [[<- <-]|[Hu Hx]] [[<- <-]|[Hv Hy]] Hc Hc'; simpl in *; try done. eauto.
Qed.

(** A thread leaves and its slot goes back. *)
Lemma inv_give_back n s t ph i :
  inv n s -> threads s !! t = Some ph -> holds (pool s) ph = Some i ->
  inv n (left_pool t (give_back i (pool s)) s).
Proof.
  intros [I1 I2 I3 I4 I5 I6 I7 I8 I9 I10] Ht Hi.
  destruct (I5 t ph Ht) as (i' & Hi' & Hn & Hfree). assert (i' = i) as -> by congruence.
  assert (Hh : forall x, holds (give_back i (pool s)) x = holds (pool s) x) by (by intros []).
  constructor; simpl; try done.
  - by constructor.
  - intros j [->|?]%elem_of_cons; eauto.
  - intros u x [Hne Hu]%lookup_delete_Some. rewrite Hh. destruct (I5 u x Hu) as (j & Hj & Hjn & Hjf).
    exists j. split_and!; try done. intros [->|?]%elem_of_cons; [|done]. eauto.
  - intros u x c [_ Hu]%lookup_delete_Some Hc. rewrite Hh. eauto.
  - intros u v x y j [_ Hu]%lookup_delete_Some [_ Hv]%lookup_delete_Some. rewrite !Hh. eauto.
  - intros j Hj. destruct (I8 j Hj) as [|(u & x & Hu & Hx)]; [left; set_solver|].
    destruct (decide (t = u)) as [<-|Hne]; [left; assert (j = i) as -> by congruence; set_solver|].
    right. exists u, x. rewrite lookup_delete_ne by done. by rewrite Hh.
  - intros u x c [_ Hu]%lookup_delete_Some Hc. eauto.
  - intros u v x y c [_ Hu]%lookup_delete_Some [_ Hv]%lookup_delete_Some. eauto.
Qed.

(** The constructor connects different slots to different connections. *)
Lemma prewarm_spec opens i p :
  lockstep p -> i + length opens <= length (slots p) -> NoDup (omap id opens) ->
  (forall c, c ∈ omap id opens -> conn_index p !! c = None) ->
  (forall j, i <= j -> j < length (slots p) -> slots p !! j = Some None) ->
  lockstep (prewarm i opens p) /\ length (slots (prewarm i opens p)) = length (slots p).
Proof.
  revert i p. induction opens as [|[c|] opens IH]; intros i p Hl Hlen Hnd Hnew Hnone; simpl; [done| |done].
  simpl in Hlen. apply list.NoDup_cons in Hnd as [Hc Hnd].
  assert (Hi : conn_index p !! c = None) by (apply Hnew; csimpl; set_solver).
  destruct (install_lockstep i c p) as (L1 & L2 & L3 & L4); [done|lia|done|].
  unfold install, unindex in *. rewrite Hnone in * by lia. simpl in *.
  destruct (IH (S i) _ L1) as [H1 H2].
  - simpl. rewrite length_insert. lia.
  - done.
  - intros x Hx. apply L4; [set_solver|]. apply Hnew. csimpl. set_solver.
  - intros j Hj. simpl. rewrite length_insert. intros Hj'. rewrite list_lookup_insert_ne by lia.
    apply Hnone; lia.
  - split; [done|]. rewrite H2. simpl. by rewrite length_insert.
Qed.

Lemma make_inv n opens p :
  NoDup (omap id opens) -> make n opens = Some p -> inv n (mkState p ∅).
Proof.
  intros Hnd. unfold make. case_bool_decide as Hn; [done|]. intros [= <-].
  destruct (prewarm_spec (take n opens) 0 (mkPool (replicate n None) [] ∅)) as [H1 H2].
  - intros c i. simpl. rewrite lookup_empty, lookup_replicate. split; [done|by intros [? _]].
  - simpl. rewrite length_replicate, length_take. lia.
  - rewrite <- (take_drop n opens), omap_app in Hnd. by apply list.NoDup_app in Hnd as [? _].
  - done.
  - intros j _. simpl. rewrite length_replicate. intros Hj. by apply lookup_replicate_2.
  - simpl in H2. rewrite length_replicate in H2. constructor; simpl; try done.
    + apply NoDup_ListNoDup, seq_NoDup.
    + intros i Hi%elem_of_seq. lia.
    + intros i Hi. left. apply elem_of_seq. lia.
Qed.

Lemma step_inv n s s' : inv n s -> step s s' -> inv n s'.
Proof.
  intros Hinv Hs. destruct Hs as [t i p s Ht Htake|t i c o s Ht Hn Hi|t i f o s Ht Hn Hf|t i o s Ht Hn|
    t i f s Ht|t c i s Ht Hr|t c i f s Ht Hf|t c i s Ht|t c i f s Ht|t c p s Ht Hr].
  - by eapply inv_take.
  - eapply inv_phase; [done..| | |done].
    + by apply (in_lockstep n s Hinv).
    + intros c' [= <-]. by apply (in_lockstep n s Hinv).
  - eapply inv_phase; [done..|]. by intros c [= <-].
  - by eapply inv_give_back.
  - by eapply inv_install.
  - eapply inv_phase; [done..| | |done]; [done|]. by intros c' [= <-].
  - destruct (in_lease n s Hinv t _ c Ht) as (j & Hj & Hj'); [done|].
    eapply inv_phase; [done..| |]; [|by intros c' [= <-]]. intros c' [= <-]. by rewrite Hj'.
  - destruct (in_lease n s Hinv t _ c Ht) as (j & Hj & Hj'); [done|].
    eapply inv_phase; [done..| | |done]; simpl in *; [congruence|]. intros c' [= <-]. congruence.
  - by eapply inv_install.
  - unfold release in Hr. destruct (conn_index (pool s) !! c) as [i|] eqn:E; [|done].
    injection Hr as <-. by eapply inv_give_back.
Qed.

Lemma reachable_inv n s : reachable n s -> inv n s.
Proof. induction 1; [by eapply make_inv|by eapply step_inv]. Qed.

(** The slots of the threads inside. *)
Definition held (s : State) : list nat := omap (fun r => holds (pool s) r.2) (map_to_list (threads s)).

Lemma omap_as_fmap {A B} (f : A -> option B) (d : B) (l : list A) :
  (forall x, x ∈ l -> is_Some (f x)) -> omap f l = (fun x => default d (f x)) <$> l.
Proof.
  induction l as [|x l IH]; intros Hl; csimpl; [done|].
  destruct (Hl x) as [y Hy]; [set_solver|]. rewrite Hy. csimpl. f_equal. apply IH. set_solver.
Qed.

Lemma held_spec n s : inv n s -> NoDup (held s) /\ length (held s) = size (threads s).
Proof.
  intros Hinv. unfold held. rewrite (omap_as_fmap _ 0).
  - split; [|by rewrite length_fmap, length_map_to_list]. apply NoDup_fmap_2_strong.
    + intros [t x] [t' x'] Hx%elem_of_map_to_list Hx'%elem_of_map_to_list Heq. simpl in Heq.
      destruct (in_held n s Hinv t x Hx) as (i & Hi & _), (in_held n s Hinv t' x' Hx') as (j & Hj & _).
      rewrite Hi, Hj in Heq. simpl in Heq. subst j.
      pose proof (in_exclusive n s Hinv t t' x x' i Hx Hx' Hi Hj) as ->. congruence.
    + apply NoDup_map_to_list.
  - intros [t x] Hx%elem_of_map_to_list. destruct (in_held n s Hinv t x Hx) as (i & Hi & _). by exists i.
Qed.

Lemma slots_partition n s : inv n s -> free_slots (pool s) ++ held s ≡ₚ seq 0 n.
Proof.
  intros Hinv. destruct (held_spec n s Hinv) as [Hnd _].
  assert (Hin : forall i, i ∈ held s <-> exists t ph, threads s !! t = Some ph /\ holds (pool s) ph = Some i).
  { intros i. unfold held. rewrite list_elem_of_omap. split.
    - intros ([t x] & Hx%elem_of_map_to_list & Hi). eauto.
    - intros (t & x & Hx & Hi). exists (t, x). by rewrite elem_of_map_to_list. }
  apply NoDup_Permutation.
  - apply list.NoDup_app. split_and!; [apply (in_nodup n s Hinv)| |done].
    intros i Hi (t & x & Hx & Hh)%Hin. destruct (in_held n s Hinv t x Hx) as (j & Hj & _ & Hjf). congruence.
  - apply NoDup_ListNoDup, seq_NoDup.
  - intros i. rewrite elem_of_app, Hin, elem_of_seq. split.
    + intros [Hi%(in_free n s Hinv)|(t & x & Hx & Hh)]; [lia|].
      destruct (in_held n s Hinv t x Hx) as (j & Hj & ? & _). assert (i = j) as -> by congruence. lia.
    + intros [_ Hi]. apply (in_all n s Hinv). lia.
Qed.

(** C27: the pool never loses or doubles a connection.  Whatever the threads
    and the database do, each slot is free or held by exactly one thread, so
    [acquire] finds no slot only while as many threads are inside as there are
    slots, and all slots are free once none is; no two leases share a
    connection; and a lease is always known to the pool, so [reconnect] and the
    destructor's [release] never throw for an unknown connection. *)
Theorem pool_slots_conserved (n : nat) (s : State) :
  reachable n s ->
  free_slots (pool s) ++ held s ≡ₚ seq 0 n /\ lockstep (pool s) /\
  (take_slot (pool s) = None <-> size (threads s) = n) /\
  (forall t t' ph ph' c, threads s !! t = Some ph -> threads s !! t' = Some ph' ->
     lease_of ph = Some c -> lease_of ph' = Some c -> t = t') /\
  (forall t c, threads s !! t = Some (Leased c) ->
     is_Some (refresh_index c (pool s)) /\ is_Some (release c (pool s))).
Proof.
  intros Hinv%reachable_inv. pose proof (slots_partition n s Hinv) as Hp.
  pose proof (Permutation_length Hp) as Hlen. destruct (held_spec n s Hinv) as [_ Hh].
  rewrite length_app, length_seq, Hh in Hlen. split_and!; [done|apply Hinv| | |].
  - unfold take_slot. destruct (free_slots (pool s)); simpl in Hlen; split; intros; try done; lia.
  - intros t t' x x' c Hx Hx' Hc Hc'.
    destruct (in_lease n s Hinv t x c Hx Hc) as (i & Hi & Hix).
    destruct (in_lease n s Hinv t' x' c Hx' Hc') as (j & Hj & Hjx).
    apply (in_exclusive n s Hinv t t' x x' i Hx Hx'); congruence.
  - intros t c Ht. destruct (in_lease n s Hinv t _ c Ht) as (i & Hi & _); [done|].
    unfold refresh_index, release. rewrite Hi. eauto.
Qed.

(** *** Two threads on a pool of two, the second slot not yet connected *)

Definition pool0 : Pool := mkPool [Some 1%positive; None] [0; 1] {[1%positive := 0]}.
Definition s0 : State := mkState pool0 ∅.
Definition s1 : State := at_phase 10 (Acquired 0) (mkPool (slots pool0) [1] (conn_index pool0)) s0.
Definition s2 : State := at_phase 10 (Leased 1) (pool s1) s1.
Definition s3 : State := at_phase 11 (Acquired 1) (mkPool (slots pool0) [] (conn_index pool0)) s2.
Definition s4 : State := at_phase 11 (Connected 1 2) (pool s3) s3.
Definition s5 : State := at_phase 11 (Leased 2) (install 1 2 (pool s4)) s4.

Lemma two_leases : reachable 2 s5.
Proof.
  apply reach_step with s4; [|by apply step_install].
  apply reach_step with s3.
  2:{ apply step_connect with (fun _ => true); [done..|]. intros [Ha|(t & ph & Ht & Hf)].
      - simpl in Ha. set_solver.
      - unfold s3, s2, s1, at_phase, s0 in Ht. simpl in Ht. rewrite !lookup_insert_Some in Ht.
        destruct Ht as [[_ <-]|[_ [[_ <-]|[_ [[_ <-]|[_ Ht]]]]]]; done. }
  apply reach_step with s2; [|by apply step_acquire].
  apply reach_step with s1; [|by apply (step_reuse 10 0 1 (fun _ => true))].
  apply reach_step with s0; [|by apply step_acquire].
  apply (reach_made 2 [Some 1%positive; None]); [|done]. csimpl. apply NoDup_singleton.
Qed.

Lemma pool_slots_conserved_witness : reachable 2 s5 /\ take_slot (pool s5) = None.
Proof.
  pose proof (pool_slots_conserved 2 s5 two_leases) as H.
  exact (conj two_leases (proj2 (proj1 (proj2 (proj2 H))) eq_refl)).
Defined.

End ConnectionPool.
