(* ===== verification/HubService.v ===== *)
(** * Hubs, roles and the hub caches

    [app/services/hub/HubService.{h,cpp}], [HubCache.{h,cpp}],
    [ChannelCache.h], [RolePolicy.h], [core/cache/AnyKey.h] and
    [OnMemoryCache.cpp]: hub, channel and membership reads through two caches,
    and the writes that keep them in step with the database.  The repository
    is a parameter [HubRepo D] over the database state [D]; what the service
    relies on of its SQL is the class [HubRepoLaws]. *)

From S2P Require Import Prelude.
From S2P Require Import CStrings.
From S2P Require Import Ids.
From S2P Require Import Protocol.
From Stdlib Require Import Ascii.
From stdpp Require Import sorting.

(** ** Domain records *)

Record Channel := mkChannel {
  ch_name : string; ch_id : ChannelId; ch_hub_id : HubId; ch_type : ChannelType }.

Record Hub := mkHub {
  hub_name : string; hub_id : HubId; hub_owner : UserId; hub_avatar_seed : string;
  hub_members : gmap UserId Role }.

Record HubSnapshot := mkSnapshot {
  sn_hub_id : HubId; sn_owner_id : UserId; sn_name : string; sn_avatar_seed : string;
  sn_channel_ids : list ChannelId; sn_member_roles : gmap UserId Role }.

(** [struct MemberRole] of the repository. *)
Abbreviation MemberRole := (UserId * Role)%type.

(** ** Role policy *)

Module RolePolicy.

Definition canInvite (actor_role : Role) : bool :=
  bool_decide (actor_role = OWNER) || bool_decide (actor_role = ADMIN).

Definition canKickHubMember (actor_role target_role : Role) (actor_id target_id : UserId) : bool :=
  if bool_decide (actor_id = target_id) then false
  else if bool_decide (target_role = OWNER) then false
  else if bool_decide (actor_role = OWNER)
       then bool_decide (target_role = ADMIN) || bool_decide (target_role = USER)
  else if bool_decide (actor_role = ADMIN) then bool_decide (target_role = USER)
  else false.

Definition canKickVoiceParticipant (actor_role target_role : Role) (actor_id target_id : UserId)
  : bool := canKickHubMember actor_role target_role actor_id target_id.

Definition canChangeMemberRole (actor_role target_role desired_role : Role)
  (actor_id target_id : UserId) : bool :=
  if negb (bool_decide (actor_role = OWNER)) then false
  else if bool_decide (actor_id = target_id) then false
  else if bool_decide (target_role = OWNER) then false
  else if bool_decide (desired_role = OWNER) then false
  else if negb (bool_decide (desired_role = ADMIN)) && negb (bool_decide (desired_role = USER))
       then false
  else if negb (bool_decide (target_role = ADMIN)) && negb (bool_decide (target_role = USER))
       then false
  else if bool_decide (target_role = desired_role) then false
  else true.

(** Seniority: [USER < ADMIN < OWNER]. *)
Definition rank (r : Role) : nat := match r with USER => 0 | ADMIN => 1 | OWNER => 2 end.

(** Who may act on whom.  Kicking needs strict seniority over the target
    (so never oneself and never an owner); changing a role is the owner's
    alone, never on oneself, never from or to owner, and always a change;
    inviting needs admin or above. *)
Theorem role_policy_is_seniority (a t d : Role) (actor target : UserId) :
  canInvite a = (1 <=? rank a) /\
  canKickHubMember a t actor target =
    (negb (bool_decide (actor = target)) && (rank t <? rank a)) /\
  canKickVoiceParticipant a t actor target = canKickHubMember a t actor target /\
  canChangeMemberRole a t d actor target =
    (negb (bool_decide (actor = target)) && (rank a =? 2) && (rank t <? 2) && (rank d <? 2) &&
     negb (rank t =? rank d)).
Proof.
  unfold canKickVoiceParticipant, canInvite, canKickHubMember, canChangeMemberRole.
  destruct (bool_decide (actor = target)), a, t, d; vm_compute; auto.
Qed.

End RolePolicy.

(** ** The repository *)

Class HubRepo (D : Type) := {
  repo_getHub : HubId -> EX D (option Hub);
  repo_getHubsByIds : list HubId -> EX D (list Hub);
  repo_getChannel : ChannelId -> EX D (option Channel);
  repo_getChannelsByIds : list ChannelId -> EX D (list Channel);
  repo_getHubChannelsByHubIds : list HubId -> EX D (gmap HubId (list Channel));
  repo_getHubMemberRoles : HubId -> EX D (list MemberRole);
  repo_getHubMemberRolesByHubIds : list HubId -> EX D (gmap HubId (list MemberRole));
  repo_getHubChannelIds : HubId -> EX D (list ChannelId);
  repo_getUserHubs : UserId -> EX D (list Hub);
  repo_createHub : string -> UserId -> EX D Hub;
  repo_createChannel : HubId -> string -> string -> UserId -> EX D ChannelId;
  repo_renameChannel : ChannelId -> string -> EX D bool;
  repo_deleteChannel : ChannelId -> HubId -> EX D bool;
  repo_renameHub : HubId -> string -> EX D bool;
  repo_updateHubAvatarSeed : HubId -> string -> EX D bool;
  repo_deleteHub : HubId -> UserId -> EX D bool;
  repo_addMember : HubId -> UserId -> string -> EX D unit;
  repo_removeMember : HubId -> UserId -> EX D unit
}.

Module HubService.

Definition role_to_string (role : Role) : string :=
  match role with OWNER => "owner" | ADMIN => "admin" | USER => "member" end.

(** [std::tolower] in the C locale. *)
Definition tolower (c : ascii) : ascii :=
  if ((65 <=? code c) && (code c <=? 90))%Z then chr (code c + 32) else c.

Fixpoint lower_string (s : string) : string :=
  match s with String c s' => String (tolower c) (lower_string s') | EmptyString => EmptyString end.

Definition channel_type_from_storage (type : string) : ChannelType :=
  if bool_decide (lower_string type = "voice"%string) then VOICE else CHAT.

Definition to_hub (snapshot : HubSnapshot) : Hub :=
  mkHub (sn_name snapshot) (sn_hub_id snapshot) (sn_owner_id snapshot) (sn_avatar_seed snapshot)
    {[sn_owner_id snapshot := OWNER]}.

(** Members are listed by user id. *)
Definition user_le (a b : MemberRole) : Prop :=
  String.leb (user_value a.1) (user_value b.1) = true.

#[global] Instance user_le_dec a b : Decision (user_le a b).
Proof. unfold user_le. apply _. Defined.

Section Service.
Context {D : Type} `{HubRepo D}.
(** [std::hash<HubId>]; the cache's [AnyKey] is the type and this hash, and
    two keys are equal when those are.  Any function: the source's [size_t]
    values are among them. *)
Variable hash : HubId -> Z.

Record t := mk {
  cache_ : gmap Z HubSnapshot;
  channel_cache_ : gmap ChannelId Channel;
  db : D
}.

Definition create (d : D) : t := mk ∅ ∅ d.

(** A repository call. *)
Definition repo {A} (m : EX D A) : EX t A :=
  fun s => let '(r, d') := m (db s) in (r, mk (cache_ s) (channel_cache_ s) d').

(** *** The caches *)

(** [HubCache::get]; the corrupted-entry case needs an entry of another type
    or a null snapshot, which [put] never stores. *)
Definition cache_get (s : t) (hubId : HubId) : option HubSnapshot := cache_ s !! hash hubId.

Definition cache_put (snapshot : HubSnapshot) : EX t unit :=
  ex_modify (fun s => mk (<[hash (sn_hub_id snapshot) := snapshot]> (cache_ s))
                         (channel_cache_ s) (db s)).

Definition cache_invalidate (hubId : HubId) : EX t unit :=
  ex_modify (fun s => mk (delete (hash hubId) (cache_ s)) (channel_cache_ s) (db s)).

Definition channel_put (channel : Channel) : EX t unit :=
  ex_modify (fun s => mk (cache_ s) (<[ch_id channel := channel]> (channel_cache_ s)) (db s)).

Definition channel_invalidate (channelId : ChannelId) : EX t unit :=
  ex_modify (fun s => mk (cache_ s) (delete channelId (channel_cache_ s)) (db s)).

(** *** Snapshots *)

(** [member_roles.insert_or_assign] over the rows. *)
Definition roles_of (members : list MemberRole) : gmap UserId Role :=
  foldl (fun m mr => <[mr.1 := mr.2]> m) ∅ members.

Definition buildSnapshot (hubId : HubId) : EX t (option HubSnapshot) :=
  (hub <-- repo (repo_getHub hubId);
   match hub with
   | None => ex_ret None
   | Some hub =>
     channel_ids <-- repo (repo_getHubChannelIds hubId);
     members <-- repo (repo_getHubMemberRoles hubId);
     let snapshot := mkSnapshot (hub_id hub) (hub_owner hub) (hub_name hub) (hub_avatar_seed hub)
                       channel_ids (roles_of members) in
     cache_put snapshot;;;
     ex_ret (Some snapshot)
   end)%ex.

Definition loadSnapshot (hubId : HubId) : EX t (option HubSnapshot) :=
  (cached <-- ex_gets (fun s => cache_get s hubId);
   match cached with
   | Some snapshot => ex_ret (Some snapshot)
   | None => buildSnapshot hubId
   end)%ex.

(** *** Reads *)

Definition getHub (hubId : HubId) : EX t (option Hub) :=
  (cached <-- ex_gets (fun s => cache_get s hubId);
   match cached with
   | Some snapshot => ex_ret (Some (to_hub snapshot))
   | None => repo (repo_getHub hubId)
   end)%ex.

Definition getChannel (channelId : ChannelId) : EX t (option Channel) :=
  (cached <-- ex_gets (fun s => channel_cache_ s !! channelId);
   match cached with
   | Some channel => ex_ret (Some channel)
   | None =>
     channel <-- repo (repo_getChannel channelId);
     match channel with
     | Some c => channel_put c;;; ex_ret channel
     | None => ex_ret channel
     end
   end)%ex.

(** The ids to look up: without empty ones and repetitions, in order. *)
Fixpoint distinct_ids {K} `{EqDecision K} (is_empty : K -> bool) (seen ids : list K) : list K :=
  match ids with
  | [] => []
  | k :: ids' =>
    if is_empty k || bool_decide (k ∈ seen) then distinct_ids is_empty seen ids'
    else k :: distinct_ids is_empty (k :: seen) ids'
  end.

Definition hub_is_empty (h : HubId) : bool := bool_decide (hub_value h = ""%string).
Definition channel_is_empty (c : ChannelId) : bool := bool_decide (channel_value c = ""%string).

Definition getChannelsByIds (channelIds : list ChannelId) : EX t (gmap ChannelId Channel) :=
  let ids := distinct_ids channel_is_empty [] channelIds in
  (cache <-- ex_gets channel_cache_;
   let hits := omap (fun c => ch ← cache !! c; Some (c, ch)) ids in
   let misses := filter (fun c => cache !! c = None) ids in
   let channels := list_to_map (M := gmap ChannelId Channel) hits in
   match misses with
   | [] => ex_ret channels
   | _ =>
     fetched <-- repo (repo_getChannelsByIds misses);
     ex_for fetched channel_put;;;
     ex_ret (foldl (fun m c => <[ch_id c := c]> m) channels fetched)
   end)%ex.

Definition getHubTopology (hubId : HubId) : EX t (list MemberRole * list ChannelId) :=
  (snapshot <-- loadSnapshot hubId;
   ex_ret match snapshot with
          | None => ([], [])
          | Some sn => (merge_sort user_le (map_to_list (sn_member_roles sn)), sn_channel_ids sn)
          end)%ex.

Definition getHubMembersWithRoles (hubId : HubId) : EX t (list MemberRole) :=
  (top <-- getHubTopology hubId; ex_ret top.1)%ex.

Definition getHubChannelIds (hubId : HubId) : EX t (list ChannelId) :=
  (top <-- getHubTopology hubId; ex_ret top.2)%ex.

Definition getHubChannels (hubId : HubId) : EX t (list Channel) :=
  (channel_ids <-- getHubChannelIds hubId;
   match channel_ids with
   | [] => ex_ret []
   | _ =>
     by_id <-- getChannelsByIds channel_ids;
     ex_ret (omap (fun c => by_id !! c) channel_ids)
   end)%ex.

Definition resolveMembershipRole (hubId : HubId) (userId : UserId) : EX t (option Role) :=
  (snapshot <-- loadSnapshot hubId;
   ex_ret match snapshot with
          | None => None
          | Some sn => sn_member_roles sn !! userId
          end)%ex.

Definition getMembershipRole (hubId : HubId) (userId : UserId) : EX t (option Role) :=
  resolveMembershipRole hubId userId.

Definition isHubMember (hubId : HubId) (userId : UserId) : EX t bool :=
  (r <-- resolveMembershipRole hubId userId; ex_ret (bool_decide (is_Some r)))%ex.

Definition getUserHubs (userId : UserId) : EX t (list Hub) := repo (repo_getUserHubs userId).

(** The snapshot a bulk read builds for one hub, its channels cached. *)
Definition put_bulk (channels_by_hub : gmap HubId (list Channel))
  (roles_by_hub : gmap HubId (list MemberRole)) (hub : Hub) : EX t unit :=
  let channels := default [] (channels_by_hub !! hub_id hub) in
  (ex_for channels channel_put;;;
   cache_put (mkSnapshot (hub_id hub) (hub_owner hub) (hub_name hub) (hub_avatar_seed hub)
                (ch_id <$> channels)
                (roles_of (default [] (roles_by_hub !! hub_id hub)))))%ex.

Definition getHubsByIds (hubIds : list HubId) : EX t (gmap HubId Hub) :=
  let ids := distinct_ids hub_is_empty [] hubIds in
  (s <-- ex_gets (fun s => s);
   let hits := omap (fun h => sn ← cache_get s h; Some (h, to_hub sn)) ids in
   let misses := filter (fun h => cache_get s h = None) ids in
   let hubs_by_id := list_to_map (M := gmap HubId Hub) hits in
   match misses with
   | [] => ex_ret hubs_by_id
   | _ =>
     fetched <-- repo (repo_getHubsByIds misses);
     channels_by_hub <-- repo (repo_getHubChannelsByHubIds (hub_id <$> fetched));
     roles_by_hub <-- repo (repo_getHubMemberRolesByHubIds (hub_id <$> fetched));
     ex_for fetched (put_bulk channels_by_hub roles_by_hub);;;
     ex_ret (foldl (fun m h => <[hub_id h := h]> m) hubs_by_id fetched)
   end)%ex.

(** The first hub of each id, in order. *)
Fixpoint distinct_hubs (seen : list HubId) (hubs : list Hub) : list Hub :=
  match hubs with
  | [] => []
  | h :: hubs' =>
    if hub_is_empty (hub_id h) || bool_decide (hub_id h ∈ seen) then distinct_hubs seen hubs'
    else h :: distinct_hubs (hub_id h :: seen) hubs'
  end.

Definition warmSnapshotsForHubs (hubs : list Hub) : EX t unit :=
  let all := distinct_hubs [] hubs in
  (s <-- ex_gets (fun s => s);
   if forallb (fun h => bool_decide (is_Some (cache_get s (hub_id h)))) all then ex_ret tt
   else
     channels_by_hub <-- repo (repo_getHubChannelsByHubIds (hub_id <$> all));
     roles_by_hub <-- repo (repo_getHubMemberRolesByHubIds (hub_id <$> all));
     ex_for all (put_bulk channels_by_hub roles_by_hub))%ex.

(** *** Writes *)

Definition createHub (name : string) (owner : UserId) : EX t Hub :=
  (hub <-- repo (repo_createHub name owner);
   cache_invalidate (hub_id hub);;;
   ex_ret hub)%ex.

Definition set_channel_ids (sn : HubSnapshot) (ids : list ChannelId) : HubSnapshot :=
  mkSnapshot (sn_hub_id sn) (sn_owner_id sn) (sn_name sn) (sn_avatar_seed sn) ids
    (sn_member_roles sn).

Definition createChannel (hubId : HubId) (name type : string) (created_by : UserId)
  : EX t ChannelId :=
  (channel_id <-- repo (repo_createChannel hubId name type created_by);
   channel_put (mkChannel name channel_id hubId (channel_type_from_storage type));;;
   cached <-- ex_gets (fun s => cache_get s hubId);
   match cached with
   | Some sn =>
     if bool_decide (channel_id ∈ sn_channel_ids sn) then ex_ret channel_id
     else cache_put (set_channel_ids sn (sn_channel_ids sn ++ [channel_id]));;; ex_ret channel_id
   | None => ex_ret channel_id
   end)%ex.

Definition renameChannel (channelId : ChannelId) (newName : string) : EX t bool :=
  (renamed <-- repo (repo_renameChannel channelId newName);
   if negb renamed then ex_ret false
   else
     cached <-- ex_gets (fun s => channel_cache_ s !! channelId);
     match cached with
     | Some c => channel_put (mkChannel newName (ch_id c) (ch_hub_id c) (ch_type c));;; ex_ret true
     | None => channel_invalidate channelId;;; ex_ret true
     end)%ex.

Definition deleteChannel (channelId : ChannelId) (hubId : HubId) : EX t bool :=
  (deleted <-- repo (repo_deleteChannel channelId hubId);
   if negb deleted then ex_ret false
   else
     channel_invalidate channelId;;;
     cached <-- ex_gets (fun s => cache_get s hubId);
     match cached with
     | Some sn =>
       cache_put (set_channel_ids sn (filter (fun c => c <> channelId) (sn_channel_ids sn)));;;
       ex_ret true
     | None => ex_ret true
     end)%ex.

Definition renameHub (hubId : HubId) (name : string) : EX t bool :=
  (result <-- repo (repo_renameHub hubId name);
   if (result : bool) then cache_invalidate hubId;;; ex_ret result else ex_ret result)%ex.

Definition updateHubAvatarSeed (hubId : HubId) (avatar_seed : string) : EX t bool :=
  (result <-- repo (repo_updateHubAvatarSeed hubId avatar_seed);
   if (result : bool) then cache_invalidate hubId;;; ex_ret result else ex_ret result)%ex.

Definition deleteHub (hubId : HubId) (owner : UserId) : EX t bool :=
  (channel_ids <-- getHubChannelIds hubId;
   result <-- repo (repo_deleteHub hubId owner);
   if (result : bool)
   then cache_invalidate hubId;;; ex_for channel_ids channel_invalidate;;; ex_ret result
   else ex_ret result)%ex.

Definition addMember (hubId : HubId) (userId : UserId) (role : Role) : EX t unit :=
  (repo (repo_addMember hubId userId (role_to_string role));;; cache_invalidate hubId)%ex.

Definition removeMember (hubId : HubId) (userId : UserId) : EX t unit :=
  (repo (repo_removeMember hubId userId);;; cache_invalidate hubId)%ex.

Definition invalidateSnapshot (hubId : HubId) : EX t unit := cache_invalidate hubId.

End Service.
End HubService.
