(* ===== verification/HubCoherence.v ===== *)
(** * The hub caches agree with the database

    What [HubService] relies on of the repository's SQL ([HubRepoLaws], read
    off [infra/persistence/repositories/HubRepository.cpp]), and the proof
    that under any sequence of service calls the hub snapshots and the cached
    channels are those of the database.  Also the ways to lose that: a
    collision of [std::hash], another spelling of an id, and a snapshot built
    from rows read before a concurrent write. *)

From S2P Require Import Prelude.
From S2P Require Import CStrings.
From S2P Require Import Ids.
From S2P Require Import Protocol.
From S2P Require Import HubService.

Module HubCoherence.
Import HubService.

(** ** What the tables hold *)

Record Tables := mkTables {
  tb_hubs : gmap HubId Hub;
  tb_channels : gmap ChannelId Channel;
  (** the hub's channels, by position and creation *)
  tb_order : gmap HubId (list ChannelId);
  tb_members : gmap HubId (list MemberRole)
}.

Definition order_of (tb : Tables) (h : HubId) : list ChannelId := default [] (tb_order tb !! h).
Definition members_of (tb : Tables) (h : HubId) : list MemberRole := default [] (tb_members tb !! h).

(** Primary and foreign keys. *)
Record tables_ok (tb : Tables) : Prop := mk_tables_ok {
  tk_hub : forall h hub, tb_hubs tb !! h = Some hub -> hub_id hub = h;
  tk_channel : forall c ch, tb_channels tb !! c = Some ch -> ch_id ch = c;
  tk_order : forall h c, c ∈ order_of tb h ->
    exists ch, tb_channels tb !! c = Some ch /\ ch_hub_id ch = h;
  tk_listed : forall c ch, tb_channels tb !! c = Some ch -> c ∈ order_of tb (ch_hub_id ch)
}.

(** The hub's row, channel order and members are the same. *)
Definition same_hub (tb tb' : Tables) (h : HubId) : Prop :=
  tb_hubs tb' !! h = tb_hubs tb !! h /\ order_of tb' h = order_of tb h /\
  members_of tb' h = members_of tb h.

(** The hub still exists, with the same channels and members. *)
Definition same_roster (tb tb' : Tables) (h : HubId) : Prop :=
  (is_Some (tb_hubs tb !! h) <-> is_Some (tb_hubs tb' !! h)) /\
  order_of tb' h = order_of tb h /\ members_of tb' h = members_of tb h.

Definition same_hubs (tb tb' : Tables) : Prop := forall h, same_hub tb tb' h.
Definition only_hub_changed (h : HubId) (tb tb' : Tables) : Prop :=
  forall h', h' <> h -> same_hub tb tb' h'.

(** A read answers [P] of the tables and changes nothing, also when it throws. *)
Definition reads {D A} (tables : D -> Tables) (m : EX D A) (P : Tables -> A -> Prop) : Prop :=
  forall d, tables (m d).2 = tables d /\
    match (m d).1 with Some a => P (tables d) a | None => True end.

(** A write that returns relates the tables by [P]; one that throws has been
    rolled back. *)
Definition writes {D A} (tables : D -> Tables) (m : EX D A) (P : Tables -> A -> Tables -> Prop)
  : Prop :=
  forall d, match (m d).1 with
            | Some a => P (tables d) a (tables (m d).2)
            | None => tables (m d).2 = tables d
            end.

(** [norm_hub], [norm_channel] and [norm_user]: ids reach PostgreSQL as
    [$1::uuid], so every spelling of a uuid names the same row, and come back
    as [id::text], the canonical spelling. *)
Class HubRepoLaws (D : Type) `{HubRepo D} := {
  tables : D -> Tables;
  norm_hub : HubId -> HubId;
  norm_channel : ChannelId -> ChannelId;
  norm_user : UserId -> UserId;
  law_tables : forall d, tables_ok (tables d);
  law_norm_hub : forall d h, is_Some (tb_hubs (tables d) !! h) -> norm_hub h = h;
  law_norm_channel : forall d c, is_Some (tb_channels (tables d) !! c) -> norm_channel c = c;
  law_norm_user : forall d h u, is_Some (roles_of (members_of (tables d) h) !! u) ->
    norm_user u = u;
  law_getHub h : reads tables (repo_getHub h) (fun tb r => r = tb_hubs tb !! norm_hub h);
  law_getHubsByIds hs : reads tables (repo_getHubsByIds hs) (fun tb r =>
    forall hub, hub ∈ r -> tb_hubs tb !! hub_id hub = Some hub);
  law_getChannel c : reads tables (repo_getChannel c) (fun tb r =>
    r = tb_channels tb !! norm_channel c);
  law_getChannelsByIds cs : reads tables (repo_getChannelsByIds cs) (fun tb r =>
    forall ch, ch ∈ r -> tb_channels tb !! ch_id ch = Some ch);
  law_getHubChannelsByHubIds hs : reads tables (repo_getHubChannelsByHubIds hs) (fun tb r =>
    forall h, h ∈ hs -> norm_hub h = h ->
      default [] (r !! h) = omap (fun c => tb_channels tb !! c) (order_of tb h));
  law_getHubMemberRoles h : reads tables (repo_getHubMemberRoles h) (fun tb r =>
    r = members_of tb (norm_hub h));
  law_getHubMemberRolesByHubIds hs : reads tables (repo_getHubMemberRolesByHubIds hs) (fun tb r =>
    forall h, h ∈ hs -> norm_hub h = h -> default [] (r !! h) = members_of tb h);
  law_getHubChannelIds h : reads tables (repo_getHubChannelIds h) (fun tb r =>
    r = order_of tb (norm_hub h));
  law_getUserHubs u : reads tables (repo_getUserHubs u) (fun tb r =>
    forall hub, hub ∈ r -> is_Some (roles_of (members_of tb (hub_id hub)) !! norm_user u) /\
      exists row, tb_hubs tb !! hub_id hub = Some row /\
      hub_owner row = hub_owner hub /\ hub_name row = hub_name hub /\
      hub_avatar_seed row = hub_avatar_seed hub);
  (** a fresh row; a trigger makes the owner its only member *)
  law_createHub n o : writes tables (repo_createHub n o) (fun tb hub tb' =>
    tb_hubs tb !! hub_id hub = None /\ tb_hubs tb' !! hub_id hub = Some hub /\
    roles_of (members_of tb' (hub_id hub)) = {[norm_user o := OWNER]} /\
    order_of tb' (hub_id hub) = [] /\
    only_hub_changed (hub_id hub) tb tb' /\ tb_channels tb' = tb_channels tb);
  law_createChannel h n ty by_ : writes tables (repo_createChannel h n ty by_) (fun tb c tb' =>
    tb_channels tb !! c = None /\
    tb_channels tb' =
      <[c := mkChannel n c (norm_hub h) (channel_type_from_storage ty)]> (tb_channels tb) /\
    only_hub_changed (norm_hub h) tb tb' /\ tb_hubs tb' !! norm_hub h = tb_hubs tb !! norm_hub h /\
    members_of tb' (norm_hub h) = members_of tb (norm_hub h) /\
    order_of tb' (norm_hub h) = order_of tb (norm_hub h) ++ [c]);
  law_renameChannel c n : writes tables (repo_renameChannel c n) (fun tb b tb' =>
    same_hubs tb tb' /\
    tb_channels tb' = if (b : bool)
      then alter (fun ch => mkChannel n (ch_id ch) (ch_hub_id ch) (ch_type ch)) (norm_channel c)
             (tb_channels tb)
      else tb_channels tb);
  law_deleteChannel c h : writes tables (repo_deleteChannel c h) (fun tb b tb' =>
    if (b : bool)
    then tb_channels tb' = delete (norm_channel c) (tb_channels tb) /\
      only_hub_changed (norm_hub h) tb tb' /\
      tb_hubs tb' !! norm_hub h = tb_hubs tb !! norm_hub h /\
      members_of tb' (norm_hub h) = members_of tb (norm_hub h) /\
      order_of tb' (norm_hub h) =
        filter (fun c' => c' <> norm_channel c) (order_of tb (norm_hub h))
    else same_hubs tb tb' /\ tb_channels tb' = tb_channels tb);
  (** the name and the avatar are no part of the members and channels *)
  law_renameHub h n : writes tables (repo_renameHub h n) (fun tb b tb' =>
    tb_channels tb' = tb_channels tb /\
    if (b : bool) then only_hub_changed (norm_hub h) tb tb' /\ same_roster tb tb' (norm_hub h)
    else same_hubs tb tb');
  law_updateHubAvatarSeed h n : writes tables (repo_updateHubAvatarSeed h n) (fun tb b tb' =>
    tb_channels tb' = tb_channels tb /\
    if (b : bool) then only_hub_changed (norm_hub h) tb tb' /\ same_roster tb tb' (norm_hub h)
    else same_hubs tb tb');
  law_deleteHub h o : writes tables (repo_deleteHub h o) (fun tb b tb' =>
    if (b : bool)
    then is_Some (tb_hubs tb !! norm_hub h) /\ only_hub_changed (norm_hub h) tb tb' /\
      forall c, c ∉ order_of tb (norm_hub h) -> tb_channels tb' !! c = tb_channels tb !! c
    else same_hubs tb tb' /\ tb_channels tb' = tb_channels tb);
  law_addMember h u r : writes tables (repo_addMember h u (role_to_string r)) (fun tb _ tb' =>
    only_hub_changed (norm_hub h) tb tb' /\ tb_channels tb' = tb_channels tb /\
    tb_hubs tb' !! norm_hub h = tb_hubs tb !! norm_hub h /\
    order_of tb' (norm_hub h) = order_of tb (norm_hub h) /\
    roles_of (members_of tb' (norm_hub h)) =
      <[norm_user u := r]> (roles_of (members_of tb (norm_hub h))));
  law_removeMember h u : writes tables (repo_removeMember h u) (fun tb _ tb' =>
    only_hub_changed (norm_hub h) tb tb' /\ tb_channels tb' = tb_channels tb /\
    tb_hubs tb' !! norm_hub h = tb_hubs tb !! norm_hub h /\
    order_of tb' (norm_hub h) = order_of tb (norm_hub h) /\
    roles_of (members_of tb' (norm_hub h)) =
      delete (norm_user u) (roles_of (members_of tb (norm_hub h))))
}.

(** The snapshot the tables determine. *)
Definition snapshot_of (tb : Tables) (h : HubId) : option HubSnapshot :=
  hub ← tb_hubs tb !! h;
  Some (mkSnapshot (hub_id hub) (hub_owner hub) (hub_name hub) (hub_avatar_seed hub)
          (order_of tb h) (roles_of (members_of tb h))).

(** ** Coherence *)

Section Coherence.
Context {D : Type} `{HubRepo D} `{!HubRepoLaws D}.
Variable hash : HubId -> Z.
(** The hubs in play, and that [std::hash] tells them apart. *)
Variable Hs : gset HubId.
Hypothesis hash_inj : forall h h', h ∈ Hs -> h' ∈ Hs -> hash h = hash h' -> h = h'.
Hypothesis hubs_known : forall d : D, dom (tb_hubs (tables d)) ⊆ Hs.
(** Their ids are spelled canonically. *)
Hypothesis hubs_norm : forall h, h ∈ Hs -> norm_hub h = h.

(** The caches [s] holds are those of the tables [tb]. *)
Record fits (tb : Tables) (s : t (D := D)) : Prop := mk_fits {
  fit_hub : forall k sn, cache_ s !! k = Some sn ->
    hash (sn_hub_id sn) = k /\ snapshot_of tb (sn_hub_id sn) = Some sn;
  fit_channel : forall c ch, channel_cache_ s !! c = Some ch -> tb_channels tb !! c = Some ch
}.

Definition coherent (s : t (D := D)) : Prop := fits (tables (db s)) s.

(** [at_ tb s]: coherent, with the tables [tb]. *)
Definition at_ (tb : Tables) (s : t (D := D)) : Prop := tables (db s) = tb /\ fits tb s.

Lemma snapshot_of_id tb h sn : tables_ok tb -> snapshot_of tb h = Some sn -> sn_hub_id sn = h.
Proof using.
  intros Hok. unfold snapshot_of. destruct (tb_hubs tb !! h) as [hub|] eqn:E; [|done].
  intros [= <-]. simpl. by apply (tk_hub _ Hok).
Qed.

Lemma snapshot_same tb tb' h : same_hub tb tb' h -> snapshot_of tb' h = snapshot_of tb h.
Proof using. intros (H1 & H2 & H3). unfold snapshot_of. by rewrite H1, H2, H3. Qed.

Lemma at_wf tb s : at_ tb s -> tables_ok tb.
Proof using HubRepoLaws0. intros [<- _]. apply law_tables. Qed.

Lemma at_norm tb s h : at_ tb s -> is_Some (tb_hubs tb !! h) -> norm_hub h = h.
Proof using. intros [<- _]. apply law_norm_hub. Qed.

Lemma at_norm_channel tb s c : at_ tb s -> is_Some (tb_channels tb !! c) -> norm_channel c = c.
Proof using. intros [<- _]. apply law_norm_channel. Qed.

Lemma known_hub d h sn : snapshot_of (tables d) h = Some sn -> h ∈ Hs.
Proof using hubs_known.
  unfold snapshot_of. destruct (tb_hubs (tables d) !! h) eqn:E; [|done]. intros _.
  apply (hubs_known d). apply elem_of_dom. eauto.
Qed.

(** A cached snapshot found under [h] is [h]'s. *)
Lemma cache_get_snapshot tb s h sn :
  at_ tb s -> h ∈ Hs -> cache_get hash s h = Some sn -> snapshot_of tb h = Some sn.
Proof using HubRepoLaws0 hash_inj hubs_known hubs_norm.
  intros [Ht Hf] Hh Hc. destruct (fit_hub _ _ Hf _ _ Hc) as [Hk Hsn].
  assert (sn_hub_id sn = h) as <-; [|done]. apply hash_inj; [|done|done].
  rewrite <- Ht in Hsn. by eapply known_hub.
Qed.

Lemma read_at {A} (m : EX D A) P tb :
  reads tables m P -> ex_triple (at_ tb) (repo m) (fun a s => at_ tb s /\ P tb a) (at_ tb).
Proof using.
  intros Hm s [Ht Hf]. unfold repo. specialize (Hm (db s)). rewrite Ht in Hm.
  destruct (m (db s)) as [[a|] d']; simpl in *; destruct Hm as [Hd HP].
  - split; [|done]. by split; [|destruct Hf; split].
  - by split; [|destruct Hf; split].
Qed.

Lemma cache_put_at tb sn :
  snapshot_of tb (sn_hub_id sn) = Some sn ->
  ex_triple (at_ tb) (cache_put hash sn) (fun _ => at_ tb) (at_ tb).
Proof using.
  intros Hsn. apply ex_triple_modify. intros s [Ht [Hf1 Hf2]]. split; [done|]. split; simpl.
  - intros k sn' [[<- <-]|[_ Hk]]%lookup_insert_Some; [done|by apply Hf1].
  - done.
Qed.

Lemma channel_put_at tb ch :
  tb_channels tb !! ch_id ch = Some ch ->
  ex_triple (at_ tb) (channel_put ch) (fun _ => at_ tb) (at_ tb).
Proof using.
  intros Hch. apply ex_triple_modify. intros s [Ht [Hf1 Hf2]]. split; [done|]. split; simpl; [done|].
  intros c ch' [[<- <-]|[_ Hk]]%lookup_insert_Some; [done|by apply Hf2].
Qed.

(** *** Reads *)

Lemma buildSnapshot_at tb h :
  tables_ok tb -> norm_hub h = h ->
  ex_triple (at_ tb) (buildSnapshot hash h) (fun r s => at_ tb s /\ r = snapshot_of tb h) (at_ tb).
Proof using.
  intros Hok Hn. unfold buildSnapshot. eapply ex_triple_bind; [apply read_at, law_getHub|].
  intros hub. apply ex_triple_pure. rewrite Hn. intros ->. unfold snapshot_of.
  destruct (tb_hubs tb !! h) as [hub|] eqn:Eh; [|by apply ex_triple_ret]. simpl.
  eapply ex_triple_bind; [apply read_at, law_getHubChannelIds|].
  intros ids. apply ex_triple_pure. rewrite Hn. intros ->.
  eapply ex_triple_bind; [apply read_at, law_getHubMemberRoles|].
  intros members. apply ex_triple_pure. rewrite Hn. intros ->.
  eapply ex_triple_bind; [apply (cache_put_at tb)|].
  - simpl. unfold snapshot_of. rewrite (tk_hub _ Hok _ _ Eh), Eh. simpl.
    by rewrite (tk_hub _ Hok _ _ Eh).
  - intros []. by apply ex_triple_ret.
Qed.

Lemma loadSnapshot_at tb h :
  h ∈ Hs ->
  ex_triple (at_ tb) (loadSnapshot hash h) (fun r s => at_ tb s /\ r = snapshot_of tb h) (at_ tb).
Proof using HubRepoLaws0 hash_inj hubs_known hubs_norm.
  intros Hh s Hs'. pose proof (at_wf _ _ Hs') as Hok. unfold loadSnapshot, ex_bind. simpl.
  destruct (cache_get hash s h) as [sn|] eqn:E.
  - simpl. split; [done|]. symmetry. by eapply cache_get_snapshot.
  - by apply buildSnapshot_at; [|apply hubs_norm|].
Qed.

Lemma resolve_at tb h u :
  h ∈ Hs ->
  ex_triple (at_ tb) (resolveMembershipRole hash h u)
    (fun r s => at_ tb s /\ r = (sn ← snapshot_of tb h; sn_member_roles sn !! u)) (at_ tb).
Proof using HubRepoLaws0 hash_inj hubs_known hubs_norm.
  intros Hh. unfold resolveMembershipRole. eapply ex_triple_bind; [by apply loadSnapshot_at|].
  intros r. apply ex_triple_pure. intros ->. apply ex_triple_ret. intros s Hs'. split; [done|].
  by destruct (snapshot_of tb h).
Qed.

Lemma topology_at tb h :
  h ∈ Hs ->
  ex_triple (at_ tb) (getHubTopology hash h)
    (fun r s => at_ tb s /\ r.2 = default [] (sn_channel_ids <$> snapshot_of tb h)) (at_ tb).
Proof using HubRepoLaws0 hash_inj hubs_known hubs_norm.
  intros Hh. unfold getHubTopology. eapply ex_triple_bind; [by apply loadSnapshot_at|].
  intros r. apply ex_triple_pure. intros ->. apply ex_triple_ret. intros s Hs'. split; [done|].
  by destruct (snapshot_of tb h).
Qed.

Lemma channelIds_at tb h :
  h ∈ Hs ->
  ex_triple (at_ tb) (getHubChannelIds hash h)
    (fun r s => at_ tb s /\ r = default [] (sn_channel_ids <$> snapshot_of tb h)) (at_ tb).
Proof using HubRepoLaws0 hash_inj hubs_known hubs_norm.
  intros Hh. unfold getHubChannelIds. eapply ex_triple_bind; [by apply topology_at|].
  intros r. apply ex_triple_pure. intros <-. by apply ex_triple_ret.
Qed.

Lemma getChannel_at tb c :
  ex_triple (at_ tb) (getChannel c)
    (fun r s => at_ tb s /\ r = tb_channels tb !! norm_channel c) (at_ tb).
Proof using.
  intros s Hs'. pose proof (at_wf _ _ Hs') as Hok. unfold getChannel, ex_bind at 1. simpl.
  destruct (channel_cache_ s !! c) as [ch|] eqn:E.
  - simpl. split; [done|]. symmetry. pose proof (fit_channel _ _ (proj2 Hs') _ _ E) as Hc.
    by rewrite (at_norm_channel _ _ _ Hs') by eauto.
  - revert s Hs' E. intros s Hs' _. revert s Hs'.
    eapply ex_triple_bind; [apply read_at, law_getChannel|]. intros r. apply ex_triple_pure.
    intros ->. destruct (tb_channels tb !! norm_channel c) as [ch|] eqn:Ec; [|by apply ex_triple_ret].
    eapply ex_triple_bind; [apply (channel_put_at tb)|].
    + by rewrite (tk_channel _ Hok _ _ Ec).
    + intros []. by apply ex_triple_ret.
Qed.

Lemma getChannelsByIds_at tb cs :
  ex_triple (at_ tb) (getChannelsByIds cs) (fun _ => at_ tb) (at_ tb).
Proof using.
  unfold getChannelsByIds. eapply ex_triple_bind; [apply ex_triple_gets_keep|]. intros cache.
  destruct (filter _ _) as [|m ms]; [by apply ex_triple_ret|].
  eapply ex_triple_bind; [apply read_at, law_getChannelsByIds|]. intros fetched.
  apply ex_triple_pure. intros Hf. eapply ex_triple_bind.
  - apply ex_triple_for. intros ch Hch. by apply channel_put_at, Hf.
  - intros []. by apply ex_triple_ret.
Qed.

Lemma put_bulk_at tb hub chans roles :
  tables_ok tb ->
  tb_hubs tb !! hub_id hub = Some hub \/
    (exists row, tb_hubs tb !! hub_id hub = Some row /\ hub_owner row = hub_owner hub /\
       hub_name row = hub_name hub /\ hub_avatar_seed row = hub_avatar_seed hub) ->
  default [] (chans !! hub_id hub) =
    omap (fun c => tb_channels tb !! c) (order_of tb (hub_id hub)) ->
  default [] (roles !! hub_id hub) = members_of tb (hub_id hub) ->
  ex_triple (at_ tb) (put_bulk hash chans roles hub) (fun _ => at_ tb) (at_ tb).
Proof using.
  intros Hok Hrow Hc Hr. unfold put_bulk. rewrite Hc, Hr. eapply ex_triple_bind.
  - apply ex_triple_for. intros ch Hch. apply (channel_put_at tb).
    apply list_elem_of_omap in Hch as (c & _ & Hch). by rewrite (tk_channel _ Hok _ _ Hch).
  - intros []. apply cache_put_at. simpl. unfold snapshot_of.
    assert (Hids : ch_id <$> omap (fun c => tb_channels tb !! c) (order_of tb (hub_id hub)) =
                   order_of tb (hub_id hub)).
    { assert (Hin : forall c, c ∈ order_of tb (hub_id hub) ->
        exists ch, tb_channels tb !! c = Some ch /\ ch_id ch = c).
      { intros c Hc'. destruct (tk_order _ Hok _ _ Hc') as (ch & Hch & _).
        exists ch. split; [done|]. by apply (tk_channel _ Hok). }
      revert Hin. clear. induction (order_of tb (hub_id hub)) as [|c l IH]; intros Hin; [done|].
      destruct (Hin c ltac:(left)) as (ch & Hch & Hid). simpl. rewrite Hch. simpl. rewrite Hid.
      f_equal. apply IH. intros c' Hc'. apply Hin. by right. }
    rewrite Hids. destruct Hrow as [->|(row & Erow & Ho & Hn & Ha)]; [done|].
    rewrite Erow. simpl. by rewrite Ho, Hn, Ha, (tk_hub _ Hok _ _ Erow).
Qed.

Lemma getHubsByIds_at tb hs :
  ex_triple (at_ tb) (getHubsByIds hash hs) (fun _ => at_ tb) (at_ tb).
Proof using.
  intros s Hs'. pose proof (at_wf _ _ Hs') as Hok. assert (Hs0 := Hs'). revert Hs0.
  generalize s at 1. intros s' Hs0. revert s Hs'.
  unfold getHubsByIds. eapply ex_triple_bind; [apply ex_triple_gets_keep|]. intros s0.
  destruct (filter _ _) as [|m ms]; [by apply ex_triple_ret|].
  eapply ex_triple_bind; [apply read_at, law_getHubsByIds|]. intros fetched.
  apply ex_triple_pure. intros Hf.
  eapply ex_triple_bind; [apply read_at, law_getHubChannelsByHubIds|]. intros chans.
  apply ex_triple_pure. intros Hc.
  eapply ex_triple_bind; [apply read_at, law_getHubMemberRolesByHubIds|]. intros roles.
  apply ex_triple_pure. intros Hr. eapply ex_triple_bind.
  - apply ex_triple_for. intros hub Hhub.
    assert (hub_id hub ∈ hub_id <$> fetched) by (apply list_elem_of_fmap; eauto).
    assert (norm_hub (hub_id hub) = hub_id hub) by (eapply at_norm; eauto).
    apply put_bulk_at; [done|left; by apply Hf|by apply Hc|by apply Hr].
  - intros []. by apply ex_triple_ret.
Qed.

(** [warmSnapshotsForHubs] is called with hubs read from the database. *)
Lemma distinct_hubs_in seen hubs hub :
  hub ∈ distinct_hubs seen hubs -> hub ∈ hubs.
Proof using.
  clear. revert seen. induction hubs as [|h hubs IH]; intros seen; simpl; [done|].
  destruct (_ || _); [|rewrite elem_of_cons; intros [->|Hin]; [left|]];
    try (intros Hin); right; by eapply IH.
Qed.

Lemma warm_at tb hubs :
  (forall hub, hub ∈ hubs -> exists row, tb_hubs tb !! hub_id hub = Some row /\
     hub_owner row = hub_owner hub /\ hub_name row = hub_name hub /\
     hub_avatar_seed row = hub_avatar_seed hub) ->
  ex_triple (at_ tb) (warmSnapshotsForHubs hash hubs) (fun _ => at_ tb) (at_ tb).
Proof using.
  intros Hrows s Hs'. pose proof (at_wf _ _ Hs') as Hok. assert (Hs0 := Hs'). revert Hs0.
  generalize s at 1. intros s' Hs0. revert s Hs'.
  unfold warmSnapshotsForHubs. eapply ex_triple_bind; [apply ex_triple_gets_keep|]. intros s0.
  destruct (forallb _ _); [by apply ex_triple_ret|].
  eapply ex_triple_bind; [apply read_at, law_getHubChannelsByHubIds|]. intros chans.
  apply ex_triple_pure. intros Hc.
  eapply ex_triple_bind; [apply read_at, law_getHubMemberRolesByHubIds|]. intros roles.
  apply ex_triple_pure. intros Hr. apply ex_triple_for. intros hub Hhub.
  assert (hub_id hub ∈ hub_id <$> distinct_hubs [] hubs) by (apply list_elem_of_fmap; eauto).
  destruct (Hrows hub) as (row & Hrow & Hfields); [by eapply distinct_hubs_in|].
  assert (norm_hub (hub_id hub) = hub_id hub) by (eapply at_norm; eauto).
  apply put_bulk_at; [done|right; eauto|by apply Hc|by apply Hr].
Qed.

(** *** Writes *)

(** After a write that returned, the caches still fit the old tables. *)
Lemma write_fits {A} (m : EX D A) P tb s :
  writes tables m P -> at_ tb s ->
  match repo m s with
  | (Some a, s') => fits tb s' /\ P tb a (tables (db s'))
  | (None, s') => at_ tb s'
  end.
Proof using.
  intros Hm [Ht [Hf1 Hf2]]. unfold repo. specialize (Hm (db s)). rewrite Ht in Hm.
  destruct (m (db s)) as [[a|] d']; simpl in *; [done|]. by split.
Qed.

(** Fitting the old tables is enough when nothing cached has changed. *)
Lemma fits_same tb tb' s :
  fits tb s -> same_hubs tb tb' -> tb_channels tb' = tb_channels tb -> fits tb' s.
Proof using.
  intros [H1 H2] Hh Hc. split.
  - intros k sn Hk. destruct (H1 _ _ Hk) as [? ?]. split; [done|].
    by rewrite (snapshot_same tb).
  - intros c ch Hch. rewrite Hc. by apply H2.
Qed.

(** Dropping the changed hub's entry restores coherence. *)
Lemma invalidate_coherent tb h s :
  fits tb s -> only_hub_changed h tb (tables (db s)) ->
  (forall c ch, channel_cache_ s !! c = Some ch -> tb_channels (tables (db s)) !! c = Some ch) ->
  coherent (cache_invalidate hash h s).2.
Proof using.
  intros [H1 H2] Ho Hc. split; simpl; [|done].
  intros k sn [Hk Hl]%lookup_delete_Some. destruct (H1 _ _ Hl) as [Hid Hsn].
  split; [done|]. rewrite <- Hsn. apply snapshot_same, Ho. intros Heq. by subst.
Qed.

Definition keeps {A} (m : EX (t (D := D)) A) : Prop := ex_preserves coherent m.

Lemma triple_keeps {A} (m : EX (t (D := D)) A) Q :
  (forall tb, ex_triple (at_ tb) m (fun a s => at_ tb s /\ Q tb a s) (at_ tb)) -> keeps m.
Proof using.
  intros Hm s Hs'. specialize (Hm (tables (db s)) s (conj eq_refl Hs')).
  destruct (m s) as [[a|] s']; simpl.
  - destruct Hm as [[Ht Hf] _]. unfold coherent. by rewrite Ht.
  - destruct Hm as [Ht Hf]. unfold coherent. by rewrite Ht.
Qed.

Lemma triple_keeps' {A} (m : EX (t (D := D)) A) :
  (forall tb, ex_triple (at_ tb) m (fun _ => at_ tb) (at_ tb)) -> keeps m.
Proof using.
  intros Hm. apply (triple_keeps m (fun _ _ _ => True)). intros tb.
  eapply ex_triple_conseq; [apply Hm|done|done|done].
Qed.

(** A write whose only effect on the tables is on one hub, then invalidated. *)
Lemma write_invalidate_keeps {A B} (m : EX D A) P (h : A -> HubId) (r : A -> B) :
  writes tables m P ->
  (forall tb a tb', P tb a tb' ->
     only_hub_changed (h a) tb tb' /\ tb_channels tb' = tb_channels tb) ->
  keeps (ex_bind (repo m) (fun a => ex_bind (cache_invalidate hash (h a)) (fun _ => ex_ret (r a)))).
Proof using.
  intros Hm HP s Hs'. pose proof (write_fits m P (tables (db s)) s Hm (conj eq_refl Hs')) as Hw.
  unfold ex_bind. destruct (repo m s) as [[a|] s'].
  - destruct Hw as [Hf Ha]. apply HP in Ha as [Ho Hc].
    apply (invalidate_coherent (tables (db s)) (h a) s' Hf Ho).
    intros c ch Hch. rewrite Hc. by apply (fit_channel _ _ Hf).
  - destruct Hw as [Ht Hf]. unfold coherent. simpl. by rewrite Ht.
Qed.

(** The same for a write that reports whether it changed anything. *)
Lemma write_if_invalidate_keeps (m : EX D bool) P h :
  writes tables m P ->
  (forall tb b tb', P tb b tb' -> tb_channels tb' = tb_channels tb /\
     if (b : bool) then only_hub_changed h tb tb' else same_hubs tb tb') ->
  keeps (ex_bind (repo m) (fun b =>
    if (b : bool) then ex_bind (cache_invalidate hash h) (fun _ => ex_ret b) else ex_ret b)).
Proof using.
  intros Hm HP s Hs'. pose proof (write_fits m P (tables (db s)) s Hm (conj eq_refl Hs')) as Hw.
  unfold ex_bind. destruct (repo m s) as [[[]|] s'].
  - destruct Hw as [Hf Ha]. apply HP in Ha as [Hc Ho].
    apply (invalidate_coherent (tables (db s)) h s' Hf Ho).
    intros c ch Hch. rewrite Hc. by apply (fit_channel _ _ Hf).
  - destruct Hw as [Hf Ha]. apply HP in Ha as [Hc Ho]. by apply (fits_same (tables (db s))).
  - destruct Hw as [Ht Hf]. unfold coherent. simpl. by rewrite Ht.
Qed.

(** The hub entries fit [tb]; the channels of [s] fit its own tables. *)
Definition hubs_fit (tb : Tables) (s : t (D := D)) : Prop :=
  forall k sn, cache_ s !! k = Some sn ->
    hash (sn_hub_id sn) = k /\ snapshot_of tb (sn_hub_id sn) = Some sn.
Definition channels_fit (s : t (D := D)) : Prop :=
  forall c ch, channel_cache_ s !! c = Some ch -> tb_channels (tables (db s)) !! c = Some ch.

(** The cached snapshot of a changed hub is patched, or there is none. *)
Lemma patch_coherent d s h (patch : HubSnapshot -> HubSnapshot) :
  h ∈ Hs -> hubs_fit (tables d) s -> channels_fit s ->
  only_hub_changed h (tables d) (tables (db s)) ->
  (forall sn, snapshot_of (tables d) h = Some sn ->
     sn_hub_id (patch sn) = h /\ snapshot_of (tables (db s)) h = Some (patch sn)) ->
  coherent (match cache_get hash s h with
            | Some sn => (cache_put hash (patch sn) s).2
            | None => s
            end).
Proof using hash_inj hubs_known hubs_norm.
  intros Hh H1 H2 Ho Hpatch. unfold cache_get.
  destruct (cache_ s !! hash h) as [sn|] eqn:Esn; split; simpl; try done.
  - destruct (H1 _ _ Esn) as [Hk Hsn].
    assert (Hid : sn_hub_id sn = h) by (apply hash_inj; [by eapply known_hub|done|done]).
    rewrite Hid in Hsn. destruct (Hpatch _ Hsn) as [Hid' Hsn'].
    intros k sn' [[<- <-]|[Hk' Hl]]%lookup_insert_Some; [by rewrite Hid'|].
    destruct (H1 _ _ Hl) as [Hid'' Hsn'']. split; [done|]. rewrite <- Hsn''.
    apply snapshot_same, Ho. intros Heq. rewrite Heq in Hid''. rewrite Hid' in Hk'. congruence.
  - intros k sn Hl. destruct (H1 _ _ Hl) as [Hid Hsn]. split; [done|]. rewrite <- Hsn.
    apply snapshot_same, Ho. intros Heq. rewrite Heq in Hid. congruence.
Qed.

Lemma createChannel_keeps h n ty by_ : h ∈ Hs -> keeps (createChannel hash h n ty by_).
Proof using hash_inj hubs_known hubs_norm.
  intros Hh s Hs'. unfold createChannel, ex_bind at 1.
  pose proof (write_fits _ _ (tables (db s)) s (law_createChannel h n ty by_) (conj eq_refl Hs')) as Hw.
  destruct (repo _ s) as [[c|] s1].
  2:{ destruct Hw as [Ht Hf]. unfold coherent. simpl. by rewrite Ht. }
  destruct Hw as [Hf (Hnew & Hchans & Ho & Hhub & Hmem & Hord)].
  rewrite (hubs_norm _ Hh) in Hchans, Ho, Hhub, Hmem, Hord.
  set (ch := mkChannel n c h (channel_type_from_storage ty)).
  set (s2 := mk (cache_ s1) (<[ch_id ch := ch]> (channel_cache_ s1)) (db s1)).
  assert (Hp : coherent (match cache_get hash s2 h with
    | Some sn => (cache_put hash (set_channel_ids sn (sn_channel_ids sn ++ [c])) s2).2
    | None => s2 end)).
  { apply (patch_coherent (db s)); [done|exact (fit_hub _ _ Hf)| |done|].
    - intros c' ch'. simpl. rewrite Hchans, !lookup_insert_Some.
      intros [[<- <-]|[Hne Hl]]; [by left|]. right. split; [done|]. by apply (fit_channel _ _ Hf).
    - intros sn Hsn. split; [exact (snapshot_of_id _ _ _ (law_tables (db s)) Hsn)|].
      unfold snapshot_of in *. simpl. rewrite Hhub, Hord, Hmem.
      destruct (tb_hubs (tables (db s)) !! h); [|done]. simpl in *. by injection Hsn as <-. }
  unfold ex_bind at 1. cbn [channel_put ex_modify]. fold ch. fold s2.
  unfold ex_bind at 1. cbn [ex_gets]. destruct (cache_get hash s2 h) as [sn|] eqn:Esn; [|done].
  rewrite bool_decide_eq_false_2; [exact Hp|]. intros Hin.
  destruct (fit_hub _ _ Hf _ _ Esn) as [Hk Hsn]. unfold snapshot_of in Hsn.
  destruct (tb_hubs (tables (db s)) !! sn_hub_id sn); [|done]. simpl in Hsn.
  injection Hsn as Hsn. apply (f_equal sn_channel_ids) in Hsn. simpl in Hsn. rewrite <- Hsn in Hin.
  destruct (tk_order _ (law_tables (db s)) _ _ Hin) as (x & Hx & _). congruence.
Qed.

Lemma deleteChannel_keeps c h : norm_channel c = c -> h ∈ Hs -> keeps (deleteChannel hash c h).
Proof using hash_inj hubs_known hubs_norm.
  intros Hc Hh s Hs'. unfold deleteChannel, ex_bind at 1.
  pose proof (write_fits _ _ (tables (db s)) s (law_deleteChannel c h) (conj eq_refl Hs')) as Hw.
  destruct (repo _ s) as [[[]|] s1]; simpl.
  - destruct Hw as [Hf (Hchans & Ho & Hhub & Hmem & Hord)].
    rewrite (hubs_norm _ Hh) in Ho, Hhub, Hmem, Hord. rewrite Hc in Hchans, Hord.
    set (s2 := mk (cache_ s1) (delete c (channel_cache_ s1)) (db s1)).
    assert (Hp : coherent (match cache_get hash s2 h with
      | Some sn => (cache_put hash (set_channel_ids sn
                      (filter (fun c' => c' <> c) (sn_channel_ids sn))) s2).2
      | None => s2 end)).
    { apply (patch_coherent (db s)); [done|exact (fit_hub _ _ Hf)| |done|].
      - intros c' ch'. simpl. rewrite Hchans, !lookup_delete_Some. intros [Hne Hl].
        split; [done|]. by apply (fit_channel _ _ Hf).
      - intros sn Hsn. split; [exact (snapshot_of_id _ _ _ (law_tables (db s)) Hsn)|].
        unfold snapshot_of in *. simpl. rewrite Hhub, Hord, Hmem.
        destruct (tb_hubs (tables (db s)) !! h); [|done]. simpl in *. by injection Hsn as <-. }
    unfold ex_bind at 1. cbn [channel_invalidate ex_modify]. fold s2.
    unfold ex_bind at 1. cbn [ex_gets]. by destruct (cache_get hash s2 h).
  - destruct Hw as [Hf [Ho Hch]]. by apply (fits_same (tables (db s))).
  - destruct Hw as [Ht Hf]. unfold coherent. simpl. by rewrite Ht.
Qed.

Lemma renameChannel_keeps c n : norm_channel c = c -> keeps (renameChannel c n).
Proof using.
  intros Hnc s Hs'. unfold renameChannel, ex_bind at 1.
  pose proof (write_fits _ _ (tables (db s)) s (law_renameChannel c n) (conj eq_refl Hs')) as Hw.
  destruct (repo _ s) as [[[]|] s1]; simpl.
  - destruct Hw as [Hf [Ho Hc]]. rewrite Hnc in Hc.
    assert (Hhubs : hubs_fit (tables (db s1)) s1).
    { intros k sn Hk. destruct (fit_hub _ _ Hf _ _ Hk). split; [done|].
      by rewrite (snapshot_same (tables (db s))). }
    unfold ex_bind at 1. cbn [ex_gets]. destruct (channel_cache_ s1 !! c) as [ch|] eqn:E.
    + unfold ex_bind. simpl. split; [done|]. simpl. rewrite Hc.
      pose proof (fit_channel _ _ Hf _ _ E) as Hch.
      rewrite (tk_channel _ (law_tables (db s)) _ _ Hch).
      intros c' ch' [[<- <-]|[Hne Hl]]%lookup_insert_Some.
      * rewrite lookup_alter_eq, Hch. simpl. by rewrite (tk_channel _ (law_tables (db s)) _ _ Hch).
      * rewrite lookup_alter_ne by done. by apply (fit_channel _ _ Hf).
    + unfold ex_bind. simpl. split; [done|]. simpl. rewrite Hc.
      intros c' ch' [Hne Hl]%lookup_delete_Some. rewrite lookup_alter_ne by done.
      by apply (fit_channel _ _ Hf).
  - destruct Hw as [Hf [Ho Hc]]. by apply (fits_same (tables (db s))).
  - destruct Hw as [Ht Hf]. unfold coherent. simpl. by rewrite Ht.
Qed.

Lemma invalidate_channels_lookup cs : forall s : t (D := D),
  let s' := (ex_for cs channel_invalidate s).2 in
  cache_ s' = cache_ s /\ db s' = db s /\ (ex_for cs channel_invalidate s).1 = Some tt /\
  forall c, channel_cache_ s' !! c = if decide (c ∈ cs) then None else channel_cache_ s !! c.
Proof using.
  clear. induction cs as [|c0 cs IH]; intros s; simpl; [done|].
  unfold ex_bind. cbn [channel_invalidate ex_modify].
  destruct (IH (mk (cache_ s) (delete c0 (channel_cache_ s)) (db s))) as (H1 & H2 & H3 & H4).
  simpl in *. split_and!; [done|done|done|]. intros c. rewrite H4, lookup_delete.
  repeat case_decide; try done; set_solver.
Qed.

Lemma deleteHub_keeps h o : h ∈ Hs -> keeps (deleteHub hash h o).
Proof using hash_inj hubs_known hubs_norm.
  intros Hh s Hs'. unfold deleteHub, ex_bind at 1.
  pose proof (channelIds_at (tables (db s)) h Hh s (conj eq_refl Hs')) as Hids.
  destruct (getHubChannelIds hash h s) as [[ids|] s0].
  2:{ destruct Hids as [Ht Hf]. unfold coherent. simpl. by rewrite Ht. }
  destruct Hids as [Hat ->]. unfold ex_bind at 1.
  pose proof (write_fits _ _ _ s0 (law_deleteHub h o) Hat) as Hw.
  destruct (repo _ s0) as [[[]|] s1].
  - destruct Hw as [Hf (Hhub & Ho & Hc)]. rewrite (hubs_norm _ Hh) in Hhub, Ho, Hc.
    destruct Hhub as [hub Hhub]. unfold ex_bind at 1.
    cbn [cache_invalidate ex_modify].
    set (s2 := mk (delete (hash h) (cache_ s1)) (channel_cache_ s1) (db s1)).
    unfold ex_bind. set (ids := default [] _).
    destruct (invalidate_channels_lookup ids s2) as (H1 & H2 & H3 & H4).
    destruct (ex_for ids channel_invalidate s2) as [r s3]. simpl in H1, H2, H3, H4. subst r. simpl.
    split; rewrite ?H1, H2; simpl.
    + intros k sn [Hk Hl]%lookup_delete_Some. destruct (fit_hub _ _ Hf _ _ Hl) as [Hid Hsn].
      split; [done|]. rewrite <- Hsn. apply snapshot_same, Ho. intros Heq. by subst.
    + intros c ch. rewrite H4. case_decide as Hin; [done|]. intros Hl.
      pose proof (fit_channel _ _ Hf _ _ Hl) as Hch. rewrite Hc; [done|].
      intros Hin'. apply Hin. subst ids. unfold snapshot_of. by rewrite Hhub.
  - destruct Hw as [Hf [Ho Hc]]. by apply (fits_same (tables (db s))).
  - destruct Hw as [Ht Hf]. unfold coherent. simpl. by rewrite Ht.
Qed.

(** ** Sequences of calls *)

Inductive op :=
  | GetHub (h : HubId) | GetHubsByIds (hs : list HubId) | GetChannel (c : ChannelId)
  | GetChannelsByIds (cs : list ChannelId) | GetHubChannels (h : HubId)
  | GetTopology (h : HubId) | ResolveRole (h : HubId) (u : UserId) | IsMember (h : HubId) (u : UserId)
  (** [warmSnapshotsForHubs] on the user's hubs, as the state sync does *)
  | WarmUserHubs (u : UserId)
  | CreateHub (n : string) (o : UserId) | CreateChannel (h : HubId) (n ty : string) (u : UserId)
  | RenameChannel (c : ChannelId) (n : string) | DeleteChannel (c : ChannelId) (h : HubId)
  | RenameHub (h : HubId) (n : string) | UpdateAvatar (h : HubId) (seed : string)
  | DeleteHub (h : HubId) (o : UserId) | AddMember (h : HubId) (u : UserId) (r : Role)
  | RemoveMember (h : HubId) (u : UserId) | Invalidate (h : HubId).

Definition op_hubs (o : op) : list HubId :=
  match o with
  | GetHubChannels h | GetTopology h | ResolveRole h _ | IsMember h _ | CreateChannel h _ _ _
  | DeleteChannel _ h | RenameHub h _ | UpdateAvatar h _ | DeleteHub h _ | AddMember h _ _
  | RemoveMember h _ => [h]
  | _ => []
  end.

Definition op_channels (o : op) : list ChannelId :=
  match o with RenameChannel c _ | DeleteChannel c _ => [c] | _ => [] end.

(** A call on hubs in play and canonically spelled channels. *)
Definition op_ok (o : op) : Prop :=
  Forall (fun h => h ∈ Hs) (op_hubs o) /\ Forall (fun c => norm_channel c = c) (op_channels o).

Definition discard {S A} (m : EX S A) : EX S unit := ex_bind m (fun _ => ex_ret tt).

Definition call (o : op) : EX (t (D := D)) unit :=
  match o with
  | GetHub h => discard (getHub hash h)
  | GetHubsByIds hs => discard (getHubsByIds hash hs)
  | GetChannel c => discard (getChannel c)
  | GetChannelsByIds cs => discard (getChannelsByIds cs)
  | GetHubChannels h => discard (getHubChannels hash h)
  | GetTopology h => discard (getHubTopology hash h)
  | ResolveRole h u => discard (resolveMembershipRole hash h u)
  | IsMember h u => discard (isHubMember hash h u)
  | WarmUserHubs u => ex_bind (getUserHubs u) (warmSnapshotsForHubs hash)
  | CreateHub n o => discard (createHub hash n o)
  | CreateChannel h n ty u => discard (createChannel hash h n ty u)
  | RenameChannel c n => discard (renameChannel c n)
  | DeleteChannel c h => discard (deleteChannel hash c h)
  | RenameHub h n => discard (renameHub hash h n)
  | UpdateAvatar h seed => discard (updateHubAvatarSeed hash h seed)
  | DeleteHub h o => discard (deleteHub hash h o)
  | AddMember h u r => addMember hash h u r
  | RemoveMember h u => removeMember hash h u
  | Invalidate h => invalidateSnapshot hash h
  end.

(** A call that throws ends; the next one starts from the state it left. *)
Definition run (s : t (D := D)) (ops : list op) : t (D := D) :=
  foldl (fun s o => (call o s).2) s ops.

Lemma keeps_discard {A} (m : EX (t (D := D)) A) : keeps m -> keeps (discard m).
Proof using. intros Hm. apply ex_preserves_bind; [done|]. intros a. apply ex_preserves_ret. Qed.

Lemma getHub_keeps h : keeps (getHub hash h).
Proof using.
  apply triple_keeps'. intros tb s Hs'. unfold getHub, ex_bind. simpl.
  destruct (cache_get hash s h); [done|].
  pose proof (read_at _ _ tb (law_getHub h) s Hs') as Hr.
  by destruct (repo (repo_getHub h) s) as [[r|] s']; [destruct Hr|].
Qed.

Lemma getHubChannels_keeps h : h ∈ Hs -> keeps (getHubChannels hash h).
Proof using hash_inj hubs_known hubs_norm.
  intros Hh. apply triple_keeps'. intros tb. unfold getHubChannels.
  eapply ex_triple_bind; [by apply channelIds_at|]. intros ids. apply ex_triple_pure. intros _.
  destruct ids as [|c cs]; [by apply ex_triple_ret|].
  eapply ex_triple_bind; [apply getChannelsByIds_at|]. intros m. by apply ex_triple_ret.
Qed.

Lemma warm_user_keeps u : keeps (ex_bind (getUserHubs u) (warmSnapshotsForHubs hash)).
Proof using.
  apply triple_keeps'. intros tb. eapply ex_triple_bind; [apply read_at, law_getUserHubs|].
  intros hubs. apply ex_triple_pure. intros Hr. apply warm_at. naive_solver.
Qed.

Lemma unit_keeps (m : EX D unit) P h :
  writes tables m P ->
  (forall tb a tb', P tb a tb' -> only_hub_changed h tb tb' /\ tb_channels tb' = tb_channels tb) ->
  keeps (ex_bind (repo m) (fun _ => cache_invalidate hash h)).
Proof using.
  intros Hm HP. pose proof (write_invalidate_keeps m P (fun _ => h) (fun _ => tt) Hm HP) as H1.
  intros s Hs'. specialize (H1 s Hs'). unfold ex_bind in *. by destruct (repo m s) as [[a|] s'].
Qed.

Lemma call_keeps o : op_ok o -> keeps (call o).
Proof using hash_inj hubs_known hubs_norm.
  destruct o; unfold op_ok; cbn [op_hubs op_channels call]; rewrite ?Forall_singleton;
    intros [Hh Hc]; try (apply keeps_discard); try (pose proof (hubs_norm _ Hh) as Hn).
  - apply getHub_keeps.
  - apply triple_keeps'. intros. apply getHubsByIds_at.
  - eapply triple_keeps. intros. apply getChannel_at.
  - apply triple_keeps'. intros. apply getChannelsByIds_at.
  - by apply getHubChannels_keeps.
  - eapply triple_keeps. intros. by apply topology_at.
  - eapply triple_keeps. intros. by apply resolve_at.
  - unfold isHubMember. apply ex_preserves_bind; [|intros; apply ex_preserves_ret].
    eapply triple_keeps. intros. by apply resolve_at.
  - apply warm_user_keeps.
  - apply (write_invalidate_keeps _ _ hub_id (fun a => a) (law_createHub _ _)). naive_solver.
  - by apply createChannel_keeps.
  - by apply renameChannel_keeps.
  - by apply deleteChannel_keeps.
  - eapply write_if_invalidate_keeps; [apply law_renameHub|]. rewrite Hn. intros ? [] ?; naive_solver.
  - eapply write_if_invalidate_keeps; [apply law_updateHubAvatarSeed|]. rewrite Hn.
    intros ? [] ?; naive_solver.
  - by apply deleteHub_keeps.
  - eapply unit_keeps; [apply law_addMember|]. rewrite Hn. naive_solver.
  - eapply unit_keeps; [apply law_removeMember|]. rewrite Hn. naive_solver.
  - intros s [H1 H2]. split; simpl; [|done]. intros k sn [_ Hk]%lookup_delete_Some. by apply H1.
Qed.

Lemma run_coherent ops : forall s,
  Forall op_ok ops -> coherent s -> coherent (run s ops).
Proof using hash_inj hubs_known hubs_norm.
  induction ops as [|o ops IH]; intros s Hf Hs'; [done|].
  apply list.Forall_cons in Hf as [Ho Hf]. apply IH; [done|]. by apply call_keeps.
Qed.

End Coherence.

(** ** A small database

    One hub with one channel, whose members can be added and removed; writes
    to anything else are refused.  Used to exhibit the hypotheses above. *)

Module Demo.

Definition h0 : HubId := mkHubId "h0".
Definition c0 : ChannelId := mkChannelId "c0".
Definition owner0 : UserId := mkUserId "owner".
Definition hub0 : Hub := mkHub "hub" h0 owner0 "" {[owner0 := OWNER]}.
Definition chan0 : Channel := mkChannel "general" c0 h0 CHAT.

Definition tables0 (d : list MemberRole) : Tables :=
  mkTables {[h0 := hub0]} {[c0 := chan0]} {[h0 := [c0]]} {[h0 := d]}.

Definition role_of_name (r : string) : Role :=
  if bool_decide (r = "owner"%string) then OWNER
  else if bool_decide (r = "admin"%string) then ADMIN else USER.

Definition refused {A} : EX (list MemberRole) A := ex_throw.

(** Ids are compared without case, like uuids. *)
Definition norm0 (h : HubId) : HubId := mkHubId (lower_string (hub_value h)).
Definition normc0 (c : ChannelId) : ChannelId := mkChannelId (lower_string (channel_value c)).

#[global] Instance demo_repo : HubRepo (list MemberRole) := {
  repo_getHub h := ex_ret (tb_hubs (tables0 []) !! norm0 h);
  repo_getHubsByIds hs := ex_ret (if decide (h0 ∈ norm0 <$> hs) then [hub0] else []);
  repo_getChannel c := ex_ret (tb_channels (tables0 []) !! normc0 c);
  repo_getChannelsByIds cs := ex_ret (if decide (c0 ∈ normc0 <$> cs) then [chan0] else []);
  repo_getHubChannelsByHubIds hs :=
    ex_ret (if decide (h0 ∈ norm0 <$> hs) then {[h0 := [chan0]]} else ∅);
  repo_getHubMemberRoles h := ex_gets (fun d => members_of (tables0 d) (norm0 h));
  repo_getHubMemberRolesByHubIds hs := ex_gets (fun d => tb_members (tables0 d));
  repo_getHubChannelIds h := ex_ret (order_of (tables0 []) (norm0 h));
  repo_getUserHubs u := ex_gets (fun d => if decide (is_Some (roles_of d !! u)) then [hub0] else []);
  repo_createHub n o := refused;
  repo_createChannel h n ty u := refused;
  repo_renameChannel c n := refused;
  repo_deleteChannel c h := refused;
  repo_renameHub h n := refused;
  repo_updateHubAvatarSeed h n := refused;
  repo_deleteHub h o := refused;
  repo_addMember h u r :=
    if decide (norm0 h = h0) then ex_modify (fun d => d ++ [(u, role_of_name r)]) else refused;
  repo_removeMember h u :=
    if decide (norm0 h = h0) then ex_modify (filter (fun mr => mr.1 <> u)) else ex_ret tt
}.

Lemma roles_of_app d u r : roles_of (d ++ [(u, r)]) = <[u := r]> (roles_of d).
Proof. unfold roles_of. by rewrite foldl_app. Qed.

Lemma roles_of_filter d u : roles_of (filter (fun mr : MemberRole => mr.1 <> u) d) = delete u (roles_of d).
Proof.
  induction d as [|[u' r'] d IH] using rev_ind; [symmetry; apply delete_empty|].
  rewrite list.filter_app, filter_cons, filter_nil, roles_of_app. simpl.
  case_decide as Hu; simpl.
  - rewrite roles_of_app, IH. by rewrite delete_insert_ne.
  - rewrite app_nil_r, IH. destruct (decide (u' = u)) as [->|]; [|naive_solver].
    by rewrite delete_insert_eq.
Qed.

Lemma hub_lookup h hub : tb_hubs (tables0 []) !! h = Some hub -> h = h0 /\ hub = hub0.
Proof. simpl. by intros [? ?]%lookup_singleton_Some. Qed.

Lemma members_other d d' h : h <> h0 -> members_of (tables0 d) h = members_of (tables0 d') h.
Proof. intros Hh. unfold members_of. simpl. by rewrite !lookup_singleton_ne. Qed.

Lemma members_h0 d : members_of (tables0 d) h0 = d.
Proof. unfold members_of. simpl. by rewrite lookup_singleton_eq. Qed.

Lemma only_h0_changed d d' : only_hub_changed h0 (tables0 d) (tables0 d').
Proof. intros h Hh. split_and!; [done|done|]. by apply members_other. Qed.

Lemma tables0_ok d : tables_ok (tables0 d).
Proof.
  split.
  - intros h hub [? ->]%hub_lookup. by subst.
  - simpl. by intros c ch [<- <-]%lookup_singleton_Some.
  - intros h c. unfold order_of. simpl. destruct (decide (h = h0)) as [->|Hh].
    + rewrite lookup_singleton_eq. simpl. intros ->%list_elem_of_singleton. exists chan0.
      by rewrite lookup_singleton_eq.
    + rewrite lookup_singleton_ne by done. simpl. by intros ?%not_elem_of_nil.
  - simpl. intros c ch [<- <-]%lookup_singleton_Some. left.
Qed.

#[global] Program Instance demo_laws : HubRepoLaws (list MemberRole) :=
  { tables := tables0; norm_hub := norm0; norm_channel := normc0; norm_user := fun u => u }.
Next Obligation. apply tables0_ok. Qed.
Next Obligation. intros d h [hub [-> _]%hub_lookup]. reflexivity. Qed.
Next Obligation. simpl. intros d c [ch [<- _]%lookup_singleton_Some]. reflexivity. Qed.
Next Obligation. done. Qed.
Next Obligation. by intros h d. Qed.
Next Obligation.
  intros hs d. split; [done|]. simpl. case_decide; [|set_solver].
  by intros hub ->%list_elem_of_singleton.
Qed.
Next Obligation. by intros c d. Qed.
Next Obligation.
  intros cs d. split; [done|]. simpl. case_decide; [|set_solver].
  by intros ch ->%list_elem_of_singleton.
Qed.
Next Obligation.
  intros hs d. split; [done|]. simpl. intros h Hh Hn. unfold order_of. simpl.
  destruct (decide (h = h0)) as [->|Hne].
  - rewrite decide_True by (rewrite <- Hn; by apply list_elem_of_fmap_2).
    by rewrite !lookup_singleton_eq.
  - rewrite (lookup_singleton_ne h0 h [c0]) by done.
    case_decide; [by rewrite lookup_singleton_ne|done].
Qed.
Next Obligation. by intros h d. Qed.
Next Obligation. by intros hs d. Qed.
Next Obligation. by intros h d. Qed.
Next Obligation.
  intros u d. split; [done|]. simpl. case_decide; [|set_solver].
  intros hub ->%list_elem_of_singleton. change (hub_id hub0) with h0. rewrite members_h0.
  split; [done|]. by exists hub0.
Qed.
Next Obligation. by intros n o d. Qed.
Next Obligation. by intros h n ty u d. Qed.
Next Obligation. by intros c n d. Qed.
Next Obligation. by intros c h d. Qed.
Next Obligation. by intros h n d. Qed.
Next Obligation. by intros h n d. Qed.
Next Obligation. by intros h o d. Qed.
Next Obligation.
  intros h u r d. simpl. case_decide as Hh; simpl; [rewrite Hh|done].
  split_and!; [apply only_h0_changed|done|done|done|].
  rewrite !members_h0, roles_of_app. by destruct r.
Qed.
Next Obligation.
  intros h u d. simpl. case_decide as Hh; simpl.
  - rewrite Hh. split_and!; [apply only_h0_changed|done|done|done|].
    rewrite !members_h0. apply roles_of_filter.
  - split_and!; [by intros h' _|done|done|done|]. unfold members_of. simpl.
    rewrite lookup_singleton_ne by done. simpl. symmetry. apply delete_empty.
Qed.

Definition hash0 (h : HubId) : Z := Z.of_nat (String.length (hub_value h)).
(** A hash that tells the spellings apart. *)
Definition hash1 (h : HubId) : Z :=
  match hub_value h with String c _ => code c | EmptyString => 0 end.
Definition alice : UserId := mkUserId "alice".
Definition demo_ops : list op :=
  [ResolveRole h0 alice; AddMember h0 alice ADMIN; ResolveRole h0 alice; GetChannel c0;
   RemoveMember h0 owner0].

End Demo.


(** ** Where coherence is lost *)

(** A cached hub answers for every hub with the same [std::hash]: the cache
    key keeps the hash, not the id. *)
Lemma hub_cache_key_collision {D} `{HubRepo D} (hash : HubId -> Z) (s : t (D := D)) h1 h2 u sn :
  hash h1 = hash h2 -> cache_get hash s h1 = Some sn ->
  resolveMembershipRole hash h2 u s = (Some (sn_member_roles sn !! u), s).
Proof.
  intros Hh Hc. unfold resolveMembershipRole, loadSnapshot, ex_bind. simpl.
  unfold cache_get in *. by rewrite <- Hh, Hc.
Qed.

(** A member who leaves under another spelling of the hub's id is gone from
    the database, but the snapshot cached under the canonical id stays and
    keeps the role. *)
Example other_spelling_keeps_snapshot :
  let s0 := create [(Demo.alice, ADMIN)] in
  let s1 := (resolveMembershipRole Demo.hash1 Demo.h0 Demo.alice s0).2 in
  let s2 := (removeMember Demo.hash1 (mkHubId "H0") Demo.alice s1).2 in
  (resolveMembershipRole Demo.hash1 Demo.h0 Demo.alice s2).1 = Some (Some ADMIN) /\
  roles_of (members_of (tables (db s2)) Demo.h0) !! Demo.alice = None.
Proof. split; vm_compute; reflexivity. Qed.

(** [buildSnapshot] up to the point where it stores the snapshot: the rows it
    read.  Only [cache_put] takes the cache's lock, so calls of other workers
    can run in between. *)
Definition readSnapshot {D} `{HubRepo D} (hubId : HubId) : EX (t (D := D)) (option HubSnapshot) :=
  (hub <-- repo (repo_getHub hubId);
   match hub with
   | None => ex_ret None
   | Some hub =>
     channel_ids <-- repo (repo_getHubChannelIds hubId);
     members <-- repo (repo_getHubMemberRoles hubId);
     ex_ret (Some (mkSnapshot (hub_id hub) (hub_owner hub) (hub_name hub) (hub_avatar_seed hub)
                     channel_ids (roles_of members)))
   end)%ex.

Lemma buildSnapshot_split {D} `{HubRepo D} hash (h : HubId) (s : t (D := D)) :
  buildSnapshot hash h s =
  (r <-- readSnapshot h;
   match r with
   | Some sn => cache_put hash sn;;; ex_ret (Some sn)
   | None => ex_ret None
   end)%ex s.
Proof.
  unfold buildSnapshot, readSnapshot, ex_bind. destruct (repo _ s) as [[[hub|]|] s1]; try done.
  destruct (repo _ s1) as [[ids|] s2]; try done. by destruct (repo _ s2) as [[ms|] s3].
Qed.

(** A worker reads the rows of a hub, another removes a member (the database
    row goes and the cache entry is invalidated), then the first stores its
    snapshot: the removed user keeps the role in the cache. *)
Example stale_snapshot_after_remove :
  let s0 := create [(Demo.alice, ADMIN)] in
  let '(rows, s1) := readSnapshot Demo.h0 s0 in
  let s2 := (removeMember Demo.hash0 Demo.h0 Demo.alice s1).2 in
  let s3 := match rows with
            | Some (Some sn) => (cache_put Demo.hash0 sn s2).2
            | _ => s2
            end in
  (resolveMembershipRole Demo.hash0 Demo.h0 Demo.alice s3).1 = Some (Some ADMIN) /\
  roles_of (members_of (tables (db s3)) Demo.h0) !! Demo.alice = None.
Proof. split; vm_compute; reflexivity. Qed.

End HubCoherence.
