(* ===== verification/External.v ===== *)
(** * The outside world of the voice services

    What the voice code calls outside the repository - the Redis server, the
    LiveKit HTTP endpoint, OpenSSL, the JWT and JSON libraries, clocks and
    random numbers - as the classes [JsonLib], [Crypto] and [External X], with
    [X] the state of that world.  On top of them, the wrappers the sources do
    contain: [infra/redis/RedisClient.cpp], [livekit/cli/LivekitClient.cpp],
    [livekit/token/LiveKitTokenService.cpp] and
    [app/services/voice/VoiceNonce.h]. *)

From S2P Require Import Prelude.
From S2P Require Import CStrings.
From S2P Require Import Ids.
From S2P Require Import Protocol.
From Stdlib Require Import Ascii.

(** ** JSON documents *)

(** [nlohmann::json]; numbers keep the kind the library distinguishes, a
    float is kept as its integer part (all the sources read of one). *)
Inductive json :=
  | JNull
  | JBool (b : bool)
  | JUnsigned (n : Z)
  | JInteger (n : Z)
  | JFloat (trunc : Z)
  | JString (s : string)
  | JArray (l : list json)
  | JObject (m : gmap string json).

Class JsonLib := {
  json_parse : string -> option json;      (* [None]: a parse error *)
  json_dump : json -> string;
  picojson_serialize : json -> string
}.

Definition is_object (j : json) : bool := match j with JObject _ => true | _ => false end.
Definition is_array (j : json) : bool := match j with JArray _ => true | _ => false end.

(** [j.contains(k)] and then [j[k]]. *)
Definition field (j : json) (k : string) : option json :=
  match j with JObject m => m !! k | _ => None end.
Definition contains (j : json) (k : string) : bool := bool_decide (is_Some (field j k)).

(** [j.contains(k) && j[k].is_string()], then the string. *)
Definition string_field (j : json) (k : string) : option string :=
  match field j k with Some (JString s) => Some s | _ => None end.
Definition bool_field (j : json) (k : string) : option bool :=
  match field j k with Some (JBool b) => Some b | _ => None end.
Definition unsigned_field (j : json) (k : string) : option Z :=
  match field j k with Some (JUnsigned n) => Some n | _ => None end.

(** [j.value(k, default)]: [None] when it throws (not an object, or a value of
    another type). *)
Definition value_string (j : json) (k dflt : string) : option string :=
  match j with
  | JObject m =>
    match m !! k with None => Some dflt | Some (JString s) => Some s | Some _ => None end
  | _ => None
  end.
Definition value_bool (j : json) (k : string) (dflt : bool) : option bool :=
  match j with
  | JObject m =>
    match m !! k with None => Some dflt | Some (JBool b) => Some b | Some _ => None end
  | _ => None
  end.
(** [int]: numbers and booleans convert, to 32 bits. *)
Definition value_int (j : json) (k : string) (dflt : Z) : option Z :=
  match j with
  | JObject m =>
    match m !! k with
    | None => Some dflt
    | Some (JUnsigned n) | Some (JInteger n) | Some (JFloat n) => Some (int32_of_uint32 n)
    | Some (JBool b) => Some (if b then 1 else 0)%Z
    | Some _ => None
    end
  | _ => None
  end.

(** Iterating over a value. *)
Definition items (j : json) : list json :=
  match j with
  | JArray l => l
  | JObject m => (map_to_list m).*2
  | JNull => []
  | _ => [j]
  end.

(** ** Cryptography and tokens *)

(** The claims of a token before it is signed. *)
Record Claims := mkClaims {
  cl_issuer : string; cl_subject : string; cl_issued_at : Z; cl_expires_at : Z;
  cl_metadata : option string; cl_video : json }.

Class Crypto := {
  (** [EVP_Digest] with SHA-256; [None] on failure *)
  evp_sha256 : string -> option string;
  (** AES-256-GCM under a key and nonce: ciphertext and tag, or a failure *)
  gcm_seal : string -> string -> string -> option (string * string);
  (** [None]: failure or a tag that does not match *)
  gcm_open : string -> string -> string -> string -> option string;
  (** [EVP_EncodeBlock] / [EVP_DecodeBlock]; [None] for a negative length *)
  evp_encode_block : string -> option string;
  evp_decode_block : string -> option string;
  (** [jwt::base::encode<base64>] *)
  jwt_base64 : string -> string;
  (** HS256 with the secret *)
  jwt_sign : string -> Claims -> string
}.

(** ** The world *)

Record ParticipantInfo := mkParticipant {
  identity : UserId; sid : string; metadata : string; is_publisher : bool }.
Record RoomInfo := mkRoom { room : ChannelId; num_participants : Z }.

(** What [cpr::Post] answers. *)
Record HttpResponse := mkHttp { http_error : bool; status_code : Z; http_text : string }.

Class External (X : Type) := {
  (** [sw::redis::Redis]; [None]: the call throws *)
  redis_setex : string -> Z -> string -> X -> option unit * X;
  redis_setnx : string -> string -> X -> option bool * X;
  redis_expire : string -> Z -> X -> option unit * X;
  redis_get : string -> X -> option (option string) * X;
  redis_del : string -> X -> option unit * X;
  redis_ttl : string -> X -> option Z * X;
  (** [cpr::Post]: url, bearer token, body *)
  http_post : string -> string -> string -> X -> HttpResponse * X;
  (** [RAND_bytes]: [n] bytes or a failure *)
  rand_bytes : nat -> X -> option string * X;
  (** [std::mt19937_64] *)
  rng_next : X -> Z * X;
  (** [steady_clock] ticks; [system_clock] seconds, milliseconds, microseconds *)
  steady_now : X -> Z * X;
  unix_now_seconds : X -> Z * X;
  unix_now_ms : X -> Z * X;
  unix_now_us : X -> Z * X
}.

(** [std::uniform_int_distribution(0, max)] on one draw of the engine. *)
Class Uniform := {
  uniform : Z -> Z -> Z;
  uniform_range : forall max r, (0 <= max)%Z -> (0 <= uniform max r <= max)%Z
}.

(** ** Redis *)

Module RedisClient.
Section Redis.
Context {X : Type} `{External X}.

Definition setex (key : string) (ttl : Z) (value : string) : ST X unit :=
  fun x => let '(_, x') := redis_setex key ttl value x in (tt, x').

Definition setnxex (key : string) (ttl : Z) (value : string) : ST X (option bool) :=
  fun x => match redis_setnx key value x with
           | (Some false, x1) => (Some false, x1)
           | (Some true, x1) =>
             match redis_expire key ttl x1 with
             | (Some tt, x2) => (Some true, x2)
             | (None, x2) => (None, x2)
             end
           | (None, x1) => (None, x1)
           end.

Definition get (key : string) : ST X (option string) :=
  fun x => match redis_get key x with
           | (Some v, x') => (v, x')
           | (None, x') => (None, x')
           end.

Definition del (key : string) : ST X unit :=
  fun x => let '(_, x') := redis_del key x in (tt, x').

Definition ttl (key : string) : ST X (option Z) :=
  fun x => match redis_ttl key x with
           | (Some n, x') => (if (n <? 0)%Z then None else Some n, x')
           | (None, x') => (None, x')
           end.
End Redis.
End RedisClient.

(** ** LiveKit tokens *)

Module TokenService.
Section Tokens.
Context {X : Type} `{External X} `{JsonLib} `{Crypto}.

Record t := mk { api_key_ : string; api_secret_ : string }.

Record ParticipantTokenRequest := mkRequest {
  req_identity : UserId; req_room : ChannelId; req_node_id : string; req_app_session_id : Z;
  req_intent_nonce : string; req_can_publish : bool; req_can_subscribe : bool; req_ttl : Z }.

(** The participant metadata of a token. *)
Definition metadata_json (req : ParticipantTokenRequest) : json :=
  JObject (<["node_id" := JString (req_node_id req)]>
          (<["app_session_id" := JString (std_to_string (req_app_session_id req))]>
          (<["intent_nonce" := JString (req_intent_nonce req)]> ∅)))%string.

Definition participant_claims (ts : t) (req : ParticipantTokenRequest) (now : Z) : Claims :=
  mkClaims (api_key_ ts) (user_value (req_identity req)) now (now + req_ttl req)
    (Some (picojson_serialize (metadata_json req)))
    (JObject (<["room" := JString (channel_value (req_room req))]>
             (<["roomJoin" := JBool true]>
             (<["canPublish" := JBool (req_can_publish req)]>
             (<["canSubscribe" := JBool (req_can_subscribe req)]>
             (<["canPublishData" := JBool true]> ∅)))))%string).

Definition mint_participant_token (ts : t) (req : ParticipantTokenRequest) : ST X string :=
  fun x => let '(now, x') := unix_now_seconds x in
           (jwt_sign (api_secret_ ts) (participant_claims ts req now), x').

Record AdminTokenRequest := mkAdmin {
  adm_room : option ChannelId; room_admin : bool; room_create : bool; room_list : bool;
  adm_ttl : Z }.

Definition admin_grant (name : string) (b : bool) (m : gmap string json) : gmap string json :=
  if b then <[name := JBool true]> m else m.

Definition mint_admin_token (ts : t) (req : AdminTokenRequest) : ST X string :=
  fun x => let '(now, x') := unix_now_seconds x in
           let video :=
             match adm_room req with
             | Some r => <["room"%string := JString (channel_value r)]> ∅
             | None => ∅
             end in
           (jwt_sign (api_secret_ ts)
              (mkClaims (api_key_ ts) "server-admin" now (now + adm_ttl req) None
                 (JObject (admin_grant "roomList" (room_list req)
                          (admin_grant "roomCreate" (room_create req)
                          (admin_grant "roomAdmin" (room_admin req) video))))), x').
End Tokens.
End TokenService.

(** ** LiveKit room service *)

Module LivekitClient.
Section Client.
Context {X : Type} `{External X} `{JsonLib} `{Crypto}.

(** The client is its host and the token service. *)
Record t := mk { host_ : string; token_service_ : TokenService.t }.

(** [None]: the call throws. *)
Definition PostJson (cl : t) (endpoint body token : string) : EX X string :=
  fun x => let '(r, x') := http_post (host_ cl +:+ endpoint) token body x in
           if http_error r then (None, x')
           else if (400 <=? status_code r)%Z then (None, x')
           else (Some (http_text r), x').

Definition admin_token (cl : t) (req : TokenService.AdminTokenRequest) : EX X string :=
  ex_lift (TokenService.mint_admin_token (token_service_ cl) req).

(** [json::parse], throwing. *)
Definition parse_or_throw (text : string) : EX X json :=
  match json_parse text with Some j => ex_ret j | None => ex_throw end.

Definition read_participant (p : json) : option ParticipantInfo :=
  s ← value_string p "sid" "";
  i ← value_string p "identity" "";
  m ← value_string p "metadata" "";
  b ← (if contains p "is_publisher" then value_bool p "is_publisher" false
       else value_bool p "isPublisher" false);
  Some (mkParticipant (mkUserId i) s m b).

Definition room_request (r : ChannelId) : json :=
  JObject {["room"%string := JString (channel_value r)]}.

Definition ListParticipants (cl : t) (r : ChannelId) : EX X (list ParticipantInfo) :=
  (token <-- admin_token cl (TokenService.mkAdmin (Some r) true false false 60);
   res <-- PostJson cl "/twirp/livekit.RoomService/ListParticipants" (json_dump (room_request r)) token;
   data <-- parse_or_throw res;
   match field data "participants" with
   | Some (JArray ps) =>
     match mapM read_participant ps with Some l => ex_ret l | None => ex_throw end
   | _ => ex_ret []
   end)%ex.

(** Rooms without a name are skipped. *)
Fixpoint read_rooms (l : list json) : option (list RoomInfo) :=
  match l with
  | [] => Some []
  | r :: l' =>
    match value_string r "name" "" with
    | None => None
    | Some name =>
      if bool_decide (name = ""%string) then read_rooms l'
      else
        n ← (if contains r "num_participants" then value_int r "num_participants" 0
             else value_int r "numParticipants" 0);
        rest ← read_rooms l';
        Some (mkRoom (mkChannelId name) n :: rest)
    end
  end.

Definition ListRooms (cl : t) : EX X (list RoomInfo) :=
  (token <-- admin_token cl (TokenService.mkAdmin None false false true 60);
   res <-- PostJson cl "/twirp/livekit.RoomService/ListRooms" "{}" token;
   data <-- parse_or_throw res;
   match field data "rooms" with
   | Some rs => match read_rooms (items rs) with Some l => ex_ret l | None => ex_throw end
   | None => ex_ret []
   end)%ex.

(** Every exception is caught. *)
Definition RemoveParticipant (cl : t) (r : ChannelId) (who : UserId) : ST X bool :=
  fun x =>
    match (token <-- admin_token cl (TokenService.mkAdmin (Some r) true false false 60);
           PostJson cl "/twirp/livekit.RoomService/RemoveParticipant"
             (json_dump (JObject (<["identity" := JString (user_value who)]>
                                  {["room" := JString (channel_value r)]})%string)) token)%ex x with
    | (Some _, x') => (true, x')
    | (None, x') => (false, x')
    end.
End Client.
End LivekitClient.

(** ** Nonces *)

Module VoiceNonce.
Section Nonce.
Context {X : Type} `{External X}.

Definition hex_digit (n : Z) : ascii := chr (if (n <? 10)%Z then 48 + n else 87 + n).

(** The characters of one byte. *)
Definition hex_byte (byte : Z) (rest : string) : string :=
  String (hex_digit (Z.land (Z.shiftr byte 4) 15)) (String (hex_digit (Z.land byte 15)) rest).

Fixpoint nonce_bytes (n : nat) : ST X string :=
  match n with
  | O => st_ret ""%string
  | S n' => (r <-- rng_next; rest <-- nonce_bytes n'; st_ret (hex_byte (Z.land r 255) rest))%st
  end.

Definition generate_nonce_hex : ST X string := nonce_bytes 16.

Lemma nonce_bytes_length n x : String.length (nonce_bytes n x).1 = 2 * n.
Proof.
  revert x. induction n as [|n IH]; intros x; [done|]. cbn [nonce_bytes].
  unfold st_bind, st_ret. destruct (rng_next x) as [r x1]. specialize (IH x1).
  destruct (nonce_bytes n x1) as [rest x2]. simpl in *. lia.
Qed.

(** A nonce has 32 characters; in particular it is not empty. *)
Lemma nonce_not_empty x : (generate_nonce_hex x).1 <> ""%string.
Proof.
  intros He. pose proof (nonce_bytes_length 16 x) as Hl. unfold generate_nonce_hex in He.
  by rewrite He in Hl.
Qed.
End Nonce.
End VoiceNonce.

(** ** A small world

    A key-value store that can be down, a clock, a counter for random numbers
    and a script of HTTP answers: an instance of [External] on which the
    development's examples run. *)

Module DemoWorld.

Record t := mk {
  d_redis : gmap string string; d_up : bool; d_time : Z; d_rng : Z; d_http : list HttpResponse }.

Definition with_redis (x : t) (m : gmap string string) : t :=
  mk m (d_up x) (d_time x) (d_rng x) (d_http x).

(** Twelve or thirty-two equal letters are as random as the examples need. *)
Fixpoint letters (n : nat) (c : ascii) : string :=
  match n with O => EmptyString | S n' => String c (letters n' c) end.

#[global] Instance demo_external : External t := {
  redis_setex k ttl v x := if d_up x then (Some tt, with_redis x (<[k := v]> (d_redis x)))
                           else (None, x);
  redis_setnx k v x :=
    if d_up x then match d_redis x !! k with
                   | Some _ => (Some false, x)
                   | None => (Some true, with_redis x (<[k := v]> (d_redis x)))
                   end
    else (None, x);
  redis_expire k ttl x := if d_up x then (Some tt, x) else (None, x);
  redis_get k x := if d_up x then (Some (d_redis x !! k), x) else (None, x);
  redis_del k x := if d_up x then (Some tt, with_redis x (delete k (d_redis x))) else (None, x);
  redis_ttl k x := if d_up x then (Some (if decide (is_Some (d_redis x !! k)) then 60 else -2)%Z, x)
                   else (None, x);
  http_post url token body x :=
    match d_http x with
    | r :: rs => (r, mk (d_redis x) (d_up x) (d_time x) (d_rng x) rs)
    | [] => (mkHttp true 0 "", x)
    end;
  rand_bytes n x :=
    (Some (letters n (chr (65 + d_rng x))),
     mk (d_redis x) (d_up x) (d_time x) (d_rng x + 1) (d_http x));
  rng_next x := (d_rng x, mk (d_redis x) (d_up x) (d_time x) (d_rng x + 1) (d_http x));
  steady_now x := (d_time x, x);
  unix_now_seconds x := (d_time x, x);
  unix_now_ms x := (d_time x * 1000, x)%Z;
  unix_now_us x := (d_time x * 1000000, x)%Z
}.

Definition start : t := mk ∅ true 1000 0 [].

#[global] Program Instance demo_uniform : Uniform := { uniform max r := (r mod (max + 1))%Z }.
Next Obligation. intros max r Hm. pose proof (Z.mod_pos_bound r (max + 1)). lia. Qed.

(** The store returns what was set. *)
Lemma demo_redis_get k ttl v y y' :
  redis_setex k ttl v y = (Some tt, y') -> (redis_get k y').1 = Some (Some v).
Proof.
  simpl. destruct (d_up y) eqn:E; intros [= <-]. simpl. rewrite E. simpl.
  by rewrite lookup_insert_eq.
Qed.

End DemoWorld.
