(* ===== verification/VoiceWorld.v ===== *)
(** * The state of the voice services

    The objects [VoiceService] holds or refers to, as one record, with the
    small services around it: [VoicePublisher.cpp] (what is sent to whom),
    [VoiceResumeRegistry.cpp] (one-time resume ids) and
    [PendingJoinIntentStore.cpp] (staged joins in Redis).  Handlers run in the
    monad [EX World]: an exception of the database leaves the handler. *)

From S2P Require Import Prelude.
From S2P Require Import CStrings.
From S2P Require Import Ids.
From S2P Require Import Protocol.
From S2P Require Import OutboundMsg.
From S2P Require Import SessionManager.
From S2P Require Import SubscriptionManager.
From S2P Require Import VoiceSessions.
From S2P Require Import Evidence.
From S2P Require Import NodeRegistry.
From S2P Require Import HubService.
From S2P Require Import External.

(** The events the voice services send, before serialization. *)
Inductive VoiceEvent :=
  | EvSnapshot (hub : HubId) (ch : ChannelId) (started_at : Z)
      (participants : list (UserId * VoiceSessions.ParticipantState))
  | EvUpsert (hub : HubId) (ch : ChannelId) (user : UserId) (muted deafened : bool)
  | EvRemove (hub : HubId) (ch : ChannelId) (user : UserId)
  | EvKeyUpdate (hub : HubId) (ch : ChannelId) (key : string) (key_index : Z)
  | EvSelfConnected (is_owner : bool) (hub : HubId) (ch : ChannelId) (resume_id : option string)
  | EvSelfDisconnected.

(** [E2EEKeyManager::ChannelKey]. *)
Record ChannelKey := mkKey { key : string; key_index : Z }.

(** [PendingJoinIntent]. *)
Record PendingJoinIntent := mkIntent {
  in_session_id : Z; in_nonce : string;
  to_channel : ChannelId; from_channel : ChannelId; has_from_channel : bool;
  in_muted : bool; in_deafened : bool;
  old_leave_seen : bool; new_join_seen : bool;
  expires_at_unix : Z }.

(** What the constructors read from the environment. *)
Record VoiceConfig := mkConfig {
  cfg_tokens : TokenService.t;
  livekit_cluster_url_ : string;
  (** [storage_master_key_], when [storage_key_ready_] *)
  storage_master_key : option string;
  key_ttl_ : Z;
  (** [join_rotate_debounce_ttl_] and [kTakeoverGuardTtl] in clock ticks *)
  join_rotate_debounce_ttl_ : Z;
  takeover_guard_ttl : Z
}.

Definition kWebhookDedupTtl : Z := 86400.
Definition kResumeTtl : Z := 86400.

Section World.
Context {X D : Type}.

Record World := mkWorld {
  ext : X;
  hubs : HubService.t (D := D);
  session_manager_ : Session.t;
  subscription_manager_ : Subscription.t;
  sessions_ : VoiceSessions.t;
  nodes_ : NodeRegistry.t;
  evidence_ : Evidence.t;
  pending_channels_ : gset ChannelId;
  user_resume_ids_ : gmap UserId string;
  e2ee_keys_ : gmap ChannelId ChannelKey;
  join_rotate_seen_ : gmap ChannelId (gmap UserId Z);
  channel_takeover_guard_ : gmap ChannelId Z;
  channel_started_at_unix_ : gmap ChannelId Z;
  user_last_event_ts_ms_ : gmap UserId Z;
  channel_last_room_event_ts_ms_ : gmap ChannelId Z;
  recovery_counter : Z;
  outbox : list (OutgoingMessage VoiceEvent)
}.

(** *** Field updates *)

Definition set_ext (x : X) (w : World) : World :=
  mkWorld x (hubs w) (session_manager_ w) (subscription_manager_ w) (sessions_ w) (nodes_ w)
    (evidence_ w) (pending_channels_ w) (user_resume_ids_ w) (e2ee_keys_ w) (join_rotate_seen_ w)
    (channel_takeover_guard_ w) (channel_started_at_unix_ w) (user_last_event_ts_ms_ w)
    (channel_last_room_event_ts_ms_ w) (recovery_counter w) (outbox w).
Definition set_hubs (h : HubService.t (D := D)) (w : World) : World :=
  mkWorld (ext w) h (session_manager_ w) (subscription_manager_ w) (sessions_ w) (nodes_ w)
    (evidence_ w) (pending_channels_ w) (user_resume_ids_ w) (e2ee_keys_ w) (join_rotate_seen_ w)
    (channel_takeover_guard_ w) (channel_started_at_unix_ w) (user_last_event_ts_ms_ w)
    (channel_last_room_event_ts_ms_ w) (recovery_counter w) (outbox w).
Definition set_sessions (v : VoiceSessions.t) (w : World) : World :=
  mkWorld (ext w) (hubs w) (session_manager_ w) (subscription_manager_ w) v (nodes_ w)
    (evidence_ w) (pending_channels_ w) (user_resume_ids_ w) (e2ee_keys_ w) (join_rotate_seen_ w)
    (channel_takeover_guard_ w) (channel_started_at_unix_ w) (user_last_event_ts_ms_ w)
    (channel_last_room_event_ts_ms_ w) (recovery_counter w) (outbox w).
Definition set_nodes (n : NodeRegistry.t) (w : World) : World :=
  mkWorld (ext w) (hubs w) (session_manager_ w) (subscription_manager_ w) (sessions_ w) n
    (evidence_ w) (pending_channels_ w) (user_resume_ids_ w) (e2ee_keys_ w) (join_rotate_seen_ w)
    (channel_takeover_guard_ w) (channel_started_at_unix_ w) (user_last_event_ts_ms_ w)
    (channel_last_room_event_ts_ms_ w) (recovery_counter w) (outbox w).
Definition set_evidence (e : Evidence.t) (w : World) : World :=
  mkWorld (ext w) (hubs w) (session_manager_ w) (subscription_manager_ w) (sessions_ w) (nodes_ w)
    e (pending_channels_ w) (user_resume_ids_ w) (e2ee_keys_ w) (join_rotate_seen_ w)
    (channel_takeover_guard_ w) (channel_started_at_unix_ w) (user_last_event_ts_ms_ w)
    (channel_last_room_event_ts_ms_ w) (recovery_counter w) (outbox w).
Definition set_pending (p : gset ChannelId) (w : World) : World :=
  mkWorld (ext w) (hubs w) (session_manager_ w) (subscription_manager_ w) (sessions_ w) (nodes_ w)
    (evidence_ w) p (user_resume_ids_ w) (e2ee_keys_ w) (join_rotate_seen_ w)
    (channel_takeover_guard_ w) (channel_started_at_unix_ w) (user_last_event_ts_ms_ w)
    (channel_last_room_event_ts_ms_ w) (recovery_counter w) (outbox w).
Definition set_resume (r : gmap UserId string) (w : World) : World :=
  mkWorld (ext w) (hubs w) (session_manager_ w) (subscription_manager_ w) (sessions_ w) (nodes_ w)
    (evidence_ w) (pending_channels_ w) r (e2ee_keys_ w) (join_rotate_seen_ w)
    (channel_takeover_guard_ w) (channel_started_at_unix_ w) (user_last_event_ts_ms_ w)
    (channel_last_room_event_ts_ms_ w) (recovery_counter w) (outbox w).
Definition set_keys (k : gmap ChannelId ChannelKey) (w : World) : World :=
  mkWorld (ext w) (hubs w) (session_manager_ w) (subscription_manager_ w) (sessions_ w) (nodes_ w)
    (evidence_ w) (pending_channels_ w) (user_resume_ids_ w) k (join_rotate_seen_ w)
    (channel_takeover_guard_ w) (channel_started_at_unix_ w) (user_last_event_ts_ms_ w)
    (channel_last_room_event_ts_ms_ w) (recovery_counter w) (outbox w).
Definition set_join_seen (j : gmap ChannelId (gmap UserId Z)) (w : World) : World :=
  mkWorld (ext w) (hubs w) (session_manager_ w) (subscription_manager_ w) (sessions_ w) (nodes_ w)
    (evidence_ w) (pending_channels_ w) (user_resume_ids_ w) (e2ee_keys_ w) j
    (channel_takeover_guard_ w) (channel_started_at_unix_ w) (user_last_event_ts_ms_ w)
    (channel_last_room_event_ts_ms_ w) (recovery_counter w) (outbox w).
Definition set_guard (g : gmap ChannelId Z) (w : World) : World :=
  mkWorld (ext w) (hubs w) (session_manager_ w) (subscription_manager_ w) (sessions_ w) (nodes_ w)
    (evidence_ w) (pending_channels_ w) (user_resume_ids_ w) (e2ee_keys_ w) (join_rotate_seen_ w)
    g (channel_started_at_unix_ w) (user_last_event_ts_ms_ w)
    (channel_last_room_event_ts_ms_ w) (recovery_counter w) (outbox w).
Definition set_started (s : gmap ChannelId Z) (w : World) : World :=
  mkWorld (ext w) (hubs w) (session_manager_ w) (subscription_manager_ w) (sessions_ w) (nodes_ w)
    (evidence_ w) (pending_channels_ w) (user_resume_ids_ w) (e2ee_keys_ w) (join_rotate_seen_ w)
    (channel_takeover_guard_ w) s (user_last_event_ts_ms_ w)
    (channel_last_room_event_ts_ms_ w) (recovery_counter w) (outbox w).
Definition set_event_ts (u : gmap UserId Z) (c : gmap ChannelId Z) (w : World) : World :=
  mkWorld (ext w) (hubs w) (session_manager_ w) (subscription_manager_ w) (sessions_ w) (nodes_ w)
    (evidence_ w) (pending_channels_ w) (user_resume_ids_ w) (e2ee_keys_ w) (join_rotate_seen_ w)
    (channel_takeover_guard_ w) (channel_started_at_unix_ w) u c (recovery_counter w) (outbox w).
Definition set_counter (n : Z) (w : World) : World :=
  mkWorld (ext w) (hubs w) (session_manager_ w) (subscription_manager_ w) (sessions_ w) (nodes_ w)
    (evidence_ w) (pending_channels_ w) (user_resume_ids_ w) (e2ee_keys_ w) (join_rotate_seen_ w)
    (channel_takeover_guard_ w) (channel_started_at_unix_ w) (user_last_event_ts_ms_ w)
    (channel_last_room_event_ts_ms_ w) n (outbox w).
Definition set_outbox (o : list (OutgoingMessage VoiceEvent)) (w : World) : World :=
  mkWorld (ext w) (hubs w) (session_manager_ w) (subscription_manager_ w) (sessions_ w) (nodes_ w)
    (evidence_ w) (pending_channels_ w) (user_resume_ids_ w) (e2ee_keys_ w) (join_rotate_seen_ w)
    (channel_takeover_guard_ w) (channel_started_at_unix_ w) (user_last_event_ts_ms_ w)
    (channel_last_room_event_ts_ms_ w) (recovery_counter w) o.

(** *** Running a component's operation in the world *)

Definition on_ext {A} (m : ST X A) : EX World A :=
  fun w => let '(a, x) := m (ext w) in (Some a, set_ext x w).
Definition on_ext_ex {A} (m : EX X A) : EX World A :=
  fun w => let '(a, x) := m (ext w) in (a, set_ext x w).
Definition on_hubs {A} (m : EX (HubService.t (D := D)) A) : EX World A :=
  fun w => let '(a, h) := m (hubs w) in (a, set_hubs h w).
Definition on_sessions {A} (f : VoiceSessions.t -> A * VoiceSessions.t) : EX World A :=
  fun w => let '(a, v) := f (sessions_ w) in (Some a, set_sessions v w).
Definition on_nodes (f : NodeRegistry.t -> NodeRegistry.t) : EX World unit :=
  ex_modify (fun w => set_nodes (f (nodes_ w)) w).
Definition on_evidence (f : Evidence.t -> Evidence.t) : EX World unit :=
  ex_modify (fun w => set_evidence (f (evidence_ w)) w).

(** [VoiceReconciler::request]. *)
Definition request_reconcile (channel : ChannelId) : EX World unit :=
  ex_modify (fun w =>
    if bool_decide (channel_value channel = ""%string) then w
    else set_pending ({[channel]} ∪ pending_channels_ w) w).

(** [hub_service_.getChannel]. *)
Definition getChannel `{HubRepo D} (channel : ChannelId) : EX World (option Channel) :=
  on_hubs (HubService.getChannel channel).

End World.
Arguments World : clear implicits.
