(* ===== verification/VoiceStores.v ===== *)
(** * Voice publisher, resume ids and join intents

    [app/services/voice/VoicePublisher.cpp], [VoiceResumeRegistry.cpp] and
    [PendingJoinIntentStore.cpp] over the voice world, with the round trip of
    a staged intent through Redis and JSON. *)

From S2P Require Import Prelude.
From S2P Require Import CStrings.
From S2P Require Import Ids.
From S2P Require Import Protocol.
From S2P Require Import OutboundMsg.
From S2P Require Import SessionManager.
From S2P Require Import SubscriptionManager.
From S2P Require Import VoiceSessions.
From S2P Require Import Evidence.
From S2P Require Import NodeRegistry.
From S2P Require Import HubService.
From S2P Require Import External.
From S2P Require Import VoiceWorld.

(** ** Resume ids *)

Module Resume.
Section Resume.
Context {X D : Type} `{External X}.

Definition storage_key (user : UserId) : string := "voice:resume_id:" +:+ user_value user.

Definition rotate (user : UserId) : EX (World X D) string :=
  (next <-- on_ext VoiceNonce.generate_nonce_hex;
   ex_modify (fun w => set_resume (<[user := next]> (user_resume_ids_ w)) w);;;
   on_ext (RedisClient.setex (storage_key user) kResumeTtl next);;;
   ex_ret next)%ex.

Definition read (user : UserId) : EX (World X D) (option string) :=
  ex_gets (fun w => user_resume_ids_ w !! user).

Definition load_from_storage (user : UserId) : EX (World X D) (option string) :=
  (stored <-- on_ext (RedisClient.get (storage_key user));
   match stored with
   | Some s =>
     if bool_decide (s = ""%string) then ex_ret None
     else ex_modify (fun w => set_resume (<[user := s]> (user_resume_ids_ w)) w);;;
          ex_ret stored
   | None => ex_ret None
   end)%ex.

Definition clear (user : UserId) : EX (World X D) unit :=
  (ex_modify (fun w => set_resume (delete user (user_resume_ids_ w)) w);;;
   on_ext (RedisClient.del (storage_key user)))%ex.

Definition clear_all : EX (World X D) unit := ex_modify (set_resume ∅).
End Resume.
End Resume.

(** ** Join intents *)

Module Intents.
Section Intents.
Context {X : Type} `{External X} `{JsonLib}.

Definition storage_key (user : UserId) : string := "voice:pending_join:" +:+ user_value user.

(** The document [stage] and [update] write. *)
Definition intent_doc (user : UserId) (i : PendingJoinIntent) (expires : Z) : json :=
  JObject (list_to_map [
    ("user_id", JString (user_value user));
    ("session_id", JUnsigned (in_session_id i));
    ("intent_nonce", JString (in_nonce i));
    ("to_channel", JString (channel_value (to_channel i)));
    ("from_channel", JString (if has_from_channel i then channel_value (from_channel i) else ""));
    ("has_from_channel", JBool (has_from_channel i));
    ("muted", JBool (in_muted i));
    ("deafened", JBool (in_deafened i));
    ("old_leave_seen", JBool (old_leave_seen i));
    ("new_join_seen", JBool (new_join_seen i));
    ("expires_at_unix", JUnsigned expires)])%string.

(** [false] would need an exception out of [RedisClient::setex], which catches
    its own. *)
Definition stage (user : UserId) (i : PendingJoinIntent) (expires_in_seconds : Z) : ST X bool :=
  let ttl := wrap64 (expires_in_seconds + 10) in
  (now <-- unix_now_seconds;
   RedisClient.setex (storage_key user) ttl
     (json_dump (intent_doc user i (wrap64 (now + ttl))));;;
   st_ret true)%st.

(** The session id: a number, or text that must convert ([None]: throws). *)
Definition read_session_id (doc : json) : option Z :=
  match field doc "session_id" with
  | Some (JUnsigned n) => Some n
  | Some (JString s) => stoull s
  | _ => Some 0%Z
  end.

(** [read] on the parsed document. *)
Definition intent_of_doc (doc : json) : option PendingJoinIntent :=
  if negb (is_object doc) then None
  else
    sess ← read_session_id doc;
    to ← string_field doc "to_channel";
    let has0 := default false (bool_field doc "has_from_channel") in
    let from := default ""%string (string_field doc "from_channel") in
    let '(from_ch, has) :=
      if bool_decide (from = ""%string) then (empty_channel, has0)
      else (mkChannelId from, true) in
    Some (mkIntent sess (default ""%string (string_field doc "intent_nonce")) (mkChannelId to)
            from_ch has
            (default false (bool_field doc "muted")) (default false (bool_field doc "deafened"))
            (default false (bool_field doc "old_leave_seen"))
            (default false (bool_field doc "new_join_seen"))
            (default 0%Z (unsigned_field doc "expires_at_unix"))).

Definition read (user : UserId) : ST X (option PendingJoinIntent) :=
  (raw <-- RedisClient.get (storage_key user);
   st_ret (s ← raw; doc ← json_parse s; intent_of_doc doc))%st.

Definition update (user : UserId) (i : PendingJoinIntent) : ST X bool :=
  (ttl <-- RedisClient.ttl (storage_key user);
   match ttl with
   | Some n =>
     if (n <=? 0)%Z then st_ret false
     else RedisClient.setex (storage_key user) n
            (json_dump (intent_doc user i (expires_at_unix i)));;;
          st_ret true
   | None => st_ret false
   end)%st.

Definition clear (user : UserId) : ST X unit := RedisClient.del (storage_key user).

(** *** Round trip *)

(** What comes back: the channel switched from only when it was recorded. *)
Definition normal_intent (i : PendingJoinIntent) (expires : Z) : PendingJoinIntent :=
  mkIntent (in_session_id i) (in_nonce i) (to_channel i)
    (if has_from_channel i then from_channel i else empty_channel) (has_from_channel i)
    (in_muted i) (in_deafened i) (old_leave_seen i) (new_join_seen i) expires.

Lemma intent_doc_read user i expires :
  intent_of_doc (intent_doc user i expires) = Some (normal_intent i expires).
Proof.
  destruct i as [se no [to] [from] has mu de ol ne ex].
  destruct has; [destruct from as [|c from]|]; vm_compute; reflexivity.
Qed.

(** [stage] answers success whatever Redis did. *)
Lemma stage_reports_success user i expires x : (stage user i expires x).1 = true.
Proof.
  unfold stage, st_bind. destruct (unix_now_seconds x) as [now x1].
  by destruct (RedisClient.setex _ _ _ x1).
Qed.

(** A staged join intent is read back as it was staged.  When Redis took
    the write and returns what was set, and the JSON library reads what it
    printed, the intent comes back with every field (the channel switched from
    only if there was one), stamped with its expiry: now plus the token
    lifetime plus ten seconds. *)
Theorem intent_round_trip user i expires x :
  let ttl := wrap64 (expires + 10) in
  let at_ := wrap64 ((unix_now_seconds x).1 + ttl) in
  json_parse (json_dump (intent_doc user i at_)) = Some (intent_doc user i at_) ->
  (forall k ttl v y y', redis_setex k ttl v y = (Some tt, y') ->
     (redis_get k y').1 = Some (Some v)) ->
  (redis_setex (storage_key user) ttl (json_dump (intent_doc user i at_))
     (unix_now_seconds x).2).1 = Some tt ->
  (read user (stage user i expires x).2).1 = Some (normal_intent i at_).
Proof.
  intros ttl at_ Hjson Hredis Hset. unfold stage, read, st_bind, st_ret. fold ttl.
  destruct (unix_now_seconds x) as [now x1]. simpl in Hset, Hjson. unfold RedisClient.setex. simpl in at_.
  subst at_. destruct (redis_setex _ _ _ x1) as [r x2] eqn:E. simpl in Hset. subst r.
  apply Hredis in E. simpl. unfold RedisClient.get. destruct (redis_get _ x2) as [v x3].
  simpl in E. subst v. simpl. rewrite Hjson. simpl. by rewrite intent_doc_read.
Qed.
End Intents.

(** Switching channels, with the sample store and a JSON library that knows
    one document. *)
Definition demo_user : UserId := mkUserId "u".
Definition demo_intent : PendingJoinIntent :=
  mkIntent 7 "n" (mkChannelId "b") (mkChannelId "a") true true false false false 0.
Definition demo_json : JsonLib := {|
  json_parse := fun _ => Some (intent_doc demo_user demo_intent 1610);
  json_dump := fun _ => "doc"%string;
  picojson_serialize := fun _ => ""%string |}.

Lemma intent_round_trip_witness :
  (read (H0 := demo_json) demo_user
     (stage (H0 := demo_json) demo_user demo_intent 600 DemoWorld.start).2).1 =
  Some (normal_intent demo_intent 1610).
Proof.
  replace 1610%Z with (wrap64 ((unix_now_seconds DemoWorld.start).1 + wrap64 (600 + 10)))
    by reflexivity.
  apply (intent_round_trip (H0 := demo_json) demo_user demo_intent 600 DemoWorld.start).
  - reflexivity.
  - exact DemoWorld.demo_redis_get.
  - reflexivity.
Defined.
End Intents.

(** ** Publisher *)

Module Publisher.
Section Publisher.
Context {X D : Type} `{HubRepo D}.

Definition emit (msg : OutgoingMessage VoiceEvent) : EX (World X D) unit :=
  ex_modify (fun w => set_outbox (outbox w ++ [msg]) w).

(** The subscribers of a topic: the vector behind the pointer
    [getSubscribers] returns, read while it is held. *)
Definition subscribers (w : World X D) (topic : Topic.t) : list GlobalConnId :=
  match Subscription.topic_to_conns_ (subscription_manager_ w) !! topic with
  | Some l => Subscription.vec_at (subscription_manager_ w) l
  | None => []
  end.

(** Reliably to everyone subscribed to the hub, when there is anyone. *)
Definition to_hub_subscribers (hub : HubId) (ev : World X D -> VoiceEvent) : EX (World X D) unit :=
  (subs <-- ex_gets (fun w => subscribers w (Topic.HubTopic hub));
   match subs with
   | [] => ex_ret tt
   | _ =>
     e <-- ex_gets ev;
     emit (make_reliable_outgoing_message subs e)
   end)%ex.

Definition publish_voice_snapshot (hub : HubId) (channel : ChannelId) (started_at_unix : Z)
  : EX (World X D) unit :=
  to_hub_subscribers hub (fun w =>
    EvSnapshot hub channel started_at_unix
      (VoiceSessions.participants_in_channel (sessions_ w) channel)).

Definition publish_voice_participant_upsert (hub : HubId) (channel : ChannelId) (user : UserId)
  (muted deafened : bool) : EX (World X D) unit :=
  to_hub_subscribers hub (fun _ => EvUpsert hub channel user muted deafened).

Definition publish_voice_participant_remove (hub : HubId) (channel : ChannelId) (user : UserId)
  : EX (World X D) unit :=
  to_hub_subscribers hub (fun _ => EvRemove hub channel user).

(** The connections of the session that owns the user's voice. *)
Definition owner_conns (w : World X D) (user : UserId) : list GlobalConnId :=
  match VoiceSessions.user_session (sessions_ w) user with
  | Some s => Session.getSessionIdConnections (session_manager_ w) s
  | None => []
  end.

Definition publish_voice_key_update_to_user (hub : HubId) (channel : ChannelId) (user : UserId)
  (k : string) (idx : Z) : EX (World X D) unit :=
  (conns <-- ex_gets (fun w => owner_conns w user);
   match conns with
   | [] => ex_ret tt
   | _ => emit (make_reliable_outgoing_message conns (EvKeyUpdate hub channel k idx))
   end)%ex.

Definition publish_voice_key_update (hub : HubId) (channel : ChannelId) (k : string) (idx : Z)
  : EX (World X D) unit :=
  (ps <-- ex_gets (fun w => VoiceSessions.participants_in_channel (sessions_ w) channel);
   ex_for ps (fun p => publish_voice_key_update_to_user hub channel p.1 k idx))%ex.

(** The status one session of the user is sent. *)
Definition self_status (connected : bool) (owner : option Z) (channel : option ChannelId)
  (hub : option HubId) (resume_id : option string) (session_id : Z) : VoiceEvent :=
  let is_owner := connected && bool_decide (owner = Some session_id) in
  match connected, channel, hub with
  | true, Some ch, Some h =>
    EvSelfConnected is_owner h ch
      (if is_owner
       then match resume_id with
            | Some r => if bool_decide (r = ""%string) then None else Some r
            | None => None
            end
       else None)
  | _, _, _ => EvSelfDisconnected
  end.

Definition publish_self_status (user : UserId) (connected : bool) (owner : option Z)
  (channel : option ChannelId) (only_session : option Z) : EX (World X D) unit :=
  (hub <-- match connected, channel with
           | true, Some ch => info <-- getChannel ch; ex_ret (ch_hub_id <$> info)
           | _, _ => ex_ret None
           end;
   resume_id <-- (if connected then ex_gets (fun w => user_resume_ids_ w !! user) else ex_ret None);
   ids <-- ex_gets (fun w => Session.getUserSessionIds (session_manager_ w) user);
   ex_for ids (fun session_id =>
     if match only_session with Some o => negb (o =? session_id)%Z | None => false end
     then ex_ret tt
     else
       conns <-- ex_gets (fun w => Session.getSessionIdConnections (session_manager_ w) session_id);
       match conns with
       | [] => ex_ret tt
       | _ => emit (make_reliable_outgoing_message conns
                      (self_status connected owner channel hub resume_id session_id))
       end))%ex.
End Publisher.
End Publisher.
