(* ===== verification/ChannelKeys.v ===== *)
(** * End-to-end encryption keys of voice channels

    [livekit/crypto/E2EEKeyManager.cpp] (the keys in memory) and
    [app/services/voice/ChannelKeyService.cpp]: sealed storage in Redis, key
    choice for a joining user, rotation with its broadcast, recovery. *)

From S2P Require Import Prelude.
From S2P Require Import CStrings.
From S2P Require Import Ids.
From S2P Require Import Protocol.
From S2P Require Import OutboundMsg.
From S2P Require Import SessionManager.
From S2P Require Import SubscriptionManager.
From S2P Require Import VoiceSessions.
From S2P Require Import Evidence.
From S2P Require Import NodeRegistry.
From S2P Require Import HubService.
From S2P Require Import External.
From S2P Require Import VoiceWorld.
From S2P Require Import VoiceStores.
From Stdlib Require Import Ascii.

(** ** Sealed blobs *)

Module KeyBlob.
Section Blob.
Context `{Crypto}.

Definition kVersion : ascii := chr 1.
Definition kNonceLen : nat := 12.
Definition kTagLen : nat := 16.

Definition derive_master_key (secret : string) : option string :=
  if bool_decide (secret = ""%string) then None
  else match evp_sha256 secret with
       | Some d => if String.length d =? 32 then Some d else None
       | None => None
       end.

Definition base64_encode (input : string) : option string :=
  if bool_decide (input = ""%string) then Some ""%string
  else match evp_encode_block input with
       | Some out => if String.length out =? 0 then None else Some out
       | None => None
       end.

Definition is_pad (c : option ascii) : bool := bool_decide (c = Some "="%char).

Definition base64_decode (input : string) : option string :=
  if bool_decide (input = ""%string) then Some ""%string
  else
    let n := String.length input in
    if negb (n mod 4 =? 0) then None
    else match evp_decode_block input with
         | None => None
         | Some out =>
           let pads := (if is_pad (String.get (n - 1) input) then 1 else 0) +
                       (if is_pad (String.get (n - 2) input) then 1 else 0) in
           Some (String.substring 0 (String.length out - pads) out)
         end.

(** [None] for the [false] results; the nonce comes from [RAND_bytes]. *)
Definition encrypt_key_blob (master_key nonce plaintext : string) : option string :=
  match gcm_seal master_key nonce plaintext with
  | None => None
  | Some (ciphertext, tag) =>
    base64_encode (String kVersion (nonce +:+ ciphertext +:+ tag))
  end.

Definition decrypt_key_blob (master_key encoded : string) : option string :=
  match base64_decode encoded with
  | None => None
  | Some packed =>
    let n := String.length packed in
    if n <? 1 + kNonceLen + kTagLen then None
    else if negb (bool_decide (String.get 0 packed = Some kVersion)) then None
    else
      let nonce := String.substring 1 kNonceLen packed in
      let ciphertext := String.substring (1 + kNonceLen) (n - (1 + kNonceLen + kTagLen)) packed in
      let tag := String.substring (n - kTagLen) kTagLen packed in
      gcm_open master_key nonce ciphertext tag
  end.

(** *** Round trip *)

Lemma substring_all s : String.substring 0 (String.length s) s = s.
Proof. induction s as [|c s IH]; [done|]. simpl. by rewrite IH. Qed.

Lemma length_app s1 s2 : String.length (s1 +:+ s2) = String.length s1 + String.length s2.
Proof. induction s1 as [|c s1 IH]; [done|]. simpl. by rewrite IH. Qed.

Lemma substring_app_l s1 s2 : String.substring 0 (String.length s1) (s1 +:+ s2) = s1.
Proof. induction s1 as [|c s1 IH]; simpl; [by destruct s2|]. by rewrite IH. Qed.

Lemma substring_app_r s1 s2 n :
  String.substring (String.length s1) n (s1 +:+ s2) = String.substring 0 n s2.
Proof. induction s1 as [|c s1 IH]; simpl; [done|]. apply IH. Qed.

(** Cutting a packed blob gives back its parts. *)
Lemma unpack_blob nonce ct tag :
  let packed := String kVersion (nonce +:+ ct +:+ tag) in
  String.length nonce = kNonceLen -> String.length tag = kTagLen ->
  String.length packed = 1 + kNonceLen + kTagLen + String.length ct /\
  String.substring 1 kNonceLen packed = nonce /\
  String.substring (1 + kNonceLen) (String.length ct) packed = ct /\
  String.substring (String.length packed - kTagLen) kTagLen packed = tag.
Proof.
  intros packed Hn Ht. subst packed.
  assert (Hl : String.length (String kVersion (nonce +:+ ct +:+ tag)) =
               1 + kNonceLen + kTagLen + String.length ct).
  { simpl. rewrite !length_app. unfold kNonceLen, kTagLen in *. lia. }
  split_and!; [done| | |].
  - rewrite <- Hn. simpl. apply substring_app_l.
  - rewrite <- Hn. cbn [Nat.add String.substring]. rewrite substring_app_r. apply substring_app_l.
  - rewrite Hl.
    replace (1 + kNonceLen + kTagLen + String.length ct - kTagLen)
      with (S (String.length (nonce +:+ ct))) by (rewrite length_app; unfold kTagLen; lia).
    cbn [String.substring].
    assert (Ha : nonce +:+ ct +:+ tag = (nonce +:+ ct) +:+ tag).
    { clear. induction nonce as [|c s IH]; [done|].
      change (String c (s +:+ (ct +:+ tag)) = String c ((s +:+ ct) +:+ tag)). by rewrite IH. }
    rewrite Ha, substring_app_r, <- Ht. apply substring_all.
Qed.

(** A sealed channel key opens to the key that was sealed.  For a nonce of
    the size the code uses, if AES-GCM opens what it sealed with a tag of
    sixteen bytes and the base64 blocks decode to the packed bytes (plus the
    padding the decoder leaves), [decrypt_key_blob] inverts
    [encrypt_key_blob]. *)
Theorem key_blob_round_trip master nonce pt ct tag encoded pads :
  String.length nonce = kNonceLen ->
  gcm_seal master nonce pt = Some (ct, tag) -> String.length tag = kTagLen ->
  gcm_open master nonce ct tag = Some pt ->
  encrypt_key_blob master nonce pt = Some encoded ->
  let n := String.length encoded in
  n mod 4 = 0 ->
  String.length pads = (if is_pad (String.get (n - 1) encoded) then 1 else 0) +
                       (if is_pad (String.get (n - 2) encoded) then 1 else 0) ->
  evp_decode_block encoded = Some (String kVersion (nonce +:+ ct +:+ tag) +:+ pads) ->
  decrypt_key_blob master encoded = Some pt.
Proof.
  intros Hn Hseal Ht Hopen Henc n Hmod Hp Hdec.
  set (packed := String kVersion (nonce +:+ ct +:+ tag)) in *.
  assert (Hne : encoded <> ""%string).
  { unfold encrypt_key_blob in Henc. rewrite Hseal in Henc. unfold base64_encode in Henc.
    rewrite bool_decide_eq_false_2 in Henc by done. destruct (evp_encode_block _) as [o|]; [|done].
    destruct (String.length o =? 0) eqn:E; [done|]. intros ->. injection Henc as ->. done. }
  assert (Hb : base64_decode encoded = Some packed).
  { unfold base64_decode. rewrite bool_decide_eq_false_2 by done. fold n.
    rewrite Hmod. cbn [Nat.eqb negb]. rewrite Hdec, <- Hp, length_app.
    replace (String.length packed + String.length pads - String.length pads)
      with (String.length packed) by lia. by rewrite substring_app_l. }
  unfold decrypt_key_blob. rewrite Hb.
  destruct (unpack_blob nonce ct tag Hn Ht) as (Hl & H1 & H2 & H3). fold packed in Hl, H1, H2, H3.
  assert (Hlt : (String.length packed <? 1 + kNonceLen + kTagLen) = false)
    by (apply Nat.ltb_ge; lia).
  rewrite Hlt. rewrite bool_decide_eq_true_2 by done. cbn [negb].
  rewrite H1, H3. replace (String.length packed - (1 + kNonceLen + kTagLen)) with (String.length ct)
    by lia. by rewrite H2.
Qed.
End Blob.

(** A toy cipher, and a coder for the one block it meets: sealing "k" gives
    thirty bytes, ten groups of three, so forty characters and no padding. *)
Definition demo_nonce : string := DemoWorld.letters 12 "n".
Definition demo_tag : string := DemoWorld.letters 16 "t".
Definition demo_text : string := DemoWorld.letters 40 "a".
Definition demo_crypto : Crypto := {|
  evp_sha256 := fun _ => None;
  gcm_seal := fun _ _ pt => Some (pt, demo_tag);
  gcm_open := fun _ _ ct _ => Some ct;
  evp_encode_block := fun _ => Some demo_text;
  evp_decode_block := fun _ => Some (String kVersion (demo_nonce +:+ "k" +:+ demo_tag))%string;
  jwt_base64 := fun s => s;
  jwt_sign := fun _ _ => ""%string |}.

Lemma key_blob_round_trip_witness :
  decrypt_key_blob (H := demo_crypto) "m" demo_text = Some "k"%string.
Proof.
  apply (key_blob_round_trip (H := demo_crypto) "m" demo_nonce "k" "k" demo_tag demo_text "");
    vm_compute; reflexivity.
Defined.
End KeyBlob.

(** ** Keys in memory *)

Module E2EEKeyManager.
Section Keys.
Context {X D : Type} `{External X} `{Crypto}.

Definition kKeyringSize : Z := 16.

(** Throws when no random bytes can be had. *)
Definition generate_key : EX (World X D) string :=
  (raw <-- on_ext (rand_bytes 32);
   match raw with Some r => ex_ret (jwt_base64 r) | None => ex_throw end)%ex.

(** An entry without a key counts as none. *)
Definition get_key (w : World X D) (channel : ChannelId) : option ChannelKey :=
  match e2ee_keys_ w !! channel with
  | Some k => if bool_decide (key k = ""%string) then None else Some k
  | None => None
  end.

Definition put_key (channel : ChannelId) (k : ChannelKey) : EX (World X D) unit :=
  ex_modify (fun w => set_keys (<[channel := k]> (e2ee_keys_ w)) w).

Definition get_or_create_key (channel : ChannelId) : EX (World X D) ChannelKey :=
  (cur <-- ex_gets (fun w => get_key w channel);
   match cur with
   | Some k => ex_ret k
   | None =>
     (* [channels_[channel]] *)
     state <-- ex_gets (fun w => default (mkKey "" 0) (e2ee_keys_ w !! channel));
     put_key channel state;;;
     k <-- generate_key;
     put_key channel (mkKey k 0);;;
     ex_ret (mkKey k 0)
   end)%ex.

Definition set_key (channel : ChannelId) (k : string) (idx : Z) : EX (World X D) unit :=
  put_key channel (mkKey k (idx `mod` kKeyringSize)).

Definition rotate_key (channel : ChannelId) : EX (World X D) ChannelKey :=
  (state <-- ex_gets (fun w => default (mkKey "" 0) (e2ee_keys_ w !! channel));
   put_key channel state;;;
   k <-- generate_key;
   let had_key := negb (bool_decide (key state = ""%string)) in
   let next := mkKey k (if had_key then (wrap32 (key_index state + 1)) `mod` kKeyringSize else 0)%Z in
   put_key channel next;;;
   ex_ret next)%ex.

Definition clear_key (channel : ChannelId) : EX (World X D) unit :=
  ex_modify (fun w => set_keys (delete channel (e2ee_keys_ w)) w).
End Keys.
End E2EEKeyManager.

(** ** The key service *)

Module ChannelKeyService.
Section Service.
Context {X D : Type} `{External X} `{HubRepo D} `{JsonLib} `{Crypto}.
Variable cfg : VoiceConfig.

Abbreviation M := (EX (World X D)).

Definition key_storage_key (channel : ChannelId) : string :=
  "voice:e2ee:channel:" +:+ channel_value channel.
Definition index_storage_key (channel : ChannelId) : string :=
  "voice:e2ee_idx:channel:" +:+ channel_value channel.

(** The index stored beside the key; text that does not convert reads as 0. *)
Definition read_index (raw : option string) : Z :=
  match raw with
  | Some s =>
    if bool_decide (s = ""%string) then 0
    else match stoul s with
         | Some n => (wrap32 n) `mod` E2EEKeyManager.kKeyringSize
         | None => 0
         end
  | None => 0
  end%Z.

Definition load_from_storage (channel : ChannelId) : M (option ChannelKey) :=
  match storage_master_key cfg with
  | None => ex_ret None
  | Some master =>
    (raw <-- on_ext (RedisClient.get (key_storage_key channel));
     match raw with
     | None => ex_ret None
     | Some blob =>
       if bool_decide (blob = ""%string) then ex_ret None
       else match KeyBlob.decrypt_key_blob master blob with
            | None => ex_ret None
            | Some k =>
              raw_idx <-- on_ext (RedisClient.get (index_storage_key channel));
              let idx := read_index raw_idx in
              on_ext (RedisClient.setex (key_storage_key channel) (key_ttl_ cfg) blob);;;
              on_ext (RedisClient.setex (index_storage_key channel) (key_ttl_ cfg)
                        (std_to_string idx));;;
              ex_ret (Some (mkKey k idx))
            end
     end)%ex
  end.

Definition persist_to_storage (channel : ChannelId) (ck : ChannelKey) : M bool :=
  match storage_master_key cfg with
  | None => ex_ret false
  | Some master =>
    if bool_decide (key ck = ""%string) then ex_ret false
    else
      (nonce <-- on_ext (rand_bytes KeyBlob.kNonceLen);
       match nonce ≫= (fun n => KeyBlob.encrypt_key_blob master n (key ck)) with
       | None => ex_ret false
       | Some blob =>
         on_ext (RedisClient.setex (key_storage_key channel) (key_ttl_ cfg) blob);;;
         on_ext (RedisClient.setex (index_storage_key channel) (key_ttl_ cfg)
                   (std_to_string (key_index ck)));;;
         ex_ret true
       end)%ex
  end.

Definition clear_storage (channel : ChannelId) : M unit :=
  (on_ext (RedisClient.del (key_storage_key channel));;;
   on_ext (RedisClient.del (index_storage_key channel)))%ex.

(** One node's answer: [None] when the query threw. *)
Definition query_node (host : string) (channel : ChannelId) : M (option (list ParticipantInfo)) :=
  ex_catch (ps <-- on_ext_ex (LivekitClient.ListParticipants
                                (LivekitClient.mk host (cfg_tokens cfg)) channel);
            ex_ret (Some ps))%ex
           (ex_ret None).

(** The sweep of [is_channel_effectively_empty]: [ok] counts the answers. *)
Fixpoint sweep_nodes (channel : ChannelId) (nodes : list NodeRegistry.LivekitNode) (ok total : nat)
  : M (option bool) :=
  match nodes with
  | [] => ex_ret (if ok =? total then Some true else None)
  | n :: nodes' =>
    (r <-- query_node (NodeRegistry.private_host n) channel;
     match r with
     | Some [] => sweep_nodes channel nodes' (S ok) total
     | Some (_ :: _) => ex_ret (Some false)
     | None => sweep_nodes channel nodes' ok total
     end)%ex
  end.

Definition is_channel_effectively_empty (channel : ChannelId) : M (option bool) :=
  (empty <-- ex_gets (fun w => VoiceSessions.is_empty (sessions_ w) channel);
   if negb empty then ex_ret (Some false)
   else
     nodes <-- ex_gets (fun w => NodeRegistry.list_nodes (nodes_ w));
     match nodes with
     | [] => ex_ret (Some true)
     | _ => sweep_nodes channel nodes 0 (length nodes)
     end)%ex.

(** A time stamp of 0 is a default-constructed time point. *)
Definition record_join_and_should_debounce_rotation (channel : ChannelId) (user : UserId) : M bool :=
  (now <-- on_ext steady_now;
   last <-- ex_gets (fun w => default 0%Z (default ∅ (join_rotate_seen_ w !! channel) !! user));
   ex_modify (fun w => set_join_seen
     (<[channel := <[user := now]> (default ∅ (join_rotate_seen_ w !! channel))]>
        (join_rotate_seen_ w)) w);;;
   ex_ret (negb (last =? 0)%Z && (now <? last + join_rotate_debounce_ttl_ cfg)%Z))%ex.

Definition clear_join_rotation_debounce (channel : ChannelId) : M unit :=
  ex_modify (fun w => set_join_seen (delete channel (join_rotate_seen_ w)) w).

(** Tell the members of the channel, when its hub can be found. *)
Definition broadcast (channel : ChannelId) (ck : ChannelKey) : M unit :=
  (info <-- getChannel channel;
   match info with
   | Some ch => Publisher.publish_voice_key_update (ch_hub_id ch) channel (key ck) (key_index ck)
   | None => ex_ret tt
   end)%ex.

(** A failure to rotate yields an empty key. *)
Definition rotate_and_broadcast (channel : ChannelId) : M ChannelKey :=
  (rotated <-- ex_catch (k <-- E2EEKeyManager.rotate_key channel; ex_ret (Some k))%ex
                        (ex_ret None);
   match rotated with
   | None => ex_ret (mkKey "" 0)
   | Some k =>
     persist_to_storage channel k;;;
     broadcast channel k;;;
     ex_ret k
   end)%ex.

(** [try { ck = get_or_create_key } catch] *)
Definition try_create (channel : ChannelId) : M (option ChannelKey) :=
  ex_catch (k <-- E2EEKeyManager.get_or_create_key channel; ex_ret (Some k))%ex (ex_ret None).

(** No key in memory: decide between a fresh, a stored and a recovered key. *)
Definition establish_key (channel : ChannelId) (empty_state : option bool) : M (option ChannelKey) :=
  (ck <-- ex_gets (fun w => E2EEKeyManager.get_key w channel);
   match ck with
   | Some k => persist_to_storage channel k;;; ex_ret ck
   | None =>
     if bool_decide (empty_state = Some true) then
       created <-- try_create channel;
       match created with
       | Some k => persist_to_storage channel k;;; ex_ret created
       | None => ex_ret None
       end
     else
       loaded <-- load_from_storage channel;
       match loaded with
       | Some k =>
         E2EEKeyManager.set_key channel (key k) (key_index k);;;
         persist_to_storage channel k;;;
         ex_ret loaded
       | None =>
         created <-- try_create channel;
         match created with
         | Some k => persist_to_storage channel k;;; broadcast channel k;;; ex_ret created
         | None => ex_ret None
         end
       end
   end)%ex.

(** [AcquireResult]: the key, or "voice_key_unavailable". *)
Definition acquire_for_join (channel : ChannelId) (user : UserId) : M (expected ChannelKey string) :=
  (current_channel <-- ex_gets (fun w => VoiceSessions.user_channel (sessions_ w) user);
   empty <-- ex_gets (fun w => VoiceSessions.is_empty (sessions_ w) channel);
   let already_member := bool_decide (current_channel = Some channel) in
   ck <-- (if negb already_member && negb empty then
             debounce <-- record_join_and_should_debounce_rotation channel user;
             live <-- ex_gets (fun w => E2EEKeyManager.get_key w channel);
             match debounce, live with
             | true, Some k => ex_ret (Some k)
             | _, _ => k <-- rotate_and_broadcast channel; ex_ret (Some k)
             end
           else
             live <-- ex_gets (fun w => E2EEKeyManager.get_key w channel);
             match live with
             | Some k => persist_to_storage channel k;;; ex_ret live
             | None =>
               empty_state <-- is_channel_effectively_empty channel;
               establish_key channel empty_state
             end);
   ex_ret match ck with
          | Some k => if bool_decide (key k = ""%string) then Unexpected "voice_key_unavailable"%string
                      else Ok k
          | None => Unexpected "voice_key_unavailable"%string
          end)%ex.

Definition resync_to_user (user : UserId) : M unit :=
  (channel <-- ex_gets (fun w => VoiceSessions.user_channel (sessions_ w) user);
   match channel with
   | None => ex_ret tt
   | Some c =>
     ck <-- ex_gets (fun w => E2EEKeyManager.get_key w c);
     match ck with
     | None => ex_ret tt
     | Some k =>
       info <-- getChannel c;
       match info with
       | None => ex_ret tt
       | Some ch => Publisher.publish_voice_key_update_to_user (ch_hub_id ch) c user
                      (key k) (key_index k)
       end
     end
   end)%ex.

Definition clear_channel (channel : ChannelId) : M unit :=
  (E2EEKeyManager.clear_key channel;;;
   clear_storage channel;;;
   clear_join_rotation_debounce channel)%ex.

Definition restore_key_for_recovery (channel : ChannelId) : M unit :=
  (recovered <-- load_from_storage channel;
   match recovered with
   | Some k =>
     E2EEKeyManager.set_key channel (key k) (key_index k);;;
     persist_to_storage channel k;;;
     ex_ret tt
   | None => ex_ret tt
   end)%ex.
End Service.
End ChannelKeyService.
