(* ===== verification/VoiceService.v ===== *)
(** * The voice coordinator

    [app/services/voice/VoiceService.cpp]: token issue, webhook handling,
    reconciliation with LiveKit, resume, and restart recovery, over the voice
    world.  Each handler is one transition; the locks inside the components
    it calls make each of their operations atomic. *)

From S2P Require Import Prelude.
From S2P Require Import CStrings.
From S2P Require Import Ids.
From S2P Require Import Protocol.
From S2P Require Import OutboundMsg.
From S2P Require Import SessionManager.
From S2P Require Import SubscriptionManager.
From S2P Require Import VoiceSessions.
From S2P Require Import Evidence.
From S2P Require Import NodeRegistry.
From S2P Require Import HubService.
From S2P Require Import External.
From S2P Require Import VoiceWorld.
From S2P Require Import VoiceStores.
From S2P Require Import ChannelKeys.

(** ** Webhook events *)

Inductive LiveKitEventType :=
  | LK_UNKNOWN | ROOM_STARTED | ROOM_FINISHED | PARTICIPANT_JOINED | PARTICIPANT_LEFT
  | PARTICIPANT_CONNECTION_ABORTED | TRACK_PUBLISHED | TRACK_UNPUBLISHED | EGRESS_STARTED
  | EGRESS_UPDATED | EGRESS_ENDED | INGRESS_STARTED | INGRESS_ENDED.

#[export] Instance LiveKitEventType_eq_dec : EqDecision LiveKitEventType.
Proof. solve_decision. Defined.

(** [parseLiveKitEvent]. *)
Definition parseLiveKitEvent (event : string) : LiveKitEventType :=
  if bool_decide (event = "room_started") then ROOM_STARTED
  else if bool_decide (event = "room_finished") then ROOM_FINISHED
  else if bool_decide (event = "participant_joined") then PARTICIPANT_JOINED
  else if bool_decide (event = "participant_left") then PARTICIPANT_LEFT
  else if bool_decide (event = "participant_connection_aborted") then PARTICIPANT_CONNECTION_ABORTED
  else if bool_decide (event = "track_published") then TRACK_PUBLISHED
  else if bool_decide (event = "track_unpublished") then TRACK_UNPUBLISHED
  else if bool_decide (event = "egress_started") then EGRESS_STARTED
  else if bool_decide (event = "egress_updated") then EGRESS_UPDATED
  else if bool_decide (event = "egress_ended") then EGRESS_ENDED
  else if bool_decide (event = "ingress_started") then INGRESS_STARTED
  else if bool_decide (event = "ingress_ended") then INGRESS_ENDED
  else LK_UNKNOWN%string.

(** [LiveKitEvent]; the track, egress and ingress ids are only logged. *)
Record LiveKitEvent := mkEvent {
  ev_type : LiveKitEventType; event_id : string; raw_event_name : string;
  channel_id : ChannelId; user_id : UserId; participant_sid : string;
  participant_metadata : string; app_session_id : Z; intent_nonce : string; node_id : string;
  timestamp_ms : Z }.

Record ParticipantMetadata := mkMeta {
  md_node_id : string; md_app_session_id : Z; md_intent_nonce : string; structured : bool }.

Module VoiceService.
Section Service.
Context {X D : Type} `{External X} `{HubRepo D} `{JsonLib} `{Crypto}.
Variable cfg : VoiceConfig.

Abbreviation M := (EX (World X D)).

(** ** Construction *)

(** Register the configured nodes (id, public and private url); a repeated id
    throws. *)
Fixpoint register_nodes (r : NodeRegistry.t) (nodes : list (string * string * string))
  : option NodeRegistry.t :=
  match nodes with
  | [] => Some r
  | (id, pub, priv) :: nodes' =>
    r' ← NodeRegistry.register_node r (NodeRegistry.mkNode id pub priv 0 0 0);
    register_nodes r' nodes'
  end.

Definition create (x : X) (h : HubService.t (D := D)) (sm : Session.t) (sub : Subscription.t)
  (nodes : list (string * string * string)) (missing_ttl : Z) : option (World X D) :=
  r ← register_nodes NodeRegistry.create nodes;
  Some (mkWorld x h sm sub VoiceSessions.create r (Evidence.create missing_ttl)
          ∅ ∅ ∅ ∅ ∅ ∅ ∅ ∅ 1 []).

(** ** Metadata *)

(** The session id of a metadata object: a number, or text; 0 when neither. *)
Definition metadata_session (md : json) : Z :=
  match field md "app_session_id" with
  | Some (JUnsigned n) => n
  | Some (JString s) => default 0%Z (stoull s)
  | _ => 0%Z
  end.

Definition parse_participant_metadata (raw : string) : ParticipantMetadata :=
  if bool_decide (raw = ""%string) then mkMeta "" 0 "" false
  else match json_parse raw with
       | Some (JObject m) =>
         let md := JObject m in
         mkMeta (default ""%string (string_field md "node_id")) (metadata_session md)
           (default ""%string (string_field md "intent_nonce")) true
       | _ => mkMeta raw 0 "" false
       end.

(** The one known node the participants' metadata name, if they agree. *)
Fixpoint resolve_nodes (nodes : NodeRegistry.t) (resolved : option string)
  (ps : list ParticipantInfo) : option string :=
  match ps with
  | [] => resolved
  | p :: ps' =>
    let n := md_node_id (parse_participant_metadata (metadata p)) in
    if bool_decide (n = ""%string) || bool_decide (NodeRegistry.get_node nodes n = None)
    then resolve_nodes nodes resolved ps'
    else match resolved with
         | None => resolve_nodes nodes (Some n) ps'
         | Some r => if bool_decide (r = n) then resolve_nodes nodes resolved ps' else None
         end
  end.

Definition resolve_participant_node_assignment (nodes : NodeRegistry.t)
  (participants : gmap UserId ParticipantInfo) : option string :=
  resolve_nodes nodes None (map_to_list participants).*2.

(** ** Small state *)

Definition any_node : M (option NodeRegistry.LivekitNode) :=
  fun w => let '(n, r) := NodeRegistry.any_node (nodes_ w) in (Some n, set_nodes r w).

Definition client (n : NodeRegistry.LivekitNode) : LivekitClient.t :=
  LivekitClient.mk (NodeRegistry.private_host n) (cfg_tokens cfg).

Definition set_channel_started_at_unix (channel : ChannelId) (t : Z) : M unit :=
  ex_modify (fun w => set_started (<[channel := t]> (channel_started_at_unix_ w)) w).
Definition clear_channel_started_at_unix (channel : ChannelId) : M unit :=
  ex_modify (fun w => set_started (delete channel (channel_started_at_unix_ w)) w).
Definition read_channel_started_at_unix (w : World X D) (channel : ChannelId) : Z :=
  default 0%Z (channel_started_at_unix_ w !! channel).

Definition mark_channel_takeover (channel : ChannelId) : M unit :=
  (now <-- on_ext steady_now;
   ex_modify (fun w => set_guard (<[channel := (now + takeover_guard_ttl cfg)%Z]>
                                    (channel_takeover_guard_ w)) w))%ex.

Definition consume_channel_takeover_guard (channel : ChannelId) : M bool :=
  (it <-- ex_gets (fun w => channel_takeover_guard_ w !! channel);
   match it with
   | None => ex_ret false
   | Some until =>
     now <-- on_ext steady_now;
     ex_modify (fun w => set_guard (delete channel (channel_takeover_guard_ w)) w);;;
     ex_ret (negb (until <? now)%Z)
   end)%ex.

Definition webhook_seen_key (id : string) : string := "voice:webhook_seen:" +:+ id.

(** An outage of Redis lets the event through. *)
Definition mark_webhook_event_seen (id : string) : M bool :=
  if bool_decide (id = ""%string) then ex_ret true
  else
    (first_seen <-- on_ext (RedisClient.setnxex (webhook_seen_key id) kWebhookDedupTtl "1");
     ex_ret (default true first_seen))%ex.

(** The two staleness checks keep the newest time stamp per user and channel. *)
Definition stale_step (last ts : Z) : bool * Z :=
  if negb (last =? 0)%Z && (ts <? last)%Z then (true, last)
  else if (last <? ts)%Z then (false, ts) else (false, last).

Definition is_stale_participant_event (e : LiveKitEvent) : M bool :=
  fun w =>
    if (timestamp_ms e =? 0)%Z || bool_decide (user_value (user_id e) = ""%string)
    then (Some false, w)
    else
      let '(stale, last) :=
        stale_step (default 0%Z (user_last_event_ts_ms_ w !! user_id e)) (timestamp_ms e) in
      (Some stale, set_event_ts (<[user_id e := last]> (user_last_event_ts_ms_ w))
                     (channel_last_room_event_ts_ms_ w) w).

Definition is_stale_room_event (e : LiveKitEvent) : M bool :=
  fun w =>
    if (timestamp_ms e =? 0)%Z || bool_decide (channel_value (channel_id e) = ""%string)
    then (Some false, w)
    else
      let '(stale, last) :=
        stale_step (default 0%Z (channel_last_room_event_ts_ms_ w !! channel_id e))
          (timestamp_ms e) in
      (Some stale, set_event_ts (user_last_event_ts_ms_ w)
                     (<[channel_id e := last]> (channel_last_room_event_ts_ms_ w)) w).

(** [VoiceReconciler]'s evidence calls. *)
Definition clear_channel_missing (channel : ChannelId) : M unit :=
  on_evidence (fun e => Evidence.clear_channel_missing e channel).
Definition clear_participant_missing (channel : ChannelId) (user : UserId) : M unit :=
  on_evidence (fun e => Evidence.clear_participant_missing e channel user).
Definition reset_missing (channel : ChannelId) : M unit :=
  on_evidence (fun e => Evidence.reset_channel e channel).

Definition confirm_channel_remote_missing (channel : ChannelId) (why : string) : M bool :=
  (now <-- on_ext steady_now;
   fun w => let '(r, e) := Evidence.observe_channel_missing (evidence_ w) channel why now in
            (Some (Evidence.confirmed r), set_evidence e w))%ex.

Definition confirm_participant_remote_missing (channel : ChannelId) (user : UserId) (why : string)
  : M bool :=
  (now <-- on_ext steady_now;
   fun w => let '(r, e) := Evidence.observe_participant_missing (evidence_ w) channel user why now in
            (Some (Evidence.confirmed r), set_evidence e w))%ex.

(** ** Joining *)

Record JoinVoiceToken := mkToken {
  token : string; livekit_url : string; expires_in : Z; e2ee_key : string; tok_key_index : Z;
  resume_id : string; error_reason : string }.

Definition no_token (why : string) : JoinVoiceToken := mkToken "" "" 0 "" 0 "" why.

Definition join_voice (channel : ChannelId) (user : UserId) (session : Z) (nonce : string)
  : M JoinVoiceToken :=
  (node <-- any_node;
   match node with
   | None => ex_ret (no_token "")
   | Some n =>
     clear_channel_missing channel;;;
     acquired <-- ChannelKeyService.acquire_for_join cfg channel user;
     match acquired with
     | Unexpected why => ex_ret (no_token why)
     | Ok ck =>
       tok <-- on_ext (TokenService.mint_participant_token (cfg_tokens cfg)
                 (TokenService.mkRequest user channel (NodeRegistry.node_id n) session nonce
                    true true 600));
       rid <-- Resume.rotate user;
       ex_ret (mkToken tok (livekit_cluster_url_ cfg) 600 (key ck) (key_index ck) rid "")
     end
   end)%ex.

Definition kick_user (channel : ChannelId) (target : UserId) : M bool :=
  (node <-- any_node;
   match node with
   | None => ex_ret false
   | Some n => on_ext (LivekitClient.RemoveParticipant (client n) channel target)
   end)%ex.

(** Removal, or at least that the participant is gone. *)
Definition verified_kick_user (channel : ChannelId) (target : UserId) : M bool :=
  (node <-- any_node;
   match node with
   | None => ex_ret true
   | Some n =>
     removed <-- on_ext (LivekitClient.RemoveParticipant (client n) channel target);
     if (removed : bool) then ex_ret true
     else
       r <-- ChannelKeyService.query_node cfg (NodeRegistry.private_host n) channel;
       ex_ret match r with
              | Some ps => negb (existsb (fun p => bool_decide (identity p = target)) ps)
              | None => false
              end
   end)%ex.

(** ** Leaving *)

Definition on_channel_empty (channel : ChannelId) : M unit :=
  (ChannelKeyService.clear_channel channel;;;
   on_nodes (fun n => NodeRegistry.clear_room n channel))%ex.

Definition publish_removed (info : option Channel) (channel : ChannelId) (user : UserId) : M unit :=
  match info with
  | Some ch => Publisher.publish_voice_participant_remove (ch_hub_id ch) channel user
  | None => ex_ret tt
  end.

Definition publish_disconnected (user : UserId) : M unit :=
  Publisher.publish_self_status user false None None None.

Definition on_channel_finish (channel : ChannelId) : M unit :=
  (reset_missing channel;;;
   removed <-- on_sessions (fun v => VoiceSessions.clear_channel v channel);
   info <-- getChannel channel;
   ex_for removed (fun user =>
     publish_removed info channel user;;;
     publish_disconnected user;;;
     Resume.clear user);;;
   on_nodes (fun n => NodeRegistry.clear_room n channel);;;
   ChannelKeyService.clear_channel channel;;;
   clear_channel_started_at_unix channel)%ex.

(** The channel lost a member: forget its key, or replace it for the rest. *)
Definition after_leave (channel : ChannelId) (became_empty : bool) : M unit :=
  (if became_empty
   then clear_channel_started_at_unix channel;;; on_channel_empty channel
   else ChannelKeyService.rotate_and_broadcast cfg channel;;; ex_ret tt)%ex.

Definition force_local_leave (user : UserId) (channel : ChannelId) : M unit :=
  (clear_participant_missing channel user;;;
   became_empty <-- on_sessions (fun v => VoiceSessions.leave v channel user);
   info <-- getChannel channel;
   publish_removed info channel user;;;
   publish_disconnected user;;;
   Resume.clear user;;;
   after_leave channel became_empty)%ex.

(** ** Participant webhooks *)

(** The intent a join event belongs to, if it can be told: by session and
    nonce when the event carries either, else by the user's only session. *)
Definition correlate (w : World X D) (e : LiveKitEvent) (pending : option PendingJoinIntent)
  : option PendingJoinIntent :=
  let ids := Session.getUserSessionIds (session_manager_ w) (user_id e) in
  match pending with
  | Some i =>
    if negb (bool_decide (channel_id e = to_channel i)) then None
    else if negb (app_session_id e =? 0)%Z || negb (bool_decide (intent_nonce e = ""%string))
    then if (app_session_id e =? in_session_id i)%Z && negb (bool_decide (in_nonce i = ""%string)) &&
            bool_decide (intent_nonce e = in_nonce i)
         then Some i else None
    else match ids with
         | [s] => if (s =? in_session_id i)%Z then Some i else None
         | _ => None
         end
  | None =>
    if (app_session_id e =? 0)%Z && bool_decide (intent_nonce e = ""%string)
    then match ids with
         | [s] => Some (mkIntent s "" (channel_id e) empty_channel false false false false false 0)
         | _ => None
         end
    else None
  end.

(** The event's session already owns voice in the event's channel. *)
Definition already_owner_here (w : World X D) (e : LiveKitEvent) : bool :=
  negb (app_session_id e =? 0)%Z &&
  bool_decide (VoiceSessions.user_channel (sessions_ w) (user_id e) = Some (channel_id e)) &&
  bool_decide (VoiceSessions.user_session (sessions_ w) (user_id e) = Some (app_session_id e)).

Definition set_new_join_seen (i : PendingJoinIntent) : PendingJoinIntent :=
  mkIntent (in_session_id i) (in_nonce i) (to_channel i) (from_channel i) (has_from_channel i)
    (in_muted i) (in_deafened i) (old_leave_seen i) true (expires_at_unix i).
Definition set_old_leave_seen (i : PendingJoinIntent) : PendingJoinIntent :=
  mkIntent (in_session_id i) (in_nonce i) (to_channel i) (from_channel i) (has_from_channel i)
    (in_muted i) (in_deafened i) true (new_join_seen i) (expires_at_unix i).

Definition clear_pending_join_intent (user : UserId) : M unit := on_ext (Intents.clear user).
Definition update_intent (user : UserId) (i : PendingJoinIntent) : M bool :=
  on_ext (Intents.update user i).

(** The join seen by a pending intent: done, or waiting for the old leave. *)
Definition settle_join (user : UserId) (i : PendingJoinIntent) : M unit :=
  (if has_from_channel i && negb (bool_decide (from_channel i = to_channel i))
   then if old_leave_seen i then clear_pending_join_intent user
        else update_intent user (set_new_join_seen i);;; ex_ret tt
   else clear_pending_join_intent user)%ex.

(** The leave of the old channel seen by a pending switch. *)
Definition settle_old_leave (user : UserId) (i : PendingJoinIntent) : M unit :=
  (if new_join_seen i then clear_pending_join_intent user
   else update_intent user (set_old_leave_seen i);;; ex_ret tt)%ex.

Definition resync_voice_key_for_user (user : UserId) : M unit :=
  ChannelKeyService.resync_to_user user.

(** The participant's flags as listed in the channel. *)
Definition flags_in_channel (w : World X D) (channel : ChannelId) (user : UserId) : bool * bool :=
  match List.find (fun p => bool_decide (p.1 = user))
          (VoiceSessions.participants_in_channel (sessions_ w) channel) with
  | Some p => (VoiceSessions.muted p.2, VoiceSessions.deafened p.2)
  | None => (false, false)
  end.

(** Membership and flags of an admitted join. *)
Definition admit_join (e : LiveKitEvent) (i : PendingJoinIntent) : M bool :=
  (first <-- on_sessions (fun v => VoiceSessions.join v (channel_id e) (user_id e) (in_session_id i));
   on_sessions (fun v => VoiceSessions.set_deafened v (user_id e) (in_deafened i));;;
   (if in_deafened i then ex_ret false
    else on_sessions (fun v => VoiceSessions.set_muted v (user_id e) (in_muted i)));;;
   ex_ret first)%ex.

Definition start_clock (e : LiveKitEvent) : M unit :=
  (t <-- (if (0 <? timestamp_ms e)%Z then ex_ret (timestamp_ms e / 1000)%Z
          else on_ext unix_now_seconds);
   set_channel_started_at_unix (channel_id e) t)%ex.

(** What is announced of an admitted join. *)
Definition announce_join (e : LiveKitEvent) (i : PendingJoinIntent) (first : bool) : M unit :=
  (flags <-- ex_gets (fun w => flags_in_channel w (channel_id e) (user_id e));
   rid <-- Resume.read (user_id e);
   (match rid with Some _ => ex_ret tt | None => Resume.rotate (user_id e);;; ex_ret tt end);;;
   info <-- getChannel (channel_id e);
   (match info with
    | Some ch =>
      (if first then
         started <-- ex_gets (fun w => read_channel_started_at_unix w (channel_id e));
         Publisher.publish_voice_snapshot (ch_hub_id ch) (channel_id e) started
       else ex_ret tt);;;
      Publisher.publish_voice_participant_upsert (ch_hub_id ch) (channel_id e) (user_id e)
        flags.1 flags.2
    | None => ex_ret tt
    end);;;
   Publisher.publish_self_status (user_id e) true (Some (in_session_id i)) (Some (channel_id e)) None;;;
   resync_voice_key_for_user (user_id e))%ex.

Definition handle_participant_joined (e : LiveKitEvent) : M unit :=
  (clear_channel_missing (channel_id e);;;
   clear_participant_missing (channel_id e) (user_id e);;;
   pending <-- on_ext (Intents.read (user_id e));
   correlated <-- ex_gets (fun w => correlate w e pending);
   match correlated with
   | None =>
     owner_here <-- ex_gets (fun w => already_owner_here w e);
     if (owner_here : bool) then ex_ret tt
     else
       request_reconcile (channel_id e);;;
       kick_user (channel_id e) (user_id e);;;
       ex_ret tt
   | Some i =>
     first <-- admit_join e i;
     (if (first : bool) then start_clock e else ex_ret tt);;;
     announce_join e i first;;;
     match pending with
     | Some _ => settle_join (user_id e) i
     | None => ex_ret tt
     end
   end)%ex.

(** The event ends the user's current voice: right channel, the owning session
    (or none given), and not a leftover of another intent for the channel. *)
Definition leaving_current_voice (w : World X D) (e : LiveKitEvent)
  (pending : option PendingJoinIntent) : bool :=
  let matches_owner_session :=
    (app_session_id e =? 0)%Z ||
    bool_decide (VoiceSessions.user_session (sessions_ w) (user_id e) = Some (app_session_id e)) in
  let nonce_mismatch_to_pending :=
    match pending with
    | Some i => bool_decide (to_channel i = channel_id e) &&
                negb (bool_decide (in_nonce i = ""%string)) &&
                negb (bool_decide (intent_nonce e = ""%string)) &&
                negb (bool_decide (intent_nonce e = in_nonce i))
    | None => false
    end in
  bool_decide (VoiceSessions.user_channel (sessions_ w) (user_id e) = Some (channel_id e)) &&
  matches_owner_session && negb nonce_mismatch_to_pending.

(** The event is the leave of the channel a pending switch comes from. *)
Definition switch_intent (e : LiveKitEvent) (pending : option PendingJoinIntent)
  : option PendingJoinIntent :=
  match pending with
  | Some i => if has_from_channel i && bool_decide (from_channel i = channel_id e) &&
                 negb (bool_decide (from_channel i = to_channel i))
              then Some i else None
  | None => None
  end.

Definition handle_participant_left (e : LiveKitEvent) : M unit :=
  (pending <-- on_ext (Intents.read (user_id e));
   leaving <-- ex_gets (fun w => leaving_current_voice w e pending);
   let switch := switch_intent e pending in
   match leaving, switch with
   | false, None => request_reconcile (channel_id e)
   | _, _ =>
     clear_participant_missing (channel_id e) (user_id e);;;
     became_empty <-- on_sessions (fun v => VoiceSessions.leave v (channel_id e) (user_id e));
     info <-- getChannel (channel_id e);
     publish_removed info (channel_id e) (user_id e);;;
     (if (leaving : bool) then
        publish_disconnected (user_id e);;;
        (match switch with Some _ => ex_ret tt | None => Resume.clear (user_id e) end);;;
        after_leave (channel_id e) became_empty
      else
        now_empty <-- ex_gets (fun w => VoiceSessions.is_empty (sessions_ w) (channel_id e));
        after_leave (channel_id e) now_empty);;;
     match switch with
     | Some i => settle_old_leave (user_id e) i
     | None => ex_ret tt
     end
   end)%ex.

(** ** Reconciliation with LiveKit *)

Definition has_active_owner_connection (w : World X D) (user : UserId) (channel : ChannelId) : bool :=
  bool_decide (VoiceSessions.user_channel (sessions_ w) user = Some channel) &&
  match VoiceSessions.user_session (sessions_ w) user with
  | Some s => Session.sessionIdHasConnections (session_manager_ w) s
  | None => false
  end.

Definition active_owner_connection_count (w : World X D) (channel : ChannelId) : nat :=
  length (filter (fun p => has_active_owner_connection w p.1 channel = true)
            (VoiceSessions.participants_in_channel (sessions_ w) channel)).

(** [emplace]: the first participant of an identity stays. *)
Definition by_identity (ps : list ParticipantInfo) : gmap UserId ParticipantInfo :=
  foldl (fun m p =>
    if bool_decide (user_value (identity p) = ""%string) then m
    else match m !! identity p with Some _ => m | None => <[identity p := p]> m end) ∅ ps.

(** The room seems gone although members are tracked. *)
Definition room_missing (channel : ChannelId) (why : string) : M unit :=
  (owners <-- ex_gets (fun w => active_owner_connection_count w channel);
   if 0 <? owners then clear_channel_missing channel
   else
     gone <-- confirm_channel_remote_missing channel why;
     if (gone : bool) then on_channel_finish channel else ex_ret tt)%ex.

(** A tracked member the query did not list. *)
Definition local_missing (channel : ChannelId) (user : UserId) : M unit :=
  (alive <-- ex_gets (fun w => has_active_owner_connection w user channel);
   if (alive : bool) then clear_participant_missing channel user
   else
     gone <-- confirm_participant_remote_missing channel user "participant_missing_in_livekit";
     if (gone : bool) then force_local_leave user channel else ex_ret tt)%ex.

(** Does the remote participant's metadata fit a session of ours? *)
Definition correlation_valid (w : World X D) (channel : ChannelId) (user : UserId)
  (md : ParticipantMetadata) (pending : option PendingJoinIntent) : bool :=
  match pending with
  | Some i =>
    if bool_decide (to_channel i = channel) then
      negb (md_app_session_id md =? 0)%Z && (md_app_session_id md =? in_session_id i)%Z &&
      (negb (bool_decide (in_nonce i = ""%string)) &&
       negb (bool_decide (md_intent_nonce md = ""%string)) &&
       bool_decide (in_nonce i = md_intent_nonce md))
    else
      negb (md_app_session_id md =? 0)%Z &&
      existsb (fun s => s =? md_app_session_id md)%Z
        (Session.getUserSessionIds (session_manager_ w) user)
  | None =>
    negb (md_app_session_id md =? 0)%Z &&
    existsb (fun s => s =? md_app_session_id md)%Z
      (Session.getUserSessionIds (session_manager_ w) user)
  end.

Definition synthetic_join (channel : ChannelId) (user : UserId) (p : ParticipantInfo)
  (md : ParticipantMetadata) (now_ms : Z) : LiveKitEvent :=
  mkEvent PARTICIPANT_JOINED "" "participant_joined(reconcile)" channel user (sid p) (metadata p)
    (md_app_session_id md) (md_intent_nonce md) (md_node_id md) now_ms.

(** A listed participant who is not tracked: adopted, or removed. *)
Definition remote_untracked (host : string) (all_ok : bool) (channel : ChannelId) (user : UserId)
  (p : ParticipantInfo) : M unit :=
  let md := parse_participant_metadata (metadata p) in
  (pending <-- on_ext (Intents.read user);
   valid <-- ex_gets (fun w => correlation_valid w channel user md pending);
   if negb valid then
     (if all_ok && negb (bool_decide (host = ""%string))
      then on_ext (LivekitClient.RemoveParticipant (LivekitClient.mk host (cfg_tokens cfg))
                     channel user);;; ex_ret tt
      else ex_ret tt)
   else
     now <-- on_ext unix_now_ms;
     handle_participant_joined (synthetic_join channel user p md now))%ex.

Definition reconcile_channel_state (channel : ChannelId) (why : string) : M unit :=
  (node <-- any_node;
   let host := match node with Some n => NodeRegistry.private_host n | None => ""%string end in
   answer <-- match node with
              | Some n => ChannelKeyService.query_node cfg host channel
              | None => ex_ret None
              end;
   let ps := default [] answer in
   let summary := Evidence.mkSummary
                    (match node with Some _ => 1 | None => 0 end)
                    (match answer with Some _ => 1 | None => 0 end)
                    (match node, answer with Some _, None => 1 | _, _ => 0 end)
                    (Z.of_nat (length ps)) in
   let remote_by_user := by_identity ps in
   let all_ok := Evidence.all_queries_succeeded summary in
   local <-- ex_gets (fun w => VoiceSessions.participants_in_channel (sessions_ w) channel);
   (if all_ok then ex_ret tt else reset_missing channel);;;
   if bool_decide (remote_by_user = ∅) then
     if negb all_ok then ex_ret tt
     else if negb (Evidence.unanimously_absent summary) then clear_channel_missing channel
     else
       empty <-- ex_gets (fun w => VoiceSessions.is_empty (sessions_ w) channel);
       if (empty : bool) then clear_channel_missing channel else room_missing channel why
   else
     clear_channel_missing channel;;;
     (if all_ok then
        ex_for local (fun p =>
          match remote_by_user !! p.1 with
          | Some _ => ex_ret tt
          | None => local_missing channel p.1
          end)
      else ex_ret tt);;;
     ex_for (map_to_list remote_by_user) (fun up =>
       clear_participant_missing channel up.1;;;
       if bool_decide (up.1 ∈ local.*1) then ex_ret tt
       else remote_untracked host all_ok channel up.1 up.2))%ex.

(** The rooms a node lists that matter here. *)
Definition listed_rooms (w : World X D) (rooms : list RoomInfo) : gset ChannelId :=
  list_to_set (room <$> filter (fun r =>
    (0 < num_participants r)%Z \/ VoiceSessions.is_empty (sessions_ w) (room r) = false) rooms).

Definition reconcile_full_state (why : string) : M unit :=
  (own <-- ex_gets (fun w =>
     list_to_set (VoiceSessions.active_channels (sessions_ w)) ∪
     list_to_set (Evidence.tracked_missing_channels (evidence_ w)) : gset ChannelId);
   node <-- any_node;
   listed <-- match node with
              | None => ex_ret ∅
              | Some n =>
                ex_catch (rooms <-- on_ext_ex (LivekitClient.ListRooms (client n));
                          ex_gets (fun w => listed_rooms w rooms))%ex
                         (ex_ret ∅)
              end;
   ex_for (elements (own ∪ listed)) (fun channel => reconcile_channel_state channel why))%ex.

(** ** Webhook dispatch *)

Definition is_participant_event (t : LiveKitEventType) : bool :=
  match t with
  | PARTICIPANT_JOINED | PARTICIPANT_LEFT | PARTICIPANT_CONNECTION_ABORTED => true
  | _ => false
  end.
Definition is_room_event (t : LiveKitEventType) : bool :=
  match t with ROOM_STARTED | ROOM_FINISHED => true | _ => false end.

Definition user_channel_now (user : UserId) : M (option ChannelId) :=
  ex_gets (fun w => VoiceSessions.user_channel (sessions_ w) user).

Definition on_room_finished (e : LiveKitEvent) : M unit :=
  (on_nodes (fun n => NodeRegistry.decrement_room n (channel_id e));;;
   guarded <-- consume_channel_takeover_guard (channel_id e);
   if (guarded : bool) then ex_ret tt
   else reset_missing (channel_id e);;; request_reconcile (channel_id e))%ex.

Definition on_participant_joined (e : LiveKitEvent) (current_node : string) : M unit :=
  (before <-- user_channel_now (user_id e);
   effective <-- (if negb (bool_decide (node_id e = ""%string)) &&
                     bool_decide (current_node = ""%string)
                  then on_nodes (fun n => NodeRegistry.bind_room n (channel_id e) (node_id e));;;
                       ex_ret (node_id e)
                  else ex_ret current_node);
   handle_participant_joined e;;;
   after <-- user_channel_now (user_id e);
   if bool_decide (after = Some (channel_id e)) && negb (bool_decide (before = Some (channel_id e))) &&
      negb (bool_decide (effective = ""%string))
   then on_nodes (fun n => NodeRegistry.increment_user n effective)
   else ex_ret tt)%ex.

Definition on_participant_left (e : LiveKitEvent) (current_node : string) : M unit :=
  let node_mismatch := negb (bool_decide (node_id e = ""%string)) &&
                       negb (bool_decide (current_node = ""%string)) &&
                       negb (bool_decide (node_id e = current_node)) in
  (before <-- user_channel_now (user_id e);
   handle_participant_left e;;;
   after <-- user_channel_now (user_id e);
   (if bool_decide (before = Some (channel_id e)) && negb (bool_decide (after = Some (channel_id e)))
    then if negb (bool_decide (node_id e = ""%string))
         then on_nodes (fun n => NodeRegistry.decrement_user n (node_id e))
         else if negb (bool_decide (current_node = ""%string))
         then on_nodes (fun n => NodeRegistry.decrement_user n current_node)
         else ex_ret tt
    else ex_ret tt);;;
   if node_mismatch then request_reconcile (channel_id e) else ex_ret tt)%ex.

Definition dispatch_event (e : LiveKitEvent) : M unit :=
  (current_node <-- ex_gets (fun w =>
     match NodeRegistry.get_room_node (nodes_ w) (channel_id e) with
     | Some n => NodeRegistry.node_id n
     | None => ""%string
     end);
   match ev_type e with
   | ROOM_STARTED =>
     if bool_decide (current_node = ""%string) then ex_ret tt
     else on_nodes (fun n => NodeRegistry.increment_room n (channel_id e) current_node)
   | ROOM_FINISHED => on_room_finished e
   | PARTICIPANT_JOINED => on_participant_joined e current_node
   | PARTICIPANT_LEFT | PARTICIPANT_CONNECTION_ABORTED => on_participant_left e current_node
   | _ => ex_ret tt
   end)%ex.

Definition on_livekit_event (e : LiveKitEvent) : M unit :=
  (fresh <-- mark_webhook_event_seen (event_id e);
   if negb fresh then ex_ret tt
   else
     stale_p <-- (if is_participant_event (ev_type e) then is_stale_participant_event e
                  else ex_ret false);
     if (stale_p : bool) then request_reconcile (channel_id e)
     else
       stale_r <-- (if is_room_event (ev_type e) then is_stale_room_event e else ex_ret false);
       if (stale_r : bool) then request_reconcile (channel_id e)
       else dispatch_event e)%ex.

Definition on_session_destroyed (user : UserId) : M unit :=
  (voice_channel <-- user_channel_now user;
   match voice_channel with
   | None => ex_ret tt
   | Some c => request_reconcile c
   end)%ex.

(** ** Resume *)

Record ResumeTransferResult := mkTransfer {
  previous_owner_session : Z; rt_channel : ChannelId; rt_resume_id : string }.

Definition try_resume_voice_ownership (user : UserId) (hub : HubId) (channel : ChannelId)
  (rid : string) (next_owner : Z) : M (option ResumeTransferResult) :=
  if bool_decide (rid = ""%string) then ex_ret None
  else
    (active <-- user_channel_now user;
     if negb (bool_decide (active = Some channel)) then ex_ret None
     else
       info <-- getChannel channel;
       if negb (bool_decide (ch_hub_id <$> info = Some hub)) then ex_ret None
       else
         owner <-- ex_gets (fun w => VoiceSessions.user_session (sessions_ w) user);
         match owner with
         | None => ex_ret None
         | Some o =>
           if (o =? next_owner)%Z then ex_ret None
           else
             current <-- Resume.read user;
             if negb (bool_decide (current = Some rid)) then ex_ret None
             else
               moved <-- on_sessions (fun v =>
                           VoiceSessions.transfer_owner_session v user o next_owner);
               if negb moved then ex_ret None
               else
                 next <-- Resume.rotate user;
                 ex_ret (Some (mkTransfer o channel next))
         end)%ex.

(** ** Restart recovery *)

Definition next_recovery_session_id : M Z :=
  (c <-- ex_gets recovery_counter;
   ex_modify (set_counter (wrap64 (c + 1)));;;
   ex_ret (Z.lor two63 c))%ex.

(** A participant LiveKit still has, whose user is seen for the first time. *)
Definition recover_participant (r : ChannelId) (node : string) (started : Z) (p : ParticipantInfo)
  : M unit :=
  let md := parse_participant_metadata (metadata p) in
  let user := identity p in
  (session <-- (if negb (md_app_session_id md =? 0)%Z then ex_ret (md_app_session_id md)
                else next_recovery_session_id);
   first <-- on_sessions (fun v => VoiceSessions.join v r user session);
   on_sessions (fun v => VoiceSessions.set_muted v user false);;;
   on_sessions (fun v => VoiceSessions.set_deafened v user false);;;
   (if (first : bool) then set_channel_started_at_unix r started else ex_ret tt);;;
   let effective := if negb (bool_decide (md_node_id md = ""%string)) then md_node_id md else node in
   (if bool_decide (effective = ""%string) then ex_ret tt
    else on_nodes (fun n => NodeRegistry.increment_user n effective));;;
   rid <-- Resume.read user;
   match rid with
   | Some _ => ex_ret tt
   | None =>
     stored <-- Resume.load_from_storage user;
     match stored with
     | Some _ => ex_ret tt
     | None => Resume.rotate user;;; ex_ret tt
     end
   end)%ex.

(** [users]: the users recovered so far and their rooms. *)
Fixpoint recover_participants (r : ChannelId) (node : string) (started : Z)
  (ps : list ParticipantInfo) (users : gmap UserId ChannelId) : M (gmap UserId ChannelId) :=
  match ps with
  | [] => ex_ret users
  | p :: ps' =>
    if bool_decide (user_value (identity p) = ""%string)
    then recover_participants r node started ps' users
    else match users !! identity p with
         | Some _ => recover_participants r node started ps' users
         | None =>
           (recover_participant r node started p;;;
            recover_participants r node started ps' (<[identity p := r]> users))%ex
         end
  end.

(** Count a room on a node. *)
Definition assign_room (r : ChannelId) (node : string) : M unit :=
  (on_nodes (fun n => NodeRegistry.bind_room n r node);;;
   on_nodes (fun n => NodeRegistry.increment_room n r node))%ex.

(** One room of one node's list; the local sets are threaded. *)
Definition recover_room (node : NodeRegistry.LivekitNode) (started : Z) (r : ChannelId)
  (acc : gset ChannelId * gmap UserId ChannelId) : M (gset ChannelId * gmap UserId ChannelId) :=
  let rooms' := {[r]} ∪ acc.1 in
  ((if bool_decide (r ∈ acc.1) then ex_ret tt
    else assign_room r (NodeRegistry.node_id node);;; set_channel_started_at_unix r started);;;
   answer <-- ChannelKeyService.query_node cfg (NodeRegistry.private_host node) r;
   match answer with
   | None => ex_ret (rooms', acc.2)
   | Some ps =>
     assigned <-- ex_gets (fun w => resolve_participant_node_assignment (nodes_ w) (by_identity ps));
     (match assigned with Some n => assign_room r n | None => ex_ret tt end);;;
     (match ps with
      | [] => ex_ret tt
      | _ => ChannelKeyService.restore_key_for_recovery cfg r
      end);;;
     users <-- recover_participants r (NodeRegistry.node_id node) started ps acc.2;
     ex_ret (rooms', users)
   end)%ex.

Fixpoint recover_rooms (node : NodeRegistry.LivekitNode) (started : Z) (rs : list RoomInfo)
  (acc : gset ChannelId * gmap UserId ChannelId) : M (gset ChannelId * gmap UserId ChannelId) :=
  match rs with
  | [] => ex_ret acc
  | r :: rs' => (acc' <-- recover_room node started (room r) acc; recover_rooms node started rs' acc')%ex
  end.

Fixpoint recover_nodes (nodes : list NodeRegistry.LivekitNode) (started : Z)
  (acc : gset ChannelId * gmap UserId ChannelId) : M (gset ChannelId * gmap UserId ChannelId) :=
  match nodes with
  | [] => ex_ret acc
  | n :: nodes' =>
    (rooms <-- ex_catch (rs <-- on_ext_ex (LivekitClient.ListRooms (client n)); ex_ret (Some rs))%ex
                        (ex_ret None);
     acc' <-- match rooms with
              | Some rs => recover_rooms n started rs acc
              | None => ex_ret acc
              end;
     recover_nodes nodes' started acc')%ex
  end.

(** Forget everything tracked before the restart. *)
Definition reset_for_recovery : M unit :=
  (channels <-- ex_gets (fun w => VoiceSessions.active_channels (sessions_ w));
   ex_for channels (fun c =>
     on_sessions (fun v => VoiceSessions.clear_channel v c);;;
     on_nodes (fun n => NodeRegistry.clear_room n c));;;
   ex_modify (set_started ∅);;;
   ex_modify (set_event_ts ∅ ∅);;;
   Resume.clear_all)%ex.

Definition recover_from_restart : M (gset ChannelId * gmap UserId ChannelId) :=
  (reset_for_recovery;;;
   started <-- on_ext unix_now_seconds;
   nodes <-- ex_gets (fun w => NodeRegistry.list_nodes (nodes_ w));
   recover_nodes nodes started (∅, ∅))%ex.

End Service.
End VoiceService.
