(* ===== verification/VoiceFrame.v ===== *)
(** * What the voice handlers can change

    One induction over the code of the voice handlers, for any state predicate
    that depends only on the voice sessions, the session and subscription
    managers, the hub service, the channel keys and the newest event time of
    each user.  The theorems on membership and keys instantiate it. *)

From S2P Require Import Prelude.
From S2P Require Import CStrings.
From S2P Require Import Ids.
From S2P Require Import Protocol.
From S2P Require Import OutboundMsg.
From S2P Require Import SessionManager.
From S2P Require Import SubscriptionManager.
From S2P Require Import VoiceSessions.
From S2P Require Import Evidence.
From S2P Require Import NodeRegistry.
From S2P Require Import HubService.
From S2P Require Import External.
From S2P Require Import VoiceWorld.
From S2P Require Import VoiceStores.
From S2P Require Import ChannelKeys.
From S2P Require Import VoiceService.

(** Decompose a handler into its primitive steps. *)
Ltac ex_split :=
  repeat match goal with
  | |- ex_preserves _ (ex_bind _ _) => apply ex_preserves_bind; [|intros ?]
  | |- ex_preserves _ (ex_ret _) => apply ex_preserves_ret
  | |- ex_preserves _ (ex_throw) => apply ex_preserves_throw
  | |- ex_preserves _ (ex_gets _) => apply ex_preserves_gets
  | |- ex_preserves _ (ex_catch _ _) => apply ex_preserves_catch
  | |- ex_preserves _ (ex_for _ _) => apply ex_preserves_for; intros ?
  | |- ex_preserves _ (let _ := _ in _) => intros ?
  | |- ex_preserves _ (if ?b then _ else _) => let E := fresh "E" in destruct b eqn:E
  | |- ex_preserves _ (match ?x with _ => _ end) => destruct x
  end.

Module VoiceFrame.
Section Frame.
Context {X D : Type} `{External X} `{HubRepo D} `{JsonLib} `{Crypto}.
Variable cfg : VoiceConfig.

Variable I : World X D -> Prop.
(** Users whose membership the handlers may change, channels they may clear. *)
Variable may_change : UserId -> Prop.
Variable may_clear : ChannelId -> Prop.

(** All the handlers do with the hub service: look a channel up. *)
Inductive hub_reads (h : HubService.t (D := D)) : HubService.t (D := D) -> Prop :=
  | hub_reads_none : hub_reads h h
  | hub_reads_channel c : hub_reads h (HubService.getChannel c h).2.
#[global] Instance hub_reads_refl : Reflexive hub_reads.
Proof using. exact hub_reads_none. Qed.

(** [I] looks at six fields only. *)
Definition same_core (w w' : World X D) : Prop :=
  sessions_ w' = sessions_ w /\ session_manager_ w' = session_manager_ w /\
  e2ee_keys_ w' = e2ee_keys_ w /\
  user_last_event_ts_ms_ w' = user_last_event_ts_ms_ w /\
  subscription_manager_ w' = subscription_manager_ w /\ hub_reads (hubs w) (hubs w').
Hypothesis I_core : forall w w', same_core w w' -> I w -> I w'.

(** A session operation on a user who may change, or a clear of a channel that may. *)
Definition op_allowed (o : VoiceSessions.op) : Prop :=
  match o with
  | VoiceSessions.OpJoin _ u _ | VoiceSessions.OpLeave _ u | VoiceSessions.OpLeaveUser u
  | VoiceSessions.OpLeaveIfOwner u _ | VoiceSessions.OpMute u _ | VoiceSessions.OpDeafen u _
  | VoiceSessions.OpTransfer u _ _ => may_change u
  | VoiceSessions.OpClear c => may_clear c
  end.
Hypothesis I_step : forall w o, op_allowed o -> I w ->
  I (set_sessions (VoiceSessions.step (sessions_ w) o).2 w).
Hypothesis I_put_key : forall w c k, I w ->
  (0 <= key_index k < 16)%Z \/ e2ee_keys_ w !! c = Some k ->
  I (set_keys (<[c := k]> (e2ee_keys_ w)) w).
Hypothesis I_del_key : forall w c, I w -> I (set_keys (delete c (e2ee_keys_ w)) w).

Hypothesis I_seen : forall w e, I w -> I (VoiceService.is_stale_participant_event e w).2.
Hypothesis I_forget : forall w, I w -> I (set_event_ts ∅ ∅ w).

Abbreviation keeps := (ex_preserves I).

(** *** Steps outside the core *)

Lemma keeps_modify (f : World X D -> World X D) : (forall w, same_core w (f w)) -> keeps (ex_modify f).
Proof using I_core. intros Hf w Hw. by eapply I_core; [apply Hf|]. Qed.

Lemma keeps_ext {A} (m : ST X A) : keeps (on_ext m).
Proof using I_core.
  intros w Hw. unfold on_ext. destruct (m (ext w)). eapply I_core; [|exact Hw]. by split.
Qed.

Lemma keeps_ext_ex {A} (m : EX X A) : keeps (on_ext_ex m).
Proof using I_core.
  intros w Hw. unfold on_ext_ex. destruct (m (ext w)). eapply I_core; [|exact Hw]. by split.
Qed.

Lemma keeps_nodes f : keeps (on_nodes f).
Proof using I_core. apply keeps_modify. by split. Qed.

Lemma keeps_evidence f : keeps (on_evidence f).
Proof using I_core. apply keeps_modify. by split. Qed.

Lemma keeps_any_node : keeps VoiceService.any_node.
Proof using I_core.
  intros w Hw. unfold VoiceService.any_node. destruct (NodeRegistry.any_node (nodes_ w)).
  eapply I_core; [|exact Hw]. by split.
Qed.

Lemma keeps_request c : keeps (request_reconcile c).
Proof using I_core. apply keeps_modify. intros w. by case_bool_decide; split. Qed.

Lemma keeps_getChannel c : keeps (getChannel c).
Proof using I_core.
  intros w Hw. eapply I_core; [|exact Hw]. unfold getChannel, on_hubs.
  pose proof (hub_reads_channel (hubs w) c). destruct (HubService.getChannel c (hubs w)). by split.
Qed.

Ltac frame :=
  ex_split;
  try solve [ apply keeps_ext | apply keeps_ext_ex | apply keeps_nodes
            | apply keeps_evidence | apply keeps_any_node | apply keeps_request
            | apply keeps_getChannel | (apply keeps_modify; by split) ].

Lemma keeps_resume_rotate u : keeps (Resume.rotate u).
Proof using I_core. unfold Resume.rotate. frame. Qed.
Lemma keeps_resume_clear u : keeps (Resume.clear u).
Proof using I_core. unfold Resume.clear. frame. Qed.
Lemma keeps_resume_load u : keeps (Resume.load_from_storage u).
Proof using I_core. unfold Resume.load_from_storage. frame. Qed.

Lemma keeps_emit m : keeps (Publisher.emit m).
Proof using I_core. unfold Publisher.emit. frame. Qed.
Lemma keeps_to_hub h ev : keeps (Publisher.to_hub_subscribers h ev).
Proof using I_core. unfold Publisher.to_hub_subscribers. ex_split. apply keeps_emit. Qed.
Lemma keeps_key_to_user h c u k i : keeps (Publisher.publish_voice_key_update_to_user h c u k i).
Proof using I_core. unfold Publisher.publish_voice_key_update_to_user. ex_split. apply keeps_emit. Qed.
Lemma keeps_key_update h c k i : keeps (Publisher.publish_voice_key_update h c k i).
Proof using I_core. unfold Publisher.publish_voice_key_update. ex_split. apply keeps_key_to_user. Qed.
Lemma keeps_self_status u b o c s : keeps (Publisher.publish_self_status u b o c s).
Proof using I_core. unfold Publisher.publish_self_status. frame; apply keeps_emit. Qed.

Ltac frame2 :=
  frame;
  try solve [ apply keeps_resume_rotate | apply keeps_resume_clear | apply keeps_resume_load
            | apply keeps_emit | apply keeps_to_hub | apply keeps_key_to_user
            | apply keeps_key_update | apply keeps_self_status ].

(** *** Keys *)

Lemma keeps_put_key c k : (0 <= key_index k < 16)%Z -> keeps (E2EEKeyManager.put_key c k).
Proof using I_put_key. intros Hk w Hw. apply I_put_key; [done|by left]. Qed.

Lemma keeps_clear_key c : keeps (E2EEKeyManager.clear_key c).
Proof using I_del_key. intros w Hw. by apply I_del_key. Qed.

Lemma keeps_generate : keeps E2EEKeyManager.generate_key.
Proof using I_core. unfold E2EEKeyManager.generate_key. frame. Qed.

(** Touching [channels_[channel]], then replacing what it holds. *)
Lemma keeps_touch {A} c (f : ChannelKey -> EX (World X D) A) :
  (forall k, keeps (f k)) ->
  keeps (state <-- ex_gets (fun w => default (mkKey "" 0) (e2ee_keys_ w !! c));
         E2EEKeyManager.put_key c state;;; f state)%ex.
Proof using I_put_key.
  intros Hf w Hw. unfold ex_bind. simpl. apply Hf. apply I_put_key; [done|].
  destruct (e2ee_keys_ w !! c) as [k|] eqn:E; simpl; [by right|left; lia].
Qed.

Lemma keeps_create c : keeps (E2EEKeyManager.get_or_create_key c).
Proof using I_core I_put_key.
  unfold E2EEKeyManager.get_or_create_key. apply ex_preserves_bind; [apply ex_preserves_gets|].
  intros [k|]; [apply ex_preserves_ret|]. apply keeps_touch. intros _. ex_split.
  - apply keeps_generate.
  - apply keeps_put_key. simpl. lia.
Qed.

Lemma keeps_rotate c : keeps (E2EEKeyManager.rotate_key c).
Proof using I_core I_put_key.
  unfold E2EEKeyManager.rotate_key. apply keeps_touch. intros k. ex_split.
  - apply keeps_generate.
  - apply keeps_put_key. simpl. unfold E2EEKeyManager.kKeyringSize.
    destruct (negb _); [apply Z.mod_pos_bound; lia|lia].
Qed.

Lemma keeps_set_key c k i : keeps (E2EEKeyManager.set_key c k i).
Proof using I_put_key.
  apply keeps_put_key. simpl. unfold E2EEKeyManager.kKeyringSize. apply Z.mod_pos_bound. lia.
Qed.

Lemma keeps_persist c k : keeps (ChannelKeyService.persist_to_storage cfg c k).
Proof using I_core. unfold ChannelKeyService.persist_to_storage. frame. Qed.
Lemma keeps_load c : keeps (ChannelKeyService.load_from_storage cfg c).
Proof using I_core. unfold ChannelKeyService.load_from_storage. frame. Qed.
Lemma keeps_broadcast c k : keeps (ChannelKeyService.broadcast c k).
Proof using I_core. unfold ChannelKeyService.broadcast. frame2. Qed.
Lemma keeps_try_create c : keeps (ChannelKeyService.try_create c).
Proof using I_core I_put_key. unfold ChannelKeyService.try_create. ex_split. apply keeps_create. Qed.
Lemma keeps_query h c : keeps (ChannelKeyService.query_node cfg h c).
Proof using I_core. unfold ChannelKeyService.query_node. frame. Qed.

Lemma keeps_rotate_broadcast c : keeps (ChannelKeyService.rotate_and_broadcast cfg c).
Proof using I_core I_put_key.
  unfold ChannelKeyService.rotate_and_broadcast. ex_split;
    [apply keeps_rotate|apply keeps_persist|apply keeps_broadcast].
Qed.

Lemma keeps_sweep c nodes : forall ok total, keeps (ChannelKeyService.sweep_nodes cfg c nodes ok total).
Proof using I_core.
  induction nodes as [|n nodes IH]; intros ok total; simpl; [apply ex_preserves_ret|].
  apply ex_preserves_bind; [apply keeps_query|]. intros [[|]|]; auto using ex_preserves_ret.
Qed.

Lemma keeps_effectively_empty c : keeps (ChannelKeyService.is_channel_effectively_empty cfg c).
Proof using I_core. unfold ChannelKeyService.is_channel_effectively_empty. ex_split. apply keeps_sweep. Qed.

Lemma keeps_establish c e : keeps (ChannelKeyService.establish_key cfg c e).
Proof using I_core I_put_key.
  unfold ChannelKeyService.establish_key. ex_split;
    auto using keeps_persist, keeps_try_create, keeps_load, keeps_set_key, keeps_broadcast.
Qed.

Lemma keeps_record_join c u :
  keeps (ChannelKeyService.record_join_and_should_debounce_rotation cfg c u).
Proof using I_core. unfold ChannelKeyService.record_join_and_should_debounce_rotation. frame. Qed.

Lemma keeps_acquire c u : keeps (ChannelKeyService.acquire_for_join cfg c u).
Proof using I_core I_put_key.
  unfold ChannelKeyService.acquire_for_join. ex_split;
    auto using keeps_persist, keeps_record_join, keeps_rotate_broadcast, keeps_effectively_empty,
      keeps_establish.
Qed.

Lemma keeps_resync u : keeps (ChannelKeyService.resync_to_user u).
Proof using I_core. unfold ChannelKeyService.resync_to_user. frame2. Qed.

Lemma keeps_clear_channel_keys c : keeps (ChannelKeyService.clear_channel c).
Proof using I_core I_del_key.
  unfold ChannelKeyService.clear_channel, ChannelKeyService.clear_storage,
    ChannelKeyService.clear_join_rotation_debounce. frame. apply keeps_clear_key.
Qed.

Lemma keeps_restore c : keeps (ChannelKeyService.restore_key_for_recovery cfg c).
Proof using I_core I_put_key.
  unfold ChannelKeyService.restore_key_for_recovery. ex_split;
    auto using keeps_load, keeps_set_key, keeps_persist.
Qed.
(** *** Voice handlers *)

Lemma keeps_sessions {A} (f : VoiceSessions.t -> A * VoiceSessions.t) o :
  (forall v, (f v).2 = (VoiceSessions.step v o).2) -> op_allowed o -> keeps (on_sessions f).
Proof using I_step.
  intros Hf Ho w Hw. specialize (I_step w o Ho Hw). rewrite <- Hf in I_step. unfold on_sessions.
  by destruct (f (sessions_ w)).
Qed.

(** A step that runs session operation [o]. *)
Ltac session o :=
  apply (keeps_sessions _ o); [intros v; cbn [VoiceSessions.step]; by case_match|simpl; auto].

Lemma keeps_join c u s : may_change u -> keeps (on_sessions (fun v => VoiceSessions.join v c u s)).
Proof using I_step. intros Hu. session (VoiceSessions.OpJoin c u s). Qed.
Lemma keeps_leave c u : may_change u -> keeps (on_sessions (fun v => VoiceSessions.leave v c u)).
Proof using I_step. intros Hu. session (VoiceSessions.OpLeave c u). Qed.
Lemma keeps_muted u b : may_change u -> keeps (on_sessions (fun v => VoiceSessions.set_muted v u b)).
Proof using I_step. intros Hu. session (VoiceSessions.OpMute u b). Qed.
Lemma keeps_deafened u b : may_change u -> keeps (on_sessions (fun v => VoiceSessions.set_deafened v u b)).
Proof using I_step. intros Hu. session (VoiceSessions.OpDeafen u b). Qed.
Lemma keeps_transfer u a b : may_change u ->
  keeps (on_sessions (fun v => VoiceSessions.transfer_owner_session v u a b)).
Proof using I_step. intros Hu. session (VoiceSessions.OpTransfer u a b). Qed.
Lemma keeps_clear c : may_clear c -> keeps (on_sessions (fun v => VoiceSessions.clear_channel v c)).
Proof using I_step. intros Hc. session (VoiceSessions.OpClear c). Qed.

Lemma keeps_clear_channel_missing c : keeps (VoiceService.clear_channel_missing c).
Proof using I_core. apply keeps_evidence. Qed.
Lemma keeps_clear_participant_missing c u : keeps (VoiceService.clear_participant_missing c u).
Proof using I_core. apply keeps_evidence. Qed.
Lemma keeps_reset_missing c : keeps (VoiceService.reset_missing c).
Proof using I_core. apply keeps_evidence. Qed.

Lemma keeps_confirm_channel c why : keeps (VoiceService.confirm_channel_remote_missing c why).
Proof using I_core.
  unfold VoiceService.confirm_channel_remote_missing. frame. intros w Hw.
  destruct (Evidence.observe_channel_missing _ _ _ _). eapply I_core; [|exact Hw]. by split.
Qed.
Lemma keeps_confirm_participant c u why : keeps (VoiceService.confirm_participant_remote_missing c u why).
Proof using I_core.
  unfold VoiceService.confirm_participant_remote_missing. frame. intros w Hw.
  destruct (Evidence.observe_participant_missing _ _ _ _ _). eapply I_core; [|exact Hw]. by split.
Qed.

Ltac frame3 :=
  frame2;
  try solve [ apply keeps_clear_channel_missing | apply keeps_clear_participant_missing
            | apply keeps_reset_missing | apply keeps_confirm_channel
            | apply keeps_confirm_participant | apply keeps_resync | apply keeps_rotate_broadcast
            | apply keeps_clear_channel_keys | apply keeps_query | apply keeps_acquire
            | apply keeps_restore ].

Lemma keeps_join_voice c u s n : keeps (VoiceService.join_voice cfg c u s n).
Proof using I_core I_put_key. unfold VoiceService.join_voice. frame3. Qed.

Lemma keeps_kick c u : keeps (VoiceService.kick_user cfg c u).
Proof using I_core. unfold VoiceService.kick_user. frame3. Qed.

Lemma keeps_verified_kick c u : keeps (VoiceService.verified_kick_user cfg c u).
Proof using I_core. unfold VoiceService.verified_kick_user. frame3. Qed.

Lemma keeps_publish_removed info c u : keeps (VoiceService.publish_removed info c u).
Proof using I_core.
  unfold VoiceService.publish_removed, Publisher.publish_voice_participant_remove. frame3.
Qed.
Lemma keeps_disconnected u : keeps (VoiceService.publish_disconnected u).
Proof using I_core. apply keeps_self_status. Qed.

Lemma keeps_started c t : keeps (VoiceService.set_channel_started_at_unix c t).
Proof using I_core. apply keeps_modify. by split. Qed.
Lemma keeps_clear_started c : keeps (VoiceService.clear_channel_started_at_unix c).
Proof using I_core. apply keeps_modify. by split. Qed.

Lemma keeps_after_leave c b : keeps (VoiceService.after_leave cfg c b).
Proof using I_core I_put_key I_del_key.
  unfold VoiceService.after_leave, VoiceService.on_channel_empty. frame3.
Qed.

Lemma keeps_channel_finish c : may_clear c -> keeps (VoiceService.on_channel_finish c).
Proof using I_core I_step I_del_key.
  intros Hc. unfold VoiceService.on_channel_finish. frame3;
    auto using keeps_publish_removed, keeps_disconnected, keeps_clear_started, keeps_clear.
Qed.

Lemma keeps_force_leave u c : may_change u -> keeps (VoiceService.force_local_leave cfg u c).
Proof using I_core I_step I_put_key I_del_key.
  intros Hu. unfold VoiceService.force_local_leave. frame3;
    auto using keeps_publish_removed, keeps_disconnected, keeps_after_leave, keeps_leave.
Qed.

Lemma keeps_settle_join u i : keeps (VoiceService.settle_join u i).
Proof using I_core.
  unfold VoiceService.settle_join, VoiceService.clear_pending_join_intent,
    VoiceService.update_intent. frame3.
Qed.
Lemma keeps_settle_old_leave u i : keeps (VoiceService.settle_old_leave u i).
Proof using I_core.
  unfold VoiceService.settle_old_leave, VoiceService.clear_pending_join_intent,
    VoiceService.update_intent. frame3.
Qed.

Lemma keeps_admit e i : may_change (user_id e) -> keeps (VoiceService.admit_join e i).
Proof using I_step.
  intros Hu. unfold VoiceService.admit_join. ex_split; auto using keeps_join, keeps_muted, keeps_deafened.
Qed.

Lemma keeps_start_clock e : keeps (VoiceService.start_clock e).
Proof using I_core. unfold VoiceService.start_clock. frame3. Qed.

Lemma keeps_announce e i first : keeps (VoiceService.announce_join e i first).
Proof using I_core.
  unfold VoiceService.announce_join, Resume.read, VoiceService.resync_voice_key_for_user,
    Publisher.publish_voice_snapshot, Publisher.publish_voice_participant_upsert. frame3.
Qed.

Lemma keeps_handle_joined e :
  may_change (user_id e) -> keeps (VoiceService.handle_participant_joined cfg e).
Proof using I_core I_step.
  intros Hu. unfold VoiceService.handle_participant_joined. frame3;
    auto using keeps_kick, keeps_admit, keeps_start_clock, keeps_announce, keeps_settle_join.
Qed.

Lemma keeps_handle_left e :
  may_change (user_id e) -> keeps (VoiceService.handle_participant_left cfg e).
Proof using I_core I_step I_put_key I_del_key.
  intros Hu. unfold VoiceService.handle_participant_left. frame3;
    auto using keeps_publish_removed, keeps_disconnected, keeps_after_leave, keeps_settle_old_leave,
      keeps_leave.
Qed.

Lemma keeps_remote_untracked h ok c u p :
  may_change u -> keeps (VoiceService.remote_untracked cfg h ok c u p).
Proof using I_core I_step.
  intros Hu. unfold VoiceService.remote_untracked. frame3. by apply keeps_handle_joined.
Qed.

Lemma keeps_local_missing c u : may_change u -> keeps (VoiceService.local_missing cfg c u).
Proof using I_core I_step I_put_key I_del_key.
  intros Hu. unfold VoiceService.local_missing. frame3. by apply keeps_force_leave.
Qed.

Lemma keeps_room_missing c why : may_clear c -> keeps (VoiceService.room_missing c why).
Proof using I_core I_step I_del_key.
  intros Hc. unfold VoiceService.room_missing. frame3. by apply keeps_channel_finish.
Qed.

(** *** Webhooks *)

Lemma keeps_dispatch e : may_change (user_id e) -> keeps (VoiceService.dispatch_event cfg e).
Proof using I_core I_step I_put_key I_del_key.
  intros Hu. unfold VoiceService.dispatch_event, VoiceService.on_room_finished,
    VoiceService.consume_channel_takeover_guard, VoiceService.on_participant_joined,
    VoiceService.on_participant_left, VoiceService.user_channel_now.
  frame3; auto using keeps_handle_joined, keeps_handle_left.
Qed.

Lemma keeps_mark_seen id : keeps (VoiceService.mark_webhook_event_seen id).
Proof using I_core. unfold VoiceService.mark_webhook_event_seen. frame3. Qed.

Lemma keeps_stale_room e : keeps (VoiceService.is_stale_room_event e).
Proof using I_core.
  intros w Hw. unfold VoiceService.is_stale_room_event. destruct (_ || _); [done|].
  destruct (VoiceService.stale_step _ _). eapply I_core; [|exact Hw]. by split.
Qed.

Lemma keeps_on_event e : may_change (user_id e) -> keeps (VoiceService.on_livekit_event cfg e).
Proof using I_core I_step I_put_key I_del_key I_seen.
  intros Hu. unfold VoiceService.on_livekit_event. frame3;
    auto using keeps_mark_seen, keeps_stale_room, keeps_dispatch.
  intros w Hw. by apply I_seen.
Qed.

Lemma keeps_takeover c : keeps (VoiceService.mark_channel_takeover cfg c).
Proof using I_core. unfold VoiceService.mark_channel_takeover. frame3. Qed.

Lemma keeps_destroyed u : keeps (VoiceService.on_session_destroyed u).
Proof using I_core. unfold VoiceService.on_session_destroyed, VoiceService.user_channel_now. frame3. Qed.

Lemma keeps_try_resume u h c rid s :
  may_change u -> keeps (VoiceService.try_resume_voice_ownership u h c rid s).
Proof using I_core I_step.
  intros Hu. unfold VoiceService.try_resume_voice_ownership, VoiceService.user_channel_now, Resume.read.
  frame3. by apply keeps_transfer.
Qed.

(** *** When every user and channel may change *)

Section Free.
Hypothesis any_user : forall u, may_change u.
Hypothesis any_channel : forall c, may_clear c.

Lemma keeps_reconcile c why : keeps (VoiceService.reconcile_channel_state cfg c why).
Proof using I_core I_step I_put_key I_del_key any_user any_channel.
  unfold VoiceService.reconcile_channel_state. frame3;
    auto using keeps_local_missing, keeps_remote_untracked, keeps_room_missing.
Qed.

Lemma keeps_reconcile_full why : keeps (VoiceService.reconcile_full_state cfg why).
Proof using I_core I_step I_put_key I_del_key any_user any_channel.
  unfold VoiceService.reconcile_full_state. frame3. apply keeps_reconcile.
Qed.

Lemma keeps_recover_participant r n t p : keeps (VoiceService.recover_participant r n t p).
Proof using I_core I_step any_user.
  unfold VoiceService.recover_participant, VoiceService.next_recovery_session_id, Resume.read.
  frame3; auto using keeps_started, keeps_join, keeps_muted, keeps_deafened.
Qed.

Lemma keeps_recover_participants r n t ps : forall users,
  keeps (VoiceService.recover_participants r n t ps users).
Proof using I_core I_step any_user.
  induction ps as [|p ps IH]; intros users; simpl; [apply ex_preserves_ret|].
  case_bool_decide; [apply IH|]. destruct (users !! _); [apply IH|].
  apply ex_preserves_bind; [apply keeps_recover_participant|auto].
Qed.

Lemma keeps_recover_room n t r acc : keeps (VoiceService.recover_room cfg n t r acc).
Proof using I_core I_step I_put_key any_user.
  unfold VoiceService.recover_room, VoiceService.assign_room. frame3;
    auto using keeps_started, keeps_recover_participants.
Qed.

Lemma keeps_recover_rooms n t rs : forall acc, keeps (VoiceService.recover_rooms cfg n t rs acc).
Proof using I_core I_step I_put_key any_user.
  induction rs as [|r rs IH]; intros acc; simpl; [apply ex_preserves_ret|].
  apply ex_preserves_bind; [apply keeps_recover_room|auto].
Qed.

Lemma keeps_recover_nodes ns t : forall acc, keeps (VoiceService.recover_nodes cfg ns t acc).
Proof using I_core I_step I_put_key any_user.
  induction ns as [|n ns IH]; intros acc; simpl; [apply ex_preserves_ret|].
  frame3; auto using keeps_recover_rooms.
Qed.

Lemma keeps_reset_for_recovery : keeps VoiceService.reset_for_recovery.
Proof using I_core I_step I_forget any_channel.
  unfold VoiceService.reset_for_recovery, Resume.clear_all. frame3; [by apply keeps_clear|].
  intros w Hw. by apply I_forget.
Qed.

Lemma keeps_recover : keeps (VoiceService.recover_from_restart cfg).
Proof using I_core I_step I_put_key I_forget any_user any_channel.
  unfold VoiceService.recover_from_restart. frame3;
    auto using keeps_reset_for_recovery, keeps_recover_nodes.
Qed.
End Free.

End Frame.
End VoiceFrame.
