(* ===== verification/VoiceProofs.v ===== *)
(** * What the voice coordinator guarantees

    Invariants of every sequence of voice calls, and the behaviour of the
    handlers of [VoiceService.v]: membership, keys, stale events, resume. *)

From S2P Require Import Prelude.
From S2P Require Import CStrings.
From S2P Require Import Ids.
From S2P Require Import Protocol.
From S2P Require Import OutboundMsg.
From S2P Require Import SessionManager.
From S2P Require Import SubscriptionManager.
From S2P Require Import VoiceSessions.
From S2P Require Import Evidence.
From S2P Require Import NodeRegistry.
From S2P Require Import HubService.
From S2P Require Import HubCoherence.
From S2P Require Import External.
From S2P Require Import VoiceWorld.
From S2P Require Import VoiceStores.
From S2P Require Import ChannelKeys.
From S2P Require Import VoiceService.
From S2P Require Import VoiceFrame.

Module VoiceProofs.
Section Proofs.
Context {X D : Type} `{External X} `{HubRepo D} `{JsonLib} `{Crypto}.
Variable cfg : VoiceConfig.

Abbreviation W := (World X D).

(** ** Invariant of all calls *)

(** The calls the rest of the server makes, and what it does beside them:
    connections come and go, subscriptions change. *)
Inductive call :=
  | CJoin (c : ChannelId) (u : UserId) (session : Z) (nonce : string)
  | CKick (c : ChannelId) (u : UserId)
  | CVerifiedKick (c : ChannelId) (u : UserId)
  | CTakeover (c : ChannelId)
  | CEvent (e : LiveKitEvent)
  | CReconcile (c : ChannelId) (why : string)
  | CReconcileFull (why : string)
  | CSessionDestroyed (u : UserId)
  | CResume (u : UserId) (h : HubId) (c : ChannelId) (rid : string) (next_owner : Z)
  | CRecover
  | CMute (u : UserId) (b : bool)
  | CDeafen (u : UserId) (b : bool)
  | CConnections (m : Session.t) (s : Subscription.t).

Definition set_managers (m : Session.t) (s : Subscription.t) (w : W) : W :=
  mkWorld (ext w) (hubs w) m s (sessions_ w) (nodes_ w)
    (evidence_ w) (pending_channels_ w) (user_resume_ids_ w) (e2ee_keys_ w) (join_rotate_seen_ w)
    (channel_takeover_guard_ w) (channel_started_at_unix_ w) (user_last_event_ts_ms_ w)
    (channel_last_room_event_ts_ms_ w) (recovery_counter w) (outbox w).

(** The state a call leaves, by return or by exception. *)
Definition do_call (w : W) (c : call) : W :=
  match c with
  | CJoin ch u s n => (VoiceService.join_voice cfg ch u s n w).2
  | CKick ch u => (VoiceService.kick_user cfg ch u w).2
  | CVerifiedKick ch u => (VoiceService.verified_kick_user cfg ch u w).2
  | CTakeover ch => (VoiceService.mark_channel_takeover cfg ch w).2
  | CEvent e => (VoiceService.on_livekit_event cfg e w).2
  | CReconcile ch why => (VoiceService.reconcile_channel_state cfg ch why w).2
  | CReconcileFull why => (VoiceService.reconcile_full_state cfg why w).2
  | CSessionDestroyed u => (VoiceService.on_session_destroyed u w).2
  | CResume u h ch rid s => (VoiceService.try_resume_voice_ownership u h ch rid s w).2
  | CRecover => (VoiceService.recover_from_restart cfg w).2
  | CMute u b => set_sessions (VoiceSessions.set_muted (sessions_ w) u b).2 w
  | CDeafen u b => set_sessions (VoiceSessions.set_deafened (sessions_ w) u b).2 w
  | CConnections m s => set_managers m s w
  end.

(** Sessions that are one table, and key indexes inside the key ring. *)
Definition voice_inv (w : W) : Prop :=
  (exists tbl, VoiceSessions.repr (sessions_ w) tbl) /\
  (forall c k, e2ee_keys_ w !! c = Some k -> (0 <= key_index k < 16)%Z).

Lemma voice_inv_core w w' : VoiceFrame.same_core w w' -> voice_inv w -> voice_inv w'.
Proof. intros (Hs & _ & Hk & _). unfold voice_inv. by rewrite Hs, Hk. Qed.

Lemma voice_inv_step w o : voice_inv w ->
  voice_inv (set_sessions (VoiceSessions.step (sessions_ w) o).2 w).
Proof.
  intros [[tbl R] Hk]. split; [|done]. eexists. by apply (VoiceSessions.step_repr _ _ R o).
Qed.

Lemma voice_inv_put_key w c k : voice_inv w ->
  (0 <= key_index k < 16)%Z \/ e2ee_keys_ w !! c = Some k ->
  voice_inv (set_keys (<[c := k]> (e2ee_keys_ w)) w).
Proof.
  intros [Ht Hk] Hc. split; [done|]. simpl. intros c' k'. rewrite lookup_insert.
  case_decide; [|by apply Hk]. intros [= <-]. destruct Hc as [|Hc]; [done|]. by eapply Hk.
Qed.

Lemma voice_inv_del_key w c : voice_inv w -> voice_inv (set_keys (delete c (e2ee_keys_ w)) w).
Proof.
  intros [Ht Hk]. split; [done|]. simpl. intros c' k' [_ H']%lookup_delete_Some. by eapply Hk.
Qed.

(** The staleness check only writes time stamps. *)
Lemma stale_writes (e : LiveKitEvent) (w : W) :
  exists u c, (VoiceService.is_stale_participant_event e w).2 = set_event_ts u c w.
Proof.
  unfold VoiceService.is_stale_participant_event. destruct (_ || _); simpl.
  - eexists (user_last_event_ts_ms_ w), (channel_last_room_event_ts_ms_ w). by destruct w.
  - destruct (VoiceService.stale_step _ _). by eexists _, _.
Qed.

Lemma voice_inv_seen w e : voice_inv w -> voice_inv (VoiceService.is_stale_participant_event e w).2.
Proof. destruct (stale_writes e w) as (u & c & ->). done. Qed.

Lemma do_call_inv w c : voice_inv w -> voice_inv (do_call w c).
Proof.
  pose proof voice_inv_core as I1. pose proof voice_inv_put_key as I3.
  pose proof voice_inv_del_key as I4. pose proof voice_inv_seen as I5.
  assert (I2 : forall w o, VoiceFrame.op_allowed (fun _ => True) (fun _ => True) o -> voice_inv w ->
    voice_inv (set_sessions (VoiceSessions.step (sessions_ w) o).2 w))
    by (intros; by apply voice_inv_step).
  intros Hw. destruct c as [ch u s n|ch u|ch u|ch|e|ch why|why|u|u h ch rid s| |u b|u b|m s]; simpl.
  - by apply VoiceFrame.keeps_join_voice.
  - by apply VoiceFrame.keeps_kick.
  - by apply VoiceFrame.keeps_verified_kick.
  - by apply VoiceFrame.keeps_takeover.
  - by eapply VoiceFrame.keeps_on_event.
  - by eapply VoiceFrame.keeps_reconcile.
  - by eapply VoiceFrame.keeps_reconcile_full.
  - by apply VoiceFrame.keeps_destroyed.
  - by eapply VoiceFrame.keeps_try_resume.
  - by eapply VoiceFrame.keeps_recover.
  - generalize (voice_inv_step w (VoiceSessions.OpMute u b) Hw). cbn. by case_match.
  - generalize (voice_inv_step w (VoiceSessions.OpDeafen u b) Hw). cbn. by case_match.
  - done.
Qed.

Lemma do_calls_inv calls : forall w, voice_inv w -> voice_inv (foldl do_call w calls).
Proof. induction calls as [|c calls IH]; intros w Hw; [done|]. by apply IH, do_call_inv. Qed.

Lemma create_inv x h sm sub nodes ttl w :
  VoiceService.create x h sm sub nodes ttl = Some w -> voice_inv w.
Proof.
  unfold VoiceService.create. destruct (VoiceService.register_nodes _ _); [|done]. intros [= <-].
  split; [exists ∅; apply VoiceSessions.create_repr|done].
Qed.

(** C6: membership stays consistent through every voice call.  After any
    sequence of joins, webhooks, reconciliations, kicks, resumes, recoveries
    and flag changes, in any order and with any answers from Redis, LiveKit
    and the database, exceptions included: a user is listed in a channel
    exactly when that channel is the user's channel (so in at most one), a
    user has an owner session exactly when in a channel, a channel counts as
    empty exactly when nobody is in it, and every key index fits the ring of
    16 keys. *)
Theorem voice_calls_keep_membership x h sm sub nodes ttl w0 calls :
  VoiceService.create x h sm sub nodes ttl = Some w0 ->
  let w := foldl do_call w0 calls in
  (forall u c, u ∈ VoiceSessions.users_in_channel (sessions_ w) c <->
     VoiceSessions.user_channel (sessions_ w) u = Some c) /\
  (forall u, is_Some (VoiceSessions.user_session (sessions_ w) u) <->
     is_Some (VoiceSessions.user_channel (sessions_ w) u)) /\
  (forall c, VoiceSessions.is_empty (sessions_ w) c = true <->
     forall u, VoiceSessions.user_channel (sessions_ w) u <> Some c) /\
  (forall c k, E2EEKeyManager.get_key w c = Some k -> (0 <= key_index k < 16)%Z).
Proof.
  intros Hc. destruct (do_calls_inv calls _ (create_inv _ _ _ _ _ _ _ Hc)) as [[tbl R] Hk].
  cbv zeta. destruct (VoiceSessions.queries_repr _ _ R) as (Qc & Qs & Qp & _ & Qe & _). split_and!.
  - intros u c. rewrite Qc. unfold VoiceSessions.users_in_channel. rewrite list_elem_of_fmap. split.
    + intros ([u' st] & -> & (y & Hy & <- & _)%Qp). simpl. by rewrite Hy.
    + intros (y & Hy & Hu)%fmap_Some. exists (u, VoiceSessions.e_state y). split; [done|].
      apply Qp. eauto.
  - intros u. rewrite Qs, Qc, !fmap_is_Some. done.
  - intros c. rewrite Qe, VoiceSessions.nobody_in_true. split.
    + intros Hn u. rewrite Qc. intros (y & Hy & He)%fmap_Some. by eapply Hn.
    + intros Hn u y Hy He. apply (Hn u). by rewrite Qc, Hy, <- He.
  - intros c k Hg. unfold E2EEKeyManager.get_key in Hg.
    destruct (e2ee_keys_ _ !! c) eqn:E; [|done]. case_bool_decide; simplify_eq. by eapply Hk.
Qed.

(** ** Reconciliation and live members *)

(** The table row of a user is only changed by operations on that user. *)
Lemma spec_step_frame u o tbl :
  VoiceFrame.op_allowed (fun u' => u' <> u) (fun _ => False) o ->
  (VoiceSessions.spec_step tbl o).2 !! u = tbl !! u.
Proof.
  destruct o; simpl; intros Ho; try done; repeat case_match; simpl; try done;
    by rewrite ?lookup_insert_ne, ?lookup_delete_ne by done.
Qed.

(** [u] is in [c], owned by session [s], which is connected. *)
Definition live (u : UserId) (c : ChannelId) (s : Z) (w : W) : Prop :=
  Session.sessionIdHasConnections (session_manager_ w) s = true /\
  exists tbl x, VoiceSessions.repr (sessions_ w) tbl /\ tbl !! u = Some x /\
    VoiceSessions.e_channel x = c /\ VoiceSessions.e_owner x = s.

Section Live.
Context (u : UserId) (c : ChannelId) (s : Z).

Lemma live_core w w' : VoiceFrame.same_core w w' -> live u c s w -> live u c s w'.
Proof. intros (Hs & Hm & _). unfold live. by rewrite Hs, Hm. Qed.

Lemma live_step w o : VoiceFrame.op_allowed (fun u' => u' <> u) (fun _ => False) o ->
  live u c s w -> live u c s (set_sessions (VoiceSessions.step (sessions_ w) o).2 w).
Proof.
  intros Ho (Hs & tbl & x & R & Hx & Hc & Hw). split; [done|].
  eexists _, x. split; [by apply (VoiceSessions.step_repr _ _ R o)|].
  by rewrite spec_step_frame.
Qed.

Lemma live_keys w k : live u c s w -> live u c s (set_keys k w).
Proof. done. Qed.

Lemma live_answers w : live u c s w ->
  VoiceSessions.user_channel (sessions_ w) u = Some c /\
  VoiceSessions.user_session (sessions_ w) u = Some s /\
  VoiceService.has_active_owner_connection w u c = true /\
  u ∈ (VoiceSessions.participants_in_channel (sessions_ w) c).*1 /\
  0 < VoiceService.active_owner_connection_count w c.
Proof.
  intros (Hs & tbl & x & R & Hx & Hc & Hw).
  destruct (VoiceSessions.queries_repr _ _ R) as (Qc & Qs & Qp & _).
  assert (Hch : VoiceSessions.user_channel (sessions_ w) u = Some c) by (by rewrite Qc, Hx, <- Hc).
  assert (Hss : VoiceSessions.user_session (sessions_ w) u = Some s) by (by rewrite Qs, Hx, <- Hw).
  assert (Ha : VoiceService.has_active_owner_connection w u c = true).
  { unfold VoiceService.has_active_owner_connection. by rewrite Hch, Hss, bool_decide_eq_true_2. }
  assert (Hp : (u, VoiceSessions.e_state x) ∈
    VoiceSessions.participants_in_channel (sessions_ w) c) by (apply Qp; eauto).
  split_and!; [done..| |].
  - apply list_elem_of_fmap. by eexists (_, _).
  - pose proof (proj2 (list_elem_of_filter
      (fun p => VoiceService.has_active_owner_connection w p.1 c = true)
      _ (u, VoiceSessions.e_state x)) (conj Ha Hp)) as Hf.
    unfold VoiceService.active_owner_connection_count. destruct (filter _ _); simpl; [set_solver|lia].
Qed.

(** A value read under an invariant that determines something of it. *)
Lemma ex_preserves_read {S A B} (I : S -> Prop) (f : S -> A) (k : A -> EX S B) :
  (forall s, I s -> ex_preserves I (k (f s))) -> ex_preserves I (ex_bind (ex_gets f) k).
Proof. intros Hk s' Hs. exact (Hk s' Hs s' Hs). Qed.

Lemma live_room_missing why : ex_preserves (live u c s) (VoiceService.room_missing c why).
Proof.
  apply ex_preserves_read. intros w (_ & _ & _ & _ & Hn)%live_answers.
  rewrite (proj2 (Nat.ltb_lt _ _) Hn). apply VoiceFrame.keeps_clear_channel_missing, live_core.
Qed.

Lemma live_local_missing u' : ex_preserves (live u c s) (VoiceService.local_missing cfg c u').
Proof.
  destruct (decide (u' = u)) as [->|Hu].
  - apply ex_preserves_read. intros w (_ & _ & -> & _)%live_answers.
    apply VoiceFrame.keeps_clear_participant_missing, live_core.
  - eapply VoiceFrame.keeps_local_missing; eauto using live_core, live_step; done.
Qed.

Lemma live_reconcile why : ex_preserves (live u c s) (VoiceService.reconcile_channel_state cfg c why).
Proof.
  pose proof live_core as HC. unfold VoiceService.reconcile_channel_state.
  apply ex_preserves_bind; [by apply VoiceFrame.keeps_any_node|]. intros node.
  apply ex_preserves_bind; [destruct node; [by apply VoiceFrame.keeps_query|apply ex_preserves_ret]|].
  intros answer. cbv zeta. apply ex_preserves_read. intros w (_ & _ & _ & Hin & _)%live_answers.
  ex_split; eauto using live_room_missing, live_local_missing, VoiceFrame.keeps_clear_channel_missing,
    VoiceFrame.keeps_reset_missing, VoiceFrame.keeps_clear_participant_missing.
  eapply VoiceFrame.keeps_remote_untracked; eauto using live_step. simpl.
  intros Hx. apply bool_decide_eq_false in E0. by rewrite Hx in E0.
Qed.
End Live.

(** C7: reconciliation never drops a live member.  Whatever LiveKit answers or
    fails to answer, however long the evidence has stood, reconciling a
    channel (to its end or to an exception) leaves a user whose voice is owned
    by a connected session in the channel, with the same owner. *)
Theorem reconcile_keeps_live_members w c why u :
  voice_inv w -> VoiceService.has_active_owner_connection w u c = true ->
  let w' := (VoiceService.reconcile_channel_state cfg c why w).2 in
  VoiceSessions.user_channel (sessions_ w') u = Some c /\
  VoiceSessions.user_session (sessions_ w') u = VoiceSessions.user_session (sessions_ w) u.
Proof.
  intros [[tbl R] _] Ha w'. unfold VoiceService.has_active_owner_connection in Ha.
  destruct (VoiceSessions.queries_repr _ _ R) as (Qc & Qs & _).
  apply andb_true_iff in Ha as [Hc%bool_decide_eq_true Hs].
  destruct (VoiceSessions.user_session (sessions_ w) u) as [s|] eqn:Es; [|done].
  assert (Hl : live u c s w).
  { rewrite Qc in Hc. rewrite Qs in Es. apply fmap_Some in Hc as (x & Hx & ->).
    rewrite Hx in Es. simplify_eq/=. split; [done|]. eauto 6. }
  apply (live_reconcile _ _ _ why), live_answers in Hl. by destruct Hl as (? & ? & _).
Qed.

(** ** Webhooks that arrive late *)

(** The newest event time seen for [u] is at least [t]. *)
Definition newest (u : UserId) (t : Z) (w : W) : Prop :=
  (t <= default 0 (user_last_event_ts_ms_ w !! u))%Z.

Lemma newest_core u t w w' : VoiceFrame.same_core w w' -> newest u t w -> newest u t w'.
Proof. intros (_ & _ & _ & Hu & _). unfold newest. by rewrite Hu. Qed.

Lemma stale_step_max last ts : (0 <= last)%Z -> (0 < ts)%Z ->
  (VoiceService.stale_step last ts).2 = Z.max last ts /\
  ((VoiceService.stale_step last ts).1 = true <-> (ts < last)%Z).
Proof.
  intros Hl Ht. unfold VoiceService.stale_step.
  destruct (last =? 0)%Z eqn:E0, (ts <? last)%Z eqn:E1, (last <? ts)%Z eqn:E2; simpl; split; lia.
Qed.

Lemma newest_seen u t w e : newest u t w ->
  newest u t (VoiceService.is_stale_participant_event e w).2.
Proof.
  unfold newest, VoiceService.is_stale_participant_event, VoiceService.stale_step. intros Hn.
  destruct (_ || _); [done|]. set (last := default 0%Z (user_last_event_ts_ms_ w !! user_id e)).
  assert (Hcase : forall b l, (last <= l)%Z -> (t <= default 0%Z
    (user_last_event_ts_ms_ ((Some b, set_event_ts (<[user_id e := l]> (user_last_event_ts_ms_ w))
       (channel_last_room_event_ts_ms_ w) w) : option bool * W).2 !! u))%Z).
  { intros b l Hl. simpl. rewrite lookup_insert. case_decide; [subst; simpl; subst last; lia|done]. }
  destruct (negb _ && _); [apply Hcase; lia|]. destruct (last <? _)%Z eqn:E; apply Hcase; lia.
Qed.

Definition is_recover (c : call) : bool := match c with CRecover => true | _ => false end.

Lemma do_call_newest u t w c : is_recover c = false -> newest u t w -> newest u t (do_call w c).
Proof.
  pose proof newest_core as I1. pose proof newest_seen as I2.
  assert (I3 : forall w o, VoiceFrame.op_allowed (fun _ => True) (fun _ => True) o -> newest u t w ->
    newest u t (set_sessions (VoiceSessions.step (sessions_ w) o).2 w)) by done.
  assert (I4 : forall w k, newest u t w -> newest u t (set_keys k w)) by done.
  intros Hc Hw. destruct c as [ch v s n|ch v|ch v|ch|e|ch why|why|v|v h ch rid s| |v b|v b|m s]; simpl;
    try done.
  - eapply VoiceFrame.keeps_join_voice; eauto.
  - eapply VoiceFrame.keeps_kick; eauto.
  - eapply VoiceFrame.keeps_verified_kick; eauto.
  - eapply VoiceFrame.keeps_takeover; eauto.
  - by eapply VoiceFrame.keeps_on_event; eauto.
  - by eapply VoiceFrame.keeps_reconcile; eauto.
  - by eapply VoiceFrame.keeps_reconcile_full; eauto.
  - eapply VoiceFrame.keeps_destroyed; eauto.
  - by eapply VoiceFrame.keeps_try_resume; eauto.
Qed.

Lemma do_calls_newest u t calls : forall w, Forall (fun c => is_recover c = false) calls ->
  newest u t w -> newest u t (foldl do_call w calls).
Proof.
  induction calls as [|c calls IH]; intros w Hc Hw; [done|]. apply list.Forall_cons in Hc as [Hc Hcs].
  by apply IH, do_call_newest.
Qed.

(** What is left of a composed step after its first part. *)
Lemma ex_then {S A B} (m : EX S A) (k : A -> EX S B) (Q : S -> Prop) s :
  Q (m s).2 -> (forall a, ex_preserves Q (k a)) -> Q (ex_bind m k s).2.
Proof. intros Hm Hk. unfold ex_bind. destruct (m s) as [[a|] s']; [by apply Hk|done]. Qed.

(** A participant event with a user and a time. *)
Definition timed (e : LiveKitEvent) : Prop :=
  VoiceService.is_participant_event (ev_type e) = true /\ user_value (user_id e) <> ""%string /\
  (0 < timestamp_ms e)%Z.

Lemma timed_checked e : timed e ->
  (timestamp_ms e =? 0)%Z || bool_decide (user_value (user_id e) = ""%string) = false.
Proof. intros (_ & Hu & Ht). rewrite bool_decide_eq_false_2 by done. lia. Qed.

Lemma event_seen e w : timed e ->
  (VoiceService.mark_webhook_event_seen (event_id e) w).1 = Some true ->
  newest (user_id e) (timestamp_ms e) (VoiceService.on_livekit_event cfg e w).2.
Proof.
  intros He Hm. unfold VoiceService.on_livekit_event, ex_bind at 1.
  destruct (VoiceService.mark_webhook_event_seen (event_id e) w) as [r wa]. simpl in Hm. subst r. simpl.
  destruct He as (Hp & Hr). rewrite Hp. apply ex_then.
  - unfold newest, VoiceService.is_stale_participant_event. rewrite timed_checked by done.
    unfold VoiceService.stale_step.
    set (last := default 0%Z (user_last_event_ts_ms_ wa !! user_id e)).
    destruct (negb _ && _) eqn:E; [|destruct (last <? _)%Z eqn:E']; simpl; rewrite lookup_insert_eq; simpl;
      lia.
  - pose proof (newest_core (user_id e) (timestamp_ms e)) as I1. intros b. ex_split;
      eauto using VoiceFrame.keeps_request, VoiceFrame.keeps_stale_room.
    by eapply (VoiceFrame.keeps_dispatch cfg _ (fun _ => True) (fun _ => True)).
Qed.

Lemma mark_seen_ext id (w : W) :
  exists b x, VoiceService.mark_webhook_event_seen id w = (Some b, set_ext x w).
Proof.
  unfold VoiceService.mark_webhook_event_seen. case_bool_decide.
  - eexists _, (ext w). by destruct w.
  - unfold ex_bind, on_ext. destruct (RedisClient.setnxex _ _ _ _). by eexists _, _.
Qed.

(** An older event than the newest seen: only clocks, Redis and the queue of
    channels to reconcile. *)
Lemma late_event e w t : timed e -> newest (user_id e) t w -> (timestamp_ms e < t)%Z ->
  exists x us cs p, VoiceService.on_livekit_event cfg e w =
    (Some tt, set_pending p (set_event_ts us cs (set_ext x w))) /\
    p ⊆ {[channel_id e]} ∪ pending_channels_ w.
Proof.
  intros Ho Hn Hlt. unfold VoiceService.on_livekit_event, ex_bind at 1.
  destruct (mark_seen_ext (event_id e) w) as (b & x & ->). destruct b; simpl.
  2:{ eexists x, (user_last_event_ts_ms_ w), (channel_last_room_event_ts_ms_ w), (pending_channels_ w).
      split; [done|set_solver]. }
  pose proof (timed_checked _ Ho) as Hck. destruct Ho as (Hp & _ & Hpos). rewrite Hp. unfold ex_bind at 1.
  unfold VoiceService.is_stale_participant_event. rewrite Hck. unfold newest in Hn. simpl.
  set (last := default 0%Z (user_last_event_ts_ms_ w !! user_id e)) in *.
  unfold VoiceService.stale_step.
  replace (negb (last =? 0)%Z && (timestamp_ms e <? last)%Z) with true by lia.
  unfold request_reconcile, ex_modify. clear Hck.
  exists x, (<[user_id e := last]> (user_last_event_ts_ms_ w)), (channel_last_room_event_ts_ms_ w).
  case_bool_decide.
  - exists (pending_channels_ w). split; [done|set_solver].
  - exists ({[channel_id e]} ∪ pending_channels_ w). done.
Qed.

(** A webhook that arrives late changes nothing.  Once a participant event
    of a user has been taken, and whatever calls came in between (short of a
    restart), an event of the same user with an older time leaves membership,
    keys, node load, resume ids and everything sent untouched; at most it asks
    for a reconciliation. *)
Theorem late_webhook_changes_nothing w e calls e_old :
  timed e -> (VoiceService.mark_webhook_event_seen (event_id e) w).1 = Some true ->
  Forall (fun c => is_recover c = false) calls ->
  timed e_old -> user_id e_old = user_id e -> (timestamp_ms e_old < timestamp_ms e)%Z ->
  let w1 := foldl do_call (do_call w (CEvent e)) calls in
  let w2 := do_call w1 (CEvent e_old) in
  sessions_ w2 = sessions_ w1 /\ e2ee_keys_ w2 = e2ee_keys_ w1 /\ nodes_ w2 = nodes_ w1 /\
  user_resume_ids_ w2 = user_resume_ids_ w1 /\ outbox w2 = outbox w1 /\
  pending_channels_ w2 ⊆ {[channel_id e_old]} ∪ pending_channels_ w1.
Proof.
  intros He Hm Hcalls Ho Hu Hlt w1 w2.
  assert (Hn : newest (user_id e) (timestamp_ms e) w1) by (by apply do_calls_newest, event_seen).
  subst w2. simpl. clearbody w1. rewrite <- Hu in Hn.
  by destruct (late_event _ _ _ Ho Hn Hlt) as (x & us & cs & p & -> & Hp).
Qed.
End Proofs.

(** ** A sample deployment *)

(** One hub with one voice channel, one node that lists nobody, Redis up. *)
Module Sample.
Definition W : Type := World DemoWorld.t (list MemberRole).
Definition json0 : JsonLib := {|
  json_parse := fun _ => Some (JObject {["participants"%string := JArray []]});
  json_dump := fun _ => "doc"%string;
  picojson_serialize := fun _ => "{}"%string |}.
Definition crypto0 : Crypto := {|
  evp_sha256 := fun _ => None; gcm_seal := fun _ _ _ => None; gcm_open := fun _ _ _ _ => None;
  evp_encode_block := fun _ => None; evp_decode_block := fun _ => None;
  jwt_base64 := fun s => s; jwt_sign := fun _ _ => "jwt"%string |}.
Definition cfg0 : VoiceConfig := mkConfig (TokenService.mk "k" "s") "wss://c" None 60 10 30.
Definition u0 : UserId := mkUserId "alice".
Definition c0 : ChannelId := HubCoherence.Demo.c0.
Definition ext0 : DemoWorld.t := DemoWorld.mk ∅ true 1000 0 (replicate 4 (mkHttp false 200 "{}")).
Definition joined (s ts : Z) : LiveKitEvent :=
  mkEvent PARTICIPANT_JOINED "" "participant_joined" c0 u0 "" "" s "" "" ts.
Definition left (s ts : Z) : LiveKitEvent :=
  mkEvent PARTICIPANT_LEFT "" "participant_left" c0 u0 "" "" s "" "" ts.
(** Alice connected with session 1. *)
Definition online : Session.t := 
  (Session.attachConnection (Session.create 4) (mkGlobalConnId (mkNetStackId "net-1") (mkConnId "1")) u0).2.

(** The state after Alice connected and LiveKit reported the join. *)
Definition calls0 : list call := [CConnections online Subscription.create; CEvent (joined 0 5)].
Definition run (w : W) (cs : list call) : W :=
  foldl (do_call (H := DemoWorld.demo_external) (H0 := HubCoherence.Demo.demo_repo)
           (H1 := json0) (H2 := crypto0) cfg0) w cs.
Definition boot : W := mkWorld ext0 (HubService.create []) (Session.create 4)
  Subscription.create VoiceSessions.create
  (default NodeRegistry.create (VoiceService.register_nodes NodeRegistry.create
     [("n1", "pub", "priv")]%string)) (Evidence.create 30) ∅ ∅ ∅ ∅ ∅ ∅ ∅ ∅ 1 [].
Definition w0 : W := run boot calls0.
End Sample.

#[local] Existing Instances Sample.json0 Sample.crypto0.

Lemma voice_calls_keep_membership_witness :
  Sample.u0 ∈ VoiceSessions.users_in_channel (sessions_ Sample.w0) Sample.c0.
Proof.
  pose proof (voice_calls_keep_membership Sample.cfg0 Sample.ext0 (HubService.create [])
    (Session.create 4) Subscription.create [("n1", "pub", "priv")]%string 30 Sample.boot
    Sample.calls0) as Hm.
  apply Hm; vm_compute; reflexivity.
Defined.

Lemma sample_inv : voice_inv Sample.w0.
Proof. apply do_calls_inv. split; [exists ∅; apply VoiceSessions.create_repr|done]. Qed.

(** LiveKit lists nobody, Alice is connected: she stays. *)
Lemma reconcile_keeps_live_members_witness :
  VoiceSessions.user_channel
    (sessions_ (VoiceService.reconcile_channel_state Sample.cfg0 Sample.c0 "timer" Sample.w0).2)
    Sample.u0 = Some Sample.c0.
Proof.
  pose proof (reconcile_keeps_live_members Sample.cfg0 Sample.w0 Sample.c0 "timer" Sample.u0) as Hr.
  apply Hr; [exact sample_inv|vm_compute; reflexivity].
Defined.

(** A leave from before the join, delivered after it. *)
Lemma late_webhook_changes_nothing_witness :
  let w1 := Sample.run Sample.boot [CConnections Sample.online Subscription.create;
                                    CEvent (Sample.joined 0 5); CMute Sample.u0 true] in
  sessions_ (Sample.run w1 [CEvent (Sample.left 0 4)]) = sessions_ w1.
Proof.
  pose proof (late_webhook_changes_nothing Sample.cfg0
    (Sample.run Sample.boot [CConnections Sample.online Subscription.create]) (Sample.joined 0 5)
    [CMute Sample.u0 true] (Sample.left 0 4)) as Hl.
  apply Hl.
  - repeat split; done.
  - vm_compute. reflexivity.
  - by repeat constructor.
  - repeat split; done.
  - reflexivity.
  - reflexivity.
Defined.
End VoiceProofs.
