(* ===== verification/VoiceHandlers.v ===== *)
(** * What each voice handler does

    Functional behaviour of the webhook handlers on the membership table, of
    the resume path, of key acquisition and rotation, and of restart
    recovery. *)

From S2P Require Import Prelude.
From S2P Require Import CStrings.
From S2P Require Import Ids.
From S2P Require Import Protocol.
From S2P Require Import OutboundMsg.
From S2P Require Import SessionManager.
From S2P Require Import SubscriptionManager.
From S2P Require Import VoiceSessions.
From S2P Require Import Evidence.
From S2P Require Import NodeRegistry.
From S2P Require Import HubService.
From S2P Require Import HubCoherence.
From S2P Require Import External.
From S2P Require Import VoiceWorld.
From S2P Require Import VoiceStores.
From S2P Require Import ChannelKeys.
From S2P Require Import VoiceService.
From S2P Require Import VoiceFrame.
From S2P Require Import VoiceProofs.
Import VoiceProofs.

Module VoiceHandlers.
Section Handlers.
Context {X D : Type} `{External X} `{HubRepo D} `{JsonLib} `{Crypto}.
Variable cfg : VoiceConfig.

Abbreviation W := (World X D).

(** ** Membership *)

(** The sessions are the table [tbl]. *)
Definition tracks (tbl : VoiceSessions.Table) (w : W) : Prop :=
  VoiceSessions.repr (sessions_ w) tbl.

Lemma tracks_core tbl w w' : VoiceFrame.same_core w w' -> tracks tbl w -> tracks tbl w'.
Proof. intros (Hs & _). unfold tracks. by rewrite Hs. Qed.

(** A handler that starts with session operation [o]. *)
Lemma bind_sessions {A B} (f : VoiceSessions.t -> A * VoiceSessions.t) o tbl (k : A -> EX W B)
  (Q : W -> Prop) w :
  (forall v, (f v).2 = (VoiceSessions.step v o).2) -> tracks tbl w ->
  (forall a w', tracks (VoiceSessions.spec_step tbl o).2 w' -> Q (k a w').2) ->
  Q (ex_bind (on_sessions f) k w).2.
Proof.
  intros Hf R Hk. destruct (VoiceSessions.step_repr _ _ R o) as [_ R']. rewrite <- Hf in R'.
  unfold ex_bind, on_sessions. destruct (f (sessions_ w)) as [a v]. by apply Hk.
Qed.

Ltac session o R :=
  eapply (bind_sessions _ o); [intros ?; cbn [VoiceSessions.step]; by case_match|exact R|];
  clear R; intros ? ? R; cbn [VoiceSessions.spec_step snd] in R.

(** Table row of an admitted join. *)
Definition admitted (e : LiveKitEvent) (i : PendingJoinIntent) : VoiceSessions.entry :=
  VoiceSessions.mkEntry (channel_id e) (in_session_id i)
    (VoiceSessions.mkState (in_deafened i || in_muted i) (in_deafened i)).

Lemma admit_tracks e i tbl w : tracks tbl w ->
  tracks (<[user_id e := admitted e i]> tbl) (VoiceService.admit_join e i w).2.
Proof.
  intros R. unfold VoiceService.admit_join.
  session (VoiceSessions.OpJoin (channel_id e) (user_id e) (in_session_id i)) R.
  session (VoiceSessions.OpDeafen (user_id e) (in_deafened i)) R.
  rewrite lookup_insert_eq, insert_insert_eq in R. simpl in R.
  unfold admitted. destruct (in_deafened i); [done|].
  session (VoiceSessions.OpMute (user_id e) (in_muted i)) R. rewrite lookup_insert_eq in R. simpl in R.
  destruct (in_muted i); simpl in R; [by rewrite insert_insert_eq in R|done].
Qed.

(** First steps of a handler. *)
Lemma bind_modify {B} (f : W -> W) (k : unit -> EX W B) w : ex_bind (ex_modify f) k w = k tt (f w).
Proof. done. Qed.
Lemma handler_gets {A B} (f : W -> A) (k : A -> EX W B) w : ex_bind (ex_gets f) k w = k (f w) w.
Proof. done. Qed.
Lemma bind_ext {A B} (m : ST X A) (k : A -> EX W B) w :
  ex_bind (on_ext m) k w = k (m (ext w)).1 (set_ext (m (ext w)).2 w).
Proof. unfold ex_bind, on_ext. by destruct (m (ext w)). Qed.

Lemma run_keeps {A} tbl (m : EX W A) w :
  ex_preserves (tracks tbl) m -> tracks tbl w -> tracks tbl (m w).2.
Proof. intros Hm. apply Hm. Qed.

(** The event's token carried no session and no nonce. *)
Definition anonymous (e : LiveKitEvent) : Prop := app_session_id e = 0%Z /\ intent_nonce e = ""%string.

(** The row [row] a join event is entitled to, given the user's staged intent
    and session ids: that of the intent for the event's channel, when the event
    carries the intent's session and its nonce, or carries neither and the
    intent's session is the user's only one; without an intent, that of the
    user's only session, for an event that carries neither. *)
Inductive staged (ids : list Z) (e : LiveKitEvent) : option PendingJoinIntent -> VoiceSessions.entry -> Prop :=
  | staged_by_nonce i :
      to_channel i = channel_id e -> app_session_id e = in_session_id i ->
      intent_nonce e = in_nonce i -> in_nonce i <> ""%string ->
      staged ids e (Some i) (VoiceSessions.mkEntry (channel_id e) (in_session_id i)
        (VoiceSessions.mkState (in_deafened i || in_muted i) (in_deafened i)))
  | staged_by_session i :
      to_channel i = channel_id e -> anonymous e -> ids = [in_session_id i] ->
      staged ids e (Some i) (VoiceSessions.mkEntry (channel_id e) (in_session_id i)
        (VoiceSessions.mkState (in_deafened i || in_muted i) (in_deafened i)))
  | staged_by_nobody s :
      anonymous e -> ids = [s] ->
      staged ids e None (VoiceSessions.mkEntry (channel_id e) s VoiceSessions.default_state).

Lemma correlate_spec (w : W) e pending row :
  (exists i, VoiceService.correlate w e pending = Some i /\ row = admitted e i) <->
  staged (Session.getUserSessionIds (session_manager_ w) (user_id e)) e pending row.
Proof.
  unfold VoiceService.correlate. set (ids := Session.getUserSessionIds _ _).
  assert (Han : (app_session_id e =? 0)%Z && bool_decide (intent_nonce e = ""%string) = true <-> anonymous e).
  { by rewrite andb_true_iff, Z.eqb_eq, bool_decide_eq_true. }
  assert (Hno : negb (app_session_id e =? 0)%Z || negb (bool_decide (intent_nonce e = ""%string)) = true <->
    ~ anonymous e).
  { rewrite <- Han, orb_true_iff, !negb_true_iff, andb_true_iff.
    destruct (app_session_id e =? 0)%Z, (bool_decide _); naive_solver. }
  destruct pending as [i|].
  - destruct (decide (channel_id e = to_channel i)) as [Hc|Hc];
      [rewrite (bool_decide_eq_true_2 _ Hc)|rewrite (bool_decide_eq_false_2 _ Hc)]; cbn [negb].
    2:{ split; [by intros (? & ? & _)|]. inversion 1; congruence. }
    case_eq (negb (app_session_id e =? 0)%Z || negb (bool_decide (intent_nonce e = ""%string))); intros Ea.
    + apply Hno in Ea. destruct (_ && _ && _) eqn:Em; split.
      * intros (j & [= <-] & ->). rewrite !andb_true_iff, Z.eqb_eq, negb_true_iff, bool_decide_eq_false,
          bool_decide_eq_true in Em. destruct Em as [[Hs Hn] He]. by apply staged_by_nonce.
      * inversion 1; [by exists i|done].
      * by intros (? & ? & _).
      * inversion 1 as [? ? Hs He Hn| |]; [|done]. exfalso. revert Em.
        rewrite Hs, Z.eqb_refl, He, (bool_decide_eq_false_2 _ Hn), bool_decide_eq_true_2; done.
    + assert (Hanon : anonymous e) by (apply Han; destruct (app_session_id e =? 0)%Z, (bool_decide _); done).
      split.
      * intros (j & Hj & ->). destruct ids as [|s [|]] eqn:Hids; try done.
        destruct (Z.eqb_spec s (in_session_id i)) as [->|]; [|done]. injection Hj as <-.
        by apply staged_by_session.
      * inversion 1 as [? ? Hs He Hn|? ? ? Hs|]; subst.
        { destruct Hanon as [_ Hx]. congruence. }
        exists i. by rewrite Hs, Z.eqb_refl.
  - case_eq ((app_session_id e =? 0)%Z && bool_decide (intent_nonce e = ""%string)); intros Ea.
    + apply Han in Ea. split.
      * intros (j & Hj & ->). destruct ids as [|s [|]] eqn:Hids; try done. injection Hj as <-.
        by apply staged_by_nobody.
      * inversion 1 as [| |s Ha Hs]. rewrite Hs. by eexists.
    + split; [by intros (? & ? & _)|]. inversion 1 as [| |? Ha]; subst. apply Han in Ha. congruence.
Qed.

(** C21: a join webhook admits exactly the joins that were staged.  With the
    user's intent as read from Redis and the user's live session ids: when the
    event is entitled to a row - the intent is for the event's channel and the
    event carries its session id and its nonce, or it carries neither and the
    user has one session only, the intent's where there is one - the membership
    table after the handler, finished or stopped by an exception, is the one
    before with the user's row set to the event's channel, that session and the
    intent's flags; otherwise it is the one before.  Every other row is
    untouched. *)
Theorem join_webhook_admits_staged tbl e w :
  tracks tbl w ->
  let pending := (Intents.read (user_id e) (ext w)).1 in
  let ids := Session.getUserSessionIds (session_manager_ w) (user_id e) in
  let after := (VoiceService.handle_participant_joined cfg e w).2 in
  (forall row, staged ids e pending row -> tracks (<[user_id e := row]> tbl) after) /\
  ((forall row, ~ staged ids e pending row) -> tracks tbl after).
Proof.
  intros R pending ids after. pose proof tracks_core as I1.
  assert (Hafter : tracks (match VoiceService.correlate w e pending with
      | Some i => <[user_id e := admitted e i]> tbl | None => tbl end) after).
  { subst after. unfold VoiceService.handle_participant_joined,
      VoiceService.clear_channel_missing, VoiceService.clear_participant_missing, on_evidence.
    rewrite !bind_modify, bind_ext, handler_gets. simpl. fold pending.
    change (VoiceService.correlate _ e pending) with (VoiceService.correlate w e pending).
    destruct (VoiceService.correlate w e pending) as [i|].
    - apply (ex_then _ _ (tracks _)); [by apply admit_tracks|]. intros first. ex_split;
        eauto using VoiceFrame.keeps_start_clock, VoiceFrame.keeps_announce, VoiceFrame.keeps_settle_join.
    - apply run_keeps; [|done]. ex_split; eauto using VoiceFrame.keeps_request, VoiceFrame.keeps_kick. }
  pose proof (correlate_spec w e pending) as Hspec. fold ids in Hspec. split.
  - intros row Hrow. apply Hspec in Hrow as (i & Hi & ->). by rewrite Hi in Hafter.
  - intros Hno. destruct (VoiceService.correlate w e pending) as [i|]; [|done].
    destruct (Hno (admitted e i)). apply Hspec. eauto.
Qed.

Lemma leave_then {B} tbl c u (k : bool -> EX W B) w :
  (forall T b, ex_preserves (tracks T) (k b)) -> tracks tbl w ->
  tracks (VoiceSessions.spec_step tbl (VoiceSessions.OpLeave c u)).2
    ((VoiceService.clear_participant_missing c u;;;
      b <-- on_sessions (fun v => VoiceSessions.leave v c u); k b)%ex w).2.
Proof.
  intros Hk R. assert (R1 : tracks tbl (set_evidence
    (Evidence.clear_participant_missing (evidence_ w) c u) w)) by done.
  unfold VoiceService.clear_participant_missing, on_evidence. rewrite bind_modify.
  session (VoiceSessions.OpLeave c u) R1. by apply Hk.
Qed.

(** A leave that belongs to another join of the channel: the pending intent is
    for the channel, and both carry a nonce, different ones. *)
Definition leftover (e : LiveKitEvent) (pending : option PendingJoinIntent) : Prop :=
  exists i, pending = Some i /\ to_channel i = channel_id e /\ in_nonce i <> ""%string /\
    intent_nonce e <> ""%string /\ intent_nonce e <> in_nonce i.

(** The leave of the channel a pending switch comes from. *)
Definition switch_leave (e : LiveKitEvent) (pending : option PendingJoinIntent) : Prop :=
  exists i, pending = Some i /\ has_from_channel i = true /\ from_channel i = channel_id e /\
    to_channel i <> channel_id e.

(** The user's row is in the event's channel, and the event comes from the
    session that owns it, or names none, and is no leftover; or it is the leave
    of a switch. *)
Definition ends_voice (tbl : VoiceSessions.Table) (e : LiveKitEvent) (pending : option PendingJoinIntent)
  : Prop :=
  exists row, tbl !! user_id e = Some row /\ VoiceSessions.e_channel row = channel_id e /\
    ((app_session_id e = 0%Z \/ app_session_id e = VoiceSessions.e_owner row) /\ ~ leftover e pending \/
     switch_leave e pending).

Lemma leftover_spec e pending :
  match pending with
  | Some i => bool_decide (to_channel i = channel_id e) && negb (bool_decide (in_nonce i = ""%string)) &&
              negb (bool_decide (intent_nonce e = ""%string)) &&
              negb (bool_decide (intent_nonce e = in_nonce i))
  | None => false
  end = true <-> leftover e pending.
Proof.
  unfold leftover. destruct pending as [i|]; [|naive_solver].
  rewrite !andb_true_iff, !negb_true_iff, !bool_decide_eq_false, bool_decide_eq_true. naive_solver.
Qed.

Lemma switch_intent_spec e pending :
  is_Some (VoiceService.switch_intent e pending) <-> switch_leave e pending.
Proof.
  unfold VoiceService.switch_intent, switch_leave. destruct pending as [i|].
  2:{ split; [by intros []|]. by intros (? & ? & _). }
  assert (Hn : forall P : Prop, ~ P -> is_Some (None : option PendingJoinIntent) <-> P)
    by (intros P HP; split; [by intros []|done]).
  destruct (has_from_channel i) eqn:Eh; simpl.
  2:{ apply Hn. intros (j & [= <-] & Hj & _). congruence. }
  case_bool_decide as Hf; simpl.
  2:{ apply Hn. by intros (j & [= <-] & _ & Hj & _). }
  case_bool_decide as Ht; simpl.
  - apply Hn. intros (j & [= <-] & _ & Hj & Hne). congruence.
  - split; [|by eexists]. intros _. exists i. split_and!; congruence.
Qed.

Lemma leaving_spec tbl e pending (w : W) :
  tracks tbl w ->
  VoiceService.leaving_current_voice w e pending = true <->
  exists row, tbl !! user_id e = Some row /\ VoiceSessions.e_channel row = channel_id e /\
    (app_session_id e = 0%Z \/ app_session_id e = VoiceSessions.e_owner row) /\ ~ leftover e pending.
Proof.
  intros [Hu _]. unfold VoiceService.leaving_current_voice, VoiceSessions.user_channel,
    VoiceSessions.user_session. rewrite Hu, !andb_true_iff, orb_true_iff, negb_true_iff.
  rewrite <- not_true_iff_false, leftover_spec, Z.eqb_eq, !bool_decide_eq_true.
  destruct (tbl !! user_id e) as [row|]; simpl.
  - split.
    + intros [[[= Hc] Ho] Hn]. exists row. split_and!; try done.
      destruct Ho as [|[= Ho]]; [by left|by right].
    + intros (row' & [= <-] & Hc & Ho & Hn). split_and!; [by rewrite Hc| |done].
      destruct Ho as [|Ho]; [by left|right; by rewrite Ho].
  - split; [by intros [[? _] _]|by intros (? & ? & _)].
Qed.


(** ** Resume *)

Lemma rotate_resume u (w : W) :
  exists r x, Resume.rotate u w =
    (Some r, set_ext x (set_resume (<[u := r]> (user_resume_ids_ w)) w)).
Proof.
  unfold Resume.rotate. rewrite bind_ext, bind_modify, bind_ext. by eexists _, _.
Qed.

(** Everything a resume needs. *)
Definition may_resume (w : W) (u : UserId) (c : ChannelId) (rid : string) (next : Z) (o : Z) : Prop :=
  rid <> ""%string /\ VoiceSessions.user_channel (sessions_ w) u = Some c /\
  VoiceSessions.user_session (sessions_ w) u = Some o /\ o <> next /\
  user_resume_ids_ w !! u = Some rid.

(** The outcome of a resume: nothing moved, or the ownership did. *)
Lemma resume_cases u h c rid next w r w' :
  VoiceService.try_resume_voice_ownership u h c rid next w = (r, w') ->
  (exists hs, w' = set_hubs hs w /\ (r = None \/ r = Some None)) \/
  (exists o rr x hs, may_resume w u c rid next o /\ r = Some (Some (VoiceService.mkTransfer o c rr)) /\
     w' = set_ext x (set_resume (<[u := rr]> (user_resume_ids_ w))
          (set_sessions (VoiceSessions.mk (VoiceSessions.channels_ (sessions_ w))
             (<[u := VoiceSessions.mkVoice c next]> (VoiceSessions.user_to_channel_ (sessions_ w))))
             (set_hubs hs w)))).
Proof.
  assert (Hid : w = set_hubs (hubs w) w) by by destruct w.
  unfold VoiceService.try_resume_voice_ownership, VoiceService.user_channel_now, Resume.read.
  case_bool_decide as Hr; [intros [= <- <-]; left; by eauto|].
  rewrite handler_gets. case_bool_decide as Hc; simpl; [|intros [= <- <-]; left; by eauto].
  unfold ex_bind at 1, getChannel, on_hubs.
  destruct (HubService.getChannel c (hubs w)) as [[info|] hs]; [|intros [= <- <-]; left; by eauto].
  case_bool_decide; simpl; [|intros [= <- <-]; left; by eauto]. rewrite handler_gets. simpl.
  destruct (VoiceSessions.user_session (sessions_ w) u) as [o|] eqn:Hs;
    [|intros [= <- <-]; left; by eauto].
  destruct (Z.eqb_spec o next) as [|Hne]; [intros [= <- <-]; left; by eauto|]. rewrite handler_gets. simpl.
  case_bool_decide as Hrid; simpl; [|intros [= <- <-]; left; by eauto]. intros E. right.
  unfold VoiceSessions.user_channel in Hc. unfold VoiceSessions.user_session in Hs.
  apply fmap_Some in Hs as (uv & Huv & ->). rewrite Huv in Hc. simpl in Hc. injection Hc as <-.
  unfold ex_bind at 1, on_sessions, VoiceSessions.transfer_owner_session in E. simpl in E.
  rewrite Huv, Z.eqb_refl in E. simpl in E. unfold ex_bind at 1 in E.
  destruct (rotate_resume u (set_sessions (VoiceSessions.mk (VoiceSessions.channels_ (sessions_ w))
    (<[u := VoiceSessions.mkVoice (VoiceSessions.channel uv) next]>
       (VoiceSessions.user_to_channel_ (sessions_ w)))) (set_hubs hs w))) as (rr & x & Hrot).
  rewrite Hrot in E. injection E as <- <-. exists (VoiceSessions.owner_session uv), rr, x, hs.
  split; [|done].
  unfold may_resume, VoiceSessions.user_channel, VoiceSessions.user_session. by rewrite Huv.
Qed.

(** A resume id moves voice ownership once.  A resume succeeds only for
    the channel the user is in, with the current non-empty resume id, and for
    a session other than the owner; it then makes that session the owner in
    the same channel and replaces the id, so that unless the random source
    repeats itself the same id, presented again, is refused.  A resume that
    does not succeed changes neither ownership nor the id. *)
Theorem resume_moves_ownership_once u h c rid next w :
  let r := VoiceService.try_resume_voice_ownership u h c rid next w in
  match r.1 with
  | Some (Some t) =>
    may_resume w u c rid next (VoiceService.previous_owner_session t) /\
    VoiceSessions.user_session (sessions_ r.2) u = Some next /\
    VoiceSessions.user_channel (sessions_ r.2) u = Some c /\
    user_resume_ids_ r.2 !! u = Some (VoiceService.rt_resume_id t) /\
    (VoiceService.rt_resume_id t <> rid -> forall h' c' next' t',
       (VoiceService.try_resume_voice_ownership u h' c' rid next' r.2).1 <> Some (Some t'))
  | _ => sessions_ r.2 = sessions_ w /\ user_resume_ids_ r.2 = user_resume_ids_ w
  end.
Proof.
  destruct (VoiceService.try_resume_voice_ownership u h c rid next w) as [r w'] eqn:E.
  apply resume_cases in E as [(hs & -> & [-> | ->])|(o & rr & x & hs & Hm & -> & ->)]; [done..|].
  simpl. split_and!.
  - done.
  - unfold VoiceSessions.user_session. simpl. by rewrite lookup_insert_eq.
  - unfold VoiceSessions.user_channel. simpl. by rewrite lookup_insert_eq.
  - by rewrite lookup_insert_eq.
  - intros Hne h' c' next' t'. set (w1 := set_ext _ _).
    destruct (VoiceService.try_resume_voice_ownership u h' c' rid next' w1) as [r' w'] eqn:E.
    apply resume_cases in E as [(hs' & -> & [-> | ->])|(o' & rr' & x' & hs' & Hm' & _)]; [done..|].
    destruct Hm' as (_ & _ & _ & _ & Hr'). subst w1. simpl in Hr'.
    rewrite lookup_insert_eq in Hr'. by injection Hr'.
Qed.
End Handlers.

#[local] Existing Instances Sample.json0 Sample.crypto0.

(** Alice connected, not in voice. *)
Definition before_join : Sample.W :=
  Sample.run Sample.boot [CConnections Sample.online Subscription.create].

(** She has one session, 1: the join that carries none is admitted for it, the
    one that claims session 9 is not. *)
Lemma join_webhook_admits_staged_witness :
  tracks {[Sample.u0 := VoiceSessions.mkEntry Sample.c0 1 VoiceSessions.default_state]}
    (VoiceService.handle_participant_joined Sample.cfg0 (Sample.joined 0 5) before_join).2 /\
  tracks ∅ (VoiceService.handle_participant_joined Sample.cfg0 (Sample.joined 9 5) before_join).2.
Proof.
  destruct (join_webhook_admits_staged Sample.cfg0 ∅ (Sample.joined 0 5) before_join
    VoiceSessions.create_repr) as [Hj _].
  destruct (join_webhook_admits_staged Sample.cfg0 ∅ (Sample.joined 9 5) before_join
    VoiceSessions.create_repr) as [_ Hn]. split.
  - refine (Hj _ _). apply staged_by_nobody; [split; reflexivity|vm_compute; reflexivity].
  - apply Hn. intros row Hrow. vm_compute in Hrow. inversion Hrow as [| |s Ha Hs]. destruct Ha as [Ha _].
    discriminate Ha.
Defined.

(** Alice alone in the channel, owned by session 1. *)
Definition alice_in : VoiceSessions.Table :=
  {[Sample.u0 := VoiceSessions.mkEntry Sample.c0 1 VoiceSessions.default_state]}.

Lemma sample_tracks : tracks alice_in Sample.w0.
Proof.
  pose proof (VoiceSessions.run_repr [VoiceSessions.OpJoin Sample.c0 Sample.u0 1] _ _
    VoiceSessions.create_repr) as [_ R]. exact R.
Qed.

End VoiceHandlers.
