(* ===== verification/KeyProofs.v ===== *)
(** * Guarantees of the channel keys

    What a rotation replaces and whom it tells, and that the key handed to a
    joining user is the channel's key ([ChannelKeys.v]). *)

From S2P Require Import Prelude.
From S2P Require Import CStrings.
From S2P Require Import Ids.
From S2P Require Import Protocol.
From S2P Require Import OutboundMsg.
From S2P Require Import SessionManager.
From S2P Require Import SubscriptionManager.
From S2P Require Import VoiceSessions.
From S2P Require Import Evidence.
From S2P Require Import NodeRegistry.
From S2P Require Import HubService.
From S2P Require Import HubCoherence.
From S2P Require Import External.
From S2P Require Import VoiceWorld.
From S2P Require Import VoiceStores.
From S2P Require Import ChannelKeys.
From S2P Require Import VoiceService.
From S2P Require Import VoiceFrame.
From S2P Require Import VoiceProofs.

Module KeyProofs.
Section Keys.
Context {X D : Type} `{External X} `{HubRepo D} `{JsonLib} `{Crypto}.
Variable cfg : VoiceConfig.

Abbreviation W := (World X D).

(** ** Keys by themselves *)

(** The channel keys are [ks]. *)
Definition keys_are (ks : gmap ChannelId ChannelKey) (w : W) : Prop := e2ee_keys_ w = ks.

(** From the keys [ks], only [c] may differ, and a key [ck] found for it is
    the one in memory. *)
Definition settled (c : ChannelId) (ks : gmap ChannelId ChannelKey) (ck : option ChannelKey) (w : W)
  : Prop :=
  (forall c', c' <> c -> e2ee_keys_ w !! c' = ks !! c') /\
  (forall k, ck = Some k -> key k <> ""%string -> E2EEKeyManager.get_key w c = Some k).

Lemma keys_core ks w w' : VoiceFrame.same_core w w' -> keys_are ks w -> keys_are ks w'.
Proof. intros (_ & _ & Hk & _). unfold keys_are. by rewrite Hk. Qed.

Lemma settled_core c ks ck w w' : VoiceFrame.same_core w w' -> settled c ks ck w -> settled c ks ck w'.
Proof. intros (_ & _ & Hk & _). unfold settled, E2EEKeyManager.get_key. by rewrite Hk. Qed.

Lemma settled_put c ks k w : e2ee_keys_ w = <[c := k]> ks -> settled c ks (Some k) w.
Proof.
  intros Hk. split.
  - intros c' Hc. by rewrite Hk, lookup_insert_ne.
  - intros k' [= <-] Hne. unfold E2EEKeyManager.get_key. rewrite Hk, lookup_insert_eq.
    by rewrite bool_decide_eq_false_2.
Qed.

Lemma settled_none c ks k w : e2ee_keys_ w = <[c := k]> ks \/ e2ee_keys_ w = ks -> settled c ks None w.
Proof. intros [Hk|Hk]; (split; [intros c' Hc; by rewrite Hk, ?lookup_insert_ne|done]). Qed.

Abbreviation any := (fun _ : W => True).

(** Quiet steps that end with an answer. *)
Lemma settled_then {A} c ks ck (m : EX W A) :
  ex_preserves (settled c ks ck) m ->
  ex_triple (settled c ks ck) (m;;; ex_ret ck)%ex (settled c ks) any.
Proof. intros Hm. eapply ex_triple_skip; [done| |done]. intros a. by apply ex_triple_ret. Qed.

Definition touched (c : ChannelId) (ks : gmap ChannelId ChannelKey) (w : W) : Prop :=
  exists k, e2ee_keys_ w = <[c := k]> ks.

(** Both ways of making a key: touch the entry, draw random bytes, store. *)
Lemma make_key c ks (f : ChannelKey -> string -> ChannelKey) :
  ex_triple (keys_are ks)
    (state <-- ex_gets (fun w => default (mkKey "" 0) (e2ee_keys_ w !! c));
     E2EEKeyManager.put_key c state;;;
     k <-- E2EEKeyManager.generate_key;
     E2EEKeyManager.put_key c (f state k);;; ex_ret (f state k))%ex
    (fun k w => e2ee_keys_ w = <[c := k]> ks) (touched c ks).
Proof.
  intros w Hw. unfold E2EEKeyManager.generate_key, E2EEKeyManager.put_key, ex_bind, on_ext. simpl.
  unfold keys_are in Hw. destruct (rand_bytes 32 (ext w)) as [[raw|] x]; simpl; rewrite Hw.
  - by rewrite insert_insert_eq.
  - eexists. reflexivity.
Qed.

Lemma rotate_key_keys c ks : ex_triple (keys_are ks) (E2EEKeyManager.rotate_key c)
  (fun k w => e2ee_keys_ w = <[c := k]> ks) (touched c ks).
Proof.
  apply (make_key c ks (fun state k => mkKey k
    (if negb (bool_decide (key state = ""%string))
     then (wrap32 (key_index state + 1)) `mod` E2EEKeyManager.kKeyringSize else 0)%Z)).
Qed.

Lemma create_key_settled c ks : ex_triple (keys_are ks) (ChannelKeyService.try_create c)
  (settled c ks) any.
Proof.
  unfold ChannelKeyService.try_create. eapply (ex_triple_catch _ _ _ _ (touched c ks)).
  - eapply (ex_triple_bind _ _ _ (fun k => settled c ks (Some k))); [|intros k; by apply ex_triple_ret].
    unfold E2EEKeyManager.get_or_create_key. apply ex_triple_read. intros w Hw.
    destruct (E2EEKeyManager.get_key w c) as [k|] eqn:E.
    + apply ex_triple_ret. intros w' [Hk Hg]. split; [intros c' _; by rewrite Hk|].
      intros k' [= <-] _. done.
    + eapply ex_triple_conseq; [apply (make_key c ks (fun _ k => mkKey k 0))| |auto using settled_put|done].
      by intros w' [Hk _].
  - apply ex_triple_ret. intros w [k Hk]. apply (settled_none _ _ k). by left.
Qed.

Lemma rotate_settled c ks : ex_triple (keys_are ks) (ChannelKeyService.rotate_and_broadcast cfg c)
  (fun k => settled c ks (Some k)) any.
Proof.
  unfold ChannelKeyService.rotate_and_broadcast.
  eapply (ex_triple_bind _ _ _ (settled c ks)).
  - eapply (ex_triple_catch _ _ _ _ (touched c ks)).
    + eapply ex_triple_bind; [apply rotate_key_keys|]. intros k. apply ex_triple_ret.
      intros w Hw. by apply settled_put.
    + apply ex_triple_ret. intros w [k Hk]. apply (settled_none _ _ k). by left.
  - pose proof settled_core as I1. intros [k|].
    + eapply ex_triple_skip; [eauto using VoiceFrame.keeps_persist| |done]. intros _.
      eapply ex_triple_skip; [eauto using VoiceFrame.keeps_broadcast| |done]. intros _.
      by apply ex_triple_ret.
    + apply ex_triple_ret. intros w [Ho _]. split; [done|]. by intros k [= <-].
Qed.

Lemma read_index_range raw : (0 <= ChannelKeyService.read_index raw < 16)%Z.
Proof.
  unfold ChannelKeyService.read_index, E2EEKeyManager.kKeyringSize.
  destruct raw as [r|]; [|lia]. case_bool_decide; [lia|].
  destruct (stoul r); [apply Z.mod_pos_bound|]; lia.
Qed.

(** A stored key comes back with an index inside the ring. *)
Lemma load_index c (w : W) k :
  (ChannelKeyService.load_from_storage cfg c w).1 = Some (Some k) -> (0 <= key_index k < 16)%Z.
Proof.
  unfold ChannelKeyService.load_from_storage, ex_bind, on_ext.
  destruct (storage_master_key cfg) as [m|]; [|done].
  destruct (RedisClient.get _ _) as [[blob|] x]; [|done]. case_bool_decide; [done|].
  destruct (KeyBlob.decrypt_key_blob m blob) as [k'|]; [|done].
  destruct (RedisClient.get _ _) as [idx x2], (RedisClient.setex _ _ _ _) as [? x3].
  destruct (RedisClient.setex _ _ _ _). simpl. intros [= <-]. apply read_index_range.
Qed.

Lemma establish_settled c es ks : ex_triple (keys_are ks) (ChannelKeyService.establish_key cfg c es)
  (settled c ks) any.
Proof.
  pose proof settled_core as I1. unfold ChannelKeyService.establish_key. apply ex_triple_read.
  intros w Hw. destruct (E2EEKeyManager.get_key w c) as [k|] eqn:E.
  - eapply ex_triple_conseq; [apply (settled_then c ks (Some k)); eauto using VoiceFrame.keeps_persist| |done..].
    intros w' [Hk Hg]. split; [intros c' _; by rewrite Hk|]. by intros k' [= <-].
  - eapply ex_triple_conseq with (P := keys_are ks); [|by intros w' [Hk _]|done..].
    case_bool_decide.
    + eapply ex_triple_bind; [apply create_key_settled|]. intros [k|]; [|by apply ex_triple_ret].
      apply settled_then. eauto using VoiceFrame.keeps_persist.
    + eapply (ex_triple_bind _ _ _ (fun r w => keys_are ks w /\
        forall k, r = Some k -> (0 <= key_index k < 16)%Z)).
      * intros w' Hw'. pose proof (VoiceFrame.keeps_load cfg _ (keys_core ks) c w' Hw') as Hk.
        pose proof (load_index c w') as Hi.
        destruct (ChannelKeyService.load_from_storage cfg c w') as [[r|] w'']; [|done].
        split; [done|]. intros k ->. by apply Hi.
      * intros [k|].
        -- eapply (ex_triple_bind _ _ _ (fun _ => settled c ks (Some k))).
           ++ intros w' [Hk Hi]. simpl. apply settled_put. simpl. unfold keys_are in Hk. rewrite Hk.
              unfold E2EEKeyManager.kKeyringSize. rewrite Z.mod_small by by apply Hi. by destruct k.
           ++ intros _. apply settled_then. eauto using VoiceFrame.keeps_persist.
        -- eapply ex_triple_bind.
           ++ eapply ex_triple_conseq; [apply create_key_settled|by intros w' [Hk _]|done..].
           ++ intros [k|]; [|by apply ex_triple_ret].
              eapply ex_triple_skip; [eauto using VoiceFrame.keeps_persist| |done]. intros _.
              apply settled_then. eauto using VoiceFrame.keeps_broadcast.
Qed.

Lemma acquire_settled c u ks : ex_triple (keys_are ks) (ChannelKeyService.acquire_for_join cfg c u)
  (fun r w => match r with
              | Ok k => settled c ks (Some k) w /\ key k <> ""%string
              | Unexpected _ => True
              end) any.
Proof.
  pose proof keys_core as I1. pose proof settled_core as I2. unfold ChannelKeyService.acquire_for_join.
  eapply ex_triple_skip; [apply ex_preserves_gets| |done]. intros cur.
  eapply ex_triple_skip; [apply ex_preserves_gets| |done]. intros empty. cbv zeta.
  eapply (ex_triple_bind _ _ _ (settled c ks)).
  - destruct (negb _ && negb _).
    + eapply ex_triple_skip; [eauto using VoiceFrame.keeps_record_join| |done]. intros debounce.
      apply ex_triple_read. intros w Hw.
      destruct debounce, (E2EEKeyManager.get_key w c) as [k|] eqn:E;
        [apply ex_triple_ret; intros w' [Hk Hg]; split; [intros c' _; by rewrite Hk|by intros ? [= <-]]|..];
        (eapply ex_triple_bind;
         [eapply ex_triple_conseq; [apply rotate_settled|by intros w' [Hk _]|done..]|];
         intros k'; by apply ex_triple_ret).
    + apply ex_triple_read. intros w Hw. destruct (E2EEKeyManager.get_key w c) as [k|] eqn:E.
      * eapply ex_triple_conseq;
          [apply (settled_then c ks (Some k)); eauto using VoiceFrame.keeps_persist| |done..].
        intros w' [Hk Hg]. split; [intros c' _; by rewrite Hk|]. by intros k' [= <-].
      * eapply ex_triple_conseq with (P := keys_are ks) (E := any) (Q := settled c ks); [|by intros w' [Hk _]|done..].
        eapply ex_triple_skip; [eauto using VoiceFrame.keeps_effectively_empty| |done].
        intros es. apply establish_settled.
  - intros [k|]; apply ex_triple_ret; intros w Hw; [|done]. by case_bool_decide.
Qed.

(** The key handed out is the channel's key.  When acquiring a key for a
    joining user succeeds - whether it was in memory, debounced, rotated,
    recovered from Redis or made anew - the key is not empty, it is the key the
    channel now has in memory, and no other channel's key has changed. *)
Theorem acquired_key_is_live c u w k w' :
  ChannelKeyService.acquire_for_join cfg c u w = (Some (Ok k), w') ->
  key k <> ""%string /\ E2EEKeyManager.get_key w' c = Some k /\
  (forall c', c' <> c -> E2EEKeyManager.get_key w' c' = E2EEKeyManager.get_key w c').
Proof.
  intros E. pose proof (acquire_settled c u (e2ee_keys_ w) w eq_refl) as Ha. rewrite E in Ha.
  destruct Ha as [[Ho Hk] Hne]. split_and!; [done|by apply Hk|].
  intros c' Hc. unfold E2EEKeyManager.get_key. by rewrite Ho.
Qed.

(** ** Rotation *)

(** What a member of the channel is sent. *)
Definition key_message (w : W) (h : HubId) (c : ChannelId) (k : ChannelKey) (u : UserId)
  : option (OutgoingMessage VoiceEvent) :=
  match Publisher.owner_conns w u with
  | [] => None
  | conns => Some (make_reliable_outgoing_message conns (EvKeyUpdate h c (key k) (key_index k)))
  end.

Lemma key_update_one h c k u w :
  Publisher.publish_voice_key_update_to_user h c u (key k) (key_index k) w =
  (Some tt, set_outbox (outbox w ++ option_list (key_message w h c k u)) w).
Proof.
  unfold Publisher.publish_voice_key_update_to_user, key_message, ex_bind. simpl.
  destruct (Publisher.owner_conns w u); simpl; [|done]. rewrite app_nil_r. by destruct w.
Qed.

Lemma key_update_loop h c k us : forall w,
  ex_for us (fun p : UserId * VoiceSessions.ParticipantState =>
    Publisher.publish_voice_key_update_to_user h c p.1 (key k) (key_index k)) w =
  (Some tt, set_outbox (outbox w ++ omap (fun p => key_message w h c k p.1) us) w).
Proof.
  induction us as [|[u st] us IH]; intros w; simpl.
  - rewrite app_nil_r. by destruct w.
  - unfold ex_bind. rewrite key_update_one, IH. simpl. rewrite <- app_assoc.
    change (key_message (set_outbox _ w) h c k) with (key_message w h c k).
    by destruct (key_message w h c k u).
Qed.

(** The index after [old]. *)
Definition next_index (old : option ChannelKey) : Z :=
  match old with Some k => (key_index k + 1) `mod` 16 | None => 0 end%Z.

Lemma rotate_key_exact c (w : W) k w' : E2EEKeyManager.rotate_key c w = (Some k, w') ->
  exists raw x, rand_bytes 32 (ext w) = (Some raw, x) /\
    k = mkKey (jwt_base64 raw) (next_index (E2EEKeyManager.get_key w c)) /\
    w' = set_ext x (set_keys (<[c := k]> (e2ee_keys_ w)) w).
Proof.
  unfold E2EEKeyManager.rotate_key, E2EEKeyManager.generate_key, E2EEKeyManager.put_key, ex_bind, on_ext.
  simpl. destruct (rand_bytes 32 (ext w)) as [[raw|] x]; simpl; [|done]. intros [= <- <-].
  exists raw, x. split_and!; [done| |by rewrite insert_insert_eq]. f_equal.
  unfold next_index, E2EEKeyManager.get_key, E2EEKeyManager.kKeyringSize, wrap32.
  destruct (e2ee_keys_ w !! c) as [old|]; simpl; [|done]. case_bool_decide; simpl; [done|].
  apply Z.mod_mod_divide. by exists (two32 / 16)%Z.
Qed.

Lemma persist_ext c k (w : W) :
  exists b x, ChannelKeyService.persist_to_storage cfg c k w = (Some b, set_ext x w).
Proof.
  assert (Hid : w = set_ext (ext w) w) by by destruct w.
  unfold ChannelKeyService.persist_to_storage, ex_bind, on_ext.
  destruct (storage_master_key cfg) as [m|]; [|eexists _, _; by rewrite Hid at 1].
  case_bool_decide; [eexists _, _; by rewrite Hid at 1|].
  destruct (rand_bytes _ _) as [n x]. destruct (n ≫= _); [|by eexists _, _].
  destruct (RedisClient.setex _ _ _ _) as [? x2], (RedisClient.setex _ _ _ _). by eexists _, _.
Qed.

Lemma broadcast_exact c k (w : W) :
  exists r info hs, HubService.getChannel c (hubs w) = (info, hs) /\
    ChannelKeyService.broadcast c k w = (r, set_outbox (outbox w ++
      match info with
      | Some (Some ch) => omap (fun p => key_message w (ch_hub_id ch) c k p.1)
                            (VoiceSessions.participants_in_channel (sessions_ w) c)
      | _ => []
      end) (set_hubs hs w)) /\
    (info = None -> r = None).
Proof.
  unfold ChannelKeyService.broadcast, getChannel, on_hubs, ex_bind at 1.
  destruct (HubService.getChannel c (hubs w)) as [[[ch|]|] hs].
  - unfold Publisher.publish_voice_key_update. unfold ex_bind at 1. simpl.
    rewrite key_update_loop. by eexists _, _, _.
  - eexists _, _, _. split; [done|]. rewrite app_nil_r. by split; [destruct w|].
  - eexists _, _, _. split; [done|]. rewrite app_nil_r. by split; [destruct w|].
Qed.

(** A rotation replaces one key and tells everyone who needs it.  A
    rotation that returns a non-empty key has drawn it from 32 fresh random
    bytes, given it the next index modulo 16 (0 for a first key), made it the
    channel's key, left all other channels' keys and all memberships alone,
    and queued, for every member whose owner session is connected and in the
    order of the listing, one reliable key update with that key to exactly the
    connections of that session, provided the channel's hub is known. *)
Theorem rotation_reaches_members c (w : W) k w' :
  ChannelKeyService.rotate_and_broadcast cfg c w = (Some k, w') -> key k <> ""%string ->
  (exists raw, (rand_bytes 32 (ext w)).1 = Some raw /\ key k = jwt_base64 raw) /\
  key_index k = next_index (E2EEKeyManager.get_key w c) /\
  E2EEKeyManager.get_key w' c = Some k /\
  (forall c', c' <> c -> E2EEKeyManager.get_key w' c' = E2EEKeyManager.get_key w c') /\
  sessions_ w' = sessions_ w /\
  outbox w' = outbox w ++
    match (HubService.getChannel c (hubs w)).1 with
    | Some (Some ch) => omap (fun p => key_message w (ch_hub_id ch) c k p.1)
                          (VoiceSessions.participants_in_channel (sessions_ w) c)
    | _ => []
    end.
Proof.
  unfold ChannelKeyService.rotate_and_broadcast, ex_bind at 1, ex_catch, ex_bind at 1.
  destruct (E2EEKeyManager.rotate_key c w) as [[k1|] w1] eqn:E; simpl; [|intros [= <- _]; done].
  apply rotate_key_exact in E as (raw & x & Hraw & Hk & ->).
  unfold ex_bind at 1. set (w1 := set_ext _ _).
  destruct (persist_ext c k1 w1) as (b & y & ->).
  unfold ex_bind at 1. destruct (broadcast_exact c k1 (set_ext y w1)) as (r & info & hs & Hi & -> & _).
  destruct r; [|done]. intros [= <- <-] Hne. rewrite Hraw. subst w1. simpl in Hi |- *. rewrite Hi.
  split_and!; try done.
  - exists raw. by rewrite Hk.
  - by rewrite Hk.
  - unfold E2EEKeyManager.get_key. simpl. rewrite lookup_insert_eq. by rewrite bool_decide_eq_false_2.
  - intros c' Hc. unfold E2EEKeyManager.get_key. simpl. by rewrite lookup_insert_ne.
Qed.
End Keys.

#[local] Existing Instances VoiceProofs.Sample.json0 VoiceProofs.Sample.crypto0.

(** The first key of Alice's channel, and the one after it. *)
Definition first_key : ChannelKey := mkKey (DemoWorld.letters 32 (chr 81)) 0.
Definition keyed : VoiceProofs.Sample.W :=
  (ChannelKeyService.acquire_for_join VoiceProofs.Sample.cfg0 VoiceProofs.Sample.c0
     VoiceProofs.Sample.u0 VoiceProofs.Sample.w0).2.

Lemma acquired_key_is_live_witness :
  E2EEKeyManager.get_key keyed VoiceProofs.Sample.c0 = Some first_key.
Proof.
  pose proof (acquired_key_is_live VoiceProofs.Sample.cfg0 VoiceProofs.Sample.c0
    VoiceProofs.Sample.u0 VoiceProofs.Sample.w0 first_key keyed) as Ha.
  apply Ha. vm_compute. reflexivity.
Defined.

Lemma rotation_reaches_members_witness :
  let w' := (ChannelKeyService.rotate_and_broadcast VoiceProofs.Sample.cfg0
               VoiceProofs.Sample.c0 keyed).2 in
  E2EEKeyManager.get_key w' VoiceProofs.Sample.c0 = Some (mkKey (DemoWorld.letters 32 (chr 82)) 1) /\
  sessions_ w' = sessions_ keyed.
Proof.
  pose proof (rotation_reaches_members VoiceProofs.Sample.cfg0 VoiceProofs.Sample.c0 keyed
    (mkKey (DemoWorld.letters 32 (chr 82)) 1)
    (ChannelKeyService.rotate_and_broadcast VoiceProofs.Sample.cfg0 VoiceProofs.Sample.c0 keyed).2) as Hr.
  destruct Hr as (_ & _ & Hk & _ & Hs & _); [vm_compute; reflexivity|done|].
  split; [exact Hk|exact Hs].
Defined.
End KeyProofs.
