(* ===== verification/VoiceRecovery.v ===== *)
(** * Restart recovery and token metadata

    [VoiceService::recover_from_restart] rebuilds membership from what LiveKit
    still has; the metadata a join token carries is what webhooks and recovery
    read back. *)

From S2P Require Import Prelude.
From S2P Require Import CStrings.
From S2P Require Import Ids.
From S2P Require Import Protocol.
From S2P Require Import OutboundMsg.
From S2P Require Import SessionManager.
From S2P Require Import SubscriptionManager.
From S2P Require Import VoiceSessions.
From S2P Require Import Evidence.
From S2P Require Import NodeRegistry.
From S2P Require Import HubService.
From S2P Require Import HubCoherence.
From S2P Require Import External.
From S2P Require Import VoiceWorld.
From S2P Require Import VoiceStores.
From S2P Require Import ChannelKeys.
From S2P Require Import VoiceService.
From S2P Require Import VoiceFrame.
From S2P Require Import VoiceProofs.
From S2P Require Import VoiceHandlers.
Import VoiceProofs VoiceHandlers.

Module VoiceRecovery.

(** ** Calls that always return *)

Definition total {S A} (m : EX S A) : Prop := forall s, is_Some (m s).1.

Lemma total_ret {S A} (a : A) : total (S := S) (ex_ret a).
Proof. intros s. by eexists. Qed.
Lemma total_gets {S A} (f : S -> A) : total (ex_gets f).
Proof. intros s. by eexists. Qed.
Lemma total_modify {S} (f : S -> S) : total (ex_modify f).
Proof. intros s. by eexists. Qed.
Lemma total_bind {S A B} (m : EX S A) (k : A -> EX S B) :
  total m -> (forall a, total (k a)) -> total (ex_bind m k).
Proof.
  intros Hm Hk s. unfold ex_bind. destruct (Hm s) as [a Ha]. destruct (m s) as [r s']. simpl in Ha.
  subst r. apply Hk.
Qed.
Lemma total_for {S A} (l : list A) (body : A -> EX S unit) :
  (forall a, total (body a)) -> total (ex_for l body).
Proof. intros Hb. induction l; simpl; [apply total_ret|by apply total_bind]. Qed.
Lemma total_catch {S A} (m h : EX S A) : total h -> total (ex_catch m h).
Proof. intros Hh s. unfold ex_catch. destruct (m s) as [[a|] s']; [by eexists|apply Hh]. Qed.
Lemma total_ext {X D A} (m : ST X A) : total (S := World X D) (on_ext m).
Proof. intros w. unfold on_ext. destruct (m (ext w)). by eexists. Qed.
Lemma total_sessions {X D A} (f : VoiceSessions.t -> A * VoiceSessions.t) :
  total (S := World X D) (on_sessions f).
Proof. intros w. unfold on_sessions. destruct (f (sessions_ w)). by eexists. Qed.

Ltac total :=
  repeat match goal with
  | |- total (ex_bind _ _) => apply total_bind; [|intros ?]
  | |- total (ex_ret _) => apply total_ret
  | |- total (ex_gets _) => apply total_gets
  | |- total (ex_modify _) => apply total_modify
  | |- total (on_ext _) => apply total_ext
  | |- total (on_sessions _) => apply total_sessions
  | |- total (on_nodes _) => apply total_modify
  | |- total (ex_catch _ _) => apply total_catch
  | |- total (ex_for _ _) => apply total_for; intros ?
  | |- total (if ?b then _ else _) => destruct b
  | |- total (match ?x with _ => _ end) => destruct x
  end.

Section Recovery.
Context {X D : Type} `{External X} {H0 : HubRepo D} `{JsonLib} `{Crypto}.
Variable cfg : VoiceConfig.

Abbreviation W := (World X D).

Lemma total_recover_participant r n t p : total (VoiceService.recover_participant (X := X) (D := D) r n t p).
Proof using.
  unfold VoiceService.recover_participant, VoiceService.next_recovery_session_id,
    VoiceService.set_channel_started_at_unix, Resume.read, Resume.load_from_storage, Resume.rotate.
  total.
Qed.

Lemma total_recover_participants r n t ps : forall users,
  total (VoiceService.recover_participants (X := X) (D := D) r n t ps users).
Proof using.
  induction ps as [|p ps IH]; intros users; simpl; total; auto using total_recover_participant.
Qed.

Lemma total_recover_room n t r acc : total (VoiceService.recover_room (X := X) (D := D) cfg n t r acc).
Proof using.
  unfold VoiceService.recover_room, VoiceService.assign_room, VoiceService.set_channel_started_at_unix,
    ChannelKeyService.query_node, ChannelKeyService.restore_key_for_recovery,
    ChannelKeyService.load_from_storage, ChannelKeyService.persist_to_storage,
    E2EEKeyManager.set_key, E2EEKeyManager.put_key.
  total; auto using total_recover_participants.
Qed.

Lemma total_recover_rooms n t rs : forall acc,
  total (VoiceService.recover_rooms (X := X) (D := D) cfg n t rs acc).
Proof using. induction rs; intros acc; simpl; total; auto using total_recover_room. Qed.

Lemma total_recover_nodes ns t : forall acc,
  total (VoiceService.recover_nodes (X := X) (D := D) cfg ns t acc).
Proof using. induction ns; intros acc; simpl; total; auto using total_recover_rooms. Qed.

Lemma total_recover : total (VoiceService.recover_from_restart (X := X) (D := D) cfg).
Proof using.
  unfold VoiceService.recover_from_restart, VoiceService.reset_for_recovery, Resume.clear_all.
  total. apply total_recover_nodes.
Qed.

(** ** Membership after recovery *)

(** A participant LiveKit lists, with its room. *)
Abbreviation listing := (ChannelId * ParticipantInfo)%type.

(** The first entry of a user in a list; entries without an identity count for
    nobody. *)
Definition listed_first (u : UserId) (l : list listing) : option listing :=
  head (filter (fun e => identity e.2 = u /\ user_value u <> ""%string) l).

(** The users seen in a list, each with its first entry. *)
Definition see (seen : gmap UserId listing) (e : listing) : gmap UserId listing :=
  if bool_decide (user_value (identity e.2) = ""%string) then seen
  else match seen !! identity e.2 with Some _ => seen | None => <[identity e.2 := e]> seen end.
Definition see_all (seen : gmap UserId listing) (l : list listing) : gmap UserId listing := foldl see seen l.

Lemma see_all_lookup l : forall seen u,
  see_all seen l !! u = match seen !! u with Some e => Some e | None => listed_first u l end.
Proof using.
  unfold see_all, listed_first. induction l as [|e l IH]; intros seen u; simpl; [by destruct (seen !! u)|].
  rewrite IH, filter_cons. unfold see. case_bool_decide as He.
  - rewrite (decide_False (P := identity e.2 = u /\ _)); [done|]. intros [<- Hne]. done.
  - destruct (decide (identity e.2 = u)) as [<-|Hne].
    + destruct (seen !! identity e.2) as [x|] eqn:E; [by rewrite E|].
      rewrite lookup_insert_eq, decide_True by done. done.
    + rewrite (decide_False (P := identity e.2 = u /\ _)) by naive_solver.
      destruct (seen !! identity e.2); [done|]. by rewrite lookup_insert_ne.
Qed.

(** The session a participant's token names owns its row, if it names one. *)
Definition owner_of (p : ParticipantInfo) (s : Z) : Prop :=
  let named := md_app_session_id (VoiceService.parse_participant_metadata (metadata p)) in
  named <> 0%Z -> s = named.

(** The table has exactly the users of [seen], each in its room, unmuted. *)
Definition lists_users (seen : gmap UserId listing) (tbl : VoiceSessions.Table) : Prop :=
  forall u, match tbl !! u with
            | Some x => exists p, seen !! u = Some (VoiceSessions.e_channel x, p) /\
                        VoiceSessions.e_state x = VoiceSessions.default_state /\
                        owner_of p (VoiceSessions.e_owner x)
            | None => seen !! u = None
            end.

Definition rebuilt (seen : gmap UserId listing) (w : W) : Prop :=
  exists tbl, tracks tbl w /\ lists_users seen tbl.

Lemma rebuilt_core users w w' : VoiceFrame.same_core w w' -> rebuilt users w -> rebuilt users w'.
Proof using. intros Hc (tbl & R & Hl). exists tbl. split; [by eapply tracks_core|done]. Qed.

Abbreviation any := (fun _ : W => True).

Lemma session_triple {A} (f : VoiceSessions.t -> A * VoiceSessions.t) o tbl :
  (forall v, (f v).2 = (VoiceSessions.step v o).2) ->
  ex_triple (tracks tbl) (on_sessions f) (fun _ => tracks (VoiceSessions.spec_step tbl o).2) any.
Proof using.
  intros Hf w R. destruct (VoiceSessions.step_repr _ _ R o) as [_ R']. rewrite <- Hf in R'.
  unfold on_sessions. by destruct (f (sessions_ w)).
Qed.

Ltac session_op o :=
  eapply ex_triple_bind;
  [apply (session_triple _ o); intros v; cbn [VoiceSessions.step];
   match goal with |- (?x).2 = _ => by destruct x end|];
  intros ?; cbn [VoiceSessions.spec_step snd].

Lemma recover_participant_row r n t p tbl seen :
  lists_users seen tbl -> seen !! identity p = None ->
  ex_triple (tracks tbl) (VoiceService.recover_participant r n t p)
    (fun _ => rebuilt (<[identity p := (r, p)]> seen)) any.
Proof using H0.
  intros Hl Hn. pose proof (tracks_core (X := X) (D := D)) as I1. pose proof rebuilt_core as I2.
  pose proof (Hl (identity p)) as Hu. rewrite Hn in Hu.
  unfold VoiceService.recover_participant, Resume.read. cbv zeta.
  eapply ex_triple_bind with (Q := fun s w => tracks tbl w /\ owner_of p s).
  { unfold owner_of, VoiceService.next_recovery_session_id.
    destruct (Z.eqb_spec (md_app_session_id (VoiceService.parse_participant_metadata (metadata p))) 0) as [->|];
      simpl; intros w Hw; by split. }
  intros s. apply ex_triple_pure. intros Howner.
  session_op (VoiceSessions.OpJoin r (identity p) s).
  session_op (VoiceSessions.OpMute (identity p) false).
  session_op (VoiceSessions.OpDeafen (identity p) false).
  assert (Hc : VoiceSessions.carry tbl (identity p) s = VoiceSessions.default_state).
  { unfold VoiceSessions.carry. destruct (tbl !! identity p) as [x|]; [|done]. destruct Hu as (? & Hx & _). congruence. }
  rewrite Hc, !lookup_insert_eq. simpl. rewrite lookup_insert_eq, insert_insert_eq. simpl.
  eapply ex_triple_conseq with (P := rebuilt (<[identity p := (r, p)]> seen)).
  - apply ex_triple_keeps. unfold VoiceService.set_channel_started_at_unix. ex_split;
      eauto using VoiceFrame.keeps_nodes, VoiceFrame.keeps_resume_load, VoiceFrame.keeps_resume_rotate.
    apply VoiceFrame.keeps_modify; [eauto|by split].
  - intros w R. eexists. split; [exact R|]. intros u. rewrite !lookup_insert.
    case_decide; [by exists p|]. apply Hl.
  - done.
  - done.
Qed.

(** The answer of a stage: its users are those of [seen']. *)
Definition users_are (seen' : gmap UserId listing) (users : gmap UserId ChannelId) (w : W) : Prop :=
  rebuilt seen' w /\ users = fst <$> seen'.

Lemma recover_participants_rows r n t ps : forall seen,
  ex_triple (rebuilt seen) (VoiceService.recover_participants r n t ps (fst <$> seen))
    (users_are (see_all seen ((fun p => (r, p)) <$> ps))) any.
Proof using H0.
  induction ps as [|p ps IH]; intros seen; simpl; [by apply ex_triple_ret|].
  change (see_all seen ((r, p) :: ((fun p => (r, p)) <$> ps)))
    with (see_all (see seen (r, p)) ((fun p => (r, p)) <$> ps)).
  unfold see. simpl. case_bool_decide; [apply IH|]. rewrite lookup_fmap.
  destruct (seen !! identity p) eqn:E; simpl; [apply IH|].
  eapply (ex_triple_bind _ _ _ (fun _ => rebuilt (<[identity p := (r, p)]> seen))).
  - intros w (tbl & R & Hl). by apply (recover_participant_row r n t p tbl seen Hl E w).
  - intros []. rewrite <- (fmap_insert fst seen (identity p) (r, p)). apply IH.
Qed.

(** *** What LiveKit answers *)

(** LiveKit answers the same throughout: [rooms_on host] to the listing of the
    rooms and [members_on host c] to that of a room's participants; [None] is
    an answer that throws. *)
Variable rooms_on : string -> option (list RoomInfo).
Variable members_on : string -> ChannelId -> option (list ParticipantInfo).

Definition steady : Prop :=
  (forall host x, (LivekitClient.ListRooms (LivekitClient.mk host (cfg_tokens cfg)) x).1 = rooms_on host) /\
  (forall host c x, (LivekitClient.ListParticipants (LivekitClient.mk host (cfg_tokens cfg)) c x).1 =
     members_on host c).

(** Everybody LiveKit lists: node by node, room by room. *)
Definition listed_room (host : string) (c : ChannelId) : list listing :=
  (fun p => (c, p)) <$> default [] (members_on host c).
Definition listed_node (host : string) : list listing :=
  default [] (rooms_on host) ≫= (fun r => listed_room host (room r)).
Definition listed (hosts : list string) : list listing := hosts ≫= listed_node.

(** A stage that has seen [seen] and then sees [l], if LiveKit is steady. *)
Definition stage (seen : gmap UserId listing) (l : list listing) (users : gmap UserId ChannelId) (w : W)
  : Prop :=
  exists seen', users_are seen' users w /\ (steady -> seen' = see_all seen l).

Lemma see_all_app seen l l' : see_all seen (l ++ l') = see_all (see_all seen l) l'.
Proof using. apply foldl_app. Qed.

Lemma stage_bind {A} seen l l' (users : A -> gmap UserId ChannelId) (m : EX W A) (k : A -> EX W A) :
  ex_triple (rebuilt seen) m (fun a => stage seen l (users a)) any ->
  (forall a seen', users a = fst <$> seen' ->
     ex_triple (rebuilt seen') (k a) (fun a' => stage seen' l' (users a')) any) ->
  ex_triple (rebuilt seen) (ex_bind m k) (fun a' => stage seen (l ++ l') (users a')) any.
Proof using.
  intros Hm Hk. eapply ex_triple_bind; [exact Hm|]. intros a w (seen' & [Hw Hu] & Hs).
  pose proof (Hk a seen' Hu w Hw) as Hk'. destruct (k a w) as [[a'|] w']; [|done].
  destruct Hk' as (seen2 & Hu2 & Hs2). exists seen2. split; [done|]. intros Hst.
  by rewrite Hs2, Hs, see_all_app.
Qed.

Lemma stage_ret {A} seen (users : A -> gmap UserId ChannelId) a :
  users a = fst <$> seen -> ex_triple (rebuilt seen) (ex_ret a) (fun a => stage seen [] (users a)) any.
Proof using. intros Hu. apply ex_triple_ret. intros w Hw. by exists seen. Qed.

Lemma query_steady (host : string) c seen :
  ex_triple (rebuilt seen) (ChannelKeyService.query_node cfg host c)
    (fun a w => rebuilt seen w /\ (steady -> a = members_on host c)) any.
Proof using H0.
  intros w Hw. pose proof rebuilt_core as I2.
  pose proof (VoiceFrame.keeps_query cfg (rebuilt seen) (I2 seen) host c w Hw) as Hk. revert Hk.
  unfold ChannelKeyService.query_node, ex_catch, ex_bind, on_ext_ex.
  destruct (LivekitClient.ListParticipants _ c (ext w)) as [[ps|] x] eqn:E; simpl; intros Hk;
    (split; [exact Hk|]); intros [_ Hm]; by rewrite <- (Hm host c (ext w)), E.
Qed.

Lemma recover_room_rows n t r acc seen :
  acc.2 = fst <$> seen ->
  ex_triple (rebuilt seen) (VoiceService.recover_room cfg n t r acc)
    (fun a => stage seen (listed_room (NodeRegistry.private_host n) r) a.2) any.
Proof using H0.
  intros Hacc. pose proof rebuilt_core as I2. unfold VoiceService.recover_room, VoiceService.assign_room.
  cbv zeta. eapply ex_triple_skip; [| |done].
  { ex_split; eauto using VoiceFrame.keeps_nodes, VoiceFrame.keeps_started. }
  intros _. eapply ex_triple_bind; [apply query_steady|]. intros a. apply ex_triple_pure. intros Hans.
  unfold listed_room. destruct a as [ps|].
  2:{ apply ex_triple_ret. intros w Hw. exists seen. split; [done|]. intros Hst.
      by rewrite <- (Hans Hst). }
  eapply ex_triple_skip; [apply ex_preserves_gets| |done]. intros assigned.
  eapply ex_triple_skip; [ex_split; eauto using VoiceFrame.keeps_nodes| |done]. intros _.
  eapply ex_triple_skip; [| |done].
  { ex_split. apply VoiceFrame.keeps_restore; [eauto|]. done. }
  intros _. rewrite Hacc. eapply ex_triple_bind; [apply recover_participants_rows|]. intros users.
  apply ex_triple_ret. intros w Hw. eexists. split; [exact Hw|]. intros Hst. by rewrite <- (Hans Hst).
Qed.

Lemma recover_rooms_rows n t rs : forall acc seen,
  acc.2 = fst <$> seen ->
  ex_triple (rebuilt seen) (VoiceService.recover_rooms cfg n t rs acc)
    (fun a => stage seen (rs ≫= (fun r => listed_room (NodeRegistry.private_host n) (room r))) a.2) any.
Proof using H0.
  induction rs as [|r rs IH]; intros acc seen Hacc; simpl; [by apply stage_ret|].
  apply (stage_bind _ _ _ snd); [by apply recover_room_rows|]. intros a seen'. apply IH.
Qed.

Lemma recover_nodes_rows ns t : forall acc seen,
  acc.2 = fst <$> seen ->
  ex_triple (rebuilt seen) (VoiceService.recover_nodes cfg ns t acc)
    (fun a => stage seen (listed (NodeRegistry.private_host <$> ns)) a.2) any.
Proof using H0.
  pose proof rebuilt_core as I2. induction ns as [|n ns IH]; intros acc seen Hacc; [by apply stage_ret|].
  intros w Hw. cbn [VoiceService.recover_nodes fmap list_fmap]. unfold listed. cbn [mbind list_bind].
  unfold ex_bind at 1, ex_catch, ex_bind at 1, on_ext_ex at 1.
  destruct (LivekitClient.ListRooms (VoiceService.client cfg n) (ext w)) as [rooms x] eqn:E.
  assert (Hw' : rebuilt seen (set_ext x w)) by exact Hw.
  assert (Hrooms : steady -> rooms = rooms_on (NodeRegistry.private_host n)).
  { intros [Hr _]. rewrite <- (Hr _ (ext w)). unfold VoiceService.client in E. by rewrite E. }
  assert (Hnode : ex_triple (rebuilt seen)
    (match rooms with Some rs => VoiceService.recover_rooms cfg n t rs acc | None => ex_ret acc end)
    (fun a => stage seen (default [] rooms ≫= (fun r => listed_room (NodeRegistry.private_host n) (room r))) a.2)
    any) by (destruct rooms; [by apply recover_rooms_rows|by apply stage_ret]).
  assert (Hall := stage_bind _ _ (listed (NodeRegistry.private_host <$> ns)) snd _
    (VoiceService.recover_nodes cfg ns t) Hnode (fun a seen' => IH a seen') _ Hw').
  assert (Hstage : forall users w1, stage seen ((default [] rooms ≫= (fun r =>
      listed_room (NodeRegistry.private_host n) (room r))) ++ listed (NodeRegistry.private_host <$> ns)) users w1 ->
    stage seen (listed_node (NodeRegistry.private_host n) ++ listed (NodeRegistry.private_host <$> ns)) users w1).
  { intros users w1 (seen' & Hu & Hs). exists seen'. split; [done|]. intros Hst. rewrite (Hs Hst).
    unfold listed_node. by rewrite <- (Hrooms Hst). }
  destruct rooms as [rs|]; simpl in Hall |- *.
  all: match goal with |- context [ex_bind ?m ?k ?w1] => destruct (ex_bind m k w1) as [[a|] w2]; [|done] end.
  all: by apply Hstage.
Qed.

(** The hosts of the nodes, in their order. *)
Definition hosts (n : NodeRegistry.t) : list string := NodeRegistry.private_host <$> NodeRegistry.list_nodes n.

Lemma clear_room_hosts n c : hosts (NodeRegistry.clear_room n c) = hosts n.
Proof using.
  unfold hosts, NodeRegistry.list_nodes, NodeRegistry.clear_room. simpl.
  assert (Hl : forall id, NodeRegistry.private_host <$> NodeRegistry.uncount n c !! id =
    NodeRegistry.private_host <$> NodeRegistry.nodes_ n !! id).
  { intros id. unfold NodeRegistry.uncount. destruct (NodeRegistry.counted_room_to_node_ n !! c) as [o|]; [|done].
    destruct (decide (o = id)) as [->|Hne]; [rewrite lookup_alter_eq|by rewrite lookup_alter_ne].
    destruct (NodeRegistry.nodes_ n !! id) as [node|]; [|done]. unfold NodeRegistry.dec_rooms.
    simpl. by destruct (0 <? NodeRegistry.active_rooms node)%Z. }
  induction (NodeRegistry.node_order_ n) as [|id ids IH]; [done|]. csimpl. specialize (Hl id).
  destruct (NodeRegistry.uncount n c !! id), (NodeRegistry.nodes_ n !! id); simplify_eq/=; by rewrite ?IH; f_equal.
Qed.

(** Clearing channels leaves the rows of the others, and the nodes. *)
Lemma clear_loop hs cs : forall tbl,
  ex_triple (fun w => tracks tbl w /\ hosts (nodes_ w) = hs)
    (ex_for cs (fun c => on_sessions (fun v => VoiceSessions.clear_channel v c);;;
                         on_nodes (fun n => NodeRegistry.clear_room n c))%ex)
    (fun _ w => hosts (nodes_ w) = hs /\ exists tbl', tracks tbl' w /\
       forall u x, tbl' !! u = Some x -> tbl !! u = Some x /\ VoiceSessions.e_channel x ∉ cs) any.
Proof using H0.
  pose proof (tracks_core (X := X) (D := D)) as I1.
  induction cs as [|c cs IH]; intros tbl; simpl.
  - apply ex_triple_ret. intros w [R Hh]. split; [done|]. exists tbl. split; [done|].
    intros u x Hx. split; [done|set_solver].
  - set (tbl1 := (VoiceSessions.spec_step tbl (VoiceSessions.OpClear c)).2).
    eapply (ex_triple_bind _ _ _ (fun _ w => tracks tbl1 w /\ hosts (nodes_ w) = hs)).
    + intros w [R Hh]. pose proof (session_triple (fun v => VoiceSessions.clear_channel v c)
        (VoiceSessions.OpClear c) tbl) as Hs.
      specialize (Hs ltac:(intros v; cbn [VoiceSessions.step]; by destruct (VoiceSessions.clear_channel v c)) w R).
      unfold ex_bind, on_sessions in *. destruct (VoiceSessions.clear_channel (sessions_ w) c) as [a v].
      split; [exact Hs|]. simpl. by rewrite clear_room_hosts.
    + intros _. eapply ex_triple_conseq; [apply (IH tbl1)|intros w Hw; exact Hw| |done].
      intros _ w (Hh & tbl' & R & Hsub). split; [done|]. exists tbl'. split; [done|]. intros u x Hx.
      apply Hsub in Hx as [Hx Hc]. apply map_lookup_filter_Some in Hx as [Hx He]. simpl in He.
      split; [done|]. set_solver.
Qed.

Lemma total_clear_loop cs : total (S := W)
  (ex_for cs (fun c => on_sessions (fun v => VoiceSessions.clear_channel v c);;;
                       on_nodes (fun n => NodeRegistry.clear_room n c))%ex).
Proof using. total. Qed.

Lemma reset_forgets w tbl : tracks tbl w -> exists w', VoiceService.reset_for_recovery w = (Some tt, w') /\
  rebuilt ∅ w' /\ hosts (nodes_ w') = hosts (nodes_ w).
Proof using H0.
  intros R. unfold VoiceService.reset_for_recovery. rewrite handler_gets.
  set (cs := VoiceSessions.active_channels (sessions_ w)). pose proof (clear_loop (hosts (nodes_ w)) cs tbl w (conj R eq_refl)) as Hl.
  destruct (total_clear_loop cs w) as [[] Hs].
  unfold ex_bind at 1. destruct (ex_for _ _ w) as [r w1]. simpl in Hs. subst r. eexists. split; [done|].
  destruct Hl as (Hh & tbl' & R' & Hsub). split; [|exact Hh]. exists tbl'. split; [exact R'|]. intros u.
  destruct (tbl' !! u) as [x|] eqn:E; [|done]. apply Hsub in E as [E Hc]. exfalso. apply Hc.
  destruct (VoiceSessions.queries_repr _ _ R) as (_ & _ & _ & Qa & _). apply Qa. eauto.
Qed.

(** C23: recovery rebuilds membership from LiveKit alone.  Whatever was tracked
    before and whatever LiveKit and Redis answer or fail to answer, recovery
    returns.  If LiveKit answers the same while it runs, the users in voice
    afterwards are exactly those it lists, each in the room of its first entry,
    node by node and room by room - rooms and nodes whose listing fails count
    as empty -, owned by the session the participant's token names, if it names
    one, and neither muted nor deafened.  The answer names the same users and
    rooms. *)
Theorem recovery_rebuilds_membership (w : W) :
  voice_inv w ->
  exists rooms users w', VoiceService.recover_from_restart cfg w = (Some (rooms, users), w') /\
    (forall u, VoiceSessions.user_channel (sessions_ w') u = users !! u) /\
    (forall c u st, (u, st) ∈ VoiceSessions.participants_in_channel (sessions_ w') c <->
       users !! u = Some c /\ st = VoiceSessions.default_state) /\
    (steady -> forall u,
       match listed_first u (listed (hosts (nodes_ w))) with
       | Some (c, p) => VoiceSessions.user_channel (sessions_ w') u = Some c /\
           exists s, VoiceSessions.user_session (sessions_ w') u = Some s /\ owner_of p s
       | None => VoiceSessions.user_channel (sessions_ w') u = None
       end).
Proof using H0.
  intros [[tbl R] _]. destruct (reset_forgets w tbl R) as (w1 & Hr & Hb & Hh).
  destruct (total_recover w) as [[rooms users] Hret].
  destruct (VoiceService.recover_from_restart cfg w) as [r w'] eqn:E. simpl in Hret. subst r.
  exists rooms, users, w'. split; [done|]. unfold VoiceService.recover_from_restart in E.
  unfold ex_bind at 1 in E. rewrite Hr, bind_ext, handler_gets in E.
  set (w2 := set_ext _ w1) in E. assert (Hb2 : rebuilt ∅ w2) by exact Hb.
  pose proof (recover_nodes_rows (NodeRegistry.list_nodes (nodes_ w2)) (unix_now_seconds (ext w1)).1
    (∅, ∅) ∅ (eq_sym (fmap_empty fst)) w2 Hb2) as Ht.
  rewrite E in Ht. destruct Ht as (seen & [(tbl' & R' & Hl) Hu] & Hst). simpl in Hu.
  change (NodeRegistry.private_host <$> NodeRegistry.list_nodes (nodes_ w2)) with (hosts (nodes_ w1)) in Hst.
  rewrite Hh in Hst. destruct (VoiceSessions.queries_repr _ _ R') as (Qc & Qs & Qp & _).
  assert (Hrow : forall u, users !! u = VoiceSessions.e_channel <$> tbl' !! u).
  { intros u. specialize (Hl u). rewrite Hu, lookup_fmap.
    by destruct (tbl' !! u); [destruct Hl as (p & -> & _)|rewrite Hl]. }
  split_and!.
  - intros u. by rewrite Qc, Hrow.
  - intros c u st. rewrite Qp, Hrow. specialize (Hl u). destruct (tbl' !! u) as [x|]; [|naive_solver].
    destruct Hl as (p & _ & Hd & _). simpl. naive_solver.
  - intros Hsteady u. pose proof (see_all_lookup (listed (hosts (nodes_ w))) ∅ u) as Hs.
    rewrite lookup_empty, <- (Hst Hsteady) in Hs. rewrite <- Hs, Qc, Qs. specialize (Hl u).
    destruct (tbl' !! u) as [x|]; [|by rewrite Hl]. destruct Hl as (p & -> & _ & Ho). simpl. eauto.
Qed.

(** ** Token metadata *)

(** What a join token says about its holder is what comes back.  The
    metadata of a minted participant token, read back by the webhook and
    recovery code through a JSON library that parses what it printed, gives
    the node, the session and the intent nonce of the request, for every
    session id of 64 bits. *)
Theorem token_metadata_round_trip (ts : TokenService.t) req now raw :
  cl_metadata (TokenService.participant_claims ts req now) = Some raw -> raw <> ""%string ->
  json_parse (picojson_serialize (TokenService.metadata_json req)) =
    Some (TokenService.metadata_json req) ->
  (0 <= TokenService.req_app_session_id req < two64)%Z ->
  VoiceService.parse_participant_metadata raw =
  mkMeta (TokenService.req_node_id req) (TokenService.req_app_session_id req)
    (TokenService.req_intent_nonce req) true.
Proof using.
  intros [= <-] Hne Hp Hs. unfold VoiceService.parse_participant_metadata.
  rewrite bool_decide_eq_false_2, Hp by done. unfold TokenService.metadata_json.
  unfold VoiceService.metadata_session, string_field, field.
  rewrite !lookup_insert_eq, !(lookup_insert_ne _ "node_id" "app_session_id")%string,
    !(lookup_insert_ne _ "node_id" "intent_nonce")%string, lookup_insert_eq,
    !(lookup_insert_ne _ "app_session_id" "intent_nonce")%string, lookup_insert_eq by done.
  simpl. by rewrite stoull_to_string.
Qed.
End Recovery.

Definition demo_request : TokenService.ParticipantTokenRequest :=
  TokenService.mkRequest Sample.u0 Sample.c0 "n1" 7 "nonce" true true 600.
Definition demo_json : JsonLib := {|
  json_parse := fun _ => Some (TokenService.metadata_json demo_request);
  json_dump := fun _ => ""%string; picojson_serialize := fun _ => "{}"%string |}.

Lemma token_metadata_round_trip_witness :
  VoiceService.parse_participant_metadata (H1 := demo_json) "{}" = mkMeta "n1" 7 "nonce" true.
Proof.
  apply (token_metadata_round_trip (H1 := demo_json) (TokenService.mk "k" "s") demo_request 0).
  - reflexivity.
  - done.
  - reflexivity.
  - done.
Defined.

(** A LiveKit node that lists one room with Bob, whose token names session 7,
    and with Carol, whose token names none; Alice was in voice before the
    restart. *)
Module Listing.

(** Every request is answered with its own body. *)
#[local] Instance echo : External DemoWorld.t := {|
  redis_setex := redis_setex; redis_setnx := redis_setnx; redis_expire := redis_expire;
  redis_get := redis_get; redis_del := redis_del; redis_ttl := redis_ttl;
  http_post := fun _ _ body x => (mkHttp false 200 body, x);
  rand_bytes := rand_bytes; rng_next := rng_next; steady_now := steady_now;
  unix_now_seconds := unix_now_seconds; unix_now_ms := unix_now_ms; unix_now_us := unix_now_us |}.

Definition person (id md : string) : json :=
  JObject (<["identity" := JString id]> {["metadata" := JString md]})%string.
Definition json1 : JsonLib := {|
  json_parse := fun text =>
    if bool_decide (text = "{}")%string
    then Some (JObject {["rooms" := JArray [JObject {["name" := JString "c0"]}]]}%string)
    else if bool_decide (text = "doc")%string
    then Some (JObject {["participants" := JArray [person "bob" "seven"; person "carol" ""]]}%string)
    else if bool_decide (text = "seven")%string
    then Some (JObject {["app_session_id" := JString "7"]}%string)
    else None;
  json_dump := fun _ => "doc"%string; picojson_serialize := fun _ => "{}"%string |}.

Definition bob : UserId := mkUserId "bob".
Definition rooms_on (host : string) : option (list RoomInfo) := Some [mkRoom Sample.c0 0].
Definition members_on (host : string) (c : ChannelId) : option (list ParticipantInfo) :=
  Some [mkParticipant bob "" "seven" false; mkParticipant (mkUserId "carol") "" "" false].

End Listing.

Lemma recovery_rebuilds_membership_witness :
  let w' := (VoiceService.recover_from_restart (H := Listing.echo) (H1 := Listing.json1)
    (H2 := Sample.crypto0) Sample.cfg0 Sample.w0).2 in
  VoiceSessions.user_channel (sessions_ w') Sample.u0 = None /\
  VoiceSessions.user_channel (sessions_ w') Listing.bob = Some Sample.c0 /\
  VoiceSessions.user_session (sessions_ w') Listing.bob = Some 7%Z.
Proof.
  destruct (recovery_rebuilds_membership (H := Listing.echo) (H1 := Listing.json1) (H2 := Sample.crypto0)
    Sample.cfg0 Listing.rooms_on Listing.members_on Sample.w0 sample_inv) as (rooms & users & w' & E & _ & _ & Hs).
  cbv zeta. rewrite E. cbn [snd].
  assert (Hsteady : steady (H := Listing.echo) (H1 := Listing.json1) (H2 := Sample.crypto0)
    Sample.cfg0 Listing.rooms_on Listing.members_on).
  { split; intros; reflexivity. }
  set (l := listed Listing.rooms_on Listing.members_on (hosts (nodes_ Sample.w0))) in Hs.
  assert (Ha : listed_first Sample.u0 l = None) by (vm_compute; reflexivity).
  assert (Hb : listed_first Listing.bob l = Some (Sample.c0, mkParticipant Listing.bob "" "seven" false))
    by (vm_compute; reflexivity).
  pose proof (Hs Hsteady Sample.u0) as Halice. pose proof (Hs Hsteady Listing.bob) as Hbob.
  rewrite Ha in Halice. rewrite Hb in Hbob. destruct Hbob as [Hbob (s & Hsession & Ho)].
  split; [exact Halice|]. split; [exact Hbob|]. rewrite Hsession. f_equal. apply Ho.
  vm_compute. discriminate.
Defined.
End VoiceRecovery.
