(* ===== verification/ServerEvents.v ===== *)
(** * Users, messages and the events sent to clients

    The structs of [domains/User.h] and [domains/Message.h], and the server
    messages of [proto/event/*.proto] and [proto/domain/*.proto] as data: what a
    command sends, before the protobuf runtime serializes it.  A field that is
    never set reads as its default; a sub-message is an [option] where the code
    sets it only sometimes. *)

From S2P Require Import Prelude.
From S2P Require Import Ids.
From S2P Require Import Protocol.

(** ** Domain structs *)

Record UserPreferences := mkUserPreferences {
  notifications_enabled : bool; sound_enabled : bool; preferred_language : string }.

Definition default_prefs : UserPreferences := mkUserPreferences true true "en".

Record User := mkUser {
  us_id : UserId; us_username : string; us_display_name : string; us_avatar_seed : string;
  us_prefs : UserPreferences }.

Module Domain.

Inductive MessageType := Chat | System.
Inductive MessageStatus := PENDING | SENT | DELIVERED | READ | FAILED | BLOCKED.
Inductive MessageAttachmentKind := IMAGE | FILE.

#[global] Instance MessageAttachmentKind_eq_dec : EqDecision MessageAttachmentKind.
Proof. solve_decision. Defined.

Record MessageAttachment := mkAttachment {
  ma_id : string; ma_kind : MessageAttachmentKind; ma_storage_bucket : string;
  ma_storage_key : string; ma_mime_type : string; ma_display_name : string;
  ma_size_bytes : Z }.

Record MessageLinkPreview := mkPreview {
  ml_url : string; ml_title : string; ml_description : string; ml_site_name : string;
  ml_image_url : string }.

Record MessageCursor := mkCursor { mc_seq : Z; mc_id : MessageId; mc_created_at : Z }.

Record Message := mkMessage {
  m_id : MessageId; m_ch_id : ChannelId; m_sender_id : UserId; m_type : MessageType;
  m_text : string; m_attachments : list MessageAttachment;
  m_link_preview : option MessageLinkPreview; m_status : MessageStatus;
  m_seq : Z; m_created_at_unix_us : Z }.

End Domain.

(** ** Protocol entities *)

Record UserMetadata := mkUserMetadata {
  um_username : string; um_avatar_seed : string; um_display_name : string }.
Record ProtoUser := mkProtoUser { pu_id : string; pu_metadata : option UserMetadata }.

Record ProtoHub := mkProtoHub { ph_id : string; ph_name : string; ph_avatar_seed : string }.

Record HubMember := mkHubMember { hm_user_id : string; hm_role : HubRole; hm_is_online : bool }.

Record ProtoChannel := mkProtoChannel {
  pc_id : string; pc_type : ProtoChannelType; pc_name : option string }.

Record ProtoMessage := mkProtoMessage {
  pm_id : string; pm_author_id : string; pm_content : string;
  pm_attachments : list MessageAttachment; pm_created_at_unix_us : Z;
  pm_link_preview : option MessageLinkPreview; pm_message_seq : Z }.

Record VoiceParticipantState := mkVoiceParticipant {
  vp_user_id : string; vp_muted : bool; vp_deafened : bool }.

Record VoiceChannelState := mkVoiceChannel {
  vc_started_at_unix : Z; vc_participants : list VoiceParticipantState }.

(** ** Snapshots *)

Record ChannelState := mkChannelState {
  cs_channel : ProtoChannel; cs_voice : option VoiceChannelState }.

Record HubSync := mkHubSync {
  hs_hub : ProtoHub; hs_members : list HubMember; hs_users : list ProtoUser;
  hs_channels : list ChannelState }.

Record StateSync := mkStateSync { ss_self : ProtoUser; ss_hubs : list HubSync }.

(** ** Deltas *)

Inductive HubOp := HubUpsert (hub : ProtoHub) | HubRemove | HubJoinCodeSet (join_code : string).
Inductive MemberOp := MemberUpsert (member : HubMember) | MemberRemove (user_id : string).
Inductive UserOp := UserUpsert (user : ProtoUser) | UserRemove (user_id : string).
Inductive ChannelOp := ChannelUpsert (channel : ProtoChannel) | ChannelRemove.

Inductive Direction := DIRECTION_UNSPECIFIED | LATEST | BEFORE.
Inductive MessageOp :=
  | MessageAppend (state : ProtoMessage)
  | MessageRemove (message_id : string)
  | MessageBatch (direction : Direction) (states : list ProtoMessage) (exhausted_before : bool).
Inductive VoiceOp :=
  | VoiceSnapshot (state : VoiceChannelState)
  | VoiceParticipantUpsert (participant : VoiceParticipantState)
  | VoiceParticipantRemove (user_id : string).

Record ChannelDelta := mkChannelDelta {
  cd_channel_id : string; cd_channel_ops : list ChannelOp; cd_message_ops : list MessageOp;
  cd_voice_ops : list VoiceOp }.

Record HubDelta := mkHubDelta {
  hd_hub_id : string; hd_hub_ops : list HubOp; hd_member_ops : list MemberOp;
  hd_user_ops : list UserOp; hd_channels : list ChannelDelta }.

(** ** Signals *)

Inductive RtSignal :=
  | Presence (hub_id user_id : string) (is_online : bool)
  | TypingSignal (channel : ChannelRef) (user_id : string) (is_typing : bool).

(** ** What an envelope carries to a client *)

Inductive ServerEvent :=
  | SvCommandError (command : Envelope.Type_) (code : CommandErrorCode) (message : string)
  | SvAuthOk
  | SvStateSync (sync : StateSync)
  | SvStateDelta (hubs : list HubDelta)
  | SvRtSignal (signal : RtSignal)
  | SvVoiceSelfStatus (connected is_owner : bool) (channel : option ChannelRef) (resume_id : string)
  | SvVoiceSelfRevoked
  | SvVoiceTokenIssued (token livekit_url : string) (expires_in : Z) (e2ee_key : string)
      (key_index : Z) (resume_id : string)
  | SvHubPreview (hub : ProtoHub).

(** The envelope type each event is wrapped in. *)
Definition event_type (ev : ServerEvent) : Envelope.Type_ :=
  match ev with
  | SvCommandError _ _ _ => Envelope.CommandError
  | SvAuthOk => Envelope.AUTH_OK
  | SvStateSync _ => Envelope.STATE_SYNC
  | SvStateDelta _ => Envelope.STATE_DELTA
  | SvRtSignal _ => Envelope.RT_SIGNAL
  | SvVoiceSelfStatus _ _ _ _ => Envelope.VOICE_SELF_STATUS
  | SvVoiceSelfRevoked => Envelope.VOICE_SELF_REVOKED
  | SvVoiceTokenIssued _ _ _ _ _ _ => Envelope.VOICE_TOKEN_ISSUED
  | SvHubPreview _ => Envelope.HUB_INVITE_VALIDATE
  end.
