(* ===== verification/CommandUtils.v ===== *)
(** * The helpers the commands share

    [app/commands/utils.{h,cpp}]: building outbound messages, text and limit
    validation, mapping of database errors and conversion between domain
    structs and protocol messages.  The text functions are compared with what
    the SQL constraints of [infra/persistence/sql] count: characters of UTF-8. *)

From S2P Require Import Prelude.
From S2P Require Import CStrings.
From S2P Require Import Ids.
From S2P Require Import Protocol.
From S2P Require Import OutboundMsg.
From S2P Require Import HubService.
From S2P Require Import ServerEvents.
From Stdlib Require Import Ascii.

Module Utils.

(** ** Messages *)

Definition make_command_error (conn : GlobalConnId) (type : Envelope.Type_)
  (code : CommandErrorCode) (message : string) : OutgoingMessage ServerEvent :=
  make_outgoing_message [conn] (SvCommandError type code message).

(** [make_drop_connection] with the protocol's error code. *)
Definition drop_connection (conn : GlobalConnId) (code : CommandErrorCode) (reason : string)
  : OutgoingMessage ServerEvent :=
  make_drop_connection conn (error_number code) reason.

Definition make_state_sync (payload : StateSync) : ServerEvent := SvStateSync payload.
Definition make_state_delta (payload : list HubDelta) : ServerEvent := SvStateDelta payload.
Definition make_rt_signal (payload : RtSignal) : ServerEvent := SvRtSignal payload.

(** ** Text *)

(** Erase the trailing white space. *)
Fixpoint trim_end (s : string) : string :=
  match s with
  | EmptyString => EmptyString
  | String c s' =>
    match trim_end s' with
    | EmptyString => if isspace c then EmptyString else String c EmptyString
    | t => String c t
    end
  end.

Definition sanitize (value : string) : string := trim_end (skip_space value).

(** Bytes that are not continuation bytes [0b10xxxxxx]. *)
Fixpoint utf8_length (value : string) : nat :=
  match value with
  | EmptyString => 0
  | String ch s => (if (Z.land (code ch) 192 =? 128)%Z then 0 else 1) + utf8_length s
  end.

Definition normalize_name_lowercase (value : string) : string := HubService.lower_string value.

(** [what.find(needle) != npos]. *)
Definition contains (what needle : string) : bool :=
  match String.index 0 needle what with Some _ => true | None => false end.

Definition map_channel_write_error (what : string) : option string :=
  if contains what "idx_channels_hub_name_unique" || contains what "23505" ||
     contains what "duplicate key" then Some "Channel name already exists"%string
  else if contains what "Channel limit reached" || contains what "max 3 channels"
  then Some "Channel limit reached: max 3 channels per hub"%string
  else if contains what "channels_name_length"
  then Some "Channel name must be between 1 and 80 characters"%string
  else if contains what "Channel type cannot be changed"
  then Some "Channel type cannot be changed"%string
  else None.

Definition map_hub_write_error (what : string) : option string :=
  if contains what "Hub ownership limit reached" || contains what "max 2 hubs"
  then Some "Hub limit reached: you can own at most 2 hubs"%string
  else if contains what "hubs_name_length"
  then Some "Hub name must be between 1 and 80 characters"%string
  else if contains what "hubs_avatar_seed_length"
  then Some "Avatar seed must be at most 128 characters"%string
  else None.

(** ** Limits *)

Definition kDefaultLimit : Z := 50.
Definition kMaxLimit : Z := 100.

(** [limit] is a [uint32_t], the result an [int]. *)
Definition clamp_limit (limit : Z) : Z :=
  if (limit =? 0)%Z then kDefaultLimit else Z.min (int32_of_uint32 limit) kMaxLimit.

(** ** Conversions *)

Definition to_proto_channel_ref (hub : HubId) (channel : ChannelId) : ChannelRef :=
  mkChannelRef (hub_value hub) (channel_value channel).

Record ChannelScope := mkScope { scope_hub : HubId; scope_channel : ChannelId }.

Definition to_channel_scope (ref : ChannelRef) : option ChannelScope :=
  if bool_decide (ref_hub_id ref = ""%string) || bool_decide (ref_channel_id ref = ""%string)
  then None else Some (mkScope (mkHubId (ref_hub_id ref)) (mkChannelId (ref_channel_id ref))).

Definition to_proto_user (user : User) : ProtoUser :=
  mkProtoUser (user_value (us_id user))
    (Some (mkUserMetadata (us_username user) (us_avatar_seed user) (us_display_name user))).

Definition to_proto_hub (hub : Hub) : ProtoHub :=
  mkProtoHub (hub_value (hub_id hub)) (hub_name hub) (hub_avatar_seed hub).

Definition to_proto_hub_role (role : option Role) : HubRole :=
  match role with
  | None => HubRole_MEMBER
  | Some OWNER => HubRole_OWNER
  | Some ADMIN => HubRole_ADMIN
  | Some USER => HubRole_MEMBER
  end.

Definition from_proto_hub_role (role : HubRole) : Role :=
  match role with HubRole_OWNER => OWNER | HubRole_ADMIN => ADMIN | _ => USER end.

Definition to_proto_channel_type (type : ChannelType) : ProtoChannelType :=
  match type with VOICE => ChannelType_VOICE | CHAT => ChannelType_TEXT end.

Definition from_proto_channel_type (type : ProtoChannelType) : ChannelType :=
  match type with ChannelType_VOICE => VOICE | _ => CHAT end.

Definition to_proto_hub_member (user : UserId) (role : option Role) (is_online : bool) : HubMember :=
  mkHubMember (user_value user) (to_proto_hub_role role) is_online.

Definition to_proto_channel (channel : Channel) : ProtoChannel :=
  mkProtoChannel (channel_value (ch_id channel)) (to_proto_channel_type (ch_type channel))
    (Some (HubService.ch_name channel)).

Definition to_proto_attachment (a : Domain.MessageAttachment) : MessageAttachment :=
  mkMessageAttachment (Domain.ma_id a)
    (match Domain.ma_kind a with
     | Domain.IMAGE => MessageAttachmentKind_IMAGE
     | Domain.FILE => MessageAttachmentKind_FILE
     end)
    (Domain.ma_storage_key a) (Domain.ma_mime_type a) (Domain.ma_display_name a)
    (Domain.ma_size_bytes a) (Domain.ma_storage_bucket a).

Definition to_proto_preview (p : Domain.MessageLinkPreview) : MessageLinkPreview :=
  mkMessageLinkPreview (Domain.ml_url p) (Domain.ml_title p) (Domain.ml_description p)
    (Domain.ml_site_name p) (Domain.ml_image_url p).

Definition to_proto_message (msg : Domain.Message) : ProtoMessage :=
  mkProtoMessage (message_value (Domain.m_id msg)) (user_value (Domain.m_sender_id msg))
    (Domain.m_text msg) (to_proto_attachment <$> Domain.m_attachments msg)
    (Domain.m_created_at_unix_us msg) (to_proto_preview <$> Domain.m_link_preview msg)
    (Domain.m_seq msg).

Definition to_proto_message_state (msg : Domain.Message) : ProtoMessage := to_proto_message msg.

(** ** What the database counts

    A name as code points: [char_length] is their number and [btrim] takes
    spaces off both ends. *)

Definition byte (n : Z) : ascii := chr n.

(** The UTF-8 encoding of one code point, before [rest]. *)
Definition utf8_encode_cp (cp : Z) (rest : string) : string :=
  (if cp <? 128 then String (byte cp) rest
   else if cp <? 2048 then
     String (byte (192 + cp / 64)) (String (byte (128 + cp mod 64)) rest)
   else if cp <? 65536 then
     String (byte (224 + cp / 4096)) (String (byte (128 + (cp / 64) mod 64))
       (String (byte (128 + cp mod 64)) rest))
   else
     String (byte (240 + cp / 262144)) (String (byte (128 + (cp / 4096) mod 64))
       (String (byte (128 + (cp / 64) mod 64)) (String (byte (128 + cp mod 64)) rest))))%Z.

Definition utf8_encode (cps : list Z) : string := foldr utf8_encode_cp ""%string cps.

Definition code_point (cp : Z) : Prop := (0 <= cp < 1114112)%Z.

Fixpoint drop_spaces (cps : list Z) : list Z :=
  match cps with cp :: l => if (cp =? 32)%Z then drop_spaces l else cps | [] => [] end.
Definition btrim (cps : list Z) : list Z := rev (drop_spaces (rev (drop_spaces cps))).

(** [char_length(btrim(name)) >= 1 AND char_length(name) <= max]: the checks
    [hubs_name_length] and [channels_name_length]. *)
Definition sql_name_ok (max : nat) (cps : list Z) : Prop :=
  1 <= length (btrim cps) /\ length cps <= max.

(** *** Counting characters *)

Lemma continuation_byte b : (0 <= b < 256)%Z ->
  (Z.land (code (byte b)) 192 =? 128)%Z = ((128 <=? b) && (b <? 192))%Z.
Proof.
  intros Hb. unfold byte. rewrite code_chr by done.
  assert (Hall : forallb (fun n => Bool.eqb (Z.land (Z.of_nat n) 192 =? 128)%Z
            ((128 <=? Z.of_nat n) && (Z.of_nat n <? 192))%Z) (seq 0 256) = true)
    by (vm_compute; reflexivity).
  rewrite forallb_forall in Hall. specialize (Hall (Z.to_nat b)).
  rewrite Z2Nat.id in Hall by lia. apply Bool.eqb_prop, Hall, in_seq. lia.
Qed.

Lemma utf8_lead b s : (0 <= b < 128)%Z \/ (192 <= b < 256)%Z ->
  utf8_length (String (byte b) s) = S (utf8_length s).
Proof.
  intros Hb. cbn [utf8_length]. rewrite continuation_byte by lia.
  destruct (Z.leb_spec 128 b), (Z.ltb_spec b 192); simpl; lia.
Qed.

Lemma utf8_continuation b s : (128 <= b < 192)%Z ->
  utf8_length (String (byte b) s) = utf8_length s.
Proof.
  intros Hb. cbn [utf8_length]. rewrite continuation_byte by lia.
  destruct (Z.leb_spec 128 b), (Z.ltb_spec b 192); simpl; lia.
Qed.

Lemma six_bits z : (128 <= 128 + z mod 64 < 192)%Z.
Proof. pose proof (Z.mod_pos_bound z 64). lia. Qed.

Lemma utf8_length_cp cp s : code_point cp ->
  utf8_length (utf8_encode_cp cp s) = S (utf8_length s).
Proof.
  intros [Hlo Hhi]. unfold utf8_encode_cp.
  destruct (Z.ltb_spec cp 128); [by apply utf8_lead; lia|].
  destruct (Z.ltb_spec cp 2048).
  { rewrite utf8_lead, utf8_continuation; [done|apply six_bits|right].
    pose proof (Z.div_lt_upper_bound cp 64 32). pose proof (Z.div_pos cp 64). lia. }
  destruct (Z.ltb_spec cp 65536).
  { rewrite utf8_lead, !utf8_continuation; [done|apply six_bits|apply six_bits|right].
    pose proof (Z.div_lt_upper_bound cp 4096 16). pose proof (Z.div_pos cp 4096). lia. }
  rewrite utf8_lead, !utf8_continuation; [done|apply six_bits|apply six_bits|apply six_bits|right].
  pose proof (Z.div_lt_upper_bound cp 262144 5). pose proof (Z.div_pos cp 262144). lia.
Qed.

Lemma utf8_length_encode cps : Forall code_point cps -> utf8_length (utf8_encode cps) = length cps.
Proof.
  induction 1 as [|cp cps Hcp _ IH]; [done|]. cbn [utf8_encode foldr length].
  rewrite utf8_length_cp by done. by f_equal.
Qed.

(** *** Trimming *)

Lemma skip_space_head s c s' : skip_space s = String c s' -> isspace c = false.
Proof.
  induction s as [|a s IH]; simpl; [done|]. destruct (isspace a) eqn:E; [done|]. by intros [= <- _].
Qed.

Lemma trim_end_head s c s' : trim_end s = String c s' -> exists s'', s = String c s''.
Proof.
  destruct s as [|a s]; simpl; [done|]. destruct (trim_end s); [destruct (isspace a)|];
    intros [=]; subst; eauto.
Qed.

(** What is left starts with a character that is not white space. *)
Lemma sanitize_head s c s' : sanitize s = String c s' -> isspace c = false.
Proof.
  unfold sanitize. intros [s'' Hs]%trim_end_head. by eapply skip_space_head.
Qed.

Lemma trim_end_idem s : trim_end (trim_end s) = trim_end s.
Proof.
  induction s as [|a s IH]; [done|]. cbn [trim_end]. destruct (trim_end s) as [|b t] eqn:E.
  - destruct (isspace a) eqn:Ea; [done|]. simpl. by rewrite Ea.
  - cbn [trim_end] in IH |- *. by rewrite IH.
Qed.

Lemma sanitize_idem s : sanitize (sanitize s) = sanitize s.
Proof.
  destruct (sanitize s) as [|c t] eqn:E; [done|]. pose proof (sanitize_head _ _ _ E) as Hc.
  unfold sanitize at 1. cbn [skip_space]. rewrite Hc, <- E. apply trim_end_idem.
Qed.

Lemma drop_spaces_nil cps : drop_spaces cps = [] -> Forall (fun cp => cp = 32%Z) cps.
Proof.
  induction cps as [|cp cps IH]; simpl; [done|].
  destruct (Z.eqb_spec cp 32); [|done]. intros H. constructor; auto.
Qed.

Lemma btrim_nonempty cp cps : cp <> 32%Z -> 1 <= length (btrim (cp :: cps)).
Proof.
  intros Hcp. unfold btrim. simpl drop_spaces at 2. destruct (Z.eqb_spec cp 32); [done|].
  rewrite length_rev. destruct (drop_spaces (rev (cp :: cps))) eqn:E; [|simpl; lia].
  apply drop_spaces_nil, Forall_rev in E. rewrite rev_involutive in E. by inversion E.
Qed.

(** A space is encoded as itself. *)
Lemma utf8_encode_space cps c s :
  utf8_encode (32%Z :: cps) = String c s -> isspace c = true.
Proof. cbn. by intros [= <- _]. Qed.

(** A name the commands accept satisfies the database's length check.  If
    what [sanitize] leaves is valid UTF-8, is not empty and [utf8_length] counts
    at most [max] characters, then PostgreSQL's [char_length] is at most [max]
    and something is left after its [btrim]; and sanitizing again changes
    nothing. *)
Theorem accepted_names_satisfy_sql (max : nat) (raw : string) (cps : list Z) :
  sanitize raw = utf8_encode cps -> Forall code_point cps ->
  sanitize raw <> ""%string -> utf8_length (sanitize raw) <= max ->
  sql_name_ok max cps /\ sanitize (sanitize raw) = sanitize raw.
Proof.
  intros Hraw Hcps Hne Hlen. split; [|apply sanitize_idem].
  rewrite Hraw, utf8_length_encode in Hlen by done. split; [|done].
  destruct cps as [|cp cps]; [by rewrite Hraw in Hne|]. apply btrim_nonempty. intros ->.
  destruct (sanitize raw) as [|c t] eqn:E; [done|].
  pose proof (sanitize_head _ _ _ E) as Hc. symmetry in Hraw. apply utf8_encode_space in Hraw.
  congruence.
Qed.

Lemma accepted_names_satisfy_sql_witness :
  let raw := ("  " +:+ utf8_encode [252; 8364; 32; 128512; 9]%Z)%string in
  sql_name_ok 80 [252; 8364; 32; 128512]%Z /\ sanitize (sanitize raw) = sanitize raw.
Proof.
  apply (accepted_names_satisfy_sql 80).
  - vm_compute. reflexivity.
  - repeat constructor; vm_compute; congruence.
  - vm_compute. congruence.
  - vm_compute. lia.
Defined.

(** *** Limits *)

(** The page size.  A requested limit below [2^31] is clamped to between 1
    and 100, with 50 for 0; from [2^31] on the cast makes it negative. *)
Theorem clamp_limit_range (limit : Z) :
  (0 <= limit < two32)%Z ->
  if (limit <? 2147483648)%Z
  then (1 <= clamp_limit limit <= 100)%Z /\
       clamp_limit limit = (if limit =? 0 then 50 else Z.min limit 100)%Z
  else (clamp_limit limit < 0)%Z.
Proof.
  intros Hl. unfold clamp_limit, int32_of_uint32, kDefaultLimit, kMaxLimit.
  unfold wrap32. rewrite Z.mod_small by done. unfold two32 in *.
  destruct (Z.ltb_spec limit 2147483648), (Z.eqb_spec limit 0); lia.
Qed.

Lemma clamp_limit_range_witness : (clamp_limit 4294967295 < 0)%Z.
Proof. exact (clamp_limit_range 4294967295 ltac:(unfold two32; lia)). Defined.

(** *** Conversions *)

Lemma channel_ref_round_trip hub channel :
  hub_value hub <> ""%string -> channel_value channel <> ""%string ->
  to_channel_scope (to_proto_channel_ref hub channel) = Some (mkScope hub channel).
Proof.
  intros Hh Hc. unfold to_channel_scope. simpl. rewrite !bool_decide_eq_false_2 by done.
  by destruct hub, channel.
Qed.

Lemma channel_scope_refs ref sc :
  to_channel_scope ref = Some sc ->
  to_proto_channel_ref (scope_hub sc) (scope_channel sc) = ref /\
  hub_value (scope_hub sc) <> ""%string /\ channel_value (scope_channel sc) <> ""%string.
Proof.
  unfold to_channel_scope. do 2 case_bool_decide; simpl; try done. intros [= <-]. by destruct ref.
Qed.

Lemma hub_role_round_trip r : from_proto_hub_role (to_proto_hub_role (Some r)) = r.
Proof. by destruct r. Qed.

Lemma channel_type_round_trip t : from_proto_channel_type (to_proto_channel_type t) = t.
Proof. by destruct t. Qed.

End Utils.
