(* ===== verification/Messages.v ===== *)
(** * Messages and their asynchronous storage

    [core/base/ThreadSafeQueue.h], [app/services/message/DbWriteQueue.h],
    [AsyncMessageWriter.cpp] and [MessageService.cpp], with [utils/Uuid.cpp].
    The message repository is a parameter [MessageRepo D] over the database
    state.  The write queue is shared by the workers that send messages and the
    writer's thread, so its operations are split where other threads can run:
    a slot is reserved before the item is appended, and an item is taken before
    the size is decremented. *)

From S2P Require Import Prelude.
From S2P Require Import CStrings.
From S2P Require Import Ids.
From S2P Require Import Protocol.
From S2P Require Import ServerEvents.
From S2P Require Import External.
From Stdlib Require Import Ascii.
Import Domain.

(** ** The repository *)

Class MessageRepo (D : Type) := {
  repo_fetchMessages : ChannelId -> Z -> EX D (list Message);
  repo_fetchMessagesAfter : ChannelId -> MessageCursor -> Z -> EX D (list Message);
  repo_fetchMessagesBefore : ChannelId -> MessageCursor -> Z -> EX D (list Message);
  repo_sendMessage : ChannelId -> UserId -> string -> list MessageAttachment ->
    option MessageLinkPreview -> EX D Message;
  repo_insertMessage : Message -> EX D bool
}.

(** ** Message ids *)

Module Uuid.

Definition hex_digit (v : Z) : ascii :=
  let d := Z.land v 15 in if (d <? 10)%Z then chr (48 + d) else chr (87 + d).

(** RFC 4122 version and variant. *)
Definition stamp (bytes : list Z) : list Z :=
  let b1 := alter (fun b => Z.lor (Z.land b 15) 64) 6 bytes in
  alter (fun b => Z.lor (Z.land b 63) 128) 8 b1.

Fixpoint format_bytes (i : nat) (bytes : list Z) : string :=
  match bytes with
  | [] => EmptyString
  | b :: bs =>
    let rest := String (hex_digit (Z.shiftr b 4)) (String (hex_digit b) (format_bytes (S i) bs)) in
    if bool_decide (i ∈ [4; 6; 8; 10]) then String "-" rest else rest
  end.

Section Uuid.
Context {X : Type} `{External X} `{Uniform}.

Fixpoint random_bytes (n : nat) : ST X (list Z) :=
  match n with
  | O => st_ret []
  | S n' => (r <-- rng_next; bs <-- random_bytes n'; st_ret (uniform 255 r :: bs))%st
  end.

Definition generate_uuid_v4 : ST X string :=
  (bytes <-- random_bytes 16; st_ret (format_bytes 0 (stamp bytes)))%st.
End Uuid.

(** The canonical text of a version 4 uuid: lower-case hexadecimal in groups
    of 8, 4, 4, 4 and 12, version 4, variant 8, 9, a or b. *)
Definition is_hex (c : ascii) : bool :=
  ((48 <=? code c) && (code c <=? 57) || (97 <=? code c) && (code c <=? 102))%Z.

Definition uuid_char_ok (i : nat) (c : ascii) : bool :=
  if bool_decide (i ∈ [8; 13; 18; 23]) then bool_decide (c = "-"%char)
  else if bool_decide (i = 14) then bool_decide (c = "4"%char)
  else if bool_decide (i = 19) then bool_decide (c ∈ ["8"; "9"; "a"; "b"]%char)
  else is_hex c.

Fixpoint chars_ok (i : nat) (s : string) : bool :=
  match s with EmptyString => true | String c s' => uuid_char_ok i c && chars_ok (S i) s' end.

Definition is_uuid_v4 (s : string) : bool :=
  bool_decide (String.length s = 36) && chars_ok 0 s.

Lemma land_below v n : (0 <= n)%Z -> (0 <= Z.land v (Z.ones n) < 2 ^ n)%Z.
Proof. intros Hn. rewrite Z.land_ones by done. apply Z.mod_pos_bound. lia. Qed.

(** A property of small numbers, checked one by one. *)
Lemma small_cases (k : nat) (P : Z -> bool) :
  forallb (fun n => P (Z.of_nat n)) (seq 0 k) = true ->
  forall z, (0 <= z < Z.of_nat k)%Z -> P z = true.
Proof.
  intros Hall z Hz. rewrite forallb_forall in Hall. replace z with (Z.of_nat (Z.to_nat z)) by lia.
  apply Hall, in_seq. lia.
Qed.

Lemma hex_digit_hex v : is_hex (hex_digit v) = true.
Proof.
  unfold hex_digit. generalize (land_below v 4 ltac:(lia)).
  change (Z.ones 4) with 15%Z. generalize (Z.land v 15).
  by apply (small_cases 16 (fun d => is_hex (if (d <? 10)%Z then chr (48 + d) else chr (87 + d)))).
Qed.

Lemma version_digit b : hex_digit (Z.shiftr (Z.lor (Z.land b 15) 64) 4) = "4"%char.
Proof.
  generalize (land_below b 4 ltac:(lia)). change (Z.ones 4) with 15%Z. generalize (Z.land b 15).
  intros z Hz. eapply bool_decide_eq_true_1. revert z Hz.
  by apply (small_cases 16 (fun z => bool_decide (hex_digit (Z.shiftr (Z.lor z 64) 4) = "4"%char))).
Qed.

Lemma variant_digit b :
  hex_digit (Z.shiftr (Z.lor (Z.land b 63) 128) 4) ∈ ["8"; "9"; "a"; "b"]%char.
Proof.
  generalize (land_below b 6 ltac:(lia)). change (Z.ones 6) with 63%Z. generalize (Z.land b 63).
  intros z Hz. eapply bool_decide_eq_true_1. revert z Hz.
  by apply (small_cases 64 (fun z =>
    bool_decide (hex_digit (Z.shiftr (Z.lor z 128) 4) ∈ ["8"; "9"; "a"; "b"]%char))).
Qed.

Section UuidOk.
Context {X : Type} `{External X} `{Uniform}.

Lemma random_bytes_length n x : length (random_bytes n x).1 = n.
Proof.
  revert x. induction n as [|n IH]; intros x; [done|]. cbn [random_bytes].
  unfold st_bind, st_ret. destruct (rng_next x) as [r x1]. specialize (IH x1).
  destruct (random_bytes n x1). simpl in *. by f_equal.
Qed.

(** Every id is the canonical text of a version 4 uuid, the spelling in which
    PostgreSQL returns it. *)
Lemma generated_uuid_canonical x : is_uuid_v4 (generate_uuid_v4 x).1 = true.
Proof.
  unfold generate_uuid_v4, st_bind, st_ret. pose proof (random_bytes_length 16 x) as Hl.
  destruct (random_bytes 16 x) as [bs x']. simpl in Hl |- *.
  do 16 (destruct bs as [|? bs]; [discriminate Hl|]). destruct bs; [|discriminate Hl]. clear Hl.
  unfold is_uuid_v4. apply andb_true_intro. split; [by vm_compute|].
  cbn [stamp alter list_alter format_bytes]. simpl. rewrite version_digit.
  repeat (apply andb_true_intro; split);
    first [exact (hex_digit_hex _)|exact (bool_decide_eq_true_2 _ (variant_digit _))|reflexivity].
Qed.
End UuidOk.

End Uuid.

(** ** The queue *)

Module Tsq.
Section Tsq.
Context {T : Type}.

(** [ThreadSafeQueue<T>]. *)
Record t := mk { queue_ : list T; stopped_ : bool }.

Definition create : t := mk [] false.

Definition push (q : t) (v : T) : t := mk (queue_ q ++ [v]) (stopped_ q).

Inductive PopResult := Blocked | Closed | Item (v : T).

(** [pop]: blocks while the queue is empty and not stopped. *)
Definition pop (q : t) : PopResult * t :=
  match queue_ q with
  | v :: l => (Item v, mk l (stopped_ q))
  | [] => (if stopped_ q then Closed else Blocked, q)
  end.

Definition try_pop (q : t) : option T * t :=
  match queue_ q with
  | v :: l => (Some v, mk l (stopped_ q))
  | [] => (None, q)
  end.

Definition stop (q : t) : t := mk (queue_ q) true.
End Tsq.
Arguments t : clear implicits.
Arguments PopResult : clear implicits.
End Tsq.

Module DbWriteQueue.
Section Queue.
Context {T : Type}.

(** [DbWriteQueue<T>]: the base queue, its capacity (0: unbounded) and the
    atomic size. *)
Record t := mk { base : Tsq.t T; capacity_ : Z; size_ : Z }.

Definition create (capacity : Z) : t := mk Tsq.create capacity 0.

(** [reserve_slot_]: the compare-and-exchange loop as one atomic step. *)
Definition reserve_slot_ (q : t) : bool * t :=
  if (capacity_ q =? 0)%Z then (true, mk (base q) (capacity_ q) (wrap64 (size_ q + 1)))
  else if (capacity_ q <=? size_ q)%Z then (false, q)
  else (true, mk (base q) (capacity_ q) (wrap64 (size_ q + 1))).

(** The second half of [try_push]. *)
Definition append (q : t) (v : T) : t := mk (Tsq.push (base q) v) (capacity_ q) (size_ q).

Definition try_push (q : t) (v : T) : bool * t :=
  let '(ok, q1) := reserve_slot_ q in
  if ok then (true, append q1 v) else (false, q1).

(** The first half of [pop]; [release] is its [fetch_sub]. *)
Definition take (q : t) : Tsq.PopResult T * t :=
  let '(r, b) := Tsq.pop (base q) in (r, mk b (capacity_ q) (size_ q)).

Definition release (q : t) : t := mk (base q) (capacity_ q) (wrap64 (size_ q - 1)).

Definition pop (q : t) : Tsq.PopResult T * t :=
  let '(r, q1) := take q in
  match r with Tsq.Item _ => (r, release q1) | _ => (r, q1) end.

Definition size (q : t) : Z := size_ q.

Definition stop (q : t) : t := mk (Tsq.stop (base q)) (capacity_ q) (size_ q).

(** *** Interleavings

    [pushing]: items whose slot is reserved but which are not appended yet;
    [popping]: items taken whose slot is not released yet. *)

Record shared := mkShared { sh_queue : t; pushing : list T; popping : nat }.

Inductive step : shared -> shared -> Prop :=
  | step_reserve q ps n v q' :
      reserve_slot_ q = (true, q') -> step (mkShared q ps n) (mkShared q' (v :: ps) n)
  | step_refuse q ps n :
      (reserve_slot_ q).1 = false -> step (mkShared q ps n) (mkShared q ps n)
  | step_append q ps1 v ps2 n :
      step (mkShared q (ps1 ++ v :: ps2) n) (mkShared (append q v) (ps1 ++ ps2) n)
  | step_take q ps n v q' :
      take q = (Tsq.Item v, q') -> step (mkShared q ps n) (mkShared q' ps (S n))
  | step_release q ps n : step (mkShared q ps (S n)) (mkShared (release q) ps n)
  | step_stop q ps n : step (mkShared q ps n) (mkShared (stop q) ps n).

Definition reachable (capacity : Z) : shared -> Prop :=
  rtc step (mkShared (create capacity) [] 0).

(** Slots accounted for: queued, reserved, or taken and not yet released. *)
Definition occupied (s : shared) : Z :=
  Z.of_nat (length (Tsq.queue_ (base (sh_queue s))) + length (pushing s) + popping s).

Definition accounted (capacity : Z) (s : shared) : Prop :=
  capacity_ (sh_queue s) = capacity /\ size_ (sh_queue s) = wrap64 (occupied s) /\
  ((0 < capacity)%Z -> (occupied s <= capacity)%Z).

Lemma wrap64_succ z : wrap64 (wrap64 z + 1) = wrap64 (z + 1).
Proof. unfold wrap64. by rewrite Zplus_mod_idemp_l. Qed.

Lemma wrap64_pred z : wrap64 (wrap64 (z + 1) - 1) = wrap64 z.
Proof. unfold wrap64. rewrite Zminus_mod_idemp_l. f_equal. lia. Qed.

Lemma step_accounted capacity s s' :
  (0 <= capacity < two64)%Z -> step s s' -> accounted capacity s -> accounted capacity s'.
Proof.
  intros Hcap Hst (Hc & Hs & Hle).
  destruct Hst as [q ps n v q' Hr|q ps n Hr|q ps1 v ps2 n|q ps n v q' Ht|q ps n|q ps n];
    unfold accounted, occupied in *; cbn [sh_queue pushing popping] in *.
  - unfold reserve_slot_ in Hr. rewrite Hc, Hs in Hr.
    destruct (Z.eqb_spec capacity 0); [|destruct (Z.leb_spec capacity (wrap64 
      (Z.of_nat (length (Tsq.queue_ (base q)) + length ps + n)))); [done|]];
      injection Hr as <-; simpl; rewrite wrap64_succ; split_and!; try done; try lia;
      try (f_equal; lia).
    intros Hpos. specialize (Hle Hpos). rewrite wrap64_small in H by lia. lia.
  - done.
  - rewrite !length_app in *. simpl in *. rewrite length_app. simpl.
    split_and!; [done|rewrite Hs; f_equal; lia|intros; lia].
  - unfold take, Tsq.pop in Ht. destruct (Tsq.queue_ (base q)) as [|v' l] eqn:E;
      [by destruct (Tsq.stopped_ (base q))|]. injection Ht as -> <-. simpl in *.
    split_and!; [done|rewrite Hs; f_equal; lia|intros; lia].
  - unfold release. simpl. rewrite Hs.
    replace (Z.of_nat (length (Tsq.queue_ (base q)) + length ps + S n)) with
      (Z.of_nat (length (Tsq.queue_ (base q)) + length ps + n) + 1)%Z by lia.
    rewrite wrap64_pred. split_and!; [done|done|intros; lia].
  - done.
Qed.

Lemma reachable_accounted capacity s :
  (0 <= capacity < two64)%Z -> reachable capacity s -> accounted capacity s.
Proof.
  intros Hcap Hr. unfold reachable in Hr.
  assert (H0 : accounted capacity (mkShared (create capacity) [] 0)).
  { unfold accounted, occupied. simpl. split_and!; [done|done|lia]. }
  revert H0. induction Hr as [s|s1 s2 s3 Hst _ IH]; [done|].
  intros H0. by apply IH, (step_accounted _ s1).
Qed.

(** The write queue is bounded under any interleaving.  However the
    workers' pushes and the writer's pops interleave, the queue never holds
    more items than its capacity, a push is refused only when every slot is
    taken by a queued item or by an operation in progress, and with no
    operation in progress the reported size is the length of the queue. *)
Theorem db_write_queue_bounded (capacity : Z) (s : shared) :
  (0 < capacity < two64)%Z -> reachable capacity s ->
  let len := Z.of_nat (length (Tsq.queue_ (base (sh_queue s)))) in
  (len <= capacity)%Z /\
  ((reserve_slot_ (sh_queue s)).1 = false <-> occupied s = capacity) /\
  (pushing s = [] -> popping s = 0 -> size (sh_queue s) = len).
Proof.
  intros Hcap Hr len. destruct (reachable_accounted capacity s ltac:(lia) Hr) as (Hc & Hs & Hle).
  specialize (Hle ltac:(lia)). assert (Hocc : (0 <= occupied s)%Z) by (unfold occupied; lia).
  rewrite wrap64_small in Hs by lia. split_and!.
  - unfold occupied in Hle. lia.
  - unfold reserve_slot_. rewrite Hc, Hs. destruct (Z.eqb_spec capacity 0); [lia|].
    destruct (Z.leb_spec capacity (occupied s)); simpl; split; intros; try done; lia.
  - intros Hp Hn. unfold size, len. rewrite Hs. unfold occupied. rewrite Hp, Hn. simpl. lia.
Qed.
End Queue.
Arguments t : clear implicits.
Arguments shared : clear implicits.

(** Two pushes and a pop in progress on a queue of capacity 2. *)
Lemma db_write_queue_bounded_witness :
  exists s : shared nat, reachable 2 s /\ pushing s = [7] /\
    (reserve_slot_ (sh_queue s)).1 = false.
Proof.
  exists (mkShared (mk (Tsq.mk [5] false) 2 2) [7] 0).
  assert (Hr : reachable 2 (mkShared (mk (Tsq.mk [5] false) 2 2) [7] 0)).
  { eapply rtc_l; [by apply (step_reserve _ _ _ 5)|].
    eapply rtc_l; [apply (step_append _ [] 5 [])|].
    eapply rtc_l; [by apply (step_reserve _ _ _ 7)|]. apply rtc_refl. }
  split; [exact Hr|]. split; [reflexivity|].
  apply (db_write_queue_bounded 2 _ ltac:(unfold two64; lia) Hr). reflexivity.
Defined.
End DbWriteQueue.

(** ** A small message store

    Stores messages of at most 4000 characters, as the table's check
    [messages_content_length] does, and numbers them. *)

Module DemoMessages.

Definition store (msg : Message) : EX (list Message) Message :=
  fun d => if 4000 <? String.length (m_text msg) then (None, d)
           else let m := mkMessage (m_id msg) (m_ch_id msg) (m_sender_id msg) Chat (m_text msg)
                           (m_attachments msg) (m_link_preview msg) SENT
                           (Z.of_nat (length d) + 1) (m_created_at_unix_us msg) in
                (Some m, d ++ [m]).

Definition in_channel (c : ChannelId) (d : list Message) : list Message :=
  filter (fun m => m_ch_id m = c) d.

#[global] Instance demo_messages : MessageRepo (list Message) := {
  repo_fetchMessages c limit d := (Some (take (Z.to_nat limit) (rev (in_channel c d))), d);
  repo_fetchMessagesAfter c cur limit d :=
    (Some (take (Z.to_nat limit) (filter (fun m => mc_seq cur < m_seq m)%Z (in_channel c d))), d);
  repo_fetchMessagesBefore c cur limit d :=
    (Some (take (Z.to_nat limit) (rev (filter (fun m => m_seq m < mc_seq cur)%Z (in_channel c d)))), d);
  repo_sendMessage c u text atts lp :=
    store (mkMessage (mkMessageId "new") c u Chat text atts lp SENT 0 0);
  repo_insertMessage msg d :=
    match store msg d with (Some _, d') => (Some true, d') | (None, d') => (None, d') end
}.

Fixpoint letters (n : nat) : string :=
  match n with O => EmptyString | S n' => String "x"%char (letters n') end.

Definition note (text : string) : Message :=
  mkMessage (mkMessageId text) (mkChannelId "c") (mkUserId "u") Chat text [] None PENDING 0 5.

End DemoMessages.
