(* ===== verification/MessageService.v ===== *)
(** * Storing messages: the asynchronous writer and the message service

    [app/services/message/AsyncMessageWriter.cpp] and [MessageService.cpp].  The
    writer's thread takes a request, calls the repository, and on failure puts
    the request back up to [max_retries_] times; senders can enqueue in
    between.  The theorems say where an accepted message can be: queued, in the
    writer's hands, stored, or given up after the last retry, and that stopping
    the writer drains the queue. *)

From S2P Require Import Prelude.
From S2P Require Import CStrings.
From S2P Require Import Ids.
From S2P Require Import Protocol.
From S2P Require Import ServerEvents.
From S2P Require Import External.
From S2P Require Import Messages.
Import Domain.

Module Writer.

(** [WriteRequest]. *)
Record WriteRequest := mkRequest { req_msg : Message; req_attempt : Z }.

(** The counters of [utils/Metrics.h] the writer bumps. *)
Record Counters := mkCounters {
  db_write_enqueued_total : Z; db_write_dropped_total : Z; db_write_success_total : Z;
  db_write_retry_total : Z; db_write_fail_total : Z }.

Definition bump (z : Z) : Z := wrap64 (z + 1).

Record t := mk {
  queue_ : DbWriteQueue.t WriteRequest;
  max_retries_ : Z;
  retry_delay_ : Z;
  running_ : bool;
  counters : Counters
}.

Definition create (capacity max_retries retry_delay : Z) : t :=
  mk (DbWriteQueue.create capacity) max_retries retry_delay false (mkCounters 0 0 0 0 0).

Definition set_queue (w : t) (q : DbWriteQueue.t WriteRequest) : t :=
  mk q (max_retries_ w) (retry_delay_ w) (running_ w) (counters w).
Definition set_counters (w : t) (c : Counters) : t :=
  mk (queue_ w) (max_retries_ w) (retry_delay_ w) (running_ w) c.
Definition set_running (w : t) (b : bool) : t :=
  mk (queue_ w) (max_retries_ w) (retry_delay_ w) b (counters w).

Definition count_enqueued (c : Counters) : Counters :=
  mkCounters (bump (db_write_enqueued_total c)) (db_write_dropped_total c)
    (db_write_success_total c) (db_write_retry_total c) (db_write_fail_total c).
Definition count_dropped (c : Counters) : Counters :=
  mkCounters (db_write_enqueued_total c) (bump (db_write_dropped_total c))
    (db_write_success_total c) (db_write_retry_total c) (db_write_fail_total c).
Definition count_success (c : Counters) : Counters :=
  mkCounters (db_write_enqueued_total c) (db_write_dropped_total c)
    (bump (db_write_success_total c)) (db_write_retry_total c) (db_write_fail_total c).
Definition count_retry (c : Counters) : Counters :=
  mkCounters (db_write_enqueued_total c) (db_write_dropped_total c)
    (db_write_success_total c) (bump (db_write_retry_total c)) (db_write_fail_total c).
Definition count_fail (c : Counters) : Counters :=
  mkCounters (db_write_enqueued_total c) (db_write_dropped_total c)
    (db_write_success_total c) (db_write_retry_total c) (bump (db_write_fail_total c)).

(** [start] and [stop], without the thread: [stop] stops the queue and the
    worker ends when it has popped everything. *)
Definition start (w : t) : t := set_running w true.
Definition stop (w : t) : t :=
  if running_ w then set_queue (set_running w false) (DbWriteQueue.stop (queue_ w)) else w.

Definition enqueue (w : t) (msg : Message) : bool * t :=
  let '(ok, q) := DbWriteQueue.try_push (queue_ w) (mkRequest msg 0) in
  if ok then (true, set_counters (set_queue w q) (count_enqueued (counters w)))
  else (false, set_counters (set_queue w q) (count_dropped (counters w))).

Definition queue_depth (w : t) : Z := DbWriteQueue.size (queue_ w).

(** Milliseconds to sleep before the next attempt. *)
Definition backoff_delay (w : t) (attempt : Z) : Z :=
  if (retry_delay_ w =? 0)%Z then 0
  else (retry_delay_ w * Z.shiftl 1 (if 6 <? attempt then 6 else attempt))%Z.

(** The loop body after the pop: [ok] is whether [insertMessage] returned
    [true] (an exception and [false] are handled alike). *)
Definition finish_write (w : t) (req : WriteRequest) (ok : bool) : t :=
  if ok then set_counters w (count_success (counters w))
  else if (req_attempt req <? max_retries_ w)%Z then
    let w1 := set_counters w (count_retry (counters w)) in
    let '(pushed, q) := DbWriteQueue.try_push (queue_ w1)
                          (mkRequest (req_msg req) (req_attempt req + 1)) in
    if pushed then set_queue w1 q
    else set_counters (set_queue w1 q) (count_dropped (counters w1))
  else set_counters w (count_fail (counters w)).

(** What the writer relies on: an insertion that answers [true] has stored the
    message, and insertions remove none. *)
Class MessageStore (D : Type) `{MessageRepo D} := {
  holds : D -> Message -> Prop;
  insert_holds msg d d' : repo_insertMessage msg d = (Some true, d') -> holds d' msg;
  insert_keeps msg msg' d : holds d msg -> holds (repo_insertMessage msg' d).2 msg
}.

Definition queued_in (w : t) : list WriteRequest := Tsq.queue_ (DbWriteQueue.base (queue_ w)).

(** An attempt to store a message, as it could be observed from outside: the
    request, what the repository answered, and the length of the queue before
    and after the writer dealt with the answer. *)
Record attempt := mkAttempt { at_req : WriteRequest; at_ok : bool; at_before : nat; at_after : nat }.

Section Loop.
Context {D : Type} `{MessageRepo D}.

(** [repo_.insertMessage] returned [true]. *)
Definition insert_ok (d : D) (msg : Message) : bool * D :=
  match repo_insertMessage msg d with
  | (Some true, d') => (true, d')
  | (_, d') => (false, d')
  end.

(** The writer with its thread: the request in hand and the database; the
    messages [enqueue] accepted, how many it refused, and the attempts made. *)
Record sys := mkSys {
  wr : t; sdb : D; in_hand : option WriteRequest;
  accepted : list Message; refused : nat; log : list attempt }.

Definition boot (w : t) (d : D) : sys := mkSys w d None [] 0 [].

Inductive op := Enqueue (msg : Message) | Take | Finish | Stop.

Definition do_enqueue (s : sys) (msg : Message) : sys :=
  let '(ok, w) := enqueue (wr s) msg in
  if ok then mkSys w (sdb s) (in_hand s) (accepted s ++ [msg]) (refused s) (log s)
  else mkSys w (sdb s) (in_hand s) (accepted s) (S (refused s)) (log s).

(** The worker takes a request when it has none. *)
Definition do_take (s : sys) : sys :=
  match in_hand s with
  | Some _ => s
  | None =>
    match DbWriteQueue.pop (queue_ (wr s)) with
    | (Tsq.Item req, q) => mkSys (set_queue (wr s) q) (sdb s) (Some req) (accepted s) (refused s) (log s)
    | _ => s
    end
  end.

Definition do_finish (s : sys) : sys :=
  match in_hand s with
  | None => s
  | Some req =>
    let '(ok, d) := insert_ok (sdb s) (req_msg req) in
    let w := finish_write (wr s) req ok in
    mkSys w d None (accepted s) (refused s)
      (log s ++ [mkAttempt req ok (length (queued_in (wr s))) (length (queued_in w))])
  end.

Definition do_op (s : sys) (o : op) : sys :=
  match o with
  | Enqueue msg => do_enqueue s msg
  | Take => do_take s
  | Finish => do_finish s
  | Stop => mkSys (stop (wr s)) (sdb s) (in_hand s) (accepted s) (refused s) (log s)
  end.

Definition run (s : sys) (ops : list op) : sys := foldl do_op s ops.

(** [worker_loop] with nobody else running: it returns when [pop] reports the
    stopped, empty queue.  [None]: blocked in [pop], or out of fuel. *)
Fixpoint worker_loop (fuel : nat) (s : sys) : option sys :=
  match fuel with
  | O => None
  | S f =>
    match (DbWriteQueue.pop (queue_ (wr s))).1 with
    | Tsq.Closed => Some s
    | Tsq.Blocked => None
    | Tsq.Item _ => worker_loop f (do_finish (do_take s))
    end
  end.

(** *** Where accepted messages are *)

Definition queued (s : sys) : list WriteRequest := queued_in (wr s).
Definition hand_list (s : sys) : list WriteRequest := option_list (in_hand s).
Definition live (s : sys) : list Message := req_msg <$> (queued s ++ hand_list s).

(** The messages of the attempts that satisfy [P]. *)
Definition tried_with (P : attempt -> bool) (l : list attempt) : list Message :=
  (fun a => req_msg (at_req a)) <$> filter (fun a => P a = true) l.

(** An attempt the repository refused and after which the queue is no longer. *)
Definition lost (a : attempt) : bool := negb (at_ok a) && negb (at_after a =? S (at_before a))%nat.
Definition last_try (max : Z) (a : attempt) : bool := (max <=? req_attempt (at_req a))%Z.
Definition can_retry (max : Z) (a : attempt) : bool :=
  negb (at_ok a) && (req_attempt (at_req a) <? max)%Z.

Definition stored (s : sys) : list Message := tried_with at_ok (log s).
Definition failed (s : sys) : list Message :=
  tried_with (fun a => lost a && last_try (max_retries_ (wr s)) a) (log s).
Definition dropped (s : sys) : list Message :=
  tried_with (fun a => lost a && negb (last_try (max_retries_ (wr s)) a)) (log s).

(** The repository has refused attempt [k] of the message. *)
Definition refused_try (l : list attempt) (m : Message) (k : Z) : Prop :=
  exists a, a ∈ l /\ req_msg (at_req a) = m /\ req_attempt (at_req a) = k /\ at_ok a = false.

(** The attempts before that of the request were refused. *)
Definition history (max : Z) (l : list attempt) (r : WriteRequest) : Prop :=
  (0 <= req_attempt r <= max)%Z /\
  forall k, (0 <= k < req_attempt r)%Z -> refused_try l (req_msg r) k.

Definition bounded (q : DbWriteQueue.t WriteRequest) : Prop :=
  let len := Z.of_nat (length (Tsq.queue_ (DbWriteQueue.base q))) in
  (0 <= DbWriteQueue.capacity_ q < two64)%Z /\ DbWriteQueue.size_ q = wrap64 len /\
  ((0 < DbWriteQueue.capacity_ q)%Z -> (len <= DbWriteQueue.capacity_ q)%Z).

(** A message is dropped only for a full queue. *)
Definition dropped_full (max capacity : Z) (a : attempt) : Prop :=
  lost a = true -> last_try max a = false -> (0 < capacity)%Z /\ Z.of_nat (at_before a) = capacity.

(** The counters count what happened. *)
Definition counts (s : sys) : Prop :=
  let max := max_retries_ (wr s) in
  let n {A} (l : list A) := wrap64 (Z.of_nat (length l)) in
  counters (wr s) = mkCounters (n (accepted s)) (wrap64 (Z.of_nat (refused s + length (dropped s))))
    (n (stored s)) (n (tried_with (can_retry max) (log s))) (n (failed s)).

Record sys_ok (s : sys) : Prop := mk_sys_ok {
  ok_retries : (0 <= max_retries_ (wr s))%Z;
  ok_live : Forall (history (max_retries_ (wr s)) (log s)) (queued s ++ hand_list s);
  ok_log : Forall (fun a => history (max_retries_ (wr s)) (log s) (at_req a)) (log s);
  ok_place : accepted s ≡ₚ live s ++ stored s ++ failed s ++ dropped s;
  ok_bounded : bounded (queue_ (wr s));
  ok_full : Forall (dropped_full (max_retries_ (wr s)) (DbWriteQueue.capacity_ (queue_ (wr s)))) (log s);
  ok_counts : counts s
}.

Lemma bump_wrap n : bump (wrap64 (Z.of_nat n)) = wrap64 (Z.of_nat (S n)).
Proof. unfold bump. rewrite DbWriteQueue.wrap64_succ. f_equal. lia. Qed.

Lemma tried_snoc P l a :
  tried_with P (l ++ [a]) = tried_with P l ++ (if P a then [req_msg (at_req a)] else []).
Proof.
  unfold tried_with. rewrite list.filter_app, fmap_app. f_equal. rewrite filter_cons.
  destruct (P a); by rewrite ?decide_True, ?decide_False by done.
Qed.

Lemma history_more max l a r : history max l r -> history max (l ++ [a]) r.
Proof.
  intros [Hb Hh]. split; [done|]. intros k Hk. destruct (Hh k Hk) as (a' & Ha & ?).
  exists a'. split; [|done]. apply elem_of_app. by left.
Qed.

Lemma history_next max l r :
  history max l r -> refused_try l (req_msg r) (req_attempt r) -> (req_attempt r < max)%Z ->
  history max l (mkRequest (req_msg r) (req_attempt r + 1)).
Proof.
  intros [Hb Hh] Ht Hm. split; simpl; [lia|]. intros k Hk.
  destruct (Z.eq_dec k (req_attempt r)) as [->|]; [done|]. apply Hh. lia.
Qed.

Lemma lost_refused a : lost a = true -> at_ok a = false.
Proof. unfold lost. by destruct (at_ok a). Qed.

Lemma can_retry_last max a : can_retry max a = negb (at_ok a) && negb (last_try max a).
Proof. unfold can_retry, last_try. by rewrite Z.ltb_antisym. Qed.

(** *** The queue *)

Lemma try_push_cases (q : DbWriteQueue.t WriteRequest) r :
  let '(ok, q') := DbWriteQueue.try_push q r in
  Tsq.queue_ (DbWriteQueue.base q') =
    Tsq.queue_ (DbWriteQueue.base q) ++ (if (ok : bool) then [r] else []) /\
  DbWriteQueue.capacity_ q' = DbWriteQueue.capacity_ q.
Proof.
  unfold DbWriteQueue.try_push, DbWriteQueue.reserve_slot_.
  destruct (_ =? 0)%Z; [done|]. destruct (_ <=? _)%Z; simpl; by rewrite ?app_nil_r.
Qed.

(** A push is refused exactly when the queue is full. *)
Lemma try_push_full q (r : WriteRequest) :
  bounded q -> (DbWriteQueue.try_push q r).1 = false ->
  (0 < DbWriteQueue.capacity_ q)%Z /\
  Z.of_nat (length (Tsq.queue_ (DbWriteQueue.base q))) = DbWriteQueue.capacity_ q.
Proof.
  intros (Hc & Hs & Hl). unfold DbWriteQueue.try_push, DbWriteQueue.reserve_slot_. rewrite Hs.
  destruct (Z.eqb_spec (DbWriteQueue.capacity_ q) 0); [done|]. rewrite wrap64_small by lia.
  destruct (Z.leb_spec (DbWriteQueue.capacity_ q)
    (Z.of_nat (length (Tsq.queue_ (DbWriteQueue.base q))))); [|done]. intros _. lia.
Qed.

Lemma try_push_bounded q r : bounded q -> bounded (DbWriteQueue.try_push q r).2.
Proof.
  intros (Hc & Hs & Hl). unfold DbWriteQueue.try_push, DbWriteQueue.reserve_slot_. rewrite Hs.
  destruct (Z.eqb_spec (DbWriteQueue.capacity_ q) 0); [|destruct (Z.leb_spec
    (DbWriteQueue.capacity_ q) (wrap64 (Z.of_nat (length (Tsq.queue_ (DbWriteQueue.base q)))))); [done|]];
    unfold bounded; simpl; rewrite length_app, DbWriteQueue.wrap64_succ; simpl;
    (split; [done|]; split; [f_equal; lia|]); intros; [lia|].
  rewrite wrap64_small in H0 by lia. lia.
Qed.

Lemma pop_bounded q : bounded q -> bounded (DbWriteQueue.pop q).2.
Proof.
  intros (Hc & Hs & Hl). unfold DbWriteQueue.pop, DbWriteQueue.take, Tsq.pop.
  destruct (Tsq.queue_ (DbWriteQueue.base q)) as [|r l] eqn:E.
  { destruct (Tsq.stopped_ _); unfold bounded; simpl; rewrite E; simpl; rewrite Hs; done. }
  unfold bounded, DbWriteQueue.release. simpl in *. rewrite Hs.
  replace (Z.of_nat (S (length l))) with (Z.of_nat (length l) + 1)%Z by lia.
  rewrite DbWriteQueue.wrap64_pred. split; [done|]. split; [done|]. intros. lia.
Qed.

Lemma pop_queue (q : DbWriteQueue.t WriteRequest) r q' :
  DbWriteQueue.pop q = (Tsq.Item r, q') ->
  Tsq.queue_ (DbWriteQueue.base q) = r :: Tsq.queue_ (DbWriteQueue.base q') /\
  DbWriteQueue.capacity_ q' = DbWriteQueue.capacity_ q.
Proof.
  unfold DbWriteQueue.pop, DbWriteQueue.take, Tsq.pop.
  destruct (Tsq.queue_ (DbWriteQueue.base q)); [by destruct (Tsq.stopped_ _)|].
  by intros [= <- <-].
Qed.

(** *** The operations *)

Lemma writer_enqueue_ok s msg : sys_ok s -> sys_ok (do_enqueue s msg).
Proof.
  intros [H1 H2 H3 H4 H5 H6 H7]. unfold do_enqueue, enqueue.
  pose proof (try_push_cases (queue_ (wr s)) (mkRequest msg 0)) as Hp.
  pose proof (try_push_bounded _ (mkRequest msg 0) H5) as Hb.
  destruct (DbWriteQueue.try_push _ _) as [[] q]; simpl in Hp, Hb; destruct Hp as [Hp Hc].
  - split; try done; unfold live, queued, queued_in, hand_list, counts, stored, failed, dropped in *;
      simpl in *; rewrite ?Hp, ?Hc; try done.
    + rewrite <- app_assoc. apply list.Forall_app in H2 as [Ha Hh].
      apply list.Forall_app; split; [done|]. apply list.Forall_app. split; [|done].
      apply list.Forall_singleton. split; simpl; [lia|]. intros k Hk. lia.
    + rewrite H4, !fmap_app. simpl. solve_Permutation.
    + rewrite H7, length_app, Nat.add_1_r. unfold count_enqueued. simpl. by rewrite bump_wrap.
  - rewrite app_nil_r in Hp.
    split; try done; unfold live, queued, queued_in, hand_list, counts, stored, failed, dropped in *;
      simpl in *; rewrite ?Hp, ?Hc; try done.
    rewrite H7. unfold count_dropped. simpl. by rewrite bump_wrap.
Qed.

Lemma take_ok s : sys_ok s -> sys_ok (do_take s).
Proof.
  intros [H1 H2 H3 H4 H5 H6 H7]. unfold do_take. destruct (in_hand s) eqn:Eh; [done|].
  destruct (DbWriteQueue.pop _) as [[| |r] q] eqn:Ep; try done.
  pose proof (pop_bounded _ H5) as Hb. rewrite Ep in Hb. apply pop_queue in Ep as [Ep Hc].
  split; try done; unfold live, queued, queued_in, hand_list, counts, stored, failed, dropped in *;
    simpl in *; rewrite ?Eh, ?Ep, ?Hc, ?app_nil_r in *; try done.
  - apply list.Forall_app. inversion H2. auto.
  - rewrite H4, fmap_app. simpl. solve_Permutation.
Qed.

(** The state after an attempt, by what happened. *)
Lemma log_grows s w d req ok n n' :
  let a := mkAttempt req ok n n' in
  let s' := mkSys w d None (accepted s) (refused s) (log s ++ [a]) in
  max_retries_ w = max_retries_ (wr s) ->
  stored s' = stored s ++ (if ok then [req_msg req] else []) /\
  failed s' = failed s ++ (if lost a && last_try (max_retries_ (wr s)) a then [req_msg req] else []) /\
  dropped s' = dropped s ++ (if lost a && negb (last_try (max_retries_ (wr s)) a) then [req_msg req] else []) /\
  tried_with (can_retry (max_retries_ w)) (log s') =
    tried_with (can_retry (max_retries_ (wr s))) (log s) ++
    (if can_retry (max_retries_ (wr s)) a then [req_msg req] else []).
Proof.
  intros a s' Hw. unfold stored, failed, dropped. simpl. rewrite Hw, !tried_snoc. done.
Qed.

(** What one attempt leaves: the queue, and the counters. *)
Lemma finish_cases w req ok :
  bounded (queue_ w) -> (0 <= req_attempt req <= max_retries_ w)%Z ->
  let w' := finish_write w req ok in
  let a := mkAttempt req ok (length (queued_in w)) (length (queued_in w')) in
  let max := max_retries_ w in
  max_retries_ w' = max /\ bounded (queue_ w') /\
  DbWriteQueue.capacity_ (queue_ w') = DbWriteQueue.capacity_ (queue_ w) /\
  dropped_full max (DbWriteQueue.capacity_ (queue_ w)) a /\
  queued_in w' = queued_in w ++
    (if negb ok && negb (lost a) then [mkRequest (req_msg req) (req_attempt req + 1)] else []) /\
  (ok = false -> lost a = false -> (req_attempt req < max)%Z) /\
  counters w' =
    (if ok then count_success (counters w)
     else if last_try max a then count_fail (counters w)
     else if lost a then count_dropped (count_retry (counters w)) else count_retry (counters w)).
Proof.
  intros Hb Hr. unfold finish_write, dropped_full, lost, last_try. cbn [at_ok at_req at_before at_after].
  destruct ok; simpl; [rewrite app_nil_r; by split_and!|].
  destruct (Z.ltb_spec (req_attempt req) (max_retries_ w)) as [Hlt|Hge].
  2:{ rewrite (proj2 (Z.leb_le _ _) Hge). simpl.
      change (queued_in (set_counters w (count_fail (counters w)))) with (queued_in w).
      destruct (Nat.eqb_spec (length (queued_in w)) (S (length (queued_in w)))) as [Hx|_]; [lia|].
      simpl. rewrite app_nil_r. by split_and!. }
  rewrite (proj2 (Z.leb_gt _ _) Hlt).
  pose proof (try_push_cases (queue_ w) (mkRequest (req_msg req) (req_attempt req + 1))) as Hp.
  pose proof (try_push_bounded _ (mkRequest (req_msg req) (req_attempt req + 1)) Hb) as Hb'.
  pose proof (try_push_full _ (mkRequest (req_msg req) (req_attempt req + 1)) Hb) as Hf.
  simpl. destruct (DbWriteQueue.try_push _ _) as [[] q]; simpl in Hp, Hb', Hf; destruct Hp as [Hp Hc];
    unfold queued_in in *; simpl; rewrite Hp.
  - rewrite length_app, Nat.add_1_r, Nat.eqb_refl. by split_and!.
  - rewrite app_nil_r. set (n := length _).
    destruct (Nat.eqb_spec n (S n)) as [Hx|_]; [lia|]. simpl. rewrite app_nil_r.
    split_and!; auto; by intros _ _.
Qed.

(** The counters after an attempt. *)
Lemma counted s (m : Message) (ok lst last : bool) :
  (lst = true -> ok = false) -> (ok = false -> lst = false -> last = false) ->
  let retries := tried_with (can_retry (max_retries_ (wr s))) (log s) in
  let n {A} (l : list A) := wrap64 (Z.of_nat (length l)) in
  let put (b : bool) l := l ++ (if b then [m] else []) in
  let c := mkCounters (n (accepted s)) (wrap64 (Z.of_nat (refused s + length (dropped s))))
             (n (stored s)) (n retries) (n (failed s)) in
  (if ok then count_success c else if last then count_fail c
   else if lst then count_dropped (count_retry c) else count_retry c) =
  mkCounters (n (accepted s))
    (wrap64 (Z.of_nat (refused s + length (put (lst && negb last) (dropped s)))))
    (n (put ok (stored s))) (n (put (negb ok && negb last) retries)) (n (put (lst && last) (failed s))).
Proof.
  intros Hl Ha. unfold count_success, count_fail, count_dropped, count_retry. simpl.
  rewrite !bump_wrap, !length_app.
  destruct ok, lst, last; try (discriminate (Hl eq_refl)); try (discriminate (Ha eq_refl eq_refl));
    simpl; rewrite ?Nat.add_0_r, ?Nat.add_1_r, ?Nat.add_succ_r; done.
Qed.

Lemma finish_ok s : sys_ok s -> sys_ok (do_finish s).
Proof.
  intros [H1 H2 H3 H4 H5 H6 H7]. unfold do_finish. destruct (in_hand s) as [req|] eqn:Eh; [|done].
  unfold live, hand_list in H2, H4. rewrite Eh in H2, H4. apply list.Forall_app in H2 as [Hq Hr].
  simpl in Hr. apply list.Forall_singleton in Hr as [Hreq Hhist].
  destruct (insert_ok (sdb s) (req_msg req)) as [ok d].
  destruct (finish_cases (wr s) req ok H5 Hreq) as (Hmax & Hb & Hcap & Hfull & Hqueue & Hagain & Hcnt).
  set (w := finish_write (wr s) req ok) in *. set (a := mkAttempt _ _ _ _) in *.
  destruct (log_grows s w d req ok (length (queued_in (wr s))) (length (queued_in w)) Hmax)
    as (Gs & Gf & Gd & Gr). fold a in Gs, Gf, Gd, Gr. set (s' := mkSys _ _ _ _ _ _) in *.
  assert (Hself : history (max_retries_ (wr s)) (log s ++ [a]) req) by by apply history_more.
  assert (Htry : ok = false -> refused_try (log s ++ [a]) (req_msg req) (req_attempt req)).
  { intros ->. exists a. split; [|done]. apply elem_of_app. right. by apply list_elem_of_singleton. }
  pose proof (lost_refused a) as Hlost. simpl (at_ok a) in Hlost.
  split; simpl; rewrite ?Hmax, ?Hcap; try done.
  - unfold queued, hand_list. simpl. rewrite Hqueue, app_nil_r. apply list.Forall_app. split.
    { eapply list.Forall_impl; [exact Hq|]. intros; by apply history_more. }
    destruct ok, (lost a); simpl; try (by constructor). apply list.Forall_singleton, history_next; auto.
  - apply list.Forall_app. split; [|by apply list.Forall_singleton].
    eapply list.Forall_impl; [exact H3|]. intros; by apply history_more.
  - rewrite Gs, Gf, Gd, H4. unfold live, queued, hand_list. simpl. rewrite Hqueue, !fmap_app. simpl.
    destruct ok, (lost a), (last_try _ a); simpl; try (discriminate (Hlost eq_refl)); solve_Permutation.
  - apply list.Forall_app. split; [done|by apply list.Forall_singleton].
  - unfold counts. change (wr s') with w. change (accepted s') with (accepted s).
    change (refused s') with (refused s). rewrite Gs, Gf, Gd, Gr, Hcnt, H7, can_retry_last. simpl (at_ok a). apply counted; [done|]. intros ? ?.
    apply Z.leb_gt. auto.
Qed.

Lemma op_keeps_ok s o : sys_ok s -> sys_ok (do_op s o).
Proof.
  destruct o; simpl; [apply writer_enqueue_ok|apply take_ok|apply finish_ok|].
  intros [H1 H2 H3 H4 H5 H6 H7]. unfold stop. by destruct (running_ (wr s)).
Qed.

Lemma run_keeps_ok ops : forall s, sys_ok s -> sys_ok (run s ops).
Proof. induction ops as [|o ops IH]; intros s Hs; [done|]. by apply IH, op_keeps_ok. Qed.

Lemma boot_ok w d :
  counters w = mkCounters 0 0 0 0 0 -> queued_in w = [] -> DbWriteQueue.size_ (queue_ w) = 0%Z ->
  (0 <= DbWriteQueue.capacity_ (queue_ w) < two64)%Z -> (0 <= max_retries_ w)%Z -> sys_ok (boot w d).
Proof.
  intros Hc Hq Hz Hcap Hm.
  split; unfold live, queued, hand_list, counts; simpl; rewrite ?Hq; try done; try by constructor.
  unfold bounded. unfold queued_in in Hq. rewrite Hq, Hz. simpl. split_and!; [lia..|done|lia].
Qed.

(** The settings do not change. *)
Lemma op_config s o :
  max_retries_ (wr (do_op s o)) = max_retries_ (wr s) /\
  DbWriteQueue.capacity_ (queue_ (wr (do_op s o))) = DbWriteQueue.capacity_ (queue_ (wr s)).
Proof.
  destruct o; simpl.
  - unfold do_enqueue, enqueue. pose proof (try_push_cases (queue_ (wr s)) (mkRequest msg 0)).
    destruct (DbWriteQueue.try_push _ _) as [[] q]; naive_solver.
  - unfold do_take. destruct (in_hand s); [done|].
    destruct (DbWriteQueue.pop _) as [[| |r] q] eqn:Ep; try done. by apply pop_queue in Ep as [_ ?].
  - unfold do_finish. destruct (in_hand s) as [req|]; [|done]. destruct (insert_ok _ _) as [[] d]; [done|].
    simpl. unfold finish_write. destruct (_ <? _)%Z; [|done].
    pose proof (try_push_cases (queue_ (wr s)) (mkRequest (req_msg req) (req_attempt req + 1))).
    simpl. destruct (DbWriteQueue.try_push _ _) as [[] q]; naive_solver.
  - unfold stop. by destruct (running_ (wr s)).
Qed.

Lemma run_config ops : forall s,
  max_retries_ (wr (run s ops)) = max_retries_ (wr s) /\
  DbWriteQueue.capacity_ (queue_ (wr (run s ops))) = DbWriteQueue.capacity_ (queue_ (wr s)).
Proof.
  induction ops as [|o ops IH]; intros s; [done|]. simpl.
  destruct (IH (do_op s o)) as [-> ->]. apply op_config.
Qed.

(** What [insertMessage] acknowledged is in the database. *)
Lemma op_holds `{!MessageStore D} s o :
  Forall (holds (sdb s)) (stored s) -> Forall (holds (sdb (do_op s o))) (stored (do_op s o)).
Proof.
  intros Hs. destruct o; simpl; [| |unfold do_finish|done].
  - unfold do_enqueue. by destruct (enqueue _ _) as [[] w].
  - unfold do_take. destruct (in_hand s); [done|]. by destruct (DbWriteQueue.pop _) as [[] q].
  - destruct (in_hand s) as [req|]; [|done].
    assert (Hk : Forall (holds (repo_insertMessage (req_msg req) (sdb s)).2) (stored s))
      by (eapply list.Forall_impl; [exact Hs|]; intros; by apply insert_keeps).
    unfold insert_ok. destruct (repo_insertMessage _ _) as [[[]|] d] eqn:E; unfold stored; simpl in *;
      rewrite tried_snoc; simpl; rewrite ?app_nil_r; try done.
    apply list.Forall_app. split; [done|]. apply list.Forall_singleton. by eapply insert_holds.
Qed.

Lemma run_holds `{!MessageStore D} ops : forall s,
  Forall (holds (sdb s)) (stored s) -> Forall (holds (sdb (run s ops))) (stored (run s ops)).
Proof. induction ops as [|o ops IH]; intros s Hs; [done|]. by apply IH, op_holds. Qed.

(** A message given up for good was refused at every attempt. *)
Lemma failed_tried s m k :
  sys_ok s -> m ∈ failed s -> (0 <= k <= max_retries_ (wr s))%Z -> refused_try (log s) m k.
Proof.
  intros [_ _ Hlog _ _ _ _] Hm Hk. unfold failed, tried_with in Hm.
  apply list_elem_of_fmap in Hm as (a & -> & Ha). apply list_elem_of_filter in Ha as [Hp Ha].
  apply andb_true_iff in Hp as [Hl Ht]. apply lost_refused in Hl. apply Z.leb_le in Ht.
  destruct (proj1 (list.Forall_forall _ _) Hlog a Ha) as [Hb Hh].
  destruct (Z.eq_dec k (req_attempt (at_req a))) as [->|]; [by exists a|]. apply Hh. lia.
Qed.

(** C30: no accepted message disappears.  Whatever the interleaving of
    senders, the writer's thread and a stop, and whatever the database answers,
    each message [enqueue] accepted is in exactly one place: queued, in the
    writer's hands, stored, failed or dropped.  These are read off the attempts
    observed, that is the request, the answer of [insertMessage] and the length
    of the queue before and after, and not off what the writer thinks: a
    message is stored when the database answered [true], and then the database
    holds it; it has failed when the database refused it at each of its
    [max_retries + 1] attempts; it was dropped when it was refused, could have
    been tried again, and did not go back into the queue, which happens only
    when the queue was full.  A request with attempt number [k] has been refused
    [k] times before and [k] never exceeds [max_retries].  The five counters of
    the metrics count these events, modulo [2^64]. *)
Theorem accepted_messages_accounted `{!MessageStore D} (capacity max_retries delay : Z) (d : D)
    (ops : list op) :
  (0 <= capacity < two64)%Z -> (0 <= max_retries)%Z ->
  let s := run (boot (create capacity max_retries delay) d) ops in
  accepted s ≡ₚ live s ++ stored s ++ failed s ++ dropped s /\
  Forall (holds (sdb s)) (stored s) /\
  (forall m k, m ∈ failed s -> (0 <= k <= max_retries)%Z -> refused_try (log s) m k) /\
  (forall a, a ∈ log s -> lost a = true -> last_try max_retries a = false ->
    (0 < capacity)%Z /\ Z.of_nat (at_before a) = capacity) /\
  (forall r, r ∈ queued s ++ hand_list s ++ (at_req <$> log s) -> history max_retries (log s) r) /\
  counts s.
Proof.
  intros Hc Hm s. assert (Hs : sys_ok s) by by apply run_keeps_ok, boot_ok.
  destruct (run_config ops (boot (create capacity max_retries delay) d)) as [Hret Hcap].
  fold s in Hret, Hcap. simpl in Hret, Hcap. pose proof (fun m k => failed_tried s m k Hs) as Hfail.
  destruct Hs as [H1 H2 H3 H4 H5 H6 H7]. rewrite Hret in *. rewrite Hcap in *.
  split; [done|]. split; [apply run_holds; constructor|]. split; [intros; by apply Hfail|].
  split; [intros a Ha; exact (proj1 (list.Forall_forall _ _) H6 a Ha)|]. split; [|done].
  intros r. rewrite app_assoc. intros [Hr|Hr]%elem_of_app.
  - exact (proj1 (list.Forall_forall _ _) H2 r Hr).
  - apply list_elem_of_fmap in Hr as (a & -> & Ha). exact (proj1 (list.Forall_forall _ _) H3 a Ha).
Qed.

(** *** Stopping *)

(** There is room for the request just taken. *)
Lemma room_after_pop q r q' :
  bounded q -> DbWriteQueue.pop q = (Tsq.Item r, q') -> (0 < DbWriteQueue.capacity_ q')%Z ->
  (Z.of_nat (length (Tsq.queue_ (DbWriteQueue.base q'))) < DbWriteQueue.capacity_ q')%Z.
Proof.
  intros (_ & _ & Hl) Hp Hc. apply pop_queue in Hp as [Hq Hcap]. rewrite Hcap in *.
  rewrite Hq in Hl. simpl in Hl. lia.
Qed.

Definition is_stopped (s : sys) : bool := Tsq.stopped_ (DbWriteQueue.base (queue_ (wr s))).

Definition stopping (s : sys) : Prop := running_ (wr s) = true \/ is_stopped s = true.

Lemma try_push_stopped q (r : WriteRequest) :
  Tsq.stopped_ (DbWriteQueue.base (DbWriteQueue.try_push q r).2) = Tsq.stopped_ (DbWriteQueue.base q).
Proof.
  unfold DbWriteQueue.try_push, DbWriteQueue.reserve_slot_.
  destruct (_ =? 0)%Z; [done|]. by destruct (_ <=? _)%Z.
Qed.

Lemma pop_stopped (q : DbWriteQueue.t WriteRequest) :
  Tsq.stopped_ (DbWriteQueue.base (DbWriteQueue.pop q).2) = Tsq.stopped_ (DbWriteQueue.base q).
Proof.
  destruct q as [[l st] c z]. unfold DbWriteQueue.pop, DbWriteQueue.take, Tsq.pop. simpl.
  by destruct l, st.
Qed.

Lemma finish_stopped w req ok :
  Tsq.stopped_ (DbWriteQueue.base (queue_ (finish_write w req ok))) =
  Tsq.stopped_ (DbWriteQueue.base (queue_ w)) /\ running_ (finish_write w req ok) = running_ w.
Proof.
  unfold finish_write. destruct ok; [done|]. destruct (_ <? _)%Z; [|done].
  pose proof (try_push_stopped (queue_ w) (mkRequest (req_msg req) (req_attempt req + 1))) as Hp.
  simpl. by destruct (DbWriteQueue.try_push _ _) as [[] q].
Qed.

Lemma op_stopping s o :
  (is_stopped s = true -> is_stopped (do_op s o) = true) /\ (stopping s -> stopping (do_op s o)).
Proof.
  assert (Hk : forall w' d h a n l, Tsq.stopped_ (DbWriteQueue.base (queue_ w')) = is_stopped s ->
    running_ w' = running_ (wr s) ->
    let s' := mkSys w' d h a n l in
    (is_stopped s = true -> is_stopped s' = true) /\ (stopping s -> stopping s')).
  { intros w' d h a n l H1 H2. unfold stopping, is_stopped in *. simpl. by rewrite H1, H2. }
  destruct o; simpl.
  - unfold do_enqueue, enqueue. pose proof (try_push_stopped (queue_ (wr s)) (mkRequest msg 0)).
    destruct (DbWriteQueue.try_push _ _) as [[] q]; by apply Hk.
  - unfold do_take. destruct (in_hand s); [done|]. pose proof (pop_stopped (queue_ (wr s))).
    destruct (DbWriteQueue.pop _) as [[] q]; [done|done|by apply Hk].
  - unfold do_finish. destruct (in_hand s) as [req|]; [|done].
    destruct (insert_ok _ _) as [ok d]. pose proof (finish_stopped (wr s) req ok) as [? ?].
    by apply Hk.
  - unfold stop, stopping, is_stopped. simpl. destruct (running_ (wr s)) eqn:E; simpl; [by split; auto|].
    rewrite E. done.
Qed.

Lemma run_stopping ops : forall s, stopping s -> stopping (run s ops).
Proof. induction ops as [|o ops IH]; intros s Hs; [done|]. by apply IH, op_stopping. Qed.

Lemma stop_stops s : stopping s -> is_stopped (do_op s Stop) = true.
Proof.
  unfold stopping, is_stopped. simpl. unfold stop. destruct (running_ (wr s)) eqn:E; [done|].
  by intros [?|?].
Qed.

(** Attempts left in the queue. *)
Definition work (s : sys) : nat :=
  sum_list_with (fun r => Z.to_nat (max_retries_ (wr s) - req_attempt r + 1)) (queued s).

(** One round of the loop on a stopped queue uses up an attempt and drops
    nothing. *)
Lemma round_works s r q :
  sys_ok s -> is_stopped s = true -> in_hand s = None ->
  DbWriteQueue.pop (queue_ (wr s)) = (Tsq.Item r, q) ->
  let s' := do_finish (do_take s) in
  work s' < work s /\ dropped s' = dropped s /\ accepted s' = accepted s /\
  is_stopped s' = true /\ in_hand s' = None.
Proof.
  intros Hs Hst Hh Hp s'. pose proof (pop_queue _ _ _ Hp) as [Hq _].
  pose proof (room_after_pop _ _ _ (ok_bounded s Hs) Hp) as Hroom.
  pose proof (pop_bounded _ (ok_bounded s Hs)) as Hb. rewrite Hp in Hb.
  pose proof (pop_stopped (queue_ (wr s))) as Hst'. rewrite Hp in Hst'. simpl in Hst'.
  unfold is_stopped in Hst. rewrite Hst in Hst'.
  destruct Hs as [H1 H2 _ _ _ _ _]. unfold queued, queued_in in H2. rewrite Hq in H2.
  inversion H2 as [|? ? [Hr _] _]; subst. clear H2. set (w := set_queue (wr s) q).
  subst s'. unfold do_take, do_finish. rewrite Hh, Hp. simpl.
  destruct (insert_ok (sdb s) (req_msg r)) as [ok d].
  destruct (finish_cases w r ok Hb Hr) as (Hmax & _ & _ & Hfull & Hqueue & Hagain & _).
  destruct (finish_stopped w r ok) as [Hs' _]. fold w.
  set (w' := finish_write w r ok) in *. set (a := mkAttempt _ _ _ _) in *.
  destruct (log_grows s w' d r ok (length (queued_in w)) (length (queued_in w')) Hmax) as (_ & _ & Gd & _).
  split_and!; [| |done|by unfold is_stopped; simpl; rewrite Hs'|done].
  - unfold work, queued. simpl. rewrite Hqueue, Hmax, sum_list_with_app. unfold queued_in. rewrite Hq.
    simpl. destruct ok, (lost a); simpl; lia.
  - fold a in Gd. rewrite Gd. destruct (lost a) eqn:El, (last_try _ a) eqn:Et; simpl; rewrite ?app_nil_r; try done.
    destruct (Hfull El Et) as [Hpos Hlen]. specialize (Hroom Hpos).
    change (Z.of_nat (length (Tsq.queue_ (DbWriteQueue.base q))) = DbWriteQueue.capacity_ q) in Hlen. lia.
Qed.

Lemma loop_drains n : forall s,
  work s < n -> sys_ok s -> is_stopped s = true -> in_hand s = None ->
  exists s', worker_loop n s = Some s' /\ queued s' = [] /\ in_hand s' = None /\ sys_ok s' /\
    dropped s' = dropped s /\ accepted s' = accepted s.
Proof.
  induction n as [|n IH]; intros s Hn Hs Hst Hh; [lia|]. cbn [worker_loop].
  destruct (DbWriteQueue.pop (queue_ (wr s))) as [[| |r] q] eqn:Ep.
  - exfalso. revert Ep Hst. unfold is_stopped, DbWriteQueue.pop, DbWriteQueue.take, Tsq.pop.
    destruct (Tsq.queue_ _); [|done]. by destruct (Tsq.stopped_ _).
  - exists s. split_and!; try done. revert Ep. unfold queued, queued_in, DbWriteQueue.pop, DbWriteQueue.take,
      Tsq.pop. by destruct (Tsq.queue_ _).
  - destruct (round_works s r q) as (Hw & Hd & Ha & Hst' & Hh'); [done..|].
    destruct (IH (do_finish (do_take s))) as (s' & Hl & Hq & Hi & Ho & Hd' & Ha').
    + lia.
    + by apply finish_ok, take_ok.
    + done.
    + done.
    + exists s'. rewrite Hd', Ha'. by split_and!.
Qed.

(** Stopping the writer loses nothing.  After any run of senders and the
    writer's thread followed by [stop], the thread finishes what it has in hand
    and its loop returns, with the queue empty: every message ever accepted is
    stored, or has failed all its attempts, or was dropped before the stop. *)
Theorem writer_shutdown_drains (capacity max_retries delay : Z) (d : D) (ops : list op) :
  (0 <= capacity < two64)%Z -> (0 <= max_retries)%Z ->
  let s := do_finish (run (boot (start (create capacity max_retries delay)) d) (ops ++ [Stop])) in
  exists s', worker_loop (S (work s)) s = Some s' /\ queued s' = [] /\
    accepted s' = accepted s /\ dropped s' = dropped s /\
    accepted s ≡ₚ stored s' ++ failed s' ++ dropped s.
Proof.
  intros Hc Hm s. set (s0 := boot (start (create capacity max_retries delay)) d) in s.
  assert (Hok : sys_ok s) by by apply finish_ok, run_keeps_ok, boot_ok.
  assert (Hst : is_stopped s = true).
  { apply (op_stopping _ Finish). subst s. unfold run. rewrite foldl_app. apply stop_stops.
    apply run_stopping. by left. }
  destruct (loop_drains (S (work s)) s) as (s' & Hl & Hq & Hh & [_ _ _ Hp _ _ _] & Hd & Ha);
    [lia|done|done| |].
  { subst s. unfold do_finish. destruct (in_hand (run _ _)) eqn:E; [|done].
    by destruct (insert_ok _ _). }
  exists s'. split_and!; try done. rewrite <- Ha, Hp. unfold live, hand_list. rewrite Hq, Hh, Hd.
  done.
Qed.

End Loop.
Arguments sys : clear implicits.
Arguments accepted {D} _.
Arguments refused {D} _.
Arguments log {D} _.
Arguments stored {D} _.
Arguments failed {D} _.
Arguments dropped {D} _.

(** In the list of messages of the examples, a message is held when one with its
    id, channel and text is there. *)
#[global] Program Instance demo_message_store : MessageStore (list Message) := {
  holds d msg := exists m, m ∈ d /\ m_id m = m_id msg /\ m_ch_id m = m_ch_id msg /\ m_text m = m_text msg
}.
Next Obligation.
  intros msg d d'. simpl. unfold DemoMessages.store. destruct (4000 <? _); [done|]. intros [= <-].
  eexists. split; [apply elem_of_app; right; by apply list_elem_of_singleton|done].
Qed.
Next Obligation.
  intros msg msg' d (m & Hm & ?). exists m. split; [|done]. simpl. unfold DemoMessages.store.
  destruct (4000 <? _); simpl; [done|]. apply elem_of_app. by left.
Qed.

(** Four messages for a queue of two: the second is too long for the table and
    fails for good, the third finds a full queue behind it. *)
Definition demo_ops : list op :=
  let m := DemoMessages.note in
  let long := m (DemoMessages.letters 4001) in
  [Enqueue (m "a"); Take; Enqueue long; Finish; Enqueue (m "b"); Enqueue (m "c");
   Take; Finish; Take; Finish; Take; Finish; Enqueue (m "d"); Take; Enqueue long; Finish; Take;
   Enqueue (m "e"); Enqueue (m "f"); Finish].

Lemma accepted_messages_accounted_witness :
  let s := run (boot (create 2 1 50) ([] : list Message)) demo_ops in
  (length (accepted s), length (live s), length (stored s), length (failed s), length (dropped s),
   refused s) = (7, 2, 3, 1, 1, 1)%nat /\
  counters (wr s) = mkCounters 7 2 3 2 1 /\
  accepted s ≡ₚ live s ++ stored s ++ failed s ++ dropped s /\ counts s.
Proof.
  split; [vm_compute; reflexivity|]. split; [vm_compute; reflexivity|].
  destruct (accepted_messages_accounted 2 1 50 ([] : list Message) demo_ops)
    as (H1 & _ & _ & _ & _ & H2); [unfold two64; lia|lia|]. split; [exact H1|exact H2].
Defined.

Lemma writer_shutdown_drains_witness :
  let s := do_finish (run (boot (start (create 8 2 50)) ([] : list Message)) (demo_ops ++ [Stop])) in
  exists s', worker_loop (S (work s)) s = Some s' /\ queued s' = [] /\
    accepted s ≡ₚ stored s' ++ failed s' ++ dropped s.
Proof.
  destruct (writer_shutdown_drains 8 2 50 ([] : list Message) demo_ops) as (s' & H1 & H2 & _ & _ & H3).
  - unfold two64. lia.
  - lia.
  - exists s'. split; [exact H1|]. split; [exact H2|exact H3].
Defined.
End Writer.

(** ** The message service *)

Module MessageService.

Inductive MessageError := RepoFailure | QueueFull.

#[global] Instance MessageError_eq_dec : EqDecision MessageError.
Proof. solve_decision. Defined.

Section Service.
Context {X D : Type} `{External X} `{Uniform} `{MessageRepo D}.

(** The service with the database and the world it runs in. *)
Record t := mk { async_writer_ : option Writer.t; ms_db : D; ms_ext : X }.

Definition create (d : D) (x : X) : t := mk None d x.

(** A repository call under [try ... catch (...)]. *)
Definition guarded {A} (m : EX D A) : ST t (expected A MessageError) :=
  fun s => match m (ms_db s) with
           | (Some a, d) => (Ok a, mk (async_writer_ s) d (ms_ext s))
           | (None, d) => (Unexpected RepoFailure, mk (async_writer_ s) d (ms_ext s))
           end.

Definition fetchMessages (channel : ChannelId) (limit : Z)
  : ST t (expected (list Message) MessageError) := guarded (repo_fetchMessages channel limit).
Definition fetchMessagesAfter (channel : ChannelId) (after : MessageCursor) (limit : Z)
  : ST t (expected (list Message) MessageError) :=
  guarded (repo_fetchMessagesAfter channel after limit).
Definition fetchMessagesBefore (channel : ChannelId) (before : MessageCursor) (limit : Z)
  : ST t (expected (list Message) MessageError) :=
  guarded (repo_fetchMessagesBefore channel before limit).

Definition now_unix_us : ST X Z :=
  (us <-- unix_now_us; st_ret (if (0 <? us)%Z then us else 0%Z))%st.

(** The message an asynchronous send builds: no sequence number yet. *)
Definition new_message (id : string) (now : Z) (channel : ChannelId) (sender : UserId)
  (content : string) (attachments : list MessageAttachment)
  (link_preview : option MessageLinkPreview) : Message :=
  mkMessage (mkMessageId id) channel sender Chat content attachments link_preview PENDING 0 now.

Definition sendMessage (channel : ChannelId) (sender : UserId) (content : string)
  (attachments : list MessageAttachment) (link_preview : option MessageLinkPreview)
  : ST t (expected Message MessageError) :=
  fun s =>
    match async_writer_ s with
    | Some w =>
      let '(id, x1) := Uuid.generate_uuid_v4 (ms_ext s) in
      let '(now, x2) := now_unix_us x1 in
      let msg := new_message id now channel sender content attachments link_preview in
      match Writer.enqueue w msg with
      | (true, w') => (Ok msg, mk (Some w') (ms_db s) x2)
      | (false, w') => (Unexpected QueueFull, mk (Some w') (ms_db s) x2)
      end
    | None => guarded (repo_sendMessage channel sender content attachments link_preview) s
    end.

Definition startAsyncWriter (capacity max_retries retry_delay : Z) (s : t) : t :=
  match async_writer_ s with
  | Some _ => s
  | None => mk (Some (Writer.start (Writer.create capacity max_retries retry_delay)))
               (ms_db s) (ms_ext s)
  end.

(** The writer thread is joined before the writer goes: it writes what is
    queued, with as many turns as there are attempts left. *)
Definition stopAsyncWriter (s : t) : t :=
  match async_writer_ s with
  | Some w =>
    let stopping := Writer.boot (Writer.stop w) (ms_db s) in
    mk None (from_option Writer.sdb (ms_db s)
               (Writer.worker_loop (S (Writer.work stopping)) stopping)) (ms_ext s)
  | None => s
  end.

End Service.
Arguments t : clear implicits.
End MessageService.
