(* ===== verification/UserService.v ===== *)
(** * Users and the user cache

    [app/services/user/UserService.cpp] and [UserCache.cpp]: profiles read
    through a cache, and the update that refreshes it.  The repository is a
    parameter [UserRepo D]; [UserRepoLaws] states what its SQL does to the
    table of active profiles. *)

From S2P Require Import Prelude.
From S2P Require Import CStrings.
From S2P Require Import Ids.
From S2P Require Import Protocol.
From S2P Require Import ServerEvents.
From S2P Require Import HubService.
From S2P Require Import HubCoherence.

Class UserRepo (D : Type) := {
  repo_getUser : UserId -> EX D (option User);
  repo_getUsersByIds : list UserId -> EX D (list User);
  repo_updateUserProfile : UserId -> option string -> option string -> option string -> EX D User
}.

(** The exception a throwing repository call left: its [what()] and whether it
    is a [pqxx::unique_violation].  The database library's exceptions all derive
    from [std::exception]. *)
Class DbErrors (D : Type) := {
  err_what : D -> string;
  err_unique_violation : D -> bool
}.

Module UserService.

Inductive UpdateError := RepoFailure | DuplicateUsername.

Definition user_is_empty (u : UserId) : bool := bool_decide (user_value u = ""%string).

Section Service.
Context {D : Type} `{UserRepo D} `{DbErrors D}.
(** [std::hash<UserId>], the cache key. *)
Variable hash : UserId -> Z.

Record t := mk { cache_ : gmap Z User; db : D }.

Definition create (d : D) : t := mk ∅ d.

Definition repo {A} (m : EX D A) : EX t A :=
  fun s => let '(r, d') := m (db s) in (r, mk (cache_ s) d').

(** [UserCache]: only users are stored, so no entry is corrupted. *)
Definition cache_get (s : t) (id : UserId) : option User := cache_ s !! hash id.
Definition cache_put (user : User) : EX t unit :=
  ex_modify (fun s => mk (<[hash (us_id user) := user]> (cache_ s)) (db s)).
Definition cache_invalidate (id : UserId) : EX t unit :=
  ex_modify (fun s => mk (delete (hash id) (cache_ s)) (db s)).

Definition getUser (userId : UserId) : EX t (option User) :=
  (cached <-- ex_gets (fun s => cache_get s userId);
   match cached with
   | Some user => ex_ret (Some user)
   | None =>
     user <-- repo (repo_getUser userId);
     match user with
     | Some u => cache_put u;;; ex_ret user
     | None => ex_ret user
     end
   end)%ex.

Definition getUsersByIds (userIds : list UserId) : EX t (gmap UserId User) :=
  let ids := HubService.distinct_ids user_is_empty [] userIds in
  (s <-- ex_gets (fun s => s);
   let hits := omap (fun u => user ← cache_get s u; Some (u, user)) ids in
   let misses := filter (fun u => cache_get s u = None) ids in
   let users := list_to_map (M := gmap UserId User) hits in
   match misses with
   | [] => ex_ret users
   | _ =>
     fetched <-- repo (repo_getUsersByIds misses);
     ex_for fetched cache_put;;;
     ex_ret (foldl (fun m u => <[us_id u := u]> m) users fetched)
   end)%ex.

Definition getDisplayName (userId : UserId) : EX t (option string) :=
  (user <-- getUser userId; ex_ret (us_display_name <$> user))%ex.

Definition updateProfile (userId : UserId) (user_name display_name avatar_seed : option string)
  : EX t (expected User UpdateError) :=
  fun s =>
    match repo (repo_updateUserProfile userId user_name display_name avatar_seed) s with
    | (Some updated, s1) => (cache_put updated;;; ex_ret (Ok updated))%ex s1
    | (None, s1) =>
      (cache_invalidate userId;;;
       ex_ret (Unexpected (if err_unique_violation (db s1) then DuplicateUsername else RepoFailure)))%ex
        s1
    end.

End Service.
Arguments t : clear implicits.

(** ** Coherence with the table *)

(** [AND deleted_at IS NULL]: the active profiles; the canonical spelling of a
    user id. *)
Class UserRepoLaws (D : Type) `{UserRepo D} := {
  users : D -> gmap UserId User;
  norm_user : UserId -> UserId;
  law_user_id : forall d u user, users d !! u = Some user -> us_id user = u /\ norm_user u = u;
  law_getUser u : forall d, users (repo_getUser u d).2 = users d /\
    match (repo_getUser u d).1 with Some r => r = users d !! norm_user u | None => True end;
  law_getUsersByIds us : forall d, users (repo_getUsersByIds us d).2 = users d /\
    match (repo_getUsersByIds us d).1 with
    | Some r => forall user, user ∈ r <-> exists u, u ∈ us /\ users d !! norm_user u = Some user
    | None => True
    end;
  law_updateUserProfile u n dn a : forall d,
    match repo_updateUserProfile u n dn a d with
    | (Some user, d') => exists old, users d !! norm_user u = Some old /\
        users d' = <[norm_user u := user]> (users d) /\
        user = mkUser (us_id old) (default (us_username old) n) (default (us_display_name old) dn)
                 (default (us_avatar_seed old) a) (us_prefs old)
    | (None, d') => users d' = users d
    end
}.

Section Coherence.
Context {D : Type} `{UserRepo D} `{DbErrors D} `{!UserRepoLaws D}.
Variable hash : UserId -> Z.
Variable Us : gset UserId.
Hypothesis hash_inj : forall u v, u ∈ Us -> v ∈ Us -> hash u = hash v -> u = v.
Hypothesis users_known : forall d : D, dom (users d) ⊆ Us.

Definition coherent (s : t D) : Prop :=
  forall k user, cache_ s !! k = Some user ->
    hash (us_id user) = k /\ users (db s) !! us_id user = Some user.

Lemma cached_is_row (s : t D) u user :
  coherent s -> u ∈ Us -> cache_get hash s u = Some user ->
  users (db s) !! u = Some user /\ norm_user u = u.
Proof using hash_inj users_known.
  intros Hs Hu Hc. destruct (Hs _ _ Hc) as [Hk Hr].
  assert (us_id user = u) as Hid.
  { apply hash_inj; [|done|done]. apply (users_known (db s)), elem_of_dom. eauto. }
  rewrite Hid in Hr. split; [done|]. by destruct (law_user_id _ _ _ Hr).
Qed.

Lemma put_coherent (s : t D) (d' : D) user :
  (forall k u, cache_ s !! k = Some u -> hash (us_id u) = k /\
     (users d' !! us_id u = Some u \/ us_id u = us_id user)) ->
  users d' !! us_id user = Some user ->
  coherent (mk (<[hash (us_id user) := user]> (cache_ s)) d').
Proof using.
  intros Hc Hu k u. simpl. intros [[<- <-]|[Hk Hl]]%lookup_insert_Some; [done|].
  destruct (Hc _ _ Hl) as [Hh [Hr|Heq]]; [done|]. congruence.
Qed.

Lemma getUser_coherent u (s : t D) : u ∈ Us -> coherent s ->
  coherent (getUser hash u s).2 /\ users (db (getUser hash u s).2) = users (db s) /\
  match (getUser hash u s).1 with Some r => r = users (db s) !! norm_user u | None => True end.
Proof using hash_inj users_known.
  intros Hu Hs. unfold getUser, ex_bind. simpl.
  destruct (cache_get hash s u) as [user|] eqn:E.
  { destruct (cached_is_row _ _ _ Hs Hu E) as [Hr Hn]. simpl. by rewrite Hn, Hr. }
  unfold repo. pose proof (law_getUser u (db s)) as [Hd Hr].
  destruct (repo_getUser u (db s)) as [[[user|]|] d']; simpl in *.
  - split_and!; [|done|done]. symmetry in Hr. destruct (law_user_id _ _ _ Hr) as [Hid _].
    apply put_coherent; [|by rewrite Hd, Hid]. intros k x Hk. destruct (Hs _ _ Hk) as [? Hx].
    split; [done|]. left. by rewrite Hd.
  - split_and!; [|done|done]. intros k x Hk. simpl in *. rewrite Hd. by apply Hs.
  - split_and!; [|done|done]. intros k x Hk. simpl in *. rewrite Hd. by apply Hs.
Qed.

Lemma puts_coherent l : forall s : t D, coherent s ->
  (forall user, user ∈ l -> users (db s) !! us_id user = Some user) ->
  (ex_for l (cache_put hash) s).1 = Some tt /\ coherent (ex_for l (cache_put hash) s).2 /\
  db (ex_for l (cache_put hash) s).2 = db s.
Proof using.
  induction l as [|user l IH]; intros s Hs Hl; [done|]. cbn [ex_for]. unfold ex_bind at 1 2 3. simpl.
  destruct (IH (mk (<[hash (us_id user) := user]> (cache_ s)) (db s))) as (H1 & H2 & H3).
  - apply put_coherent; [|apply Hl; left]. intros k x Hk. destruct (Hs _ _ Hk). auto.
  - intros u Hu. apply Hl. by right.
  - unfold ex_bind. by rewrite H1.
Qed.

Lemma foldl_users (rows : gmap UserId User) l : forall (m : gmap UserId User) u,
  (forall user, user ∈ l -> rows !! us_id user = Some user) ->
  foldl (fun m u => <[us_id u := u]> m) m l !! u =
    if decide (u ∈ us_id <$> l) then rows !! u else m !! u.
Proof using.
  clear. induction l as [|x l IH]; intros m u Hl; csimpl; [done|].
  rewrite IH by (intros; apply Hl; by right). pose proof (Hl x ltac:(left)) as Hx.
  destruct (decide (u ∈ us_id <$> l)) as [Hin|Hin],
    (decide (u ∈ us_id x :: (us_id <$> l))) as [Hin'|Hin']; [done| | |].
  - destruct Hin'. by right.
  - apply elem_of_cons in Hin' as [->|?]; [by rewrite lookup_insert_eq|done].
  - rewrite lookup_insert_ne; [done|]. intros <-. apply Hin'. left.
Qed.

Lemma distinct_ids_spec ids : forall seen u,
  u ∈ HubService.distinct_ids user_is_empty seen ids <->
    u ∈ ids /\ u ∉ seen /\ user_value u <> ""%string.
Proof using.
  clear. induction ids as [|x ids IH]; intros seen u; simpl; [set_solver|].
  unfold user_is_empty at 1. destruct (decide (user_value x = ""%string)) as [He|He].
  { rewrite bool_decide_eq_true_2 by done. simpl. rewrite IH. set_solver. }
  rewrite bool_decide_eq_false_2 by done. simpl.
  destruct (decide (x ∈ seen)) as [Hx|Hx].
  - rewrite bool_decide_eq_true_2 by done. rewrite IH. set_solver.
  - rewrite bool_decide_eq_false_2 by done. rewrite elem_of_cons, IH.
    destruct (decide (u = x)) as [->|]; set_solver.
Qed.

Lemma distinct_ids_NoDup ids : forall seen,
  NoDup (HubService.distinct_ids user_is_empty seen ids).
Proof using.
  clear. induction ids as [|x ids IH]; intros seen; simpl; [constructor|].
  destruct (_ || _); [done|]. constructor; [|done]. rewrite distinct_ids_spec. set_solver.
Qed.

(** The hits of a bulk read, as a map. *)
Lemma hits_lookup (c : UserId -> option User) ids u :
  NoDup ids ->
  list_to_map (M := gmap UserId User) (omap (fun u => user ← c u; Some (u, user)) ids) !! u =
    if decide (u ∈ ids) then c u else None.
Proof using.
  clear. induction 1 as [|x ids Hx Hnd IH]; csimpl; [done|].
  destruct (c x) as [user|] eqn:E; simpl.
  - destruct (decide (u = x)) as [->|Hne].
    + rewrite lookup_insert_eq. by rewrite decide_True by left.
    + rewrite lookup_insert_ne, IH by done. do 2 case_decide; set_solver.
  - rewrite IH. do 2 case_decide; set_solver.
Qed.

Lemma getUsersByIds_coherent us (s : t D) :
  (forall u, u ∈ us -> u ∈ Us) -> coherent s ->
  let '(r, s') := getUsersByIds hash us s in
  coherent s' /\ users (db s') = users (db s) /\
  match r with
  | Some m => forall u, u ∈ us -> user_value u <> ""%string -> norm_user u = u ->
      m !! u = users (db s) !! u
  | None => True
  end.
Proof using hash_inj users_known.
  intros Hus Hs. unfold getUsersByIds. set (ids := HubService.distinct_ids _ _ _).
  assert (Hin : forall u, u ∈ ids <-> u ∈ us /\ user_value u <> ""%string).
  { intros u. subst ids. rewrite distinct_ids_spec. set_solver. }
  assert (Hnd : NoDup ids) by apply distinct_ids_NoDup. unfold ex_bind at 1. cbn [ex_gets].
  assert (Hhit : forall u user, u ∈ ids -> cache_get hash s u = Some user ->
    users (db s) !! u = Some user).
  { intros u user Hu Hc. by destruct (cached_is_row s u user Hs (Hus _ (proj1 (proj1 (Hin u) Hu))) Hc). }
  destruct (filter _ ids) as [|m0 ms] eqn:Ef.
  { simpl. split_and!; [done|done|]. intros u Hu Hne Hn. rewrite hits_lookup by done.
    assert (Hid : u ∈ ids) by (by apply Hin). rewrite decide_True by done.
    destruct (cache_get hash s u) as [user|] eqn:E; [symmetry; by apply Hhit|].
    assert (u ∈ filter (fun u => cache_get hash s u = None) ids) as Hc
      by (by apply list_elem_of_filter). rewrite Ef in Hc. set_solver. }
  rewrite <- Ef. unfold ex_bind at 1, repo. pose proof (law_getUsersByIds
    (filter (fun u => cache_get hash s u = None) ids) (db s)) as [Hd Hr].
  destruct (repo_getUsersByIds _ (db s)) as [[fetched|] d']; simpl in Hd, Hr.
  2:{ split_and!; [|done|done]. intros k x Hk. simpl in *. rewrite Hd. by apply Hs. }
  set (s1 := mk (cache_ s) d').
  assert (Hs1 : coherent s1) by (intros k x Hk; simpl in *; rewrite Hd; by apply Hs).
  assert (Hrow : forall user, user ∈ fetched -> users (db s) !! us_id user = Some user).
  { intros user (u & _ & Hu)%Hr. by destruct (law_user_id _ _ _ Hu) as [-> _]. }
  destruct (puts_coherent fetched s1 Hs1) as (H1 & H2 & H3).
  { intros user Hu. simpl. rewrite Hd. by apply Hrow. }
  unfold ex_bind. destruct (ex_for _ _ s1) as [r s2]. simpl in H1, H2, H3. subst r. simpl.
  split_and!; [done|by rewrite H3|]. intros u Hu Hne Hn.
  rewrite (foldl_users (users (db s))) by done. case_decide as Hfetch; [done|].
  rewrite hits_lookup by done. assert (Hid : u ∈ ids) by (by apply Hin). rewrite decide_True by done.
  destruct (cache_get hash s u) as [user|] eqn:E; [symmetry; by apply Hhit|].
  destruct (users (db s) !! u) as [user|] eqn:Eu; [|done]. exfalso. apply Hfetch.
  apply list_elem_of_fmap. exists user. split; [by destruct (law_user_id _ _ _ Eu)|].
  apply Hr. exists u. rewrite Hn. split; [by apply list_elem_of_filter|done].
Qed.

Lemma updateProfile_coherent u n dn a (s : t D) :
  norm_user u = u -> coherent s -> coherent (updateProfile hash u n dn a s).2.
Proof using.
  intros Hn Hs. unfold updateProfile, repo.
  pose proof (law_updateUserProfile u n dn a (db s)) as Hl. rewrite Hn in Hl.
  destruct (repo_updateUserProfile u n dn a (db s)) as [[user|] d'].
  - destruct Hl as (old & Hold & Hd & Huser). destruct (law_user_id _ _ _ Hold) as [Hid _].
    assert (Hu : us_id user = u) by (by rewrite Huser).
    unfold ex_bind. simpl. apply put_coherent; [|by rewrite Hd, Hu, lookup_insert_eq].
    intros k x Hk. destruct (Hs _ _ Hk) as [Hh Hx]. split; [done|]. rewrite Hd, Hu.
    destruct (decide (us_id x = u)); [by right|left]. by rewrite lookup_insert_ne.
  - unfold ex_bind. simpl. intros k x. simpl. intros [_ Hk]%lookup_delete_Some. rewrite Hl.
    by apply Hs.
Qed.

Inductive op :=
  | GetUser (u : UserId) | GetUsersByIds (us : list UserId) | GetDisplayName (u : UserId)
  | UpdateProfile (u : UserId) (n dn a : option string).

Definition op_ok (o : op) : Prop :=
  match o with
  | GetUser u | GetDisplayName u => u ∈ Us
  | GetUsersByIds us => forall u, u ∈ us -> u ∈ Us
  | UpdateProfile u _ _ _ => norm_user u = u
  end.

Definition call (s : t D) (o : op) : t D :=
  match o with
  | GetUser u => (getUser hash u s).2
  | GetUsersByIds us => (getUsersByIds hash us s).2
  | GetDisplayName u => (getDisplayName hash u s).2
  | UpdateProfile u n dn a => (updateProfile hash u n dn a s).2
  end.

Lemma call_coherent s o : op_ok o -> coherent s -> coherent (call s o).
Proof using hash_inj users_known.
  intros Ho Hs. destruct o; simpl in *.
  - by apply getUser_coherent.
  - pose proof (getUsersByIds_coherent us s Ho Hs) as Hg.
    destruct (getUsersByIds hash us s). by destruct Hg.
  - unfold getDisplayName, ex_bind. pose proof (getUser_coherent u s Ho Hs) as (Hc & _).
    by destruct (getUser hash u s) as [[r|] s'].
  - by apply updateProfile_coherent.
Qed.

(** The user cache answers what the table holds.  After any sequence of
    reads and profile updates, the ones the database refused included, a
    single or bulk read answers the users' current rows, provided [std::hash]
    separates the users in play. *)
Theorem user_cache_coherent (d : D) (ops : list op) :
  Forall op_ok ops ->
  let s := foldl call (create d) ops in
  (forall u r s', u ∈ Us -> getUser hash u s = (Some r, s') -> r = users (db s) !! norm_user u) /\
  (forall us m s' u, (forall v, v ∈ us -> v ∈ Us) -> getUsersByIds hash us s = (Some m, s') ->
     u ∈ us -> user_value u <> ""%string -> norm_user u = u -> m !! u = users (db s) !! u).
Proof using hash_inj users_known.
  intros Hops s. assert (Hs : coherent s).
  { assert (Hc : coherent (create d)) by (intros k x; simpl; by rewrite lookup_empty).
    subst s. revert Hc. generalize (create d). induction Hops as [|o ops Ho _ IH]; intros s0 Hc;
      [done|]. simpl. by apply IH, call_coherent. }
  split.
  - intros u r s' Hu Hg. pose proof (getUser_coherent u s Hu Hs) as (_ & _ & Hr). by rewrite Hg in Hr.
  - intros us m s' u Hus Hg. pose proof (getUsersByIds_coherent us s Hus Hs) as Hr.
    rewrite Hg in Hr. destruct Hr as (_ & _ & Hr). by apply Hr.
Qed.

End Coherence.

(** A table with one profile, whose names are three characters or more. *)
Module Demo.

Definition amy : UserId := mkUserId "amy".
Definition row (d : string * string * string) : User :=
  let '(n, dn, a) := d in mkUser amy n dn a default_prefs.

Definition D0 : Type := string * string * string.

#[export] Instance demo_users : UserRepo D0 := {|
  repo_getUser u := ex_gets (fun d => if decide (u = amy) then Some (row d) else None);
  repo_getUsersByIds us := ex_gets (fun d => if decide (amy ∈ us) then [row d] else []);
  repo_updateUserProfile u n dn a := fun d =>
    let '(n0, dn0, a0) := d in
    let d' := (default n0 n, default dn0 dn, default a0 a) in
    if decide (u = amy) then
      if decide (3 <= String.length (default n0 n)) then (Some (row d'), d') else (None, d)
    else (None, d)
|}.

#[export] Instance demo_errors : DbErrors D0 := {|
  err_what d := "check violation";
  err_unique_violation d := false
|}.

#[export] Program Instance demo_laws : UserRepoLaws D0 := {|
  users d := {[ amy := row d ]};
  norm_user u := u
|}.
Next Obligation.
  intros [[n dn] a] u user [<- <-]%lookup_singleton_Some. done.
Qed.
Next Obligation.
  intros u d. simpl. split; [done|]. case_decide as Hu; subst; [by rewrite lookup_singleton_eq|].
  by rewrite lookup_singleton_ne.
Qed.
Next Obligation.
  intros us d. simpl. split; [done|]. intros user. case_decide.
  - rewrite list_elem_of_singleton. split; [intros ->; exists amy; by rewrite lookup_singleton_eq|].
    by intros (u & _ & [_ <-]%lookup_singleton_Some).
  - split; [by intros ?%elem_of_nil|]. by intros (u & ? & [<- _]%lookup_singleton_Some).
Qed.
Next Obligation.
  intros u n dn a [[n0 dn0] a0]. simpl. repeat case_decide; subst; [|done|done].
  eexists. rewrite lookup_singleton_eq. split_and!; [done| |done]. by rewrite insert_singleton_eq.
Qed.

End Demo.
Import Demo.

Lemma user_cache_coherent_witness :
  let hash := fun u => Z.of_nat (String.length (user_value u)) in
  let ops := [GetUser Demo.amy; UpdateProfile Demo.amy None (Some "Amy B"%string) None;
              UpdateProfile Demo.amy (Some "a"%string) None None] in
  Forall (op_ok (D := D0) {[Demo.amy]}) ops /\
  forall r s', getUser hash Demo.amy (foldl (call hash) (create (D := D0) ("amy1", "Amy", "x")%string) ops)
    = (Some r, s') -> r = Some (Demo.row ("amy1", "Amy B", "x")%string).
Proof.
  intros hash ops. assert (Hops : Forall (op_ok (D := Demo.D0) {[Demo.amy]}) ops).
  { by repeat constructor. }
  split; [done|]. intros r s' Hg.
  eapply (user_cache_coherent hash {[Demo.amy]}) in Hg; [| | |exact Hops|set_solver].
  - vm_compute in Hg. rewrite Hg. vm_compute. reflexivity.
  - intros u v Hu Hv _. set_solver.
  - intros d. simpl. rewrite dom_singleton. set_solver.
Defined.

End UserService.
