(* ===== verification/Sql.v ===== *)
(** * The relational database

    The tables of [infra/persistence/sql/]: one record per table, a table as a
    finite map from its primary key, the whole database as a record [Db].  A
    statement is a function on the database that raises an error or returns
    rows; an error undoes the statement and the transaction around it.  The
    statements themselves, with their constraints and triggers in the order in
    which PostgreSQL fires them, are in the files of the repositories. *)

From S2P Require Import Prelude.
From S2P Require Import CStrings.
From S2P Require Import External.
From S2P Require Import CommandUtils.
From stdpp Require Import sorting.
From Stdlib Require Import Ascii.

Module Sql.

(** ** Rows

    A column of type [uuid] holds the canonical spelling, [timestamptz] is in
    microseconds, a column that may be null is an [option].  The primary key is
    the key of the table and not repeated in the row. *)

Abbreviation uuid := string.
Abbreviation timestamptz := Z.

(** [kergit_app.profiles] *)
Record profile_row := mkProfile {
  p_user_name : string; p_display_name : string; p_avatar_seed : string;
  p_last_seen_at : option timestamptz; p_deleted_at : option timestamptz;
  p_created_at : timestamptz; p_updated_at : timestamptz }.

(** [kergit_app.hub_roles] *)
Record role_row := mkRoleRow { r_name : string; r_priority : Z; r_is_system : bool }.

(** [kergit_app.hubs] *)
Record hub_row := mkHubRow {
  h_name : string; h_avatar_seed : string; h_owner_id : uuid; h_created_by : option uuid;
  h_created_at : timestamptz; h_updated_at : timestamptz }.

(** [kergit_app.hub_members], keyed by hub and user *)
Record member_row := mkMemberRow {
  hm_role_id : uuid; hm_invited_by : option uuid; hm_joined_at : timestamptz;
  hm_updated_at : timestamptz }.

(** [kergit_app.channels] *)
Record channel_row := mkChannelRow {
  c_hub_id : uuid; c_name : string; c_type : string; c_position : Z; c_created_by : option uuid;
  c_created_at : timestamptz; c_updated_at : timestamptz }.

(** [kergit_app.messages] *)
Record message_row := mkMessageRow {
  ms_channel_id : uuid; ms_sender_id : option uuid; ms_seq : Z; ms_content : string;
  ms_link_preview : option json; ms_created_at : timestamptz }.

(** [kergit_app.message_attachments] *)
Record attachment_row := mkAttachmentRow {
  ma_message_id : uuid; ma_uploaded_by : option uuid; ma_bucket : string; ma_key : string;
  ma_file_name : string; ma_mime : option string; ma_size : Z; ma_created_at : timestamptz }.

(** [kergit_app.audit_events] *)
Record audit_row := mkAuditRow {
  au_occurred_at : timestamptz; au_category : string; au_event_type : string;
  au_severity : string; au_actor_type : string; au_actor_user_id : option uuid;
  au_target_user_id : option uuid; au_hub_id : option uuid; au_channel_id : option uuid;
  au_message_id : option uuid; au_attachment_id : option uuid; au_invite_id : option uuid;
  au_request_id : option string; au_session_id : option string; au_connection_id : option string;
  au_server_node_id : option string; au_error_code : option string; au_status_code : option Z;
  au_metadata : json }.

(** [kergit_app.account_deletion_requests] *)
Record deletion_row := mkDeletionRow {
  dr_subject_user_id : uuid; dr_requested_by : option uuid; dr_status : string;
  dr_requested_at : timestamptz; dr_started_at : option timestamptz;
  dr_blocked_at : option timestamptz; dr_auth_soft_deleted_at : option timestamptz;
  dr_memberships_removed_at : option timestamptz; dr_profile_anonymized_at : option timestamptz;
  dr_finished_at : option timestamptz; dr_updated_at : timestamptz; dr_error_code : option string;
  dr_failure_reason : option string; dr_metadata : json }.

(** [kergit_app.account_deleted_email_reservations] *)
Record reservation_row := mkReservation {
  er_email_hash : string; er_subject_user_id : option uuid; er_created_at : timestamptz }.

(** The database during a transaction: the tables, [now()], and the values
    [gen_random_uuid()] is going to draw. *)
Record Db := mkDatabase {
  profiles : gmap uuid profile_row;
  hub_roles : gmap uuid role_row;
  hubs : gmap uuid hub_row;
  memberships : gmap (uuid * uuid) member_row;
  channels : gmap uuid channel_row;
  counters : gmap uuid Z;
  messages : gmap uuid message_row;
  attachments : gmap uuid attachment_row;
  audit_events : gmap uuid audit_row;
  deletion_requests : gmap uuid deletion_row;
  reservations : gmap uuid reservation_row;
  now_ : timestamptz;
  draws : list uuid
}.

(** *** One table at a time *)

Definition set_profiles (x : gmap uuid profile_row) (d : Db) : Db :=
  mkDatabase x (hub_roles d) (hubs d) (memberships d) (channels d) (counters d) (messages d)
    (attachments d) (audit_events d) (deletion_requests d) (reservations d) (now_ d) (draws d).
Definition set_hubs (x : gmap uuid hub_row) (d : Db) : Db :=
  mkDatabase (profiles d) (hub_roles d) x (memberships d) (channels d) (counters d) (messages d)
    (attachments d) (audit_events d) (deletion_requests d) (reservations d) (now_ d) (draws d).
Definition set_members (x : gmap (uuid * uuid) member_row) (d : Db) : Db :=
  mkDatabase (profiles d) (hub_roles d) (hubs d) x (channels d) (counters d) (messages d)
    (attachments d) (audit_events d) (deletion_requests d) (reservations d) (now_ d) (draws d).
Definition set_channels (x : gmap uuid channel_row) (d : Db) : Db :=
  mkDatabase (profiles d) (hub_roles d) (hubs d) (memberships d) x (counters d) (messages d)
    (attachments d) (audit_events d) (deletion_requests d) (reservations d) (now_ d) (draws d).
Definition set_counters (x : gmap uuid Z) (d : Db) : Db :=
  mkDatabase (profiles d) (hub_roles d) (hubs d) (memberships d) (channels d) x (messages d)
    (attachments d) (audit_events d) (deletion_requests d) (reservations d) (now_ d) (draws d).
Definition set_messages (x : gmap uuid message_row) (d : Db) : Db :=
  mkDatabase (profiles d) (hub_roles d) (hubs d) (memberships d) (channels d) (counters d) x
    (attachments d) (audit_events d) (deletion_requests d) (reservations d) (now_ d) (draws d).
Definition set_attachments (x : gmap uuid attachment_row) (d : Db) : Db :=
  mkDatabase (profiles d) (hub_roles d) (hubs d) (memberships d) (channels d) (counters d)
    (messages d) x (audit_events d) (deletion_requests d) (reservations d) (now_ d) (draws d).
Definition set_audit (x : gmap uuid audit_row) (d : Db) : Db :=
  mkDatabase (profiles d) (hub_roles d) (hubs d) (memberships d) (channels d) (counters d)
    (messages d) (attachments d) x (deletion_requests d) (reservations d) (now_ d) (draws d).
Definition set_deletions (x : gmap uuid deletion_row) (d : Db) : Db :=
  mkDatabase (profiles d) (hub_roles d) (hubs d) (memberships d) (channels d) (counters d)
    (messages d) (attachments d) (audit_events d) x (reservations d) (now_ d) (draws d).
Definition set_reservations (x : gmap uuid reservation_row) (d : Db) : Db :=
  mkDatabase (profiles d) (hub_roles d) (hubs d) (memberships d) (channels d) (counters d)
    (messages d) (attachments d) (audit_events d) (deletion_requests d) x (now_ d) (draws d).
Definition set_draws (x : list uuid) (d : Db) : Db :=
  mkDatabase (profiles d) (hub_roles d) (hubs d) (memberships d) (channels d) (counters d)
    (messages d) (attachments d) (audit_events d) (deletion_requests d) (reservations d) (now_ d) x.
Definition set_now (x : timestamptz) (d : Db) : Db :=
  mkDatabase (profiles d) (hub_roles d) (hubs d) (memberships d) (channels d) (counters d)
    (messages d) (attachments d) (audit_events d) (deletion_requests d) (reservations d) x (draws d).

(** ** Errors *)

(** The errors a statement raises, by SQLSTATE class, and the exceptions the
    repositories throw themselves. *)
Inductive sql_error :=
  | unique_violation (constraint : string)
  | check_violation (constraint : string)
  | foreign_key_violation (constraint : string)
  | not_null_violation (column : string)
  | invalid_text_representation      (* a uuid or json that does not parse, text that
                                        is not in the database's encoding *)
  | invalid_row_count_in_limit       (* [LIMIT] of a negative number *)
  | numeric_value_out_of_range
  | raise_exception (message : string)
  | runtime_error (message : string).

(** ** What is used of PostgreSQL beyond the statements *)

Class Postgres := {
  (** [s::uuid::text]: the canonical spelling, which is a fixed point *)
  uuid_in : string -> option uuid;
  uuid_in_idem : forall s u, uuid_in s = Some u -> uuid_in u = Some u;
  (** text in the database's encoding *)
  text_in : string -> bool;
  (** [lower(s)] in the database's collation *)
  lower : string -> string;
  (** [s::jsonb] and [j::text] *)
  jsonb_in : string -> option json;
  jsonb_out : json -> string;
  (** [what()] of the exception a failing statement becomes, with the server's
      detail: the key or the row that violates the constraint *)
  pg_what : sql_error -> string -> string
}.

(** ** Statements *)

Definition SQL (A : Type) : Type := Db -> sql_error + A * Db.

Definition sql_ret {A} (a : A) : SQL A := fun d => inr (a, d).
Definition sql_raise {A} (e : sql_error) : SQL A := fun d => inl e.
Definition sql_bind {A B} (m : SQL A) (k : A -> SQL B) : SQL B :=
  fun d => match m d with inl e => inl e | inr (a, d') => k a d' end.
Definition sql_gets {A} (f : Db -> A) : SQL A := fun d => inr (f d, d).
Definition sql_modify (f : Db -> Db) : SQL unit := fun d => inr (tt, f d).
(** [IF NOT b THEN RAISE e], a [CHECK], a key. *)
Definition ensure (b : bool) (e : sql_error) : SQL unit := if b then sql_ret tt else sql_raise e.

Declare Scope sql_scope.
Delimit Scope sql_scope with sql.
Notation "x <-- c1 ; c2" := (sql_bind c1 (fun x => c2))
  (at level 60, c1 at next level, right associativity) : sql_scope.
Notation "c1 ;;; c2" := (sql_bind c1 (fun _ => c2))
  (at level 60, right associativity) : sql_scope.

(** [for (x : xs) out.push_back(f(x))]. *)
Fixpoint sql_map {A B} (f : A -> SQL B) (xs : list A) : SQL (list B) :=
  match xs with
  | [] => sql_ret []
  | x :: xs' => (y <-- f x; ys <-- sql_map f xs'; sql_ret (y :: ys))%sql
  end.

(** [now()]: the time the transaction started. *)
Definition now : SQL timestamptz := sql_gets now_.

(** [gen_random_uuid()]; a database without draws left answers no more. *)
Definition gen_random_uuid : SQL uuid :=
  fun d => match draws d with
           | u :: us => inr (u, set_draws us d)
           | [] => inl (runtime_error "")
           end.

Section Text.
Context `{Postgres}.

(** A parameter [$n::uuid], [$n] of type text. *)
Definition uuid_param (s : string) : SQL uuid :=
  match uuid_in s with Some u => sql_ret u | None => sql_raise invalid_text_representation end.
Definition uuid_params (ss : list string) : SQL (list uuid) := sql_map uuid_param ss.
Definition text_param (s : string) : SQL string :=
  if text_in s then sql_ret s else sql_raise invalid_text_representation.
Definition jsonb_param (s : string) : SQL json :=
  match jsonb_in s with Some j => sql_ret j | None => sql_raise invalid_text_representation end.

(** A parameter that may be null. *)
Definition nullable {A B} (param : A -> SQL B) (o : option A) : SQL (option B) :=
  match o with Some a => (b <-- param a; sql_ret (Some b))%sql | None => sql_ret None end.

End Text.

(** The characters of a text in UTF-8. *)
Definition char_length (s : string) : Z := Z.of_nat (Utils.utf8_length s).

Fixpoint ltrim (s : string) : string :=
  match s with String " "%char s' => ltrim s' | _ => s end.
Fixpoint rtrim (s : string) : string :=
  match s with
  | EmptyString => EmptyString
  | String c s' =>
    match rtrim s' with
    | EmptyString => if bool_decide (c = " "%char) then EmptyString else String c EmptyString
    | t => String c t
    end
  end.
(** Spaces only, unlike the commands' [sanitize]. *)
Definition btrim (s : string) : string := rtrim (ltrim s).

(** [char_length(btrim(s)) >= lo AND char_length(s) <= hi]. *)
Definition length_between (lo hi : Z) (s : string) : bool :=
  ((lo <=? char_length (btrim s)) && (char_length s <=? hi))%Z.
Definition length_at_most (hi : Z) (s : string) : bool := (char_length s <=? hi)%Z.
(** [c IS NULL OR p(c)]. *)
Definition null_or {A} (p : A -> bool) (o : option A) : bool :=
  match o with Some a => p a | None => true end.

(** A foreign key: null, or a row of the table. *)
Definition references {A} (table : Db -> gmap uuid A) (key : option uuid) (constraint : string)
  : SQL unit :=
  (t <-- sql_gets table;
   ensure (null_or (fun u => bool_decide (is_Some (t !! u))) key) (foreign_key_violation constraint))%sql.

(** [SELECT p.deleted_at FROM profiles p WHERE p.user_id = u]: null also when
    there is no such row. *)
Definition profile_deleted_at (u : uuid) (d : Db) : option timestamptz :=
  profiles d !! u ≫= p_deleted_at.

(** ** Ordered results *)

(** The value of one [ORDER BY] expression. *)
Abbreviation sort_key := (Z + string)%type.

Definition key_le (a b : sort_key) : Prop :=
  match a, b with
  | inl x, inl y => (x <= y)%Z
  | inr s, inr t => String.le s t
  | inl _, inr _ => True
  | inr _, inl _ => False
  end.

Fixpoint keys_le (l1 l2 : list sort_key) : Prop :=
  match l1, l2 with
  | [], _ => True
  | _ :: _, [] => False
  | a :: l1', b :: l2' => key_le a b /\ (a = b -> keys_le l1' l2')
  end.

#[global] Instance key_le_dec a b : Decision (key_le a b).
Proof. destruct a, b; simpl; apply _. Defined.
#[global] Instance keys_le_dec l1 l2 : Decision (keys_le l1 l2).
Proof.
  revert l2. induction l1 as [|a l1 IH]; intros [|b l2]; simpl; [apply _..|].
  specialize (IH l2). destruct (decide (key_le a b)) as [Hle|Hle]; [|right; by intros [? _]].
  destruct (decide (a = b)) as [Heq|Heq]; [|left; by split].
  destruct IH as [Hl|Hl]; [by left|right; intros [_ Hl']; auto].
Defined.

(** [ORDER BY]: PostgreSQL leaves the order of rows with equal keys open; the
    statements that need a definite order have distinct keys. *)
Definition order_by {A} (key : A -> list sort_key) (l : list A) : list A :=
  merge_sort (fun x y => keys_le (key x) (key y)) l.

(** The rows of a table that satisfy a condition, in some order. *)
Definition select {K A} `{Countable K} (P : K * A -> bool) (table : gmap K A) : list (K * A) :=
  filter (fun r => P r = true) (map_to_list table).

(** ** Proofs *)

#[global] Instance key_le_trans : Transitive key_le.
Proof. intros [x|x] [y|y] [z|z]; simpl; try done; [lia|]. intros ??. by etrans. Qed.
#[global] Instance key_le_total : Total key_le.
Proof. intros [x|x] [y|y]; simpl; auto; [lia|]. apply (total String.le). Qed.
Lemma key_le_antisym a b : key_le a b -> key_le b a -> a = b.
Proof.
  destruct a, b; simpl; try done; intros H1 H2; f_equal; [lia|]. by apply (anti_symm String.le).
Qed.

#[global] Instance keys_le_trans : Transitive keys_le.
Proof.
  intros l1. induction l1 as [|a l1 IH]; intros [|b l2] [|c l3]; simpl; try done.
  intros [Hab Hl] [Hbc Hl']. split; [by etrans|]. intros ->.
  pose proof (key_le_antisym _ _ Hab Hbc) as ->. eauto.
Qed.
#[global] Instance keys_le_total : Total keys_le.
Proof.
  intros l1. induction l1 as [|a l1 IH]; intros [|b l2]; simpl; auto.
  destruct (decide (a = b)) as [->|Hne].
  - destruct (IH l2), (total key_le b b); auto.
  - destruct (total key_le a b); [left|right]; by split.
Qed.
Lemma keys_le_antisym l1 l2 : keys_le l1 l2 -> keys_le l2 l1 -> l1 = l2.
Proof.
  revert l2. induction l1 as [|a l1 IH]; intros [|b l2]; simpl; try done.
  intros [Hab Hl] [Hba Hl']. pose proof (key_le_antisym _ _ Hab Hba) as ->. f_equal. auto.
Qed.

Section OrderBy.
Context {A : Type}.
Implicit Types (key : A -> list sort_key) (l : list A).

#[local] Abbreviation le key := (fun x y => keys_le (key x) (key y)).

(** The rows are told apart by their sort keys. *)
Definition distinct_keys key l : Prop := forall x y, x ∈ l -> y ∈ l -> key x = key y -> x = y.

#[local] Instance le_trans key : Transitive (le key).
Proof. intros x y z. apply keys_le_trans. Qed.
#[local] Instance le_total key : Total (le key).
Proof. intros x y. apply (total keys_le). Qed.

Lemma order_by_perm key l : order_by key l ≡ₚ l.
Proof. apply merge_sort_Permutation. Qed.
Lemma elem_of_order_by key l x : x ∈ order_by key l <-> x ∈ l.
Proof. by rewrite order_by_perm. Qed.
Lemma order_by_sorted key l : StronglySorted (le key) (order_by key l).
Proof. apply StronglySorted_merge_sort; apply _. Qed.

(** A sorted list with the same rows is the ordered result. *)
Lemma order_by_unique key l l' :
  distinct_keys key l -> l' ≡ₚ l -> StronglySorted (le key) l' -> order_by key l = l'.
Proof.
  intros Hd Hp Hs. apply (StronglySorted_unique_strong (le key)).
  - intros x y Hx%elem_of_order_by Hy H1 H2. rewrite Hp in Hy. apply Hd; [done..|].
    by apply keys_le_antisym.
  - apply order_by_sorted.
  - done.
  - by rewrite Hp, order_by_perm.
Qed.

Lemma order_by_proper key l l' : distinct_keys key l -> l' ≡ₚ l -> order_by key l' = order_by key l.
Proof.
  intros Hd Hp. symmetry. apply order_by_unique; [done| |apply order_by_sorted].
  by rewrite order_by_perm.
Qed.

Lemma StronglySorted_filter' (R : relation A) (P : A -> Prop) `{forall x, Decision (P x)} l :
  StronglySorted R l -> StronglySorted R (filter P l).
Proof.
  induction 1 as [|x l Hs IH Hall]; [constructor|]. rewrite filter_cons.
  destruct (decide (P x)); [|done]. constructor; [done|].
  rewrite Forall_forall in Hall |- *. intros y [_ Hy]%list_elem_of_filter. auto.
Qed.

Lemma order_by_filter key l (P : A -> Prop) `{forall x, Decision (P x)} :
  distinct_keys key l -> order_by key (filter P l) = filter P (order_by key l).
Proof.
  intros Hd. apply order_by_unique.
  - intros x y [_ Hx]%list_elem_of_filter [_ Hy]%list_elem_of_filter. by apply Hd.
  - by rewrite order_by_perm.
  - apply StronglySorted_filter', order_by_sorted.
Qed.

(** A row after all others comes last. *)
Lemma order_by_snoc key l x :
  distinct_keys key (x :: l) -> (forall y, y ∈ l -> keys_le (key y) (key x)) ->
  order_by key (x :: l) = order_by key l ++ [x].
Proof.
  intros Hd Hle. apply order_by_unique; [done| |].
  - rewrite order_by_perm. by rewrite Permutation_app_comm.
  - apply StronglySorted_app_2; [|apply order_by_sorted|repeat constructor].
    intros y z Hy%elem_of_order_by Hz. apply list_elem_of_singleton in Hz as ->. auto.
Qed.

End OrderBy.

(** A change that keeps the sort keys keeps the order. *)
Lemma order_by_fmap {A B} (f : A -> B) key key' (l : list A) :
  (forall x, x ∈ l -> key' (f x) = key x) -> distinct_keys key l ->
  order_by key' (f <$> l) = f <$> order_by key l.
Proof.
  intros Hk Hd. apply order_by_unique.
  - intros ? ? (x & -> & Hx)%list_elem_of_fmap (y & -> & Hy)%list_elem_of_fmap.
    rewrite !Hk by done. intros Heq. f_equal. by apply Hd.
  - by rewrite order_by_perm.
  - pose proof (order_by_sorted key l) as Hs.
    assert (forall x, x ∈ order_by key l -> key' (f x) = key x) as Hk'.
    { intros x Hx%elem_of_order_by. auto. }
    clear Hk Hd. induction Hs as [|x l' Hs IH Hall]; [constructor|]. rewrite fmap_cons.
    constructor; [apply IH; intros; apply Hk'; by right|].
    rewrite Forall_forall in Hall. apply Forall_forall. intros ? (y & -> & Hy)%list_elem_of_fmap.
    rewrite !Hk' by (by left || by right). auto.
Qed.

Lemma filter_fmap_iff {A B} (f : A -> B) (P : B -> Prop) (Q : A -> Prop)
  `{forall x, Decision (P x)} `{forall x, Decision (Q x)} (l : list A) :
  (forall x, P (f x) <-> Q x) -> filter P (f <$> l) = f <$> filter Q l.
Proof.
  intros Heq. induction l as [|x l IH]; [done|]. rewrite fmap_cons, !filter_cons.
  destruct (decide (P (f x))) as [Hp|Hp], (decide (Q x)) as [Hq|Hq]; rewrite IH; try done.
  all: by apply Heq in Hp || by apply Heq in Hq.
Qed.

(** ** Statements that return *)

Lemma sql_bind_inr {A B} (m : SQL A) (k : A -> SQL B) d b d' :
  sql_bind m k d = inr (b, d') -> exists a d1, m d = inr (a, d1) /\ k a d1 = inr (b, d').
Proof. unfold sql_bind. destruct (m d) as [e|[a d1]]; [done|]. eauto. Qed.
Lemma ensure_inr b e d u d' : ensure b e d = inr (u, d') -> b = true /\ d' = d.
Proof. destruct b; simpl; by intros [= _ <-]. Qed.
Lemma sql_ret_inr {A} (a b : A) d d' : sql_ret a d = inr (b, d') -> b = a /\ d' = d.
Proof. by intros [= <- <-]. Qed.
Lemma sql_gets_inr {A} (f : Db -> A) d b d' : sql_gets f d = inr (b, d') -> b = f d /\ d' = d.
Proof. by intros [= <- <-]. Qed.
Lemma sql_modify_inr f d u d' : sql_modify f d = inr (u, d') -> d' = f d.
Proof. by intros [= _ <-]. Qed.
Lemma uuid_param_inr `{Postgres} s d u d' :
  uuid_param s d = inr (u, d') -> uuid_in s = Some u /\ d' = d.
Proof. unfold uuid_param. destruct (uuid_in s); simpl; intros H0; inversion H0; auto. Qed.
Lemma text_param_inr `{Postgres} s d u d' :
  text_param s d = inr (u, d') -> text_in s = true /\ u = s /\ d' = d.
Proof. unfold text_param. destruct (text_in s); simpl; intros H0; inversion H0; auto. Qed.
Lemma gen_random_uuid_inr d u d' :
  gen_random_uuid d = inr (u, d') -> exists us, draws d = u :: us /\ d' = set_draws us d.
Proof. unfold gen_random_uuid. destruct (draws d); [done|]. intros [= <- <-]. eauto. Qed.
Lemma references_inr {A} (table : Db -> gmap uuid A) key constraint d u d' :
  references table key constraint d = inr (u, d') ->
  d' = d /\ forall k, key = Some k -> is_Some (table d !! k).
Proof.
  unfold references, sql_bind, sql_gets. intros [Hb ->]%ensure_inr. split; [done|].
  intros k ->. by apply bool_decide_eq_true_1 in Hb.
Qed.

Lemma uuid_params_inr `{Postgres} ss d us d' :
  uuid_params ss d = inr (us, d') -> d' = d /\ Forall2 (fun s u => uuid_in s = Some u) ss us.
Proof.
  revert us d d'. induction ss as [|s ss IH]; intros us d d'; simpl.
  - intros [-> ->]%sql_ret_inr. by split.
  - intros (u & d1 & [Hu ->]%uuid_param_inr & (us' & d2 & [-> Hus]%IH &
      [-> ->]%sql_ret_inr)%sql_bind_inr)%sql_bind_inr. auto.
Qed.
Lemma nullable_inr `{Postgres} o d r d' :
  nullable text_param o d = inr (r, d') -> r = o /\ d' = d.
Proof.
  destruct o as [s|]; simpl; [|by intros [-> ->]%sql_ret_inr].
  by intros (u & d1 & (_ & -> & ->)%text_param_inr & [-> ->]%sql_ret_inr)%sql_bind_inr.
Qed.

(** A relation the steps of a loop respect. *)
Lemma sql_map_rel {A B} (R : Db -> Db -> Prop) `{!PreOrder R} (f : A -> SQL B) xs d ys d' :
  (forall x d y d', f x d = inr (y, d') -> R d d') -> sql_map f xs d = inr (ys, d') -> R d d'.
Proof.
  intros Hf. revert ys d d'. induction xs as [|x xs IH]; intros ys d d'; simpl.
  - intros [_ ->]%sql_ret_inr. done.
  - intros (y & d1 & Hy%Hf & (ys' & d2 & Hys%IH & [_ ->]%sql_ret_inr)%sql_bind_inr)%sql_bind_inr.
    by etrans.
Qed.

(** ** Selections *)

Section Select.
Context {K A : Type} `{Countable K}.
Implicit Types (P : K * A -> bool) (t : gmap K A).

Lemma elem_of_select P t k a : (k, a) ∈ select P t <-> t !! k = Some a /\ P (k, a) = true.
Proof. unfold select. rewrite list_elem_of_filter, elem_of_map_to_list. tauto. Qed.

Lemma NoDup_select P t : NoDup (select P t).
Proof. apply NoDup_filter, NoDup_map_to_list. Qed.

Lemma select_insert_fresh P t k a :
  t !! k = None ->
  select P (<[k := a]> t) ≡ₚ if P (k, a) then (k, a) :: select P t else select P t.
Proof.
  intros Hk. unfold select. rewrite map_to_list_insert by done. rewrite filter_cons.
  destruct (decide (P (k, a) = true)) as [->|Hn]; [done|]. by destruct (P (k, a)).
Qed.

Lemma select_insert_same P t k a b :
  t !! k = Some b -> P (k, a) = P (k, b) ->
  select P (<[k := a]> t) ≡ₚ (fun r => if decide (r.1 = k) then (k, a) else r) <$> select P t.
Proof.
  intros Hk HP.
  assert (t = <[k := b]> (delete k t)) as Ht by (by rewrite insert_delete_id).
  rewrite Ht at 2. rewrite <- insert_delete_eq. rewrite !select_insert_fresh by apply lookup_delete_eq.
  rewrite HP. assert (Hid : (fun r => if decide (r.1 = k) then (k, a) else r) <$> select P (delete k t)
    = select P (delete k t)).
  { rewrite <- (list_fmap_id (select P (delete k t))) at 2. apply list_fmap_ext.
    intros i [k' a'] Hi. apply list_elem_of_lookup_2, elem_of_select in Hi as [Hi _]. simpl.
    rewrite decide_False; [done|]. intros ->. by rewrite lookup_delete_eq in Hi. }
  destruct (P (k, b)); [|by rewrite Hid]. rewrite fmap_cons, Hid. simpl. by rewrite decide_True.
Qed.

Lemma select_ext P P' t :
  (forall k a, t !! k = Some a -> P (k, a) = P' (k, a)) -> select P t = select P' t.
Proof.
  intros Heq. unfold select.
  assert (forall k a, (k, a) ∈ map_to_list t -> P (k, a) = P' (k, a)) as Hall.
  { intros k a Hk%elem_of_map_to_list. auto. }
  clear Heq. induction (map_to_list t) as [|[k a] l IH]; [done|]. rewrite !filter_cons.
  rewrite IH by (intros; apply Hall; by right).
  rewrite (Hall k a) by by left. done.
Qed.

Lemma NoDup_select_keys P t : NoDup (select P t).*1.
Proof.
  unfold select. apply (sublist_NoDup _ (map_to_list t).*1).
  - apply NoDup_fst_map_to_list.
  - apply fmap_sublist. apply sublist_filter.
Qed.

(** Rows that all were there before under the same key are not more. *)
Lemma select_length_keys P P' t t' :
  (forall k a, t' !! k = Some a -> P' (k, a) = true ->
     exists b, t !! k = Some b /\ P (k, b) = true) ->
  length (select P' t') <= length (select P t).
Proof.
  intros Hsub. rewrite <- (length_fmap fst (select P' t')), <- (length_fmap fst (select P t)).
  apply submseteq_length, NoDup_submseteq; [apply NoDup_select_keys|].
  intros k ([k' a] & -> & Hk)%list_elem_of_fmap. apply elem_of_select in Hk as [Hk HP].
  destruct (Hsub _ _ Hk HP) as (b & Hb & HPb). apply list_elem_of_fmap.
  exists (k', b). split; [done|]. by apply elem_of_select.
Qed.

End Select.

(** Take a successful statement apart, from its start to its end. *)
Ltac sql_inv1 :=
  match goal with
  | H : sql_bind _ _ _ = inr (_, _) |- _ =>
    let a := fresh "a" in let s := fresh "s" in let H1 := fresh "H" in
    apply sql_bind_inr in H as (a & s & H1 & H); cbn beta iota in H1, H; sql_inv1
  | H : ensure _ _ _ = inr (_, ?s) |- _ => apply ensure_inr in H as [H ->]
  | H : uuid_param _ _ = inr (_, ?s) |- _ => apply uuid_param_inr in H as [H ->]
  | H : text_param _ _ = inr (_, ?s) |- _ => apply text_param_inr in H as (H & -> & ->)
  | H : gen_random_uuid _ = inr (_, _) |- _ =>
    let us := fresh "us" in apply gen_random_uuid_inr in H as (us & H & ->)
  | H : references _ _ _ _ = inr (_, _) |- _ => apply references_inr in H as [-> H]
  | H : sql_ret _ _ = inr (_, _) |- _ => apply sql_ret_inr in H as [? ->]
  | H : sql_gets _ _ = inr (_, _) |- _ => apply sql_gets_inr in H as [? ->]
  | H : now _ = inr (_, _) |- _ => apply sql_gets_inr in H as [? ->]
  | H : sql_modify _ _ = inr (_, _) |- _ => apply sql_modify_inr in H as ->
  | H : sql_raise _ _ = inr (_, _) |- _ => discriminate H
  | _ => idtac
  end.
Ltac sql_inv := repeat (progress (sql_inv1; try subst; cbn beta iota in *)).

End Sql.
