(* ===== verification/Database.v ===== *)
(** * The connection to the database

    What the repositories run on: [TransactionRunner] over the tables of
    [Sql.v].  Each call is one transaction; what happens to its connection and
    how long after the previous one it starts is the environment's choice, a
    list of turns.  The transactions take effect one after another. *)

From S2P Require Import Prelude.
From S2P Require Import Transactions.
From S2P Require Import UserService.
From S2P Require Import Sql.

Module Database.
Import Sql TransactionRunner.

(** One transaction: its connection, the microseconds since the previous one
    minus one (so [now()] never repeats), and the text the exception carries:
    the reason when the connection fails, the detail of a statement's error. *)
Record Turn := mkTurn { script : Script; elapsed : nat; turn_what : string }.

(** The exception a call left. *)
Inductive failure :=
  | NoFailure
  | Transient (what : string)
  | SqlError (e : sql_error) (detail : string)
  | Failed (what : string).

Record Pg := mkPg { contents : Db; turns : list Turn; last_failure : failure }.

Definition start (t : Turn) (d : Db) : Db := set_now (now_ d + 1 + Z.of_nat (elapsed t))%Z d.

Section Runner.
Context {A : Type}.

(** [run(pool, idempotent, tag, fn)].  A database without turns left is not
    reachable. *)
Definition transaction (idempotent : bool) (tag : string) (fn : SQL A) : EX Pg A :=
  fun p => match turns p with
           | [] => (None, mkPg (contents p) [] (Transient (tag +:+ ": database unavailable")))
           | t :: ts =>
             match run fn idempotent (script t) (start t (contents p)) with
             | (Returned a, d) => (Some a, mkPg d ts (last_failure p))
             | (TransientPersistenceError, d) =>
               (None, mkPg d ts (Transient (tag +:+ ": " +:+ turn_what t)))
             | (Propagated (Some e), d) => (None, mkPg d ts (SqlError e (turn_what t)))
             | (Propagated None, d) => (None, mkPg d ts (Failed (turn_what t)))
             end
           end.

Definition db_read (tag : string) (fn : SQL A) : EX Pg A := transaction true tag fn.
Definition db_write (tag : string) (fn : SQL A) : EX Pg A := transaction false tag fn.

End Runner.

#[export] Instance pg_errors `{Postgres} : DbErrors Pg := {|
  err_what p := match last_failure p with
                | NoFailure => ""%string
                | Transient what | Failed what => what
                | SqlError (runtime_error what) _ => what
                | SqlError e detail => pg_what e detail
                end;
  err_unique_violation p := match last_failure p with
                            | SqlError (unique_violation _) _ => true
                            | _ => false
                            end
|}.

(** ** Proofs *)

(** The turns have no commit whose outcome the caller does not learn. *)
Definition settled_turns (p : Pg) : Prop :=
  Forall (fun t => forallb settled (attempts (script t)) = true) (turns p).

(** A call runs its statements to the end at the start of its turn, or leaves
    the tables as they were. *)
Lemma transaction_settled {A} idem tag (fn : SQL A) p :
  settled_turns p ->
  let '(r, p') := transaction idem tag fn p in
  settled_turns p' /\
  match r with
  | Some a => exists t, fn (start t (contents p)) = inr (a, contents p')
  | None => contents p' = contents p \/ exists t, contents p' = start t (contents p)
  end.
Proof.
  unfold settled_turns, transaction. destruct (turns p) as [|t ts]; [simpl; auto|].
  intros [Ht Hts]%Forall_cons_1.
  pose proof (run_settled fn idem (script t) (start t (contents p))) as Hr.
  rewrite Ht in Hr. specialize (Hr I).
  destruct (run fn idem (script t) (start t (contents p))) as [[a| |[e|]] d]; simpl; subst; eauto.
Qed.

(** Whatever happens to its commits, a query runs on the tables at the start of
    its turn and leaves them so. *)
Lemma db_read_same {A} tag (fn : SQL A) p :
  (forall d a d', fn d = inr (a, d') -> d' = d) ->
  let '(r, p') := db_read tag fn p in
  match r with
  | Some a => exists t, contents p' = start t (contents p) /\
      fn (start t (contents p)) = inr (a, start t (contents p))
  | None => contents p' = contents p \/ exists t, contents p' = start t (contents p)
  end.
Proof.
  intros Hq. unfold db_read, transaction. destruct (turns p) as [|t ts]; [by left|].
  pose proof (run_query fn true (script t) (start t (contents p)) Hq) as Hr.
  destruct (run fn true (script t) (start t (contents p))) as [[a| |[e|]] d]; simpl; eauto.
Qed.

(** A write that does not return has no effect, or the one effect of a commit
    whose outcome the caller did not learn. *)
Lemma db_write_once {A} tag (fn : SQL A) p :
  let '(r, p') := db_write tag fn p in
  match r with
  | Some a => exists t, fn (start t (contents p)) = inr (a, contents p')
  | None => contents p' = contents p \/ exists t, contents p' = start t (contents p) \/
      ~ settled_turns p /\ exists a, fn (start t (contents p)) = inr (a, contents p')
  end.
Proof.
  unfold db_write, transaction. destruct (turns p) as [|t ts] eqn:Et; [by left|].
  assert (Hn : forallb settled (attempts (script t)) = false -> ~ settled_turns p).
  { unfold settled_turns. rewrite Et. intros Hf [Ht _]%Forall_cons_1. congruence. }
  pose proof (run_once fn (script t) (start t (contents p))) as Hr.
  destruct (run fn false (script t) (start t (contents p))) as [[a| |[e|]] d]; simpl; [eauto|..];
    right; exists t; destruct Hr as [|[]]; auto.
Qed.

(** A call of any kind uses up its turn. *)
Lemma transaction_turns {A} idem tag (fn : SQL A) p : turns (transaction idem tag fn p).2 = tail (turns p).
Proof.
  unfold transaction. destruct (turns p) as [|t ts]; [done|].
  by destruct (run fn idem (script t) (start t (contents p))) as [[a| |[e|]] d].
Qed.

(** A connection that holds until the first commit is through. *)
Definition healthy (t : Turn) : Prop :=
  lease_ok (script t) = true /\ head (attempts (script t)) = Some Committed.

Lemma transaction_healthy {A} idem tag (fn : SQL A) p t ts :
  turns p = t :: ts -> healthy t ->
  transaction idem tag fn p =
  match fn (start t (contents p)) with
  | inr (a, d) => (Some a, mkPg d ts (last_failure p))
  | inl e => (None, mkPg (start t (contents p)) ts (SqlError e (turn_what t)))
  end.
Proof.
  intros Ht [Hl Hh]. unfold transaction, run. rewrite Ht, Hl.
  destruct (attempts (script t)) as [|x xs]; [done|]. injection Hh as ->. simpl. unfold applied_db.
  by destruct (fn (start t (contents p))) as [e|[a d]].
Qed.

(** A predicate the statements and the clock preserve is preserved by the call. *)
Lemma transaction_preserves {A} (I : Db -> Prop) idem tag (fn : SQL A) p :
  settled_turns p -> I (contents p) ->
  (forall t, I (contents p) -> I (start t (contents p))) ->
  (forall t a d', fn (start t (contents p)) = inr (a, d') -> I d') ->
  I (contents (transaction idem tag fn p).2).
Proof.
  intros Hs HI Hstart Hfn. pose proof (transaction_settled idem tag fn p Hs) as Hr.
  destruct (transaction idem tag fn p) as [[a|] p'] eqn:E; simpl in *; destruct Hr as [_ Hr].
  - destruct Hr as [t Ht]. eauto.
  - destruct Hr as [->|[t ->]]; auto.
Qed.

End Database.
