(* ===== verification/HubTables.v ===== *)
(** * Hubs, members and channels in the database

    [infra/persistence/sql/002_hubs.sql] and [003_channels.sql]: the triggers,
    and the statements the repositories run on these tables.  A statement
    fires the row's [BEFORE] triggers in the order of their names, then checks
    [NOT NULL] and [CHECK] constraints and the unique indexes, stores the row,
    and then runs the foreign keys and the other [AFTER] triggers. *)

From S2P Require Import Prelude.
From S2P Require Import Sql.

Module HubTables.
Import Sql.

Section Tables.
Context `{PG : Postgres}.

(** ** Roles *)

(** [get_hub_role_id(p_role_name)]: null when there is no such role. *)
Definition get_hub_role_id (p_role_name : string) (d : Db) : option uuid :=
  fst <$> head (select (fun '(_, r) => bool_decide (r_name r = p_role_name)) (hub_roles d)).

(** ** Triggers on [hubs] *)

(** Trigger [trg_hubs_limit]. *)
Definition enforce_max_hubs_per_owner (NEW : hub_row) : SQL unit :=
  (v_count <-- sql_gets (fun d =>
     length (select (fun '(_, h) => bool_decide (h_owner_id h = h_owner_id NEW)) (hubs d)));
   ensure (negb (2 <=? v_count))
     (raise_exception "Hub ownership limit reached: max 2 hubs per owner"))%sql.

(** Trigger [trg_hubs_owner_active]. *)
Definition ensure_hub_owner_active (NEW : hub_row) : SQL unit :=
  (v_deleted_at <-- sql_gets (profile_deleted_at (h_owner_id NEW));
   ensure (bool_decide (v_deleted_at = None)) (raise_exception "Deleted users cannot own hubs"))%sql.

(** ** Triggers on [hub_members] *)

(** Trigger [trg_hub_members_prevent_invalid_owner_role]; a comparison with
    null does not hold. *)
Definition prevent_invalid_owner_role (hub_id user_id : uuid) (role_id : option uuid) : SQL unit :=
  (v_owner_role_id <-- sql_gets (get_hub_role_id "owner");
   if bool_decide (is_Some role_id /\ role_id = v_owner_role_id)
   then v_hub_owner_id <-- sql_gets (fun d => h_owner_id <$> hubs d !! hub_id);
        match v_hub_owner_id with
        | None => sql_raise (raise_exception "Hub does not exist")
        | Some v_hub_owner_id => ensure (bool_decide (user_id = v_hub_owner_id))
            (raise_exception "Only hub owner can have owner role")
        end
   else sql_ret tt)%sql.

(** Trigger [trg_hub_members_user_active]. *)
Definition ensure_hub_member_active (user_id : uuid) : SQL unit :=
  (v_deleted_at <-- sql_gets (profile_deleted_at user_id);
   ensure (bool_decide (v_deleted_at = None))
     (raise_exception "Deleted users cannot be hub members"))%sql.

(** [INSERT INTO hub_members (hub_id, user_id, role_id, invited_by) VALUES (..., NULL)
     ON CONFLICT (hub_id, user_id) DO UPDATE SET role_id = EXCLUDED.role_id,
     updated_at = now()]: a conflicting row keeps its [joined_at]. *)
Definition upsert_member (hub_id user_id : uuid) (role_id : option uuid) : SQL unit :=
  (prevent_invalid_owner_role hub_id user_id role_id;;;
   ensure_hub_member_active user_id;;;
   t <-- now;
   match role_id with
   | None => sql_raise (not_null_violation "role_id")
   | Some role =>
     members <-- sql_gets memberships;
     match members !! (hub_id, user_id) with
     | Some OLD =>
       prevent_invalid_owner_role hub_id user_id role_id;;;
       sql_modify (set_members (<[(hub_id, user_id) :=
         mkMemberRow role (hm_invited_by OLD) (hm_joined_at OLD) t]> members))
     | None =>
       sql_modify (set_members (<[(hub_id, user_id) := mkMemberRow role None t t]> members))
     end;;;
     references hubs (Some hub_id) "hub_members_hub_id_fkey";;;
     references profiles (Some user_id) "hub_members_user_id_fkey";;;
     references hub_roles (Some role) "hub_members_role_id_fkey"
   end)%sql.

(** [DELETE FROM hub_members WHERE hub_id = ... AND user_id = ...]. *)
Definition delete_member (hub_id user_id : uuid) : SQL unit :=
  sql_modify (fun d => set_members (delete (hub_id, user_id) (memberships d)) d).

(** Trigger [trg_hubs_owner_membership]. *)
Definition ensure_owner_membership (id : uuid) (NEW : hub_row) : SQL unit :=
  (v_owner_role_id <-- sql_gets (get_hub_role_id "owner");
   ensure (bool_decide (is_Some v_owner_role_id))
     (raise_exception "Missing required hub role: owner");;;
   upsert_member id (h_owner_id NEW) v_owner_role_id)%sql.

(** ** Statements on [hubs] *)

(** The constraints of the table, by name. *)
Definition check_hubs (NEW : hub_row) : SQL unit :=
  (ensure (length_at_most 128 (h_avatar_seed NEW)) (check_violation "hubs_avatar_seed_length");;;
   ensure (length_between 1 80 (h_name NEW)) (check_violation "hubs_name_length"))%sql.

(** The index [idx_hubs_owner_name_unique], for the row with the key [id]. *)
Definition hub_name_free (id : uuid) (NEW : hub_row) (d : Db) : bool :=
  bool_decide (select (fun '(k, h) => bool_decide (k <> id) &&
    bool_decide (h_owner_id h = h_owner_id NEW) &&
    bool_decide (lower (h_name h) = lower (h_name NEW))) (hubs d) = []).

(** [INSERT INTO hubs (name, owner_id, created_by) VALUES ($1, $2, $2)]. *)
Definition insert_hub (name : string) (owner_id : uuid) : SQL (uuid * hub_row) :=
  (id <-- gen_random_uuid;
   t <-- now;
   let NEW := mkHubRow name "Felix" owner_id (Some owner_id) t t in
   enforce_max_hubs_per_owner NEW;;;
   ensure_hub_owner_active NEW;;;
   check_hubs NEW;;;
   table <-- sql_gets hubs;
   ensure (bool_decide (table !! id = None)) (unique_violation "hubs_pkey");;;
   free <-- sql_gets (hub_name_free id NEW);
   ensure free (unique_violation "idx_hubs_owner_name_unique");;;
   sql_modify (set_hubs (<[id := NEW]> table));;;
   references profiles (Some owner_id) "hubs_owner_id_fkey";;;
   references profiles (Some owner_id) "hubs_created_by_fkey";;;
   ensure_owner_membership id NEW;;;
   sql_ret (id, NEW))%sql.

(** [UPDATE hubs SET ... WHERE id = ... RETURNING id] of the name or the avatar;
    [trg_hubs_updated_at] stamps the row.  Answers whether there was a row. *)
Definition update_hub (id : uuid) (f : hub_row -> hub_row) : SQL bool :=
  (table <-- sql_gets hubs;
   t <-- now;
   match table !! id with
   | None => sql_ret false
   | Some OLD =>
     let NEW' := f OLD in
     let NEW := mkHubRow (h_name NEW') (h_avatar_seed NEW') (h_owner_id NEW') (h_created_by NEW')
                  (h_created_at NEW') t in
     check_hubs NEW;;;
     free <-- sql_gets (hub_name_free id NEW);
     ensure free (unique_violation "idx_hubs_owner_name_unique");;;
     sql_modify (set_hubs (<[id := NEW]> table));;;
     sql_ret true
   end)%sql.

(** ** Statements on [channels] *)

(** Trigger [trg_channels_creator_active]. *)
Definition ensure_channel_creator_active (NEW : channel_row) : SQL unit :=
  match c_created_by NEW with
  | None => sql_ret tt
  | Some created_by =>
    (v_deleted_at <-- sql_gets (profile_deleted_at created_by);
     ensure (bool_decide (v_deleted_at = None))
       (raise_exception "Deleted users cannot create channels"))%sql
  end.

(** Trigger [trg_channels_limit]. *)
Definition enforce_max_channels_per_hub (NEW : channel_row) : SQL unit :=
  (v_count <-- sql_gets (fun d =>
     length (select (fun '(_, c) => bool_decide (c_hub_id c = c_hub_id NEW)) (channels d)));
   ensure (negb (3 <=? v_count))
     (raise_exception "Channel limit reached: max 3 channels per hub"))%sql.

Definition check_channels (NEW : channel_row) : SQL unit :=
  (ensure (length_between 1 80 (c_name NEW)) (check_violation "channels_name_length");;;
   ensure (0 <=? c_position NEW)%Z (check_violation "channels_position_check");;;
   ensure (bool_decide (c_type NEW = "text" \/ c_type NEW = "voice"))
     (check_violation "channels_type_check"))%sql.

(** The index [idx_channels_hub_name_unique]. *)
Definition channel_name_free (id : uuid) (NEW : channel_row) (d : Db) : bool :=
  bool_decide (select (fun '(k, c) => bool_decide (k <> id) &&
    bool_decide (c_hub_id c = c_hub_id NEW) &&
    bool_decide (lower (c_name c) = lower (c_name NEW))) (channels d) = []).

(** [INSERT INTO channels (hub_id, name, type, created_by) VALUES (...)]. *)
Definition insert_channel (hub_id : uuid) (name type : string) (created_by : uuid) : SQL uuid :=
  (id <-- gen_random_uuid;
   t <-- now;
   let NEW := mkChannelRow hub_id name type 0 (Some created_by) t t in
   ensure_channel_creator_active NEW;;;
   enforce_max_channels_per_hub NEW;;;
   check_channels NEW;;;
   table <-- sql_gets channels;
   ensure (bool_decide (table !! id = None)) (unique_violation "channels_pkey");;;
   free <-- sql_gets (channel_name_free id NEW);
   ensure free (unique_violation "idx_channels_hub_name_unique");;;
   sql_modify (set_channels (<[id := NEW]> table));;;
   references hubs (Some hub_id) "channels_hub_id_fkey";;;
   references profiles (Some created_by) "channels_created_by_fkey";;;
   sql_ret id)%sql.

(** [UPDATE channels SET name = ... WHERE id = ... RETURNING id]; the trigger on
    the type fires for updates of that column only. *)
Definition rename_channel (id : uuid) (name : string) : SQL bool :=
  (table <-- sql_gets channels;
   t <-- now;
   match table !! id with
   | None => sql_ret false
   | Some OLD =>
     let NEW := mkChannelRow (c_hub_id OLD) name (c_type OLD) (c_position OLD) (c_created_by OLD)
                  (c_created_at OLD) t in
     check_channels NEW;;;
     free <-- sql_gets (channel_name_free id NEW);
     ensure free (unique_violation "idx_channels_hub_name_unique");;;
     sql_modify (set_channels (<[id := NEW]> table));;;
     sql_ret true
   end)%sql.

(** ** Deletions

    [ON DELETE CASCADE]: a message takes its attachments with it, a channel its
    counter and its messages, a hub its channels and its members. *)

Definition delete_messages (gone : message_row -> bool) (d : Db) : Db :=
  let left := filter (fun '(_, m) => gone m = false) (messages d) in
  set_messages left
    (set_attachments (filter (fun '(_, a) => is_Some (left !! ma_message_id a)) (attachments d)) d).

Definition delete_channels (gone : uuid * channel_row -> bool) (d : Db) : Db :=
  let left := filter (fun r => gone r = false) (channels d) in
  delete_messages (fun m => bool_decide (left !! ms_channel_id m = None))
    (set_counters (filter (fun '(c, _) => is_Some (left !! c)) (counters d)) (set_channels left d)).

Definition delete_hub_rows (id : uuid) (d : Db) : Db :=
  delete_channels (fun '(_, c) => bool_decide (c_hub_id c = id))
    (set_members (filter (fun '((h, _), _) => h <> id) (memberships d))
       (set_hubs (delete id (hubs d)) d)).

(** [DELETE FROM hubs WHERE id = ... AND owner_id = ... RETURNING id]. *)
Definition delete_hub (id owner_id : uuid) : SQL bool :=
  (table <-- sql_gets hubs;
   match table !! id with
   | Some h =>
     if bool_decide (h_owner_id h = owner_id)
     then sql_modify (delete_hub_rows id);;; sql_ret true
     else sql_ret false
   | None => sql_ret false
   end)%sql.

(** [DELETE FROM channels WHERE id = ... AND hub_id = ... RETURNING id]. *)
Definition delete_channel (id hub_id : uuid) : SQL bool :=
  (table <-- sql_gets channels;
   match table !! id with
   | Some c =>
     if bool_decide (c_hub_id c = hub_id)
     then sql_modify (delete_channels (fun '(k, _) => bool_decide (k = id)));;; sql_ret true
     else sql_ret false
   | None => sql_ret false
   end)%sql.

End Tables.

End HubTables.
