(* ===== verification/HubInvariants.v ===== *)
(** * What the schema guarantees of hubs, members and channels

    The invariant of the tables of [HubTables.v] - keys, references, limits,
    unique names, and the owner role - and that every statement keeps it. *)

From S2P Require Import Prelude.
From S2P Require Import Sql.
From S2P Require Import HubTables.

Module HubInvariants.
Import Sql HubTables.

Section Invariants.
Context `{PG : Postgres}.

Definition canonical (u : uuid) : Prop := uuid_in u = Some u.
Definition active (u : uuid) (d : Db) : Prop :=
  exists p, profiles d !! u = Some p /\ p_deleted_at p = None.

Definition owned_by (o : uuid) : uuid * hub_row -> bool :=
  fun '(_, h) => bool_decide (h_owner_id h = o).
Definition inside (h : uuid) : uuid * channel_row -> bool :=
  fun '(_, c) => bool_decide (c_hub_id c = h).

(** ** The invariant *)

(** The migration's role rows: unique names, the three system roles. *)
Record roles_ok (d : Db) : Prop := mk_roles_ok {
  ro_unique : forall i j r r', hub_roles d !! i = Some r -> hub_roles d !! j = Some r' ->
    r_name r = r_name r' -> i = j;
  ro_system : forall n, n ∈ ["owner"; "admin"; "member"]%string ->
    exists i r, hub_roles d !! i = Some r /\ r_name r = n
}.

(** At most two hubs for an owner, who is active, under different names. *)
Record hub_rows_ok (d : Db) : Prop := mk_hub_rows_ok {
  ho_row : forall id h, hubs d !! id = Some h ->
    canonical id /\ active (h_owner_id h) d /\
    length_between 1 80 (h_name h) = true /\ length_at_most 128 (h_avatar_seed h) = true;
  ho_names : forall id id' h h', hubs d !! id = Some h -> hubs d !! id' = Some h' ->
    h_owner_id h = h_owner_id h' -> lower (h_name h) = lower (h_name h') -> id = id';
  ho_limit : forall o, length (select (owned_by o) (hubs d)) <= 2
}.

(** Members are active users of existing hubs, only the owner of the hub has
    the owner role, and the members of a hub joined one after another. *)
Record members_ok (d : Db) : Prop := mk_members_ok {
  mo_row : forall id u m, memberships d !! (id, u) = Some m ->
    active u d /\ is_Some (hub_roles d !! hm_role_id m) /\ (hm_joined_at m <= now_ d)%Z /\
    exists h, hubs d !! id = Some h /\
      (get_hub_role_id "owner" d = Some (hm_role_id m) -> h_owner_id h = u);
  mo_times : forall id u u' m m', memberships d !! (id, u) = Some m ->
    memberships d !! (id, u') = Some m' -> hm_joined_at m = hm_joined_at m' -> u = u'
}.

(** At most three channels in a hub, under different names, created one after
    another. *)
Record channel_rows_ok (d : Db) : Prop := mk_channel_rows_ok {
  co_row : forall id c, channels d !! id = Some c ->
    canonical id /\ is_Some (hubs d !! c_hub_id c) /\ length_between 1 80 (c_name c) = true /\
    (c_type c = "text" \/ c_type c = "voice")%string /\ c_position c = 0%Z /\
    (c_created_at c <= now_ d)%Z;
  co_times : forall id id' c c', channels d !! id = Some c -> channels d !! id' = Some c' ->
    c_created_at c = c_created_at c' -> id = id';
  co_names : forall id id' c c', channels d !! id = Some c -> channels d !! id' = Some c' ->
    c_hub_id c = c_hub_id c' -> lower (c_name c) = lower (c_name c') -> id = id';
  co_limit : forall h, length (select (inside h) (channels d)) <= 3
}.

Record hubs_ok (d : Db) : Prop := mk_hubs_ok {
  hk_profiles : forall u, is_Some (profiles d !! u) -> canonical u;
  hk_draws : Forall canonical (draws d);
  hk_roles : roles_ok d;
  hk_hubs : hub_rows_ok d;
  hk_members : members_ok d;
  hk_channels : channel_rows_ok d
}.

(** At the start of a transaction [now()] is later than all that is stored. *)
Definition clock_ahead (d : Db) : Prop :=
  (forall id c, channels d !! id = Some c -> (c_created_at c < now_ d)%Z) /\
  (forall k m, memberships d !! k = Some m -> (hm_joined_at m < now_ d)%Z).

(** ** What the statements do when they return *)

Lemma canonical_param s u : uuid_in s = Some u -> canonical u.
Proof. apply uuid_in_idem. Qed.

Lemma get_hub_role_id_spec n d i :
  roles_ok d ->
  get_hub_role_id n d = Some i <-> exists r, hub_roles d !! i = Some r /\ r_name r = n.
Proof.
  intros [Hu _]. unfold get_hub_role_id.
  set (rows := select _ _). assert (Hin : forall k r, (k, r) ∈ rows <->
    hub_roles d !! k = Some r /\ r_name r = n).
  { intros k r. unfold rows. by rewrite elem_of_select, bool_decide_eq_true. }
  destruct rows as [|[k r] rows]; simpl.
  - split; [done|]. intros (r & Hr). apply Hin in Hr. by apply elem_of_nil in Hr.
  - destruct (proj1 (Hin k r) ltac:(by left)) as [Hk Hn]. split.
    + intros [= <-]. eauto.
    + intros (r' & Hr' & Hn'). f_equal. eapply Hu; [done..|]. congruence.
Qed.

Lemma get_hub_role_id_system n d :
  roles_ok d -> n ∈ ["owner"; "admin"; "member"]%string -> is_Some (get_hub_role_id n d).
Proof.
  intros Hr Hn. destruct (ro_system d Hr n Hn) as (i & r & Hi & Hnm).
  exists i. apply get_hub_role_id_spec; eauto.
Qed.

Lemma prevent_invalid_owner_role_inr h u role d x d' :
  prevent_invalid_owner_role h u (Some role) d = inr (x, d') ->
  d' = d /\ (get_hub_role_id "owner" d = Some role ->
             exists hub, hubs d !! h = Some hub /\ h_owner_id hub = u).
Proof.
  unfold prevent_invalid_owner_role. intros H. sql_inv.
  case_bool_decide as Hb.
  - sql_inv. destruct (hubs d !! h) as [hub|] eqn:E; simpl in H; sql_inv.
    apply bool_decide_eq_true in H. eauto.
  - sql_inv. split; [done|]. intros Heq. destruct Hb. split; eauto.
Qed.

Lemma upsert_member_inr h u role d x d' :
  upsert_member h u role d = inr (x, d') ->
  exists row, role = Some (hm_role_id row) /\
    d' = set_members (<[(h, u) := row]> (memberships d)) d /\
    hm_joined_at row = default (now_ d) (hm_joined_at <$> memberships d !! (h, u)) /\
    is_Some (hubs d !! h) /\ active u d /\ is_Some (hub_roles d !! hm_role_id row) /\
    (get_hub_role_id "owner" d = role -> exists hub, hubs d !! h = Some hub /\ h_owner_id hub = u).
Proof.
  unfold upsert_member, ensure_hub_member_active. intros H. sql_inv.
  destruct role as [role|]; [|by sql_inv]. sql_inv.
  match goal with H : prevent_invalid_owner_role _ _ _ d = _ |- _ =>
    apply prevent_invalid_owner_role_inr in H as [-> Howner] end.
  match goal with H : bool_decide (profile_deleted_at _ _ = None) = true |- _ =>
    apply bool_decide_eq_true in H as Hact end.
  match goal with H : match _ with Some _ => _ | None => _ end d = inr (_, ?s) |- _ =>
    assert (exists row, hm_role_id row = role /\
      hm_joined_at row = default (now_ d) (hm_joined_at <$> memberships d !! (h, u)) /\
      s = set_members (<[(h, u) := row]> (memberships d)) d) as (row & <- & Hjoin & ->) end.
  { destruct (memberships d !! (h, u)) as [OLD|]; sql_inv;
      [|eexists; split_and!; cycle 2; [reflexivity|done..]].
    match goal with H : prevent_invalid_owner_role _ _ _ d = _ |- _ =>
      apply prevent_invalid_owner_role_inr in H as [-> _] end.
    eexists. split_and!; cycle 2; [reflexivity|done..]. }
  simpl in *. exists row. split_and!; eauto.
  match goal with H : forall k, Some u = Some k -> _ |- _ => destruct (H _ eq_refl) as [p Hp] end.
  exists p. split; [done|]. unfold profile_deleted_at in Hact. by rewrite Hp in Hact.
Qed.

Lemma name_free_hub id NEW d :
  hub_name_free id NEW d = true <->
  forall k h, hubs d !! k = Some h -> h_owner_id h = h_owner_id NEW ->
    lower (h_name h) = lower (h_name NEW) -> k = id.
Proof.
  unfold hub_name_free. rewrite bool_decide_eq_true. split.
  - intros Hnil k h Hk Ho Hn. destruct (decide (k = id)) as [|Hne]; [done|].
    exfalso. apply (not_elem_of_nil (k, h)). rewrite <- Hnil. apply elem_of_select.
    split; [done|]. by rewrite !bool_decide_true.
  - intros Hall. apply elem_of_nil_inv. intros [k h] [Hk Hb]%elem_of_select.
    apply andb_prop in Hb as [[Hne%bool_decide_eq_true Ho%bool_decide_eq_true]%andb_prop
      Hn%bool_decide_eq_true]. eauto.
Qed.

Lemma name_free_channel id NEW d :
  channel_name_free id NEW d = true <->
  forall k c, channels d !! k = Some c -> c_hub_id c = c_hub_id NEW ->
    lower (c_name c) = lower (c_name NEW) -> k = id.
Proof.
  unfold channel_name_free. rewrite bool_decide_eq_true. split.
  - intros Hnil k h Hk Ho Hn. destruct (decide (k = id)) as [|Hne]; [done|].
    exfalso. apply (not_elem_of_nil (k, h)). rewrite <- Hnil. apply elem_of_select.
    split; [done|]. by rewrite !bool_decide_true.
  - intros Hall. apply elem_of_nil_inv. intros [k h] [Hk Hb]%elem_of_select.
    apply andb_prop in Hb as [[Hne%bool_decide_eq_true Ho%bool_decide_eq_true]%andb_prop
      Hn%bool_decide_eq_true]. eauto.
Qed.

Lemma below_limit n c : negb (n <=? c) = true -> c < n.
Proof. rewrite negb_true_iff, Nat.leb_gt. done. Qed.

Lemma insert_hub_inr name o d id NEW d' :
  insert_hub name o d = inr ((id, NEW), d') ->
  exists us row, draws d = id :: us /\ NEW = mkHubRow name "Felix" o (Some o) (now_ d) (now_ d) /\
    d' = set_members (<[(id, o) := row]> (memberships d))
           (set_hubs (<[id := NEW]> (hubs d)) (set_draws us d)) /\
    hm_joined_at row = default (now_ d) (hm_joined_at <$> memberships d !! (id, o)) /\
    hubs d !! id = None /\ length (select (owned_by o) (hubs d)) < 2 /\ hub_name_free id NEW d = true /\
    length_between 1 80 name = true /\ active o d /\
    get_hub_role_id "owner" d = Some (hm_role_id row) /\ is_Some (hub_roles d !! hm_role_id row).
Proof.
  unfold insert_hub, enforce_max_hubs_per_owner, ensure_hub_owner_active, check_hubs,
    ensure_owner_membership. intros H. sql_inv.
  match goal with H : (_, _) = (_, _) |- _ => injection H as -> -> end.
  match goal with H : upsert_member _ _ _ _ = _ |- _ =>
    apply upsert_member_inr in H as (row & Hrole & -> & Hjoin & _ & Hact & Hr & _) end.
  match goal with H : negb _ = true |- _ => apply below_limit in H end.
  match goal with H : bool_decide (_ !! _ = None) = true |- _ => apply bool_decide_eq_true in H end.
  simpl in *. eexists _, row. split_and!; [done|reflexivity|..]; eauto.
Qed.

Lemma update_hub_inr id f d b d' :
  update_hub id f d = inr (b, d') ->
  if b then exists OLD NEW, hubs d !! id = Some OLD /\
    NEW = mkHubRow (h_name (f OLD)) (h_avatar_seed (f OLD)) (h_owner_id (f OLD))
            (h_created_by (f OLD)) (h_created_at (f OLD)) (now_ d) /\
    d' = set_hubs (<[id := NEW]> (hubs d)) d /\ hub_name_free id NEW d = true /\
    length_between 1 80 (h_name NEW) = true /\ length_at_most 128 (h_avatar_seed NEW) = true
  else d' = d /\ hubs d !! id = None.
Proof.
  unfold update_hub, check_hubs. intros H. sql_inv.
  destruct (hubs d !! id) as [OLD|] eqn:E; sql_inv; [|done].
  eexists OLD, _. split_and!; [done|reflexivity|..]; eauto.
Qed.

Lemma insert_channel_inr hub name type by_ d id d' :
  insert_channel hub name type by_ d = inr (id, d') ->
  exists us NEW, draws d = id :: us /\
    NEW = mkChannelRow hub name type 0 (Some by_) (now_ d) (now_ d) /\
    d' = set_channels (<[id := NEW]> (channels d)) (set_draws us d) /\
    channels d !! id = None /\ is_Some (hubs d !! hub) /\
    length (select (inside hub) (channels d)) < 3 /\ channel_name_free id NEW d = true /\
    length_between 1 80 name = true /\ (type = "text" \/ type = "voice")%string.
Proof.
  unfold insert_channel, ensure_channel_creator_active, enforce_max_channels_per_hub, check_channels.
  intros H. sql_inv. cbn [c_created_by] in *. sql_inv.
  match goal with H : negb _ = true |- _ => apply below_limit in H end.
  match goal with H : bool_decide (_ !! _ = None) = true |- _ => apply bool_decide_eq_true in H end.
  match goal with H : bool_decide (_ \/ _) = true |- _ => apply bool_decide_eq_true in H end.
  simpl in *. eexists _, _. split_and!; [done|reflexivity|..]; eauto.
Qed.

Lemma rename_channel_inr id name d b d' :
  rename_channel id name d = inr (b, d') ->
  if b then exists OLD NEW, channels d !! id = Some OLD /\
    NEW = mkChannelRow (c_hub_id OLD) name (c_type OLD) (c_position OLD) (c_created_by OLD)
            (c_created_at OLD) (now_ d) /\
    d' = set_channels (<[id := NEW]> (channels d)) d /\ channel_name_free id NEW d = true /\
    length_between 1 80 name = true
  else d' = d /\ channels d !! id = None.
Proof.
  unfold rename_channel, check_channels. intros H. sql_inv.
  destruct (channels d !! id) as [OLD|] eqn:E; sql_inv; [|done].
  eexists OLD, _. split_and!; [done|reflexivity|..]; eauto.
Qed.

Lemma delete_hub_inr id o d b d' :
  delete_hub id o d = inr (b, d') ->
  if b then (exists h, hubs d !! id = Some h /\ h_owner_id h = o) /\ d' = delete_hub_rows id d
  else d' = d /\ forall h, hubs d !! id = Some h -> h_owner_id h <> o.
Proof.
  unfold delete_hub. intros H. sql_inv. destruct (hubs d !! id) as [h|] eqn:E; [|by sql_inv].
  case_bool_decide; sql_inv; naive_solver.
Qed.

Lemma delete_channel_inr id h d b d' :
  delete_channel id h d = inr (b, d') ->
  if b then (exists c, channels d !! id = Some c /\ c_hub_id c = h) /\
    d' = delete_channels (fun '(k, _) => bool_decide (k = id)) d
  else d' = d /\ forall c, channels d !! id = Some c -> c_hub_id c <> h.
Proof.
  unfold delete_channel. intros H. sql_inv. destruct (channels d !! id) as [c|] eqn:E; [|by sql_inv].
  case_bool_decide; sql_inv; naive_solver.
Qed.

(** ** Preservation *)

(** Each part depends on its tables only. *)
Lemma roles_frame d d' : hub_roles d' = hub_roles d -> roles_ok d -> roles_ok d'.
Proof. intros Hr [H1 H2]. constructor; by rewrite Hr. Qed.
Lemma hub_rows_frame d d' :
  hubs d' = hubs d -> profiles d' = profiles d -> hub_rows_ok d -> hub_rows_ok d'.
Proof. intros Hh Hp [H1 H2 H3]. constructor; unfold active; rewrite Hh, ?Hp; done. Qed.
Lemma members_frame d d' :
  memberships d' = memberships d -> hubs d' = hubs d -> profiles d' = profiles d ->
  hub_roles d' = hub_roles d -> (now_ d <= now_ d')%Z -> members_ok d -> members_ok d'.
Proof.
  intros Hm Hh Hp Hr Hn [H1 H2].
  constructor; unfold active, get_hub_role_id; rewrite Hm, ?Hh, ?Hp, ?Hr; [|done].
  intros id u m Hid. destruct (H1 id u m Hid) as (?&?&?&?). split_and!; try done. lia.
Qed.
Lemma channel_rows_frame d d' :
  channels d' = channels d -> hubs d' = hubs d -> (now_ d <= now_ d')%Z ->
  channel_rows_ok d -> channel_rows_ok d'.
Proof.
  intros Hc Hh Hn [H1 H2 H3 H4]. constructor; rewrite Hc, ?Hh; try done.
  intros id c Hid. destruct (H1 id c Hid) as (?&?&?&?&?&?). split_and!; try done. lia.
Qed.

Lemma start_ok d t :
  hubs_ok d -> (now_ d < t)%Z -> hubs_ok (set_now t d) /\ clock_ahead (set_now t d).
Proof.
  intros [Hp Hdr Hr Hh Hm Hc] Hnow. split.
  - constructor; try done; [by apply (roles_frame d)|by apply (hub_rows_frame d)| |].
    + by apply (members_frame d); [..|simpl; lia|].
    + by apply (channel_rows_frame d); [..|simpl; lia|].
  - split; simpl; [intros id c Hid|intros [id u] m Hid].
    + destruct (co_row d Hc id c Hid) as (?&?&?&?&?&?). lia.
    + destruct (mo_row d Hm id u m Hid) as (?&?&?&?). lia.
Qed.

Lemma upsert_member_ok h u role d x d' :
  hubs_ok d -> clock_ahead d -> upsert_member h u role d = inr (x, d') -> hubs_ok d'.
Proof.
  intros [Hp Hdr Hr Hh [Hrow Ht] Hc] [_ Hclock]
    (row & -> & -> & Hjoin & Hhub & Hact & Hrole & Howner)%upsert_member_inr.
  constructor; try done;
    [by apply (roles_frame d)|by apply (hub_rows_frame d)| |by apply (channel_rows_frame d)].
  constructor; simpl.
  - intros id u' m. rewrite lookup_insert_Some. intros [[[= <- <-] <-]|[_ Hk]]; [|by apply Hrow].
    split_and!; [done..| |].
    + rewrite Hjoin. destruct (memberships d !! (h, u)) as [OLD|] eqn:E; simpl; [|done].
      destruct (Hrow h u OLD E) as (?&?&?&?). done.
    + destruct Hhub as [hub Hhub]. exists hub. split; [done|]. intros Hown.
      destruct (Howner Hown) as (hub' & Hh' & Ho). congruence.
  - assert (Hnew : forall u' m, u' <> u -> memberships d !! (h, u') = Some m ->
      hm_joined_at m <> hm_joined_at row).
    { intros u' m Hne Hm. rewrite Hjoin. destruct (memberships d !! (h, u)) as [OLD|] eqn:E; simpl.
      - intros Heq. destruct Hne. eauto.
      - specialize (Hclock _ _ Hm). lia. }
    intros id u1 u2 m1 m2. rewrite !lookup_insert_Some.
    intros [[[= <- <-] <-]|[Hn1 Hk1]] [[Heq <-]|[Hn2 Hk2]] Heq'; eauto.
    + congruence.
    + destruct (decide (u2 = u)) as [|Hne]; [done|]. destruct (Hnew _ _ Hne Hk2). done.
    + injection Heq as <- <-. destruct (decide (u1 = u)) as [|Hne]; [done|].
      destruct (Hnew _ _ Hne Hk1). done.
Qed.

Lemma fewer_members ms d :
  hubs_ok d -> ms ⊆ memberships d -> hubs_ok (set_members ms d).
Proof.
  intros [Hp Hdr Hr Hh [Hrow Ht] Hc] Hsub. constructor; try done;
    [by apply (roles_frame d)|by apply (hub_rows_frame d)| |by apply (channel_rows_frame d)].
  constructor; simpl.
  - intros id u m Hk. by apply Hrow, (lookup_weaken _ _ _ _ Hk).
  - intros id u u' m m' Hk Hk'. apply (Ht id); by eapply lookup_weaken.
Qed.

Lemma delete_member_ok h u d x d' :
  hubs_ok d -> delete_member h u d = inr (x, d') -> hubs_ok d'.
Proof. intros Hok [= _ <-]. apply fewer_members; [done|]. apply delete_subseteq. Qed.

Lemma insert_hub_ok name o d r d' :
  hubs_ok d -> insert_hub name o d = inr (r, d') -> hubs_ok d'.
Proof.
  destruct r as [id NEW]. intros [Hp Hdr Hr Hh Hm Hc]
    (us & row & Hus & HNEW & -> & Hjoin & Hfree & Hlim & Hname & Hlen & Hact & Hrole & Hrr)%insert_hub_inr.
  rewrite Hus in Hdr. apply Forall_cons_1 in Hdr as [Hid Hdr].
  assert (Ho : h_owner_id NEW = o) by (by subst).
  constructor; try done; [by apply (roles_frame d)|..]; simpl.
  - destruct Hh as [Hrow Hnames Hl]. constructor; simpl.
    + intros k h. rewrite lookup_insert_Some. intros [[<- <-]|[_ Hk]]; [|by apply Hrow].
      subst. done.
    + intros k k' h h'. rewrite !lookup_insert_Some. rewrite name_free_hub in Hname.
      intros [[<- <-]|[_ Hk]] [[<- <-]|[_ Hk']] Ho' Hn; eauto. symmetry. eauto.
    + intros o'. rewrite select_insert_fresh by done. unfold owned_by at 1. case_bool_decide as Hb.
      * simpl. rewrite <- Hb, Ho. lia.
      * apply Hl.
  - assert (Hnone : forall u m, memberships d !! (id, u) <> Some m).
    { intros u m Hm'. destruct (mo_row d Hm _ _ _ Hm') as (_&_&_&h&?&_). congruence. }
    destruct Hm as [Hrow Ht]. constructor; simpl.
    + intros k u m. rewrite lookup_insert_Some. intros [[[= <- <-] <-]|[_ Hk]].
      * split_and!; [done..| |exists NEW; by rewrite lookup_insert_eq].
        rewrite Hjoin. destruct (memberships d !! (id, o)) eqn:E; [by destruct (Hnone _ _ E)|done].
      * destruct (Hrow k u m Hk) as (?&?&?&h&Hh'&Hown). split_and!; [done..|]. exists h.
        split; [|done]. rewrite lookup_insert_ne; [done|]. intros ->. congruence.
    + intros k u u' m m'. rewrite !lookup_insert_Some.
      intros [[[= <- <-] <-]|[Hn1 Hk1]] [[Heq <-]|[Hn2 Hk2]] Heq'; eauto.
      * congruence.
      * by destruct (Hnone u' m').
      * injection Heq as <- <-. by destruct (Hnone u m).
  - destruct Hc as [Hrow Ht Hn Hl]. constructor; try done. simpl. intros k c Hk.
    destruct (Hrow k c Hk) as (?&[h ?]&?&?&?&?). split_and!; try done.
    exists h. rewrite lookup_insert_ne; [done|]. intros ->. congruence.
Qed.

Lemma update_hub_ok id f d b d' :
  (forall h, h_owner_id (f h) = h_owner_id h) ->
  hubs_ok d -> update_hub id f d = inr (b, d') -> hubs_ok d'.
Proof.
  intros Hf [Hp Hdr Hr Hh Hm Hc] Hu. apply update_hub_inr in Hu. destruct b; [|by destruct Hu as [-> _]].
  destruct Hu as (OLD & NEW & HOLD & HNEW & -> & Hname & Hlen & Hav).
  assert (Ho : h_owner_id NEW = h_owner_id OLD) by (subst; apply Hf).
  constructor; try done; [by apply (roles_frame d)|..]; simpl.
  - destruct Hh as [Hrow Hnames Hl]. constructor; simpl.
    + intros k h. rewrite lookup_insert_Some. intros [[<- <-]|[_ Hk]]; [|by apply Hrow].
      destruct (Hrow id OLD HOLD) as (?&?&?&?). by rewrite Ho.
    + intros k k' h h'. rewrite !lookup_insert_Some. rewrite name_free_hub in Hname.
      intros [[<- <-]|[_ Hk]] [[<- <-]|[_ Hk']] Ho' Hn; eauto. symmetry. eauto.
    + intros o. etrans; [|apply (Hl o)]. apply select_length_keys. intros k h.
      rewrite lookup_insert_Some. intros [[<- <-]|[_ Hk]] Hb; [|by eauto].
      exists OLD. split; [done|]. unfold owned_by in *. by rewrite Ho in Hb.
  - destruct Hm as [Hrow Ht]. constructor; [|done]. intros k u m Hk.
    destruct (Hrow k u m Hk) as (?&?&?&h&Hh'&Hown). split_and!; [done..|].
    simpl. destruct (decide (id = k)) as [<-|Hne].
    + exists NEW. rewrite lookup_insert_eq. split; [done|]. intros Hr'. rewrite Ho.
      replace OLD with h by congruence. auto.
    + exists h. by rewrite lookup_insert_ne.
  - destruct Hc as [Hrow Ht Hn Hl]. constructor; try done. simpl. intros k c Hk.
    destruct (Hrow k c Hk) as (?&?&?&?&?&?). split_and!; try done.
    rewrite lookup_insert_is_Some. destruct (decide (id = c_hub_id c)); auto.
Qed.

Lemma insert_channel_ok hub name type by_ d id d' :
  hubs_ok d -> clock_ahead d -> insert_channel hub name type by_ d = inr (id, d') -> hubs_ok d'.
Proof.
  intros [Hp Hdr Hr Hh Hm Hc] [Hclock _]
    (us & NEW & Hus & HNEW & -> & Hfree & Hhub & Hlim & Hname & Hlen & Hty)%insert_channel_inr.
  rewrite Hus in Hdr. apply Forall_cons_1 in Hdr as [Hid Hdr].
  constructor; try done;
    [by apply (roles_frame d)|by apply (hub_rows_frame d)|by apply (members_frame d)|].
  destruct Hc as [Hrow Ht Hn Hl]. constructor; simpl.
  - intros k c. rewrite lookup_insert_Some. intros [[<- <-]|[_ Hk]]; [|by apply Hrow].
    subst NEW. split_and!; done.
  - intros k k' c c'. rewrite !lookup_insert_Some.
    intros [[<- <-]|[_ Hk]] [[<- <-]|[_ Hk']] Heq; eauto; exfalso; subst NEW; simpl in *.
    + specialize (Hclock k' c' Hk'). lia.
    + specialize (Hclock k c Hk). lia.
  - intros k k' c c'. rewrite !lookup_insert_Some. rewrite name_free_channel in Hname.
    intros [[<- <-]|[_ Hk]] [[<- <-]|[_ Hk']] Ho' Hn'; eauto. symmetry. eauto.
  - intros h. rewrite select_insert_fresh by done. unfold inside at 1. case_bool_decide as Hb.
    + simpl. subst NEW. simpl in Hb. subst h. lia.
    + apply Hl.
Qed.

Lemma rename_channel_ok id name d b d' :
  hubs_ok d -> rename_channel id name d = inr (b, d') -> hubs_ok d'.
Proof.
  intros [Hp Hdr Hr Hh Hm Hc] Hu. apply rename_channel_inr in Hu. destruct b; [|by destruct Hu as [-> _]].
  destruct Hu as (OLD & NEW & HOLD & HNEW & -> & Hname & Hlen).
  constructor; try done;
    [by apply (roles_frame d)|by apply (hub_rows_frame d)|by apply (members_frame d)|].
  destruct Hc as [Hrow Ht Hn Hl]. constructor; simpl.
  - intros k c. rewrite lookup_insert_Some. intros [[<- <-]|[_ Hk]]; [|by apply Hrow].
    destruct (Hrow id OLD HOLD) as (?&?&?&?&?&?). by subst NEW.
  - intros k k' c c'. rewrite !lookup_insert_Some.
    intros [[<- <-]|[_ Hk]] [[<- <-]|[_ Hk']] Heq; eauto; subst NEW; simpl in *; eauto.
  - intros k k' c c'. rewrite !lookup_insert_Some. rewrite name_free_channel in Hname.
    intros [[<- <-]|[_ Hk]] [[<- <-]|[_ Hk']] Ho' Hn'; eauto. symmetry. eauto.
  - intros h. etrans; [|apply (Hl h)]. apply select_length_keys. intros k c.
    rewrite lookup_insert_Some. intros [[<- <-]|[_ Hk]] Hb; [|by eauto].
    exists OLD. split; [done|]. by subst NEW.
Qed.

(** Rows that go leave a table that is still in order, if no row that stays
    refers to one that goes. *)
Lemma delete_channels_ok gone d : hubs_ok d -> hubs_ok (delete_channels gone d).
Proof.
  intros [Hp Hdr Hr Hh Hm [Hrow Ht Hn Hl]]. constructor; try done;
    [by apply (roles_frame d)|by apply (hub_rows_frame d)|by apply (members_frame d)|].
  constructor; simpl.
  - intros k c [Hk _]%map_lookup_filter_Some. by apply Hrow.
  - intros k k' c c' [Hk _]%map_lookup_filter_Some [Hk' _]%map_lookup_filter_Some. eauto.
  - intros k k' c c' [Hk _]%map_lookup_filter_Some [Hk' _]%map_lookup_filter_Some. eauto.
  - intros h. etrans; [|apply (Hl h)]. apply select_length_keys.
    intros k c [Hk _]%map_lookup_filter_Some Hb. eauto.
Qed.

Lemma delete_hub_rows_ok id d : hubs_ok d -> hubs_ok (delete_hub_rows id d).
Proof.
  intros [Hp Hdr Hr [Hhrow Hhn Hhl] Hm Hc]. constructor; try done; [by apply (roles_frame d)|..].
  - constructor; simpl.
    + intros k h [_ Hk]%lookup_delete_Some. by apply Hhrow.
    + intros k k' h h' [_ Hk]%lookup_delete_Some [_ Hk']%lookup_delete_Some. eauto.
    + intros o. etrans; [|apply (Hhl o)]. apply select_length_keys.
      intros k h [_ Hk]%lookup_delete_Some Hb. eauto.
  - destruct Hm as [Hrow Ht]. constructor; simpl.
    + intros k u m [Hk Hne]%map_lookup_filter_Some. destruct (Hrow k u m Hk) as (?&?&?&h&?&?).
      split_and!; [done..|]. exists h. split; [|done]. simpl. by rewrite lookup_delete_ne.
    + intros k u u' m m' [Hk _]%map_lookup_filter_Some [Hk' _]%map_lookup_filter_Some. eauto.
  - destruct Hc as [Hrow Ht Hn Hl]. constructor; simpl.
    + intros k c [Hk Hg%bool_decide_eq_false]%map_lookup_filter_Some.
      destruct (Hrow k c Hk) as (?&?&?&?&?&?). split_and!; try done. by rewrite lookup_delete_ne.
    + intros k k' c c' [Hk _]%map_lookup_filter_Some [Hk' _]%map_lookup_filter_Some. eauto.
    + intros k k' c c' [Hk _]%map_lookup_filter_Some [Hk' _]%map_lookup_filter_Some. eauto.
    + intros h. etrans; [|apply (Hl h)]. apply select_length_keys.
      intros k c [Hk _]%map_lookup_filter_Some Hb. eauto.
Qed.

Lemma delete_hub_ok id o d b d' : hubs_ok d -> delete_hub id o d = inr (b, d') -> hubs_ok d'.
Proof.
  intros Hok Hd%delete_hub_inr. destruct b; [|by destruct Hd as [-> _]]. destruct Hd as [_ ->].
  by apply delete_hub_rows_ok.
Qed.

Lemma delete_channel_ok id h d b d' : hubs_ok d -> delete_channel id h d = inr (b, d') -> hubs_ok d'.
Proof.
  intros Hok Hd%delete_channel_inr. destruct b; [|by destruct Hd as [-> _]]. destruct Hd as [_ ->].
  by apply delete_channels_ok.
Qed.

End Invariants.

End HubInvariants.
