(* ===== verification/HubRepository.v ===== *)
(** * The hub repository

    [infra/persistence/repositories/HubRepository.cpp] and [RepositoryUtils.h]:
    every method as one transaction on the tables. *)

From S2P Require Import Prelude.
From S2P Require Import CStrings.
From S2P Require Import Ids.
From S2P Require Import Protocol.
From S2P Require Import HubService.
From S2P Require Import Sql.
From S2P Require Import Database.
From S2P Require Import HubTables.

Module HubRepository.
Import Sql Database HubTables.

(** ** [RepositoryUtils.h] *)

Definition role_from_string (role : string) : Role :=
  let lower := HubService.lower_string role in
  if bool_decide (lower = "owner"%string) then OWNER
  else if bool_decide (lower = "admin"%string) then ADMIN
  else USER.

Definition channel_type_from_string (type : string) : ChannelType :=
  if bool_decide (HubService.lower_string type = "voice"%string) then VOICE else CHAT.

(** ** Rows *)

(** [Hub(name, id, owner)]: the owner is a member from the start. *)
Definition parse_hub_row (row : uuid * hub_row) : Hub :=
  let '(id, h) := row in
  mkHub (h_name h) (mkHubId id) (mkUserId (h_owner_id h)) (h_avatar_seed h)
    {[mkUserId (h_owner_id h) := OWNER]}.

Definition setMemberRole (uid : UserId) (role : Role) (hub : Hub) : Hub :=
  mkHub (hub_name hub) (hub_id hub) (hub_owner hub) (hub_avatar_seed hub)
    (<[uid := role]> (hub_members hub)).

Definition parse_channel_row (row : uuid * channel_row) : Channel :=
  let '(id, c) := row in
  mkChannel (c_name c) (mkChannelId id) (mkHubId (c_hub_id c)) (channel_type_from_string (c_type c)).

Definition normalize_db_role (role : string) : string :=
  match role_from_string role with OWNER => "owner" | ADMIN => "admin" | USER => "member" end.

(** [hub_members hm JOIN hub_roles r ON r.id = hm.role_id]: the rows with the
    name of their role. *)
Definition join_roles (d : Db) (rows : list ((uuid * uuid) * member_row)) :
    list ((uuid * uuid) * member_row * string) :=
  omap (fun row => (fun r => (row, r_name r)) <$> hub_roles d !! hm_role_id row.2) rows.

(** [ORDER BY position ASC, created_at ASC] and [ORDER BY hub_id ASC, ...]. *)
Definition channel_key (row : uuid * channel_row) : list sort_key :=
  [inl (c_position row.2); inl (c_created_at row.2)].
Definition hub_channel_key (row : uuid * channel_row) : list sort_key :=
  inr (c_hub_id row.2) :: channel_key row.
(** [ORDER BY hm.joined_at ASC] and [ORDER BY hm.hub_id ASC, hm.joined_at ASC]. *)
Definition member_key (row : (uuid * uuid) * member_row) : list sort_key :=
  [inl (hm_joined_at row.2)].
Definition hub_member_key (row : (uuid * uuid) * member_row) : list sort_key :=
  inr row.1.1 :: member_key row.
(** [ORDER BY h.created_at DESC]. *)
Definition newest_key (row : uuid * hub_row) : list sort_key := [inl (- h_created_at row.2)%Z].

Definition member_role (row : (uuid * uuid) * member_row * string) : MemberRole :=
  (mkUserId row.1.1.2, role_from_string row.2).

(** [by_hub[key(row)].push_back(f(row))] for the rows in order. *)
Definition group_by {A B} (key : A -> HubId) (f : A -> B) (rows : list A) : gmap HubId (list B) :=
  foldl (fun by_hub row => <[key row := default [] (by_hub !! key row) ++ [f row]]> by_hub) ∅ rows.

Section Repository.
Context `{PG : Postgres}.

(** ** Hubs and members *)

Definition createHub (hubName : string) (ownerUuid : UserId) : EX Pg Hub :=
  db_write "HubRepository.createHub"
    (owner <-- uuid_param (user_value ownerUuid);
     name <-- text_param hubName;
     row <-- insert_hub name owner;
     sql_ret (parse_hub_row row))%sql.

Definition addMember (hubId : HubId) (userUuid : UserId) (role : string) : EX Pg unit :=
  db_write "HubRepository.addMember"
    (hub <-- uuid_param (hub_value hubId);
     user <-- uuid_param (user_value userUuid);
     role_id <-- sql_gets (get_hub_role_id (normalize_db_role role));
     upsert_member hub user role_id)%sql.

Definition removeMember (hubId : HubId) (userUuid : UserId) : EX Pg unit :=
  db_write "HubRepository.removeMember"
    (hub <-- uuid_param (hub_value hubId);
     user <-- uuid_param (user_value userUuid);
     delete_member hub user)%sql.

Definition getUserHubs (userUuid : UserId) : EX Pg (list Hub) :=
  db_read "HubRepository.getUserHubs"
    (user <-- uuid_param (user_value userUuid);
     sql_gets (fun d =>
       let joined := join_roles d (select (fun '((_, u), _) => bool_decide (u = user)) (memberships d)) in
       let rows := omap (fun '((h, _), _, role) => (fun hub => ((h, hub), role)) <$> hubs d !! h) joined in
       (fun '(row, role) => setMemberRole userUuid (role_from_string role) (parse_hub_row row))
         <$> order_by (fun '(row, _) => newest_key row) rows))%sql.

Definition getHubsByIds (hubIds : list HubId) : EX Pg (list Hub) :=
  if bool_decide (hubIds = []) then ex_ret []
  else db_read "HubRepository.getHubsByIds"
    (ids <-- uuid_params (hub_value <$> hubIds);
     sql_gets (fun d => parse_hub_row <$> select (fun '(h, _) => bool_decide (h ∈ ids)) (hubs d)))%sql.

Definition getHub (hubId : HubId) : EX Pg (option Hub) :=
  db_read "HubRepository.getHub"
    (id <-- uuid_param (hub_value hubId);
     sql_gets (fun d => (fun h => parse_hub_row (id, h)) <$> hubs d !! id))%sql.

Definition getHubWithMembers (hubId : HubId) : EX Pg (option Hub) :=
  db_read "HubRepository.getHubWithMembers"
    (id <-- uuid_param (hub_value hubId);
     sql_gets (fun d =>
       h ← hubs d !! id;
       let rows := order_by member_key (select (fun '((h', _), _) => bool_decide (h' = id)) (memberships d)) in
       Some (foldl (fun hub row =>
                      (** a member without a role row would have the name ['member'] *)
                      let role := default "member"%string (r_name <$> hub_roles d !! hm_role_id row.2) in
                      setMemberRole (mkUserId row.1.2) (role_from_string role) hub)
               (parse_hub_row (id, h)) rows)))%sql.

Definition isHubMember (hubId : HubId) (userUuid : UserId) : EX Pg bool :=
  db_read "HubRepository.isHubMember"
    (hub <-- uuid_param (hub_value hubId);
     user <-- uuid_param (user_value userUuid);
     sql_gets (fun d => bool_decide (is_Some (memberships d !! (hub, user)))))%sql.

Definition getMembershipRole (hubId : HubId) (userUuid : UserId) : EX Pg (option Role) :=
  db_read "HubRepository.getMembershipRole"
    (hub <-- uuid_param (hub_value hubId);
     user <-- uuid_param (user_value userUuid);
     sql_gets (fun d =>
       m ← memberships d !! (hub, user);
       r ← hub_roles d !! hm_role_id m;
       Some (role_from_string (r_name r))))%sql.

(** The members of one hub, in the order they joined. *)
Definition members_in (hub : uuid) (d : Db) : list MemberRole :=
  member_role <$> join_roles d (order_by member_key
    (select (fun '((h, _), _) => bool_decide (h = hub)) (memberships d))).

Definition getHubMemberRoles (hubId : HubId) : EX Pg (list MemberRole) :=
  db_read "HubRepository.getHubMemberRoles"
    (hub <-- uuid_param (hub_value hubId); sql_gets (members_in hub))%sql.

Definition getHubMemberRolesByHubIds (hubIds : list HubId) : EX Pg (gmap HubId (list MemberRole)) :=
  if bool_decide (hubIds = []) then ex_ret ∅
  else db_read "HubRepository.getHubMemberRolesByHubIds"
    (ids <-- uuid_params (hub_value <$> hubIds);
     sql_gets (fun d =>
       group_by (fun row => mkHubId row.1.1.1) member_role
         (join_roles d (order_by hub_member_key
            (select (fun '((h, _), _) => bool_decide (h ∈ ids)) (memberships d))))))%sql.

Definition renameHub (hubId : HubId) (name : string) : EX Pg bool :=
  db_write "HubRepository.renameHub"
    (id <-- uuid_param (hub_value hubId);
     name <-- text_param name;
     update_hub id (fun h => mkHubRow name (h_avatar_seed h) (h_owner_id h) (h_created_by h)
                               (h_created_at h) (h_updated_at h)))%sql.

Definition updateHubAvatarSeed (hubId : HubId) (avatar_seed : string) : EX Pg bool :=
  db_write "HubRepository.updateHubAvatarSeed"
    (id <-- uuid_param (hub_value hubId);
     avatar_seed <-- text_param avatar_seed;
     update_hub id (fun h => mkHubRow (h_name h) avatar_seed (h_owner_id h) (h_created_by h)
                               (h_created_at h) (h_updated_at h)))%sql.

Definition deleteHub (hubId : HubId) (ownerUuid : UserId) : EX Pg bool :=
  db_write "HubRepository.deleteHub"
    (id <-- uuid_param (hub_value hubId);
     owner <-- uuid_param (user_value ownerUuid);
     delete_hub id owner)%sql.

(** ** Channels *)

Definition getChannel (channelId : ChannelId) : EX Pg (option Channel) :=
  db_read "HubRepository.getChannel"
    (id <-- uuid_param (channel_value channelId);
     sql_gets (fun d => (fun c => parse_channel_row (id, c)) <$> channels d !! id))%sql.

Definition getChannelsByIds (channelIds : list ChannelId) : EX Pg (list Channel) :=
  if bool_decide (channelIds = []) then ex_ret []
  else db_read "HubRepository.getChannelsByIds"
    (ids <-- uuid_params (channel_value <$> channelIds);
     sql_gets (fun d =>
       parse_channel_row <$> select (fun '(c, _) => bool_decide (c ∈ ids)) (channels d)))%sql.

(** The rows of one hub's channels, in order. *)
Definition channels_in (hub : uuid) (d : Db) : list (uuid * channel_row) :=
  order_by channel_key (select (fun '(_, c) => bool_decide (c_hub_id c = hub)) (channels d)).

(** ... and of several hubs' channels, hub by hub. *)
Definition channels_of_hubs (ids : list uuid) (d : Db) : list (uuid * channel_row) :=
  order_by hub_channel_key (select (fun '(_, c) => bool_decide (c_hub_id c ∈ ids)) (channels d)).

Definition getHubChannels (hubId : HubId) : EX Pg (list Channel) :=
  db_read "HubRepository.getHubChannels"
    (hub <-- uuid_param (hub_value hubId);
     sql_gets (fun d => parse_channel_row <$> channels_in hub d))%sql.

Definition getHubChannelsByHubIds (hubIds : list HubId) : EX Pg (gmap HubId (list Channel)) :=
  if bool_decide (hubIds = []) then ex_ret ∅
  else db_read "HubRepository.getHubChannelsByHubIds"
    (ids <-- uuid_params (hub_value <$> hubIds);
     sql_gets (fun d => group_by (fun row => ch_hub_id (parse_channel_row row)) parse_channel_row
                          (channels_of_hubs ids d)))%sql.

Definition getHubChannelIds (hubId : HubId) : EX Pg (list ChannelId) :=
  db_read "HubRepository.getHubChannelIds"
    (hub <-- uuid_param (hub_value hubId);
     sql_gets (fun d => (fun row => mkChannelId row.1) <$> channels_in hub d))%sql.

Definition getHubChannelIdsByHubIds (hubIds : list HubId) : EX Pg (gmap HubId (list ChannelId)) :=
  if bool_decide (hubIds = []) then ex_ret ∅
  else db_read "HubRepository.getHubChannelIdsByHubIds"
    (ids <-- uuid_params (hub_value <$> hubIds);
     sql_gets (fun d => group_by (fun row => mkHubId (c_hub_id row.2)) (fun row => mkChannelId row.1)
                          (channels_of_hubs ids d)))%sql.

Definition createChannel (hubId : HubId) (channelName type : string) (created_by : UserId)
  : EX Pg ChannelId :=
  db_write "HubRepository.createChannel"
    (hub <-- uuid_param (hub_value hubId);
     name <-- text_param channelName;
     type <-- text_param type;
     by_ <-- uuid_param (user_value created_by);
     id <-- insert_channel hub name type by_;
     sql_ret (mkChannelId id))%sql.

Definition renameChannel (channelId : ChannelId) (name : string) : EX Pg bool :=
  db_write "HubRepository.renameChannel"
    (id <-- uuid_param (channel_value channelId);
     name <-- text_param name;
     rename_channel id name)%sql.

Definition deleteChannel (channelId : ChannelId) (hubId : HubId) : EX Pg bool :=
  db_write "HubRepository.deleteChannel"
    (id <-- uuid_param (channel_value channelId);
     hub <-- uuid_param (hub_value hubId);
     delete_channel id hub)%sql.

End Repository.

End HubRepository.
