(* ===== verification/HubRefinement.v ===== *)
(** * The hub repository refines the service's contract

    [HubRepoLaws] is what the hub service's theorems assume of its repository.
    Here it is proved of the SQL: the tables of [HubCoherence.v] are read off
    the rows, and every method of [HubRepository.cpp] acts on them as its law
    says. *)

From S2P Require Import Prelude.
From S2P Require Import CStrings.
From S2P Require Import Ids.
From S2P Require Import Protocol.
From S2P Require Import HubService.
From S2P Require Import HubCoherence.
From S2P Require Import Sql.
From S2P Require Import Database.
From S2P Require Import HubTables.
From S2P Require Import HubInvariants.
From S2P Require Import HubRepository.

Module HubRefinement.
Import HubService HubCoherence Sql Database HubTables HubInvariants HubRepository.

#[local] Instance mkHubId_inj : Inj (=) (=) mkHubId.
Proof. by intros ?? [=]. Qed.
#[local] Instance mkChannelId_inj : Inj (=) (=) mkChannelId.
Proof. by intros ?? [=]. Qed.

(** ** The tables the rows determine *)

Definition channel_ids_in (hub : uuid) (d : Db) : list ChannelId :=
  (fun row => mkChannelId row.1) <$> channels_in hub d.

Definition db_tables (d : Db) : Tables := mkTables
  (kmap mkHubId (map_imap (fun id h => Some (parse_hub_row (id, h))) (hubs d)))
  (kmap mkChannelId (map_imap (fun id c => Some (parse_channel_row (id, c))) (channels d)))
  (kmap mkHubId (map_imap (fun id _ => Some (channel_ids_in id d)) (hubs d)))
  (kmap mkHubId (map_imap (fun id _ => Some (members_in id d)) (hubs d))).

Section Refinement.
Context `{PG : Postgres}.

Definition spelled (s : string) : uuid := default s (uuid_in s).
Definition norm_hub_id (h : HubId) : HubId := mkHubId (spelled (hub_value h)).
Definition norm_channel_id (c : ChannelId) : ChannelId := mkChannelId (spelled (channel_value c)).
Definition norm_user_id (u : UserId) : UserId := mkUserId (spelled (user_value u)).

Lemma spelled_in s u : uuid_in s = Some u -> spelled s = u.
Proof. unfold spelled. by intros ->. Qed.
Lemma spelled_canonical u : canonical u -> spelled u = u.
Proof. apply spelled_in. Qed.

(** *** Reading the tables *)

Lemma tb_hubs_lookup d h :
  tb_hubs (db_tables d) !! h = (fun r => parse_hub_row (hub_value h, r)) <$> hubs d !! hub_value h.
Proof.
  destruct h as [h]. simpl. rewrite lookup_kmap by apply _. rewrite map_lookup_imap.
  by destruct (hubs d !! h).
Qed.

Lemma tb_channels_lookup d c :
  tb_channels (db_tables d) !! c =
  (fun r => parse_channel_row (channel_value c, r)) <$> channels d !! channel_value c.
Proof.
  destruct c as [c]. simpl. rewrite lookup_kmap by apply _. rewrite map_lookup_imap.
  by destruct (channels d !! c).
Qed.

Definition in_hub (h : uuid) : (uuid * uuid) * member_row -> bool :=
  fun '((h', _), _) => bool_decide (h' = h).

Lemma elem_of_channels_in h d k c :
  (k, c) ∈ channels_in h d <-> channels d !! k = Some c /\ c_hub_id c = h.
Proof. unfold channels_in. by rewrite elem_of_order_by, elem_of_select, bool_decide_eq_true. Qed.

Lemma channels_in_gone h d : channel_rows_ok d -> hubs d !! h = None -> channels_in h d = [].
Proof.
  intros Hok Hh. apply elem_of_nil_inv. intros [k c] [Hk Heq]%elem_of_channels_in.
  destruct (co_row d Hok k c Hk) as (_ & [r Hr] & _). congruence.
Qed.

Lemma members_select_gone h d :
  members_ok d -> hubs d !! h = None -> select (in_hub h) (memberships d) = [].
Proof.
  intros Hok Hh. apply elem_of_nil_inv.
  intros [[k u] m] [Hk Heq%bool_decide_eq_true]%elem_of_select. subst k.
  destruct (mo_row d Hok h u m Hk) as (_ & _ & _ & r & Hr & _). congruence.
Qed.

Lemma order_of_db d h : hubs_ok d -> order_of (db_tables d) h = channel_ids_in (hub_value h) d.
Proof.
  intros Hok. destruct h as [h]. unfold order_of. simpl. rewrite lookup_kmap by apply _.
  rewrite map_lookup_imap. destruct (hubs d !! h) eqn:E; [done|]. simpl.
  unfold channel_ids_in. by rewrite channels_in_gone by (done || apply Hok).
Qed.

Lemma members_of_db d h : hubs_ok d -> members_of (db_tables d) h = members_in (hub_value h) d.
Proof.
  intros Hok. destruct h as [h]. unfold members_of. simpl. rewrite lookup_kmap by apply _.
  rewrite map_lookup_imap. destruct (hubs d !! h) eqn:E; [done|]. simpl.
  unfold members_in. fold (in_hub h). by rewrite (members_select_gone h d) by (done || apply Hok).
Qed.

(** The tables do not see the clock. *)
Lemma db_tables_now t d : db_tables (set_now t d) = db_tables d.
Proof. done. Qed.

(** They depend on four tables. *)
Lemma db_tables_frame d d' :
  hub_roles d' = hub_roles d -> hubs d' = hubs d -> memberships d' = memberships d ->
  channels d' = channels d -> db_tables d' = db_tables d.
Proof.
  intros Hr Hh Hm Hc. unfold db_tables, channel_ids_in, channels_in, members_in, join_roles.
  by rewrite Hr, Hh, Hm, Hc.
Qed.

#[local] Opaque db_tables.

(** *** When a hub's rows are the same *)

Lemma channel_keys_distinct h d :
  channel_rows_ok d ->
  distinct_keys channel_key (select (fun '(_, c) => bool_decide (c_hub_id c = h)) (channels d)).
Proof.
  intros Hok [k c] [k' c'] [Hk _]%elem_of_select [Hk' _]%elem_of_select [= _ Ht].
  assert (k = k') as <- by (by eapply (co_times d Hok)). congruence.
Qed.

Lemma member_keys_distinct h d :
  members_ok d -> distinct_keys member_key (select (in_hub h) (memberships d)).
Proof.
  intros Hok [[k u] m] [[k' u'] m'] [Hk Hh%bool_decide_eq_true]%elem_of_select
    [Hk' Hh'%bool_decide_eq_true]%elem_of_select [= Ht]. subst k k'.
  assert (u = u') as <- by (by eapply (mo_times d Hok)). congruence.
Qed.

(** Selecting the same rows from two tables. *)
Lemma select_same {K A} `{Countable K} (P : K * A -> bool) (t t' : gmap K A) :
  (forall k a, P (k, a) = true -> t' !! k = Some a <-> t !! k = Some a) ->
  select P t' ≡ₚ select P t.
Proof.
  intros Heq. apply NoDup_Permutation; [apply NoDup_select..|].
  intros [k a]. rewrite !elem_of_select. naive_solver.
Qed.

Lemma channels_in_same h d d' :
  channel_rows_ok d ->
  (forall k c, c_hub_id c = h -> channels d' !! k = Some c <-> channels d !! k = Some c) ->
  channels_in h d' = channels_in h d.
Proof.
  intros Hok Heq. apply order_by_proper; [by apply channel_keys_distinct|].
  apply select_same. intros k c Hb%bool_decide_eq_true. by apply Heq.
Qed.

Lemma members_in_same h d d' :
  members_ok d -> hub_roles d' = hub_roles d ->
  (forall u m, memberships d' !! (h, u) = Some m <-> memberships d !! (h, u) = Some m) ->
  members_in h d' = members_in h d.
Proof.
  intros Hok Hr Heq. unfold members_in, join_roles. rewrite Hr. do 2 f_equal.
  apply order_by_proper; [by apply member_keys_distinct|].
  apply select_same. intros [k u] m ->%bool_decide_eq_true. apply Heq.
Qed.

(** *** The roles of a hub *)

Lemma roles_of_lookup (l : list MemberRole) u r :
  NoDup l.*1 -> roles_of l !! u = Some r <-> (u, r) ∈ l.
Proof.
  unfold roles_of. intros Hnd.
  assert (forall m, (forall x, x ∈ l.*1 -> m !! x = None) ->
    foldl (fun (m : gmap UserId Role) (mr : MemberRole) => <[mr.1 := mr.2]> m) m l !! u = Some r <->
    (u, r) ∈ l \/ m !! u = Some r) as Hg.
  { induction l as [|[u0 r0] l IH]; intros m Hm; simpl in *; [set_solver|].
    apply list.NoDup_cons in Hnd as [Hni Hnd]. rewrite IH.
    - rewrite lookup_insert_Some, elem_of_cons. split.
      + intros [?|[[<- <-]|[? ?]]]; auto.
      + intros [[[= -> ->]|?]|Hu]; auto. right. right. split; [|done].
        intros ->. rewrite Hm in Hu; [done|by left].
    - done.
    - intros x Hx. rewrite lookup_insert_ne by (intros ->; done). apply Hm. by right. }
  rewrite Hg by (intros; apply lookup_empty). rewrite lookup_empty. naive_solver.
Qed.

Lemma elem_of_members_in h d u r :
  (mkUserId u, r) ∈ members_in h d <->
  exists m role, memberships d !! (h, u) = Some m /\ hub_roles d !! hm_role_id m = Some role /\
    r = role_from_string (r_name role).
Proof.
  unfold members_in, join_roles. rewrite list_elem_of_fmap. split.
  - intros ([[[h' u'] m] n] & [= -> ->] & Hin).
    apply list_elem_of_omap in Hin as ([k m'] & Hk & Hn).
    apply elem_of_order_by, elem_of_select in Hk as [Hk Hb].
    destruct k as [h2 u2]. apply bool_decide_eq_true in Hb as ->. simpl in Hn.
    apply fmap_Some in Hn as (role & Hrole & Heq). simplify_eq/=. eauto 6.
  - intros (m & role & Hm & Hrole & ->). exists (((h, u), m), r_name role). split; [done|].
    apply list_elem_of_omap. exists ((h, u), m). rewrite elem_of_order_by, elem_of_select. simpl.
    rewrite Hrole. split; [|done]. split; [done|]. by apply bool_decide_eq_true.
Qed.

Lemma NoDup_members_in h d : NoDup (members_in h d).*1.
Proof.
  unfold members_in, join_roles.
  assert (Hsub : forall l : list ((uuid * uuid) * member_row),
    (forall k m, (k, m) ∈ l -> k.1 = h) -> NoDup l.*1 ->
    NoDup ((member_role <$> omap (fun row => (fun r => (row, r_name r)) <$>
      hub_roles d !! hm_role_id row.2) l).*1)).
  { induction l as [|[[k u] m] l IH]; intros Hh Hnd; simpl; [constructor|].
    apply list.NoDup_cons in Hnd as [Hni Hnd].
    assert (NoDup ((member_role <$> omap (fun row => (fun r => (row, r_name r)) <$>
      hub_roles d !! hm_role_id row.2) l).*1)) as IH'.
    { apply IH; [|done]. intros k' m' Hk'. apply (Hh k' m'). by right. }
    destruct (hub_roles d !! hm_role_id m) as [role|]; simpl; [|done].
    constructor; [|done]. rewrite <- list_fmap_compose. intros Hin.
    apply list_elem_of_fmap in Hin as ([[[k' u'] m'] n] & [= ->] & Hin).
    apply list_elem_of_omap in Hin as ([[k2 u2] m2] & Hk2 & Hn2).
    apply fmap_Some in Hn2 as (role' & _ & Heq). simplify_eq/=.
    assert (k = h) as -> by (apply (Hh (k, u2) m); by left).
    match goal with H : ((?k', u2), ?m') ∈ l |- _ =>
      assert (k' = h) as -> by (apply (Hh (k', u2) m'); by right);
      apply Hni, list_elem_of_fmap; by exists ((h, u2), m') end. }
  apply Hsub.
  - intros k m [_ Hb]%elem_of_order_by%elem_of_select. destruct k. by apply bool_decide_eq_true in Hb.
  - rewrite order_by_perm. apply NoDup_select_keys.
Qed.

Lemma roles_in h d u r :
  roles_of (members_in h d) !! mkUserId u = Some r <->
  exists m role, memberships d !! (h, u) = Some m /\ hub_roles d !! hm_role_id m = Some role /\
    r = role_from_string (r_name role).
Proof. rewrite roles_of_lookup by apply NoDup_members_in. apply elem_of_members_in. Qed.

(** ** The writes, on the rows *)

Lemma hub_same d d' h :
  hubs d' !! hub_value h = hubs d !! hub_value h ->
  tb_hubs (db_tables d') !! h = tb_hubs (db_tables d) !! h.
Proof. intros Heq. by rewrite !tb_hubs_lookup, Heq. Qed.

Lemma order_same d d' h :
  hubs_ok d -> hubs_ok d' ->
  (forall k c, c_hub_id c = hub_value h -> channels d' !! k = Some c <-> channels d !! k = Some c) ->
  order_of (db_tables d') h = order_of (db_tables d) h.
Proof.
  intros Hd Hd' Heq. rewrite !order_of_db by done. unfold channel_ids_in.
  by rewrite (channels_in_same _ d d') by (done || apply Hd).
Qed.

Lemma members_same d d' h :
  hubs_ok d -> hubs_ok d' -> hub_roles d' = hub_roles d ->
  (forall u m, memberships d' !! (hub_value h, u) = Some m <->
               memberships d !! (hub_value h, u) = Some m) ->
  members_of (db_tables d') h = members_of (db_tables d) h.
Proof.
  intros Hd Hd' Hr Heq. rewrite !members_of_db by done.
  by rewrite (members_in_same _ d d') by (done || apply Hd).
Qed.

Lemma hub_value_ne h id : h <> mkHubId id -> hub_value h <> id.
Proof. destruct h as [h]. simpl. congruence. Qed.

Lemma channels_same d d' :
  channels d' = channels d -> tb_channels (db_tables d') = tb_channels (db_tables d).
Proof. intros Heq. apply map_eq. intros c. by rewrite !tb_channels_lookup, Heq. Qed.

Lemma create_hub_law n o owner d r d' :
  hubs_ok d -> hubs_ok d' -> uuid_in (user_value o) = Some owner ->
  insert_hub n owner d = inr (r, d') ->
  let hub := parse_hub_row r in
  let tb := db_tables d in let tb' := db_tables d' in
  hub = mkHub n (hub_id hub) (norm_user_id o) "Felix" {[norm_user_id o := OWNER]} /\
  tb_hubs tb !! hub_id hub = None /\ tb_hubs tb' !! hub_id hub = Some hub /\
  roles_of (members_of tb' (hub_id hub)) = {[norm_user_id o := OWNER]} /\
  order_of tb' (hub_id hub) = [] /\
  only_hub_changed (hub_id hub) tb tb' /\ tb_channels tb' = tb_channels tb.
Proof.
  destruct r as [id NEW]. intros Hok Hok' Ho Hins hub tb tb'.
  pose proof (insert_hub_inr _ _ _ _ _ _ Hins)
    as (us & row & Hus & HNEW & Hd' & Hjoin & Hfree & _ & _ & _ & _ & Hrole & _).
  assert (Hid : hub_id hub = mkHubId id) by (by subst hub).
  assert (Hnone : forall u m, memberships d !! (id, u) <> Some m).
  { intros u m Hm. destruct (mo_row d (hk_members d Hok) _ _ _ Hm) as (_&_&_&h&?&_). congruence. }
  rewrite Hid. subst tb tb'. split_and!.
  - subst hub NEW. unfold norm_user_id. by rewrite (spelled_in _ _ Ho).
  - rewrite tb_hubs_lookup. simpl. by rewrite Hfree.
  - rewrite tb_hubs_lookup. subst d'. simpl. by rewrite lookup_insert_eq.
  - rewrite members_of_db by done. apply map_eq. intros [u]. apply option_eq. intros r.
    rewrite roles_in. unfold norm_user_id. rewrite (spelled_in _ _ Ho). subst d'. simpl.
    apply get_hub_role_id_spec in Hrole as (role & Hrole & Hn); [|apply Hok].
    rewrite lookup_singleton_Some. setoid_rewrite lookup_insert_Some. split.
    + intros (m & role' & [[[= <-] <-]|[_ Hm]] & Hr & ->); [|by destruct (Hnone u m)].
      replace role' with role by congruence. by rewrite Hn.
    + intros [[= <-] <-]. exists row, role. rewrite Hn. auto.
  - rewrite order_of_db by done. unfold channel_ids_in. subst d'. simpl.
    replace (channels_in id _) with (channels_in id d) by done.
    by rewrite channels_in_gone by (done || apply Hok).
  - intros h Hne%hub_value_ne. split_and!; subst d'.
    + apply hub_same. simpl. by rewrite lookup_insert_ne.
    + by apply order_same.
    + apply members_same; [done..|]. intros u m. simpl. by rewrite lookup_insert_ne by congruence.
  - apply channels_same. by subst d'.
Qed.

Lemma add_member_law h u r hub user d x d' :
  hubs_ok d -> hubs_ok d' ->
  uuid_in (hub_value h) = Some hub -> uuid_in (user_value u) = Some user ->
  upsert_member hub user (get_hub_role_id (normalize_db_role (role_to_string r)) d) d = inr (x, d') ->
  let tb := db_tables d in let tb' := db_tables d' in
  only_hub_changed (norm_hub_id h) tb tb' /\ tb_channels tb' = tb_channels tb /\
  tb_hubs tb' !! norm_hub_id h = tb_hubs tb !! norm_hub_id h /\
  order_of tb' (norm_hub_id h) = order_of tb (norm_hub_id h) /\
  roles_of (members_of tb' (norm_hub_id h)) =
    <[norm_user_id u := r]> (roles_of (members_of tb (norm_hub_id h))).
Proof.
  intros Hok Hok' Hh Hu Hup tb tb'.
  pose proof (upsert_member_inr _ _ _ _ _ _ Hup) as (row & Hrole & Hd' & _).
  unfold norm_hub_id, norm_user_id. rewrite (spelled_in _ _ Hh), (spelled_in _ _ Hu).
  subst tb tb'. split_and!.
  - intros h' Hne%hub_value_ne. split_and!; subst d'.
    + by apply hub_same.
    + by apply order_same.
    + apply members_same; [done..|]. intros u' m. simpl. by rewrite lookup_insert_ne by congruence.
  - apply channels_same. by subst d'.
  - apply hub_same. by subst d'.
  - apply order_same; [done..|]. by subst d'.
  - rewrite !members_of_db by done. apply map_eq. intros [u']. apply option_eq. intros r'.
    rewrite lookup_insert_Some, !roles_in. subst d'. simpl. setoid_rewrite lookup_insert_Some.
    apply get_hub_role_id_spec in Hrole as (role & Hrole & Hn); [|apply Hok].
    assert (Hr : role_from_string (r_name role) = r) by (rewrite Hn; by destruct r).
    split.
    + intros (m & role' & [[[= <-] <-]|[Hne Hm]] & Hr' & ->).
      * left. split; [done|]. congruence.
      * right. split; [congruence|]. eauto.
    + intros [[[= <-] <-]|[Hne (m & role' & Hm & Hr' & ->)]].
      * exists row, role. auto.
      * exists m, role'. split_and!; [|done..]. right. split; [congruence|done].
Qed.

Lemma remove_member_law h u hub user d x d' :
  hubs_ok d -> hubs_ok d' ->
  uuid_in (hub_value h) = Some hub -> uuid_in (user_value u) = Some user ->
  delete_member hub user d = inr (x, d') ->
  let tb := db_tables d in let tb' := db_tables d' in
  only_hub_changed (norm_hub_id h) tb tb' /\ tb_channels tb' = tb_channels tb /\
  tb_hubs tb' !! norm_hub_id h = tb_hubs tb !! norm_hub_id h /\
  order_of tb' (norm_hub_id h) = order_of tb (norm_hub_id h) /\
  roles_of (members_of tb' (norm_hub_id h)) =
    delete (norm_user_id u) (roles_of (members_of tb (norm_hub_id h))).
Proof.
  intros Hok Hok' Hh Hu Hdel tb tb'. injection Hdel as _ Hd'.
  unfold norm_hub_id, norm_user_id. rewrite (spelled_in _ _ Hh), (spelled_in _ _ Hu).
  subst tb tb'. split_and!.
  - intros h' Hne%hub_value_ne. split_and!; subst d'.
    + by apply hub_same.
    + by apply order_same.
    + apply members_same; [done..|]. intros u' m. simpl. by rewrite lookup_delete_ne by congruence.
  - apply channels_same. by subst d'.
  - apply hub_same. by subst d'.
  - apply order_same; [done..|]. by subst d'.
  - rewrite !members_of_db by done. apply map_eq. intros [u']. apply option_eq. intros r'.
    rewrite lookup_delete_Some, !roles_in. subst d'. simpl. setoid_rewrite lookup_delete_Some.
    split.
    + intros (m & role & [Hne Hm] & Hr & ->). split; [congruence|]. eauto.
    + intros [Hne (m & role & Hm & Hr & ->)]. exists m, role. split_and!; [congruence|done..].
Qed.

Lemma channels_in_snoc hub id NEW d d' :
  channel_rows_ok d' -> channels d' = <[id := NEW]> (channels d) -> channels d !! id = None ->
  c_hub_id NEW = hub -> c_position NEW = 0%Z ->
  (forall k c, channels d !! k = Some c -> c_position c = 0%Z /\ (c_created_at c <= c_created_at NEW)%Z) ->
  channels_in hub d' = channels_in hub d ++ [(id, NEW)].
Proof.
  intros Hok Hd' Hfree Hh Hpos Hpast. unfold channels_in.
  pose proof (channel_keys_distinct hub d' Hok) as Hdist. rewrite Hd' in Hdist |- *.
  assert (Hp : select (fun '(_, c) => bool_decide (c_hub_id c = hub)) (<[id := NEW]> (channels d)) ≡ₚ
    (id, NEW) :: select (fun '(_, c) => bool_decide (c_hub_id c = hub)) (channels d)).
  { rewrite select_insert_fresh by done. by rewrite bool_decide_true. }
  rewrite <- (order_by_proper _ _ _ Hdist (symmetry Hp)). apply order_by_snoc.
  - intros x y Hx Hy. rewrite <- Hp in Hx, Hy. by apply Hdist.
  - intros [k c] [Hk _]%elem_of_select. destruct (Hpast k c Hk) as [Hc Ht].
    unfold channel_key. simpl. rewrite Hc, Hpos. split; [done|]. intros _. by split.
Qed.

Lemma create_channel_law h n ty hub by_ d id d' :
  hubs_ok d -> clock_ahead d -> hubs_ok d' -> uuid_in (hub_value h) = Some hub ->
  insert_channel hub n ty by_ d = inr (id, d') ->
  let tb := db_tables d in let tb' := db_tables d' in let c := mkChannelId id in
  tb_channels tb !! c = None /\
  tb_channels tb' =
    <[c := mkChannel n c (norm_hub_id h) (channel_type_from_storage ty)]> (tb_channels tb) /\
  only_hub_changed (norm_hub_id h) tb tb' /\
  tb_hubs tb' !! norm_hub_id h = tb_hubs tb !! norm_hub_id h /\
  members_of tb' (norm_hub_id h) = members_of tb (norm_hub_id h) /\
  order_of tb' (norm_hub_id h) = order_of tb (norm_hub_id h) ++ [c].
Proof.
  intros Hok [Hclock _] Hok' Hh Hins tb tb' c.
  pose proof (insert_channel_inr _ _ _ _ _ _ _ Hins)
    as (us & NEW & Hus & HNEW & Hd' & Hfree & _ & _ & _ & _ & _).
  unfold norm_hub_id. rewrite (spelled_in _ _ Hh). subst tb tb' c. split_and!.
  - rewrite tb_channels_lookup. simpl. by rewrite Hfree.
  - apply map_eq. intros [k]. rewrite tb_channels_lookup. subst d'. simpl.
    destruct (decide (k = id)) as [->|Hne].
    + rewrite !lookup_insert_eq. by subst NEW.
    + rewrite !lookup_insert_ne by congruence. by rewrite tb_channels_lookup.
  - intros h' Hne%hub_value_ne. split_and!; subst d'.
    + by apply hub_same.
    + apply order_same; [done..|]. intros k c Hc. simpl. rewrite lookup_insert_Some.
      split; [|intros Hk; right; split; [congruence|done]].
      intros [[<- <-]|[_ Hk]]; [|done]. subst NEW. by destruct Hne.
    + by apply members_same.
  - apply hub_same. by subst d'.
  - apply members_same; [done..|by subst d'|by subst d'].
  - rewrite !order_of_db by done. unfold channel_ids_in. simpl.
    rewrite (channels_in_snoc hub id NEW d d').
    + by rewrite fmap_app.
    + apply Hok'.
    + by subst d'.
    + done.
    + by subst NEW.
    + by subst NEW.
    + intros k c Hk. destruct (co_row d (hk_channels d Hok) k c Hk) as (_&_&_&_&Hp&_).
      split; [done|]. subst NEW. simpl. specialize (Hclock k c Hk). lia.
Qed.

Lemma rename_channel_law c n id d b d' :
  hubs_ok d -> hubs_ok d' -> uuid_in (channel_value c) = Some id ->
  rename_channel id n d = inr (b, d') ->
  let tb := db_tables d in let tb' := db_tables d' in
  b = bool_decide (is_Some (tb_channels tb !! norm_channel_id c)) /\ same_hubs tb tb' /\
  tb_channels tb' = if b
    then alter (fun ch => mkChannel n (ch_id ch) (ch_hub_id ch) (ch_type ch)) (norm_channel_id c)
           (tb_channels tb)
    else tb_channels tb.
Proof.
  intros Hok Hok' Hc Hren tb tb'. apply rename_channel_inr in Hren.
  unfold norm_channel_id. rewrite (spelled_in _ _ Hc). subst tb tb'.
  rewrite tb_channels_lookup. simpl.
  destruct b; [|by destruct Hren as [-> ->]]. destruct Hren as (OLD & NEW & HOLD & HNEW & Hd' & _ & _).
  split; [by rewrite HOLD, bool_decide_true by (by eexists)|]. split.
  - intros h. split_and!.
    + apply hub_same. by subst d'.
    + rewrite !order_of_db by done. unfold channel_ids_in, channels_in.
      set (f := fun r : uuid * channel_row => if decide (r.1 = id) then (id, NEW) else r).
      pose proof (channel_keys_distinct (hub_value h) d' (hk_channels d' Hok')) as Hdist'.
      pose proof (channel_keys_distinct (hub_value h) d (hk_channels d Hok)) as Hdist.
      assert (Hp : f <$> select (fun '(_, c) => bool_decide (c_hub_id c = hub_value h)) (channels d)
        ≡ₚ select (fun '(_, c) => bool_decide (c_hub_id c = hub_value h)) (channels d')).
      { subst d'. symmetry. apply (select_insert_same _ _ _ _ OLD); [done|]. by subst NEW. }
      rewrite <- (order_by_proper _ _ _ Hdist' Hp), (order_by_fmap f channel_key channel_key); [|..|done].
      * rewrite <- list_fmap_compose. apply list_fmap_ext. intros i [k c'] _. unfold f. simpl.
        by case_decide; subst.
      * intros [k c'] [Hk _]%elem_of_select. unfold f. simpl. case_decide; [|done]. subst k.
        replace c' with OLD by congruence. by subst NEW.
    + apply members_same; [done..|by subst d'|by subst d'].
  - apply map_eq. intros [k]. subst d'. destruct (decide (k = id)) as [->|Hne].
    + rewrite lookup_alter_eq, !tb_channels_lookup. simpl. rewrite lookup_insert_eq, HOLD. simpl.
      by subst NEW.
    + rewrite lookup_alter_ne by congruence. rewrite !tb_channels_lookup. simpl.
      by rewrite lookup_insert_ne.
Qed.

Lemma delete_channel_law c h id hub d b d' :
  hubs_ok d -> hubs_ok d' -> uuid_in (channel_value c) = Some id -> uuid_in (hub_value h) = Some hub ->
  delete_channel id hub d = inr (b, d') ->
  let tb := db_tables d in let tb' := db_tables d' in
  b = bool_decide (ch_hub_id <$> tb_channels tb !! norm_channel_id c = Some (norm_hub_id h)) /\
  if b
  then tb_channels tb' = delete (norm_channel_id c) (tb_channels tb) /\
    only_hub_changed (norm_hub_id h) tb tb' /\
    tb_hubs tb' !! norm_hub_id h = tb_hubs tb !! norm_hub_id h /\
    members_of tb' (norm_hub_id h) = members_of tb (norm_hub_id h) /\
    order_of tb' (norm_hub_id h) =
      filter (fun c' => c' <> norm_channel_id c) (order_of tb (norm_hub_id h))
  else same_hubs tb tb' /\ tb_channels tb' = tb_channels tb.
Proof.
  intros Hok Hok' Hc Hh Hdel tb tb'. apply delete_channel_inr in Hdel.
  unfold norm_channel_id, norm_hub_id. rewrite (spelled_in _ _ Hc), (spelled_in _ _ Hh). subst tb tb'.
  rewrite tb_channels_lookup. simpl.
  destruct b; [|destruct Hdel as [-> Hno]; split; [symmetry; apply bool_decide_eq_false|done];
    intros (ch & (row & Hrow & ->)%fmap_Some & [= Hrh])%fmap_Some; by apply (Hno row)].
  destruct Hdel as [(row & Hrow & Hrh) Hd'].
  split; [rewrite Hrow; simpl; rewrite Hrh; by rewrite bool_decide_true|].
  assert (Hchan : forall k, channels d' !! k = if decide (k = id) then None else channels d !! k).
  { intros k. subst d'. unfold delete_channels. simpl. apply option_eq. intros x.
    rewrite map_lookup_filter_Some. case_decide as Hk.
    - subst k. split; [|done]. intros [_ Hb]. by rewrite bool_decide_true in Hb.
    - rewrite bool_decide_eq_false. naive_solver. }
  split_and!.
  - apply map_eq. intros [k]. destruct (decide (k = id)) as [->|Hne].
    + rewrite lookup_delete_eq, tb_channels_lookup. simpl. by rewrite Hchan, decide_True.
    + rewrite lookup_delete_ne, !tb_channels_lookup by congruence. simpl.
      by rewrite Hchan, decide_False.
  - intros h' Hne%hub_value_ne. split_and!.
    + apply hub_same. by subst d'.
    + apply order_same; [done..|]. intros k c' Hc'. rewrite Hchan. case_decide; [|done]. subst k.
      split; [done|]. congruence.
    + apply members_same; [done..|by subst d'|by subst d'].
  - apply hub_same. by subst d'.
  - apply members_same; [done..|by subst d'|by subst d'].
  - rewrite !order_of_db by done. unfold channel_ids_in, channels_in. simpl.
    assert (Hp : filter (fun r : uuid * channel_row => r.1 <> id)
        (select (fun '(_, c) => bool_decide (c_hub_id c = hub)) (channels d))
      ≡ₚ select (fun '(_, c) => bool_decide (c_hub_id c = hub)) (channels d')).
    { apply NoDup_Permutation; [apply list.NoDup_filter, NoDup_select|apply NoDup_select|].
      intros [k c']. rewrite list_elem_of_filter, !elem_of_select, Hchan. simpl.
      case_decide; naive_solver. }
    rewrite <- (order_by_proper _ _ _ (channel_keys_distinct hub d' (hk_channels d' Hok')) Hp).
    rewrite order_by_filter by apply (channel_keys_distinct hub d), Hok.
    symmetry. apply filter_fmap_iff. intros [k c']. simpl. naive_solver.
Qed.

Lemma update_hub_law h f g id d b d' :
  (forall r t, parse_hub_row (id, mkHubRow (h_name (f r)) (h_avatar_seed (f r)) (h_owner_id (f r))
     (h_created_by (f r)) (h_created_at (f r)) t) = g (parse_hub_row (id, r))) ->
  hubs_ok d -> hubs_ok d' -> uuid_in (hub_value h) = Some id -> update_hub id f d = inr (b, d') ->
  let tb := db_tables d in let tb' := db_tables d' in
  b = bool_decide (is_Some (tb_hubs tb !! norm_hub_id h)) /\
  tb_hubs tb' = alter g (norm_hub_id h) (tb_hubs tb) /\ tb_channels tb' = tb_channels tb /\
  forall h', order_of tb' h' = order_of tb h' /\ members_of tb' h' = members_of tb h'.
Proof.
  intros Hf Hok Hok' Hh Hup tb tb'. apply update_hub_inr in Hup.
  unfold norm_hub_id. rewrite (spelled_in _ _ Hh). subst tb tb'.
  rewrite tb_hubs_lookup. simpl. destruct b.
  2:{ destruct Hup as [-> Hno]. rewrite Hno. split_and!; try done. symmetry. apply alter_id'.
      rewrite tb_hubs_lookup. simpl. by rewrite Hno. }
  destruct Hup as (OLD & NEW & HOLD & HNEW & Hd' & _). split_and!.
  - by rewrite HOLD, bool_decide_true by (by eexists).
  - apply map_eq. intros [k]. subst d'. destruct (decide (k = id)) as [->|Hne].
    + rewrite lookup_alter_eq, !tb_hubs_lookup. simpl. rewrite lookup_insert_eq, HOLD. simpl.
      subst NEW. f_equal. apply Hf.
    + rewrite lookup_alter_ne by congruence. rewrite !tb_hubs_lookup. simpl. by rewrite lookup_insert_ne.
  - apply channels_same. by subst d'.
  - intros h'. split; [apply order_same; [done..|by subst d']|].
    apply members_same; [done..|by subst d'|by subst d'].
Qed.

Lemma delete_hub_law h o id owner d b d' :
  hubs_ok d -> hubs_ok d' -> uuid_in (hub_value h) = Some id -> uuid_in (user_value o) = Some owner ->
  delete_hub id owner d = inr (b, d') ->
  let tb := db_tables d in let tb' := db_tables d' in
  b = bool_decide (hub_owner <$> tb_hubs tb !! norm_hub_id h = Some (norm_user_id o)) /\
  if b
  then tb_hubs tb' = delete (norm_hub_id h) (tb_hubs tb) /\
    tb_channels tb' = filter (fun c => ch_hub_id c.2 <> norm_hub_id h) (tb_channels tb) /\
    order_of tb' (norm_hub_id h) = [] /\ members_of tb' (norm_hub_id h) = [] /\
    only_hub_changed (norm_hub_id h) tb tb'
  else tb' = tb.
Proof.
  intros Hok Hok' Hh Ho Hdel tb tb'. apply delete_hub_inr in Hdel.
  unfold norm_hub_id, norm_user_id. rewrite (spelled_in _ _ Hh), (spelled_in _ _ Ho). subst tb tb'.
  rewrite tb_hubs_lookup. simpl. destruct b.
  2:{ destruct Hdel as [-> Hno]. split; [|done]. symmetry. apply bool_decide_eq_false.
      intros (hub & (row & Hrow & ->)%fmap_Some & [= Heq])%fmap_Some. by apply (Hno row). }
  destruct Hdel as [(row & Hrow & Hown) Hd']. split; [rewrite Hrow; simpl; by rewrite Hown, bool_decide_true|].
  assert (Hchan : forall k c, channels d' !! k = Some c <-> channels d !! k = Some c /\ c_hub_id c <> id).
  { intros k c. subst d'. simpl. by rewrite map_lookup_filter_Some, bool_decide_eq_false. }
  assert (Hgone : hubs d' !! id = None) by (subst d'; simpl; by rewrite lookup_delete_eq).
  split_and!.
  - apply map_eq. intros [k]. subst d'. destruct (decide (k = id)) as [->|Hne].
    + rewrite lookup_delete_eq, tb_hubs_lookup. simpl. by rewrite lookup_delete_eq.
    + rewrite lookup_delete_ne, !tb_hubs_lookup by congruence. simpl. by rewrite lookup_delete_ne.
  - apply map_eq. intros [k]. apply option_eq. intros ch.
    rewrite map_lookup_filter_Some, !tb_channels_lookup, !fmap_Some. simpl. setoid_rewrite Hchan. split.
    + intros (c & [Hc Hne] & ->). split; [eauto|]. simpl. congruence.
    + intros [(c & Hc & ->) Hne]. exists c. split_and!; try done. simpl in Hne. congruence.
  - rewrite order_of_db by done. unfold channel_ids_in. simpl.
    by rewrite channels_in_gone by (done || apply Hok').
  - rewrite members_of_db by done. unfold members_in. simpl. fold (in_hub id).
    by rewrite members_select_gone by (done || apply Hok').
  - intros h' Hne%hub_value_ne. split_and!.
    + apply hub_same. subst d'. simpl. by rewrite lookup_delete_ne.
    + apply order_same; [done..|]. intros k c Hc. rewrite Hchan. naive_solver.
    + apply members_same; [done|done|by subst d'|]. intros u m. subst d'. simpl.
      rewrite map_lookup_filter_Some. naive_solver.
Qed.

End Refinement.

End HubRefinement.
