(* ===== verification/MessageRepository.v ===== *)
(** * The message repository

    [infra/persistence/sql/005_messages.sql] and
    [repositories/MessageRepository.cpp]: the per-channel sequence numbers, the
    triggers and constraints on messages and their attachments, and the methods
    that store and page through them. *)

From S2P Require Import Prelude.
From S2P Require Import CStrings.
From S2P Require Import Ids.
From S2P Require Import Protocol.
From S2P Require Import External.
From S2P Require Import ServerEvents.
From S2P Require Import Sql.
From S2P Require Import Database.
Import Domain.

Module MessageRepository.
Import Sql Database.

(** ** Statements *)

(** Trigger [trg_messages_assign_seq], with the upsert of the counter: the
    number it held, or 1 for a channel without a counter. *)
Definition assign_channel_message_seq (channel_id : uuid) : SQL Z :=
  (table <-- sql_gets counters;
   let next_seq := match table !! channel_id with Some n => (n + 1)%Z | None => 2%Z end in
   ensure (next_seq <? 2 ^ 63)%Z numeric_value_out_of_range;;;
   ensure (1 <=? next_seq)%Z (check_violation "channel_message_counters_next_seq_check");;;
   sql_modify (set_counters (<[channel_id := next_seq]> table));;;
   references channels (Some channel_id) "channel_message_counters_channel_id_fkey";;;
   sql_ret (next_seq - 1)%Z)%sql.

(** [SELECT p.deleted_at ...; IF NOT FOUND ...; IF v_deleted_at IS NOT NULL ...]. *)
Definition ensure_active_profile (u : uuid) (missing deleted : string) : SQL unit :=
  (table <-- sql_gets profiles;
   match table !! u with
   | None => sql_raise (raise_exception missing)
   | Some p => ensure (bool_decide (p_deleted_at p = None)) (raise_exception deleted)
   end)%sql.

(** Trigger [trg_messages_sender_active]. *)
Definition ensure_message_sender_active (sender_id : option uuid) : SQL unit :=
  match sender_id with
  | None => sql_raise (raise_exception "Message sender is required")
  | Some u => ensure_active_profile u "Message sender profile does not exist"
                "Deleted users cannot create messages"
  end.

(** Trigger [trg_messages_text_channel]. *)
Definition ensure_message_text_channel (channel_id : uuid) : SQL unit :=
  (table <-- sql_gets channels;
   match table !! channel_id with
   | None => sql_raise (raise_exception "Channel does not exist")
   | Some c => ensure (bool_decide (c_type c = "text"%string))
       (raise_exception "Messages can only be created in text channels")
   end)%sql.

(** The constraints of [messages], by name. *)
Definition check_messages (NEW : message_row) : SQL unit :=
  (ensure (length_at_most 4000 (ms_content NEW)) (check_violation "messages_content_length");;;
   ensure (null_or is_object (ms_link_preview NEW)) (check_violation "messages_link_preview_object");;;
   ensure (1 <=? ms_seq NEW)%Z (check_violation "messages_message_seq_check"))%sql.

(** The constraint [messages_channel_seq_unique]. *)
Definition seq_free (NEW : message_row) (d : Db) : bool :=
  bool_decide (select (fun '(_, m) => bool_decide (ms_channel_id m = ms_channel_id NEW) &&
    bool_decide (ms_seq m = ms_seq NEW)) (messages d) = []).

(** [INSERT INTO messages (id, channel_id, sender_id, content, link_preview_json)]. *)
Definition insert_message (id channel_id sender_id : uuid) (content : string) (preview : option json)
  : SQL (uuid * message_row) :=
  (t <-- now;
   seq <-- assign_channel_message_seq channel_id;
   let NEW := mkMessageRow channel_id (Some sender_id) seq content preview t in
   ensure_message_sender_active (ms_sender_id NEW);;;
   ensure_message_text_channel channel_id;;;
   check_messages NEW;;;
   table <-- sql_gets messages;
   ensure (bool_decide (table !! id = None)) (unique_violation "messages_pkey");;;
   free <-- sql_gets (seq_free NEW);
   ensure free (unique_violation "messages_channel_seq_unique");;;
   sql_modify (set_messages (<[id := NEW]> table));;;
   references channels (Some channel_id) "messages_channel_id_fkey";;;
   references profiles (Some sender_id) "messages_sender_id_fkey";;;
   sql_ret (id, NEW))%sql.

(** Trigger [trg_message_attachments_uploader_active]. *)
Definition ensure_attachment_uploader_active (uploaded_by : option uuid) : SQL unit :=
  match uploaded_by with
  | None => sql_raise (raise_exception "Attachment uploader is required")
  | Some u => ensure_active_profile u "Attachment uploader profile does not exist"
                "Deleted users cannot upload attachments"
  end.

(** The constraints of [message_attachments], by name. *)
Definition check_attachments (NEW : attachment_row) : SQL unit :=
  (ensure (length_between 1 80 (ma_bucket NEW)) (check_violation "message_attachments_bucket_length");;;
   ensure (length_between 1 255 (ma_file_name NEW))
     (check_violation "message_attachments_file_name_length");;;
   ensure (null_or (length_at_most 120) (ma_mime NEW))
     (check_violation "message_attachments_mime_type_length");;;
   ensure ((0 <=? ma_size NEW) && (ma_size NEW <=? 15728640))%Z
     (check_violation "message_attachments_size_check");;;
   ensure (length_between 1 1024 (ma_key NEW))
     (check_violation "message_attachments_storage_key_length"))%sql.

Definition storage_key_free (NEW : attachment_row) (d : Db) : bool :=
  bool_decide (select (fun '(_, a) => bool_decide (ma_key a = ma_key NEW)) (attachments d) = []).

(** [INSERT INTO message_attachments (...) VALUES (...)]. *)
Definition insert_attachment (NEW' : attachment_row) : SQL (uuid * attachment_row) :=
  (id <-- gen_random_uuid;
   t <-- now;
   let NEW := mkAttachmentRow (ma_message_id NEW') (ma_uploaded_by NEW') (ma_bucket NEW')
                (ma_key NEW') (ma_file_name NEW') (ma_mime NEW') (ma_size NEW') t in
   ensure_attachment_uploader_active (ma_uploaded_by NEW);;;
   check_attachments NEW;;;
   table <-- sql_gets attachments;
   ensure (bool_decide (table !! id = None)) (unique_violation "message_attachments_pkey");;;
   free <-- sql_gets (storage_key_free NEW);
   ensure free (unique_violation "message_attachments_storage_key_key");;;
   sql_modify (set_attachments (<[id := NEW]> table));;;
   references messages (Some (ma_message_id NEW)) "message_attachments_message_id_fkey";;;
   references profiles (ma_uploaded_by NEW) "message_attachments_uploaded_by_fkey";;;
   sql_ret (id, NEW))%sql.

(** ** Attachments and previews as JSON *)

Definition attachment_kind_from_json (value : json) : MessageAttachmentKind :=
  match value with
  | JUnsigned n | JInteger n => if (int32_of_uint32 n =? 1)%Z then IMAGE else FILE
  | JString s => if bool_decide (s = "image"%string) then IMAGE else FILE
  | _ => FILE
  end.

(** [mime_type.rfind("image/", 0) == 0], and [LIKE 'image/%']. *)
Definition attachment_kind_from_mime_type (mime_type : string) : MessageAttachmentKind :=
  if String.prefix "image/" mime_type then IMAGE else FILE.

(** [item.value(k, uint64_t{0})]: [None] when it throws. *)
Definition value_uint64 (j : json) (k : string) : option Z :=
  match j with
  | JObject m =>
    match m !! k with
    | None => Some 0%Z
    | Some (JUnsigned n) | Some (JInteger n) | Some (JFloat n) => Some (wrap64 n)
    | Some (JBool b) => Some (if b then 1 else 0)%Z
    | Some _ => None
    end
  | _ => None
  end.

Definition attachment_of_json (item : json) : option MessageAttachment :=
  id ← value_string item "id" "";
  storage_bucket ← value_string item "storage_bucket" "";
  storage_key ← value_string item "storage_key" "";
  mime_type ← value_string item "mime_type" "";
  display_name ← value_string item "display_name" "";
  size_bytes ← value_uint64 item "size_bytes";
  Some (mkAttachment id (attachment_kind_from_json (default JNull (field item "kind")))
          storage_bucket storage_key mime_type display_name size_bytes).

(** The loop over the array; [None]: a field of another type throws. *)
Fixpoint attachments_of_items (parsed : list json) : option (list MessageAttachment) :=
  match parsed with
  | [] => Some []
  | item :: rest =>
    if negb (is_object item) then attachments_of_items rest
    else next ← attachment_of_json item;
         out ← attachments_of_items rest;
         Some (if bool_decide (ma_id next = ""%string) || bool_decide (ma_storage_key next = ""%string)
               then out else next :: out)
  end.

Section Repository.
Context `{PG : Postgres} `{JL : JsonLib}.

Definition from_json_attachments (raw_json : string) : option (list MessageAttachment) :=
  match json_parse raw_json with
  | Some (JArray parsed) => attachments_of_items parsed
  | _ => Some []
  end.

Definition to_json_link_preview (lp : MessageLinkPreview) : json :=
  JObject (list_to_map [("url", JString (ml_url lp)); ("title", JString (ml_title lp));
    ("description", JString (ml_description lp)); ("site_name", JString (ml_site_name lp));
    ("image_url", JString (ml_image_url lp))]%string).

(** [None]: throws. *)
Definition from_json_link_preview (raw_json : string) : option (option MessageLinkPreview) :=
  match json_parse raw_json with
  | Some (JObject m) =>
    let parsed := JObject m in
    url ← value_string parsed "url" "";
    title ← value_string parsed "title" "";
    description ← value_string parsed "description" "";
    site_name ← value_string parsed "site_name" "";
    image_url ← value_string parsed "image_url" "";
    Some (if bool_decide (url = ""%string) then None
          else Some (mkPreview url title description site_name image_url))
  | _ => Some None
  end.

(** ** Rows *)

(** [jsonb_build_object(...)] of [message_from_clause()]. *)
Definition attachment_json (row : uuid * attachment_row) : json :=
  let '(id, a) := row in
  let mime := default ""%string (ma_mime a) in
  JObject (list_to_map [("id", JString id);
    ("kind", JString (if String.prefix "image/" mime then "image" else "file"));
    ("storage_bucket", JString (ma_bucket a)); ("storage_key", JString (ma_key a));
    ("mime_type", JString mime); ("display_name", JString (ma_file_name a));
    ("size_bytes", if (0 <=? ma_size a)%Z then JUnsigned (ma_size a) else JInteger (ma_size a))]%string).

(** [ORDER BY ma.created_at ASC, ma.id ASC]. *)
Definition attachment_key (row : uuid * attachment_row) : list sort_key :=
  [inl (ma_created_at row.2); inr row.1].

(** [COALESCE(a.attachments_json, '[]')]: the lateral join aggregates the
    message's attachments. *)
Definition attachments_json (id : uuid) (d : Db) : json :=
  JArray (attachment_json <$> order_by attachment_key
    (select (fun '(_, a) => bool_decide (ma_message_id a = id)) (attachments d))).

(** One row of the result: the message and its attachments as text. *)
Definition row_to_message (row : uuid * message_row * string) : SQL Message :=
  let '(id, m, attachments_text) := row in
  match from_json_attachments attachments_text,
        match ms_link_preview m with
        | None => Some None
        | Some j => from_json_link_preview (jsonb_out j)
        end with
  | Some attachments, Some link_preview =>
    sql_ret (mkMessage (mkMessageId id) (mkChannelId (ms_channel_id m))
      (mkUserId (default ""%string (ms_sender_id m))) Chat (ms_content m) attachments link_preview
      PENDING (wrap64 (ms_seq m)) (wrap64 (ms_created_at m)))
  | _, _ => sql_raise (runtime_error "type must be string")
  end.

(** [static_cast<long long>] of a [uint64_t]. *)
Definition long_long (n : Z) : Z :=
  if (wrap64 n <? 2 ^ 63)%Z then wrap64 n else (wrap64 n - two64)%Z.

Definition insert_attachments (message_id : MessageId) (uploaded_by : UserId)
  (attachments : list MessageAttachment) : SQL (list MessageAttachment) :=
  sql_map (fun a =>
    (ensure (negb (bool_decide (ma_storage_bucket a = ""%string)))
       (runtime_error "Attachment storage_bucket is required");;;
     ensure (negb (bool_decide (ma_storage_key a = ""%string)))
       (runtime_error "Attachment storage_key is required");;;
     let file_name := if bool_decide (ma_display_name a = ""%string) then ma_storage_key a
                      else ma_display_name a in
     let mime_type := if bool_decide (ma_mime_type a = ""%string) then None else Some (ma_mime_type a) in
     message <-- uuid_param (message_value message_id);
     user <-- uuid_param (user_value uploaded_by);
     bucket <-- text_param (ma_storage_bucket a);
     key <-- text_param (ma_storage_key a);
     file_name <-- text_param file_name;
     mime_type <-- nullable text_param mime_type;
     row <-- insert_attachment (mkAttachmentRow message (Some user) bucket key file_name mime_type
               (long_long (ma_size_bytes a)) 0);
     let '(id, r) := row in
     let mime := default ""%string (ma_mime r) in
     sql_ret (mkAttachment id (attachment_kind_from_mime_type mime) (ma_bucket r) (ma_key r) mime
                (ma_file_name r) (wrap64 (ma_size r))))%sql) attachments.

(** [$n::jsonb] of the preview, or null. *)
Definition preview_param (link_preview : option MessageLinkPreview) : SQL (option json) :=
  nullable (fun lp => jsonb_param (json_dump (to_json_link_preview lp))) link_preview.

(** ** Methods *)

(** The work of [sendMessage]'s transaction. *)
Definition send_statement (channelId : ChannelId) (senderUuid : UserId) (content : string)
  (attachments : list MessageAttachment) (link_preview : option MessageLinkPreview) : SQL Message :=
  (channel <-- uuid_param (channel_value channelId);
   sender <-- uuid_param (user_value senderUuid);
   content <-- text_param content;
   preview <-- preview_param link_preview;
   id <-- gen_random_uuid;
   row <-- insert_message id channel sender content preview;
   msg <-- row_to_message (row, "[]"%string);
   inserted <-- insert_attachments (m_id msg) senderUuid attachments;
   sql_ret (mkMessage (m_id msg) (m_ch_id msg) (m_sender_id msg) (m_type msg) (m_text msg) inserted
              (m_link_preview msg) (m_status msg) (m_seq msg) (m_created_at_unix_us msg)))%sql.

Definition sendMessage (channelId : ChannelId) (senderUuid : UserId) (content : string)
  (attachments : list MessageAttachment) (link_preview : option MessageLinkPreview) : EX Pg Message :=
  db_write "MessageRepository.sendMessage"
    (send_statement channelId senderUuid content attachments link_preview).

(** The work of [insertMessage]'s transaction. *)
Definition insert_statement (msg : Message) : SQL bool :=
  (id <-- uuid_param (message_value (m_id msg));
   channel <-- uuid_param (channel_value (m_ch_id msg));
   sender <-- uuid_param (user_value (m_sender_id msg));
   content <-- text_param (m_text msg);
   preview <-- preview_param (m_link_preview msg);
   insert_message id channel sender content preview;;;
   insert_attachments (m_id msg) (m_sender_id msg) (m_attachments msg);;;
   sql_ret true)%sql.

Definition insertMessage (msg : Message) : EX Pg bool :=
  db_write "MessageRepository.insertMessage" (insert_statement msg).

Definition cursor_seq (cursor : MessageCursor) : Z := long_long (mc_seq cursor).

(** [SELECT ... WHERE m.channel_id = $1 AND P ORDER BY m.message_seq ASC/DESC LIMIT n]. *)
Definition ascending (row : uuid * message_row) : list sort_key := [inl (ms_seq row.2)].
Definition descending (row : uuid * message_row) : list sort_key := [inl (- ms_seq row.2)%Z].

Definition message_rows (channel : uuid) (P : Z -> bool) (key : uuid * message_row -> list sort_key)
  (limit : Z) : SQL (list (uuid * message_row)) :=
  (ensure (0 <=? limit)%Z invalid_row_count_in_limit;;;
   sql_gets (fun d => take (Z.to_nat limit) (order_by key
     (select (fun '(_, m) => bool_decide (ms_channel_id m = channel) && P (ms_seq m)) (messages d)))))%sql.

Definition select_messages (channelId : ChannelId) (P : Z -> bool)
  (key : uuid * message_row -> list sort_key) (limit : Z) : SQL (list Message) :=
  (channel <-- uuid_param (channel_value channelId);
   rows <-- message_rows channel P key limit;
   sql_map (fun row => text <-- sql_gets (fun d => jsonb_out (attachments_json row.1 d));
                       row_to_message (row, text)) rows)%sql.

Definition fetchMessages (channelId : ChannelId) (limit : Z) : EX Pg (list Message) :=
  db_read "MessageRepository.fetchMessages"
    (select_messages channelId (fun _ => true) descending limit).

Definition fetchMessagesAfter (channelId : ChannelId) (after : MessageCursor) (limit : Z)
  : EX Pg (list Message) :=
  db_read "MessageRepository.fetchMessagesAfter"
    (select_messages channelId (fun seq => (cursor_seq after <? seq)%Z) ascending limit).

Definition fetchMessagesBefore (channelId : ChannelId) (before : MessageCursor) (limit : Z)
  : EX Pg (list Message) :=
  db_read "MessageRepository.fetchMessagesBefore"
    (select_messages channelId (fun seq => (seq <? cursor_seq before)%Z) descending limit).

Definition fetchMessagesPage (channelId : ChannelId) (after before : option MessageCursor) (limit : Z)
  : EX Pg (list Message) :=
  db_read "MessageRepository.fetchMessagesPage"
    match after, before with
    | Some a, Some b => select_messages channelId
        (fun seq => (cursor_seq a <? seq)%Z && (seq <? cursor_seq b)%Z) ascending limit
    | Some a, None => select_messages channelId (fun seq => (cursor_seq a <? seq)%Z) ascending limit
    | None, Some b => select_messages channelId (fun seq => (seq <? cursor_seq b)%Z) descending limit
    | None, None => select_messages channelId (fun _ => true) descending limit
    end.

End Repository.

End MessageRepository.
