(* ===== verification/MessageInvariants.v ===== *)
(** * What the schema guarantees of messages

    The messages of a channel are numbered 1, 2, ... without gaps, in the order
    they were stored, and every attachment belongs to a message.  Every
    statement keeps this, deletions of channels and hubs included. *)

From S2P Require Import Prelude.
From S2P Require Import CStrings.
From S2P Require Import Ids.
From S2P Require Import Protocol.
From S2P Require Import External.
From S2P Require Import ServerEvents.
From S2P Require Import Sql.
From S2P Require Import HubTables.
From S2P Require Import MessageRepository.

Module MessageInvariants.
Import Sql HubTables MessageRepository.

(** The next number of a channel. *)
Definition next_seq (c : uuid) (d : Db) : Z := default 1%Z (counters d !! c).

Record messages_ok (d : Db) : Prop := mk_messages_ok {
  mk_counter : forall c n, counters d !! c = Some n ->
    is_Some (channels d !! c) /\ (1 <= n < 2 ^ 63)%Z;
  mk_message : forall id m, messages d !! id = Some m ->
    (exists ch, channels d !! ms_channel_id m = Some ch /\ c_type ch = "text"%string) /\
    (1 <= ms_seq m < next_seq (ms_channel_id m) d)%Z;
  mk_seq : forall id id' m m', messages d !! id = Some m -> messages d !! id' = Some m' ->
    ms_channel_id m = ms_channel_id m' -> ms_seq m = ms_seq m' -> id = id';
  mk_gapless : forall c s, (1 <= s < next_seq c d)%Z ->
    exists id m, messages d !! id = Some m /\ ms_channel_id m = c /\ ms_seq m = s;
  mk_attachment : forall id a, attachments d !! id = Some a ->
    is_Some (messages d !! ma_message_id a);
  mk_storage_key : forall id id' a a', attachments d !! id = Some a -> attachments d !! id' = Some a' ->
    ma_key a = ma_key a' -> id = id'
}.

(** It depends on the tables of the messages, and that their channels stay. *)
Lemma messages_frame d d' :
  (forall k ch, channels d !! k = Some ch ->
     exists ch', channels d' !! k = Some ch' /\ c_type ch' = c_type ch) ->
  counters d' = counters d -> messages d' = messages d -> attachments d' = attachments d ->
  messages_ok d -> messages_ok d'.
Proof.
  intros Hch Hn Hm Ha [H1 H2 H3 H4 H5 H6].
  constructor; unfold next_seq; rewrite ?Hn, ?Hm, ?Ha; try done.
  - intros c n Hc. destruct (H1 c n Hc) as [[ch Hch'] ?]. split; [|done].
    destruct (Hch c ch Hch') as (ch' & ? & _). by exists ch'.
  - intros id m Hid. destruct (H2 id m Hid) as [(ch & Hch' & Hty) Hs]. split; [|done].
    destruct (Hch _ _ Hch') as (ch' & ? & ?). exists ch'. split; congruence.
Qed.

(** ** Statements *)

Section Statements.
Context `{PG : Postgres}.

Lemma ensure_active_profile_inr u a b d x d' :
  ensure_active_profile u a b d = inr (x, d') -> d' = d.
Proof.
  unfold ensure_active_profile. intros H. sql_inv. destruct (profiles d !! u); by sql_inv.
Qed.

Lemma ensure_message_text_channel_inr c d x d' :
  ensure_message_text_channel c d = inr (x, d') ->
  d' = d /\ exists ch, channels d !! c = Some ch /\ c_type ch = "text"%string.
Proof.
  unfold ensure_message_text_channel. intros H. sql_inv.
  destruct (channels d !! c) as [ch|] eqn:E; sql_inv. apply bool_decide_eq_true in H. eauto.
Qed.

(** A message that is stored has the next number of its channel. *)
Lemma insert_message_inr id c u text pv d r d' :
  insert_message id c u text pv d = inr (r, d') ->
  let NEW := mkMessageRow c (Some u) (next_seq c d) text pv (now_ d) in
  r = (id, NEW) /\ messages d !! id = None /\
  d' = set_messages (<[id := NEW]> (messages d)) (set_counters (<[c := (next_seq c d + 1)%Z]> (counters d)) d) /\
  (1 <= next_seq c d /\ next_seq c d + 1 < 2 ^ 63)%Z /\
  exists ch, channels d !! c = Some ch /\ c_type ch = "text"%string.
Proof.
  unfold insert_message, assign_channel_message_seq, check_messages. intros H. sql_inv.
  match goal with H : ensure_message_sender_active _ _ = _ |- _ =>
    apply ensure_active_profile_inr in H as -> end.
  match goal with H : ensure_message_text_channel _ _ = _ |- _ =>
    apply ensure_message_text_channel_inr in H as [-> Hch] end.
  sql_inv.
  assert (Hn : match counters d !! c with Some n => (n + 1)%Z | None => 2%Z end = (next_seq c d + 1)%Z).
  { unfold next_seq. by destruct (counters d !! c). }
  rewrite Hn in *. rewrite Z.add_simpl_r in *.
  repeat match goal with
    | H : bool_decide _ = true |- _ => apply bool_decide_eq_true in H
    | H : (_ <? _)%Z = true |- _ => apply Z.ltb_lt in H
    | H : (_ <=? _)%Z = true |- _ => apply Z.leb_le in H
    end.
  simpl in *. by split_and!.
Qed.

Lemma insert_message_ok id c u text pv d r d' :
  messages_ok d -> insert_message id c u text pv d = inr (r, d') -> messages_ok d'.
Proof.
  intros [H1 H2 H3 H4 H5 H6] (_ & Hfree & -> & Hn & ch & Hch & Hty)%insert_message_inr.
  set (n := next_seq c d) in *.
  assert (Hnext : forall c', default 1%Z (<[c := (n + 1)%Z]> (counters d) !! c') =
    if decide (c' = c) then (n + 1)%Z else next_seq c' d).
  { intros c'. case_decide; subst; [by rewrite lookup_insert_eq|].
    by rewrite lookup_insert_ne. }
  constructor; simpl.
  - intros c' n'. rewrite lookup_insert_Some. intros [[<- <-]|[_ Hc']]; [|eauto].
    split; [by eexists|lia].
  - intros k m. rewrite lookup_insert_Some. unfold next_seq. simpl. rewrite Hnext.
    intros [[<- <-]|[_ Hk]].
    + simpl. rewrite decide_True by done. split; [eauto|lia].
    + destruct (H2 k m Hk) as [Hex Hs]. split; [done|]. case_decide as Hc; [|done].
      rewrite Hc in Hs. subst n. lia.
  - assert (Hnew : forall k m, messages d !! k = Some m -> ms_channel_id m = c -> ms_seq m <> n).
    { intros k m Hk Hc. destruct (H2 k m Hk) as [_ Hs]. rewrite Hc in Hs. subst n. lia. }
    intros k k' m m'. rewrite !lookup_insert_Some.
    intros [[<- <-]|[_ Hk]] [[<- <-]|[_ Hk']] Hc Hs; simpl in *; eauto.
    + by destruct (Hnew k' m').
    + by destruct (Hnew k m).
  - intros c' s. unfold next_seq at 1. simpl. rewrite Hnext. intros Hs.
    assert (Hold : (1 <= s < next_seq c' d)%Z -> exists k m,
      <[id := mkMessageRow c (Some u) n text pv (now_ d)]> (messages d) !! k = Some m /\
      ms_channel_id m = c' /\ ms_seq m = s).
    { intros Hs'. destruct (H4 c' s Hs') as (k & m & Hk & ?). exists k, m.
      rewrite lookup_insert_ne by congruence. auto. }
    case_decide as Hc; [|by apply Hold]. subst c'.
    destruct (decide (s = n)) as [->|Hne]; [|apply Hold; subst n; lia].
    eexists id, _. rewrite lookup_insert_eq. auto.
  - intros k a Hk. destruct (H5 k a Hk) as [m Hm]. exists m. by rewrite lookup_insert_ne by congruence.
  - done.
Qed.

Lemma storage_key_free_spec NEW d :
  storage_key_free NEW d = true <->
  forall k a, attachments d !! k = Some a -> ma_key a <> ma_key NEW.
Proof.
  unfold storage_key_free. rewrite bool_decide_eq_true. split.
  - intros Hnil k a Hk Hs. apply (not_elem_of_nil (k, a)). rewrite <- Hnil. apply elem_of_select.
    split; [done|]. by rewrite bool_decide_true.
  - intros Hall. apply elem_of_nil_inv. intros [k a] [Hk Hb%bool_decide_eq_true]%elem_of_select.
    by eapply Hall.
Qed.

(** The stored attachment has the time of the transaction. *)
Definition stamped (t : timestamptz) (a : attachment_row) : attachment_row :=
  mkAttachmentRow (ma_message_id a) (ma_uploaded_by a) (ma_bucket a) (ma_key a) (ma_file_name a)
    (ma_mime a) (ma_size a) t.

Lemma insert_attachment_inr NEW d r d' :
  insert_attachment NEW d = inr (r, d') ->
  exists id us, draws d = id :: us /\ r = (id, stamped (now_ d) NEW) /\
    attachments d !! id = None /\ storage_key_free NEW d = true /\
    is_Some (messages d !! ma_message_id NEW) /\
    d' = set_attachments (<[id := stamped (now_ d) NEW]> (attachments d)) (set_draws us d) /\
    (0 <= ma_size NEW <= 15728640)%Z /\ length_between 1 1024 (ma_key NEW) = true.
Proof.
  unfold insert_attachment, check_attachments, ensure_attachment_uploader_active. intros H. sql_inv.
  cbn [ma_uploaded_by] in *. destruct (ma_uploaded_by NEW) eqn:Eu; [|by sql_inv].
  match goal with H : ensure_active_profile _ _ _ _ = _ |- _ =>
    apply ensure_active_profile_inr in H as -> end.
  sql_inv.
  repeat match goal with
    | H : bool_decide _ = true |- _ => apply bool_decide_eq_true in H
    | H : (_ && _) = true |- _ => apply andb_prop in H as [?%Z.leb_le ?%Z.leb_le]
    end.
  simpl in *. unfold stamped. rewrite Eu. eexists _, _. split_and!; [done|done|done|..]; eauto.
Qed.

Lemma insert_attachment_ok NEW d r d' :
  messages_ok d -> insert_attachment NEW d = inr (r, d') -> messages_ok d'.
Proof.
  intros [H1 H2 H3 H4 H5 H6]
    (id & us & _ & _ & Hfree & Hkey & Hmsg & -> & _)%insert_attachment_inr.
  pose proof (proj1 (storage_key_free_spec NEW d) Hkey) as Hkeys.
  constructor; try done; simpl.
  - intros k a. rewrite lookup_insert_Some. intros [[<- <-]|[_ Hk]]; eauto.
  - intros k k' a a'. rewrite !lookup_insert_Some.
    intros [[<- <-]|[_ Hk]] [[<- <-]|[_ Hk']] Heq; eauto; simpl in *.
    + by destruct (Hkeys k' a').
    + by destruct (Hkeys k a).
Qed.

Lemma insert_attachments_counters mid u ats d out d' :
  insert_attachments mid u ats d = inr (out, d') -> counters d' = counters d.
Proof.
  assert (PreOrder (fun d d' => counters d = counters d')).
  { split; [done|]. intros x y z. congruence. }
  intros H0. symmetry. revert H0. apply (sql_map_rel (fun d d' => counters d = counters d')).
  - clear. intros a d y d' H. sql_inv. cbv zeta in H. sql_inv.
    match goal with H : nullable _ _ _ = _ |- _ => apply nullable_inr in H as [-> ->] end.
    match goal with r : uuid * attachment_row |- _ => destruct r as [k r'] end. sql_inv.
    match goal with H : insert_attachment _ _ = _ |- _ =>
      by apply insert_attachment_inr in H as (id & us & _ & _ & _ & _ & _ & -> & _) end.
Qed.

End Statements.

(** ** Deletions *)

Lemma delete_channels_messages_ok gone d : messages_ok d -> messages_ok (delete_channels gone d).
Proof.
  intros [H1 H2 H3 H4 H5 H6]. unfold delete_channels, delete_messages.
  set (left := filter (fun r => gone r = false) (channels d)).
  assert (Hnext : forall c, is_Some (left !! c) ->
    default 1%Z (filter (fun '(c, _) => is_Some (left !! c)) (counters d) !! c) = next_seq c d).
  { intros c Hc. unfold next_seq. f_equal. apply option_eq. intros n.
    rewrite map_lookup_filter_Some. naive_solver. }
  assert (Hmsg : forall k m, filter (fun '(_, m) => bool_decide (left !! ms_channel_id m = None) = false)
      (messages d) !! k = Some m <-> messages d !! k = Some m /\ is_Some (left !! ms_channel_id m)).
  { intros k m. rewrite map_lookup_filter_Some, bool_decide_eq_false, <- not_eq_None_Some. done. }
  constructor; unfold next_seq; simpl.
  - intros c n [Hc Hl]%map_lookup_filter_Some. split; [done|]. by destruct (H1 c n Hc).
  - intros k m [Hk Hl]%Hmsg. rewrite Hnext by done. destruct (H2 k m Hk) as [(ch & Hch & Hty) Hs].
    split; [|done]. destruct Hl as [ch' Hl]. exists ch'. split; [done|].
    apply map_lookup_filter_Some in Hl as [Hl _]. congruence.
  - intros k k' m m' [Hk _]%Hmsg [Hk' _]%Hmsg. eauto.
  - intros c s Hs. destruct (left !! c) eqn:E.
    + rewrite Hnext in Hs by (by rewrite E). destruct (H4 c s Hs) as (k & m & Hk & <- & <-).
      exists k, m. rewrite Hmsg, E. naive_solver.
    + exfalso. destruct (filter _ (counters d) !! c) eqn:E'; simpl in Hs; [|lia].
      apply map_lookup_filter_Some in E' as [_ [? ?]]. congruence.
  - intros k a [Hk Hl]%map_lookup_filter_Some. done.
  - intros k k' a a' [Hk _]%map_lookup_filter_Some [Hk' _]%map_lookup_filter_Some. eauto.
Qed.

Lemma delete_hub_rows_messages_ok id d : messages_ok d -> messages_ok (delete_hub_rows id d).
Proof.
  intros Hok. apply delete_channels_messages_ok. apply (messages_frame d); eauto.
Qed.

End MessageInvariants.
