(* ===== verification/UserRepository.v ===== *)
(** * The user repository

    [infra/persistence/sql/001_profiles.sql] and
    [repositories/UserRepository.cpp]: the constraints on profiles and the
    methods that read and update them.  Profiles that carry a [deleted_at] are
    invisible to all of them. *)

From S2P Require Import Prelude.
From S2P Require Import CStrings.
From S2P Require Import Ids.
From S2P Require Import ServerEvents.
From S2P Require Import UserService.
From S2P Require Import Sql.
From S2P Require Import Database.
From Stdlib Require Import Ascii.

Module UserRepository.
Import Sql Database.

(** ** The table *)

(** [a-z], [0-9], [_]; in the middle also [.] and [-]. *)
Definition name_char (c : ascii) : bool :=
  ((97 <=? code c) && (code c <=? 122) || (48 <=? code c) && (code c <=? 57) || (code c =? 95))%Z.
Definition name_inner (c : ascii) : bool := name_char c || (code c =? 46)%Z || (code c =? 45)%Z.

Fixpoint name_tail (s : string) : bool :=
  match s with
  | EmptyString => false
  | String c EmptyString => name_char c
  | String c s' => name_inner c && name_tail s'
  end.

(** [user_name ~ '^[a-z0-9_][a-z0-9_.-]*[a-z0-9_]$']. *)
Definition user_name_format (s : string) : bool :=
  match s with String c s' => name_char c && name_tail s' | EmptyString => false end.

Section Repository.
Context `{PG : Postgres}.

(** The constraints of [profiles], by name. *)
Definition profile_avatar_ok (p : profile_row) : bool := length_at_most 128 (p_avatar_seed p).
Definition profile_display_ok (p : profile_row) : bool := length_between 1 40 (p_display_name p).
Definition profile_format_ok (p : profile_row) : bool :=
  bool_decide (p_user_name p = lower (p_user_name p)) && user_name_format (p_user_name p).
Definition profile_length_ok (p : profile_row) : bool :=
  length_between 3 (if p_deleted_at p then 64 else 32) (p_user_name p).

Definition check_profiles (NEW : profile_row) : SQL unit :=
  (ensure (profile_avatar_ok NEW) (check_violation "profiles_avatar_seed_length");;;
   ensure (profile_display_ok NEW) (check_violation "profiles_display_name_length");;;
   ensure (profile_format_ok NEW) (check_violation "profiles_user_name_format");;;
   ensure (profile_length_ok NEW) (check_violation "profiles_user_name_length"))%sql.

(** The index [idx_profiles_user_name_unique]. *)
Definition user_name_free (id : uuid) (NEW : profile_row) (d : Db) : bool :=
  bool_decide (select (fun '(k, p) => bool_decide (k <> id) &&
    bool_decide (lower (p_user_name p) = lower (p_user_name NEW))) (profiles d) = []).

(** Store the row of [id], after the checks. *)
Definition put_profile (id : uuid) (NEW : profile_row) : SQL unit :=
  (check_profiles NEW;;;
   free <-- sql_gets (user_name_free id NEW);
   ensure free (unique_violation "idx_profiles_user_name_unique");;;
   sql_modify (fun d => set_profiles (<[id := NEW]> (profiles d)) d))%sql.

(** [UPDATE profiles SET updated_at = now(), ... WHERE user_id = $1 AND deleted_at IS
    NULL RETURNING ...], with the columns that are given. *)
Definition update_profile (id : uuid) (user_name display_name avatar_seed : option string)
  : SQL (option profile_row) :=
  (table <-- sql_gets profiles;
   t <-- now;
   match table !! id with
   | Some OLD =>
     if bool_decide (p_deleted_at OLD = None)
     then let NEW := mkProfile (default (p_user_name OLD) user_name)
                       (default (p_display_name OLD) display_name)
                       (default (p_avatar_seed OLD) avatar_seed)
                       (p_last_seen_at OLD) None (p_created_at OLD) t in
          put_profile id NEW;;; sql_ret (Some NEW)
     else sql_ret None
   | None => sql_ret None
   end)%sql.

(** ** Methods *)

Definition parse_user_row (row : uuid * profile_row) : User :=
  let '(id, p) := row in
  mkUser (mkUserId id) (p_user_name p) (p_display_name p) (p_avatar_seed p) default_prefs.

(** [WHERE p.user_id = $1::uuid AND p.deleted_at IS NULL]. *)
Definition active_profile (id : uuid) (d : Db) : option profile_row :=
  p ← profiles d !! id; if p_deleted_at p then None else Some p.

Definition getUserDisplayName (userUuid : UserId) : EX Pg (option string) :=
  db_read "UserRepository.getUserDisplayName"
    (id <-- uuid_param (user_value userUuid);
     sql_gets (fun d =>
       p ← active_profile id d;
       if bool_decide (p_display_name p = ""%string) then None else Some (p_display_name p)))%sql.

Definition getUser (userUuid : UserId) : EX Pg (option User) :=
  db_read "UserRepository.getUser"
    (id <-- uuid_param (user_value userUuid);
     sql_gets (fun d => (fun p => parse_user_row (id, p)) <$> active_profile id d))%sql.

Definition getUsersByIds (userIds : list UserId) : EX Pg (list User) :=
  if bool_decide (userIds = []) then ex_ret []
  else db_read "UserRepository.getUsersByIds"
    (ids <-- uuid_params (user_value <$> userIds);
     sql_gets (fun d => parse_user_row <$>
       select (fun '(u, p) => bool_decide (u ∈ ids) && bool_decide (p_deleted_at p = None))
         (profiles d)))%sql.

(** An exception thrown outside of a transaction. *)
Definition throw {A} (what : string) : EX Pg A :=
  fun p => (None, mkPg (contents p) (turns p) (SqlError (runtime_error what) "")).

(** The work of the write transaction. *)
Definition update_user_row (userUuid : UserId) (user_name display_name avatar_seed : option string)
  : SQL User :=
  (id <-- uuid_param (user_value userUuid);
   user_name <-- nullable text_param user_name;
   display_name <-- nullable text_param display_name;
   avatar_seed <-- nullable text_param avatar_seed;
   row <-- update_profile id user_name display_name avatar_seed;
   match row with
   | None => sql_raise (runtime_error "Active user profile not found")
   | Some p => sql_ret (parse_user_row (id, p))
   end)%sql.

Definition updateUserProfile (userUuid : UserId) (user_name display_name avatar_seed : option string)
  : EX Pg User :=
  match user_name, display_name, avatar_seed with
  | None, None, None =>
    (current <-- getUser userUuid;
     match current with
     | None => throw "Active user profile not found"
     | Some current => ex_ret current
     end)%ex
  | _, _, _ =>
    db_write "UserRepository.updateUserProfile"
      (update_user_row userUuid user_name display_name avatar_seed)
  end.

(** ** What the schema guarantees of profiles *)

Record profiles_ok (d : Db) : Prop := mk_profiles_ok {
  pk_row : forall id p, profiles d !! id = Some p ->
    profile_avatar_ok p = true /\ profile_display_ok p = true /\ profile_format_ok p = true /\
    profile_length_ok p = true;
  pk_names : forall id id' p p', profiles d !! id = Some p -> profiles d !! id' = Some p' ->
    lower (p_user_name p) = lower (p_user_name p') -> id = id'
}.

Lemma user_name_free_spec id NEW d :
  user_name_free id NEW d = true <->
  forall k p, profiles d !! k = Some p -> lower (p_user_name p) = lower (p_user_name NEW) -> k = id.
Proof.
  unfold user_name_free. rewrite bool_decide_eq_true. split.
  - intros Hnil k p Hk Hn. destruct (decide (k = id)) as [|Hne]; [done|].
    exfalso. apply (not_elem_of_nil (k, p)). rewrite <- Hnil. apply elem_of_select.
    split; [done|]. by rewrite !bool_decide_true.
  - intros Hall. apply elem_of_nil_inv. intros [k p] [Hk Hb]%elem_of_select.
    apply andb_prop in Hb as [Hne%bool_decide_eq_true Hn%bool_decide_eq_true]. eauto.
Qed.

Lemma put_profile_inr id NEW d x d' :
  put_profile id NEW d = inr (x, d') ->
  d' = set_profiles (<[id := NEW]> (profiles d)) d /\ user_name_free id NEW d = true /\
  profile_avatar_ok NEW = true /\ profile_display_ok NEW = true /\ profile_format_ok NEW = true /\
  profile_length_ok NEW = true.
Proof. unfold put_profile, check_profiles. intros H. sql_inv. by split_and!. Qed.

Lemma put_profile_ok id NEW d x d' :
  profiles_ok d -> put_profile id NEW d = inr (x, d') -> profiles_ok d'.
Proof.
  intros [Hrow Hn] (-> & Hfree & Hc)%put_profile_inr.
  pose proof (proj1 (user_name_free_spec id NEW d) Hfree) as Hu. constructor; simpl.
  - intros k p. rewrite lookup_insert_Some. intros [[<- <-]|[_ Hk]]; eauto.
  - intros k k' p p'. rewrite !lookup_insert_Some.
    intros [[<- <-]|[_ Hk]] [[<- <-]|[_ Hk']] Heq; eauto. symmetry. eauto.
Qed.

Lemma update_profile_inr id n dn a d r d' :
  update_profile id n dn a d = inr (r, d') ->
  match r with
  | None => d' = d /\ active_profile id d = None
  | Some NEW => exists OLD, profiles d !! id = Some OLD /\ p_deleted_at OLD = None /\
      NEW = mkProfile (default (p_user_name OLD) n) (default (p_display_name OLD) dn)
              (default (p_avatar_seed OLD) a) (p_last_seen_at OLD) None (p_created_at OLD) (now_ d) /\
      put_profile id NEW d = inr (tt, d')
  end.
Proof.
  unfold update_profile, active_profile. intros H. sql_inv.
  destruct (profiles d !! id) as [OLD|] eqn:E; [|by sql_inv].
  case_bool_decide as Hb.
  - destruct r as [NEW|]; sql_inv; [|done].
    match goal with H : Some _ = Some _ |- _ => injection H as -> end.
    exists OLD. split_and!; [done..|]. by match goal with u : unit |- _ => destruct u end.
  - sql_inv. split; [done|]. simpl. by destruct (p_deleted_at OLD).
Qed.

Lemma update_profile_ok id n dn a d r d' :
  profiles_ok d -> update_profile id n dn a d = inr (r, d') -> profiles_ok d'.
Proof.
  intros Hok Hu%update_profile_inr. destruct r as [NEW|]; [|by destruct Hu as [-> _]].
  destruct Hu as (OLD & _ & _ & _ & Hp). by eapply put_profile_ok.
Qed.

End Repository.

End UserRepository.
