(* ===== verification/Store.v ===== *)
(** * The database behind the services

    The invariant of the whole schema is kept by every method of the
    repositories, whatever happens to their connections as long as the caller
    learns the outcome of its commits.  The states that satisfy it are the
    database [Store] on which the services run. *)

From S2P Require Import Prelude.
From S2P Require Import CStrings.
From S2P Require Import Ids.
From S2P Require Import Protocol.
From S2P Require Import Transactions.
From S2P Require Import External.
From S2P Require Import HubService.
From S2P Require Import HubCoherence.
From S2P Require Import ServerEvents.
From S2P Require Import Messages.
From S2P Require Import UserService.
From S2P Require Import Sql.
From S2P Require Import Database.
From S2P Require Import HubTables.
From S2P Require Import HubInvariants.
From S2P Require Import HubRepository.
From S2P Require Import HubRefinement.
From S2P Require Import MessageRepository.
From S2P Require Import MessageInvariants.
From S2P Require Import UserRepository.

Module Store.
Import Sql Database HubTables HubInvariants HubRepository HubRefinement MessageRepository
  MessageInvariants UserRepository.

Section Store.
Context `{PG : Postgres} `{JL : JsonLib}.
(** The uuids in play: those of the users and hubs, and those still to be drawn. *)
Variable ids : gset uuid.

Record ids_ok (d : Db) : Prop := mk_ids_ok {
  ik_hubs : dom (hubs d) ⊆ ids;
  ik_profiles : dom (profiles d) ⊆ ids;
  ik_draws : forall u, u ∈ draws d -> u ∈ ids
}.

Record db_ok (d : Db) : Prop := mk_db_ok {
  dk_hubs : hubs_ok d;
  dk_messages : messages_ok d;
  dk_profiles : profiles_ok d;
  dk_ids : ids_ok d
}.

Definition pg_ok (p : Pg) : Prop := db_ok (contents p) /\ settled_turns p.

(** ** Statements that keep it *)

Definition keeps {A} (fn : SQL A) : Prop :=
  forall d a d', db_ok d -> clock_ahead d -> fn d = inr (a, d') -> db_ok d'.
Definition read_only {A} (fn : SQL A) : Prop := forall d a d', fn d = inr (a, d') -> d' = d.

Lemma read_only_keeps {A} (fn : SQL A) : read_only fn -> keeps fn.
Proof. intros Hr d a d' Hok _ Hfn. by rewrite (Hr _ _ _ Hfn). Qed.

Lemma start_db_ok t d : db_ok d -> db_ok (start t d) /\ clock_ahead (start t d).
Proof.
  intros [Hh Hm Hp Hi]. destruct (start_ok d (now_ d + 1 + Z.of_nat (elapsed t))%Z Hh) as [Hh' Hc];
    [lia|]. split; [|done]. constructor; [done|..].
  - apply (messages_frame d); eauto.
  - by destruct Hp.
  - by destruct Hi.
Qed.

Lemma transaction_keeps {A} idem tag (fn : SQL A) : keeps fn -> ex_preserves pg_ok (transaction idem tag fn).
Proof.
  intros Hk p [Hok Hs]. pose proof (transaction_settled idem tag fn p Hs) as Ht.
  destruct (transaction idem tag fn p) as [r p'] eqn:E. destruct Ht as [Hs' Hr]. split; [|done]. simpl.
  destruct r as [a|].
  - destruct Hr as [t Ht]. destruct (start_db_ok t _ Hok). by eapply Hk.
  - destruct Hr as [->|[t ->]]; [done|]. by apply start_db_ok.
Qed.

(** *** Hubs *)

(** Statements on the hub tables. *)
Lemma hub_statement d d' :
  db_ok d -> hubs_ok d' -> profiles d' = profiles d -> dom (hubs d') ⊆ dom (hubs d) ∪ ids ->
  draws d' `suffix_of` draws d -> messages_ok d' -> db_ok d'.
Proof.
  intros [Hh Hm [Hp1 Hp2] [Hi1 Hi2 Hi3]] Hh' Hp Hd [pre Hdr] Hm'. constructor; [done..| |].
  - constructor; by rewrite Hp.
  - constructor; [set_solver|by rewrite Hp|]. intros u Hu. apply Hi3. rewrite Hdr. set_solver.
Qed.

Lemma insert_hub_keeps n o : keeps (insert_hub n o).
Proof.
  intros d [id NEW] d' Hok Hc Hi. pose proof (insert_hub_ok _ _ _ _ _ (dk_hubs d Hok) Hi) as Hok'.
  pose proof (insert_hub_inr _ _ _ _ _ _ Hi) as (us & row & Hus & _ & -> & _).
  apply (hub_statement d); [done..| | |].
  - simpl. rewrite dom_insert. pose proof (ik_draws d (dk_ids d Hok) id). rewrite Hus in *. set_solver.
  - simpl. rewrite Hus. by exists [id].
  - apply (messages_frame d); eauto. apply Hok.
Qed.

Lemma upsert_member_keeps h u r : keeps (upsert_member h u r).
Proof.
  intros d x d' Hok Hc Hi. pose proof (upsert_member_ok _ _ _ _ _ _ (dk_hubs d Hok) Hc Hi) as Hok'.
  apply upsert_member_inr in Hi as (row & _ & -> & _).
  apply (hub_statement d); [done|done|done|set_solver|done|].
  apply (messages_frame d); eauto. apply Hok.
Qed.

Lemma delete_member_keeps h u : keeps (delete_member h u).
Proof.
  intros d x d' Hok Hc Hi. pose proof (delete_member_ok _ _ _ _ _ (dk_hubs d Hok) Hi) as Hok'.
  injection Hi as _ <-. apply (hub_statement d); [done|done|done|set_solver|done|].
  apply (messages_frame d); eauto. apply Hok.
Qed.

Lemma update_hub_keeps id f : (forall h, h_owner_id (f h) = h_owner_id h) -> keeps (update_hub id f).
Proof.
  intros Hf d b d' Hok Hc Hi. pose proof (update_hub_ok _ _ _ _ _ Hf (dk_hubs d Hok) Hi) as Hok'.
  apply update_hub_inr in Hi. destruct b; [|by destruct Hi as [-> _]]. destruct Hi as (OLD & NEW & HOLD & _ & -> & _).
  apply (hub_statement d); [done..| |done|].
  - simpl. rewrite dom_insert. apply elem_of_dom_2 in HOLD. set_solver.
  - apply (messages_frame d); eauto. apply Hok.
Qed.

Lemma delete_hub_keeps id o : keeps (delete_hub id o).
Proof.
  intros d b d' Hok Hc Hi. pose proof (delete_hub_ok _ _ _ _ _ (dk_hubs d Hok) Hi) as Hok'.
  apply delete_hub_inr in Hi. destruct b; [|by destruct Hi as [-> _]]. destruct Hi as [_ ->].
  apply (hub_statement d); [done|done|done| |done|].
  - simpl. rewrite dom_delete. set_solver.
  - apply delete_hub_rows_messages_ok, Hok.
Qed.

Lemma insert_channel_keeps h n ty u : keeps (insert_channel h n ty u).
Proof.
  intros d id d' Hok Hc Hi.
  pose proof (insert_channel_ok _ _ _ _ _ _ _ (dk_hubs d Hok) Hc Hi) as Hok'.
  apply insert_channel_inr in Hi as (us & NEW & Hus & _ & -> & Hfree & _).
  apply (hub_statement d); [done|done|done|set_solver| |].
  - simpl. rewrite Hus. by exists [id].
  - apply (messages_frame d); [|done..|apply Hok]. intros k ch Hk. exists ch. split; [|done]. simpl.
    rewrite lookup_insert_ne; [done|congruence].
Qed.

Lemma rename_channel_keeps id n : keeps (rename_channel id n).
Proof.
  intros d b d' Hok Hc Hi. pose proof (rename_channel_ok _ _ _ _ _ (dk_hubs d Hok) Hi) as Hok'.
  apply rename_channel_inr in Hi. destruct b; [|by destruct Hi as [-> _]].
  destruct Hi as (OLD & NEW & HOLD & HNEW & -> & _).
  apply (hub_statement d); [done|done|done|set_solver|done|].
  apply (messages_frame d); [|done..|apply Hok]. intros k ch Hk. simpl.
  destruct (decide (id = k)) as [<-|Hne].
  - exists NEW. rewrite lookup_insert_eq. split; [done|]. replace ch with OLD by congruence. by subst.
  - exists ch. by rewrite lookup_insert_ne.
Qed.

Lemma delete_channel_keeps id h : keeps (delete_channel id h).
Proof.
  intros d b d' Hok Hc Hi. pose proof (delete_channel_ok _ _ _ _ _ (dk_hubs d Hok) Hi) as Hok'.
  apply delete_channel_inr in Hi. destruct b; [|by destruct Hi as [-> _]]. destruct Hi as [_ ->].
  apply (hub_statement d); [done|done|done|set_solver|done|].
  apply delete_channels_messages_ok, Hok.
Qed.

(** *** Messages *)

(** The statement keeps the hubs' tables and the messages' invariant. *)
Record message_step (d d' : Db) : Prop := mk_message_step {
  mst_profiles : profiles d' = profiles d;
  mst_roles : hub_roles d' = hub_roles d;
  mst_hubs : hubs d' = hubs d;
  mst_members : memberships d' = memberships d;
  mst_channels : channels d' = channels d;
  mst_now : now_ d' = now_ d;
  mst_draws : draws d' `suffix_of` draws d;
  mst_ok : messages_ok d -> messages_ok d'
}.

#[local] Instance message_step_preorder : PreOrder message_step.
Proof.
  split; [by split|]. intros d1 d2 d3 [] []. split; try congruence; [by etrans|auto].
Qed.

Lemma hubs_frame d d' :
  profiles d' = profiles d -> hub_roles d' = hub_roles d -> hubs d' = hubs d ->
  memberships d' = memberships d -> channels d' = channels d -> now_ d' = now_ d ->
  draws d' `suffix_of` draws d -> hubs_ok d -> hubs_ok d'.
Proof.
  intros Hp Hr Hh Hm Hc Hn [pre Hd] [H1 H2 H3 H4 H5 H6]. constructor.
  - by rewrite Hp.
  - rewrite Hd in H2. by apply Forall_app in H2 as [_ ?].
  - by apply (roles_frame d).
  - by apply (hub_rows_frame d).
  - apply (members_frame d); try done. by rewrite Hn.
  - apply (channel_rows_frame d); try done. by rewrite Hn.
Qed.

Lemma message_step_ok d d' : db_ok d -> message_step d d' -> db_ok d'.
Proof.
  intros Hok [Hp Hr Hh Hm Hc Hn Hd Hms]. apply (hub_statement d); try done.
  - apply (hubs_frame d); try done. apply Hok.
  - rewrite Hh. set_solver.
  - apply Hms, Hok.
Qed.

Lemma insert_message_step id c u t pv d r d' :
  insert_message id c u t pv d = inr (r, d') -> message_step d d'.
Proof.
  intros Hi. split; [..|intros Hok; by eapply insert_message_ok].
  all: by apply insert_message_inr in Hi as (_ & _ & -> & _).
Qed.

Lemma insert_attachment_step NEW d r d' : insert_attachment NEW d = inr (r, d') -> message_step d d'.
Proof.
  intros Hi. split; [..|intros Hok; by eapply insert_attachment_ok].
  all: apply insert_attachment_inr in Hi as (id & us & Hus & _ & _ & _ & _ & -> & _); try done.
  rewrite Hus. by exists [id].
Qed.

Lemma gen_random_uuid_step d u d' : gen_random_uuid d = inr (u, d') -> message_step d d'.
Proof.
  intros (us & Hus & ->)%gen_random_uuid_inr. split; try done; [rewrite Hus; by exists [u]|].
  apply messages_frame; eauto.
Qed.

Lemma insert_attachments_step id u ats d r d' :
  insert_attachments id u ats d = inr (r, d') -> message_step d d'.
Proof.
  apply sql_map_rel; [apply _|]. clear. intros x d y d' H. sql_inv. cbv zeta in H. sql_inv.
  match goal with H : nullable _ _ _ = _ |- _ => apply nullable_inr in H as [-> ->] end.
  match goal with r : uuid * attachment_row |- _ => destruct r as [k r'] end. sql_inv.
  by eapply insert_attachment_step.
Qed.

Lemma row_to_message_read r : read_only (row_to_message r).
Proof.
  intros d a d'. unfold row_to_message. destruct r as [[id m] text].
  destruct (from_json_attachments text), (ms_link_preview m); try destruct (from_json_link_preview _);
    simpl; intros H; by sql_inv.
Qed.

Lemma preview_param_read lp : read_only (preview_param lp).
Proof.
  intros d a d'. unfold preview_param, nullable, jsonb_param.
  destruct lp; [destruct (jsonb_in _)|]; intros H; by sql_inv.
Qed.

Lemma select_messages_read c P key n : read_only (select_messages c P key n).
Proof.
  intros d a d' H. unfold select_messages, message_rows in H. sql_inv.
  symmetry. revert H. apply (sql_map_rel eq). clear. intros x d y d' H. sql_inv.
  by apply row_to_message_read in H.
Qed.

(** *** Profiles *)

Lemma update_profile_keeps id n dn s : keeps (update_profile id n dn s).
Proof.
  intros d r d' Hok Hc Hu. pose proof (update_profile_ok _ _ _ _ _ _ _ (dk_profiles d Hok) Hu) as Hp.
  apply update_profile_inr in Hu. destruct r as [NEW|]; [|by destruct Hu as [-> _]].
  destruct Hu as (OLD & HOLD & Hdel & HNEW & (Hd' & _)%put_profile_inr).
  destruct Hok as [[H1 H2 H3 [Ha Hb Hl] [Hma Hmb] H6] Hm _ [Hi1 Hi2 Hi3]]. subst d'.
  assert (Hact : forall u, active u d -> active u (set_profiles (<[id := NEW]> (profiles d)) d)).
  { intros u (p & Hu & Hn). unfold active. simpl. destruct (decide (id = u)) as [<-|Hne].
    - exists NEW. rewrite lookup_insert_eq. by subst NEW.
    - exists p. by rewrite lookup_insert_ne. }
  constructor; [|apply (messages_frame d); eauto|done|].
  - constructor; simpl; [|done|by apply (roles_frame d)|..|by apply (channel_rows_frame d)].
    + intros u. rewrite lookup_insert_is_Some'. intros [<-|Hu]; [apply H1; by eexists|auto].
    + constructor; try done. intros k h Hk. destruct (Ha k h Hk) as (?&?&?&?). split_and!; auto.
    + constructor; try done. intros k u m Hk. destruct (Hma k u m Hk) as (?&?&?&?). split_and!; auto.
  - constructor; simpl; [done| |done]. rewrite dom_insert. apply elem_of_dom_2 in HOLD. set_solver.
Qed.

(** ** Methods that keep it *)

Lemma read_only_bind {A B} (m : SQL A) (k : A -> SQL B) :
  read_only m -> (forall a, read_only (k a)) -> read_only (sql_bind m k).
Proof.
  intros Hm Hk d b d' (a & d1 & Ha & Hb)%sql_bind_inr.
  rewrite (Hk _ _ _ _ Hb). by apply Hm in Ha.
Qed.
Lemma read_only_ret {A} (a : A) : read_only (sql_ret a).
Proof. by intros d b d' [_ ->]%sql_ret_inr. Qed.
Lemma read_only_raise {A} e : read_only (sql_raise (A := A) e).
Proof. by intros d b d'. Qed.
Lemma read_only_gets {A} (f : Db -> A) : read_only (sql_gets f).
Proof. by intros d b d' [_ ->]%sql_gets_inr. Qed.
Lemma read_only_uuid s : read_only (uuid_param s).
Proof. by intros d b d' [_ ->]%uuid_param_inr. Qed.
Lemma read_only_uuids ss : read_only (uuid_params ss).
Proof. by intros d b d' [-> _]%uuid_params_inr. Qed.
Lemma read_only_text s : read_only (text_param s).
Proof. by intros d b d' (_ & _ & ->)%text_param_inr. Qed.
Lemma read_only_nullable o : read_only (nullable text_param o).
Proof. by intros d b d' [_ ->]%nullable_inr. Qed.

Lemma keeps_bind_l {A B} (m : SQL A) (k : A -> SQL B) :
  read_only m -> (forall a, keeps (k a)) -> keeps (sql_bind m k).
Proof.
  intros Hm Hk d b d' Hok Hc (a & d1 & Ha & Hb)%sql_bind_inr. apply Hm in Ha as ->. by eapply Hk.
Qed.
Lemma keeps_bind_r {A B} (m : SQL A) (k : A -> SQL B) :
  keeps m -> (forall a, read_only (k a)) -> keeps (sql_bind m k).
Proof.
  intros Hm Hk d b d' Hok Hc (a & d1 & Ha & Hb)%sql_bind_inr. apply Hk in Hb as ->. by eapply Hm.
Qed.

Lemma db_write_keeps {A} tag (fn : SQL A) : keeps fn -> ex_preserves pg_ok (db_write tag fn).
Proof. apply transaction_keeps. Qed.
Lemma db_read_keeps {A} tag (fn : SQL A) : read_only fn -> ex_preserves pg_ok (db_read tag fn).
Proof. intros Hr. apply transaction_keeps. by apply read_only_keeps. Qed.

Lemma sendMessage_step c u text ats lp d m d' :
  send_statement c u text ats lp d = inr (m, d') -> message_step d d'.
Proof.
  intros H. apply sql_bind_inr in H as (? & ? & [_ ->]%uuid_param_inr & H).
  apply sql_bind_inr in H as (? & ? & [_ ->]%uuid_param_inr & H).
  apply sql_bind_inr in H as (? & ? & (_ & -> & ->)%text_param_inr & H).
  apply sql_bind_inr in H as (? & ? & ->%preview_param_read & H).
  apply sql_bind_inr in H as (? & ? & H1%gen_random_uuid_step & H).
  apply sql_bind_inr in H as (? & ? & H2%insert_message_step & H).
  apply sql_bind_inr in H as (? & ? & ->%row_to_message_read & H).
  apply sql_bind_inr in H as (? & ? & H3%insert_attachments_step & [_ ->]%sql_ret_inr).
  by rewrite H1, H2.
Qed.

Lemma insertMessage_step msg d b d' :
  insert_statement msg d = inr (b, d') -> b = true /\ message_step d d'.
Proof.
  intros H. apply sql_bind_inr in H as (? & ? & [_ ->]%uuid_param_inr & H).
  apply sql_bind_inr in H as (? & ? & [_ ->]%uuid_param_inr & H).
  apply sql_bind_inr in H as (? & ? & [_ ->]%uuid_param_inr & H).
  apply sql_bind_inr in H as (? & ? & (_ & -> & ->)%text_param_inr & H).
  apply sql_bind_inr in H as (? & ? & ->%preview_param_read & H).
  apply sql_bind_inr in H as (? & ? & H2%insert_message_step & H).
  apply sql_bind_inr in H as (? & ? & H3%insert_attachments_step & [-> ->]%sql_ret_inr).
  split; [done|]. by rewrite H2.
Qed.

(** ** The states *)

Definition t : Type := {p : Pg | pg_ok p}.

(** A method on the states that satisfy the invariant. *)
Definition guarded {A} (m : EX Pg A) (Hm : ex_preserves pg_ok m) : EX t A :=
  fun s => ((m (`s)).1, exist _ (m (`s)).2 (Hm (`s) (proj2_sig s))).

End Store.

Create HintDb sql discriminated.
#[export] Hint Resolve read_only_bind read_only_ret read_only_gets read_only_uuid read_only_uuids
  read_only_text read_only_nullable read_only_raise select_messages_read preview_param_read
  row_to_message_read : sql.
#[export] Hint Resolve insert_hub_keeps upsert_member_keeps delete_member_keeps delete_hub_keeps
  insert_channel_keeps rename_channel_keeps delete_channel_keeps update_profile_keeps : sql.

(** Unfolded to its statements, a method keeps the invariant. *)
Ltac keeps_method :=
  repeat first
    [ progress intros
    | apply update_hub_keeps; done
    | solve [auto with sql]
    | apply db_write_keeps
    | apply db_read_keeps
    | apply keeps_bind_l; [by auto with sql|]
    | apply keeps_bind_r; [by auto with sql|]
    | apply read_only_bind; [by auto with sql|] ].

Section Instances.
Context `{PG : Postgres} `{JL : JsonLib} (ids : gset uuid).

#[local] Abbreviation kept m := (ex_preserves (pg_ok ids) m).

Lemma createHub_kept n o : kept (createHub n o).
Proof. unfold createHub. keeps_method. Qed.
Lemma addMember_kept h u r : kept (addMember h u r).
Proof. unfold addMember. keeps_method. Qed.
Lemma removeMember_kept h u : kept (removeMember h u).
Proof. unfold removeMember. keeps_method. Qed.
Lemma getUserHubs_kept u : kept (getUserHubs u).
Proof. unfold getUserHubs. keeps_method. Qed.
Lemma getHubsByIds_kept hs : kept (getHubsByIds hs).
Proof. unfold getHubsByIds. case_bool_decide; [by intros p Hp|]. keeps_method. Qed.
Lemma getHub_kept h : kept (getHub h).
Proof. unfold getHub. keeps_method. Qed.
Lemma getHubMemberRoles_kept h : kept (getHubMemberRoles h).
Proof. unfold getHubMemberRoles. keeps_method. Qed.
Lemma getHubMemberRolesByHubIds_kept hs : kept (getHubMemberRolesByHubIds hs).
Proof. unfold getHubMemberRolesByHubIds. case_bool_decide; [by intros p Hp|]. keeps_method. Qed.
Lemma renameHub_kept h n : kept (renameHub h n).
Proof. unfold renameHub. keeps_method. Qed.
Lemma updateHubAvatarSeed_kept h n : kept (updateHubAvatarSeed h n).
Proof. unfold updateHubAvatarSeed. keeps_method. Qed.
Lemma deleteHub_kept h o : kept (deleteHub h o).
Proof. unfold deleteHub. keeps_method. Qed.
Lemma getChannel_kept c : kept (getChannel c).
Proof. unfold getChannel. keeps_method. Qed.
Lemma getChannelsByIds_kept cs : kept (getChannelsByIds cs).
Proof. unfold getChannelsByIds. case_bool_decide; [by intros p Hp|]. keeps_method. Qed.
Lemma getHubChannelsByHubIds_kept hs : kept (getHubChannelsByHubIds hs).
Proof. unfold getHubChannelsByHubIds. case_bool_decide; [by intros p Hp|]. keeps_method. Qed.
Lemma getHubChannelIds_kept h : kept (getHubChannelIds h).
Proof. unfold getHubChannelIds. keeps_method. Qed.
Lemma createChannel_kept h n ty u : kept (createChannel h n ty u).
Proof. unfold createChannel. keeps_method. Qed.
Lemma renameChannel_kept c n : kept (renameChannel c n).
Proof. unfold renameChannel. keeps_method. Qed.
Lemma deleteChannel_kept c h : kept (deleteChannel c h).
Proof. unfold deleteChannel. keeps_method. Qed.

Lemma getUser_kept u : kept (getUser u).
Proof. unfold getUser. keeps_method. Qed.
Lemma getUsersByIds_kept us : kept (getUsersByIds us).
Proof. unfold getUsersByIds. case_bool_decide; [by intros p Hp|]. keeps_method. Qed.
Lemma updateUserProfile_kept u n dn s : kept (updateUserProfile u n dn s).
Proof.
  assert (Hw : kept (db_write "UserRepository.updateUserProfile" (update_user_row u n dn s))).
  { apply db_write_keeps. do 4 (apply keeps_bind_l; [by auto with sql|intros ?]).
    apply keeps_bind_r; [by auto with sql|]. intros [p|]; auto with sql. }
  unfold updateUserProfile. destruct n, dn, s; try apply Hw.
  intros p Hp. unfold ex_bind. pose proof (getUser_kept u p Hp) as Hg.
  destruct (getUser u p) as [[[user|]|] p']; done.
Qed.

Lemma fetchMessages_kept c n : kept (fetchMessages c n).
Proof. unfold fetchMessages. keeps_method. Qed.
Lemma fetchMessagesAfter_kept c m n : kept (fetchMessagesAfter c m n).
Proof. unfold fetchMessagesAfter. keeps_method. Qed.
Lemma fetchMessagesBefore_kept c m n : kept (fetchMessagesBefore c m n).
Proof. unfold fetchMessagesBefore. keeps_method. Qed.
Lemma sendMessage_kept c u text ats lp : kept (sendMessage c u text ats lp).
Proof.
  apply db_write_keeps. intros d a d' Hok _ Hs%sendMessage_step. by eapply message_step_ok.
Qed.
Lemma insertMessage_kept msg : kept (insertMessage msg).
Proof.
  apply db_write_keeps. intros d a d' Hok _ [_ Hs]%insertMessage_step. by eapply message_step_ok.
Qed.

#[global] Instance hub_repo : HubRepo (t ids) := {|
  repo_getHub h := guarded ids _ (getHub_kept h);
  repo_getHubsByIds hs := guarded ids _ (getHubsByIds_kept hs);
  repo_getChannel c := guarded ids _ (getChannel_kept c);
  repo_getChannelsByIds cs := guarded ids _ (getChannelsByIds_kept cs);
  repo_getHubChannelsByHubIds hs := guarded ids _ (getHubChannelsByHubIds_kept hs);
  repo_getHubMemberRoles h := guarded ids _ (getHubMemberRoles_kept h);
  repo_getHubMemberRolesByHubIds hs := guarded ids _ (getHubMemberRolesByHubIds_kept hs);
  repo_getHubChannelIds h := guarded ids _ (getHubChannelIds_kept h);
  repo_getUserHubs u := guarded ids _ (getUserHubs_kept u);
  repo_createHub n o := guarded ids _ (createHub_kept n o);
  repo_createChannel h n ty u := guarded ids _ (createChannel_kept h n ty u);
  repo_renameChannel c n := guarded ids _ (renameChannel_kept c n);
  repo_deleteChannel c h := guarded ids _ (deleteChannel_kept c h);
  repo_renameHub h n := guarded ids _ (renameHub_kept h n);
  repo_updateHubAvatarSeed h n := guarded ids _ (updateHubAvatarSeed_kept h n);
  repo_deleteHub h o := guarded ids _ (deleteHub_kept h o);
  repo_addMember h u r := guarded ids _ (addMember_kept h u r);
  repo_removeMember h u := guarded ids _ (removeMember_kept h u)
|}.

#[global] Instance user_repo : UserRepo (t ids) := {|
  repo_getUser u := guarded ids _ (getUser_kept u);
  repo_getUsersByIds us := guarded ids _ (getUsersByIds_kept us);
  repo_updateUserProfile u n dn s := guarded ids _ (updateUserProfile_kept u n dn s)
|}.

#[global] Instance message_repo : MessageRepo (t ids) := {|
  repo_fetchMessages c n := guarded ids _ (fetchMessages_kept c n);
  repo_fetchMessagesAfter c m n := guarded ids _ (fetchMessagesAfter_kept c m n);
  repo_fetchMessagesBefore c m n := guarded ids _ (fetchMessagesBefore_kept c m n);
  repo_sendMessage c u text ats lp := guarded ids _ (sendMessage_kept c u text ats lp);
  repo_insertMessage msg := guarded ids _ (insertMessage_kept msg)
|}.

End Instances.

End Store.
