(* ===== verification/SqlDemo.v ===== *)
(** * A small database

    Two users and the three system roles, uuids spelled in any way that is not
    empty, one uuid per draw.  The examples and witnesses about the
    repositories run on it. *)

From S2P Require Import Prelude.
From S2P Require Import CStrings.
From S2P Require Import Ids.
From S2P Require Import Transactions.
From S2P Require Import External.
From S2P Require Import HubService.
From S2P Require Import Sql.
From S2P Require Import Database.
From S2P Require Import HubTables.
From S2P Require Import HubInvariants.
From S2P Require Import HubRepository.
From S2P Require Import MessageInvariants.
From S2P Require Import UserRepository.
From S2P Require Import Store.

Module SqlDemo.
Import Sql Database HubTables HubInvariants MessageInvariants UserRepository Store TransactionRunner.

Definition what0 (e : sql_error) (detail : string) : string :=
  match e with
  | unique_violation c => "ERROR:  duplicate key value violates unique constraint " +:+ c +:+ " DETAIL:  " +:+ detail
  | check_violation c => "ERROR:  new row violates check constraint " +:+ c +:+ " DETAIL:  " +:+ detail
  | foreign_key_violation c => "ERROR:  violates foreign key constraint " +:+ c
  | not_null_violation c => "ERROR:  null value in column " +:+ c
  | invalid_text_representation => "ERROR:  invalid input syntax"
  | invalid_row_count_in_limit => "ERROR:  LIMIT must not be negative"
  | numeric_value_out_of_range => "ERROR:  out of range"
  | raise_exception m => "ERROR:  " +:+ m
  | runtime_error m => m
  end%string.

#[export] Instance postgres0 : Postgres.
Proof.
  refine {| uuid_in := fun s => if bool_decide (s = ""%string) then None else Some s;
            text_in := fun _ => true; lower := HubService.lower_string;
            jsonb_in := fun _ => Some (JObject ∅); jsonb_out := fun _ => "[]"%string;
            pg_what := what0 |}.
  intros s u. case_bool_decide; intros [= <-]. by rewrite bool_decide_false.
Defined.

#[export] Instance json_lib0 : JsonLib := {|
  json_parse := fun _ => Some (JArray []);
  json_dump := fun _ => "{}"%string;
  picojson_serialize := fun _ => "{}"%string |}.

Definition alice : UserId := mkUserId "alice".
Definition bob : UserId := mkUserId "bob".

Definition profile (name : string) : profile_row := mkProfile name name "Caleb" None None 1 1.

Definition profiles0 : gmap uuid profile_row :=
  {["alice" := profile "alice"; "bob" := profile "bob"]}%string.
Definition roles0 : gmap uuid role_row :=
  {["r1" := mkRoleRow "owner" 100 true; "r2" := mkRoleRow "admin" 70 true;
    "r3" := mkRoleRow "member" 10 true]}%string.

Definition draws0 : list uuid := ["u1"; "u2"; "u3"; "u5"; "u4"; "u6"; "u7"; "u8"; "u9"]%string.

Definition db0 : Db :=
  mkDatabase profiles0 roles0 ∅ ∅ ∅ ∅ ∅ ∅ ∅ ∅ ∅ 100 draws0.

(** A transaction that commits. *)
Definition commits : Turn := mkTurn (mkScript true [Committed] []) 5 "".
(** One whose connection is gone after the statements, and cannot be opened again. *)
Definition drops : Turn := mkTurn (mkScript true [WorkBroken] [false]) 5 "broken".

Definition pg0 : Pg := mkPg db0 (commits :: drops :: replicate 20 commits) NoFailure.

Definition ids0 : gset uuid := list_to_set ("alice" :: "bob" :: draws0)%string.

Lemma db0_profile id p :
  profiles0 !! id = Some p -> (id = "alice" \/ id = "bob")%string /\ p = profile id.
Proof.
  unfold profiles0. rewrite lookup_insert_Some, lookup_singleton_Some.
  intros [[<- <-]|[_ [<- <-]]]; auto.
Qed.

Lemma db0_role id r :
  roles0 !! id = Some r ->
  (id = "r1" /\ r_name r = "owner" \/ id = "r2" /\ r_name r = "admin" \/
   id = "r3" /\ r_name r = "member")%string.
Proof.
  unfold roles0. rewrite !lookup_insert_Some, lookup_singleton_Some.
  intros [[<- <-]|[_ [[<- <-]|[_ [<- <-]]]]]; auto.
Qed.

Lemma db0_ok : db_ok ids0 db0.
Proof.
  constructor.
  - constructor; simpl.
    + intros u [p Hp]. apply db0_profile in Hp as [[->| ->] _]; reflexivity.
    + repeat constructor.
    + constructor; simpl.
      * intros i j r r' Hi Hj Hn. apply db0_role in Hi, Hj. rewrite Hn in Hi.
        destruct Hi as [[-> Hi]|[[-> Hi]|[-> Hi]]], Hj as [[-> Hj]|[[-> Hj]|[-> Hj]]]; congruence.
      * intros n Hn. apply elem_of_cons in Hn as [->|Hn]; [by exists "r1"%string; eexists|].
        apply elem_of_cons in Hn as [->|Hn]; [by exists "r2"%string; eexists|].
        apply list_elem_of_singleton in Hn as ->. by exists "r3"%string; eexists.
    + constructor; simpl; try done. intros o. vm_compute. lia.
    + constructor; done.
    + constructor; simpl; try done. intros h. vm_compute. lia.
  - constructor; simpl; try done. intros c s Hs. unfold next_seq in Hs. simpl in Hs.
    rewrite lookup_empty in Hs. simpl in Hs. lia.
  - constructor; simpl.
    + intros id p Hp. apply db0_profile in Hp as [[->| ->] ->]; split_and!; reflexivity.
    + intros id id' p p' Hp Hp'. apply db0_profile in Hp as [[->| ->] ->], Hp' as [[->| ->] ->];
        simpl; done.
  - constructor.
    + done.
    + intros u Hu. simpl in Hu. apply elem_of_dom in Hu as [p Hp].
      apply db0_profile in Hp as [[->| ->] _]; unfold ids0; set_solver.
    + intros u Hu. unfold ids0. simpl in Hu. set_solver.
Qed.

Lemma pg0_ok : pg_ok ids0 pg0.
Proof. split; [apply db0_ok|]. repeat constructor. Qed.

End SqlDemo.
