(* ===== verification/StoreLaws.v ===== *)
(** * The repositories fulfil the services' contracts

    [HubRepoLaws] and [UserRepoLaws] for the database [Store]: what the
    theorems about the services assume of their repositories holds of the SQL
    they run. *)

From S2P Require Import Prelude.
From S2P Require Import CStrings.
From S2P Require Import Ids.
From S2P Require Import Protocol.
From S2P Require Import Transactions.
From S2P Require Import External.
From S2P Require Import HubService.
From S2P Require Import HubCoherence.
From S2P Require Import ServerEvents.
From S2P Require Import UserService.
From S2P Require Import Sql.
From S2P Require Import Database.
From S2P Require Import HubTables.
From S2P Require Import HubInvariants.
From S2P Require Import HubRepository.
From S2P Require Import HubRefinement.
From S2P Require Import UserRepository.
From S2P Require Import Store.

Module StoreLaws.
Import HubService HubCoherence Sql Database HubTables HubInvariants HubRepository HubRefinement
  UserRepository Store.

(** ** Grouping ordered rows *)

Lemma group_by_lookup {A B} (key : A -> HubId) (f : A -> B) rows k :
  default [] (group_by key f rows !! k) = f <$> filter (fun r => key r = k) rows.
Proof.
  unfold group_by.
  assert (Hg : forall m : gmap HubId (list B),
    default [] (foldl (fun by_hub row =>
      <[key row := default [] (by_hub !! key row) ++ [f row]]> by_hub) m rows !! k) =
    default [] (m !! k) ++ (f <$> filter (fun r => key r = k) rows)).
  { induction rows as [|r rows IH]; intros m; simpl; [by rewrite app_nil_r|].
    rewrite IH, filter_cons. case_decide as Hk.
    - rewrite Hk, lookup_insert_eq. simpl. by rewrite <- app_assoc.
    - by rewrite lookup_insert_ne. }
  by rewrite Hg, lookup_empty.
Qed.

(** Rows that agree on the first sort key are ordered by the others. *)
Lemma order_by_drop {A} (k0 : sort_key) (key : A -> list sort_key) l :
  distinct_keys key l ->
  forall key', (forall x, x ∈ l -> key' x = k0 :: key x) -> order_by key' l = order_by key l.
Proof.
  intros Hd key' Hk. apply order_by_unique.
  - intros x y Hx Hy Heq. rewrite !Hk in Heq by done. simplify_eq. by apply Hd.
  - apply order_by_perm.
  - pose proof (order_by_sorted key l) as Hs.
    assert (forall x, x ∈ order_by key l -> key' x = k0 :: key x) as Hk'.
    { intros x Hx%elem_of_order_by. auto. }
    clear Hk. induction Hs as [|x l' Hs IH Hall]; constructor.
    + apply IH. intros. apply Hk'. by right.
    + rewrite list.Forall_forall in Hall. apply list.Forall_forall. intros y Hy.
      rewrite !Hk' by (by left || by right). simpl. split; [by destruct (total key_le k0 k0)|]. auto.
Qed.

#[local] Opaque db_tables.

Section Rows.
Context `{PG : Postgres}.

Lemma hub_channel_keys_distinct P d :
  channel_rows_ok d -> distinct_keys hub_channel_key (select P (channels d)).
Proof.
  intros Hok [k c] [k' c'] [Hk _]%elem_of_select [Hk' _]%elem_of_select [= _ _ Ht].
  assert (k = k') as <- by (by eapply (co_times d Hok)). congruence.
Qed.

Lemma hub_member_keys_distinct P d :
  members_ok d -> distinct_keys hub_member_key (select P (memberships d)).
Proof.
  intros Hok [[h u] m] [[h' u'] m'] [Hk _]%elem_of_select [Hk' _]%elem_of_select [= <- Ht].
  assert (u = u') as <- by (by eapply (mo_times d Hok)). congruence.
Qed.

(** A hub's channels within the channels of several hubs. *)
Lemma channels_of_hubs_filter us h d :
  channel_rows_ok d -> h ∈ us ->
  filter (fun r => c_hub_id r.2 = h) (channels_of_hubs us d) = channels_in h d.
Proof.
  intros Hok Hh. unfold channels_of_hubs, channels_in.
  rewrite <- order_by_filter by (by apply hub_channel_keys_distinct).
  pose proof (channel_keys_distinct h d Hok) as Hd.
  assert (Hp : filter (fun r : uuid * channel_row => c_hub_id r.2 = h)
      (select (fun '(_, c) => bool_decide (c_hub_id c ∈ us)) (channels d)) ≡ₚ
    select (fun '(_, c) => bool_decide (c_hub_id c = h)) (channels d)).
  { apply NoDup_Permutation; [apply list.NoDup_filter, NoDup_select|apply NoDup_select|].
    intros [k c]. rewrite list_elem_of_filter, !elem_of_select, !bool_decide_eq_true. simpl.
    naive_solver. }
  rewrite (order_by_drop (inr h) channel_key); [by apply order_by_proper|..].
  - intros x y Hx Hy. rewrite Hp in Hx, Hy. by apply Hd.
  - intros [k c] [Hc _]%list_elem_of_filter. simpl in Hc. unfold hub_channel_key. simpl. by rewrite Hc.
Qed.

Lemma join_roles_filter d h l :
  filter (fun r : (uuid * uuid) * member_row * string => r.1.1.1 = h) (join_roles d l) =
  join_roles d (filter (fun r => r.1.1 = h) l).
Proof.
  unfold join_roles. induction l as [|r l IH]; [done|]. rewrite filter_cons. csimpl.
  destruct (hub_roles d !! hm_role_id r.2) as [role|] eqn:E; csimpl.
  - rewrite filter_cons. csimpl. case_decide; csimpl; [|done]. rewrite E. csimpl. by rewrite IH.
  - case_decide; csimpl; [|done]. by rewrite E.
Qed.

Lemma members_of_hubs_filter (us : list uuid) h d :
  members_ok d -> h ∈ us ->
  filter (fun r => r.1.1 = h) (order_by hub_member_key
    (select (fun '((h', _), _) => bool_decide (h' ∈ us)) (memberships d))) =
  order_by member_key (select (in_hub h) (memberships d)).
Proof.
  intros Hok Hh. rewrite <- order_by_filter by (by apply hub_member_keys_distinct).
  pose proof (member_keys_distinct h d Hok) as Hd.
  assert (Hp : filter (fun r : (uuid * uuid) * member_row => r.1.1 = h)
      (select (fun '((h', _), _) => bool_decide (h' ∈ us)) (memberships d)) ≡ₚ
    select (in_hub h) (memberships d)).
  { apply NoDup_Permutation; [apply list.NoDup_filter, NoDup_select|apply NoDup_select|].
    intros [[k u] m]. rewrite list_elem_of_filter, !elem_of_select. unfold in_hub.
    rewrite !bool_decide_eq_true. simpl. naive_solver. }
  rewrite (order_by_drop (inr h) member_key); [by apply order_by_proper|..].
  - intros x y Hx Hy. rewrite Hp in Hx, Hy. by apply Hd.
  - intros [[k u] m] [Hc _]%list_elem_of_filter. simpl in Hc. unfold hub_member_key. simpl. by rewrite Hc.
Qed.

(** A canonical id of the request is among the ids of the statement. *)
Lemma requested (hs : list HubId) us h :
  Forall2 (fun s u => uuid_in s = Some u) (hub_value <$> hs) us -> h ∈ hs -> norm_hub_id h = h ->
  hub_value h ∈ us.
Proof.
  intros Hall Hin Hn. apply (list_elem_of_fmap_2 hub_value) in Hin.
  apply list_elem_of_lookup in Hin as [i Hi].
  destruct (Forall2_lookup_l _ _ _ _ _ Hall Hi) as (u & Hu & Hin').
  apply list_elem_of_lookup. exists i. rewrite Hu. f_equal.
  apply spelled_in in Hin'. destruct h as [h]. injection Hn as Hn. simpl in *. congruence.
Qed.

Lemma omap_channels_in h d :
  omap (fun c => tb_channels (db_tables d) !! c) (channel_ids_in h d) =
  parse_channel_row <$> channels_in h d.
Proof.
  unfold channel_ids_in.
  assert (Hall : forall k c, (k, c) ∈ channels_in h d -> channels d !! k = Some c).
  { intros k c Hk. by apply elem_of_channels_in in Hk as [? _]. }
  induction (channels_in h d) as [|[k c] l IH]; [done|]. csimpl.
  rewrite tb_channels_lookup. csimpl. rewrite (Hall k c) by (by left). csimpl. f_equal.
  apply IH. intros k' c' Hin. apply Hall. by right.
Qed.

End Rows.

(** ** From statements to methods *)

Section Laws.
Context `{PG : Postgres} `{JL : JsonLib} (ids : gset uuid).

Definition store_tables (s : t ids) : Tables := db_tables (contents (`s)).

(** A query: one read-only statement that answers [P] of the tables, or an
    answer without a transaction. *)
Definition answers {A} (m : EX Pg A) (P : Tables -> A -> Prop) : Prop :=
  (exists a, m = ex_ret a /\ forall tb, P tb a) \/
  exists tag fn, m = db_read tag fn /\ read_only fn /\
    forall d a d', hubs_ok d -> fn d = inr (a, d') -> P (db_tables d) a.

(** A mutation: one statement that keeps the invariant and relates the tables
    by [P]. *)
Definition acts {A} (m : EX Pg A) (P : Tables -> A -> Tables -> Prop) : Prop :=
  exists tag fn, m = db_write tag fn /\ keeps ids fn /\
    forall d a d', hubs_ok d -> clock_ahead d -> hubs_ok d' -> fn d = inr (a, d') ->
      P (db_tables d) a (db_tables d').

Lemma answers_read {A} tag (fn : SQL A) (P : Tables -> A -> Prop) :
  read_only fn -> (forall d a d', hubs_ok d -> fn d = inr (a, d') -> P (db_tables d) a) ->
  answers (db_read tag fn) P.
Proof. intros Hr HP. right. by exists tag, fn. Qed.

(** A method that answers the empty request without a transaction. *)
Lemma answers_empty {A B} (xs : list B) (e : A) tag fn (P : Tables -> A -> Prop) :
  read_only fn -> (xs = [] -> forall tb, P tb e) ->
  (forall d a d', hubs_ok d -> fn d = inr (a, d') -> P (db_tables d) a) ->
  answers (if bool_decide (xs = []) then ex_ret e else db_read tag fn) P.
Proof.
  case_bool_decide as Hx; intros Hr He HP; [|by apply answers_read]. left. exists e. auto.
Qed.

Lemma acts_write {A} tag (fn : SQL A) (P : Tables -> A -> Tables -> Prop) :
  keeps ids fn ->
  (forall d a d', hubs_ok d -> clock_ahead d -> hubs_ok d' -> fn d = inr (a, d') ->
     P (db_tables d) a (db_tables d')) ->
  acts (db_write tag fn) P.
Proof. intros Hk HP. by exists tag, fn. Qed.

(** A query on the states of the repositories. *)
Lemma answers_reads {A} (m : EX Pg A) Hm (P Q : Tables -> A -> Prop) :
  answers m P -> (forall tb a, P tb a -> Q tb a) -> reads store_tables (guarded ids m Hm) Q.
Proof.
  intros [(a & -> & HP)|(tag & fn & -> & Hr & HP)] HQ [p [Hok Hs]].
  { simpl. split; [done|]. auto. }
  unfold guarded, store_tables. simpl. pose proof (db_read_same tag fn p Hr) as Ht.
  destruct (db_read tag fn p) as [r p']. simpl. destruct r as [a|].
  - destruct Ht as (t & -> & Ht). split; [apply db_tables_now|]. apply HQ.
    rewrite <- (db_tables_now (now_ (contents p) + 1 + Z.of_nat (elapsed t))%Z (contents p)).
    eapply HP; [|done]. apply (start_db_ok ids t), Hok.
  - destruct Ht as [->|[t ->]]; split; try done; apply db_tables_now.
Qed.

Lemma tables_ok_db d : hubs_ok d -> tables_ok (db_tables d).
Proof.
  intros Hok. constructor.
  - intros [h] hub. rewrite tb_hubs_lookup. simpl. by intros (r & _ & ->)%fmap_Some.
  - intros [c] ch. rewrite tb_channels_lookup. simpl. by intros (r & _ & ->)%fmap_Some.
  - intros [h] c. rewrite order_of_db by done. unfold channel_ids_in. simpl.
    intros ([k r] & -> & [Hk <-]%elem_of_channels_in)%list_elem_of_fmap.
    rewrite tb_channels_lookup. simpl. rewrite Hk. simpl. eauto.
  - intros [c] ch. rewrite tb_channels_lookup. simpl. intros (r & Hr & ->)%fmap_Some. simpl.
    rewrite order_of_db by done. unfold channel_ids_in. simpl. apply list_elem_of_fmap. exists (c, r).
    split; [done|]. by apply elem_of_channels_in.
Qed.

(** ** What the methods answer *)

Lemma getHub_answers h : answers (getHub h) (fun tb r => r = tb_hubs tb !! norm_hub_id h).
Proof.
  apply answers_read; [auto with sql|]. intros d a d' Hok H. sql_inv.
  rewrite tb_hubs_lookup. unfold norm_hub_id. simpl.
  match goal with H : uuid_in _ = Some _ |- _ => by rewrite (spelled_in _ _ H) end.
Qed.

Lemma getChannel_answers c :
  answers (getChannel c) (fun tb r => r = tb_channels tb !! norm_channel_id c).
Proof.
  apply answers_read; [auto with sql|]. intros d a d' Hok H. sql_inv.
  rewrite tb_channels_lookup. unfold norm_channel_id. simpl.
  match goal with H : uuid_in _ = Some _ |- _ => by rewrite (spelled_in _ _ H) end.
Qed.

(** The rows of the ids asked for, each once. *)
Definition rows_listed {I R} `{EqDecision I, Countable I} (id : R -> I) (table : gmap I R) (asked : list I)
  (answer : list R) : Prop :=
  NoDup answer /\ forall row, row ∈ answer <-> id row ∈ asked /\ table !! id row = Some row.

(** The ids of a request, as the statement has them. *)
Lemma asked_spelled {I} (value : I -> string) (mk : uuid -> I) (is_ : list I) us k :
  (forall a b, mk a = mk b -> a = b) ->
  Forall2 (fun s u => uuid_in s = Some u) (value <$> is_) us ->
  mk k ∈ (fun i => mk (spelled (value i))) <$> is_ <-> k ∈ us.
Proof.
  intros Hinj Hall. apply Forall2_fmap_l in Hall.
  assert (Hus : us = (fun i => spelled (value i)) <$> is_).
  { induction Hall as [|i u is_ us Hi Hall IH]; [done|]. csimpl. rewrite (spelled_in _ _ Hi). by f_equal. }
  rewrite Hus, !list_elem_of_fmap. split; intros (i & Hi & Hin); exists i; split; try done; [|congruence].
  by apply Hinj.
Qed.

Lemma NoDup_rows {K A B} `{Countable K} (f : K * A -> B) (P : K * A -> bool) (t : gmap K A) :
  (forall x y, f x = f y -> x.1 = y.1) -> NoDup (f <$> select P t).
Proof.
  intros Hf. apply NoDup_fmap_2_strong; [|apply NoDup_select].
  intros [k a] [k' a'] [Hk _]%elem_of_select [Hk' _]%elem_of_select Heq.
  apply Hf in Heq. simpl in Heq. subst k'. congruence.
Qed.

Lemma getHubsByIds_answers hs :
  answers (getHubsByIds hs) (fun tb => rows_listed hub_id (tb_hubs tb) (norm_hub_id <$> hs)).
Proof.
  apply answers_empty; [auto with sql| |].
  { intros -> tb. split; [constructor|]. intros row. split; [by intros ?%not_elem_of_nil|].
    by intros [?%not_elem_of_nil _]. }
  intros d a d' Hok H. apply sql_bind_inr in H as (us & d1 & [-> Hus]%uuid_params_inr & [-> _]%sql_gets_inr).
  split; [apply NoDup_rows; by intros [k r] [k' r'] [= _ -> _]|].
  intros hub. rewrite list_elem_of_fmap, tb_hubs_lookup, fmap_Some. split.
  - intros ([k r] & -> & [Hk Hb%bool_decide_eq_true]%elem_of_select). split; [|by exists r].
    by apply (asked_spelled hub_value mkHubId _ us); [by intros ?? [=]|..].
  - intros [Hin (r & Hr & Heq)]. exists (hub_value (hub_id hub), r). split; [done|].
    apply elem_of_select. split; [done|]. apply bool_decide_eq_true.
    apply (asked_spelled hub_value mkHubId hs us); [by intros ?? [=]|done|].
    by destruct (hub_id hub).
Qed.

Lemma getChannelsByIds_answers cs :
  answers (getChannelsByIds cs) (fun tb => rows_listed ch_id (tb_channels tb) (norm_channel_id <$> cs)).
Proof.
  apply answers_empty; [auto with sql| |].
  { intros -> tb. split; [constructor|]. intros row. split; [by intros ?%not_elem_of_nil|].
    by intros [?%not_elem_of_nil _]. }
  intros d a d' Hok H. apply sql_bind_inr in H as (us & d1 & [-> Hus]%uuid_params_inr & [-> _]%sql_gets_inr).
  split; [apply NoDup_rows; by intros [k r] [k' r'] [= _ -> _]|].
  intros ch. rewrite list_elem_of_fmap, tb_channels_lookup, fmap_Some. split.
  - intros ([k r] & -> & [Hk Hb%bool_decide_eq_true]%elem_of_select). split; [|by exists r].
    by apply (asked_spelled channel_value mkChannelId _ us); [by intros ?? [=]|..].
  - intros [Hin (r & Hr & Heq)]. exists (channel_value (ch_id ch), r). split; [done|].
    apply elem_of_select. split; [done|]. apply bool_decide_eq_true.
    apply (asked_spelled channel_value mkChannelId cs us); [by intros ?? [=]|done|].
    by destruct (ch_id ch).
Qed.

Lemma getHubChannelsByHubIds_answers hs :
  answers (getHubChannelsByHubIds hs) (fun tb r =>
    forall h, h ∈ hs -> norm_hub_id h = h ->
      default [] (r !! h) = omap (fun c => tb_channels tb !! c) (order_of tb h)).
Proof.
  apply answers_empty; [auto with sql|by intros -> tb h ?%not_elem_of_nil|].
  intros d a d' Hok H h Hin Hn. apply sql_bind_inr in H as (us & d1 & [-> Hus]%uuid_params_inr & H).
  sql_inv. rewrite group_by_lookup, order_of_db, omap_channels_in by done. f_equal.
  rewrite <- (channels_of_hubs_filter us) by (by eapply requested || apply Hok).
  apply list_filter_iff. intros [k c]. destruct h as [h]. simpl. split; [by intros [=]|by intros ->].
Qed.

Lemma getHubMemberRoles_answers h :
  answers (getHubMemberRoles h) (fun tb r => r = members_of tb (norm_hub_id h)).
Proof.
  apply answers_read; [auto with sql|]. intros d a d' Hok H. sql_inv.
  rewrite members_of_db by done. unfold norm_hub_id. simpl.
  match goal with H : uuid_in _ = Some _ |- _ => by rewrite (spelled_in _ _ H) end.
Qed.

Lemma getHubMemberRolesByHubIds_answers hs :
  answers (getHubMemberRolesByHubIds hs) (fun tb r =>
    forall h, h ∈ hs -> norm_hub_id h = h -> default [] (r !! h) = members_of tb h).
Proof.
  apply answers_empty; [auto with sql|by intros -> tb h ?%not_elem_of_nil|].
  intros d a d' Hok H h Hin Hn. apply sql_bind_inr in H as (us & d1 & [-> Hus]%uuid_params_inr & H).
  sql_inv. rewrite group_by_lookup, members_of_db by done. unfold members_in.
  fold (in_hub (hub_value h)). f_equal.
  rewrite <- (members_of_hubs_filter us) by (by eapply requested || apply Hok).
  rewrite <- join_roles_filter. apply list_filter_iff. intros [[[k u] m] r]. destruct h as [h]. simpl.
  split; [by intros [=]|by intros ->].
Qed.

Lemma getHubChannelIds_answers h :
  answers (getHubChannelIds h) (fun tb r => r = order_of tb (norm_hub_id h)).
Proof.
  apply answers_read; [auto with sql|]. intros d a d' Hok H. sql_inv.
  rewrite order_of_db by done. unfold norm_hub_id. simpl.
  match goal with H : uuid_in _ = Some _ |- _ => by rewrite (spelled_in _ _ H) end.
Qed.

(** The hubs of a user, each once, with the user's role. *)
Definition user_hubs_listed (u : UserId) (tb : Tables) (answer : list Hub) : Prop :=
  NoDup (hub_id <$> answer) /\
  forall hub, hub ∈ answer <-> exists row role,
    tb_hubs tb !! hub_id hub = Some row /\
    roles_of (members_of tb (hub_id hub)) !! norm_user_id u = Some role /\
    hub = setMemberRole u role row.

Lemma fmap_omap_sublist {A B C} (f : A -> option B) (p : A -> C) (q : B -> C) l :
  (forall x y, f x = Some y -> q y = p x) -> (q <$> omap f l) `sublist_of` (p <$> l).
Proof.
  intros Hf. induction l as [|x l IH]; [constructor|]. csimpl. destruct (f x) as [y|] eqn:E; csimpl.
  - rewrite (Hf x y E). by constructor.
  - by constructor.
Qed.

(** The rows of [getUserHubs], before they are parsed. *)
Definition user_hub_rows (user : uuid) (d : Db) : list ((uuid * hub_row) * string) :=
  omap (fun '((h, _), _, role) => (fun hub => ((h, hub), role)) <$> hubs d !! h)
    (join_roles d (select (fun '((_, u'), _) => bool_decide (u' = user)) (memberships d))).

Lemma NoDup_user_hub_rows user d : NoDup ((fun r => r.1.1) <$> user_hub_rows user d).
Proof.
  set (l := select (fun '((_, u'), _) => bool_decide (u' = user)) (memberships d)).
  apply (sublist_NoDup _ ((fun r : (uuid * uuid) * member_row => r.1.1) <$> l)).
  - apply NoDup_fmap_2_strong; [|apply NoDup_select].
    intros [[h u] m] [[h' u'] m'] [Hm ->%bool_decide_eq_true]%elem_of_select
      [Hm' ->%bool_decide_eq_true]%elem_of_select Heq. simpl in Heq. subst h'. congruence.
  - unfold user_hub_rows. etrans; [apply (fmap_omap_sublist _ (fun r => r.1.1.1))|].
    { intros [[[h u] m] role] y (hub & _ & ->)%fmap_Some. done. }
    apply (fmap_omap_sublist _ (fun r : (uuid * uuid) * member_row => r.1.1)).
    intros [[h u] m] y (role & _ & ->)%fmap_Some. done.
Qed.

Lemma elem_of_user_hub_rows user d h r role :
  ((h, r), role) ∈ user_hub_rows user d <->
  hubs d !! h = Some r /\ exists m rr, memberships d !! (h, user) = Some m /\
    hub_roles d !! hm_role_id m = Some rr /\ role = r_name rr.
Proof.
  unfold user_hub_rows, join_roles. rewrite list_elem_of_omap. split.
  - intros ([[[h' u'] m] role'] & Hj & Hh). apply fmap_Some in Hh as (r' & Hr & Heq). simplify_eq.
    apply list_elem_of_omap in Hj as ([[h2 u2] m2] & Hs & Hj).
    apply fmap_Some in Hj as (rr & Hrr & Heq). simplify_eq/=.
    apply elem_of_select in Hs as [Hm ->%bool_decide_eq_true]. eauto 6.
  - intros (Hr & m & rr & Hm & Hrr & ->). exists (((h, user), m), r_name rr). rewrite Hr. split; [|done].
    apply list_elem_of_omap. exists ((h, user), m). simpl. rewrite Hrr. split; [|done].
    apply elem_of_select. split; [done|]. by apply bool_decide_eq_true.
Qed.

Lemma getUserHubs_answers u : answers (getUserHubs u) (user_hubs_listed u).
Proof.
  apply answers_read; [auto with sql|]. intros d a d' Hok H.
  apply sql_bind_inr in H as (user & ? & [Hu ->]%uuid_param_inr & [-> _]%sql_gets_inr).
  fold (user_hub_rows user d). split.
  - rewrite <- list_fmap_compose, (order_by_perm _ (user_hub_rows user d)).
    apply (NoDup_fmap_1 hub_value). rewrite <- list_fmap_compose.
    erewrite list_fmap_ext; [apply (NoDup_user_hub_rows user d)|]. by intros i [[h r] role] _.
  - intros hub. rewrite list_elem_of_fmap, tb_hubs_lookup, members_of_db by done.
    unfold norm_user_id. rewrite (spelled_in _ _ Hu). setoid_rewrite roles_in. split.
    + intros ([[h r] role] & -> & Hin%elem_of_order_by).
      apply elem_of_user_hub_rows in Hin as (Hr & m & rr & Hm & Hrr & ->).
      simpl. rewrite Hr. eexists _, _. split; [reflexivity|]. split; [eauto|done].
    + intros (row & role & Hrow & (m & rr & Hm & Hrr & ->) & Heq).
      apply fmap_Some in Hrow as (r & Hr & ->). exists ((hub_value (hub_id hub), r), r_name rr).
      split; [done|]. apply elem_of_order_by, elem_of_user_hub_rows. eauto 6.
Qed.

(** ** What the methods do *)

(** The statement runs after its parameters have been read. *)
#[local] Ltac write_method :=
  apply acts_write; [solve [keeps_method]|]; intros d a d' Hok Hc Hok' H.

(** A new hub, with its owner as the only member. *)
Definition hub_created (n : string) (o : UserId) (tb : Tables) (hub : Hub) (tb' : Tables) : Prop :=
  hub = mkHub n (hub_id hub) (norm_user_id o) "Felix" {[norm_user_id o := OWNER]} /\
  tb_hubs tb !! hub_id hub = None /\ tb_hubs tb' !! hub_id hub = Some hub /\
  roles_of (members_of tb' (hub_id hub)) = {[norm_user_id o := OWNER]} /\
  order_of tb' (hub_id hub) = [] /\
  only_hub_changed (hub_id hub) tb tb' /\ tb_channels tb' = tb_channels tb.

Lemma createHub_acts n o : acts (createHub n o) (hub_created n o).
Proof.
  write_method. apply sql_bind_inr in H as (? & ? & [Ho ->]%uuid_param_inr & H).
  apply sql_bind_inr in H as (? & ? & (_ & -> & ->)%text_param_inr & H).
  apply sql_bind_inr in H as (? & ? & H & [-> ->]%sql_ret_inr). by eapply (create_hub_law n o).
Qed.

(** A new channel, the last of its hub. *)
Definition channel_created (h : HubId) (n ty : string) (tb : Tables) (c : ChannelId) (tb' : Tables)
  : Prop :=
  tb_channels tb !! c = None /\
  tb_channels tb' =
    <[c := mkChannel n c (norm_hub_id h) (channel_type_from_storage ty)]> (tb_channels tb) /\
  only_hub_changed (norm_hub_id h) tb tb' /\
  tb_hubs tb' !! norm_hub_id h = tb_hubs tb !! norm_hub_id h /\
  members_of tb' (norm_hub_id h) = members_of tb (norm_hub_id h) /\
  order_of tb' (norm_hub_id h) = order_of tb (norm_hub_id h) ++ [c].

Lemma createChannel_acts h n ty u : acts (createChannel h n ty u) (channel_created h n ty).
Proof.
  write_method. apply sql_bind_inr in H as (? & ? & [Hh ->]%uuid_param_inr & H).
  apply sql_bind_inr in H as (? & ? & (_ & -> & ->)%text_param_inr & H).
  apply sql_bind_inr in H as (? & ? & (_ & -> & ->)%text_param_inr & H).
  apply sql_bind_inr in H as (? & ? & [_ ->]%uuid_param_inr & H).
  apply sql_bind_inr in H as (? & ? & H & [-> ->]%sql_ret_inr). by eapply create_channel_law.
Qed.

(** A channel's name changes; the answer is whether there is such a channel. *)
Definition channel_renamed (c : ChannelId) (n : string) (tb : Tables) (b : bool) (tb' : Tables) : Prop :=
  b = bool_decide (is_Some (tb_channels tb !! norm_channel_id c)) /\ same_hubs tb tb' /\
  tb_channels tb' = if b
    then alter (fun ch => mkChannel n (ch_id ch) (ch_hub_id ch) (ch_type ch)) (norm_channel_id c)
           (tb_channels tb)
    else tb_channels tb.

Lemma renameChannel_acts c n : acts (renameChannel c n) (channel_renamed c n).
Proof.
  write_method. apply sql_bind_inr in H as (? & ? & [Hcid ->]%uuid_param_inr & H).
  apply sql_bind_inr in H as (? & ? & (_ & -> & ->)%text_param_inr & H).
  by eapply rename_channel_law.
Qed.

(** A channel of the hub is gone; the answer is whether there was one. *)
Definition channel_deleted (c : ChannelId) (h : HubId) (tb : Tables) (b : bool) (tb' : Tables) : Prop :=
  b = bool_decide (ch_hub_id <$> tb_channels tb !! norm_channel_id c = Some (norm_hub_id h)) /\
  if b
  then tb_channels tb' = delete (norm_channel_id c) (tb_channels tb) /\
    only_hub_changed (norm_hub_id h) tb tb' /\
    tb_hubs tb' !! norm_hub_id h = tb_hubs tb !! norm_hub_id h /\
    members_of tb' (norm_hub_id h) = members_of tb (norm_hub_id h) /\
    order_of tb' (norm_hub_id h) =
      filter (fun c' => c' <> norm_channel_id c) (order_of tb (norm_hub_id h))
  else same_hubs tb tb' /\ tb_channels tb' = tb_channels tb.

Lemma deleteChannel_acts c h : acts (deleteChannel c h) (channel_deleted c h).
Proof.
  write_method. apply sql_bind_inr in H as (? & ? & [Hcid ->]%uuid_param_inr & H).
  apply sql_bind_inr in H as (? & ? & [Hh ->]%uuid_param_inr & H). by eapply delete_channel_law.
Qed.

(** The columns of a hub change by [g] and nothing else does; the answer is
    whether there is such a hub. *)
Definition hub_columns_written (h : HubId) (g : Hub -> Hub) (tb : Tables) (b : bool) (tb' : Tables)
  : Prop :=
  b = bool_decide (is_Some (tb_hubs tb !! norm_hub_id h)) /\
  tb_hubs tb' = alter g (norm_hub_id h) (tb_hubs tb) /\ tb_channels tb' = tb_channels tb /\
  forall h', order_of tb' h' = order_of tb h' /\ members_of tb' h' = members_of tb h'.

Definition with_name (n : string) (hub : Hub) : Hub :=
  mkHub n (hub_id hub) (hub_owner hub) (hub_avatar_seed hub) (hub_members hub).
Definition with_avatar_seed (s : string) (hub : Hub) : Hub :=
  mkHub (hub_name hub) (hub_id hub) (hub_owner hub) s (hub_members hub).

Lemma renameHub_acts h n : acts (renameHub h n) (hub_columns_written h (with_name n)).
Proof.
  write_method. apply sql_bind_inr in H as (? & ? & [Hh ->]%uuid_param_inr & H).
  apply sql_bind_inr in H as (? & ? & (_ & -> & ->)%text_param_inr & H).
  by eapply (update_hub_law h _ (with_name n)); [|done..].
Qed.

Lemma updateHubAvatarSeed_acts h n :
  acts (updateHubAvatarSeed h n) (hub_columns_written h (with_avatar_seed n)).
Proof.
  write_method. apply sql_bind_inr in H as (? & ? & [Hh ->]%uuid_param_inr & H).
  apply sql_bind_inr in H as (? & ? & (_ & -> & ->)%text_param_inr & H).
  by eapply (update_hub_law h _ (with_avatar_seed n)); [|done..].
Qed.

(** A hub of the owner is gone, with its channels and members; the answer is
    whether the hub is the owner's. *)
Definition hub_deleted (h : HubId) (o : UserId) (tb : Tables) (b : bool) (tb' : Tables) : Prop :=
  b = bool_decide (hub_owner <$> tb_hubs tb !! norm_hub_id h = Some (norm_user_id o)) /\
  if b
  then tb_hubs tb' = delete (norm_hub_id h) (tb_hubs tb) /\
    tb_channels tb' = filter (fun c => ch_hub_id c.2 <> norm_hub_id h) (tb_channels tb) /\
    order_of tb' (norm_hub_id h) = [] /\ members_of tb' (norm_hub_id h) = [] /\
    only_hub_changed (norm_hub_id h) tb tb'
  else tb' = tb.

Lemma deleteHub_acts h o : acts (deleteHub h o) (hub_deleted h o).
Proof.
  write_method. apply sql_bind_inr in H as (? & ? & [Hh ->]%uuid_param_inr & H).
  apply sql_bind_inr in H as (? & ? & [Ho ->]%uuid_param_inr & H). by eapply delete_hub_law.
Qed.

(** The roles of a hub change by [f] and nothing else does. *)
Definition roster_written (h : HubId) (f : gmap UserId Role -> gmap UserId Role) (tb : Tables)
  (_ : unit) (tb' : Tables) : Prop :=
  only_hub_changed (norm_hub_id h) tb tb' /\ tb_channels tb' = tb_channels tb /\
  tb_hubs tb' !! norm_hub_id h = tb_hubs tb !! norm_hub_id h /\
  order_of tb' (norm_hub_id h) = order_of tb (norm_hub_id h) /\
  roles_of (members_of tb' (norm_hub_id h)) = f (roles_of (members_of tb (norm_hub_id h))).

Lemma addMember_acts h u r :
  acts (addMember h u (role_to_string r)) (roster_written h <[norm_user_id u := r]>).
Proof.
  write_method. apply sql_bind_inr in H as (? & ? & [Hh ->]%uuid_param_inr & H).
  apply sql_bind_inr in H as (? & ? & [Hu ->]%uuid_param_inr & H).
  apply sql_bind_inr in H as (? & ? & [-> ->]%sql_gets_inr & H). by eapply add_member_law.
Qed.

Lemma removeMember_acts h u : acts (removeMember h u) (roster_written h (delete (norm_user_id u))).
Proof.
  write_method. apply sql_bind_inr in H as (? & ? & [Hh ->]%uuid_param_inr & H).
  apply sql_bind_inr in H as (? & ? & [Hu ->]%uuid_param_inr & H). by eapply remove_member_law.
Qed.

(** ** The laws of the hub repository *)

(** A mutation on the states of the repositories: where every commit's outcome
    is learnt, one that throws has no effect. *)
Lemma acts_writes {A} (m : EX Pg A) Hm (P Q : Tables -> A -> Tables -> Prop) :
  acts m P -> (forall tb a tb', tables_ok tb -> P tb a tb' -> Q tb a tb') ->
  writes store_tables (guarded ids m Hm) Q.
Proof.
  intros (tag & fn & -> & Hk & HP) HQ [p [Hok Hs]]. unfold guarded, store_tables. simpl.
  pose proof (db_write_once tag fn p) as Ht. destruct (db_write tag fn p) as [r p']. simpl.
  destruct r as [a|].
  - destruct Ht as [t Ht]. destruct (start_db_ok ids t _ Hok) as [Hok1 Hc]. apply HQ; [by apply tables_ok_db, Hok|].
    rewrite <- (db_tables_now (now_ (contents p) + 1 + Z.of_nat (elapsed t))%Z (contents p)).
    apply HP; [apply Hok1|done| |done]. by eapply Hk.
  - destruct Ht as [->|(t & [->|[Hn _]])]; [done|apply db_tables_now|done].
Qed.

Lemma hub_columns_law h g tb b tb' :
  hub_columns_written h g tb b tb' ->
  tb_channels tb' = tb_channels tb /\
  if b then only_hub_changed (norm_hub_id h) tb tb' /\ same_roster tb tb' (norm_hub_id h)
  else same_hubs tb tb'.
Proof.
  intros (-> & Hh & Hc & Hs). split; [done|].
  assert (Ho : only_hub_changed (norm_hub_id h) tb tb').
  { intros h' Hne. split; [by rewrite Hh, lookup_alter_ne|apply Hs]. }
  case_bool_decide as Hb.
  - split; [done|]. split; [|apply Hs]. rewrite Hh, lookup_alter_eq, fmap_is_Some. done.
  - intros h'. split; [|apply Hs]. rewrite Hh, alter_id'; [done|]. by apply eq_None_not_Some.
Qed.

Lemma hub_deleted_law h o tb b tb' :
  tables_ok tb -> hub_deleted h o tb b tb' ->
  if b
  then is_Some (tb_hubs tb !! norm_hub_id h) /\ only_hub_changed (norm_hub_id h) tb tb' /\
    forall c, c ∉ order_of tb (norm_hub_id h) -> tb_channels tb' !! c = tb_channels tb !! c
  else same_hubs tb tb' /\ tb_channels tb' = tb_channels tb.
Proof.
  intros Hok [Hb Hw]. destruct b; [|by subst tb']. destruct Hw as (_ & Hc & _ & _ & Ho).
  symmetry in Hb. apply bool_decide_eq_true, fmap_Some in Hb as (hub & Hhub & _).
  split_and!; [by eexists|done|]. intros c Hni. rewrite Hc. apply option_eq. intros ch.
  rewrite map_lookup_filter_Some. split; [naive_solver|]. intros Hch. split; [done|]. simpl. intros Heq.
  apply Hni. rewrite <- Heq. by apply (tk_listed tb Hok).
Qed.

Lemma norm_hub_law (s : t ids) h :
  is_Some (tb_hubs (store_tables s) !! h) -> norm_hub_id h = h.
Proof.
  destruct s as [p [Hok Hs]], h as [h]. unfold store_tables, norm_hub_id. rewrite tb_hubs_lookup. simpl.
  intros [hub (r & Hr & _)%fmap_Some]. f_equal. apply spelled_canonical.
  by apply (ho_row _ (hk_hubs _ (dk_hubs _ _ Hok)) h r).
Qed.

Lemma norm_channel_law (s : t ids) c :
  is_Some (tb_channels (store_tables s) !! c) -> norm_channel_id c = c.
Proof.
  destruct s as [p [Hok Hs]], c as [c]. unfold store_tables, norm_channel_id.
  rewrite tb_channels_lookup. simpl. intros [ch (r & Hr & _)%fmap_Some]. f_equal.
  apply spelled_canonical. by apply (co_row _ (hk_channels _ (dk_hubs _ _ Hok)) c r).
Qed.

Lemma norm_user_law (s : t ids) h u :
  is_Some (roles_of (members_of (store_tables s) h) !! u) -> norm_user_id u = u.
Proof.
  destruct s as [p [Hok Hs]], u as [u]. unfold store_tables, norm_user_id. simpl.
  rewrite members_of_db by apply Hok. intros [r (m & role & Hm & _)%roles_in]. f_equal.
  apply spelled_canonical.
  destruct (mo_row _ (hk_members _ (dk_hubs _ _ Hok)) _ _ _ Hm) as ((pr & Hp & _) & _).
  apply (hk_profiles _ (dk_hubs _ _ Hok)). by exists pr.
Qed.

#[local] Ltac read_by H := eapply answers_reads; [apply H|].
#[local] Ltac write_by H := eapply acts_writes; [apply H|].

#[global] Instance hub_repo_laws : HubRepoLaws (t ids).
Proof.
  refine {| tables := store_tables; norm_hub := norm_hub_id; norm_channel := norm_channel_id;
    HubCoherence.norm_user := norm_user_id;
    law_tables s := tables_ok_db _ (dk_hubs _ _ (proj1 (proj2_sig s)));
    law_norm_hub := norm_hub_law; law_norm_channel := norm_channel_law; law_norm_user := norm_user_law |}.
  - intros. by read_by getHub_answers.
  - intros. read_by getHubsByIds_answers. intros tb a [_ Ha] hub [_ ?]%Ha. done.
  - intros. by read_by getChannel_answers.
  - intros. read_by getChannelsByIds_answers. intros tb a [_ Ha] ch [_ ?]%Ha. done.
  - intros. by read_by getHubChannelsByHubIds_answers.
  - intros. by read_by getHubMemberRoles_answers.
  - intros. by read_by getHubMemberRolesByHubIds_answers.
  - intros. by read_by getHubChannelIds_answers.
  - intros. read_by getUserHubs_answers.
    intros tb a [_ Ha] hub (row & role & Hrow & Hrole & Heq)%Ha. split; [by eexists|].
    exists row. by subst hub.
  - intros. write_by createHub_acts. by intros tb a tb' _ (_ & ?).
  - intros. by write_by createChannel_acts.
  - intros. write_by renameChannel_acts. by intros tb a tb' _ (_ & ?).
  - intros. write_by deleteChannel_acts. by intros tb a tb' _ (_ & ?).
  - intros. write_by renameHub_acts. intros tb a tb' _. apply hub_columns_law.
  - intros. write_by updateHubAvatarSeed_acts. intros tb a tb' _. apply hub_columns_law.
  - intros. write_by deleteHub_acts. apply hub_deleted_law.
  - intros. by write_by addMember_acts.
  - intros. by write_by removeMember_acts.
Defined.

(** ** The laws of the user repository *)

#[local] Instance mkUserId_inj : Inj (=) (=) mkUserId.
Proof. by intros ?? [=]. Qed.

(** The active profiles. *)
Definition db_users (d : Db) : gmap UserId User :=
  kmap mkUserId (map_imap (fun id p =>
    if p_deleted_at p then None else Some (parse_user_row (id, p))) (profiles d)).
Definition store_users (s : t ids) : gmap UserId User := db_users (contents (`s)).

Lemma db_users_lookup d u :
  db_users d !! u = (fun p => parse_user_row (user_value u, p)) <$> active_profile (user_value u) d.
Proof.
  destruct u as [u]. unfold db_users, active_profile. rewrite lookup_kmap by apply _.
  rewrite map_lookup_imap. simpl. destruct (profiles d !! u) as [p|]; simpl; [|done].
  by destruct (p_deleted_at p).
Qed.

Lemma users_law (s : t ids) u user :
  store_users s !! u = Some user -> us_id user = u /\ norm_user_id u = u.
Proof.
  destruct s as [p [Hok Hs]], u as [u]. unfold store_users. rewrite db_users_lookup. simpl.
  intros (r & Hr & ->)%fmap_Some. split; [done|]. unfold norm_user_id. f_equal.
  apply spelled_canonical, (hk_profiles _ (dk_hubs _ _ Hok)). unfold active_profile in Hr.
  destruct (profiles (contents p) !! u); [by eexists|done].
Qed.

(** The active profiles after a query. *)
Lemma user_read {A} tag (fn : SQL A) Hm (s : t ids) (P : gmap UserId User -> A -> Prop) :
  read_only fn ->
  (forall d a d', db_ok ids d -> fn d = inr (a, d') -> P (db_users d) a) ->
  let r := guarded ids (db_read tag fn) Hm s in
  store_users r.2 = store_users s /\
  match r.1 with Some a => P (store_users s) a | None => True end.
Proof.
  intros Hr HP. destruct s as [p [Hok Hs]]. unfold guarded, store_users, db_read. simpl.
  pose proof (transaction_settled true tag fn p Hs) as Ht.
  destruct (transaction true tag fn p) as [r p']. simpl. destruct Ht as [_ Ht]. destruct r as [a|].
  - destruct Ht as [t Ht]. rewrite (Hr _ _ _ Ht) in Ht |- *. split; [done|].
    apply (HP (start t (contents p)) a (start t (contents p))); [|done]. by apply start_db_ok.
  - by destruct Ht as [->|[t ->]].
Qed.

Lemma getUser_law u (s : t ids) :
  store_users (repo_getUser u s).2 = store_users s /\
  match (repo_getUser u s).1 with Some r => r = store_users s !! norm_user_id u | None => True end.
Proof.
  apply (user_read _ _ _ s (fun us r => r = us !! norm_user_id u)); [auto with sql|].
  intros d a d' Hok H. sql_inv. rewrite db_users_lookup. unfold norm_user_id. simpl.
  match goal with H : uuid_in _ = Some _ |- _ => by rewrite (spelled_in _ _ H) end.
Qed.

Lemma getUsersByIds_law us (s : t ids) :
  store_users (repo_getUsersByIds us s).2 = store_users s /\
  match (repo_getUsersByIds us s).1 with
  | Some r => forall user, user ∈ r <->
      exists u, u ∈ us /\ store_users s !! norm_user_id u = Some user
  | None => True
  end.
Proof.
  unfold repo_getUsersByIds, user_repo. generalize (getUsersByIds_kept ids us).
  unfold getUsersByIds. case_bool_decide as Hus; intros Hk.
  { simpl. split; [by destruct s|]. subst us. intros user. split; [by intros ?%not_elem_of_nil|].
    by intros (u & ?%not_elem_of_nil & _). }
  apply (user_read _ _ _ s (fun users r => forall user, user ∈ r <->
    exists u, u ∈ us /\ users !! norm_user_id u = Some user)); [auto with sql|].
  clear Hk. intros d a d' Hok H user.
  apply sql_bind_inr in H as (vs & d1 & [-> Hvs]%uuid_params_inr & [-> _]%sql_gets_inr).
  rewrite list_elem_of_fmap. setoid_rewrite db_users_lookup. unfold norm_user_id, active_profile. split.
  - intros ([k r] & -> & [Hk Hb]%elem_of_select).
    apply andb_prop in Hb as [Hin%bool_decide_eq_true Hd%bool_decide_eq_true].
    apply list_elem_of_lookup in Hin as [i Hi].
    destruct (Forall2_lookup_r _ _ _ _ _ Hvs Hi) as (v & Hv & Hu).
    rewrite list_lookup_fmap in Hv. apply fmap_Some in Hv as (u & Hu' & ->).
    exists u. split; [by apply list_elem_of_lookup; exists i|]. rewrite (spelled_in _ _ Hu). simpl.
    rewrite Hk. simpl. by rewrite Hd.
  - intros (u & Hin & Hu). apply list_elem_of_lookup in Hin as [i Hi].
    destruct (Forall2_lookup_l _ _ _ i (user_value u) Hvs) as (v & Hv & Huv).
    { by rewrite list_lookup_fmap, Hi. }
    rewrite (spelled_in _ _ Huv) in Hu. simpl in Hu. apply fmap_Some in Hu as (r & Hr & ->).
    destruct (profiles d !! v) as [r'|] eqn:E; simpl in Hr; [|done].
    destruct (p_deleted_at r') eqn:Ed; [done|]. injection Hr as ->. exists (v, r). split; [done|].
    apply elem_of_select. split; [done|]. rewrite !bool_decide_true; [done..|].
    apply list_elem_of_lookup. by exists i.
Qed.

Lemma update_profile_law u n dn a id d NEW d' :
  uuid_in (user_value u) = Some id -> update_profile id n dn a d = inr (Some NEW, d') ->
  exists old, db_users d !! norm_user_id u = Some old /\
    db_users d' = <[norm_user_id u := parse_user_row (id, NEW)]> (db_users d) /\
    parse_user_row (id, NEW) = mkUser (us_id old) (default (us_username old) n)
      (default (us_display_name old) dn) (default (us_avatar_seed old) a) (us_prefs old).
Proof.
  intros Hu (OLD & HOLD & Hdel & HNEW & (-> & _)%put_profile_inr)%update_profile_inr.
  exists (parse_user_row (id, OLD)). unfold norm_user_id. rewrite (spelled_in _ _ Hu). split_and!.
  - rewrite db_users_lookup. simpl. unfold active_profile. rewrite HOLD. simpl. by rewrite Hdel.
  - apply map_eq. intros [k]. rewrite db_users_lookup. unfold active_profile. simpl.
    destruct (decide (id = k)) as [<-|Hne].
    + rewrite !lookup_insert_eq. simpl. by subst NEW.
    + rewrite !lookup_insert_ne by congruence. by rewrite db_users_lookup.
  - by subst NEW.
Qed.

Lemma updateUserProfile_law u n dn a (s : t ids) :
  match repo_updateUserProfile u n dn a s with
  | (Some user, s') => exists old, store_users s !! norm_user_id u = Some old /\
      store_users s' = <[norm_user_id u := user]> (store_users s) /\
      user = mkUser (us_id old) (default (us_username old) n) (default (us_display_name old) dn)
               (default (us_avatar_seed old) a) (us_prefs old)
  | (None, s') => store_users s' = store_users s
  end.
Proof.
  destruct (decide (n = None /\ dn = None /\ a = None)) as [(-> & -> & ->)|Hsome].
  - pose proof (getUser_law u s) as [Hs Hr]. pose proof (users_law s (norm_user_id u)) as Hid.
    unfold repo_getUser, repo_updateUserProfile, user_repo, guarded, store_users in *. simpl in *.
    unfold ex_bind. destruct (getUser u (`s)) as [[[user|]|] p']; simpl in *; try done.
    exists user. split; [done|]. split; [|by destruct user].
    by rewrite insert_id, Hs.
  - destruct s as [p [Hok Hs]]. unfold repo_updateUserProfile, user_repo, guarded, store_users. simpl.
    assert (Hup : updateUserProfile u n dn a p =
      db_write "UserRepository.updateUserProfile" (update_user_row u n dn a) p).
    { unfold updateUserProfile. destruct n, dn, a; try done. by destruct Hsome. }
    rewrite Hup. unfold db_write.
    pose proof (transaction_settled false "UserRepository.updateUserProfile"
      (update_user_row u n dn a) p Hs) as Ht.
    destruct (transaction false _ (update_user_row u n dn a) p) as [r p'].
    destruct Ht as [_ Ht]. destruct r as [user|]; simpl; [|by destruct Ht as [->|[t ->]]].
    destruct Ht as [t H]. apply sql_bind_inr in H as (id & ? & [Hu ->]%uuid_param_inr & H).
    apply sql_bind_inr in H as (? & ? & [-> ->]%nullable_inr & H).
    apply sql_bind_inr in H as (? & ? & [-> ->]%nullable_inr & H).
    apply sql_bind_inr in H as (? & ? & [-> ->]%nullable_inr & H).
    apply sql_bind_inr in H as ([NEW|] & ? & H & H'); [|done]. apply sql_ret_inr in H' as [-> ->].
    by apply (update_profile_law u) in H.
Qed.

#[global] Instance user_repo_laws : UserService.UserRepoLaws (t ids) := {|
  UserService.users := store_users; UserService.norm_user := norm_user_id; UserService.law_user_id := users_law;
  UserService.law_getUser := getUser_law; UserService.law_getUsersByIds := getUsersByIds_law;
  UserService.law_updateUserProfile := updateUserProfile_law
|}.

End Laws.

End StoreLaws.
