(* ===== verification/SqlContract.v ===== *)
(** * The repositories against an abstract table

    Every method of the repositories as a value of [call], what it may do to
    the abstract tables of [HubCoherence.v] as [effect], and the simulation:
    the SQL refines the tables, call by call, whatever the connection does. *)

From S2P Require Import Prelude.
From S2P Require Import CStrings.
From S2P Require Import Ids.
From S2P Require Import Protocol.
From S2P Require Import Transactions.
From S2P Require Import External.
From S2P Require Import HubService.
From S2P Require Import HubCoherence.
From S2P Require Import ServerEvents.
From S2P Require Import UserService.
From S2P Require Import Sql.
From S2P Require Import Database.
From S2P Require Import HubTables.
From S2P Require Import HubInvariants.
From S2P Require Import HubRepository.
From S2P Require Import HubRefinement.
From S2P Require Import MessageRepository.
From S2P Require Import MessageInvariants.
From S2P Require Import UserRepository.
From S2P Require Import Store.
From S2P Require Import SqlDemo.
From S2P Require Import StoreLaws.

Module SqlContract.
Import HubService HubCoherence Sql Database HubTables HubInvariants HubRepository HubRefinement
  MessageRepository MessageInvariants UserRepository Store StoreLaws.

(** ** Calls *)

Inductive call : Type -> Type :=
  | CreateHub (n : string) (o : UserId) : call Hub
  | AddMember (h : HubId) (u : UserId) (r : Role) : call unit
  | RemoveMember (h : HubId) (u : UserId) : call unit
  | GetUserHubs (u : UserId) : call (list Hub)
  | GetHubsByIds (hs : list HubId) : call (list Hub)
  | GetHub (h : HubId) : call (option Hub)
  | GetHubWithMembers (h : HubId) : call (option Hub)
  | IsHubMember (h : HubId) (u : UserId) : call bool
  | GetMembershipRole (h : HubId) (u : UserId) : call (option Role)
  | GetHubMemberRoles (h : HubId) : call (list MemberRole)
  | GetHubMemberRolesByHubIds (hs : list HubId) : call (gmap HubId (list MemberRole))
  | RenameHub (h : HubId) (n : string) : call bool
  | UpdateHubAvatarSeed (h : HubId) (s : string) : call bool
  | DeleteHub (h : HubId) (o : UserId) : call bool
  | GetChannel (c : ChannelId) : call (option Channel)
  | GetChannelsByIds (cs : list ChannelId) : call (list Channel)
  | GetHubChannels (h : HubId) : call (list Channel)
  | GetHubChannelsByHubIds (hs : list HubId) : call (gmap HubId (list Channel))
  | GetHubChannelIds (h : HubId) : call (list ChannelId)
  | GetHubChannelIdsByHubIds (hs : list HubId) : call (gmap HubId (list ChannelId))
  | CreateChannel (h : HubId) (n ty : string) (u : UserId) : call ChannelId
  | RenameChannel (c : ChannelId) (n : string) : call bool
  | DeleteChannel (c : ChannelId) (h : HubId) : call bool
  | GetUserDisplayName (u : UserId) : call (option string)
  | GetUser (u : UserId) : call (option User)
  | GetUsersByIds (us : list UserId) : call (list User)
  | UpdateUserProfile (u : UserId) (n dn s : option string) : call User
  | SendMessage (c : ChannelId) (u : UserId) (text : string) (ats : list Domain.MessageAttachment)
      (lp : option Domain.MessageLinkPreview) : call Domain.Message
  | InsertMessage (m : Domain.Message) : call bool
  | FetchMessages (c : ChannelId) (n : Z) : call (list Domain.Message)
  | FetchMessagesAfter (c : ChannelId) (m : Domain.MessageCursor) (n : Z) : call (list Domain.Message)
  | FetchMessagesBefore (c : ChannelId) (m : Domain.MessageCursor) (n : Z) : call (list Domain.Message)
  | FetchMessagesPage (c : ChannelId) (a b : option Domain.MessageCursor) (n : Z)
    : call (list Domain.Message).

Section Contract.
Context `{PG : Postgres} `{JL : JsonLib}.

Definition run_call {A} (c : call A) : EX Pg A :=
  match c in call A return EX Pg A with
  | CreateHub n o => createHub n o
  | AddMember h u r => addMember h u (role_to_string r)
  | RemoveMember h u => removeMember h u
  | GetUserHubs u => getUserHubs u
  | GetHubsByIds hs => getHubsByIds hs
  | GetHub h => getHub h
  | GetHubWithMembers h => getHubWithMembers h
  | IsHubMember h u => isHubMember h u
  | GetMembershipRole h u => getMembershipRole h u
  | GetHubMemberRoles h => getHubMemberRoles h
  | GetHubMemberRolesByHubIds hs => getHubMemberRolesByHubIds hs
  | RenameHub h n => renameHub h n
  | UpdateHubAvatarSeed h s => updateHubAvatarSeed h s
  | DeleteHub h o => deleteHub h o
  | GetChannel c => getChannel c
  | GetChannelsByIds cs => getChannelsByIds cs
  | GetHubChannels h => getHubChannels h
  | GetHubChannelsByHubIds hs => getHubChannelsByHubIds hs
  | GetHubChannelIds h => getHubChannelIds h
  | GetHubChannelIdsByHubIds hs => getHubChannelIdsByHubIds hs
  | CreateChannel h n ty u => createChannel h n ty u
  | RenameChannel c n => renameChannel c n
  | DeleteChannel c h => deleteChannel c h
  | GetUserDisplayName u => getUserDisplayName u
  | GetUser u => getUser u
  | GetUsersByIds us => getUsersByIds us
  | UpdateUserProfile u n dn s => updateUserProfile u n dn s
  | SendMessage c u text ats lp => sendMessage c u text ats lp
  | InsertMessage m => insertMessage m
  | FetchMessages c n => fetchMessages c n
  | FetchMessagesAfter c m n => fetchMessagesAfter c m n
  | FetchMessagesBefore c m n => fetchMessagesBefore c m n
  | FetchMessagesPage c a b n => fetchMessagesPage c a b n
  end.

(** ** What a call does to the tables *)

(** A query: it answers [P] and changes nothing. *)
Definition asks {A} (P : Tables -> A -> Prop) (tb : Tables) (a : A) (tb' : Tables) : Prop :=
  tb' = tb /\ P tb a.

Definition channels_of (tb : Tables) (h : HubId) : list Channel :=
  omap (fun c => tb_channels tb !! c) (order_of tb h).

Definition effect {A} (c : call A) : Tables -> A -> Tables -> Prop :=
  match c in call A return Tables -> A -> Tables -> Prop with
  | CreateHub n o => hub_created n o
  | AddMember h u r => roster_written h <[norm_user_id u := r]>
  | RemoveMember h u => roster_written h (delete (norm_user_id u))
  | GetUserHubs u => asks (user_hubs_listed u)
  | GetHubsByIds hs => asks (fun tb => rows_listed hub_id (tb_hubs tb) (norm_hub_id <$> hs))
  | GetHub h => asks (fun tb r => r = tb_hubs tb !! norm_hub_id h)
  | GetHubWithMembers h => asks (fun tb r =>
      r = (fun hub => mkHub (hub_name hub) (hub_id hub) (hub_owner hub) (hub_avatar_seed hub)
             (roles_of (members_of tb (norm_hub_id h)) ∪ hub_members hub)) <$>
          tb_hubs tb !! norm_hub_id h)
  | IsHubMember h u => asks (fun tb b =>
      b = bool_decide (is_Some (roles_of (members_of tb (norm_hub_id h)) !! norm_user_id u)))
  | GetMembershipRole h u => asks (fun tb r =>
      r = roles_of (members_of tb (norm_hub_id h)) !! norm_user_id u)
  | GetHubMemberRoles h => asks (fun tb r => r = members_of tb (norm_hub_id h))
  | GetHubMemberRolesByHubIds hs => asks (fun tb r =>
      forall h, h ∈ hs -> norm_hub_id h = h -> default [] (r !! h) = members_of tb h)
  | RenameHub h n => hub_columns_written h (with_name n)
  | UpdateHubAvatarSeed h s => hub_columns_written h (with_avatar_seed s)
  | DeleteHub h o => hub_deleted h o
  | GetChannel c => asks (fun tb r => r = tb_channels tb !! norm_channel_id c)
  | GetChannelsByIds cs => asks (fun tb => rows_listed ch_id (tb_channels tb) (norm_channel_id <$> cs))
  | GetHubChannels h => asks (fun tb r => r = channels_of tb (norm_hub_id h))
  | GetHubChannelsByHubIds hs => asks (fun tb r =>
      forall h, h ∈ hs -> norm_hub_id h = h -> default [] (r !! h) = channels_of tb h)
  | GetHubChannelIds h => asks (fun tb r => r = order_of tb (norm_hub_id h))
  | GetHubChannelIdsByHubIds hs => asks (fun tb r =>
      forall h, h ∈ hs -> norm_hub_id h = h -> default [] (r !! h) = order_of tb h)
  | CreateChannel h n ty u => channel_created h n ty
  | RenameChannel c n => channel_renamed c n
  | DeleteChannel c h => channel_deleted c h
  (** profiles and messages are not in the tables *)
  | GetUserDisplayName _ | GetUser _ | GetUsersByIds _ | UpdateUserProfile _ _ _ _
  | SendMessage _ _ _ _ _ | InsertMessage _ | FetchMessages _ _ | FetchMessagesAfter _ _ _
  | FetchMessagesBefore _ _ _ | FetchMessagesPage _ _ _ _ => asks (fun _ _ => True)
  end.

(** A call that throws changes nothing, unless a commit took effect whose
    outcome the caller did not learn ([doubt]). *)
Definition spec_step {A} (P : Tables -> A -> Tables -> Prop) (doubt : Prop) (tb : Tables) (r : option A)
  (tb' : Tables) : Prop :=
  match r with
  | Some a => P tb a tb'
  | None => tb' = tb \/ doubt /\ exists a, P tb a tb'
  end.

(** The queries of the hub repository and its deletions, on ids that are
    uuids: no constraint or trigger refuses them. *)
Definition uuids (ss : list string) : Prop := Forall (fun s => is_Some (uuid_in s)) ss.
Definition unconditional {A} (c : call A) : Prop :=
  match c with
  | GetUserHubs u => uuids [user_value u]
  | GetHubsByIds hs | GetHubMemberRolesByHubIds hs | GetHubChannelsByHubIds hs
  | GetHubChannelIdsByHubIds hs => uuids (hub_value <$> hs)
  | GetHub h | GetHubWithMembers h | GetHubMemberRoles h | GetHubChannels h | GetHubChannelIds h =>
    uuids [hub_value h]
  | IsHubMember h u | GetMembershipRole h u | RemoveMember h u | DeleteHub h u =>
    uuids [hub_value h; user_value u]
  | GetChannel c => uuids [channel_value c]
  | GetChannelsByIds cs => uuids (channel_value <$> cs)
  | DeleteChannel c h => uuids [channel_value c; hub_value h]
  | _ => False
  end.

(** ** The simulation *)

Variable ids : gset uuid.
#[local] Opaque db_tables.

Definition simulates {A} (m : EX Pg A) (P : Tables -> A -> Tables -> Prop) : Prop :=
  forall p, db_ok ids (contents p) ->
  let '(r, p') := m p in
  db_ok ids (contents p') /\
  spec_step P (~ settled_turns p) (db_tables (contents p)) r (db_tables (contents p')).

Lemma simulates_acts {A} (m : EX Pg A) P : acts ids m P -> simulates m P.
Proof.
  intros (tag & fn & -> & Hk & HP) p Hok. pose proof (db_write_once tag fn p) as Ht.
  assert (Hrun : forall t a d', fn (start t (contents p)) = inr (a, d') ->
    db_ok ids d' /\ P (db_tables (contents p)) a (db_tables d')).
  { intros t a d' Hfn. destruct (start_db_ok ids t _ Hok) as [Hok1 Hc].
    assert (Hok' : db_ok ids d') by (by eapply Hk). split; [done|].
    rewrite <- (db_tables_now (now_ (contents p) + 1 + Z.of_nat (elapsed t))%Z (contents p)).
    apply HP; [apply Hok1|done|apply Hok'|done]. }
  destruct (db_write tag fn p) as [[a|] p'].
  - destruct Ht as [t Ht]. by eapply Hrun.
  - destruct Ht as [->|(t & [->|[Hn (a & Ha)]])]; [by split; [|left]|..].
    + split; [by apply start_db_ok|]. left. apply db_tables_now.
    + destruct (Hrun _ _ _ Ha). split; [done|]. right. eauto.
Qed.

Lemma simulates_answers {A} (m : EX Pg A) P : answers m P -> simulates m (asks P).
Proof.
  intros [(a & -> & HP)|(tag & fn & -> & Hr & HP)] p Hok; [by split_and!|].
  pose proof (db_read_same tag fn p Hr) as Ht.
  destruct (db_read tag fn p) as [[a|] p'].
  - destruct Ht as (t & -> & Ht). destruct (start_db_ok ids t _ Hok) as [Hok1 _]. split; [done|].
    split; [apply db_tables_now|].
    rewrite <- (db_tables_now (now_ (contents p) + 1 + Z.of_nat (elapsed t))%Z (contents p)).
    eapply HP; [apply Hok1|done].
  - destruct Ht as [->|[t ->]]; [by split; [|left]|]. split; [by apply start_db_ok|].
    left. apply db_tables_now.
Qed.

(** A query by the statement it runs. *)
Lemma simulates_query {A} tag (fn : SQL A) P :
  read_only fn -> (forall d a d', hubs_ok d -> fn d = inr (a, d') -> P (db_tables d) a) ->
  simulates (db_read tag fn) (asks P).
Proof. intros Hr HP. by apply simulates_answers, answers_read. Qed.

Lemma simulates_step {A} tag (fn : SQL A) :
  (forall d a d', fn d = inr (a, d') -> message_step d d') ->
  simulates (db_write tag fn) (asks (fun _ _ => True)).
Proof.
  intros Hfn. apply simulates_acts, acts_write.
  - intros d a d' Hok _ Hs%Hfn. by eapply message_step_ok.
  - intros d a d' _ _ _ [Hp Hr Hh Hm Hc Hn Hd _]%Hfn. split; [|done]. by apply db_tables_frame.
Qed.

(** Setting the members' roles one by one. *)
Lemma set_member_roles d rows hub :
  (forall k m, (k, m) ∈ rows -> is_Some (hub_roles d !! hm_role_id m)) ->
  foldl (fun hub (row : (uuid * uuid) * member_row) =>
      setMemberRole (mkUserId row.1.2)
        (role_from_string (default "member"%string (r_name <$> hub_roles d !! hm_role_id row.2))) hub)
    hub rows =
  mkHub (hub_name hub) (hub_id hub) (hub_owner hub) (hub_avatar_seed hub)
    (roles_of (member_role <$> join_roles d rows) ∪ hub_members hub).
Proof.
  unfold roles_of. intros Hall.
  assert (Hu : forall (l : list MemberRole) (m : gmap UserId Role),
    foldl (fun m (mr : MemberRole) => <[mr.1 := mr.2]> m) m l =
    foldl (fun m (mr : MemberRole) => <[mr.1 := mr.2]> m) ∅ l ∪ m).
  { intros l. induction l as [|[u r] l IH] using rev_ind; intros m; [symmetry; apply map_empty_union|].
    rewrite !foldl_app. simpl. rewrite IH. by rewrite insert_union_l. }
  rewrite <- Hu. unfold join_roles. revert hub.
  induction rows as [|[[k u] m] rows IH]; intros hub; [by destruct hub|].
  destruct (Hall (k, u) m ltac:(by left)) as [role Hrole]. csimpl. rewrite Hrole. csimpl.
  rewrite IH; [done|]. intros k' m' Hin. apply (Hall k'). by right.
Qed.

Lemma getHubWithMembers_sim h :
  simulates (getHubWithMembers h) (effect (GetHubWithMembers h)).
Proof.
  apply simulates_query; [auto with sql|]. intros d a d' Hok H.
  apply sql_bind_inr in H as (id & ? & [Hid ->]%uuid_param_inr & [-> _]%sql_gets_inr).
  rewrite tb_hubs_lookup, members_of_db by done. unfold norm_hub_id. simpl.
  rewrite (spelled_in _ _ Hid). destruct (hubs d !! id) as [hub|]; simpl; [|done]. f_equal.
  apply (set_member_roles d _ (parse_hub_row (id, hub))).
  intros [k u] m [Hm _]%elem_of_order_by%elem_of_select.
  by destruct (mo_row d (hk_members d Hok) _ _ _ Hm) as (_ & ? & _).
Qed.

(** The role of a member, in the rows. *)
Lemma role_in_rows h u d :
  roles_of (members_in h d) !! mkUserId u =
  (m ← memberships d !! (h, u); r ← hub_roles d !! hm_role_id m; Some (role_from_string (r_name r))).
Proof.
  apply option_eq. intros r. rewrite roles_in.
  destruct (memberships d !! (h, u)) as [m|]; simpl; [|naive_solver].
  destruct (hub_roles d !! hm_role_id m) as [role|] eqn:E; simpl; naive_solver.
Qed.

Lemma isHubMember_sim h u : simulates (isHubMember h u) (effect (IsHubMember h u)).
Proof.
  apply simulates_query; [auto with sql|]. intros d a d' Hok H.
  apply sql_bind_inr in H as (hub & ? & [Hh ->]%uuid_param_inr & H).
  apply sql_bind_inr in H as (user & ? & [Hu ->]%uuid_param_inr & [-> _]%sql_gets_inr).
  rewrite members_of_db by done. unfold norm_hub_id, norm_user_id. simpl.
  rewrite (spelled_in _ _ Hh), (spelled_in _ _ Hu), role_in_rows. apply bool_decide_ext.
  destruct (memberships d !! (hub, user)) as [m|] eqn:E; simpl; [|done].
  destruct (mo_row d (hk_members d Hok) _ _ _ E) as (_ & [role ->] & _). simpl. split; eauto.
Qed.

Lemma getMembershipRole_sim h u : simulates (getMembershipRole h u) (effect (GetMembershipRole h u)).
Proof.
  apply simulates_query; [auto with sql|]. intros d a d' Hok H.
  apply sql_bind_inr in H as (hub & ? & [Hh ->]%uuid_param_inr & H).
  apply sql_bind_inr in H as (user & ? & [Hu ->]%uuid_param_inr & [-> _]%sql_gets_inr).
  rewrite members_of_db by done. unfold norm_hub_id, norm_user_id. simpl.
  by rewrite (spelled_in _ _ Hh), (spelled_in _ _ Hu), role_in_rows.
Qed.

Lemma getHubChannels_sim h : simulates (getHubChannels h) (effect (GetHubChannels h)).
Proof.
  apply simulates_query; [auto with sql|]. intros d a d' Hok H.
  apply sql_bind_inr in H as (hub & ? & [Hh ->]%uuid_param_inr & [-> _]%sql_gets_inr).
  unfold channels_of. rewrite order_of_db by done. unfold norm_hub_id. simpl.
  by rewrite (spelled_in _ _ Hh), omap_channels_in.
Qed.

Lemma getHubChannelIdsByHubIds_sim hs :
  simulates (getHubChannelIdsByHubIds hs) (effect (GetHubChannelIdsByHubIds hs)).
Proof.
  unfold getHubChannelIdsByHubIds. case_bool_decide as Hhs.
  { subst hs. intros p Hp. split; [done|]. split; [done|]. by intros h ?%not_elem_of_nil. }
  apply simulates_query; [auto with sql|]. intros d a d' Hok H h Hin Hn.
  apply sql_bind_inr in H as (us & ? & [-> Hus]%uuid_params_inr & [-> _]%sql_gets_inr).
  rewrite group_by_lookup, order_of_db by done. unfold channel_ids_in. f_equal.
  rewrite <- (channels_of_hubs_filter us) by (by eapply requested || apply Hok).
  apply list_filter_iff. intros [k c]. destruct h as [h]. simpl. split; [by intros [=]|by intros ->].
Qed.

(** Profiles and messages are not in the tables. *)
Lemma asks_nothing {A} tag (fn : SQL A) :
  read_only fn -> simulates (db_read tag fn) (asks (fun _ _ => True)).
Proof. intros Hr. by apply simulates_query. Qed.

Lemma updateUserProfile_sim u n dn s :
  simulates (updateUserProfile u n dn s) (asks (fun _ _ => True)).
Proof.
  assert (Hw : simulates (db_write "UserRepository.updateUserProfile" (update_user_row u n dn s))
    (asks (fun _ _ => True))).
  { assert (Hk : keeps ids (update_user_row u n dn s)).
    { do 4 (apply keeps_bind_l; [by auto with sql|intros ?]).
      apply keeps_bind_r; [by auto with sql|]. intros [p|]; auto with sql. }
    apply simulates_acts, acts_write; [done|].
    intros d a d' _ _ _ H. split; [|done].
    apply sql_bind_inr in H as (? & ? & [_ ->]%uuid_param_inr & H).
    do 3 (apply sql_bind_inr in H as (? & ? & [-> ->]%nullable_inr & H)).
    apply sql_bind_inr in H as ([NEW|] & ? & H & H'); [|done]. apply sql_ret_inr in H' as [_ ->].
    apply update_profile_inr in H as (OLD & _ & _ & _ & (-> & _)%put_profile_inr).
    by apply db_tables_frame. }
  unfold updateUserProfile. destruct n, dn, s; try apply Hw.
  assert (Hg : simulates (getUser u) (asks (fun _ _ => True))) by (apply asks_nothing; auto with sql).
  intros p Hp. specialize (Hg p Hp). unfold ex_bind.
  destruct (getUser u p) as [[[user|]|] p']; simpl in *; destruct Hg as [Hok Hg]; split; try done.
  - destruct Hg. by left.
  - left. by destruct Hg as [|[_ (? & ? & _)]].
Qed.

Lemma getUsersByIds_sim us : simulates (getUsersByIds us) (asks (fun _ _ => True)).
Proof.
  unfold getUsersByIds. case_bool_decide; [by intros p Hp; split_and!|]. apply asks_nothing. auto with sql.
Qed.

Lemma fetchMessagesPage_sim c a b n : simulates (fetchMessagesPage c a b n) (asks (fun _ _ => True)).
Proof. apply asks_nothing. destruct a, b; auto with sql. Qed.

(** Every call is simulated by the tables. *)
Lemma call_simulates {A} (c : call A) : simulates (run_call c) (effect c).
Proof.
  destruct c; simpl.
  - apply simulates_acts, createHub_acts.
  - apply simulates_acts, addMember_acts.
  - apply simulates_acts, removeMember_acts.
  - apply simulates_answers, getUserHubs_answers.
  - apply simulates_answers, getHubsByIds_answers.
  - apply simulates_answers, getHub_answers.
  - apply getHubWithMembers_sim.
  - apply isHubMember_sim.
  - apply getMembershipRole_sim.
  - apply simulates_answers, getHubMemberRoles_answers.
  - apply simulates_answers, getHubMemberRolesByHubIds_answers.
  - apply simulates_acts, renameHub_acts.
  - apply simulates_acts, updateHubAvatarSeed_acts.
  - apply simulates_acts, deleteHub_acts.
  - apply simulates_answers, getChannel_answers.
  - apply simulates_answers, getChannelsByIds_answers.
  - apply getHubChannels_sim.
  - apply simulates_answers, getHubChannelsByHubIds_answers.
  - apply simulates_answers, getHubChannelIds_answers.
  - apply getHubChannelIdsByHubIds_sim.
  - apply simulates_acts, createChannel_acts.
  - apply simulates_acts, renameChannel_acts.
  - apply simulates_acts, deleteChannel_acts.
  - apply asks_nothing. auto with sql.
  - apply asks_nothing. auto with sql.
  - apply getUsersByIds_sim.
  - apply updateUserProfile_sim.
  - apply simulates_step. intros d a d'. apply sendMessage_step.
  - apply simulates_step. intros d a d' Hs. by apply insertMessage_step in Hs as [_ ?].
  - apply asks_nothing. auto with sql.
  - apply asks_nothing. auto with sql.
  - apply asks_nothing. auto with sql.
  - apply fetchMessagesPage_sim.
Qed.

(** *** Calls that return *)

Definition returns {A} (fn : SQL A) : Prop := forall d, exists a d', fn d = inr (a, d').

Lemma returns_bind {A B} (m : SQL A) (k : A -> SQL B) :
  returns m -> (forall a, returns (k a)) -> returns (sql_bind m k).
Proof.
  intros Hm Hk d. destruct (Hm d) as (a & d1 & Ha). destruct (Hk a d1) as (b & d2 & Hb).
  exists b, d2. unfold sql_bind. by rewrite Ha.
Qed.
Lemma returns_ret {A} (a : A) : returns (sql_ret a).
Proof. intros d. by eexists _, _. Qed.
Lemma returns_gets {A} (f : Db -> A) : returns (sql_gets f).
Proof. intros d. by eexists _, _. Qed.
Lemma returns_modify f : returns (sql_modify f).
Proof. intros d. by eexists _, _. Qed.
Lemma returns_uuid s : is_Some (uuid_in s) -> returns (uuid_param s).
Proof. intros [u Hu] d. unfold uuid_param. rewrite Hu. by eexists _, _. Qed.
Lemma returns_uuids ss : uuids ss -> returns (uuid_params ss).
Proof.
  induction 1 as [|s ss Hs Hss IH]; [apply returns_ret|].
  apply returns_bind; [by apply returns_uuid|]. intros u. apply returns_bind; [done|].
  intros us. apply returns_ret.
Qed.
Lemma returns_delete_hub id o : returns (delete_hub id o).
Proof.
  apply returns_bind; [apply returns_gets|]. intros table. case_match; [case_match|]; try apply returns_ret.
  apply returns_bind; [apply returns_modify|]. intros _. apply returns_ret.
Qed.
Lemma returns_delete_channel id h : returns (delete_channel id h).
Proof.
  apply returns_bind; [apply returns_gets|]. intros table. case_match; [case_match|]; try apply returns_ret.
  apply returns_bind; [apply returns_modify|]. intros _. apply returns_ret.
Qed.

Lemma transaction_returns {A} idem tag (fn : SQL A) p t ts :
  turns p = t :: ts -> healthy t -> returns fn -> (transaction idem tag fn p).1 <> None.
Proof.
  intros Ht Hh Hr. rewrite (transaction_healthy idem tag fn p t ts Ht Hh).
  by destruct (Hr (start t (contents p))) as (a & d' & ->).
Qed.

#[local] Ltac returns_method :=
  eapply transaction_returns; [eassumption..|];
  repeat first [apply returns_delete_hub | apply returns_delete_channel
    | apply returns_bind; [|intros ?] | apply returns_gets | apply returns_modify | apply returns_ret
    | apply returns_uuid; assumption | apply returns_uuids; assumption].

Lemma call_returns {A} (c : call A) p t ts :
  turns p = t :: ts -> healthy t -> unconditional c -> (run_call c p).1 <> None.
Proof.
  intros Ht Hh. destruct c; simpl; try done; intros Hu;
    try (apply Forall_cons_1 in Hu as [Hu Hu']); try (apply Forall_cons_1 in Hu' as [Hu' _]);
    try (unfold getHubsByIds, getHubMemberRolesByHubIds, getChannelsByIds, getHubChannelsByHubIds,
           getHubChannelIdsByHubIds; case_bool_decide; [done|]);
    returns_method.
Qed.

(** ** Runs *)

(** One call of any of the repositories. *)
Definition pg_step (p p' : Pg) : Prop := exists A (c : call A), (run_call c p).2 = p'.

Lemma pg_step_ok p p' : db_ok ids (contents p) -> pg_step p p' -> db_ok ids (contents p').
Proof.
  intros Hp (A & c & <-). pose proof (call_simulates c p Hp) as H.
  by destruct (run_call c p), H.
Qed.

Lemma pg_steps_ok p p' : db_ok ids (contents p) -> rtc pg_step p p' -> db_ok ids (contents p').
Proof. intros Hp Hs. revert Hp. induction Hs; eauto using pg_step_ok. Qed.

(** C9: the hub repository's SQL refines the abstract hub tables.  The calls
    run one after another, each as one transaction; what happens to its
    connection is any script: dropped before the commit and retried, dropped
    in the commit, never opened.  A call that returns has acted on the hubs,
    members and channels exactly as [effect] says: a query answers what the
    tables hold - a list exactly the rows asked for - and changes nothing;
    [createHub] adds the one hub with the name and owner asked for and the
    owner as its member; a rename changes the one name; [deleteHub] succeeds
    exactly for the hub's owner and takes its channels and members with it;
    and so on.  The methods of the user and message repositories leave these
    tables as they are.  A call that throws leaves them too, unless the server
    did not learn the outcome of a commit that took effect, and then they are
    as if it had returned.  The schema's invariant holds again.  Over a
    connection that holds, the queries and deletions return for ids that are
    uuids. *)
Theorem sql_refines_tables {A} (c : call A) (p : Pg) :
  db_ok ids (contents p) ->
  let '(r, p') := run_call c p in
  db_ok ids (contents p') /\
  spec_step (effect c) (~ settled_turns p) (db_tables (contents p)) r (db_tables (contents p')) /\
  (forall t ts, turns p = t :: ts -> healthy t -> unconditional c -> r <> None).
Proof.
  intros Hp. pose proof (call_simulates c p Hp) as H. pose proof (call_returns c p) as Hr.
  destruct (run_call c p) as [r p']. destruct H. by split_and!.
Qed.

(** C10: what the constraints and triggers enforce, in every state that calls
    of the repositories reach when their transactions run one after another,
    whatever happens to the connections, commits of unknown outcome included.
    Nobody owns more than two hubs and no hub has more than three channels; hub
    names are unique per owner, channel names per hub and user names
    altogether, up to case; owners and members are active users, and only the
    owner of a hub has its owner role; the messages of a channel are numbered
    [1, 2, ...] without gap or repetition, also after any number of failed
    sends.  Two transactions that run at the same time can break the limits:
    [hub_limit_races]. *)
Theorem schema_holds (p p' : Pg) :
  db_ok ids (contents p) -> rtc pg_step p p' ->
  let d := contents p' in
  (forall o, length (select (owned_by o) (hubs d)) <= 2) /\
  (forall h, length (select (inside h) (channels d)) <= 3) /\
  (forall i j h h', hubs d !! i = Some h -> hubs d !! j = Some h' -> h_owner_id h = h_owner_id h' ->
     lower (h_name h) = lower (h_name h') -> i = j) /\
  (forall i j c c', channels d !! i = Some c -> channels d !! j = Some c' -> c_hub_id c = c_hub_id c' ->
     lower (c_name c) = lower (c_name c') -> i = j) /\
  (forall i j q q', profiles d !! i = Some q -> profiles d !! j = Some q' ->
     lower (p_user_name q) = lower (p_user_name q') -> i = j) /\
  (forall h hub, hubs d !! h = Some hub -> active (h_owner_id hub) d) /\
  (forall h u m, memberships d !! (h, u) = Some m -> active u d /\
     (get_hub_role_id "owner" d = Some (hm_role_id m) ->
      exists hub, hubs d !! h = Some hub /\ h_owner_id hub = u)) /\
  (forall c s, (exists id m, messages d !! id = Some m /\ ms_channel_id m = c /\ ms_seq m = s) <->
     (1 <= s < next_seq c d)%Z) /\
  (forall i j m m', messages d !! i = Some m -> messages d !! j = Some m' ->
     ms_channel_id m = ms_channel_id m' -> ms_seq m = ms_seq m' -> i = j).
Proof.
  intros Hp Hs d. destruct (pg_steps_ok p p' Hp Hs) as [Hh Hm [_ Hn] _]. fold d in Hh, Hm, Hn.
  destruct Hh as [_ _ _ [Hho Hhn Hhl] [Hmr _] [_ _ Hcn Hcl]], Hm as [_ H2 H3 H4 _ _].
  split_and!; try done.
  - intros h hub Hhub. by apply (Hho h hub).
  - intros h u m Hm. destruct (Hmr h u m Hm) as (Ha & _ & _ & hub & Hhub & Ho). eauto.
  - intros c s. split; [|apply H4]. intros (id & m & Hm & <- & <-). by destruct (H2 id m Hm).
Qed.

(** The rows are well formed, in every state the calls reach.  Keys are
    canonical uuids; names and avatar seeds have the lengths the columns allow;
    a channel is a text or a voice channel of an existing hub; a hub's owner is
    an active profile; a message is in an existing text channel and its number
    is a positive [bigint]; an attachment is of an existing message; a user
    name is in lower case and matches the pattern. *)
Theorem rows_well_formed (p p' : Pg) :
  db_ok ids (contents p) -> rtc pg_step p p' ->
  let d := contents p' in
  (forall id h, hubs d !! id = Some h -> canonical id /\ active (h_owner_id h) d /\
     length_between 1 80 (h_name h) = true /\ length_at_most 128 (h_avatar_seed h) = true) /\
  (forall id c, channels d !! id = Some c -> canonical id /\ is_Some (hubs d !! c_hub_id c) /\
     length_between 1 80 (c_name c) = true /\ (c_type c = "text" \/ c_type c = "voice")%string) /\
  (forall id m, messages d !! id = Some m ->
     (exists c, channels d !! ms_channel_id m = Some c /\ c_type c = "text"%string) /\
     (1 <= ms_seq m < 2 ^ 63)%Z) /\
  (forall id a, attachments d !! id = Some a -> is_Some (messages d !! ma_message_id a)) /\
  (forall id q, profiles d !! id = Some q -> canonical id /\ profile_display_ok q = true /\
     profile_format_ok q = true /\ profile_length_ok q = true).
Proof.
  intros Hp Hs d. destruct (pg_steps_ok p p' Hp Hs) as [Hh Hm [Hq _] _]. fold d in Hh, Hm, Hq.
  destruct Hh as [Hu _ _ [Hho _ _] _ [Hco _ _ _]], Hm as [H1 H2 _ _ H5 _]. split_and!; try done.
  - intros id c Hc. destruct (Hco id c Hc) as (?&?&?&?&_). done.
  - intros id m Hm. destruct (H2 id m Hm) as [(c & Hc & Hty) Hsq]. split; [eauto|].
    unfold next_seq in Hsq. destruct (counters d !! ms_channel_id m) as [n|] eqn:E; simpl in Hsq; [|lia].
    destruct (H1 _ _ E). lia.
  - intros id q Hid. destruct (Hq id q Hid) as (?&?&?&?). split_and!; try done. apply Hu. by eexists.
Qed.

(** *** Answers *)

(** A hub as the clients get it. *)
Definition hub_wf (hub : Hub) (d : Db) : Prop :=
  canonical (hub_value (hub_id hub)) /\ active (user_value (hub_owner hub)) d /\
  length_between 1 80 (hub_name hub) = true /\ length_at_most 128 (hub_avatar_seed hub) = true.

Definition channel_wf (ch : Channel) : Prop :=
  canonical (channel_value (ch_id ch)) /\ length_between 1 80 (ch_name ch) = true.

Lemma answer_of {A} (c : call A) P p a q :
  db_ok ids (contents p) -> effect c = asks P -> run_call c p = (Some a, q) ->
  P (db_tables (contents p)) a.
Proof.
  intros Hok He Hrun. pose proof (call_simulates c p Hok) as H. rewrite Hrun in H.
  destruct H as [_ H]. simpl in H. rewrite He in H. apply H.
Qed.

Lemma table_hub_wf d h hub :
  hubs_ok d -> tb_hubs (db_tables d) !! h = Some hub -> hub_wf hub d /\ hub_id hub = h.
Proof.
  intros Hok. rewrite tb_hubs_lookup. intros (row & Hrow & ->)%fmap_Some.
  destruct (ho_row d (hk_hubs d Hok) _ _ Hrow) as (? & ? & ? & ?).
  split; [done|]. by destruct h.
Qed.

Lemma channels_of_db d h :
  hubs_ok d -> channels_of (db_tables d) h = parse_channel_row <$> channels_in (hub_value h) d.
Proof. intros Hok. unfold channels_of. by rewrite order_of_db, omap_channels_in. Qed.

Lemma channels_of_wf d h :
  hubs_ok d -> NoDup (ch_id <$> channels_of (db_tables d) h) /\ length (channels_of (db_tables d) h) <= 3 /\
  Forall (fun ch => channel_wf ch /\ ch_hub_id ch = h) (channels_of (db_tables d) h).
Proof.
  intros Hok. rewrite channels_of_db by done. split_and!.
  - apply (NoDup_fmap_1 channel_value). rewrite <- !list_fmap_compose.
    unfold channels_in. rewrite order_by_perm.
    erewrite list_fmap_ext; [apply NoDup_select_keys|]. by intros i [k c] _.
  - rewrite length_fmap. unfold channels_in. rewrite order_by_perm. apply (co_limit d (hk_channels d Hok)).
  - apply list.Forall_fmap, list.Forall_forall. intros [k c] [Hk Hc]%elem_of_channels_in.
    destruct (co_row d (hk_channels d Hok) _ _ Hk) as (? & _ & ? & _). split; [done|].
    destruct h as [h]. simpl in *. by subst h.
Qed.

Lemma members_of_wf d h :
  hubs_ok d -> NoDup (members_of (db_tables d) h).*1 /\
  Forall (fun m : MemberRole => active (user_value m.1) d) (members_of (db_tables d) h).
Proof.
  intros Hok. rewrite members_of_db by done. split; [apply NoDup_members_in|].
  apply list.Forall_forall. intros [[v] role] (m & rr & Hm & _)%elem_of_members_in.
  by destruct (mo_row d (hk_members d Hok) _ _ _ Hm) as (? & _).
Qed.

(** C29: what the repository answers is well formed, in every state its calls
    reach when their transactions run one after another.  A hub that
    [getUserHubs], [getHubsByIds] or [getHub] answers has a canonical id, an
    active owner, a name of 1 to 80 characters and an avatar seed of at most
    128, and [getHub] answers the hub asked for; [getHubChannels] answers at
    most three channels, different ones, all of the hub, with canonical ids and
    names of 1 to 80 characters; [getHubMemberRoles] answers every member once,
    all active users. *)
Theorem answers_well_formed (p p' : Pg) :
  db_ok ids (contents p) -> rtc pg_step p p' ->
  let d := contents p' in
  (forall u r q, run_call (GetUserHubs u) p' = (Some r, q) ->
     NoDup (hub_id <$> r) /\ Forall (fun hub => hub_wf hub d) r) /\
  (forall hs r q, run_call (GetHubsByIds hs) p' = (Some r, q) ->
     NoDup r /\ Forall (fun hub => hub_wf hub d) r) /\
  (forall h hub q, run_call (GetHub h) p' = (Some (Some hub), q) ->
     hub_wf hub d /\ hub_id hub = norm_hub_id h) /\
  (forall h r q, run_call (GetHubChannels h) p' = (Some r, q) ->
     NoDup (ch_id <$> r) /\ length r <= 3 /\
     Forall (fun ch => channel_wf ch /\ ch_hub_id ch = norm_hub_id h) r) /\
  (forall h r q, run_call (GetHubMemberRoles h) p' = (Some r, q) ->
     NoDup r.*1 /\ Forall (fun m : MemberRole => active (user_value m.1) d) r).
Proof.
  intros Hp Hs d. pose proof (pg_steps_ok p p' Hp Hs) as Hok. pose proof (dk_hubs _ _ Hok) as Hh.
  split_and!.
  - intros u r q Hr. destruct (answer_of (GetUserHubs u) _ _ _ _ Hok eq_refl Hr) as [Hnd Hin]. split; [done|].
    apply list.Forall_forall. intros hub (row & role & Hrow & _ & ->)%Hin.
    by destruct (table_hub_wf _ _ _ Hh Hrow).
  - intros hs r q Hr. destruct (answer_of (GetHubsByIds hs) _ _ _ _ Hok eq_refl Hr) as [Hnd Hin]. split; [done|].
    apply list.Forall_forall. intros hub [_ Hrow]%Hin. by destruct (table_hub_wf _ _ _ Hh Hrow).
  - intros h hub q Hr. pose proof (answer_of (GetHub h) _ _ _ _ Hok eq_refl Hr) as Ha. by apply table_hub_wf.
  - intros h r q Hr. rewrite (answer_of (GetHubChannels h) _ _ _ _ Hok eq_refl Hr). by apply channels_of_wf.
  - intros h r q Hr. rewrite (answer_of (GetHubMemberRoles h) _ _ _ _ Hok eq_refl Hr). by apply members_of_wf.
Qed.

End Contract.

(** ** Examples *)

#[local] Existing Instances SqlDemo.postgres0 SqlDemo.json_lib0.

Module Run.
Import SqlDemo.

Definition hub1 : HubId := mkHubId "u1".
Definition channel1 : ChannelId := mkChannelId "u2".

(** Alice creates a hub; the connection drops once; a text channel; Bob joins
    and writes; a third channel name is taken. *)
Definition p1 : Pg := (run_call (CreateHub "Games" alice) pg0).2.
Definition p2 : Pg := (run_call (CreateChannel hub1 "general" "text" alice) p1).2.
Definition p3 : Pg := (run_call (CreateChannel hub1 "general" "text" alice) p2).2.
Definition p4 : Pg := (run_call (AddMember hub1 bob USER) p3).2.
Definition p5 : Pg := (run_call (SendMessage channel1 bob "hi" [] None) p4).2.
Definition p6 : Pg := (run_call (SendMessage channel1 bob "again" [] None) p5).2.

Lemma step_by {A} (c : call A) p : pg_step p (run_call c p).2.
Proof. by exists A, c. Qed.

Lemma run_steps : rtc pg_step pg0 p6.
Proof.
  eapply rtc_l; [apply (step_by (CreateHub "Games" alice))|].
  eapply rtc_l; [apply (step_by (CreateChannel hub1 "general" "text" alice) p1)|].
  eapply rtc_l; [apply (step_by (CreateChannel hub1 "general" "text" alice) p2)|].
  eapply rtc_l; [apply (step_by (AddMember hub1 bob USER) p3)|].
  eapply rtc_l; [apply (step_by (SendMessage channel1 bob "hi" [] None) p4)|].
  apply rtc_once. apply (step_by (SendMessage channel1 bob "again" [] None) p5).
Qed.

End Run.

(** The database is reachable from the empty one. *)
#[local] Abbreviation start_ok := (proj1 SqlDemo.pg0_ok).

(** Alice deletes her hub: over a connection that holds, the call returns. *)
Lemma sql_refines_tables_witness :
  let '(r, p') := run_call (DeleteHub Run.hub1 SqlDemo.alice) Run.p6 in
  r <> None /\ spec_step (hub_deleted Run.hub1 SqlDemo.alice) (~ settled_turns Run.p6)
    (db_tables (contents Run.p6)) r (db_tables (contents p')).
Proof.
  pose proof (sql_refines_tables SqlDemo.ids0 (DeleteHub Run.hub1 SqlDemo.alice) Run.p6
    (pg_steps_ok SqlDemo.ids0 _ _ start_ok Run.run_steps)) as H.
  destruct (run_call (DeleteHub Run.hub1 SqlDemo.alice) Run.p6) as [r p'].
  destruct H as (_ & Hs & Hr). refine (conj _ Hs).
  refine (Hr SqlDemo.commits (tail (turns Run.p6)) _ _ _); [vm_compute; reflexivity|by split|].
  constructor; [by eexists|]. constructor; [by eexists|]. constructor.
Defined.

Lemma schema_holds_witness :
  length (select (owned_by "alice") (hubs (contents Run.p6))) <= 2.
Proof.
  exact (proj1 (schema_holds SqlDemo.ids0 SqlDemo.pg0 Run.p6 start_ok Run.run_steps)
    "alice"%string).
Defined.

(** Bob is in one hub. *)
Lemma answers_well_formed_witness :
  exists hub q, run_call (GetUserHubs SqlDemo.bob) Run.p6 = (Some [hub], q) /\
    hub_wf hub (contents Run.p6).
Proof.
  destruct (run_call (GetUserHubs SqlDemo.bob) Run.p6) as [[[|hub [|]]|] q] eqn:E;
    try (vm_compute in E; discriminate E).
  exists hub, q. split; [reflexivity|].
  destruct (answers_well_formed SqlDemo.ids0 SqlDemo.pg0 Run.p6 start_ok Run.run_steps) as (Hu & _).
  destruct (Hu _ _ _ E) as [_ Hw]. exact (Forall_inv Hw).
Defined.

(** The dropped transaction left no channel; the next one created it, and the
    second message has the number 2. *)
Example run_numbers :
  (fun r => (r.1, ms_seq r.2)) <$> map_to_list (messages (contents Run.p6)) = [("u3", 1%Z); ("u5", 2%Z)]%string
  \/ (fun r => (r.1, ms_seq r.2)) <$> map_to_list (messages (contents Run.p6)) = [("u5", 2%Z); ("u3", 1%Z)]%string.
Proof. vm_compute. auto. Qed.

(** *** Transactions at the same time

    The server's transactions run under [READ COMMITTED]: a trigger counts the
    rows committed before its statement began.  Two creations of one owner that
    overlap both count one hub, and both are let through. *)

(** The row an [INSERT] adds when its statement sees the tables [d]. *)
Definition insert_seeing (name : string) (owner : uuid) (d : Db) : option (uuid * hub_row) :=
  match insert_hub name owner d with inr (row, _) => Some row | inl _ => None end.

Example hub_limit_races :
  let d := contents Run.p6 in
  let other := set_draws (tail (draws d)) d in
  exists r r', insert_seeing "Chess" "alice" d = Some r /\ insert_seeing "Music" "alice" other = Some r' /\
    length (select (owned_by "alice") (<[r'.1 := r'.2]> (<[r.1 := r.2]> (hubs d)))) = 3.
Proof. eexists _, _. split_and!; vm_compute; reflexivity. Qed.

End SqlContract.
