(* ===== verification/MessageHistory.v ===== *)
(** * Reading messages back

    Pages of a channel's history are exactly the messages with the numbers
    asked for, and a message that has been stored is what is read back. *)

From S2P Require Import Prelude.
From S2P Require Import CStrings.
From S2P Require Import Ids.
From S2P Require Import Protocol.
From S2P Require Import Transactions.
From S2P Require Import External.
From S2P Require Import ServerEvents.
From S2P Require Import Sql.
From S2P Require Import Database.
From S2P Require Import HubTables.
From S2P Require Import HubInvariants.
From S2P Require Import MessageRepository.
From S2P Require Import MessageInvariants.
From S2P Require Import Store.
From S2P Require Import MessageService.
From S2P Require Import SqlDemo.
From S2P Require Import SqlContract.
From stdpp Require Import sorting.
Import Domain.

Module MessageHistory.
Import Sql Database HubTables HubInvariants MessageRepository MessageInvariants Store TransactionRunner.

(** ** Sorted numbers *)

Lemma seqZ_sorted a n : StronglySorted Z.le (seqZ a n).
Proof.
  destruct (decide (0 <= n)%Z) as [Hn|Hn]; [|rewrite seqZ_nil by lia; constructor].
  revert a. pattern n. apply natlike_ind; [..|done]; clear n Hn.
  - intros a. constructor.
  - intros n Hn IH a. rewrite seqZ_cons by lia. constructor.
    + replace (Z.pred (Z.succ n)) with n by lia. apply IH.
    + apply list.Forall_forall. intros x Hx%elem_of_seqZ. lia.
Qed.

Lemma filter_all {A} (P : A -> Prop) `{forall x, Decision (P x)} (l : list A) :
  Forall P l -> filter P l = l.
Proof.
  induction 1 as [|x l Hx _ IH]; [done|]. rewrite filter_cons, decide_True by done. by rewrite IH.
Qed.

Lemma sorted_eq (R : relation Z) (l l' : list Z) :
  (forall x y, R x y -> R y x -> x = y) ->
  StronglySorted R l -> StronglySorted R l' -> NoDup l -> NoDup l' ->
  (forall x, x ∈ l <-> x ∈ l') -> l = l'.
Proof.
  intros Ha Hl Hl' Hn Hn' Heq. apply (StronglySorted_unique_strong R); [auto|done|done|].
  by apply NoDup_Permutation.
Qed.

Lemma reverse_sorted (l : list Z) : StronglySorted Z.le l -> StronglySorted Z.ge (reverse l).
Proof.
  induction 1 as [|x l Hs IH Hall]; [constructor|]. rewrite reverse_cons.
  apply StronglySorted_app_2; [|done|repeat constructor].
  intros y z Hy Hz. apply list_elem_of_singleton in Hz as ->. rewrite elem_of_reverse in Hy.
  rewrite list.Forall_forall in Hall. specialize (Hall y Hy). lia.
Qed.

(** ** Pages *)

(** The numbers [1 .. next - 1] above [after] and below [before], from the
    oldest when [after] is given and from the newest otherwise, at most [limit]. *)
Definition in_range (after before : option Z) (s : Z) : bool :=
  match after with Some a => (a <? s)%Z | None => true end &&
  match before with Some b => (s <? b)%Z | None => true end.

Definition page (next : Z) (after before : option Z) (limit : Z) : list Z :=
  let all := filter (fun s => in_range after before s = true) (seqZ 1 (next - 1)) in
  take (Z.to_nat limit) (if after then all else reverse all).

Section Rows.
Context `{PG : Postgres}.

Definition channel_rows (c : uuid) (P : Z -> bool) (d : Db) : list (uuid * message_row) :=
  select (fun '(_, m) => bool_decide (ms_channel_id m = c) && P (ms_seq m)) (messages d).

Lemma channel_rows_seqs c P d s :
  messages_ok d ->
  s ∈ (fun r => ms_seq r.2) <$> channel_rows c P d <->
  s ∈ filter (fun s => P s = true) (seqZ 1 (next_seq c d - 1)).
Proof.
  intros Hok. rewrite list_elem_of_fmap, list_elem_of_filter, elem_of_seqZ. split.
  - intros ([k m] & -> & [Hk Hb]%elem_of_select).
    apply andb_prop in Hb as [<-%bool_decide_eq_true Hp].
    destruct (mk_message d Hok k m Hk) as [_ Hs]. simpl. split; [done|lia].
  - intros [Hp Hs]. destruct (mk_gapless d Hok c s) as (k & m & Hk & <- & <-); [lia|].
    exists (k, m). split; [done|]. apply elem_of_select. split; [done|].
    by rewrite bool_decide_true, Hp.
Qed.

Lemma channel_rows_nodup c P d :
  messages_ok d -> NoDup ((fun r => ms_seq r.2) <$> channel_rows c P d).
Proof.
  intros Hok. unfold channel_rows. apply NoDup_fmap_2_strong; [|apply NoDup_select].
  intros [k m] [k' m'] [Hk Hb]%elem_of_select [Hk' Hb']%elem_of_select Heq.
  apply andb_prop in Hb as [Hc%bool_decide_eq_true _], Hb' as [Hc'%bool_decide_eq_true _].
  assert (k = k') as <- by (eapply (mk_seq d Hok); [done..|congruence|done]). congruence.
Qed.

Lemma ascending_seqs c P d :
  messages_ok d ->
  (fun r => ms_seq r.2) <$> order_by ascending (channel_rows c P d) =
  filter (fun s => P s = true) (seqZ 1 (next_seq c d - 1)).
Proof.
  intros Hok. apply (sorted_eq Z.le); [lia|..].
  - eapply (StronglySorted_fmap _ (fun x y => keys_le (ascending x) (ascending y)));
      [|apply order_by_sorted]. intros x y [H _]. exact H.
  - apply StronglySorted_filter', seqZ_sorted.
  - rewrite order_by_perm. by apply channel_rows_nodup.
  - apply list.NoDup_filter, NoDup_seqZ.
  - intros s. rewrite <- channel_rows_seqs by done. by rewrite order_by_perm.
Qed.

Lemma descending_seqs c P d :
  messages_ok d ->
  (fun r => ms_seq r.2) <$> order_by descending (channel_rows c P d) =
  reverse (filter (fun s => P s = true) (seqZ 1 (next_seq c d - 1))).
Proof.
  intros Hok. apply (sorted_eq Z.ge); [lia|..].
  - eapply (StronglySorted_fmap _ (fun x y => keys_le (descending x) (descending y)));
      [|apply order_by_sorted]. intros x y [H _]. simpl in H. lia.
  - apply reverse_sorted, StronglySorted_filter', seqZ_sorted.
  - rewrite order_by_perm. by apply channel_rows_nodup.
  - rewrite reverse_Permutation. apply list.NoDup_filter, NoDup_seqZ.
  - intros s. rewrite elem_of_reverse, <- channel_rows_seqs by done. by rewrite order_by_perm.
Qed.

End Rows.

(** ** Attachments and previews *)

Section Readable.
Context `{PG : Postgres} `{JL : JsonLib}.

(** The attachment a row stands for. *)
Definition attachment_of_row (row : uuid * attachment_row) : MessageAttachment :=
  let mime := default ""%string (ma_mime row.2) in
  mkAttachment row.1 (attachment_kind_from_mime_type mime) (ma_bucket row.2) (ma_key row.2) mime
    (ma_file_name row.2) (wrap64 (ma_size row.2)).

Lemma attachment_of_attachment_json row :
  attachment_of_json (attachment_json row) = Some (attachment_of_row row).
Proof.
  destruct row as [id a]. unfold attachment_json, attachment_of_row, attachment_kind_from_mime_type.
  simpl. set (mime := default ""%string (ma_mime a)). unfold attachment_of_json, value_string, value_uint64, field.
  repeat (rewrite lookup_insert_ne by done || rewrite lookup_insert_eq). simpl.
  destruct (0 <=? ma_size a)%Z; simpl; by destruct (String.prefix "image/" mime).
Qed.

Lemma attachments_of_rows rows :
  attachments_of_items (attachment_json <$> rows) =
  Some (filter (fun a => ma_id a <> ""%string /\ ma_storage_key a <> ""%string)
          (attachment_of_row <$> rows)).
Proof.
  induction rows as [|row rows IH]; [done|]. cbn [fmap list_fmap attachments_of_items].
  assert (is_object (attachment_json row) = true) as -> by (by destruct row).
  cbn [negb]. rewrite attachment_of_attachment_json. simpl. rewrite IH. simpl. f_equal.
  rewrite filter_cons. destruct row as [id a]. simpl. repeat case_bool_decide; simpl; case_decide; naive_solver.
Qed.

(** What PostgreSQL prints, the JSON library reads: the attachments it
    aggregates, and the stored previews. *)
Record readable (d : Db) : Prop := mk_readable {
  rd_attachments : forall id, json_parse (jsonb_out (attachments_json id d)) = Some (attachments_json id d);
  rd_preview : forall id m j, messages d !! id = Some m -> ms_link_preview m = Some j ->
    is_Some (from_json_link_preview (jsonb_out j))
}.

(** The message a row stands for. *)
Definition preview_of (m : message_row) : option MessageLinkPreview :=
  match ms_link_preview m with
  | None => None
  | Some j => default None (from_json_link_preview (jsonb_out j))
  end.
Definition attachments_of (id : uuid) (d : Db) : list MessageAttachment :=
  filter (fun a => ma_id a <> ""%string /\ ma_storage_key a <> ""%string)
    (attachment_of_row <$> order_by attachment_key
       (select (fun '(_, a) => bool_decide (ma_message_id a = id)) (attachments d))).
Definition message_of (d : Db) (row : uuid * message_row) : Message :=
  mkMessage (mkMessageId row.1) (mkChannelId (ms_channel_id row.2))
    (mkUserId (default ""%string (ms_sender_id row.2))) Chat (ms_content row.2)
    (attachments_of row.1 d) (preview_of row.2) PENDING (wrap64 (ms_seq row.2))
    (wrap64 (ms_created_at row.2)).

Lemma row_to_message_readable d id m :
  readable d -> messages d !! id = Some m ->
  row_to_message ((id, m), jsonb_out (attachments_json id d)) d = inr (message_of d (id, m), d).
Proof.
  intros [Ha Hp] Hm. unfold row_to_message, from_json_attachments. rewrite Ha.
  unfold attachments_json at 1. rewrite attachments_of_rows. unfold message_of, preview_of. simpl.
  destruct (ms_link_preview m) as [j|] eqn:E; [|done].
  destruct (Hp id m j Hm E) as [lp Hlp]. by rewrite Hlp.
Qed.

Lemma sql_map_pure {A B} (f : A -> SQL B) (g : A -> B) xs d :
  (forall x, x ∈ xs -> f x d = inr (g x, d)) -> sql_map f xs d = inr (g <$> xs, d).
Proof.
  induction xs as [|x xs IH]; intros Hf; [done|]. simpl. unfold sql_bind.
  rewrite Hf by (by left). rewrite IH; [done|]. intros y Hy. apply Hf. by right.
Qed.

Lemma select_messages_readable ch c P key limit d :
  uuid_in (channel_value ch) = Some c -> readable d -> (0 <= limit)%Z ->
  select_messages ch P key limit d =
  inr (message_of d <$> take (Z.to_nat limit) (order_by key (channel_rows c P d)), d).
Proof.
  intros Hc Hr Hl. unfold select_messages, message_rows, sql_bind, uuid_param. rewrite Hc. simpl.
  unfold ensure. rewrite (proj2 (Z.leb_le 0 limit) Hl). simpl. fold (channel_rows c P d).
  apply (sql_map_pure _ (message_of d)). intros [k m] Hin. simpl.
  apply row_to_message_readable; [done|].
  apply elem_of_take in Hin as (i & Hi & _). apply list_elem_of_lookup_2 in Hi.
  by apply elem_of_order_by, elem_of_select in Hi as [Hk _].
Qed.

Lemma message_of_seqs d (rows : list (uuid * message_row)) :
  messages_ok d -> (forall k m, (k, m) ∈ rows -> messages d !! k = Some m) ->
  m_seq <$> (message_of d <$> rows) = (fun r => ms_seq r.2) <$> rows.
Proof.
  intros Hok Hin. rewrite <- list_fmap_compose. apply list_fmap_ext. intros i [k m] Hi. simpl.
  apply list_elem_of_lookup_2 in Hi. specialize (Hin k m Hi).
  destruct (mk_message d Hok k m Hin) as [_ Hs]. apply wrap64_small. unfold next_seq in Hs.
  destruct (counters d !! ms_channel_id m) as [n|] eqn:E; simpl in Hs; unfold two64; [|lia].
  destruct (mk_counter d Hok _ _ E). lia.
Qed.

(** The rows of a page. *)
Definition page_rows (c : uuid) (after before : option Z) (limit : Z) (d : Db) : list (uuid * message_row) :=
  take (Z.to_nat limit) (order_by (if after then ascending else descending)
    (channel_rows c (in_range after before) d)).

Lemma page_rows_in c a b limit d k m : (k, m) ∈ page_rows c a b limit d ->
  messages d !! k = Some m /\ ms_channel_id m = c.
Proof.
  intros (i & Hi & _)%elem_of_take. apply list_elem_of_lookup_2 in Hi.
  apply elem_of_order_by, elem_of_select in Hi as [Hk Hb].
  apply andb_prop in Hb as [Hc%bool_decide_eq_true _]. done.
Qed.

Lemma page_rows_seqs c a b limit d :
  messages_ok d ->
  (fun r => ms_seq r.2) <$> page_rows c a b limit d = page (next_seq c d) a b limit.
Proof.
  intros Hok. unfold page_rows, page. rewrite fmap_take.
  destruct a; [by rewrite ascending_seqs|by rewrite descending_seqs].
Qed.

Lemma fetch_page_statement ch c after before limit d :
  uuid_in (channel_value ch) = Some c -> readable d -> (0 <= limit)%Z ->
  match after, before with
  | Some a, Some b => select_messages ch
      (fun seq => (cursor_seq a <? seq)%Z && (seq <? cursor_seq b)%Z) ascending limit
  | Some a, None => select_messages ch (fun seq => (cursor_seq a <? seq)%Z) ascending limit
  | None, Some b => select_messages ch (fun seq => (seq <? cursor_seq b)%Z) descending limit
  | None, None => select_messages ch (fun _ => true) descending limit
  end d = inr (message_of d <$> page_rows c (cursor_seq <$> after) (cursor_seq <$> before) limit d, d).
Proof.
  intros Hc Hr Hl. unfold page_rows.
  assert (Hext : forall P Q, (forall s, P s = Q s) -> channel_rows c P d = channel_rows c Q d).
  { intros P Q HPQ. apply select_ext. intros k m _. by rewrite HPQ. }
  destruct after as [a|], before as [b|]; rewrite (select_messages_readable ch c) by done; simpl;
  match goal with |- context [channel_rows c ?P d] =>
    match goal with |- context [channel_rows c (in_range ?x ?y) d] =>
      rewrite (Hext P (in_range x y));
        [done|intros s; unfold in_range; simpl; by rewrite ?andb_true_r] end end.
Qed.

(** A read that answers the page of the channel's numbers, each message as its
    row and its attachments' rows have it. *)
Definition shows (c : uuid) (after before : option Z) (limit : Z) (m : EX Pg (list Message)) (p : Pg)
  : Prop :=
  exists msgs, (m p).1 = Some msgs /\
    m_seq <$> msgs = page (next_seq c (contents p)) after before limit /\
    Forall (fun msg => exists id row, messages (contents p) !! id = Some row /\
      ms_channel_id row = c /\ msg = message_of (contents p) (id, row)) msgs.

Lemma page_shown c after before limit tag (fn : SQL (list Message)) p t ts :
  messages_ok (contents p) -> turns p = t :: ts -> healthy t ->
  (let d := start t (contents p) in
   fn d = inr (message_of d <$> page_rows c after before limit d, d)) ->
  shows c after before limit (db_read tag fn) p.
Proof.
  intros Hok Ht Hh Hfn. unfold shows, db_read. rewrite (transaction_healthy _ _ _ _ t ts Ht Hh), Hfn.
  eexists. split; [reflexivity|].
  assert (Hok' : messages_ok (start t (contents p))) by (apply (messages_frame (contents p)); eauto).
  split.
  - rewrite message_of_seqs by (done || intros k m Hk; by apply page_rows_in in Hk as [? _]).
    by rewrite page_rows_seqs.
  - apply Forall_fmap, list.Forall_forall. intros [k m] [Hk Hc]%page_rows_in. by exists k, m.
Qed.

(** C26: paging through a channel's history.  On a connection that holds, of
    tables whose attachments and previews can be read, [fetchMessages] answers
    the newest [limit] messages of the channel, newest first;
    [fetchMessagesBefore] the newest [limit] of those with a number below the
    cursor's, newest first; [fetchMessagesAfter] the oldest [limit] of those
    with a greater number, oldest first; and [fetchMessagesPage], which nothing
    calls, those between its cursors.  No message of the range is missing
    before the limit is reached and none comes twice, because the numbers of a
    channel have no gaps, and each is answered as its rows have it. *)
Theorem message_pages_exact (ch : ChannelId) (c : uuid) (limit : Z) (p : Pg) (t : Turn) (ts : list Turn) :
  uuid_in (channel_value ch) = Some c -> messages_ok (contents p) -> readable (contents p) ->
  turns p = t :: ts -> healthy t -> (0 <= limit)%Z ->
  shows c None None limit (fetchMessages ch limit) p /\
  (forall before, shows c None (Some (cursor_seq before)) limit (fetchMessagesBefore ch before limit) p) /\
  (forall after, shows c (Some (cursor_seq after)) None limit (fetchMessagesAfter ch after limit) p) /\
  (forall after before, shows c (cursor_seq <$> after) (cursor_seq <$> before) limit
     (fetchMessagesPage ch after before limit) p).
Proof.
  intros Hc Hok Hr Ht Hh Hl. assert (Hr' : readable (start t (contents p))) by (by destruct Hr).
  pose proof (fetch_page_statement ch c) as Hs.
  split_and!; intros; (eapply page_shown; [done..|]).
  - by apply (Hs None None).
  - by apply (Hs None (Some before)).
  - by apply (Hs (Some after) None).
  - by apply Hs.
Qed.

Definition of_message (id : uuid) : uuid * attachment_row -> bool :=
  fun '(_, a) => bool_decide (ma_message_id a = id).

(** The attachments that are inserted are the message's rows afterwards. *)
Lemma insert_attachments_inr mid u ats message d out d' :
  uuid_in (message_value mid) = Some message ->
  insert_attachments mid u ats d = inr (out, d') ->
  exists rows, out = attachment_of_row <$> rows /\ messages d' = messages d /\
    select (of_message message) (attachments d') ≡ₚ rows ++ select (of_message message) (attachments d) /\
    Forall (fun r => r.1 ∈ draws d /\ ma_key r.2 <> ""%string) rows.
Proof.
  intros Hmid. revert d out d'. induction ats as [|a ats IH]; intros d out d'.
  { intros [-> ->]%sql_ret_inr. by exists []. }
  intros (a1 & d1 & Ha & (out' & d2 & (rows & -> & Hms & Hsel & Hall)%IH &
    [-> ->]%sql_ret_inr)%sql_bind_inr)%sql_bind_inr.
  sql_inv. cbv zeta in Ha. sql_inv.
  match goal with H : nullable _ _ _ = _ |- _ => apply nullable_inr in H as [-> ->] end.
  match goal with r : uuid * attachment_row |- _ => destruct r as [k r'] end. sql_inv.
  match goal with H : uuid_in (message_value mid) = Some ?m |- _ =>
    assert (m = message) as -> by congruence end.
  match goal with H : insert_attachment _ _ = _ |- _ =>
    apply insert_attachment_inr in H as (id & us & Hus & [= -> ->] & Hfree & _ & _ & -> & _) end.
  eexists ((id, stamped _ _) :: rows). split_and!.
  - by rewrite fmap_cons.
  - done.
  - rewrite Hsel. simpl. rewrite select_insert_fresh by done. simpl.
    rewrite bool_decide_true by done. by rewrite Permutation_middle.
  - constructor; simpl.
    + rewrite Hus. split; [by left|].
      match goal with H : negb (bool_decide (Domain.ma_storage_key _ = _)) = true |- _ =>
        by apply negb_true_iff, bool_decide_eq_false in H end.
    + eapply list.Forall_impl; [exact Hall|]. intros [k2 r2] [Hin Hk]. split; [|done]. rewrite Hus. by right.
Qed.


(** The answer of [row_to_message], attachments aside. *)
Lemma row_to_message_inr id m text d msg d' :
  row_to_message ((id, m), text) d = inr (msg, d') ->
  d' = d /\ exists ats, msg = mkMessage (mkMessageId id) (mkChannelId (ms_channel_id m))
    (mkUserId (default ""%string (ms_sender_id m))) Chat (ms_content m) ats (preview_of m) PENDING
    (wrap64 (ms_seq m)) (wrap64 (ms_created_at m)).
Proof.
  unfold row_to_message, preview_of. destruct (from_json_attachments text) as [ats|]; [|done].
  destruct (ms_link_preview m) as [j|]; [destruct (from_json_link_preview (jsonb_out j)) as [lp|]|];
    intros H; sql_inv; simpl; eauto.
Qed.

Lemma send_statement_inr ch u text ats lp d msg d' :
  hubs_ok d -> messages_ok d -> send_statement ch u text ats lp d = inr (msg, d') ->
  exists c id NEW rows, uuid_in (channel_value ch) = Some c /\
    messages d' !! id = Some NEW /\ ms_channel_id NEW = c /\ next_seq c d' = (ms_seq NEW + 1)%Z /\
    msg = mkMessage (mkMessageId id) (mkChannelId c) (mkUserId (default ""%string (ms_sender_id NEW)))
      Chat (ms_content NEW) (attachment_of_row <$> rows) (preview_of NEW) PENDING
      (wrap64 (ms_seq NEW)) (wrap64 (ms_created_at NEW)) /\
    select (of_message id) (attachments d') ≡ₚ rows /\
    Forall (fun r => canonical r.1 /\ ma_key r.2 <> ""%string) rows /\ ms_content NEW = text.
Proof.
  intros Hh Hm H. pose proof (hk_draws d Hh) as Hdraws. unfold send_statement in H.
  apply sql_bind_inr in H as (c & ? & [Hc ->]%uuid_param_inr & H).
  apply sql_bind_inr in H as (sender & ? & [_ ->]%uuid_param_inr & H).
  apply sql_bind_inr in H as (? & ? & (_ & -> & ->)%text_param_inr & H).
  apply sql_bind_inr in H as (pv & ? & ->%preview_param_read & H).
  apply sql_bind_inr in H as (id & ? & (us & Hus & ->)%gen_random_uuid_inr & H).
  rewrite Hus in Hdraws. apply Forall_cons_1 in Hdraws as [Hid Hdraws].
  apply sql_bind_inr in H as (row & d1 & Hins & H).
  pose proof (insert_message_inr _ _ _ _ _ _ _ _ Hins) as (-> & Hfree & Hd1 & _ & _).
  set (NEW := mkMessageRow c (Some sender) (next_seq c (set_draws us d)) text pv _) in *.
  apply sql_bind_inr in H as (m & ? & [-> [ats0 ->]]%row_to_message_inr & H).
  apply sql_bind_inr in H as (out & d2 & Hats & [-> ->]%sql_ret_inr).
  simpl in Hats. destruct (insert_attachments_inr (mkMessageId id) u ats id d1 out d2 Hid Hats) as (rows & -> & Hms & Hsel & Hall).
  exists c, id, NEW, rows. split_and!; try done.
  - rewrite Hms, Hd1. simpl. by rewrite lookup_insert_eq.
  - assert (Hn : counters d2 = counters d1) by (by eapply insert_attachments_counters).
    unfold next_seq at 1. rewrite Hn, Hd1. simpl. by rewrite lookup_insert_eq.
  - rewrite Hsel, Hd1. simpl.
    assert (select (of_message id) (attachments d) = []) as ->; [|by rewrite app_nil_r].
    apply elem_of_nil_inv. intros [k a] [Hk Ha%bool_decide_eq_true]%elem_of_select.
    destruct (mk_attachment d Hm k a Hk) as [m Hm']. simpl in Hfree. congruence.
  - eapply list.Forall_impl; [exact Hall|]. intros [k r] [Hk Hne]. split; [|done].
    rewrite Hd1 in Hk. simpl in Hk. by eapply (proj1 (list.Forall_forall _ _) Hdraws).
Qed.

(** ** What the writer relies on *)

Definition row_of (msg : Message) (d : Db) : Prop :=
  exists id c row, uuid_in (message_value (m_id msg)) = Some id /\
    uuid_in (channel_value (m_ch_id msg)) = Some c /\ messages d !! id = Some row /\
    ms_channel_id row = c /\ ms_content row = m_text msg.

Lemma insert_statement_inr msg d b d' :
  insert_statement msg d = inr (b, d') ->
  exists id row, messages d !! id = None /\ messages d' = <[id := row]> (messages d) /\ row_of msg d'.
Proof.
  intros H. apply sql_bind_inr in H as (id & ? & [Hid ->]%uuid_param_inr & H).
  apply sql_bind_inr in H as (c & ? & [Hc ->]%uuid_param_inr & H).
  apply sql_bind_inr in H as (u & ? & [_ ->]%uuid_param_inr & H).
  apply sql_bind_inr in H as (? & ? & (_ & -> & ->)%text_param_inr & H).
  apply sql_bind_inr in H as (pv & ? & ->%preview_param_read & H).
  apply sql_bind_inr in H as (row & d1 & (_ & Hfree & -> & _)%insert_message_inr & H).
  apply sql_bind_inr in H as (? & d2 & (rows & _ & Hms & _)%(insert_attachments_inr _ _ _ id) & [-> ->]%sql_ret_inr);
    [|done].
  eexists id, _. split; [done|]. split; [exact Hms|]. exists id, c. eexists. rewrite Hms. simpl.
  rewrite lookup_insert_eq. by split_and!.
Qed.

Lemma insertMessage_row msg p p' :
  insertMessage msg p = (Some true, p') -> row_of msg (contents p').
Proof.
  intros H. pose proof (db_write_once "MessageRepository.insertMessage" (insert_statement msg) p) as Hw.
  unfold insertMessage in H. rewrite H in Hw. destruct Hw as [t Ht].
  by apply insert_statement_inr in Ht as (? & ? & _ & _ & ?).
Qed.

Lemma insertMessage_keeps_rows msg msg' p :
  row_of msg (contents p) -> row_of msg (contents (insertMessage msg' p).2).
Proof.
  intros (id & c & row & H1 & H2 & H3 & H4 & H5).
  assert (Hk : messages (contents (insertMessage msg' p).2) !! id = Some row); [|by exists id, c, row].
  pose proof (db_write_once "MessageRepository.insertMessage" (insert_statement msg') p) as Hw.
  unfold insertMessage. destruct (db_write _ _ p) as [r p']. simpl.
  assert (Hi : forall t b d', insert_statement msg' (start t (contents p)) = inr (b, d') ->
    messages d' !! id = Some row).
  { intros t b d' (k & row' & Hf & -> & _)%insert_statement_inr. simpl in Hf.
    rewrite lookup_insert_ne by congruence. done. }
  destruct r; [destruct Hw as [t Ht]; by eapply Hi|].
  destruct Hw as [->|(t & [->|(_ & a & Ht)])]; [done|done|by eapply Hi].
Qed.

(** The database of the repositories keeps what the asynchronous writer was
    told is stored. *)
#[export] Program Instance sql_message_store ids : Writer.MessageStore (Store.t ids) := {
  holds d msg := row_of msg (contents (`d))
}.
Next Obligation.
  intros ids msg d d' H. apply (insertMessage_row msg (`d)). injection H as H <-. simpl.
  destruct (insertMessage msg (`d)). simpl in *. by subst.
Qed.
Next Obligation. intros ids msg msg' d H. by apply insertMessage_keeps_rows. Qed.

(** The newest message of a channel comes first. *)
Lemma newest_row c id NEW d :
  messages_ok d -> messages d !! id = Some NEW -> ms_channel_id NEW = c ->
  next_seq c d = (ms_seq NEW + 1)%Z ->
  take 1 (order_by descending (channel_rows c (fun _ => true) d)) = [(id, NEW)].
Proof.
  intros Hok Hid Hc Hn. pose proof (descending_seqs c (fun _ => true) d Hok) as Hs.
  destruct (mk_message d Hok id NEW Hid) as [_ Hpos]. rewrite Hc in Hpos.
  assert (Hrev : reverse (seqZ 1 (next_seq c d - 1)) =
    ms_seq NEW :: reverse (seqZ 1 (ms_seq NEW - 1))).
  { rewrite Hn, Z.add_simpl_r.
    replace (ms_seq NEW) with ((ms_seq NEW - 1) + 1)%Z at 1 by lia.
    rewrite seqZ_app by lia. rewrite reverse_app. simpl. f_equal. lia. }
  rewrite filter_all in Hs by (by apply list.Forall_forall).
  rewrite Hrev in Hs. destruct (order_by descending _) as [|[k m] l] eqn:E; [done|].
  injection Hs as Hseq _. simpl.
  assert (Hin : (k, m) ∈ order_by descending (channel_rows c (fun _ => true) d)) by (rewrite E; by left).
  apply elem_of_order_by, elem_of_select in Hin as [Hk Hb].
  apply andb_prop in Hb as [Hmc%bool_decide_eq_true _].
  assert (k = id) as -> by (eapply (mk_seq d Hok); [done..|congruence|done]).
  rewrite Hk in Hid. by injection Hid as ->.
Qed.

(** What has been sent is what is read.  When [sendMessage] answers a
    message, the next [fetchMessages(channel, 1)] on a working connection
    answers the same message - id, channel, sender, text, preview, number and
    time - with the same attachments; only the order of the attachments may
    differ, since the rows of one transaction have the same [created_at] and
    are then ordered by their random ids. *)
Theorem sent_message_read_back (ids : gset uuid) (ch : ChannelId) (u : UserId) (text : string)
    (ats : list MessageAttachment) (lp : option MessageLinkPreview) (p p' : Pg) (msg : Message)
    (t : Turn) (ts : list Turn) :
  pg_ok ids p -> uuid_in ""%string = None ->
  sendMessage ch u text ats lp p = (Some msg, p') ->
  readable (contents p') -> turns p' = t :: ts -> healthy t ->
  exists m, (fetchMessages ch 1 p').1 = Some [m] /\
    m_attachments m ≡ₚ m_attachments msg /\ m_text m = text /\
    m = mkMessage (m_id msg) (m_ch_id msg) (m_sender_id msg) (m_type msg) (m_text msg)
          (m_attachments m) (m_link_preview msg) (m_status msg) (m_seq msg) (m_created_at_unix_us msg).
Proof.
  intros [Hok Hs] Hempty Hsend Hr Ht Hh. pose proof (sendMessage_kept ids ch u text ats lp p (conj Hok Hs)) as Hok'.
  rewrite Hsend in Hok'. destruct Hok' as [Hok' _].
  unfold sendMessage, db_write in Hsend.
  pose proof (transaction_settled false "MessageRepository.sendMessage"
    (send_statement ch u text ats lp) p Hs) as Htr. rewrite Hsend in Htr. destruct Htr as [_ [t0 Htr]].
  destruct (start_db_ok ids t0 _ Hok) as [[Hhubs Hms _ _] _].
  apply send_statement_inr in Htr as (c & id & NEW & rows & Hc & Hid & Hch & Hn & -> & Hsel & Hall & <-);
    [|done..]. simpl in *.
  assert (Hr' : readable (start t (contents p'))) by (by destruct Hr).
  assert (Hok2 : messages_ok (start t (contents p')))
    by (apply (messages_frame (contents p')); eauto; apply Hok').
  unfold fetchMessages, db_read. rewrite (transaction_healthy _ _ _ _ t ts Ht Hh).
  rewrite (select_messages_readable ch c) by (done || lia). change (Z.to_nat 1) with 1.
  rewrite (newest_row c id NEW) by done. simpl.
  eexists. split_and!; [reflexivity|..|done|unfold message_of; simpl; by rewrite Hch].
  unfold message_of. simpl.
  unfold attachments_of. fold (of_message id). rewrite filter_all.
  - by rewrite order_by_perm, Hsel.
  - apply Forall_fmap. rewrite order_by_perm. simpl. rewrite Hsel. eapply list.Forall_impl; [exact Hall|].
    intros [k r] [Hk Hne]. simpl in *. split; [|done]. intros ->. unfold canonical in Hk. congruence.
Qed.

End Readable.

(** ** Examples *)

#[local] Existing Instances SqlDemo.postgres0 SqlDemo.json_lib0.

Module History.
Import SqlDemo SqlContract.

Definition no_attachments (d : Db) : bool :=
  bool_decide (attachments d = ∅) &&
  bool_decide (map_Forall (fun _ m => ms_link_preview m = None) (messages d)).

Lemma readable0 d : no_attachments d = true -> readable d.
Proof.
  intros [Ha%bool_decide_eq_true Hp%bool_decide_eq_true]%andb_prop. constructor.
  - intros id. unfold attachments_json. by rewrite Ha.
  - intros id m j Hm Hj. specialize (Hp id m Hm). simpl in Hp. congruence.
Qed.

Lemma p6_ok : messages_ok (contents Run.p6).
Proof. apply (dk_messages ids0), (pg_steps_ok ids0 pg0 _ (proj1 pg0_ok) Run.run_steps). Qed.

(** The answer to a third message, and the state after it. *)
Definition sent : option Message * Pg := sendMessage Run.channel1 bob "third" [] None Run.p6.

Lemma p6_pg_ok : pg_ok ids0 Run.p6.
Proof.
  split; [exact (pg_steps_ok ids0 pg0 _ (proj1 pg0_ok) Run.run_steps)|].
  assert (Ht : turns Run.p6 = replicate 16 commits) by (vm_compute; reflexivity).
  unfold settled_turns. rewrite Ht. by apply Forall_replicate.
Qed.

End History.

(** Below the number 3, newest first; above the number 1. *)
Lemma message_pages_exact_witness :
  let cursor n := mkCursor n (mkMessageId "") 0 in
  (exists msgs, (fetchMessagesBefore SqlContract.Run.channel1 (cursor 3%Z) 5 SqlContract.Run.p6).1 =
     Some msgs /\ m_seq <$> msgs = [2; 1]%Z) /\
  (exists msgs, (fetchMessagesAfter SqlContract.Run.channel1 (cursor 1%Z) 5 SqlContract.Run.p6).1 =
     Some msgs /\ m_seq <$> msgs = [2]%Z).
Proof.
  intros cursor.
  destruct (message_pages_exact SqlContract.Run.channel1 "u2" 5 SqlContract.Run.p6 SqlDemo.commits
    (tail (turns SqlContract.Run.p6))) as (_ & Hb & Ha & _).
  - reflexivity.
  - exact History.p6_ok.
  - apply History.readable0. vm_compute. reflexivity.
  - vm_compute. reflexivity.
  - split; reflexivity.
  - lia.
  - split.
    + destruct (Hb (cursor 3%Z)) as (msgs & Hm & Hs & _). exists msgs. split; [exact Hm|].
      rewrite Hs. vm_compute. reflexivity.
    + destruct (Ha (cursor 1%Z)) as (msgs & Hm & Hs & _). exists msgs. split; [exact Hm|].
      rewrite Hs. vm_compute. reflexivity.
Defined.

Lemma sent_message_read_back_witness :
  exists m, (fetchMessages SqlContract.Run.channel1 1 History.sent.2).1 = Some [m] /\
    m_text m = "third"%string.
Proof.
  assert (Hs : sendMessage SqlContract.Run.channel1 SqlDemo.bob "third" [] None SqlContract.Run.p6 =
    (Some (default (mkMessage (mkMessageId "") SqlContract.Run.channel1 SqlDemo.bob Chat "" [] None PENDING 0 0)
       History.sent.1), History.sent.2)).
  { vm_compute. reflexivity. }
  destruct (sent_message_read_back SqlDemo.ids0 SqlContract.Run.channel1 SqlDemo.bob "third" [] None
    SqlContract.Run.p6 History.sent.2 _ SqlDemo.commits (tail (turns History.sent.2))
    History.p6_pg_ok eq_refl Hs) as (m & Hm & _ & Ht & _).
  - apply History.readable0. vm_compute. reflexivity.
  - vm_compute. reflexivity.
  - split; reflexivity.
  - exists m. split; [exact Hm|exact Ht].
Defined.

(** Two attachments sent with one message come back in the order of their
    random ids: the transaction gives both the same [created_at]. *)
Example attachments_come_back_reordered :
  let ats := [mkAttachment "" FILE "chat-attachments" "first" "" "first" 1;
              mkAttachment "" FILE "chat-attachments" "second" "" "second" 1]%string in
  let p := (sendMessage SqlContract.Run.channel1 SqlDemo.bob "look" ats None SqlContract.Run.p4) in
  (fun m => ma_storage_key <$> m_attachments m) <$> p.1 = Some ["first"; "second"]%string /\
  ma_storage_key <$> attachments_of "u3" (contents p.2) = ["second"; "first"]%string.
Proof. vm_compute. split; reflexivity. Qed.

End MessageHistory.
