(* ===== verification/Accounts.v ===== *)
(** * Audit events, sign-up and account deletion

    [infra/persistence/sql/006_audit_events.sql] with
    [repositories/AuditRepository.cpp], the deletion workflow of
    [007_account_deletion_requests.sql] and [010_account_deletion_workflow.sql]
    with the soft-delete trigger of [002_hubs.sql], and the sign-up trigger of
    [011_create_profile_on_auth_signup.sql]. *)

From S2P Require Import Prelude.
From S2P Require Import CStrings.
From S2P Require Import Ids.
From S2P Require Import External.
From S2P Require Import Sql.
From S2P Require Import Database.
From S2P Require Import HubTables.
From S2P Require Import HubInvariants.
From S2P Require Import MessageRepository.
From S2P Require Import MessageInvariants.
From S2P Require Import UserRepository.
From S2P Require Import Store.
From S2P Require Import SqlDemo.
From stdpp Require Import sorting.
From Stdlib Require Import Ascii.

Module AuditRepository.
Import Sql Database.

(** [struct Event]. *)
Record Event := mkEvent {
  category : string; event_type : string; severity : string; actor_type : string;
  actor_user_id : option UserId; target_user_id : option UserId; hub_id : option HubId;
  channel_id : option ChannelId; message_id : option MessageId; attachment_id : option string;
  invite_id : option string; request_id : option string; session_id : option string;
  connection_id : option string; server_node_id : option string; error_code : option string;
  status_code : option Z; metadata : json }.

Definition with_default (value fallback : string) : string :=
  if bool_decide (value = ""%string) then fallback else value.


Definition categories : list string :=
  ["auth"; "account"; "connection"; "hub"; "channel"; "member"; "message"; "attachment"; "invite";
   "voice"; "security"; "legal"; "system"].
Definition severities : list string := ["debug"; "info"; "warning"; "error"; "critical"].
Definition actor_types : list string := ["anonymous"; "user"; "system"; "admin"].

Section Audit.
Context `{PG : Postgres} `{JL : JsonLib}.

Definition metadata_dump (m : json) : string := if is_object m then json_dump m else "{}"%string.

(** The constraints of [audit_events], by name. *)
Definition check_audit (NEW : audit_row) : SQL unit :=
  let bounded n := null_or (length_at_most n) in
  (ensure (bool_decide (au_actor_type NEW ∈ actor_types)) (check_violation "audit_events_actor_type_check");;;
   ensure (bool_decide (au_category NEW ∈ categories)) (check_violation "audit_events_category_check");;;
   ensure (bounded 128%Z (au_connection_id NEW)) (check_violation "audit_events_connection_id_length");;;
   ensure (bounded 120%Z (au_error_code NEW)) (check_violation "audit_events_error_code_length");;;
   ensure (length_between 1 120 (au_event_type NEW)) (check_violation "audit_events_event_type_length");;;
   ensure (is_object (au_metadata NEW)) (check_violation "audit_events_metadata_object");;;
   ensure (bounded 128%Z (au_request_id NEW)) (check_violation "audit_events_request_id_length");;;
   ensure (bounded 128%Z (au_server_node_id NEW)) (check_violation "audit_events_server_node_id_length");;;
   ensure (bounded 128%Z (au_session_id NEW)) (check_violation "audit_events_session_id_length");;;
   ensure (bool_decide (au_severity NEW ∈ severities)) (check_violation "audit_events_severity_check");;;
   ensure (null_or (fun c => (100 <=? c) && (c <=? 599))%Z (au_status_code NEW))
     (check_violation "audit_events_status_code_check"))%sql.

(** [INSERT INTO audit_events (...)]; [occurred_at] is [now()]. *)
Definition insert_audit (row : timestamptz -> audit_row) : SQL unit :=
  (id <-- gen_random_uuid;
   t <-- now;
   let NEW := row t in
   check_audit NEW;;;
   table <-- sql_gets audit_events;
   ensure (bool_decide (table !! id = None)) (unique_violation "audit_events_pkey");;;
   sql_modify (set_audit (<[id := NEW]> table)))%sql.

(** The work of [logEvent]'s transaction. *)
Definition log_statement (event : Event) : SQL unit :=
  (category <-- text_param (category event);
   event_type <-- text_param (event_type event);
   severity <-- text_param (with_default (severity event) "info");
   actor_type <-- text_param (with_default (actor_type event) "user");
   actor <-- nullable uuid_param (user_value <$> actor_user_id event);
   target <-- nullable uuid_param (user_value <$> target_user_id event);
   hub <-- nullable uuid_param (hub_value <$> hub_id event);
   channel <-- nullable uuid_param (channel_value <$> channel_id event);
   message <-- nullable uuid_param (message_value <$> message_id event);
   attachment <-- nullable uuid_param (attachment_id event);
   invite <-- nullable uuid_param (invite_id event);
   request <-- nullable text_param (request_id event);
   session <-- nullable text_param (session_id event);
   connection <-- nullable text_param (connection_id event);
   node <-- nullable text_param (server_node_id event);
   error <-- nullable text_param (error_code event);
   metadata <-- jsonb_param (metadata_dump (metadata event));
   insert_audit (fun t => mkAuditRow t category event_type severity actor_type actor target hub channel
     message attachment invite request session connection node error (status_code event) metadata))%sql.

Definition logEvent (event : Event) : EX Pg unit :=
  if bool_decide (category event = ""%string)
  then UserRepository.throw "Audit event category is required"
  else if bool_decide (event_type event = ""%string)
  then UserRepository.throw "Audit event type is required"
  else db_write "AuditRepository.logEvent" (log_statement event).

(** ** Retention *)

(** [interval '30 days'], in microseconds. *)
Definition retention : Z := 30 * 24 * 3600 * 1000000.

Definition expired (t : timestamptz) : uuid * audit_row -> bool :=
  fun '(_, e) => (au_occurred_at e <? t - retention)%Z.

Definition oldest_key (row : uuid * audit_row) : list sort_key := [inl (au_occurred_at row.2)].

(** [purge_old_audit_events(p_limit)]; without concurrent transactions no row
    is locked. *)
Definition purge_old_audit_events (p_limit : Z) : SQL Z :=
  if (p_limit <=? 0)%Z then sql_ret 0%Z
  else
    (t <-- now;
     table <-- sql_gets audit_events;
     let old_events := take (Z.to_nat p_limit) (order_by oldest_key (select (expired t) table)) in
     sql_modify (set_audit (filter (fun '(k, _) => k ∉ old_events.*1) table));;;
     sql_ret (Z.of_nat (length old_events)))%sql.

Definition purgeOldEvents (limit : Z) : EX Pg Z :=
  if (limit <=? 0)%Z then ex_ret 0%Z
  else db_write "AuditRepository.purgeOldEvents" (purge_old_audit_events limit).

(** *** Proofs *)

Definition purged (limit : Z) (d : Db) : list (uuid * audit_row) :=
  take (Z.to_nat limit) (order_by oldest_key (select (expired (now_ d)) (audit_events d))).

Lemma purged_in limit d k e :
  (k, e) ∈ purged limit d -> audit_events d !! k = Some e /\ (au_occurred_at e < now_ d - retention)%Z.
Proof.
  intros (i & Hi & _)%elem_of_take. apply list_elem_of_lookup_2 in Hi.
  apply elem_of_order_by, elem_of_select in Hi as [Hk Hb%Z.ltb_lt]. done.
Qed.

Lemma purged_keys limit d : NoDup (purged limit d).*1.
Proof.
  unfold purged. rewrite fmap_take. eapply sublist_NoDup; [|apply sublist_take].
  rewrite order_by_perm. apply NoDup_select_keys.
Qed.

Lemma purge_inr limit d n d' :
  (0 < limit)%Z -> purge_old_audit_events limit d = inr (n, d') ->
  n = Z.of_nat (length (purged limit d)) /\
  d' = set_audit (filter (fun '(k, _) => k ∉ (purged limit d).*1) (audit_events d)) d.
Proof.
  intros Hl. unfold purge_old_audit_events. rewrite (proj2 (Z.leb_gt limit 0)) by lia.
  intros H. sql_inv. done.
Qed.

Lemma purge_size limit d :
  size (filter (fun '(k, _) => k ∉ (purged limit d).*1) (audit_events d)) =
  size (audit_events d) - length (purged limit d).
Proof.
  rewrite <- !size_dom.
  assert (dom (filter (fun '(k, _) => k ∉ (purged limit d).*1) (audit_events d)) =
    dom (audit_events d) ∖ list_to_set (purged limit d).*1) as ->.
  { apply set_eq. intros k. rewrite elem_of_difference, elem_of_list_to_set, !elem_of_dom. split.
    - intros [e [He Hk]%map_lookup_filter_Some]. split; [by exists e|done].
    - intros [[e He] Hk]. exists e. by apply map_lookup_filter_Some. }
  rewrite size_difference.
  - rewrite size_list_to_set by apply purged_keys. by rewrite length_fmap.
  - intros k Hk. apply elem_of_list_to_set, list_elem_of_fmap in Hk as ([k' e] & -> & [He _]%purged_in).
    apply elem_of_dom. by exists e.
Qed.

(** The expired events in order, and where one that stays is. *)
Definition expired_events (d : Db) : list (uuid * audit_row) :=
  order_by oldest_key (select (expired (now_ d)) (audit_events d)).

Lemma expired_stays limit d k e :
  audit_events d !! k = Some e -> k ∉ (purged limit d).*1 -> (au_occurred_at e < now_ d - retention)%Z ->
  (k, e) ∈ drop (Z.to_nat limit) (expired_events d).
Proof.
  intros Hk Hni Hexp. assert ((k, e) ∈ expired_events d) as Hall.
  { apply elem_of_order_by, elem_of_select. split; [done|]. by apply Z.ltb_lt. }
  rewrite <- (take_drop (Z.to_nat limit) (expired_events d)), elem_of_app in Hall.
  destruct Hall as [Ht|]; [|done]. destruct Hni. apply list_elem_of_fmap. by exists (k, e).
Qed.

Lemma event_gone limit d k e :
  audit_events d !! k = Some e ->
  filter (fun '(k, _) => k ∉ (purged limit d).*1) (audit_events d) !! k = None ->
  (k, e) ∈ take (Z.to_nat limit) (expired_events d).
Proof.
  intros Hk Hgone. destruct (decide (k ∈ (purged limit d).*1)) as [Hp|Hp].
  - apply list_elem_of_fmap in Hp as ([k2 e2] & -> & Hp). pose proof (purged_in _ _ _ _ Hp) as [He2 _].
    simpl in *. assert (e = e2) as -> by congruence. done.
  - exfalso. rewrite (proj2 (map_lookup_filter_Some _ _ k e)) in Hgone; done.
Qed.

(** The retention of audit events.  A purge that commits removes only
    events older than thirty days, at most [limit] of them, and answers how many;
    when it answers fewer than [limit] no expired event is left, and when one is
    left, none of those removed is younger. *)
Theorem purge_removes_oldest_expired (limit n : Z) (d d' : Db) :
  (0 < limit)%Z -> purge_old_audit_events limit d = inr (n, d') ->
  (0 <= n <= limit)%Z /\
  Z.of_nat (size (audit_events d')) = (Z.of_nat (size (audit_events d)) - n)%Z /\
  (forall k e, audit_events d' !! k = Some e -> audit_events d !! k = Some e) /\
  (forall k e, audit_events d !! k = Some e -> (now_ d - retention <= au_occurred_at e)%Z ->
     audit_events d' !! k = Some e) /\
  (forall k e, audit_events d' !! k = Some e -> (au_occurred_at e < now_ d - retention)%Z ->
     n = limit /\ forall k' e', audit_events d !! k' = Some e' -> audit_events d' !! k' = None ->
       (au_occurred_at e' <= au_occurred_at e)%Z).
Proof.
  intros Hl [-> ->]%purge_inr; [|done]. simpl.
  assert (Hlen : length (purged limit d) <= Z.to_nat limit) by (unfold purged; rewrite length_take; lia).
  assert (Hle : length (purged limit d) <= size (audit_events d)).
  { rewrite <- (length_fmap fst), <- (size_list_to_set (C := gset uuid) _ (purged_keys limit d)), <- size_dom.
    apply subseteq_size. intros k Hk.
    apply elem_of_list_to_set, list_elem_of_fmap in Hk as ([k' e] & -> & [He _]%purged_in).
    apply elem_of_dom. by exists e. }
  split_and!.
  - lia.
  - lia.
  - rewrite purge_size. lia.
  - by intros k e [? _]%map_lookup_filter_Some.
  - intros k e Hk He. apply map_lookup_filter_Some. split; [done|].
    intros ([k' e'] & -> & [Hk' He']%purged_in)%list_elem_of_fmap. simpl in *.
    assert (e = e') as -> by congruence. lia.
  - intros k e [Hk Hni]%map_lookup_filter_Some Hexp.
    pose proof (expired_stays limit d k e Hk Hni Hexp) as Hin. split.
    + assert (Hdl : 0 < length (drop (Z.to_nat limit) (expired_events d))).
      { destruct (drop _ (expired_events d)); simpl; [by apply not_elem_of_nil in Hin|lia]. }
      rewrite length_drop in Hdl. unfold purged. fold (expired_events d). rewrite length_take. lia.
    + intros k' e' Hk' Hgone. pose proof (event_gone limit d k' e' Hk' Hgone) as Hp.
      pose proof (order_by_sorted oldest_key (select (expired (now_ d)) (audit_events d))) as Hs.
      fold (expired_events d) in Hs. rewrite <- (take_drop (Z.to_nat limit) (expired_events d)) in Hs.
      destruct (StronglySorted_app_1_elem_of _ _ _ _ _ Hs Hp Hin) as [H _]. exact H.
Qed.

End Audit.

(** Two events of a database that is older than a month; one goes. *)
Definition old_event (t : timestamptz) : audit_row :=
  mkAuditRow t "hub" "hub.created" "info" "user" None None None None None None None None None None None
    None None (JObject ∅).
Definition audited : Db :=
  mkDatabase ∅ ∅ ∅ ∅ ∅ ∅ ∅ ∅ {["a" := old_event 10; "b" := old_event 5]}%string ∅ ∅ (retention + 100) [].

Lemma purge_removes_oldest_expired_witness :
  exists d', purge_old_audit_events 1 audited = inr (1%Z, d') /\
    Z.of_nat (size (audit_events d')) = (Z.of_nat (size (audit_events audited)) - 1)%Z.
Proof.
  eexists. split; [vm_compute; reflexivity|].
  apply (purge_removes_oldest_expired 1 1 audited); [lia|]. vm_compute. reflexivity.
Defined.

End AuditRepository.

Module AccountDeletion.
Import Sql Database HubTables HubInvariants MessageInvariants UserRepository Store AuditRepository.

(** ** Text *)

Definition hex_char (c : ascii) : bool :=
  ((48 <=? code c) && (code c <=? 57) || (97 <=? code c) && (code c <=? 102))%Z.

Fixpoint all_chars (p : ascii -> bool) (s : string) : bool :=
  match s with EmptyString => true | String c s' => p c && all_chars p s' end.

(** [h ~ '^[0-9a-f]{64}$']. *)
Definition email_hash_ok (h : string) : bool := (String.length h =? 64)%nat && all_chars hex_char h.

(** [replace(s, '-', '')]. *)
Fixpoint without_dashes (s : string) : string :=
  match s with
  | EmptyString => EmptyString
  | String c s' => if (code c =? 45)%Z then without_dashes s' else String c (without_dashes s')
  end.

Section Deletion.
Context `{PG : Postgres}.

(** ** The table of requests *)

Definition statuses : list string :=
  ["requested"; "running"; "blocked"; "completed"; "failed"; "cancelled"].

Definition not_before (t : timestamptz) : option timestamptz -> bool := null_or (fun x => (t <=? x)%Z).

(** The constraints of [account_deletion_requests], by name. *)
Definition check_deletion (r : deletion_row) : SQL unit :=
  (ensure (not_before (dr_requested_at r) (dr_auth_soft_deleted_at r))
     (check_violation "account_deletion_requests_auth_soft_deleted_at_check");;;
   ensure (not_before (dr_requested_at r) (dr_blocked_at r))
     (check_violation "account_deletion_requests_blocked_at_check");;;
   ensure (null_or (length_at_most 120) (dr_error_code r))
     (check_violation "account_deletion_requests_error_code_length");;;
   ensure (null_or (length_at_most 1000) (dr_failure_reason r))
     (check_violation "account_deletion_requests_failure_reason_length");;;
   ensure (not_before (dr_requested_at r) (dr_finished_at r))
     (check_violation "account_deletion_requests_finished_at_check");;;
   ensure (not_before (dr_requested_at r) (dr_memberships_removed_at r))
     (check_violation "account_deletion_requests_memberships_removed_at_check");;;
   ensure (is_object (dr_metadata r)) (check_violation "account_deletion_requests_metadata_object");;;
   ensure (not_before (dr_requested_at r) (dr_profile_anonymized_at r))
     (check_violation "account_deletion_requests_profile_anonymized_at_check");;;
   ensure (not_before (dr_requested_at r) (dr_started_at r))
     (check_violation "account_deletion_requests_started_at_check");;;
   ensure (bool_decide (dr_status r ∈ statuses))
     (check_violation "account_deletion_requests_status_check"))%sql.

Definition in_progress (r : deletion_row) : bool :=
  bool_decide (dr_status r = "requested"%string) || bool_decide (dr_status r = "running"%string).

(** The index [idx_account_deletion_requests_one_active]. *)
Definition no_other_active (id : uuid) (r : deletion_row) (d : Db) : bool :=
  negb (in_progress r) ||
  bool_decide (select (fun '(k, x) => bool_decide (k <> id) && in_progress x &&
    bool_decide (dr_subject_user_id x = dr_subject_user_id r)) (deletion_requests d) = []).

(** Store the row of [id], after the checks; [new_key] on an [INSERT]. *)
Definition put_deletion (id : uuid) (new_key : bool) (NEW : deletion_row) : SQL unit :=
  (check_deletion NEW;;;
   table <-- sql_gets deletion_requests;
   ensure (negb new_key || bool_decide (table !! id = None))
     (unique_violation "account_deletion_requests_pkey");;;
   free <-- sql_gets (no_other_active id NEW);
   ensure free (unique_violation "idx_account_deletion_requests_one_active");;;
   sql_modify (fun d => set_deletions (<[id := NEW]> (deletion_requests d)) d))%sql.

(** [UPDATE account_deletion_requests SET ... WHERE id = ...]; the trigger
    stamps [updated_at]. *)
Definition update_deletion (id : option uuid) (f : timestamptz -> deletion_row -> deletion_row) : SQL unit :=
  (table <-- sql_gets deletion_requests;
   t <-- now;
   match (id ≫= fun k => pair k <$> table !! k) with
   | None => sql_ret tt
   | Some (id, OLD) =>
     let r := f t OLD in
     put_deletion id false (mkDeletionRow (dr_subject_user_id r) (dr_requested_by r) (dr_status r)
       (dr_requested_at r) (dr_started_at r) (dr_blocked_at r) (dr_auth_soft_deleted_at r)
       (dr_memberships_removed_at r) (dr_profile_anonymized_at r) (dr_finished_at r) t
       (dr_error_code r) (dr_failure_reason r) (dr_metadata r))
   end)%sql.

(** The correlation identifiers of the request. *)
Record Context_ := mkContext {
  cx_request_id : option string; cx_session_id : option string; cx_connection_id : option string;
  cx_server_node_id : option string }.

(** An audit event of the account. *)
Definition account_event (event_type severity actor : string) (u : option uuid) (cx : Context_)
  (error : option string) (metadata : json) : SQL unit :=
  insert_audit (fun t => mkAuditRow t "account" event_type severity actor u u None None
    None None None (cx_request_id cx) (cx_session_id cx) (cx_connection_id cx) (cx_server_node_id cx)
    error None metadata).

(** ** Soft deletion of a profile *)

(** [DELETE FROM hub_members WHERE user_id = u]. *)
Definition others (u : uuid) (ms : gmap (uuid * uuid) member_row) : gmap (uuid * uuid) member_row :=
  filter (fun '((_, v), _) => v <> u) ms.

(** Trigger [trg_profiles_soft_delete_hub_cleanup]. *)
Definition handle_profile_soft_delete_for_hubs (id : uuid) (OLD NEW : profile_row) : SQL unit :=
  if bool_decide (p_deleted_at OLD = None) && bool_decide (p_deleted_at NEW <> None)
  then (owned <-- sql_gets (fun d => select (owned_by id) (hubs d));
        ensure (bool_decide (owned = [])) (raise_exception "Account deletion blocked: user owns hubs");;;
        sql_modify (fun d => set_members (others id (memberships d)) d))%sql
  else sql_ret tt.

(** [UPDATE profiles SET user_name = ..., deleted_at = now() WHERE user_id = id]. *)
Definition anonymize_profile (id : uuid) : SQL unit :=
  (table <-- sql_gets profiles;
   t <-- now;
   match table !! id with
   | None => sql_ret tt
   | Some OLD =>
     let NEW := mkProfile ("deleted_" +:+ without_dashes id) "Silinmiş Kullanıcı" "" None (Some t)
                  (p_created_at OLD) t in
     handle_profile_soft_delete_for_hubs id OLD NEW;;;
     put_profile id NEW
   end)%sql.

(** ** The workflow *)

Inductive deletion_status := blocked | anonymized.
Record deletion_result := mkResult {
  res_request_id : uuid; res_status : deletion_status; res_owned_hub_count : nat }.

Definition reserve_email (hash : string) (u : uuid) : SQL unit :=
  (id <-- gen_random_uuid;
   t <-- now;
   ensure (email_hash_ok hash) (check_violation "account_deleted_email_reservations_email_hash_hex");;;
   table <-- sql_gets reservations;
   if bool_decide (select (fun '(_, r) => bool_decide (er_email_hash r = hash)) table = [])
   then ensure (bool_decide (table !! id = None))
          (unique_violation "account_deleted_email_reservations_pkey");;;
        sql_modify (set_reservations (<[id := mkReservation hash (Some u) t]> table))
   else sql_ret tt)%sql.

(** The first statements: a running request and its event. *)
Definition open_request (u : uuid) (cx : Context_) : SQL uuid :=
  (id <-- gen_random_uuid;
   t <-- now;
   put_deletion id true (mkDeletionRow u (Some u) "running" t (Some t) None None
     None None None t None None (JObject ∅));;;
   account_event "account.delete_requested" "info" "user" (Some u) cx None (JObject ∅);;;
   sql_ret id)%sql.

(** The user still owns hubs. *)
Definition block_request (id u : uuid) (owned : nat) (cx : Context_) : SQL unit :=
  let count := JObject {["owned_hub_count"%string := JUnsigned (Z.of_nat owned)]} in
  (update_deletion (Some id) (fun t r => mkDeletionRow (dr_subject_user_id r) (dr_requested_by r)
     "blocked" (dr_requested_at r) (dr_started_at r) (Some t) (dr_auth_soft_deleted_at r)
     (dr_memberships_removed_at r) (dr_profile_anonymized_at r) (dr_finished_at r)
     (dr_updated_at r) (dr_error_code r) (dr_failure_reason r) count);;;
   account_event "account.delete_blocked_owned_hubs" "warning" "user" (Some u) cx None count)%sql.

(** Reserve the address, leave the hubs, anonymize the profile. *)
Definition erase_account (id u : uuid) (hash : string) (cx : Context_) : SQL unit :=
  let event ty := account_event ty "info" "user" (Some u) cx None (JObject ∅) in
  (reserve_email hash u;;;
   event "account.email_reserved_for_deleted_account"%string;;;
   sql_modify (fun d => set_members (others u (memberships d)) d);;;
   update_deletion (Some id) (fun t r => mkDeletionRow (dr_subject_user_id r) (dr_requested_by r)
     (dr_status r) (dr_requested_at r) (dr_started_at r) (dr_blocked_at r)
     (dr_auth_soft_deleted_at r) (Some t) (dr_profile_anonymized_at r) (dr_finished_at r)
     (dr_updated_at r) (dr_error_code r) (dr_failure_reason r) (dr_metadata r));;;
   event "account.memberships_removed"%string;;;
   anonymize_profile u;;;
   update_deletion (Some id) (fun t r => mkDeletionRow (dr_subject_user_id r) (dr_requested_by r)
     (dr_status r) (dr_requested_at r) (dr_started_at r) (dr_blocked_at r)
     (dr_auth_soft_deleted_at r) (dr_memberships_removed_at r) (Some t) (dr_finished_at r)
     (dr_updated_at r) (dr_error_code r) (dr_failure_reason r) (dr_metadata r));;;
   event "account.profile_anonymized"%string)%sql.

(** The body, with both arguments present and the digest well formed. *)
Definition delete_account (p_user_id : uuid) (p_email_hash : string) (cx : Context_)
  : SQL deletion_result :=
  (v_deletion_id <-- open_request p_user_id cx;
   v_owned_hub_count <-- sql_gets (fun d => length (select (owned_by p_user_id) (hubs d)));
   if (0 <? v_owned_hub_count)%nat
   then block_request v_deletion_id p_user_id v_owned_hub_count cx;;;
        sql_ret (mkResult v_deletion_id blocked v_owned_hub_count)
   else erase_account v_deletion_id p_user_id p_email_hash cx;;;
        sql_ret (mkResult v_deletion_id anonymized 0))%sql.

Definition request_account_deletion (p_user_id : option uuid) (p_email_hash : option string)
  (cx : Context_) : SQL deletion_result :=
  match p_user_id with
  | None => sql_raise (raise_exception "Subject user id is required")
  | Some u =>
    match p_email_hash with
    | Some h => if email_hash_ok h then delete_account u h cx
                else sql_raise (raise_exception "Email hash must be a 64-character hex digest")
    | None => sql_raise (raise_exception "Email hash must be a 64-character hex digest")
    end
  end.

(** The endings of the workflow have no session and no connection. *)
Definition without_session (p_request_id p_server_node_id : option string) : Context_ :=
  mkContext p_request_id None None p_server_node_id.

Definition complete_account_deletion (p_deletion_id p_user_id : option uuid)
  (p_request_id p_server_node_id : option string) : SQL unit :=
  let event ty := account_event ty "info" "system" p_user_id
    (without_session p_request_id p_server_node_id) None (JObject ∅) in
  (update_deletion p_deletion_id (fun t r => mkDeletionRow (dr_subject_user_id r) (dr_requested_by r)
     "completed" (dr_requested_at r) (dr_started_at r) (dr_blocked_at r) (Some t)
     (dr_memberships_removed_at r) (dr_profile_anonymized_at r) (Some t) (dr_updated_at r)
     (dr_error_code r) (dr_failure_reason r) (dr_metadata r));;;
   event "account.auth_soft_deleted"%string;;;
   event "account.delete_completed"%string)%sql.

Definition fail_account_deletion (p_deletion_id p_user_id : option uuid)
  (p_error_code p_failure_reason p_request_id p_server_node_id : option string) : SQL unit :=
  (update_deletion p_deletion_id (fun t r => mkDeletionRow (dr_subject_user_id r) (dr_requested_by r)
     "failed" (dr_requested_at r) (dr_started_at r) (dr_blocked_at r) (dr_auth_soft_deleted_at r)
     (dr_memberships_removed_at r) (dr_profile_anonymized_at r) (Some t) (dr_updated_at r)
     p_error_code p_failure_reason (dr_metadata r));;;
   account_event "account.delete_failed" "error" "system" p_user_id
     (without_session p_request_id p_server_node_id) p_error_code
     (JObject {["error_code"%string := from_option JString JNull p_error_code]}))%sql.

Definition is_email_reserved (p_email_hash : option string) : SQL bool :=
  sql_gets (fun d => bool_decide
    (select (fun '(_, r) => bool_decide (Some (er_email_hash r) = p_email_hash)) (reservations d) <> [])).

(** ** Sign-up *)

(** [v_metadata ->> key]. *)
Definition json_text (j : json) (key : string) : option string :=
  match field j key with
  | None | Some JNull => None
  | Some (JString s) => Some s
  | Some j' => Some (jsonb_out j')
  end.

Definition nullif (s e : string) : option string := if bool_decide (s = e) then None else Some s.

(** Trigger [trg_create_profile_from_auth_user]. *)
Definition create_profile_from_auth_user (id : uuid) (raw_user_meta_data : option json) : SQL unit :=
  let v_metadata := default (JObject ∅) raw_user_meta_data in
  let v_user_name := lower (btrim (default ""%string
    (match json_text v_metadata "user_name" with
     | Some n => Some n
     | None => json_text v_metadata "username"
     end))) in
  let v_display_name := btrim (default v_user_name (json_text v_metadata "display_name")) in
  let v_avatar_seed := default "Caleb"%string
    (json_text v_metadata "avatar_seed" ≫= fun s => nullif (btrim s) "") in
  (ensure (negb (bool_decide (v_user_name = ""%string))) (raise_exception "Profile user_name is required");;;
   ensure (negb (bool_decide (v_display_name = ""%string)))
     (raise_exception "Profile display_name is required");;;
   t <-- now;
   table <-- sql_gets profiles;
   let NEW := mkProfile v_user_name v_display_name v_avatar_seed None None t t in
   match table !! id with
   | Some _ => check_profiles NEW
   | None => put_profile id NEW
   end)%sql.

(** ** Proofs *)

(** Only the audit events, the requests and the draws differ. *)
Definition logged (d d' : Db) : Prop :=
  exists a q us, us `suffix_of` draws d /\ d' = set_audit a (set_deletions q (set_draws us d)).

#[local] Instance logged_preorder : PreOrder logged.
Proof.
  split.
  - intros d. exists (audit_events d), (deletion_requests d), (draws d). by destruct d.
  - intros d1 d2 d3 (a & q & us & Hs & ->) (a' & q' & us' & Hs' & ->). exists a', q', us'.
    split; [by etrans|done].
Qed.

Lemma draw_logged d u d' : gen_random_uuid d = inr (u, d') -> logged d d'.
Proof.
  intros (us & Hus & ->)%gen_random_uuid_inr. exists (audit_events d), (deletion_requests d), us.
  split; [rewrite Hus; by exists [u]|by destruct d].
Qed.

Lemma put_deletion_inr id b NEW d x d' :
  put_deletion id b NEW d = inr (x, d') -> d' = set_deletions (<[id := NEW]> (deletion_requests d)) d.
Proof. unfold put_deletion, check_deletion. intros H. by sql_inv. Qed.

Lemma put_deletion_logged id b NEW d x d' : put_deletion id b NEW d = inr (x, d') -> logged d d'.
Proof.
  intros ->%put_deletion_inr. exists (audit_events d), (<[id := NEW]> (deletion_requests d)), (draws d).
  split; [done|]. by destruct d.
Qed.

Lemma update_deletion_logged id f d x d' : update_deletion id f d = inr (x, d') -> logged d d'.
Proof.
  unfold update_deletion. intros H. sql_inv. destruct (id ≫= _) as [[k OLD]|]; sql_inv; [|done].
  by eapply put_deletion_logged.
Qed.

(** The row after an update, when there is one. *)
Lemma update_deletion_row id f d x d' OLD :
  deletion_requests d !! id = Some OLD -> update_deletion (Some id) f d = inr (x, d') ->
  exists r, deletion_requests d' !! id = Some r /\ dr_status r = dr_status (f (now_ d) OLD).
Proof.
  intros Hid. unfold update_deletion. intros H. sql_inv. simpl in H. rewrite Hid in H. simpl in H.
  apply put_deletion_inr in H as ->. eexists. simpl. by rewrite lookup_insert_eq.
Qed.

Lemma account_event_logged ty sv ac u cx e m d x d' :
  account_event ty sv ac u cx e m d = inr (x, d') ->
  logged d d' /\ deletion_requests d' = deletion_requests d.
Proof.
  unfold account_event, insert_audit, check_audit. intros H. sql_inv. split; [|done].
  eexists _, (deletion_requests d), us. split; [|reflexivity].
  match goal with H : draws d = _ |- _ => rewrite H end. by eexists [_].
Qed.

Lemma logged_ok ids d d' : db_ok ids d -> logged d d' -> db_ok ids d'.
Proof.
  intros Hok (a & q & us & Hs & ->). apply (message_step_ok ids d); [done|].
  split; try done. by apply messages_frame; eauto.
Qed.

Lemma reserve_email_inr h u d x d' :
  reserve_email h u d = inr (x, d') ->
  exists us res, us `suffix_of` draws d /\ d' = set_reservations res (set_draws us d) /\
    reservations d ⊆ res /\ exists k r, res !! k = Some r /\ er_email_hash r = h.
Proof.
  unfold reserve_email. intros H. sql_inv. exists us.
  match goal with H : draws d = _ |- _ =>
    assert (Hs : us `suffix_of` draws d) by (rewrite H; by eexists [_]) end.
  case_bool_decide as Hb; sql_inv.
  - match goal with H : bool_decide (_ = None) = true |- _ => apply bool_decide_eq_true in H as Hn end.
    eexists. split_and!; [done|reflexivity|by apply insert_subseteq|].
    eexists _, _. by rewrite lookup_insert_eq.
  - exists (reservations d). split_and!; [done|by destruct d|done|].
    destruct (select _ _) as [|[k r] l] eqn:E; [done|].
    assert (Hin : (k, r) ∈ (k, r) :: l) by apply list_elem_of_here. rewrite <- E in Hin.
    apply elem_of_select in Hin as [Hk Hh%bool_decide_eq_true]. eauto.
Qed.

Lemma is_email_reserved_spec h d :
  is_email_reserved (Some h) d = inr (true, d) <->
  exists k r, reservations d !! k = Some r /\ er_email_hash r = h.
Proof.
  unfold is_email_reserved, sql_gets. split.
  - intros [= Hb%bool_decide_eq_true]. destruct (select _ _) as [|[k r] l] eqn:E; [done|].
    assert (Hin : (k, r) ∈ (k, r) :: l) by apply list_elem_of_here. rewrite <- E in Hin.
    apply elem_of_select in Hin as [Hk [= Hh]%bool_decide_eq_true]. eauto.
  - intros (k & r & Hk & <-). do 2 f_equal. apply bool_decide_eq_true. intros Hnil.
    apply (not_elem_of_nil (k, r)). rewrite <- Hnil. apply elem_of_select. by rewrite bool_decide_true.
Qed.

(** The profile after the anonymization. *)
Definition anonymous (id : uuid) (t : timestamptz) (OLD : profile_row) : profile_row :=
  mkProfile ("deleted_" +:+ without_dashes id) "Silinmiş Kullanıcı" "" None (Some t) (p_created_at OLD) t.

Lemma others_idem u ms : others u (others u ms) = others u ms.
Proof. apply map_filter_id. by intros [h v] m [_ ?]%map_lookup_filter_Some. Qed.

Lemma anonymize_profile_inr u d x d' :
  select (owned_by u) (hubs d) = [] -> others u (memberships d) = memberships d ->
  anonymize_profile u d = inr (x, d') ->
  d' = set_profiles (alter (anonymous u (now_ d)) u (profiles d)) d /\ (profiles_ok d -> profiles_ok d').
Proof.
  intros Hown Hmem. unfold anonymize_profile. intros H. sql_inv.
  destruct (profiles d !! u) as [OLD|] eqn:E; sql_inv; cycle 1.
  { split; [|done]. rewrite alter_id; [by destruct d|]. congruence. }
  match goal with H : handle_profile_soft_delete_for_hubs _ _ _ d = inr (_, ?s) |- _ =>
    assert (s = d) as -> by (unfold handle_profile_soft_delete_for_hubs in H;
      case_match; sql_inv; [rewrite Hmem; by destruct d|done]) end.
  split; [|intros Hok; by eapply put_profile_ok].
  apply put_profile_inr in H as [-> _]. f_equal. apply map_eq. intros k.
  destruct (decide (u = k)) as [<-|Hne].
  - by rewrite lookup_insert_eq, lookup_alter_eq, E.
  - by rewrite lookup_insert_ne, lookup_alter_ne.
Qed.


Lemma reserve_email_ok ids h u d x d' : db_ok ids d -> reserve_email h u d = inr (x, d') -> db_ok ids d'.
Proof.
  intros Hok (us & res & Hs & -> & _)%reserve_email_inr. apply (message_step_ok ids d); [done|].
  split; try done. by apply messages_frame; eauto.
Qed.

Lemma others_ok ids u d : db_ok ids d -> db_ok ids (set_members (others u (memberships d)) d).
Proof.
  intros Hok. apply (hub_statement ids d); try done; [|set_solver|].
  - apply fewer_members; [apply Hok|apply map_filter_subseteq].
  - apply (messages_frame d); eauto. apply Hok.
Qed.

(** A profile that owns nothing and is no member may be soft-deleted. *)
Lemma anonymize_ok ids u d x d' :
  select (owned_by u) (hubs d) = [] -> others u (memberships d) = memberships d ->
  anonymize_profile u d = inr (x, d') -> db_ok ids d -> db_ok ids d'.
Proof.
  intros Hown Hmem Ha [[Hp Hdr Hr Hh Hm Hc] Hms Hpr Hi].
  apply anonymize_profile_inr in Ha as [-> Hpr']; [|done..].
  assert (Hact : forall v, v <> u -> active v d ->
    active v (set_profiles (alter (anonymous u (now_ d)) u (profiles d)) d)).
  { intros v Hne (p & Hv & Hnd). exists p. simpl. by rewrite lookup_alter_ne. }
  constructor; [constructor| |by apply Hpr'|].
  - intros v. simpl. rewrite lookup_alter_is_Some. apply Hp.
  - done.
  - by apply (roles_frame d).
  - destruct Hh as [H1 H2 H3]. constructor; [|done..]. intros id h Hid.
    destruct (H1 id h Hid) as (? & ? & ? & ?). split_and!; try done. apply Hact; [|done]. intros <-.
    apply (not_elem_of_nil (id, h)). rewrite <- Hown. apply elem_of_select.
    split; [done|]. by apply bool_decide_eq_true.
  - destruct Hm as [H1 H2]. constructor; [|done]. intros id v m Hid.
    destruct (H1 id v m Hid) as (? & ? & ? & ?). split_and!; try done. apply Hact; [|done]. intros ->.
    simpl in Hid. rewrite <- Hmem in Hid. by apply map_lookup_filter_Some in Hid as [_ ?].
  - by apply (channel_rows_frame d).
  - apply (messages_frame d); eauto.
  - destruct Hi as [I1 I2 I3]. constructor; try done. simpl. by rewrite dom_alter_L.
Qed.


(** What a statement that only logs leaves as it is. *)
Lemma logged_frame d d' :
  logged d d' ->
  profiles d' = profiles d /\ hubs d' = hubs d /\ memberships d' = memberships d /\
  channels d' = channels d /\ messages d' = messages d /\ attachments d' = attachments d /\
  reservations d' = reservations d /\ now_ d' = now_ d.
Proof. by intros (a & q & us & _ & ->). Qed.

(** The request [id] has the status [st]. *)
Definition request_is (id : uuid) (st : string) (d : Db) : Prop :=
  exists r, deletion_requests d !! id = Some r /\ dr_status r = st.

Lemma request_stays id st f d x d' :
  (forall t r, dr_status (f t r) = dr_status r) -> request_is id st d ->
  update_deletion (Some id) f d = inr (x, d') -> request_is id st d'.
Proof.
  intros Hf (r & Hid & <-) Hu. destruct (update_deletion_row _ _ _ _ _ _ Hid Hu) as (r' & ? & Hs).
  exists r'. by rewrite Hs, Hf.
Qed.

Lemma open_request_inr u cx d id d' :
  open_request u cx d = inr (id, d') -> logged d d' /\ request_is id "running" d'.
Proof.
  unfold open_request. intros H. sql_inv.
  match goal with H : account_event _ _ _ _ _ _ _ _ = _ |- _ =>
    apply account_event_logged in H as [Hl Hq] end.
  match goal with H : put_deletion _ _ _ _ = _ |- _ =>
    pose proof (put_deletion_logged _ _ _ _ _ _ H); apply put_deletion_inr in H as -> end.
  split.
  - etrans; [|exact Hl]. etrans; [|done]. eapply draw_logged. unfold gen_random_uuid.
    by match goal with H : draws d = _ |- _ => rewrite H end.
  - unfold request_is. rewrite Hq. simpl. rewrite lookup_insert_eq. eauto.
Qed.

(** What the workflow has done when it answers that the account is gone. *)
Record deleted (u : uuid) (h : string) (d d' : Db) : Prop := mk_deleted {
  dl_profiles : profiles d' = alter (anonymous u (now_ d)) u (profiles d);
  dl_hubs : hubs d' = hubs d;
  dl_members : memberships d' = others u (memberships d);
  dl_channels : channels d' = channels d;
  dl_messages : messages d' = messages d;
  dl_attachments : attachments d' = attachments d;
  dl_reservations : reservations d ⊆ reservations d';
  dl_email : is_email_reserved (Some h) d' = inr (true, d')
}.


Lemma block_request_inr id u n cx d x d' :
  request_is id "running" d -> block_request id u n cx d = inr (x, d') ->
  logged d d' /\ request_is id "blocked" d'.
Proof.
  intros (r & Hid & _). unfold block_request. intros H. sql_inv.
  match goal with H : account_event _ _ _ _ _ _ _ _ = _ |- _ =>
    apply account_event_logged in H as [Hl Hq] end.
  match goal with H : update_deletion _ _ _ = _ |- _ =>
    pose proof (update_deletion_logged _ _ _ _ _ H) as Hl';
    apply (update_deletion_row _ _ _ _ _ _ Hid) in H as (r' & ? & ?) end.
  split; [by etrans|]. exists r'. by rewrite Hq.
Qed.

(** The statements between two that change the account only log, and keep the request. *)
Definition logging (id : uuid) (d d' : Db) : Prop :=
  logged d d' /\ forall st, request_is id st d -> request_is id st d'.

#[local] Instance logging_preorder id : PreOrder (logging id).
Proof.
  split; [by split|]. intros d1 d2 d3 [] []. split; [by etrans|auto].
Qed.

Lemma event_logging id ty sv ac u cx e m d x d' :
  account_event ty sv ac u cx e m d = inr (x, d') -> logging id d d'.
Proof. intros [? Hq]%account_event_logged. split; [done|]. unfold request_is. by rewrite Hq. Qed.

Lemma update_logging id f d x d' :
  (forall t r, dr_status (f t r) = dr_status r) ->
  update_deletion (Some id) f d = inr (x, d') -> logging id d d'.
Proof.
  intros Hf Hu. split; [by eapply update_deletion_logged|]. intros st Hst. by eapply request_stays.
Qed.

(** The steps of [erase_account], with what is logged between them. *)
Lemma erase_account_inr id u h cx d x d' :
  erase_account id u h cx d = inr (x, d') ->
  exists d1 d2 d3 d4, reserve_email h u d = inr (tt, d1) /\ logging id d1 d2 /\
    logging id (set_members (others u (memberships d2)) d2) d3 /\
    anonymize_profile u d3 = inr (tt, d4) /\ logging id d4 d'.
Proof.
  unfold erase_account. intros H. sql_inv.
  repeat match goal with
  | u : unit |- _ => destruct u
  | H : account_event _ _ _ _ _ _ _ _ = _ |- _ => apply (event_logging id) in H
  | H : update_deletion _ _ _ = _ |- _ => apply update_logging in H; [|done]
  end.
  eexists _, _, _, _. split_and!; [eassumption|eassumption| |eassumption|]; by etrans.
Qed.

Lemma erase_account_deleted id u h cx d x d' :
  select (owned_by u) (hubs d) = [] -> erase_account id u h cx d = inr (x, d') -> deleted u h d d'.
Proof.
  intros Hown (d1 & d2 & d3 & d4 & Hr & [L2 _] & [L3 _] & Ha & [L4 _])%erase_account_inr.
  apply reserve_email_inr in Hr as (us & res & _ & -> & Hsub & Hh).
  apply logged_frame in L2 as (P2&H2&M2&C2&S2&A2&R2&N2), L3 as (P3&H3&M3&C3&S3&A3&R3&N3),
    L4 as (P4&H4&M4&C4&S4&A4&R4&N4). simpl in *.
  apply anonymize_profile_inr in Ha as [-> _]; [|congruence|by rewrite M3, others_idem]. simpl in *.
  constructor; try congruence.
  - by rewrite R4, R3, R2.
  - apply is_email_reserved_spec. by rewrite R4, R3, R2.
Qed.

Lemma erase_account_ok ids id u h cx d x d' :
  select (owned_by u) (hubs d) = [] -> erase_account id u h cx d = inr (x, d') ->
  db_ok ids d -> db_ok ids d'.
Proof.
  intros Hown (d1 & d2 & d3 & d4 & Hr & [L2 _] & [L3 _] & Ha & [L4 _])%erase_account_inr Hok.
  eapply reserve_email_ok in Hok as Hok1; [|exact Hr].
  apply reserve_email_inr in Hr as (us & res & _ & -> & _).
  pose proof (logged_ok _ _ _ Hok1 L2) as Hok2%(others_ok _ u).
  pose proof (logged_ok _ _ _ Hok2 L3) as Hok3.
  apply logged_frame in L2 as (_&H2&_), L3 as (_&H3&M3&_). simpl in *.
  eapply logged_ok; [|exact L4]. eapply anonymize_ok; [..|exact Ha|exact Hok3]; [congruence|].
  by rewrite M3, others_idem.
Qed.

Lemma erase_account_request id u h cx d x d' :
  request_is id "running" d -> erase_account id u h cx d = inr (x, d') -> request_is id "running" d'.
Proof.
  intros Hq (d1 & d2 & d3 & d4 & Hr & [_ L2] & [_ L3] & Ha & [_ L4])%erase_account_inr.
  apply reserve_email_inr in Hr as (us & res & _ & -> & _). apply L4.
  assert (Hd4 : deletion_requests d4 = deletion_requests d3).
  { unfold anonymize_profile in Ha. sql_inv. destruct (profiles d3 !! u); sql_inv; [|done].
    apply put_profile_inr in Ha as [-> _]. unfold handle_profile_soft_delete_for_hubs in *.
    case_match; by sql_inv. }
  unfold request_is. rewrite Hd4. by apply L3, L2.
Qed.

(** C25: account deletion is all or nothing.  A request that commits either
    finds hubs the user owns, and then records itself as blocked and changes
    nothing but the log; or finds none, and then the user is a member of no hub,
    the profile carries the anonymous name and the time of deletion, the address
    is reserved, and every hub, channel, message, attachment and other membership
    is as it was.  Both keep the invariant of the schema, so nobody deleted owns
    or is in a hub. *)
Theorem account_deletion_all_or_nothing (ids : gset uuid) (u : uuid) (h : string) (cx : Context_)
  (d : Db) (r : deletion_result) (d' : Db) :
  db_ok ids d -> request_account_deletion (Some u) (Some h) cx d = inr (r, d') ->
  db_ok ids d' /\ res_owned_hub_count r = length (select (owned_by u) (hubs d)) /\
  match res_status r with
  | blocked => select (owned_by u) (hubs d) <> [] /\ logged d d' /\
      request_is (res_request_id r) "blocked" d'
  | anonymized => select (owned_by u) (hubs d) = [] /\ deleted u h d d' /\
      request_is (res_request_id r) "running" d'
  end.
Proof.
  intros Hok H. simpl in H. destruct (email_hash_ok h); [|done]. unfold delete_account in H. sql_inv.
  match goal with H : open_request _ _ _ = _ |- _ => apply open_request_inr in H as [Hl Hq] end.
  pose proof (logged_ok _ _ _ Hok Hl) as Hok1.
  pose proof (logged_frame _ _ Hl) as (P1&H1&M1&C1&S1&A1&R1&N1). rewrite H1 in *.
  destruct (0 <? _)%nat eqn:Hb; sql_inv; simpl.
  - apply Nat.ltb_lt in Hb. match goal with H : block_request _ _ _ _ _ = _ |- _ =>
      apply block_request_inr in H as [Hl' Hq']; [|done] end.
    split_and!; [by eapply logged_ok|done| |by etrans|done]. intros E. rewrite E in Hb. simpl in Hb. lia.
  - apply Nat.ltb_ge in Hb. assert (Hnil : select (owned_by u) (hubs d) = [])
      by (apply nil_length_inv; lia).
    match goal with H : erase_account _ _ _ _ _ = _ |- _ => rename H into He end.
    split_and!; [eapply erase_account_ok; [|done..]; by rewrite H1|by rewrite Hnil|done| |].
    + apply erase_account_deleted in He as []; [|by rewrite H1].
      constructor; try congruence. by rewrite <- R1.
    + by eapply erase_account_request.
Qed.


(** *** The other functions keep the schema too *)

Lemma complete_account_deletion_ok ids id u rq node d x d' :
  db_ok ids d -> complete_account_deletion id u rq node d = inr (x, d') -> db_ok ids d'.
Proof.
  intros Hok. unfold complete_account_deletion. intros H. sql_inv.
  repeat match goal with H : account_event _ _ _ _ _ _ _ _ = _ |- _ => apply account_event_logged in H as [] end.
  match goal with H : update_deletion _ _ _ = _ |- _ => apply update_deletion_logged in H end.
  eauto using logged_ok.
Qed.

Lemma fail_account_deletion_ok ids id u e f rq node d x d' :
  db_ok ids d -> fail_account_deletion id u e f rq node d = inr (x, d') -> db_ok ids d'.
Proof.
  intros Hok. unfold fail_account_deletion. intros H. sql_inv.
  match goal with H : account_event _ _ _ _ _ _ _ _ = _ |- _ => apply account_event_logged in H as [] end.
  match goal with H : update_deletion _ _ _ = _ |- _ => apply update_deletion_logged in H end.
  eauto using logged_ok.
Qed.

(** A profile for a user who has none. *)
Lemma new_profile_ok ids id NEW d x d' :
  canonical id -> id ∈ ids -> profiles d !! id = None -> db_ok ids d ->
  put_profile id NEW d = inr (x, d') -> db_ok ids d'.
Proof.
  intros Hcan Hids Hnew [[Hp Hdr Hr Hh Hm Hc] Hms Hpr [I1 I2 I3]] Hput.
  pose proof (put_profile_ok _ _ _ _ _ Hpr Hput) as Hpr'. apply put_profile_inr in Hput as [-> _].
  assert (Hact : forall v, active v d -> active v (set_profiles (<[id := NEW]> (profiles d)) d)).
  { intros v (p & Hv & Hnd). exists p. simpl. rewrite lookup_insert_ne; [done|congruence]. }
  constructor; [constructor| |done|].
  - intros v. simpl. rewrite lookup_insert_is_Some'. intros [<-|?]; eauto.
  - done.
  - by apply (roles_frame d).
  - destruct Hh as [H1 H2 H3]. constructor; [|done..]. intros k h Hk.
    destruct (H1 k h Hk) as (?&?&?&?). eauto.
  - destruct Hm as [H1 H2]. constructor; [|done]. intros k v m Hk.
    destruct (H1 k v m Hk) as (?&?&?&?). eauto.
  - by apply (channel_rows_frame d).
  - apply (messages_frame d); eauto.
  - constructor; try done. simpl. rewrite dom_insert. set_solver.
Qed.

Lemma create_profile_ok ids id meta d x d' :
  canonical id -> id ∈ ids -> db_ok ids d ->
  create_profile_from_auth_user id meta d = inr (x, d') -> db_ok ids d' /\ is_Some (profiles d' !! id).
Proof.
  intros Hcan Hids Hok. unfold create_profile_from_auth_user. cbv zeta. intros H. sql_inv.
  destruct (profiles d !! id) as [p|] eqn:E.
  - unfold check_profiles in H. sql_inv. by rewrite E.
  - split; [by eapply new_profile_ok|]. apply put_profile_inr in H as [-> _]. simpl.
    by rewrite lookup_insert_eq.
Qed.

End Deletion.

Import SqlDemo.

(** Alice owns no hub; the account is gone and Bob's is not. *)
Definition digest : string := "0123456789abcdef0123456789abcdef0123456789abcdef0123456789abcdef".
Definition web : Context_ := mkContext (Some "req-1"%string) None None None.

Definition gone : deletion_result * Db :=
  match request_account_deletion (Some "alice"%string) (Some digest) web db0 with
  | inr r => r
  | inl _ => (mkResult "" blocked 0, db0)
  end.

Example gone_state :
  (res_status gone.1, p_user_name <$> profiles gone.2 !! "alice"%string,
   p_user_name <$> profiles gone.2 !! "bob"%string, size (audit_events gone.2)) =
  (anonymized, Some "deleted_alice", Some "bob", 4)%string.
Proof. vm_compute. reflexivity. Qed.

Lemma account_deletion_all_or_nothing_witness :
  db_ok ids0 gone.2 /\ deleted "alice" digest db0 gone.2.
Proof.
  assert (Hrun : request_account_deletion (Some "alice"%string) (Some digest) web db0 =
    inr (gone.1, gone.2)) by (vm_compute; reflexivity).
  pose proof (account_deletion_all_or_nothing ids0 "alice" digest web db0 gone.1 gone.2
    db0_ok Hrun) as H.
  assert (Hst : res_status gone.1 = anonymized) by (vm_compute; reflexivity).
  rewrite Hst in H. exact (conj (proj1 H) (proj1 (proj2 (proj2 (proj2 H))))).
Defined.

End AccountDeletion.
