(* ===== verification/SqlErrors.v ===== *)
(** * What a failed write tells the user

    The outcome of [HubRepository::createHub] and [createChannel] on a connection
    that holds, for every state of the tables, and what the commands make of the
    exception: [map_hub_write_error] and [map_channel_write_error] of
    [app/commands/utils.cpp] look for phrases in its text. *)

From S2P Require Import Prelude.
From S2P Require Import CStrings.
From S2P Require Import Ids.
From S2P Require Import CommandUtils.
From S2P Require Import HubService.
From S2P Require Import UserService.
From S2P Require Import Sql.
From S2P Require Import Database.
From S2P Require Import HubTables.
From S2P Require Import HubInvariants.
From S2P Require Import HubRepository.
From S2P Require Import Store.
From S2P Require Import SqlDemo.

Module SqlErrors.
Import Sql Database HubTables HubInvariants HubRepository.

Definition hub_limit : string := "Hub ownership limit reached: max 2 hubs per owner".
Definition channel_limit : string := "Channel limit reached: max 3 channels per hub".

(** What the commands rely on in PostgreSQL's texts, whatever the detail: a
    raised message is there, the channel limit's does not speak of a duplicate
    key, and a violated index is named. *)
Class PgTexts `{PG : Postgres} : Prop := {
  text_hub_limit : forall detail,
    Utils.contains (pg_what (raise_exception hub_limit) detail) "Hub ownership limit reached" = true;
  text_channel_limit : forall detail,
    Utils.contains (pg_what (raise_exception channel_limit) detail) "Channel limit reached" = true;
  text_not_duplicate : forall detail needle,
    needle ∈ ["idx_channels_hub_name_unique"; "23505"; "duplicate key"]%string ->
    Utils.contains (pg_what (raise_exception channel_limit) detail) needle = false;
  text_index : forall detail,
    Utils.contains (pg_what (unique_violation "idx_channels_hub_name_unique") detail)
      "idx_channels_hub_name_unique" = true
}.

(** What a call leaves: the exception and the tables as they were, or a result. *)
Definition throws {A} (p : Pg) (t : Turn) (r : option A * Pg) : Prop :=
  r.1 = None /\ contents r.2 = start t (contents p).

Section Outcomes.
Context `{PG : Postgres} `{PT : !PgTexts}.

Lemma map_channel_limit detail :
  Utils.map_channel_write_error (pg_what (raise_exception channel_limit) detail) =
  Some "Channel limit reached: max 3 channels per hub"%string.
Proof.
  unfold Utils.map_channel_write_error. rewrite !text_not_duplicate by set_solver.
  by rewrite text_channel_limit.
Qed.

Lemma map_channel_duplicate detail :
  Utils.map_channel_write_error (pg_what (unique_violation "idx_channels_hub_name_unique") detail) =
  Some "Channel name already exists"%string.
Proof. unfold Utils.map_channel_write_error. by rewrite text_index. Qed.

Lemma map_hub_limit detail :
  Utils.map_hub_write_error (pg_what (raise_exception hub_limit) detail) =
  Some "Hub limit reached: you can own at most 2 hubs"%string.
Proof. unfold Utils.map_hub_write_error. by rewrite text_hub_limit. Qed.

(** The user is active and the uuid drawn is new. *)
Lemma active_not_deleted u d : active u d -> profile_deleted_at u d = None /\ is_Some (profiles d !! u).
Proof. intros (p & Hp & Hd). unfold profile_deleted_at. by rewrite Hp. Qed.

(** Run the statements up to the next test. *)
Ltac sql_run := cbn -[length_between channel_name_free hub_name_free
  ensure_owner_membership select Nat.leb].

(** Every outcome of the statement, in the order of its checks. *)
Lemma insert_channel_outcome h n ty u d id us :
  draws d = id :: us -> channels d !! id = None -> is_Some (hubs d !! h) -> active u d ->
  (ty = "text" \/ ty = "voice")%string ->
  let NEW := mkChannelRow h n ty 0 (Some u) (now_ d) (now_ d) in
  insert_channel h n ty u d =
  if (3 <=? length (select (inside h) (channels d)))%nat then inl (raise_exception channel_limit)
  else if length_between 1 80 n then
    if channel_name_free id NEW d
    then inr (id, set_channels (<[id := NEW]> (channels d)) (set_draws us d))
    else inl (unique_violation "idx_channels_hub_name_unique")
  else inl (check_violation "channels_name_length").
Proof.
  intros Hd Hid Hh Hu Hty NEW. destruct (active_not_deleted u d Hu) as [Hdel Hp].
  unfold insert_channel, ensure_channel_creator_active, enforce_max_channels_per_hub, check_channels,
    references, sql_bind, gen_random_uuid, now, sql_gets, sql_modify, sql_ret, sql_raise, ensure.
  rewrite Hd. sql_run. fold NEW. change (profile_deleted_at u (set_draws us d)) with (profile_deleted_at u d).
  rewrite Hdel, (bool_decide_true (None = None)) by done. unfold inside. sql_run.
  destruct (3 <=? _)%nat; [done|]. sql_run. destruct (length_between 1 80 n); [|done]. sql_run.
  rewrite (bool_decide_true (ty = _ \/ _)) by done. sql_run. rewrite Hid, bool_decide_true by done. sql_run.
  change (channel_name_free id NEW (set_draws us d)) with (channel_name_free id NEW d).
  destruct (channel_name_free id NEW d); [|done]. sql_run.
  rewrite bool_decide_true by done. sql_run. by rewrite bool_decide_true.
Qed.

(** The owner of a new hub becomes its member. *)
Lemma ensure_owner_membership_runs id NEW d :
  hubs_ok d -> hubs d !! id = None -> active (h_owner_id NEW) d ->
  exists d', ensure_owner_membership id NEW (set_hubs (<[id := NEW]> (hubs d)) d) = inr (tt, d').
Proof.
  intros Hok Hid Hu. set (d1 := set_hubs (<[id := NEW]> (hubs d)) d).
  destruct (get_hub_role_id_system "owner" d (hk_roles d Hok)) as [role Hrole]; [set_solver|].
  assert (Hrole1 : get_hub_role_id "owner" d1 = Some role) by exact Hrole.
  apply get_hub_role_id_spec in Hrole as (r & Hr & _); [|apply Hok].
  destruct (active_not_deleted _ d Hu) as [Hdel Hp].
  assert (Hdel1 : profile_deleted_at (h_owner_id NEW) d1 = None) by exact Hdel.
  assert (Hm : memberships d1 !! (id, h_owner_id NEW) = None).
  { apply eq_None_not_Some. intros [m Hm]. destruct (mo_row d (hk_members d Hok) _ _ _ Hm) as (_&_&_&h&Hh&_).
    congruence. }
  assert (Hh : hubs d1 !! id = Some NEW) by (simpl; by rewrite lookup_insert_eq).
  unfold ensure_owner_membership, upsert_member, prevent_invalid_owner_role, ensure_hub_member_active,
    references, now, sql_bind, sql_gets, sql_modify, ensure, sql_ret.
  rewrite Hrole1, (bool_decide_true (is_Some (Some role))) by done.
  rewrite (bool_decide_true (_ /\ _)), Hh by done. cbn -[d1 profile_deleted_at].
  rewrite (bool_decide_true (h_owner_id NEW = h_owner_id NEW)), Hdel1, bool_decide_true, Hm by done.
  cbn -[d1]. rewrite !bool_decide_true; [eauto|..]; [by exists r|exact Hp|by exists NEW].
Qed.

Lemma insert_hub_outcome n o d id us :
  hubs_ok d -> draws d = id :: us -> hubs d !! id = None -> active o d ->
  let NEW := mkHubRow n "Felix" o (Some o) (now_ d) (now_ d) in
  if (2 <=? length (select (owned_by o) (hubs d)))%nat
  then insert_hub n o d = inl (raise_exception hub_limit)
  else if length_between 1 80 n then
    if hub_name_free id NEW d
    then exists d', insert_hub n o d = inr ((id, NEW), d')
    else insert_hub n o d = inl (unique_violation "idx_hubs_owner_name_unique")
  else insert_hub n o d = inl (check_violation "hubs_name_length").
Proof.
  intros Hok Hd Hid Hu NEW. destruct (active_not_deleted o d Hu) as [Hdel Hp].
  unfold insert_hub, ensure_hub_owner_active, enforce_max_hubs_per_owner, check_hubs, references, sql_bind,
    gen_random_uuid, now, sql_gets, sql_modify, sql_ret, sql_raise, ensure.
  rewrite Hd. sql_run. fold NEW. unfold owned_by.
  destruct (2 <=? _)%nat; [done|]. sql_run.
  change (profile_deleted_at o (set_draws us d)) with (profile_deleted_at o d).
  rewrite Hdel, (bool_decide_true (None = None)) by done. sql_run.
  change (length_at_most 128 "Felix") with true. sql_run.
  destruct (length_between 1 80 n); [|done]. sql_run. rewrite Hid, bool_decide_true by done. sql_run.
  change (hub_name_free id NEW (set_draws us d)) with (hub_name_free id NEW d).
  destruct (hub_name_free id NEW d); [|done]. sql_run. rewrite bool_decide_true by done. sql_run.
  rewrite bool_decide_true by done. sql_run.
  destruct (ensure_owner_membership_runs id NEW (set_draws us d)) as [d' Hrun]; [|done..|].
  - apply (Store.hubs_frame d); try done. simpl. rewrite Hd. by exists [id].
  - change (hubs (set_draws us d)) with (hubs d) in Hrun. rewrite Hrun. eauto.
Qed.

(** ** The calls *)

Definition hub_taken (name : string) (u : uuid) (d : Db) : Prop :=
  exists k h, hubs d !! k = Some h /\ h_owner_id h = u /\ lower (h_name h) = lower name.
Definition channel_taken (name : string) (hub : uuid) (d : Db) : Prop :=
  exists k c, channels d !! k = Some c /\ c_hub_id c = hub /\ lower (c_name c) = lower name.

Lemma hub_name_free_taken id NEW d :
  hubs d !! id = None -> hub_name_free id NEW d = true <-> ~ hub_taken (h_name NEW) (h_owner_id NEW) d.
Proof.
  intros Hid. rewrite name_free_hub. split.
  - intros Hall (k & h & Hk & Ho & Hn). assert (k = id) as -> by eauto. congruence.
  - intros Hnt k h Hk Ho Hn. destruct Hnt. exists k, h. done.
Qed.

Lemma channel_name_free_taken id NEW d :
  channels d !! id = None -> channel_name_free id NEW d = true <-> ~ channel_taken (c_name NEW) (c_hub_id NEW) d.
Proof.
  intros Hid. rewrite name_free_channel. split.
  - intros Hall (k & c & Hk & Ho & Hn). assert (k = id) as -> by eauto. congruence.
  - intros Hnt k c Hk Ho Hn. destruct Hnt. exists k, c. done.
Qed.

(** A user with a profile, a connection that holds, a uuid not yet in use. *)
Record ready (p : Pg) (t : Turn) (id : uuid) (user : UserId) (u : uuid) : Prop := mk_ready {
  rd_ok : hubs_ok (contents p);
  rd_turn : head (turns p) = Some t;
  rd_healthy : healthy t;
  rd_draw : head (draws (contents p)) = Some id;
  rd_hub : hubs (contents p) !! id = None;
  rd_channel : channels (contents p) !! id = None;
  rd_user : uuid_in (user_value user) = Some u;
  rd_active : active u (contents p)
}.

Lemma uuid_param_run s u d : uuid_in s = Some u -> uuid_param s d = inr (u, d).
Proof. unfold uuid_param. by intros ->. Qed.
Lemma text_param_run s d : text_in s = true -> text_param s d = inr (s, d).
Proof. unfold text_param. by intros ->. Qed.

Lemma createHub_outcome p t id user u name :
  ready p t id user u -> text_in name = true ->
  let r := createHub name user p in
  let owned := length (select (owned_by u) (hubs (contents p))) in
  (2 <= owned -> throws p t r /\ err_what r.2 = pg_what (raise_exception hub_limit) (turn_what t)) /\
  (owned < 2 -> length_between 1 80 name = true -> hub_taken name u (contents p) ->
     throws p t r /\ last_failure r.2 = SqlError (unique_violation "idx_hubs_owner_name_unique") (turn_what t)) /\
  (owned < 2 -> length_between 1 80 name = true -> ~ hub_taken name u (contents p) ->
     hub_id <$> r.1 = Some (mkHubId id) /\
     exists row, hubs (contents r.2) = <[id := row]> (hubs (contents p)) /\ h_name row = name /\ h_owner_id row = u).
Proof.
  intros [Hok Ht Hh Hd Hid Hic Hu Ha] Htext r owned. subst r.
  destruct (turns p) as [|t' ts] eqn:Et; [done|]. injection Ht as ->.
  destruct (draws (contents p)) as [|id' us] eqn:Ed; [done|]. injection Hd as ->.
  destruct (start_ok (contents p) (now_ (contents p) + 1 + Z.of_nat (elapsed t))%Z Hok ltac:(lia)) as [Hok' _].
  pose proof (insert_hub_outcome name u (start t (contents p)) id us Hok' Ed Hid Ha) as Ho. cbv zeta in Ho.
  change (hubs (start t (contents p))) with (hubs (contents p)) in Ho. fold owned in Ho.
  assert (Hrun : createHub name user p =
    match insert_hub name u (start t (contents p)) with
    | inl e => (None, mkPg (start t (contents p)) ts (SqlError e (turn_what t)))
    | inr (row, d) => (Some (parse_hub_row row), mkPg d ts (last_failure p))
    end).
  { unfold createHub, db_write. rewrite (transaction_healthy _ _ _ _ _ _ Et Hh). unfold sql_bind.
    rewrite (uuid_param_run _ _ _ Hu), (text_param_run _ _ Htext).
    by destruct (insert_hub _ _ _) as [|[]]. }
  rewrite Hrun.
  split_and!.
  - intros Hlim. rewrite (proj2 (Nat.leb_le _ _) Hlim) in Ho. by rewrite Ho.
  - intros Hlim Hl Htk. rewrite (proj2 (Nat.leb_gt _ _) Hlim), Hl in Ho.
    destruct (hub_name_free _ _ _) eqn:Ef; [|by rewrite Ho].
    by apply hub_name_free_taken in Ef.
  - intros Hlim Hl Htk. rewrite (proj2 (Nat.leb_gt _ _) Hlim), Hl in Ho.
    destruct (hub_name_free _ _ _) eqn:Ef; cycle 1.
    { apply not_true_iff_false in Ef. destruct Ef. by apply hub_name_free_taken. }
    destruct Ho as [d' Ho]. rewrite Ho. simpl. split; [done|].
    apply insert_hub_inr in Ho as (us' & row & _ & _ & -> & _). simpl. eauto.
Qed.

Lemma createChannel_outcome p t id user u name hub h type :
  ready p t id user u -> text_in name = true -> text_in type = true ->
  (type = "text" \/ type = "voice")%string -> uuid_in (hub_value hub) = Some h ->
  is_Some (hubs (contents p) !! h) ->
  let r := createChannel hub name type user p in
  let there := length (select (inside h) (channels (contents p))) in
  (3 <= there -> throws p t r /\ err_what r.2 = pg_what (raise_exception channel_limit) (turn_what t)) /\
  (there < 3 -> length_between 1 80 name = true -> channel_taken name h (contents p) ->
     throws p t r /\ err_what r.2 = pg_what (unique_violation "idx_channels_hub_name_unique") (turn_what t)) /\
  (there < 3 -> length_between 1 80 name = true -> ~ channel_taken name h (contents p) ->
     r.1 = Some (mkChannelId id) /\
     exists row, channels (contents r.2) = <[id := row]> (channels (contents p)) /\
       c_name row = name /\ c_hub_id row = h /\ c_type row = type).
Proof.
  intros [Hok Ht Hh Hd Hid Hic Hu Ha] Htext Htype Hty Hhub Hex r there. subst r.
  destruct (turns p) as [|t' ts] eqn:Et; [done|]. injection Ht as ->.
  destruct (draws (contents p)) as [|id' us] eqn:Ed; [done|]. injection Hd as ->.
  pose proof (insert_channel_outcome h name type u (start t (contents p)) id us Ed Hic Hex Ha Hty) as Ho.
  cbv zeta in Ho. change (channels (start t (contents p))) with (channels (contents p)) in Ho.
  fold there in Ho.
  assert (Hrun : createChannel hub name type user p =
    match insert_channel h name type u (start t (contents p)) with
    | inl e => (None, mkPg (start t (contents p)) ts (SqlError e (turn_what t)))
    | inr (k, d) => (Some (mkChannelId k), mkPg d ts (last_failure p))
    end).
  { unfold createChannel, db_write. rewrite (transaction_healthy _ _ _ _ _ _ Et Hh). unfold sql_bind.
    rewrite (uuid_param_run _ _ _ Hhub), (text_param_run _ _ Htext), (text_param_run _ _ Htype),
      (uuid_param_run _ _ _ Hu). by destruct (insert_channel _ _ _ _ _) as [|[]]. }
  rewrite Hrun, Ho. split_and!.
  - intros Hlim. by rewrite (proj2 (Nat.leb_le _ _) Hlim).
  - intros Hlim Hl Htk. rewrite (proj2 (Nat.leb_gt _ _) Hlim), Hl.
    destruct (channel_name_free _ _ _) eqn:Ef; [|done]. by apply channel_name_free_taken in Ef.
  - intros Hlim Hl Htk. rewrite (proj2 (Nat.leb_gt _ _) Hlim), Hl.
    destruct (channel_name_free _ _ _) eqn:Ef; simpl; [by eauto 10|].
    apply not_true_iff_false in Ef. destruct Ef. by apply channel_name_free_taken.
Qed.

(** C28: the limits and names that the tables enforce reach the user.  On a
    connection that holds, with a name of 1 to 80 characters, a user who owns
    two hubs cannot create a third and is told of the limit, a name the user has
    given another hub is refused by the index, and otherwise the user gets a hub
    with the next uuid; a hub with three channels takes no fourth and the user is
    told of the limit, a channel name in use is reported as such, and otherwise
    the channel is stored.  Every refusal leaves the tables as they were.  The
    refused hub name is the one refusal the user is not told of:
    [duplicate_hub_name_unmapped]. *)
Theorem refused_creations_reported (p : Pg) (t : Turn) (id : uuid) (user : UserId) (u : uuid)
  (name : string) (hub : HubId) (h : uuid) (type : string) :
  ready p t id user u -> text_in name = true -> length_between 1 80 name = true ->
  text_in type = true -> (type = "text" \/ type = "voice")%string ->
  uuid_in (hub_value hub) = Some h -> is_Some (hubs (contents p) !! h) ->
  let hubs_owned := length (select (owned_by u) (hubs (contents p))) in
  let there := length (select (inside h) (channels (contents p))) in
  let created := createHub name user p in
  let added := createChannel hub name type user p in
  (2 <= hubs_owned -> throws p t created /\
     Utils.map_hub_write_error (err_what created.2) =
       Some "Hub limit reached: you can own at most 2 hubs"%string) /\
  (hubs_owned < 2 -> hub_taken name u (contents p) ->
     throws p t created /\ err_unique_violation created.2 = true) /\
  (hubs_owned < 2 -> ~ hub_taken name u (contents p) -> hub_id <$> created.1 = Some (mkHubId id)) /\
  (3 <= there -> throws p t added /\
     Utils.map_channel_write_error (err_what added.2) =
       Some "Channel limit reached: max 3 channels per hub"%string) /\
  (there < 3 -> channel_taken name h (contents p) -> throws p t added /\
     Utils.map_channel_write_error (err_what added.2) = Some "Channel name already exists"%string) /\
  (there < 3 -> ~ channel_taken name h (contents p) -> added.1 = Some (mkChannelId id)).
Proof.
  intros Hr Hn Hlen Hty Htype Hhub Hex hubs_owned there created added. subst created added.
  destruct (createHub_outcome p t id user u name Hr Hn) as (H1 & H2 & H3).
  destruct (createChannel_outcome p t id user u name hub h type Hr Hn Hty Htype Hhub Hex)
    as (C1 & C2 & C3).
  split_and!.
  - intros Hl. destruct (H1 Hl) as [? ->]. by rewrite map_hub_limit.
  - intros Hl Ht. destruct (H2 Hl Hlen Ht) as [? Hf]. split; [done|]. simpl. by rewrite Hf.
  - intros Hl Ht. by apply H3.
  - intros Hl. destruct (C1 Hl) as [? ->]. by rewrite map_channel_limit.
  - intros Hl Ht. destruct (C2 Hl Hlen Ht) as [? ->]. by rewrite map_channel_duplicate.
  - intros Hl Ht. by apply C3.
Qed.

End Outcomes.

(** *** Alice's first hub, with three channels *)

Import SqlDemo.

#[export] Instance texts0 : PgTexts.
Proof.
  split; [by intros|by intros| |].
  - intros detail needle Hn. repeat (apply elem_of_cons in Hn as [->|Hn]; [reflexivity|]).
    by apply not_elem_of_nil in Hn.
  - intros detail. vm_compute. reflexivity.
Qed.

Definition hub1 : hub_row := mkHubRow "home" "Felix" "alice" (Some "alice"%string) 50 50.
Definition channel1 (name : string) (t : Z) : channel_row :=
  mkChannelRow "h1" name "text" 0 (Some "alice"%string) t t.
Definition full_db : Db :=
  set_channels {["c1" := channel1 "general" 61; "c2" := channel1 "games" 62; "c3" := channel1 "news" 63]}%string
    (set_members {[("h1", "alice")%string := mkMemberRow "r1" None 50 50]}
       (set_hubs {["h1"%string := hub1]} db0)).
Definition full_pg : Pg := mkPg full_db (replicate 3 commits) NoFailure.

Lemma full_channel id c :
  channels full_db !! id = Some c ->
  (id = "c1" /\ c = channel1 "general" 61 \/ id = "c2" /\ c = channel1 "games" 62 \/
   id = "c3" /\ c = channel1 "news" 63)%string.
Proof.
  simpl. rewrite !lookup_insert_Some, lookup_singleton_Some.
  intros [[<- <-]|[_ [[<- <-]|[_ [<- <-]]]]]; auto.
Qed.

Lemma full_hubs_ok : hubs_ok full_db.
Proof.
  destruct (Store.dk_hubs ids0 db0 db0_ok) as [H1 H2 H3 _ _ _]. constructor; [done|done|by apply (roles_frame db0)|..].
  - constructor; simpl.
    + intros id h [<- <-]%lookup_singleton_Some. split_and!; [done|by eexists|done..].
    + intros id id' h h' [<- <-]%lookup_singleton_Some [<- <-]%lookup_singleton_Some. done.
    + intros o. etrans; [apply length_filter|]. vm_compute. lia.
  - constructor; simpl.
    + intros id u m [[= <- <-] <-]%lookup_singleton_Some. split_and!; [by eexists|by eexists|done|].
      by exists hub1.
    + intros id u u' m m' [[= <- <-] <-]%lookup_singleton_Some [[= <-] <-]%lookup_singleton_Some. done.
  - constructor.
    + intros id c Hc%full_channel. destruct Hc as [[-> ->]|[[-> ->]|[-> ->]]]; split_and!; try done; by (left + eexists).
    + intros id id' c c' Hc%full_channel Hc'%full_channel.
      destruct Hc as [[-> ->]|[[-> ->]|[-> ->]]], Hc' as [[-> ->]|[[-> ->]|[-> ->]]]; done.
    + intros id id' c c' Hc%full_channel Hc'%full_channel.
      destruct Hc as [[-> ->]|[[-> ->]|[-> ->]]], Hc' as [[-> ->]|[[-> ->]|[-> ->]]]; done.
    + intros h. etrans; [apply length_filter|]. vm_compute. lia.
Qed.

Lemma full_hub k x : hubs (contents full_pg) !! k = Some x -> x = hub1.
Proof. simpl. by intros [_ <-]%lookup_singleton_Some. Qed.

Lemma full_ready : ready full_pg commits "u1" alice "alice".
Proof. constructor; try done; [apply full_hubs_ok|by eexists]. Qed.

Lemma refused_creations_reported_witness :
  Utils.map_channel_write_error (err_what (createChannel (mkHubId "h1") "music" "text" alice full_pg).2) =
    Some "Channel limit reached: max 3 channels per hub"%string /\
  hub_id <$> (createHub "music" alice full_pg).1 = Some (mkHubId "u1").
Proof.
  assert (Hhub : is_Some (hubs (contents full_pg) !! "h1"%string)) by by exists hub1.
  pose proof (refused_creations_reported full_pg commits "u1" alice "alice" "music" (mkHubId "h1") "h1" "text"
    full_ready eq_refl eq_refl eq_refl (or_introl eq_refl) eq_refl Hhub) as H.
  assert (H3 : 3 <= length (select (inside "h1") (channels (contents full_pg))))
    by (vm_compute; lia).
  assert (H1 : length (select (owned_by "alice") (hubs (contents full_pg))) < 2) by (vm_compute; lia).
  assert (Hfree : ~ hub_taken "music" "alice" (contents full_pg)).
  { intros (k & x & Hx & _ & Hl). rewrite (full_hub k x Hx) in Hl. vm_compute in Hl. discriminate Hl. }
  destruct H as (_ & _ & Hnew & Hfull & _).
  exact (conj (proj2 (Hfull H3)) (Hnew H1 Hfree)).
Defined.

(** A second hub of the same name: the index refuses it, and no phrase of
    [map_hub_write_error] is in the text, so the user is told of an internal error. *)
Example duplicate_hub_name_unmapped :
  let r := createHub "Home" alice full_pg in
  (r.1, err_unique_violation r.2, Utils.map_hub_write_error (err_what r.2)) = (None, true, None).
Proof. vm_compute. reflexivity. Qed.


End SqlErrors.
