(* ===== verification/Endpoints.v ===== *)
(** * Public URLs

    [core/PublicEndpointConfig.cpp]: the two configured origins, their
    validation, and the URLs derived from them.  [inet_pton] is a parameter. *)

From S2P Require Import Prelude.
From S2P Require Import CStrings.
From Stdlib Require Import Ascii.

Local Open Scope string_scope.

(** ** Text *)

Definition islower (c : ascii) : bool := ((97 <=? code c) && (code c <=? 122))%Z.
Definition isupper (c : ascii) : bool := ((65 <=? code c) && (code c <=? 90))%Z.
Definition isdigit (c : ascii) : bool := bool_decide (is_Some (digit c)).

Definition front (s : string) : option ascii :=
  match s with String c _ => Some c | EmptyString => None end.
Fixpoint back (s : string) : option ascii :=
  match s with
  | EmptyString => None
  | String c EmptyString => Some c
  | String _ s' => back s'
  end.

Fixpoint all_chars (p : ascii -> bool) (s : string) : bool :=
  match s with EmptyString => true | String c s' => p c && all_chars p s' end.

(** What comes before and after the first [c]; [None]: [find(c) == npos]. *)
Fixpoint split_on (c : ascii) (s : string) : option (string * string) :=
  match s with
  | EmptyString => None
  | String d s' =>
    if bool_decide (d = c) then Some ("", s')
    else '(a, b) ← split_on c s'; Some (String d a, b)
  end.

(** [s.substr(n)] for [n <= s.size()]. *)
Fixpoint drop_chars (n : nat) (s : string) : string :=
  match n, s with
  | O, _ => s
  | S n', String _ s' => drop_chars n' s'
  | S _, EmptyString => EmptyString
  end.

(** [std::from_chars] to a [uint32_t]: the value and the text after it;
    [None]: no digit, or out of range. *)
Fixpoint after_digits (s : string) : string :=
  match s with
  | String c s' => if isdigit c then after_digits s' else s
  | EmptyString => EmptyString
  end.
Definition from_chars (s : string) : option (Z * string) :=
  if starts_with_digit s then
    let v := read_digits 0 s in
    if (v <? two32)%Z then Some (v, after_digits s) else None
  else None.

Lemma app_cons c a b : String c a ++ b = String c (a ++ b).
Proof. done. Qed.

Lemma app_text_assoc a b c : (a ++ b) ++ c = a ++ b ++ c.
Proof. induction a as [|x a IH]; [done|]. by rewrite !app_cons, IH. Qed.

Lemma length_text_app a b : String.length (a ++ b) = String.length a + String.length b.
Proof. induction a as [|x a IH]; [done|]. rewrite app_cons. simpl. by rewrite IH. Qed.

(** ** The configuration *)

(** [inet_pton(AF_INET)] and [inet_pton(AF_INET6)] return 1. *)
Class InetPton := { inet_pton4 : string -> bool; inet_pton6 : string -> bool }.

(** The environment: a variable's value, when it is set. *)
Abbreviation Env := (string -> option string).

Module PublicEndpointConfig.

Definition kRetiredPublicUrlVariables : list string :=
  ["CADDY_SITE_HOST"; "CADDY_ALLOWED_ORIGIN_1"; "CADDY_ALLOWED_ORIGIN_2"; "CADDY_WSS_ORIGIN_1";
   "CADDY_WSS_ORIGIN_2"; "LIVEKIT_NODE1_PUBLIC_URL"; "LIVEKIT_NODE2_PUBLIC_URL";
   "INVITE_BASE_URL"; "SUPABASE_PROJECT_ORIGIN"; "SUPABASE_EXPECTED_ISS"; "ACTUAL_DOMAIN"].

Definition is_valid_port (port : string) : bool :=
  if bool_decide (port = "") then false
  else match from_chars port with
       | Some (value, rest) =>
         bool_decide (rest = "") && (0 <? value)%Z && (value <=? 65535)%Z
       | None => false
       end.

Definition is_label_char (ch : ascii) : bool :=
  islower ch || isdigit ch || bool_decide (ch = "-"%char).

(** The loop over the labels; [host] is what is left of it, and has at most
    [fuel] characters. *)
Fixpoint labels_ok (fuel : nat) (host : string) : bool :=
  match fuel with
  | O => true
  | S f =>
    if bool_decide (host = "") then true
    else
      let '(label, rest) :=
        match split_on "." host with Some (l, r) => (l, Some r) | None => (host, None) end in
      if bool_decide (label = "") || bool_decide (front label = Some "-"%char) ||
         bool_decide (back label = Some "-"%char) then false
      else if negb (all_chars is_label_char label) then false
      else match rest with None => true | Some r => labels_ok f r end
  end.

Section Config.
Context `{InetPton}.

Definition is_valid_dns_or_ipv4_host (host : string) : bool :=
  if bool_decide (host = "") || bool_decide (front host = Some "."%char) ||
     bool_decide (back host = Some "."%char) then false
  else if inet_pton4 host then true
  else labels_ok (String.length host) host.

Definition forbidden_in_authority : list ascii :=
  ["/"; "?"; "#"; "@"; " "; chr 9; chr 13; chr 10]%char.

(** The port an authority carries, after its host has been accepted. *)
Definition authority_port (key authority : string) : expected (option string) string :=
  if bool_decide (front authority = Some "["%char) then
    match split_on "]" (drop_chars 1 authority) with
    | None | Some ("", _) => Unexpected (key ++ " contains an invalid IPv6 host")
    | Some (ipv6_host, suffix) =>
      if negb (inet_pton6 ipv6_host) then Unexpected (key ++ " contains an invalid IPv6 host")
      else match suffix with
           | EmptyString => Ok None
           | String c port =>
             if bool_decide (c = ":"%char) then Ok (Some port)
             else Unexpected (key ++ " contains an invalid authority")
           end
    end
  else
    match split_on ":" authority with
    | Some (host, port) =>
      if bool_decide (host = "") || bool_decide (is_Some (split_on ":" port))
      then Unexpected (key ++ " contains an invalid host")
      else if is_valid_dns_or_ipv4_host host then Ok (Some port)
      else Unexpected (key ++ " contains an invalid host")
    | None =>
      if is_valid_dns_or_ipv4_host authority then Ok None
      else Unexpected (key ++ " contains an invalid host")
    end.

(** [Unexpected]: the exception's text. *)
Definition validate_origin (key origin : string) : expected unit string :=
  if negb (String.prefix "https://" origin)
  then Unexpected (key ++ " must be a canonical HTTPS origin")
  else
    let authority := drop_chars 8 origin in
    if bool_decide (authority = "") ||
       negb (all_chars (fun c => bool_decide (c ∉ forbidden_in_authority)) authority)
    then Unexpected (key ++ " must contain only an HTTPS scheme, host, and optional port")
    else if negb (all_chars (fun c => negb (isupper c)) authority)
    then Unexpected (key ++ " must use a lowercase host")
    else
      match authority_port key authority with
      | Unexpected e => Unexpected e
      | Ok port =>
        if match port with Some p => negb (is_valid_port p) | None => false end
        then Unexpected (key ++ " contains an invalid port")
        else if bool_decide (port = Some "443")
        then Unexpected (key ++ " must omit the default HTTPS port :443")
        else Ok tt
      end.

Record t := mk { app_origin : string; supabase_origin : string }.

Definition from_origins (app supabase : string) : expected t string :=
  match validate_origin "WEB_DOMAIN" app with
  | Unexpected e => Unexpected e
  | Ok _ =>
    match validate_origin "NUXT_PUBLIC_SUPABASE_URL" supabase with
    | Unexpected e => Unexpected e
    | Ok _ => Ok (mk app supabase)
    end
  end.

Definition from_env (env : Env) : expected t string :=
  match List.find (fun key => bool_decide (is_Some (env key))) kRetiredPublicUrlVariables with
  | Some key =>
    Unexpected ("Retired public URL variable '" ++ key ++
                "' is set; configure only WEB_DOMAIN and NUXT_PUBLIC_SUPABASE_URL")
  | None =>
    from_origins (default "" (env "WEB_DOMAIN")) (default "" (env "NUXT_PUBLIC_SUPABASE_URL"))
  end.

(** [String.append_path] with a path the callers write themselves: it starts with a
    slash. *)
Definition append_path (origin path : string) : expected string string :=
  if String.prefix "/" path then Ok (origin ++ path)
  else Unexpected "Public endpoint path must start with '/'".

Definition websocket_origin (c : t) : string := "wss://" ++ drop_chars 8 (app_origin c).
Definition invite_base_url (c : t) : expected string string :=
  append_path (app_origin c) "/invite".
Definition livekit_node_url (c : t) (node_id : string) : expected string string :=
  if bool_decide (node_id = "") || bool_decide (is_Some (split_on "/" node_id))
  then Unexpected "LiveKit node id must be a non-empty path segment"
  else append_path (app_origin c) ("/livekit/" ++ node_id).
Definition livekit_cluster_url (c : t) : expected string string :=
  append_path (app_origin c) "/livekit".
Definition supabase_issuer (c : t) : expected string string :=
  append_path (supabase_origin c) "/auth/v1".

(** ** Accepted origins *)

Definition no_slash (s : string) : Prop := all_chars (fun c => bool_decide (c <> "/"%char)) s = true.

Lemma all_chars_impl (p q : ascii -> bool) s :
  (forall c, p c = true -> q c = true) -> all_chars p s = true -> all_chars q s = true.
Proof.
  intros Hpq. induction s as [|c s IH]; [done|]. cbn [all_chars].
  rewrite !andb_true_iff. intros [H1 H2]. auto.
Qed.

Lemma prefix_split p : forall s, String.prefix p s = true ->
  s = p ++ drop_chars (String.length p) s.
Proof.
  induction p as [|c p IH]; intros s; [done|]. destruct s as [|d s]; [done|]. simpl.
  destruct (ascii_dec c d) as [->|]; [|done]. intros Hp.
  by rewrite app_cons, <- IH.
Qed.

(** An accepted origin is [https://] and a non-empty authority without a path,
    query, fragment or user name. *)
Lemma accepted_origin key origin : validate_origin key origin = Ok tt ->
  exists authority, origin = "https://" ++ authority /\ authority <> "" /\ no_slash authority.
Proof.
  unfold validate_origin. destruct (String.prefix "https://" origin) eqn:Ep; [|done]. cbn [negb].
  set (a := drop_chars 8 origin). destruct (bool_decide (a = "")) eqn:Ee; [done|]. cbn [orb].
  destruct (all_chars _ a) eqn:Ea; [|done]. intros _. exists a. split.
  { by apply (prefix_split "https://") in Ep. }
  split; [by apply bool_decide_eq_false_1 in Ee|].
  eapply all_chars_impl; [|exact Ea]. intros c Hc%bool_decide_eq_true_1.
  apply bool_decide_eq_true_2. intros ->. apply Hc. left.
Qed.

End Config.
End PublicEndpointConfig.
