(* ===== verification/OriginPolicy.v ===== *)
(** * Origins and trusted proxies

    [net/security/transport/WsOriginPolicy.cpp] and the [.upgrade] callback of
    [net/transport/websocket/WebSocketTransport.cpp] in front of the transport
    of [Transport.v]: which requests become WebSocket connections.
    [inet_pton] is a parameter. *)

From S2P Require Import Prelude.
From S2P Require Import CStrings.
From S2P Require Import Ids.
From S2P Require Import Protocol.
From S2P Require Import PriorityQueues.
From S2P Require Import OutboundMsg.
From S2P Require Import OutgoingQueue.
From S2P Require Import Connections.
From S2P Require Import OutgoingWorker.
From S2P Require Import Transport.
From S2P Require Import HubService.
From S2P Require Import CommandUtils.
From S2P Require Import Endpoints.
From Stdlib Require Import Ascii.

Local Open Scope string_scope.

Module OriginPolicy.

(** [inet_pton]: the bytes in network order. *)
Class InetBytes := {
  pton4 : string -> option (list Z);
  pton6 : string -> option (list Z);
  pton4_bytes : forall s b, pton4 s = Some b -> length b = 4 /\ Forall (fun x => (0 <= x < 256)%Z) b;
  pton6_bytes : forall s b, pton6 s = Some b -> length b = 16 /\ Forall (fun x => (0 <= x < 256)%Z) b
}.

Inductive family := AF_INET | AF_INET6.
#[global] Instance family_eq_dec : EqDecision family.
Proof. solve_decision. Defined.

Record ParsedIp := mkIp { ip_family : family; bytes : list Z }.
Record CidrRange := mkCidr { cidr_family : family; network : list Z; prefix : Z }.
Record t := mk { allowed_origins_ : list string; trusted_proxy_cidrs_ : list CidrRange }.

(** ** Text *)

Definition trim_copy (value : string) : string := Utils.sanitize value.
Definition to_lower_ascii (value : string) : string := HubService.lower_string value.
Definition is_digits (value : string) : bool :=
  negb (bool_decide (value = "")) && all_chars isdigit value.
Definition quote : ascii := chr 34.
Definition apostrophe : ascii := chr 39.

(** The text without its first and last character. *)
Definition inner (s : string) : string := String.substring 1 (String.length s - 2) s.
Definition quoted_by (q : ascii) (s : string) : bool :=
  bool_decide (front s = Some q) && bool_decide (back s = Some q).

Definition strip_quotes (value : string) : string :=
  let out := trim_copy value in
  trim_copy (if (2 <=? String.length out)%nat && (quoted_by quote out || quoted_by apostrophe out)
             then inner out else out).

(** [while (!value.empty() && value.back() == '/') value.pop_back()]. *)
Fixpoint drop_slashes (s : string) : string :=
  match s with
  | EmptyString => EmptyString
  | String c s' =>
    match drop_slashes s' with
    | EmptyString => if bool_decide (c = "/"%char) then EmptyString else String c EmptyString
    | s'' => String c s''
    end
  end.

Definition has_char (c : ascii) (s : string) : bool := bool_decide (is_Some (split_on c s)).

(** What is before the first [c]. *)
Definition before (c : ascii) (s : string) : string :=
  match split_on c s with Some (a, _) => a | None => s end.

(** [s.c_str()] as a C string. *)
Definition c_str (s : string) : string := before (chr 0) s.

(** ** Origins *)

(** The host and port of an authority. *)
Definition host_port (authority : string) : option (string * string) :=
  match authority with
  | String "[" tail =>
    '(host, rem) ← split_on "]" tail;
    match rem with
    | EmptyString => Some ("[" ++ to_lower_ascii host ++ "]", "")
    | String c port =>
      if bool_decide (c <> ":"%char) || negb (is_digits port) then None
      else Some ("[" ++ to_lower_ascii host ++ "]", rem)
    end
  | _ =>
    match split_on ":" authority with
    | None => Some (to_lower_ascii authority, "")
    | Some (host, raw_port) =>
      if has_char ":" raw_port || negb (is_digits raw_port) then None
      else Some (to_lower_ascii host, ":" ++ raw_port)
    end
  end.

Definition normalize_origin (origin : string) : option string :=
  let value := drop_slashes (trim_copy origin) in
  if bool_decide (value = "") then None
  else
    scheme_pos ← String.index 0 "://" value;
    let scheme := to_lower_ascii (String.substring 0 scheme_pos value) in
    if negb (bool_decide (scheme = "http")) && negb (bool_decide (scheme = "https")) then None
    else
      let authority_and_path := drop_chars (scheme_pos + 3) value in
      if bool_decide (authority_and_path = "") then None
      else
        let authority := before "/" authority_and_path in
        if bool_decide (authority = "") then None
        else if has_char "@" authority then None
        else
          '(host, port) ← host_port authority;
          if bool_decide (host = "") then None else Some (scheme ++ "://" ++ host ++ port).

Definition is_allowed (policy : t) (origin : string) : bool :=
  match normalize_origin origin with
  | None => false
  | Some normalized => bool_decide (normalized ∈ allowed_origins_ policy)
  end.

(** ** Addresses *)

Definition ip_matches_byte (ip net : list Z) (i : nat) : bool := (nth i ip 0 =? nth i net 0)%Z.

Definition ip_matches_cidr (ip : ParsedIp) (cidr : CidrRange) : bool :=
  if negb (bool_decide (ip_family ip = cidr_family cidr)) then false
  else
    let total_bytes := match ip_family ip with AF_INET => 4 | AF_INET6 => 16 end in
    let full_bytes := Z.to_nat (prefix cidr / 8) in
    let rem_bits := (prefix cidr mod 8)%Z in
    if negb (forallb (ip_matches_byte (bytes ip) (network cidr)) (seq 0 (Nat.min full_bytes total_bytes)))
    then false
    else if negb (rem_bits =? 0)%Z && (full_bytes <? total_bytes)%nat then
      let mask := (Z.shiftl 255 (8 - rem_bits) mod 256)%Z in
      (Z.land (nth full_bytes (bytes ip) 0) mask =? Z.land (nth full_bytes (network cidr) 0) mask)%Z
    else true.

(** [IN6_IS_ADDR_V4MAPPED]. *)
Definition v4mapped (b : list Z) : bool :=
  bool_decide (take 12 b = (replicate 10 0%Z ++ [255%Z; 255%Z])%list).

Section Inet.
Context `{InetBytes}.

(** The text [inet_pton] gets; [None]: a bracket that is not closed. *)
Definition address_text (ip_text : string) : option string :=
  match ip_text with
  | String "[" tail => fst <$> split_on "]" tail
  | _ =>
    match split_on ":" ip_text with
    | Some (host, port) =>
      Some (if negb (has_char ":" port) && has_char "." ip_text && is_digits port then host else ip_text)
    | None => Some ip_text
    end
  end.

(** The array of the result has sixteen bytes, the rest of an IPv4 address is zero. *)
Definition parse_ip_literal (ip_text : string) : option ParsedIp :=
  let ip_text := trim_copy ip_text in
  if bool_decide (ip_text = "") then None
  else
    text ← address_text ip_text;
    match pton4 (c_str text) with
    | Some b => Some (mkIp AF_INET (b ++ replicate 12 0%Z)%list)
    | None =>
      b ← pton6 (c_str text);
      Some (if v4mapped b then mkIp AF_INET (drop 12 b ++ replicate 12 0%Z)%list else mkIp AF_INET6 b)
    end.

(** The range of an address with a prefix length; a negative one stands for the
    whole address. *)
Definition cidr_range (ip_part : string) (prefix : Z) : option CidrRange :=
  ip ← parse_ip_literal ip_part;
  let max_prefix := match ip_family ip with AF_INET => 32 | AF_INET6 => 128 end%Z in
  let prefix := if (prefix <? 0)%Z then max_prefix else prefix in
  if (prefix <? 0)%Z || (max_prefix <? prefix)%Z then None
  else Some (mkCidr (ip_family ip) (bytes ip) prefix).

(** [None]: [std::stoi] throws. *)
Definition parse_cidr (cidr_text : string) : option (option CidrRange) :=
  let raw := trim_copy cidr_text in
  if bool_decide (raw = "") then Some None
  else
    match split_on "/" raw with
    | None => Some (cidr_range raw (-1)%Z)
    | Some (ip_part, prefix_part) =>
      if negb (is_digits prefix_part) then Some None
      else
        let v := read_digits 0 prefix_part in
        if (v <? 2147483648)%Z then Some (cidr_range ip_part v) else None
    end.

Definition is_trusted_proxy (policy : t) (remote_ip : string) : bool :=
  match parse_ip_literal remote_ip with
  | None => false
  | Some parsed => existsb (ip_matches_cidr parsed) (trusted_proxy_cidrs_ policy)
  end.

(** ** The file *)

(** The lines [std::getline] gives. *)
Fixpoint lines_of (fuel : nat) (text : string) : list string :=
  match fuel with
  | O => []
  | S f =>
    if bool_decide (text = "") then []
    else match split_on (chr 10) text with
         | Some (line, rest) => line :: lines_of f rest
         | None => [text]
         end
  end.

Definition bad_line (line_no : Z) (what : string) : string :=
  "Invalid WS origin policy line " ++ std_to_string line_no ++ ": " ++ what.

(** The loop over the lines; [section] is set once the section has begun.  The
    left side is the exception. *)
Fixpoint read_lines (lines : list string) (line_no : Z) (section : bool) (cidrs : list CidrRange)
  : string + list CidrRange :=
  match lines with
  | [] => inr cidrs
  | line :: rest =>
    let entry := trim_copy (before "#" line) in
    if bool_decide (entry = "") then read_lines rest (line_no + 1) section cidrs
    else if bool_decide (entry = "trusted_proxy_cidrs:") then read_lines rest (line_no + 1) true cidrs
    else if negb (bool_decide (front entry = Some "-"%char)) then
      inl (bad_line line_no "unsupported entry")
    else if negb section then inl (bad_line line_no "list entry before section")
    else
      let value := strip_quotes (trim_copy (drop_chars 1 entry)) in
      if bool_decide (value = "") then inl (bad_line line_no "empty value")
      else match parse_cidr value with
           | None => inl "stoi"
           | Some None =>
             inl ("Invalid trusted proxy CIDR at line " ++ std_to_string line_no ++ ": " ++ value)
           | Some (Some cidr) => read_lines rest (line_no + 1) section (cidrs ++ [cidr])%list
           end
  end.

(** [file] is the text at the resolved path, if it can be opened. *)
Definition from_file (path : string) (file : option string) (allowed_origin : string) : string + t :=
  match file with
  | None => inl ("WS origin policy file missing: " ++ path)
  | Some text =>
    match normalize_origin allowed_origin with
    | None => inl "WS origin policy received an invalid configured origin"
    | Some normalized =>
      match read_lines (lines_of (S (String.length text)) text) 1 false [] with
      | inl e => inl e
      | inr [] => inl "WS origin policy invalid: trusted_proxy_cidrs is empty"
      | inr cidrs => inr (mk [normalized] cidrs)
      end
    end
  end.

(** ** The upgrade *)

(** The headers and the peer of the request. *)
Record Request := mkRequest { origin_hdr : string; forwarded_origin : string; remote_ip : string }.

Definition effective_origin (policy : t) (req : Request) : string :=
  if is_trusted_proxy policy (remote_ip req) && negb (bool_decide (forwarded_origin req = ""))
  then forwarded_origin req else origin_hdr req.

(** [false]: 403. *)
Definition origin_accepted (policy : t) (req : Request) : bool :=
  let origin := effective_origin policy req in
  negb (bool_decide (origin = "")) && is_allowed policy origin.

End Inet.

(** ** What a CIDR range contains *)

Definition is_byte (x : Z) : Prop := (0 <= x < 256)%Z.

(** The number with these bytes, the most significant first. *)
Definition be (l : list Z) : Z := foldl (fun acc x => acc * 256 + x)%Z 0%Z l.

(** The first [k] of the 128 bits of an address array. *)
Definition top_bits (k : Z) (l : list Z) : Z := (be l / 2 ^ (128 - k))%Z.

Lemma be_from acc l : foldl (fun acc x => acc * 256 + x)%Z acc l = (acc * 256 ^ Z.of_nat (length l) + be l)%Z.
Proof.
  unfold be. revert acc. induction l as [|x l IH]; intros acc; cbn [foldl length]; [simpl; lia|].
  rewrite IH, (IH (0 * 256 + x)%Z), Nat2Z.inj_succ, Z.pow_succ_r by lia. lia.
Qed.

Lemma be_app a b : be (a ++ b)%list = (be a * 256 ^ Z.of_nat (length b) + be b)%Z.
Proof. unfold be at 1. rewrite foldl_app. fold (be a). apply be_from. Qed.

Lemma be_single x : be [x] = x.
Proof. unfold be. simpl. lia. Qed.

Lemma be_bound l : Forall is_byte l -> (0 <= be l < 256 ^ Z.of_nat (length l))%Z.
Proof.
  induction l as [|x l IH] using rev_ind; [unfold be; simpl; lia|].
  intros [Hl Hx]%Forall_app. apply Forall_cons_1 in Hx as [Hx _]. specialize (IH Hl). unfold is_byte in Hx.
  rewrite be_app, length_app, Nat.add_1_r, Nat2Z.inj_succ, Z.pow_succ_r by lia.
  change (256 ^ Z.of_nat (length [x]))%Z with 256%Z. rewrite be_single. lia.
Qed.

Lemma be_inj l l' : Forall is_byte l -> Forall is_byte l' -> length l = length l' -> be l = be l' -> l = l'.
Proof.
  revert l'. induction l as [|x l IH]; intros [|y l'] Hl Hl' Hlen Heq; try done.
  apply Forall_cons_1 in Hl as [Hx Hl], Hl' as [Hy Hl']. simpl in Hlen. injection Hlen as Hlen.
  change (x :: l) with ([x] ++ l)%list in Heq. change (y :: l') with ([y] ++ l')%list in Heq.
  rewrite !be_app, Hlen in Heq. pose proof (be_bound l Hl) as B. pose proof (be_bound l' Hl') as B'.
  rewrite Hlen in B. rewrite !be_single in Heq.
  assert (x = y) as -> by nia. f_equal. apply IH; [done..|]. lia.
Qed.

(** The mask of the source keeps the upper bits of a byte. *)
Definition mask (r : Z) : Z := (Z.shiftl 255 (8 - r) mod 256)%Z.

Lemma land_mask r x :
  (1 <= r < 8)%Z -> is_byte x -> Z.land x (mask r) = (x / 2 ^ (8 - r) * 2 ^ (8 - r))%Z.
Proof.
  intros Hr Hx.
  assert (Hall : forallb (fun r => forallb (fun x =>
    Z.land (Z.of_nat x) (mask (Z.of_nat r)) =? Z.of_nat x / 2 ^ (8 - Z.of_nat r) * 2 ^ (8 - Z.of_nat r))%Z
    (seq 0 256)) (seq 1 7) = true) by (vm_compute; reflexivity).
  rewrite forallb_forall in Hall. specialize (Hall (Z.to_nat r)). unfold is_byte in Hx.
  assert (Hin : In (Z.to_nat r) (seq 1 7)) by (apply in_seq; lia).
  specialize (Hall Hin). rewrite forallb_forall in Hall. specialize (Hall (Z.to_nat x)).
  rewrite !Z2Nat.id in Hall by lia. apply Z.eqb_eq, Hall, in_seq. lia.
Qed.

Lemma land_mask_eq r x y :
  (1 <= r < 8)%Z -> is_byte x -> is_byte y ->
  Z.land x (mask r) = Z.land y (mask r) <-> (x / 2 ^ (8 - r) = y / 2 ^ (8 - r))%Z.
Proof.
  intros Hr Hx Hy. rewrite !land_mask by done. split; [|by intros ->].
  apply Z.mul_cancel_r. apply Z.pow_nonzero; lia.
Qed.

(** An address array: sixteen bytes. *)
Definition array_ok (l : list Z) : Prop := length l = 16 /\ Forall is_byte l.

(** The bits of a prefix: whole bytes and the upper part of the next. *)
Lemma top_bits_whole q l :
  array_ok l -> (0 <= q <= 16)%Z -> top_bits (8 * q) l = be (take (Z.to_nat q) l).
Proof.
  intros [Hlen Hb] Hq. unfold top_bits. rewrite <- (take_drop (Z.to_nat q) l) at 1.
  rewrite be_app, length_drop, Hlen, Nat2Z.inj_sub, Z2Nat.id by lia.
  replace (2 ^ (128 - 8 * q))%Z with (256 ^ (Z.of_nat 16 - q))%Z.
  - pose proof (be_bound (drop (Z.to_nat q) l)) as Hd. rewrite length_drop, Hlen in Hd.
    rewrite Nat2Z.inj_sub, Z2Nat.id in Hd by lia.
    rewrite Z.add_comm, Z.div_add by lia. rewrite Z.div_small; [lia|]. apply Hd. by apply Forall_drop.
  - change 256%Z with (2 ^ 8)%Z. rewrite <- Z.pow_mul_r by lia. f_equal. lia.
Qed.

Lemma top_bits_part q r l :
  array_ok l -> (0 <= q < 16)%Z -> (1 <= r < 8)%Z ->
  top_bits (8 * q + r) l =
    (be (take (Z.to_nat q) l) * 2 ^ r + nth (Z.to_nat q) l 0 / 2 ^ (8 - r))%Z.
Proof.
  intros Hl Hq Hr. pose proof Hl as [Hlen Hb].
  assert (Hdiv : top_bits (8 * q + r) l = (top_bits (8 * (q + 1)) l / 2 ^ (8 - r))%Z).
  { unfold top_bits. rewrite Z.div_div by (try apply Z.pow_nonzero; lia).
    rewrite <- Z.pow_add_r by lia. do 2 f_equal. lia. }
  rewrite Hdiv, top_bits_whole by (done || lia). rewrite Z2Nat.inj_add by lia.
  destruct (nth_lookup_or_length l (Z.to_nat q) 0%Z) as [Hx|]; [|lia].
  replace (Z.to_nat q + Z.to_nat 1) with (S (Z.to_nat q)) by lia.
  rewrite (take_S_r _ _ _ Hx), be_app, be_single. change (256 ^ Z.of_nat (length [_]))%Z with 256%Z.
  replace 256%Z with (2 ^ r * 2 ^ (8 - r))%Z by (rewrite <- Z.pow_add_r by lia; replace (r + (8 - r))%Z with 8%Z by lia; done).
  rewrite Z.mul_assoc, Z.add_comm, Z.div_add by (apply Z.pow_nonzero; lia). lia.
Qed.

(** Addresses that agree on a prefix agree on its whole bytes. *)
Lemma top_bits_take q r l l' :
  array_ok l -> array_ok l' -> (0 <= q <= 16)%Z -> (0 <= r < 8)%Z -> (8 * q + r <= 128)%Z ->
  top_bits (8 * q + r) l = top_bits (8 * q + r) l' -> take (Z.to_nat q) l = take (Z.to_nat q) l'.
Proof.
  intros Hl Hl' Hq Hr Hle Heq. pose proof Hl as [Hlen Hb]. pose proof Hl' as [Hlen' Hb'].
  apply be_inj; [by apply Forall_take..|rewrite !length_take; lia|].
  rewrite <- !top_bits_whole by done.
  assert (Hdiv : forall x, top_bits (8 * q) x = (top_bits (8 * q + r) x / 2 ^ r)%Z).
  { intros x. unfold top_bits. rewrite Z.div_div by (try apply Z.pow_nonzero; lia).
    rewrite <- Z.pow_add_r by lia. do 2 f_equal. lia. }
  by rewrite !Hdiv, Heq.
Qed.

Lemma bytes_match_take n ip net :
  length ip = 16 -> length net = 16 -> n <= 16 ->
  forallb (ip_matches_byte ip net) (seq 0 n) = true <-> take n ip = take n net.
Proof.
  intros Hi Hn Hle. rewrite forallb_forall. split.
  - intros Hall. apply list_eq. intros i. destruct (decide (i < n)) as [Hlt|Hge].
    + rewrite !lookup_take_lt by done. assert (Heq : ip_matches_byte ip net i = true)
        by (apply Hall, in_seq; lia).
      apply Z.eqb_eq in Heq. rewrite !nth_lookup in Heq.
      destruct (lookup_lt_is_Some_2 ip i) as [x Hx]; [lia|].
      destruct (lookup_lt_is_Some_2 net i) as [y Hy]; [lia|].
      rewrite Hx, Hy in *. simpl in Heq. congruence.
    + by rewrite !lookup_take_ge by lia.
  - intros Heq i Hlt%in_seq. apply Z.eqb_eq. rewrite !nth_lookup.
    rewrite <- (lookup_take_lt ip n i), <- (lookup_take_lt net n i) by lia. by rewrite Heq.
Qed.

Lemma nth_byte i l : Forall is_byte l -> is_byte (nth i l 0%Z).
Proof.
  intros Hl. destruct (nth_lookup_or_length l i 0%Z) as [Hx|Hlen].
  - by eapply (Forall_lookup_1 is_byte l i).
  - rewrite nth_overflow by done. unfold is_byte. lia.
Qed.

(** A range is well formed: its prefix is that of its family. *)
Definition cidr_ok (c : CidrRange) : Prop :=
  array_ok (network c) /\
  (0 <= prefix c <= match cidr_family c with AF_INET => 32 | AF_INET6 => 128 end)%Z.

(** The loop over whole bytes and the masked comparison decide that the first
    [prefix] bits agree. *)
Lemma ip_matches_cidr_bits ip c :
  array_ok (bytes ip) -> cidr_ok c ->
  ip_matches_cidr ip c = true <->
  ip_family ip = cidr_family c /\ top_bits (prefix c) (bytes ip) = top_bits (prefix c) (network c).
Proof.
  intros Hip [Hnet Hp]. unfold ip_matches_cidr. case_bool_decide as Hf; simpl; [|by split; [|intros []]].
  pose proof (Z.div_mod (prefix c) 8 ltac:(lia)) as Hdm. pose proof (Z.mod_pos_bound (prefix c) 8 ltac:(lia)).
  set (q := (prefix c / 8)%Z) in *. set (r := (prefix c mod 8)%Z) in *.
  set (total := match ip_family ip with AF_INET => 4 | AF_INET6 => 16 end).
  assert (Hq : (0 <= q)%Z /\ (8 * q + r <= 8 * Z.of_nat total)%Z /\ total <= 16).
  { subst total. rewrite Hf. split; [apply Z.div_pos; lia|]. destruct (cidr_family c); lia. }
  rewrite (Nat.min_l (Z.to_nat q) total) by lia. rewrite Hdm.
  destruct (forallb _ _) eqn:Hall; simpl; cycle 1.
  { split; [done|]. intros [_ Heq]. apply not_true_iff_false in Hall. destruct Hall.
    apply bytes_match_take; [apply Hip|apply Hnet|lia|]. apply (top_bits_take q r); (done || lia). }
  apply bytes_match_take in Hall; [|apply Hip|apply Hnet|lia].
  destruct (Z.eqb_spec r 0) as [Hr|Hr]; simpl.
  - rewrite Hr, Z.add_0_r, !top_bits_whole by (done || lia). rewrite Hall. done.
  - destruct (Nat.ltb_spec (Z.to_nat q) total); [|lia]. fold (mask r).
    rewrite !top_bits_part, Hall, Z.eqb_eq, land_mask_eq by (done || lia || (apply nth_byte; apply Hip || apply Hnet)).
    split; [intros ->; done|intros [_ Heq]; lia].
Qed.

(** ** Parsed addresses and files *)

Section Parsed.
Context `{InetBytes}.

Lemma array_ok_v4 b : length b = 4 -> Forall is_byte b -> array_ok (b ++ replicate 12 0%Z)%list.
Proof.
  intros Hl Hb. split; [by rewrite length_app, Hl|]. apply Forall_app. split; [done|].
  apply Forall_replicate. unfold is_byte. lia.
Qed.

Lemma parse_ip_ok s ip : parse_ip_literal s = Some ip -> array_ok (bytes ip).
Proof.
  unfold parse_ip_literal. case_bool_decide; [done|]. destruct (address_text _) as [text|]; [|done]. simpl.
  destruct (pton4 _) as [b|] eqn:E4.
  { intros [= <-]. destruct (pton4_bytes _ _ E4). by apply array_ok_v4. }
  destruct (pton6 _) as [b|] eqn:E6; [|done]. destruct (pton6_bytes _ _ E6) as [Hl Hb].
  intros [= <-]. destruct (v4mapped b); simpl; [|done].
  apply array_ok_v4; [rewrite length_drop; lia|by apply Forall_drop].
Qed.

Lemma cidr_range_ok x p c : cidr_range x p = Some c -> cidr_ok c.
Proof.
  unfold cidr_range. destruct (parse_ip_literal x) as [ip|] eqn:E; [|done]. simpl.
  pose proof (parse_ip_ok _ _ E). destruct (_ || _) eqn:Eb; [done|]. intros [= <-].
  apply orb_false_iff in Eb as [H1%Z.ltb_ge H2%Z.ltb_ge]. split; simpl; [done|].
  destruct (ip_family ip); lia.
Qed.

Lemma parse_cidr_ok s c : parse_cidr s = Some (Some c) -> cidr_ok c.
Proof.
  unfold parse_cidr. case_bool_decide; [done|].
  destruct (split_on _ _) as [[a b]|]; [|intros [= Hx]; by eapply cidr_range_ok].
  destruct (is_digits b); simpl; [|done]. destruct (_ <? _)%Z; [|done].
  intros [= Hx]. by eapply cidr_range_ok.
Qed.

Lemma read_lines_ok ls n sec cs cs' :
  Forall cidr_ok cs -> read_lines ls n sec cs = inr cs' -> Forall cidr_ok cs'.
Proof.
  revert n sec cs. induction ls as [|l ls IH]; intros n sec cs Hcs; simpl; [by intros [= <-]|].
  case_bool_decide; [eauto|]. case_bool_decide; [eauto|]. destruct (negb _); [done|].
  destruct (negb sec); [done|]. case_bool_decide; [done|].
  destruct (parse_cidr _) as [[c|]|] eqn:E; [|done..]. apply IH. apply Forall_app. split; [done|].
  apply Forall_singleton. by eapply parse_cidr_ok.
Qed.

(** A policy that was read holds the configured origin's normal form and
    well-formed ranges, at least one. *)
Lemma from_file_inr path file origin policy :
  from_file path file origin = inr policy ->
  exists normalized, normalize_origin origin = Some normalized /\
    allowed_origins_ policy = [normalized] /\ Forall cidr_ok (trusted_proxy_cidrs_ policy) /\
    trusted_proxy_cidrs_ policy <> [].
Proof.
  unfold from_file. destruct file as [text|]; [|done].
  destruct (normalize_origin origin) as [n|]; [|done].
  destruct (read_lines _ _ _ _) as [e|cs] eqn:E; [done|].
  apply read_lines_ok in E; [|by constructor]. destruct cs; [done|]. intros [= <-]. simpl. eauto.
Qed.

(** A proxy is trusted when its address is in one of the ranges. *)
Definition in_range (c : CidrRange) (ip : ParsedIp) : Prop :=
  ip_family ip = cidr_family c /\ top_bits (prefix c) (bytes ip) = top_bits (prefix c) (network c).

Lemma is_trusted_proxy_spec policy s :
  Forall cidr_ok (trusted_proxy_cidrs_ policy) ->
  is_trusted_proxy policy s = true <->
  exists ip c, parse_ip_literal s = Some ip /\ c ∈ trusted_proxy_cidrs_ policy /\ in_range c ip.
Proof.
  intros Hok. unfold is_trusted_proxy. destruct (parse_ip_literal s) as [ip|] eqn:E.
  - pose proof (parse_ip_ok _ _ E) as Hip. rewrite existsb_exists. split.
    + intros (c & Hc%list_elem_of_In & Hm). exists ip, c. split_and!; [done..|].
      apply ip_matches_cidr_bits; [done| |done]. by eapply list.Forall_forall.
    + intros (ip' & c & [= <-] & Hc & Hm). exists c. split; [by apply list_elem_of_In|].
      apply ip_matches_cidr_bits; [done| |done]. by eapply list.Forall_forall.
  - split; [done|]. by intros (ip & c & ? & _).
Qed.

End Parsed.

(** ** Configured origins are in normal form *)

Lemma split_on_some c s a b : split_on c s = Some (a, b) -> s = a ++ String c b.
Proof.
  revert a b. induction s as [|d s IH]; intros a b; simpl; [done|]. case_bool_decide as Hd.
  - intros [= <- <-]. by subst.
  - destruct (split_on c s) as [[x y]|]; simpl; [|done]. intros [= <- <-].
    by rewrite app_cons, <- (IH x y).
Qed.

Lemma split_on_none c s : split_on c s = None <-> all_chars (fun d => negb (bool_decide (d = c))) s = true.
Proof.
  induction s as [|d s IH]; simpl; [done|]. case_bool_decide; simpl; [by split|].
  rewrite <- IH. destruct (split_on c s) as [[]|]; simpl; by split.
Qed.

Lemma before_none c s : split_on c s = None -> before c s = s.
Proof. unfold before. by intros ->. Qed.
Lemma has_char_none c s : split_on c s = None -> has_char c s = false.
Proof. unfold has_char. intros ->. by apply bool_decide_eq_false. Qed.

Lemma all_chars_app p a b : all_chars p (a ++ b) = all_chars p a && all_chars p b.
Proof. induction a as [|c a IH]; [done|]. rewrite app_cons. simpl. by rewrite IH, andb_assoc. Qed.

Lemma back_app a b : b <> "" -> back (a ++ b) = back b.
Proof.
  intros Hb. induction a as [|c a IH]; [done|]. rewrite app_cons. simpl. rewrite IH.
  destruct a; [by destruct b|]. done.
Qed.

Lemma back_all p s : all_chars p s = true -> s <> "" -> exists c, back s = Some c /\ p c = true.
Proof.
  induction s as [|c s IH]; [done|]. simpl. rewrite andb_true_iff. intros [Hc Hs] _.
  destruct s as [|d s]; [by exists c|]. by apply IH.
Qed.

Lemma trim_end_id s c : back s = Some c -> isspace c = false -> Utils.trim_end s = s.
Proof.
  intros Hb Hc. induction s as [|d s IH]; [done|]. cbn [Utils.trim_end]. destruct s as [|e s].
  - simpl in Hb. injection Hb as ->. simpl. by rewrite Hc.
  - rewrite IH by done. done.
Qed.

Lemma drop_slashes_id s c : back s = Some c -> c <> "/"%char -> drop_slashes s = s.
Proof.
  intros Hb Hc. induction s as [|d s IH]; [done|]. cbn [drop_slashes]. destruct s as [|e s].
  - simpl in Hb. injection Hb as ->. simpl. by rewrite bool_decide_false.
  - rewrite IH by done. done.
Qed.

Lemma lower_id s : all_chars (fun c => negb (isupper c)) s = true -> to_lower_ascii s = s.
Proof.
  unfold to_lower_ascii. induction s as [|c s IH]; simpl; [done|]. rewrite andb_true_iff.
  intros [Hc Hs]. rewrite IH by done. unfold HubService.tolower. unfold isupper in Hc.
  by destruct (_ && _).
Qed.

Lemma after_digits_all s : after_digits s = "" -> all_chars isdigit s = true.
Proof.
  induction s as [|c s IH]; simpl; [done|]. destruct (isdigit c); [|done]. intros Hs. by rewrite IH.
Qed.

Lemma valid_port_digits p : PublicEndpointConfig.is_valid_port p = true -> is_digits p = true.
Proof.
  unfold PublicEndpointConfig.is_valid_port, is_digits, from_chars. case_bool_decide; [done|].
  destruct (starts_with_digit p); [|done]. destruct (_ <? _)%Z; [|done].
  rewrite !andb_true_iff, bool_decide_eq_true. intros [[Hr _] _]. split; [done|]. by apply after_digits_all.
Qed.

(** The characters of a host name. *)
Definition host_char (c : ascii) : bool := PublicEndpointConfig.is_label_char c || bool_decide (c = "."%char).

Lemma labels_host_chars fuel s :
  String.length s <= fuel -> PublicEndpointConfig.labels_ok fuel s = true -> all_chars host_char s = true.
Proof.
  revert s. induction fuel as [|f IH]; intros s Hlen; [by destruct s; [|simpl in Hlen; lia]|].
  cbn [PublicEndpointConfig.labels_ok]. case_bool_decide as He; [by subst|].
  destruct (split_on "." s) as [[l r]|] eqn:E.
  - pose proof (split_on_some _ _ _ _ E) as ->. destruct (_ || _ || _); [done|].
    destruct (all_chars PublicEndpointConfig.is_label_char l) eqn:El; [|done]. simpl. intros Hr.
    rewrite all_chars_app. apply andb_true_intro. split.
    + eapply PublicEndpointConfig.all_chars_impl; [|exact El]. intros c Hc. unfold host_char. by rewrite Hc.
    + simpl. apply IH; [|done]. rewrite length_text_app in Hlen. simpl in Hlen. lia.
  - destruct (_ || _ || _); [done|]. destruct (all_chars PublicEndpointConfig.is_label_char s) eqn:El; [|done].
    intros _. eapply PublicEndpointConfig.all_chars_impl; [|exact El]. intros c Hc. unfold host_char. by rewrite Hc.
Qed.

(** Neither white space nor a slash. *)
Definition ends_well (c : ascii) : Prop := isspace c = false /\ c <> "/"%char.

Lemma host_char_ends c : host_char c = true -> ends_well c.
Proof. destruct c as [[][][][][][][][]]; vm_compute; intros; try done; by split. Qed.
Lemma digit_ends c : isdigit c = true -> ends_well c.
Proof. destruct c as [[][][][][][][][]]; vm_compute; intros; try done; by split. Qed.

Lemma host_port_plain a :
  front a <> Some "["%char ->
  host_port a =
    match split_on ":" a with
    | None => Some (to_lower_ascii a, "")
    | Some (host, raw_port) =>
      if has_char ":" raw_port || negb (is_digits raw_port) then None
      else Some (to_lower_ascii host, ":" ++ raw_port)
    end.
Proof.
  destruct a as [|c a]; [done|]. simpl front. intros Hc.
  destruct c as [[][][][][][][][]]; try reflexivity. by destruct Hc.
Qed.

(** What the validation of the host and port leaves. *)
Definition splits_into (a h p : string) : Prop :=
  host_port a = Some (h, p) /\ h ++ p = a /\ h <> "" /\ exists c, back a = Some c /\ ends_well c.

Section Configured.
Context `{InetPton}.
(** [inet_pton(AF_INET)] accepts dotted decimal notation only. *)
Hypothesis dotted_decimal : forall s, inet_pton4 s = true -> all_chars host_char s = true.

Lemma valid_host_chars h :
  PublicEndpointConfig.is_valid_dns_or_ipv4_host h = true -> all_chars host_char h = true /\ h <> "".
Proof.
  unfold PublicEndpointConfig.is_valid_dns_or_ipv4_host. destruct (bool_decide (h = "")) eqn:He; [done|].
  apply bool_decide_eq_false_1 in He. destruct (_ || _); [done|]. intros Hh. split; [|done].
  destruct (inet_pton4 h) eqn:E4; [by apply dotted_decimal|]. by eapply labels_host_chars.
Qed.

Lemma plain_authority key a port :
  front a <> Some "["%char -> all_chars (fun c => negb (isupper c)) a = true ->
  PublicEndpointConfig.authority_port key a = Ok port ->
  match port with Some p => negb (PublicEndpointConfig.is_valid_port p) | None => false end = false ->
  exists h p, splits_into a h p.
Proof.
  intros Hf Hup. unfold PublicEndpointConfig.authority_port. rewrite (bool_decide_false (front a = _)) by done.
  destruct (split_on ":" a) as [[h p]|] eqn:E.
  - pose proof (split_on_some _ _ _ _ E) as Ha. destruct (bool_decide (is_Some (split_on ":" p))) eqn:Ep;
      [by rewrite orb_true_r|]. rewrite orb_false_r.
    destruct (bool_decide (h = "")) eqn:Hh; [done|]. apply bool_decide_eq_false_1 in Hh.
    destruct (PublicEndpointConfig.is_valid_dns_or_ipv4_host h); [|done]. intros [= <-] Hp%negb_false_iff.
    apply valid_port_digits in Hp. exists h, (":" ++ p). rewrite Ha, all_chars_app in Hup.
    apply andb_prop in Hup as [Hup _]. split_and!.
    + rewrite host_port_plain, E by done. unfold has_char. rewrite Ep, Hp. simpl. by rewrite lower_id.
    + by rewrite Ha.
    + done.
    + unfold is_digits in Hp. apply andb_prop in Hp as [Hne%negb_true_iff%bool_decide_eq_false_1 Hd].
      destruct (back_all _ _ Hd Hne) as (c & Hb & Hc). exists c. split; [|by apply digit_ends].
      rewrite Ha, back_app by done. by destruct p.
  - destruct (PublicEndpointConfig.is_valid_dns_or_ipv4_host a) eqn:Ev; [|done]. intros [= <-] _.
    apply valid_host_chars in Ev as [Hc Hne]. exists a, "". split_and!.
    + rewrite host_port_plain, E by done. by rewrite lower_id.
    + clear. induction a as [|c a IH]; [done|]. by rewrite app_cons, IH.
    + done.
    + destruct (back_all _ _ Hc Hne) as (c & Hb & Hh). exists c. split; [done|]. by apply host_char_ends.
Qed.

Lemma bracket_authority key tl port :
  all_chars (fun c => negb (isupper c)) tl = true ->
  PublicEndpointConfig.authority_port key (String "[" tl) = Ok port ->
  match port with Some p => negb (PublicEndpointConfig.is_valid_port p) | None => false end = false ->
  exists h p, splits_into (String "[" tl) h p.
Proof.
  intros Hup. unfold PublicEndpointConfig.authority_port. simpl.
  destruct (split_on "]" tl) as [[ip suffix]|] eqn:E; [|done].
  pose proof (split_on_some _ _ _ _ E) as Htl. rewrite Htl, all_chars_app in Hup.
  apply andb_prop in Hup as [Hup _]. destruct ip as [|c0 ip0]; [done|]. remember (String c0 ip0) as ip eqn:Hip. clear Hip.
  destruct (negb _); [done|]. destruct suffix as [|c p].
  - intros [= <-] _. exists ("[" ++ ip ++ "]"), "". split_and!.
    + unfold host_port. rewrite E. simpl. by rewrite lower_id.
    + rewrite Htl. clear. change ((("[" ++ ip ++ "]") ++ "") = "[" ++ ip ++ "]").
      generalize ("[" ++ ip ++ "]"). intros s. induction s as [|c s IH]; [done|]. by rewrite app_cons, IH.
    + done.
    + exists "]"%char. rewrite Htl. split; [by apply (back_app ("[" ++ ip) "]")|by split].
  - case_bool_decide as Hc; [|done]. intros [= <-] Hp%negb_false_iff. apply valid_port_digits in Hp.
    exists ("[" ++ ip ++ "]"), (":" ++ p). split_and!.
    + unfold host_port. rewrite E. simpl. rewrite bool_decide_false by auto. rewrite Hp, lower_id by done. simpl.
      by subst c.
    + rewrite Htl, Hc. by rewrite !app_text_assoc.
    + done.
    + unfold is_digits in Hp. apply andb_prop in Hp as [Hne%negb_true_iff%bool_decide_eq_false_1 Hd].
      destruct (back_all _ _ Hd Hne) as (d & Hb & Hdd). exists d. split; [|by apply digit_ends].
      rewrite Htl. change (String "[" (ip ++ String "]" (String c p))) with (("[" ++ ip) ++ "]" ++ String c "" ++ p).
      rewrite !back_app by done. done.
Qed.

(** The authority of an accepted origin. *)
Lemma validated_authority key origin :
  PublicEndpointConfig.validate_origin key origin = Ok tt ->
  exists c a, origin = "https://" ++ String c a /\
    split_on "/" (String c a) = None /\ split_on "@" (String c a) = None /\
    exists h p, splits_into (String c a) h p.
Proof.
  unfold PublicEndpointConfig.validate_origin.
  destruct (String.prefix "https://" origin) eqn:Ep; [|done]. cbn [negb].
  apply (PublicEndpointConfig.prefix_split "https://") in Ep. change (String.length "https://") with 8 in Ep.
  set (a := drop_chars 8 origin) in *. clearbody a. destruct a as [|c a]; [done|].
  rewrite (bool_decide_false (String c a = "")) by done. cbn [orb].
  destruct (all_chars (fun c => bool_decide (c ∉ _)) (String c a)) eqn:Ea; [|done]. cbn [negb].
  destruct (all_chars (fun c => negb (isupper c)) (String c a)) eqn:Eu; [|done]. cbn [negb].
  destruct (PublicEndpointConfig.authority_port key (String c a)) as [port|] eqn:Eport; [|done].
  destruct (match port with Some p => _ | None => _ end) eqn:Ev; [done|]. intros _.
  assert (Hno : forall x, x ∈ PublicEndpointConfig.forbidden_in_authority -> split_on x (String c a) = None).
  { intros x Hx. apply split_on_none. eapply PublicEndpointConfig.all_chars_impl; [|exact Ea].
    intros d Hd%bool_decide_eq_true_1. apply negb_true_iff, bool_decide_eq_false_2. by intros ->. }
  exists c, a. split_and!; [done|apply Hno; unfold PublicEndpointConfig.forbidden_in_authority; set_solver..|].
  destruct (decide (c = "["%char)) as [->|Hc].
  - eapply bracket_authority; [|done..]. exact Eu.
  - by eapply plain_authority; [by intros [= ->]|..].
Qed.

(** An origin the configuration accepts is its own normal form. *)
Lemma validated_normal key origin :
  PublicEndpointConfig.validate_origin key origin = Ok tt -> normalize_origin origin = Some origin.
Proof.
  intros (c & a & -> & Hs & Hat & h & p & Hhp & Happ & Hh & d & Hb & Hsp & Hsl)%validated_authority.
  assert (Hback : back ("https://" ++ String c a) = Some d) by (by rewrite back_app).
  unfold normalize_origin, trim_copy, Utils.sanitize.
  change (skip_space ("https://" ++ String c a)) with ("https://" ++ String c a).
  rewrite (trim_end_id _ d) by done. rewrite (drop_slashes_id _ d) by done.
  rewrite (bool_decide_false (_ = "")) by done.
  change (String.index 0 "://" ("https://" ++ String c a)) with (Some 5). cbn [mbind option_bind].
  change (to_lower_ascii (String.substring 0 5 ("https://" ++ String c a))) with "https".
  rewrite (bool_decide_false ("https" = "http")), (bool_decide_true ("https" = "https")) by done.
  change (drop_chars (5 + 3) ("https://" ++ String c a)) with (String c a). cbn [negb andb].
  rewrite (bool_decide_false (String c a = "")), (before_none _ _ Hs), (bool_decide_false (String c a = ""))
    by done.
  rewrite (has_char_none _ _ Hat), Hhp. cbn [mbind option_bind].
  rewrite bool_decide_false by done. change ("https" ++ "://" ++ h ++ p) with ("https://" ++ h ++ p).
  by rewrite Happ.
Qed.

End Configured.

(** ** The gate *)

Inductive response := Upgraded | Forbidden | MaxConnections.
#[export] Instance response_eq_dec : EqDecision response.
Proof. solve_decision. Defined.

Section Gate.
Context {B : Type} `{InetBytes} (e : Connections.Env) (limits : Transport.Limits).

(** The [.upgrade] callback, and [.open] after it. *)
Definition upgrade (policy : t) (req : Request) (n : Net B) (conn_id : ConnId) (port_idx : nat)
  : response * Net B :=
  if negb (origin_accepted policy req) then (Forbidden, n)
  else if (Transport.max_connections limits <=? active_connections n)%Z then (MaxConnections, n)
  else (Upgraded, Transport.upgrade_open e limits n conn_id port_idx).

Lemma origin_accepted_spec path file origin policy req normalized :
  from_file path file origin = inr policy -> normalize_origin origin = Some normalized ->
  origin_accepted policy req = true <-> normalize_origin (effective_origin policy req) = Some normalized.
Proof.
  intros (n & Hn & Ha & _)%from_file_inr Hnorm. assert (n = normalized) as -> by congruence.
  unfold origin_accepted, is_allowed. rewrite Ha.
  case_bool_decide as He; simpl; [rewrite He; by split|].
  destruct (normalize_origin (effective_origin policy req)) as [m|]; [|by split].
  rewrite bool_decide_eq_true, list_elem_of_singleton. split; [by intros ->|by intros [= ->]].
Qed.

(** The peer's address agrees with a trusted range of the file on all of the
    range's prefix bits. *)
Definition from_trusted_proxy (policy : t) (req : Request) : Prop :=
  exists ip c, parse_ip_literal (remote_ip req) = Some ip /\
    c ∈ trusted_proxy_cidrs_ policy /\ in_range c ip.

Lemma effective_origin_spec policy req :
  Forall cidr_ok (trusted_proxy_cidrs_ policy) ->
  (from_trusted_proxy policy req /\ forwarded_origin req <> "" ->
     effective_origin policy req = forwarded_origin req) /\
  (~ from_trusted_proxy policy req \/ forwarded_origin req = "" ->
     effective_origin policy req = origin_hdr req).
Proof.
  intros Hok. pose proof (is_trusted_proxy_spec policy (remote_ip req) Hok) as Ht.
  fold (from_trusted_proxy policy req) in Ht. unfold effective_origin.
  destruct (is_trusted_proxy policy (remote_ip req)); simpl; [case_bool_decide; simpl|];
    naive_solver.
Qed.

(** C13: who can open a WebSocket.  With a configuration that was accepted and
    a policy file that was read, a request becomes a connection when and only
    when its origin normalizes to the configured one and fewer connections than
    the limit are active; at the limit it is told so, any other origin is
    forbidden, and neither changes anything.  The origin is the forwarded one
    when the peer's address agrees with a trusted range of the file on all of
    the range's prefix bits and the peer forwards one, and the one the request
    itself carries otherwise.  The application's own pages are never refused as
    another origin. *)
Theorem websocket_origin_gate `{InetPton} (app supabase path : string) (file : option string)
  (config : PublicEndpointConfig.t) (policy : t) (req : Request) (n : Net B) (conn_id : ConnId)
  (port_idx : nat) :
  (forall s, inet_pton4 s = true -> all_chars host_char s = true) ->
  PublicEndpointConfig.from_origins app supabase = Ok config ->
  from_file path file (PublicEndpointConfig.app_origin config) = inr policy ->
  let origin := effective_origin policy req in
  let '(answer, n') := upgrade policy req n conn_id port_idx in
  (answer = Upgraded <-> normalize_origin origin = Some app /\
     (active_connections n < Transport.max_connections limits)%Z) /\
  (answer = MaxConnections <-> normalize_origin origin = Some app /\
     (Transport.max_connections limits <= active_connections n)%Z) /\
  (answer = Forbidden <-> normalize_origin origin <> Some app) /\
  n' = (if decide (answer = Upgraded) then Transport.upgrade_open e limits n conn_id port_idx else n) /\
  (from_trusted_proxy policy req /\ forwarded_origin req <> "" -> origin = forwarded_origin req) /\
  (~ from_trusted_proxy policy req \/ forwarded_origin req = "" -> origin = origin_hdr req) /\
  (origin = app -> answer <> Forbidden).
Proof.
  intros Hdec Hcfg Hfile origin.
  assert (Hnorm : PublicEndpointConfig.app_origin config = app /\ normalize_origin app = Some app).
  { unfold PublicEndpointConfig.from_origins in Hcfg.
    destruct (PublicEndpointConfig.validate_origin "WEB_DOMAIN" app) as [[]|] eqn:E; [|done].
    destruct (PublicEndpointConfig.validate_origin _ supabase); [|done]. injection Hcfg as <-.
    split; [done|]. by eapply validated_normal. }
  destruct Hnorm as [Happ Hnorm]. rewrite Happ in Hfile.
  pose proof (origin_accepted_spec path file app policy req app Hfile Hnorm) as Hacc.
  apply from_file_inr in Hfile as (m & _ & _ & Hok & _). fold origin in Hacc.
  destruct (effective_origin_spec policy req Hok) as [Ho1 Ho2]. fold origin in Ho1, Ho2.
  unfold upgrade. destruct (origin_accepted policy req) eqn:Ea; simpl.
  - apply proj1 in Hacc. specialize (Hacc eq_refl). rewrite Hacc.
    destruct (Z.leb_spec (Transport.max_connections limits) (active_connections n)); split_and!; try done;
      split; try done; try (by intros [_ ?]; lia); by intros ?.
  - assert (Hne : normalize_origin origin <> Some app) by (intros Hx; apply Hacc in Hx; congruence).
    split_and!; try done; try (by split; [|intros [? _]]). intros Ho. rewrite Ho in Hne. done.
Qed.

End Gate.

(** *** A proxy on the private network *)

Module Demo.

#[export] Instance inet_bytes : InetBytes.
Proof.
  refine {| pton4 s := if bool_decide (s = "10.0.0.0") then Some [10; 0; 0; 0]%Z
                       else if bool_decide (s = "10.1.2.3") then Some [10; 1; 2; 3]%Z else None;
            pton6 s := None |}; intros s b; [|done].
  repeat case_bool_decide; intros [= <-]; (split; [done|]); repeat constructor; lia.
Defined.
#[export] Instance inet_pton : InetPton := {| inet_pton4 s := false; inet_pton6 s := false |}.

Definition file : string := "# proxies
trusted_proxy_cidrs:
  - '10.0.0.0/8'
".

Definition config : PublicEndpointConfig.t := PublicEndpointConfig.mk "https://app.example" "https://db.example".
Definition policy : t := mk ["https://app.example"] [mkCidr AF_INET (10 :: replicate 15 0) 8]%Z.
Definition proxied : Request := mkRequest "http://10.1.2.3" "https://APP.example/" "10.1.2.3".

Example policy_read : from_file "p" (Some file) "https://app.example" = inr policy.
Proof. vm_compute. reflexivity. Qed.

(** The same header from an address outside of the range counts for nothing. *)
Example forged_header :
  effective_origin policy (mkRequest "https://evil.example" "https://app.example" "8.8.8.8") =
  "https://evil.example".
Proof. vm_compute. reflexivity. Qed.

End Demo.
Import Demo.

Lemma websocket_origin_gate_witness :
  (upgrade Worker.Demo.env_ok Transport.Demo.limits Demo.policy Demo.proxied
     (@Transport.empty_net Envelope.t 100) Worker.Demo.c1 0).1 = Upgraded /\
  effective_origin Demo.policy Demo.proxied = "https://APP.example/".
Proof.
  assert (Hcfg : PublicEndpointConfig.from_origins "https://app.example" "https://db.example" = Ok Demo.config)
    by (vm_compute; reflexivity).
  assert (Hdec : forall s, inet_pton4 s = true -> all_chars host_char s = true)
    by (intros s Hs; discriminate Hs).
  pose proof (websocket_origin_gate Worker.Demo.env_ok Transport.Demo.limits "https://app.example"
    "https://db.example" "p" (Some Demo.file) Demo.config Demo.policy Demo.proxied
    (@Transport.empty_net Envelope.t 100) Worker.Demo.c1 0 Hdec Hcfg Demo.policy_read) as H.
  cbv zeta in H. destruct (upgrade _ _ _ _ _ _ _) as [answer n'] eqn:Eu.
  destruct H as (H1 & _ & _ & _ & H4 & _). split.
  - apply H1. split; vm_compute; reflexivity.
  - apply H4. split; [|discriminate]. eexists _, _.
    split; [vm_compute; reflexivity|]. split; [by left|]. split; vm_compute; reflexivity.
Defined.

End OriginPolicy.
