(* ===== verification/EnvConfig.v ===== *)
(** * The environment and the server's options

    [utils/EnvLoader.{h,cpp}], [utils/PathResolver.h] and [core/ServerConfig.h]:
    the [.env] file, the typed options read from it or from the process
    environment, and the configuration [main] builds of them.  The process
    environment and the files that exist are parameters. *)

From S2P Require Import Prelude.
From S2P Require Import CStrings.
From S2P Require Import HubService.
From S2P Require Import CommandUtils.
From S2P Require Import Endpoints.
From S2P Require Import OriginPolicy.
From Stdlib Require Import Ascii.

Local Open Scope string_scope.

(** ** Exceptions

    [Unexpected what]: an exception with that text. *)

Declare Scope throws_scope.
Delimit Scope throws_scope with throws.

Definition tr_bind {A B} (r : expected A string) (k : A -> expected B string) : expected B string :=
  match r with Ok a => k a | Unexpected e => Unexpected e end.
Definition throw_if (b : bool) (what : string) : expected unit string :=
  if b then Unexpected what else Ok tt.

Notation "x <-- c1 ; c2" := (tr_bind c1 (fun x => c2))
  (at level 60, c1 at next level, right associativity) : throws_scope.
Notation "c1 ;;; c2" := (tr_bind c1 (fun _ => c2))
  (at level 60, right associativity) : throws_scope.

Lemma tr_ok {A B} (r : expected A string) (k : A -> expected B string) b :
  tr_bind r k = Ok b <-> exists a, r = Ok a /\ k a = Ok b.
Proof.
  destruct r as [a|e]; simpl; split; [by exists a|by intros (? & [= ->] & ?)|done|by intros (? & ? & _)].
Qed.

Lemma throw_if_ok b what u : throw_if b what = Ok u <-> b = false.
Proof. by destruct b, u. Qed.

(** Takes a successful run apart. *)
Ltac tr_inv H :=
  repeat first
    [ apply tr_ok in H as (? & ? & H)
    | match goal with E : throw_if _ _ = Ok _ |- _ => apply throw_if_ok in E end ].

(** ** Text *)

(** [value.erase(0, value.find_first_not_of(set))]. *)
Fixpoint drop_front (p : ascii -> bool) (s : string) : string :=
  match s with String c s' => if p c then drop_front p s' else s | EmptyString => EmptyString end.

(** [value.erase(value.find_last_not_of(set) + 1)]. *)
Fixpoint drop_back (p : ascii -> bool) (s : string) : string :=
  match s with
  | EmptyString => EmptyString
  | String c s' =>
    match drop_back p s' with
    | EmptyString => if p c then EmptyString else String c EmptyString
    | t => String c t
    end
  end.

Definition trim_set (p : ascii -> bool) (s : string) : string := drop_back p (drop_front p s).

(** The pieces [std::getline(in, item, delim)] gives; as many turns as the text
    has characters are enough. *)
Fixpoint pieces (delim : ascii) (fuel : nat) (text : string) : list string :=
  match fuel with
  | O => []
  | S f =>
    if bool_decide (text = "") then []
    else match split_on delim text with
         | Some (piece, rest) => piece :: pieces delim f rest
         | None => [text]
         end
  end.
Definition getlines (delim : ascii) (text : string) : list string :=
  pieces delim (String.length text) text.

Lemma drop_front_split p s : exists w, s = w ++ drop_front p s /\ all_chars p w = true.
Proof.
  induction s as [|c s (w & E & Hw)]; [by exists ""|]. cbn [drop_front]. destruct (p c) eqn:Ec.
  - exists (String c w). rewrite app_cons, <- E. simpl. by rewrite Ec.
  - by exists "".
Qed.

Lemma drop_back_split p s : exists w, s = drop_back p s ++ w /\ all_chars p w = true.
Proof.
  induction s as [|c s (w & E & Hw)]; [by exists ""|]. cbn [drop_back].
  destruct (drop_back p s) as [|d t] eqn:Et.
  - change (s = w) in E. rewrite E.
    destruct (p c) eqn:Ec; [exists (String c w); simpl; by rewrite Ec|by exists w].
  - exists w. split; [|done]. rewrite app_cons. by f_equal.
Qed.

Lemma drop_front_app p w s : all_chars p w = true -> drop_front p (w ++ s) = drop_front p s.
Proof.
  induction w as [|c w IH]; [done|]. simpl. intros [Hc Hw]%andb_prop. rewrite Hc. by apply IH.
Qed.

Lemma drop_front_id p s c : front s = Some c -> p c = false -> drop_front p s = s.
Proof. destruct s; [done|]. intros [= <-] Hc. simpl. by rewrite Hc. Qed.

Lemma drop_back_all p w : all_chars p w = true -> drop_back p w = "".
Proof. induction w as [|c w IH]; [done|]. simpl. intros [Hc Hw]%andb_prop. by rewrite IH, Hc. Qed.

Lemma drop_back_app p s w : all_chars p w = true -> drop_back p (s ++ w) = drop_back p s.
Proof.
  intros Hw. induction s as [|c s IH]; [by apply drop_back_all|].
  rewrite app_cons. cbn [drop_back]. by rewrite IH.
Qed.

Lemma drop_back_id p s c : back s = Some c -> p c = false -> drop_back p s = s.
Proof.
  intros Hb Hc. induction s as [|d s IH]; [done|]. destruct s as [|d' s].
  - injection Hb as ->. simpl. by rewrite Hc.
  - cbn [drop_back] in *. by rewrite (IH Hb).
Qed.

Lemma trim_set_id p s c d :
  front s = Some c -> p c = false -> back s = Some d -> p d = false -> trim_set p s = s.
Proof. intros. unfold trim_set. erewrite drop_front_id, drop_back_id; eauto. Qed.

(** Trimming takes characters of the set off both ends, and nothing else. *)
Lemma trim_set_split p s :
  exists a b, s = a ++ trim_set p s ++ b /\ all_chars p a = true /\ all_chars p b = true.
Proof.
  destruct (drop_front_split p s) as (a & Ea & Ha), (drop_back_split p (drop_front p s)) as (b & Eb & Hb).
  exists a, b. split_and!; [|done..]. unfold trim_set. by rewrite <- Eb.
Qed.

Lemma trim_set_pad p a s b c d :
  all_chars p a = true -> all_chars p b = true ->
  front s = Some c -> p c = false -> back s = Some d -> p d = false -> trim_set p (a ++ s ++ b) = s.
Proof.
  intros Ha Hb Hf Hc Hk Hd. unfold trim_set. rewrite drop_front_app by done.
  rewrite (drop_front_id _ _ c) by (by destruct s). rewrite drop_back_app by done. by eapply drop_back_id.
Qed.

Lemma sanitize_trim s : Utils.sanitize s = trim_set isspace s.
Proof.
  assert (forall s, skip_space s = drop_front isspace s) as Hf by (intros r; induction r; simpl; by rewrite ?IHr).
  unfold Utils.sanitize, trim_set. rewrite Hf. generalize (drop_front isspace s). intros r.
  induction r as [|c r IH]; [done|]. simpl. by rewrite IH.
Qed.

Lemma split_on_app c a b :
  all_chars (fun d => negb (bool_decide (d = c))) a = true -> split_on c (a ++ String c b) = Some (a, b).
Proof.
  induction a as [|d a IH].
  - intros _. simpl. by rewrite bool_decide_eq_true_2.
  - rewrite app_cons. cbn [all_chars split_on]. intros [Hd Ha]%andb_prop.
    apply negb_true_iff in Hd. rewrite Hd, IH by done. done.
Qed.

(** [std::from_chars] to an unsigned type of values below [bound]. *)
Definition from_chars_below (bound : Z) (s : string) : option (Z * string) :=
  if starts_with_digit s then
    let v := read_digits 0 s in
    if (v <? bound)%Z then Some (v, after_digits s) else None
  else None.

Definition two31 : Z := 2147483648.

(** [None]: [std::stoi] throws. *)
Definition stoi (s : string) : option Z :=
  match read_signed s with
  | None => None
  | Some (neg, n) =>
    let v := (if neg then - n else n)%Z in
    if ((- two31 <=? v) && (v <? two31))%Z then Some v else None
  end.

Module EnvLoader.

Record t := mk { env_vars_ : gmap string string; loaded_ : bool }.
Definition create : t := mk ∅ false.

(** [" \t"] and [" \t\n\r"]. *)
Definition blank (c : ascii) : bool := bool_decide (c = " "%char) || bool_decide (c = chr 9).
Definition list_blank (c : ascii) : bool :=
  blank c || bool_decide (c = chr 10) || bool_decide (c = chr 13).

(** The quotes around a value of at least two characters. *)
Definition unquote (value : string) : string :=
  if (2 <=? String.length value)%nat &&
     (OriginPolicy.quoted_by OriginPolicy.quote value ||
      OriginPolicy.quoted_by OriginPolicy.apostrophe value)
  then OriginPolicy.inner value else value.

(** One line of the file. *)
Definition load_line (vars : gmap string string) (line : string) : gmap string string :=
  if bool_decide (line = "") || bool_decide (front line = Some "#"%char) then vars
  else match split_on "=" line with
       | None => vars
       | Some (raw_key, raw_value) =>
         let key := trim_set blank raw_key in
         let value := unquote (trim_set blank raw_value) in
         if bool_decide (key = "") then vars else <[key := value]> vars
       end.

(** [file]: the text at the path, if it can be opened. *)
Definition load_env_file (file : option string) (e : t) : bool * t :=
  if loaded_ e then (true, e)
  else match file with
       | None => (false, e)
       | Some text => (true, mk (foldl load_line (env_vars_ e) (getlines (chr 10) text)) true)
       end.

Definition set_env (key value : string) (e : t) : t := mk (<[key := value]> (env_vars_ e)) (loaded_ e).
Definition clear_env (e : t) : t := create.

Section Reading.
Variable getenv : Env.

Definition lookup_env (e : t) (key : string) : option string :=
  match env_vars_ e !! key with
  | Some value => Some value
  | None => getenv (OriginPolicy.c_str key)
  end.

Definition get_env (e : t) (key default_value : string) : string :=
  match lookup_env e key with Some value => value | None => default_value end.

Definition has_env (e : t) (key : string) : bool := bool_decide (is_Some (lookup_env e key)).

(** The items of a list, without their quotes. *)
Definition list_item (item : string) : string := trim_set list_blank (unquote (trim_set list_blank item)).

Definition get_env_list (e : t) (key : string) (default_values : list string) : list string :=
  let raw := get_env e key "" in
  if bool_decide (raw = "") then default_values
  else
    let raw := trim_set list_blank raw in
    let raw :=
      if (2 <=? String.length raw)%nat && bool_decide (front raw = Some "["%char) &&
         bool_decide (back raw = Some "]"%char)
      then trim_set list_blank (OriginPolicy.inner raw) else raw in
    match filter (fun item => item <> "") (list_item <$> getlines "," raw) with
    | [] => default_values
    | values => values
    end.

Definition trim (value : string) : string := Utils.sanitize value.

Definition parse_bool (key raw : string) : expected bool string :=
  let normalized := HubService.lower_string (trim raw) in
  if bool_decide (normalized ∈ ["1"; "true"; "yes"; "on"]) then Ok true
  else if bool_decide (normalized ∈ ["0"; "false"; "no"; "off"]) then Ok false
  else Unexpected ("Invalid boolean value for env key '" ++ key ++ "': " ++ raw).

(** For an unsigned type of values below [bound]. *)
Definition parse_integral (bound : Z) (key raw : string) : expected Z string :=
  match from_chars_below bound (trim raw) with
  | Some (value, "") => Ok value
  | _ => Unexpected ("Invalid integer value for env key '" ++ key ++ "': " ++ raw)
  end.

Definition get_bool (e : t) (key : string) (default_value : bool) : expected bool string :=
  match lookup_env e key with None => Ok default_value | Some raw => parse_bool key raw end.
Definition get_integral (bound : Z) (e : t) (key : string) (default_value : Z) : expected Z string :=
  match lookup_env e key with None => Ok default_value | Some raw => parse_integral bound key raw end.

(** [get<uint16_t>] and [get<std::size_t>]. *)
Definition get_u16 : t -> string -> Z -> expected Z string := get_integral two16.
Definition get_size : t -> string -> Z -> expected Z string := get_integral two64.

End Reading.

(** ** What a file defines *)

Definition lacks (c : ascii) (s : string) : Prop :=
  all_chars (fun d => negb (bool_decide (d = c))) s = true.

(** A name as [.env] files have it. *)
Definition key_ok (k : string) : Prop :=
  front k <> Some "#"%char /\ lacks "=" k /\ lacks (chr 10) k /\
  exists c d, front k = Some c /\ blank c = false /\ back k = Some d /\ blank d = false.

(** The line [k="v"]. *)
Definition binding_line (b : string * string) : string :=
  b.1 ++ String "=" (String OriginPolicy.quote (b.2 ++ String OriginPolicy.quote "")).
Fixpoint file_text (bs : list (string * string)) : string :=
  match bs with [] => "" | b :: bs' => binding_line b ++ String (chr 10) (file_text bs') end.

Lemma key_nonempty k : key_ok k -> k <> "".
Proof. by intros (_ & _ & _ & c & d & Hc & _) ->. Qed.

Lemma substring_app a b : String.substring 0 (String.length a) (a ++ b) = a.
Proof. induction a as [|c a IH]; [by destruct b|]. rewrite app_cons. simpl. by rewrite IH. Qed.

Lemma unquote_quoted v :
  unquote (String OriginPolicy.quote (v ++ String OriginPolicy.quote "")) = v.
Proof.
  unfold unquote.
  assert (back (String OriginPolicy.quote (v ++ String OriginPolicy.quote "")) = Some OriginPolicy.quote) as Hb.
  { exact (OriginPolicy.back_app (String OriginPolicy.quote v) (String OriginPolicy.quote "") ltac:(done)). }
  assert (String.length (String OriginPolicy.quote (v ++ String OriginPolicy.quote ""))
          = S (S (String.length v))) as Hl.
  { cbn [String.length]. rewrite length_text_app. simpl. lia. }
  rewrite Hl. unfold OriginPolicy.quoted_by. rewrite Hb, !(bool_decide_eq_true_2 (_ = Some OriginPolicy.quote)) by done.
  cbn [Nat.leb andb orb]. unfold OriginPolicy.inner. rewrite Hl.
  replace (S (S (String.length v)) - 2) with (String.length v) by lia.
  cbn [String.substring]. apply substring_app.
Qed.

Lemma load_binding vars b : key_ok b.1 -> load_line vars (binding_line b) = <[b.1 := b.2]> vars.
Proof.
  destruct b as [k v]. intros Hk. pose proof (key_nonempty _ Hk) as Hne. simpl in Hk, Hne.
  destruct Hk as (Hh & He & _ & c & d & Hc & Hcb & Hd & Hdb).
  unfold load_line, binding_line. cbn [fst snd].
  rewrite (bool_decide_eq_false_2 (_ = "")) by (by destruct k).
  rewrite (bool_decide_eq_false_2 (front _ = _)) by (by destruct k). cbn [orb].
  rewrite split_on_app by done. rewrite (trim_set_id blank k c d) by done.
  rewrite (trim_set_id blank _ OriginPolicy.quote OriginPolicy.quote); [|done|done| |done].
  2: { exact (OriginPolicy.back_app (String OriginPolicy.quote v) (String OriginPolicy.quote "") ltac:(done)). }
  by rewrite unquote_quoted, bool_decide_eq_false_2.
Qed.

Lemma pieces_app delim line rest fuel :
  lacks delim line -> pieces delim (S fuel) (line ++ String delim rest) = line :: pieces delim fuel rest.
Proof.
  intros Hl. cbn [pieces]. rewrite bool_decide_eq_false_2 by (by destruct line).
  by rewrite split_on_app.
Qed.

Lemma binding_one_line b : key_ok b.1 -> lacks (chr 10) b.2 -> lacks (chr 10) (binding_line b).
Proof.
  destruct b as [k v]. intros (_ & _ & Hk & _) Hv. unfold lacks, binding_line in *. cbn [fst snd] in *.
  rewrite OriginPolicy.all_chars_app, Hk. cbn [all_chars andb].
  by rewrite OriginPolicy.all_chars_app, Hv.
Qed.

Lemma file_pieces bs fuel :
  Forall (fun b => key_ok b.1 /\ lacks (chr 10) b.2) bs -> length bs <= fuel ->
  pieces (chr 10) fuel (file_text bs) = binding_line <$> bs.
Proof.
  intros H. revert fuel. induction H as [|b bs [Hk Hv] _ IH]; intros fuel Hf; [by destruct fuel|].
  destruct fuel as [|fuel]; [simpl in Hf; lia|]. cbn [file_text]. simpl in Hf.
  rewrite pieces_app by (by apply binding_one_line). by rewrite IH by lia.
Qed.

Lemma file_long bs : length bs <= String.length (file_text bs).
Proof.
  induction bs as [|b bs IH]; [done|]. cbn [file_text length]. rewrite length_text_app. simpl. lia.
Qed.

Lemma load_bindings bs vars :
  Forall (fun b => key_ok b.1) bs ->
  foldl load_line vars (binding_line <$> bs) = list_to_map (reverse bs) ∪ vars.
Proof.
  revert vars. induction bs as [|[k v] bs IH]; intros vars H; [symmetry; apply (left_id_L ∅ (∪))|].
  apply Forall_cons_1 in H as [Hk H]. csimpl. rewrite load_binding by done. rewrite IH by done.
  rewrite reverse_cons, list_to_map_app. cbn [list_to_map fst snd].
  rewrite <- (assoc_L (∪)). f_equal. by rewrite insert_union_singleton_l.
Qed.

(** An environment file of lines [KEY="value"] defines exactly those
    variables: the last line of a name wins, whatever blanks, quotes or [=]
    its value holds; other names keep the process environment's value; and a
    second load changes nothing. *)
Theorem env_file_defines (getenv : Env) (bs : list (string * string)) (later : option string)
    (Hbs : Forall (fun b => key_ok b.1 /\ lacks (chr 10) b.2) bs) :
  let '(ok, e) := load_env_file (Some (file_text bs)) create in
  ok = true /\ load_env_file later e = (true, e) /\
  forall k d, get_env getenv e k d =
    match list_to_map (M := gmap string string) (reverse bs) !! k with
    | Some v => v
    | None => default d (getenv (OriginPolicy.c_str k))
    end.
Proof.
  unfold load_env_file, create. cbn [loaded_ env_vars_]. split_and!; [done..|]. intros k d.
  unfold get_env, lookup_env, getlines. cbn [env_vars_].
  rewrite file_pieces; [|done|apply file_long].
  rewrite load_bindings by (eapply list.Forall_impl; [exact Hbs|by intros ? []]).
  rewrite (right_id_L ∅ (∪)). by destruct (list_to_map _ !! k).
Qed.

Lemma env_file_defines_witness :
  get_env (fun k => if bool_decide (k = "HOME") then Some "/root" else None)
    (load_env_file (Some (file_text [("DB_PASSWORD", "a=b #c"); ("DB_PASSWORD", " it's ")])) create).2
    "DB_PASSWORD" "" = " it's ".
Proof.
  assert (Forall (fun b => key_ok b.1 /\ lacks (chr 10) b.2)
            [("DB_PASSWORD", "a=b #c"); ("DB_PASSWORD", " it's ")]) as H.
  { repeat (constructor; [split; [split_and!; [done..|by exists "D"%char, "D"%char]|reflexivity]|]). constructor. }
  pose proof (env_file_defines (fun k => if bool_decide (k = "HOME") then Some "/root" else None) _ None H) as Hw.
  exact (proj2 (proj2 Hw) "DB_PASSWORD" "").
Defined.

(** ** Numbers *)

Lemma after_digits_none s : all_chars isdigit s = true -> after_digits s = "".
Proof. induction s as [|c s IH]; [done|]. simpl. intros [Hc Hs]%andb_prop. by rewrite Hc, IH. Qed.

Lemma isdigit_isspace c : isdigit c = true -> isspace c = false.
Proof. destruct c as [[][][][][][][][]]; by vm_compute. Qed.

Lemma starts_digits s : all_chars isdigit s = true -> s <> "" -> starts_with_digit s = true.
Proof. destruct s as [|c s]; [done|]. simpl. by intros [Hc _]%andb_prop _. Qed.

(** An integer option is read exactly.  It has its default when the
    variable is unset; otherwise it has a value only if the text is decimal
    digits between white space, and then that number, which fits the type.  No
    sign, no trailing text and no wrapped value is ever accepted. *)
Theorem integer_options_exact (getenv : Env) (e : t) (bound : Z) (key : string) (d v : Z) :
  get_integral getenv bound e key d = Ok v <->
  (lookup_env getenv e key = None /\ v = d) \/
  exists a digits b, lookup_env getenv e key = Some (a ++ digits ++ b) /\
    all_chars isspace a = true /\ all_chars isspace b = true /\
    all_chars isdigit digits = true /\ digits <> "" /\ v = read_digits 0 digits /\ (v < bound)%Z.
Proof.
  unfold get_integral. destruct (lookup_env getenv e key) as [raw|].
  2: { split; [intros [= ->]; by left|]. by intros [[_ ->]|(? & ? & ? & [=] & _)]. }
  unfold parse_integral, trim. rewrite sanitize_trim. unfold from_chars_below. split.
  - intros H. right. destruct (trim_set_split isspace raw) as (a & b & E & Ha & Hb).
    exists a, (trim_set isspace raw), b. destruct (starts_with_digit _) eqn:Es; [|done].
    destruct (Z.ltb_spec (read_digits 0 (trim_set isspace raw)) bound) as [Hlt|]; [|done].
    destruct (after_digits _) eqn:Ea; [|done]. injection H as <-. split_and!; try done.
    + by rewrite <- E.
    + by apply OriginPolicy.after_digits_all.
    + by intros E'; rewrite E' in Es.
  - intros [[[=] _]|(a & n & b & [= ->] & Ha & Hb & Hn & Hne & -> & Hlt)].
    destruct (OriginPolicy.back_all _ _ Hn Hne) as (dl & Hbk & Hdl).
    destruct n as [|c n]; [done|]. pose proof Hn as [Hc _]%andb_prop.
    rewrite (trim_set_pad isspace a (String c n) b c dl); try done; try by apply isdigit_isspace.
    rewrite starts_digits by done. rewrite (proj2 (Z.ltb_lt _ _) Hlt). by rewrite after_digits_none.
Qed.
End EnvLoader.
