(* ===== verification/ClusterConfig.v ===== *)
(** * The media cluster's configuration

    [core/LivekitClusterConfig.{h,cpp}]: the [LIVEKIT_NODES] document, the rules
    its entries satisfy, and the node registry the voice service fills with
    them; and [scripts/render_livekit_runtime.py], which reads the same document
    for the deployment.  The JSON parsers, [inet_pton] and [ipaddress] are
    parameters. *)

From S2P Require Import Prelude.
From S2P Require Import CStrings.
From S2P Require Import Ids.
From S2P Require Import NodeRegistry.
From S2P Require Import External.
From S2P Require Import VoiceService.
From S2P Require Import Endpoints.
From S2P Require Import OriginPolicy.
From S2P Require Import EnvConfig.
From Stdlib Require Import Ascii.

Local Open Scope string_scope.

Module ClusterConfig.

Definition kRetiredLivekitNodeVariables : list string :=
  ["LIVEKIT_NODE1_PRIVATE_URL"; "LIVEKIT_NODE2_PRIVATE_URL"; "LIVEKIT_PROMETHEUS_PORT";
   "LIVEKIT_PROMETHEUS_NODE1_PORT"; "LIVEKIT_PROMETHEUS_NODE2_PORT"; "CADDY_LIVEKIT_NODE1_TARGET";
   "CADDY_LIVEKIT_NODE2_TARGET"; "ADMIN_LIVEKIT_NODE1_METRICS_TARGET";
   "ADMIN_LIVEKIT_NODE2_METRICS_TARGET"; "LIVEKIT_NODE1_CONFIG_PATH"; "LIVEKIT_NODE2_CONFIG_PATH";
   "LIVEKIT_PORT"].

Definition kNodeFields : list string :=
  ["id"; "signal_port"; "rtc_tcp_port"; "rtc_udp_start"; "rtc_udp_end"; "prometheus_port"; "node_ip"].

Definition kReservedNodeIds : list string :=
  ["admin-node"; "caddy-node"; "redis-node"; "server-node"; "web-node"; "web-node-dev"; "web-node-prod"].

Definition kReservedHostTcpPorts : list Z := [80; 443; 3000; 3001; 6379; 8080; 8081; 9001]%Z.

Record LivekitNodeConfig := mkNode {
  id : string;
  signal_port : Z; rtc_tcp_port : Z; rtc_udp_start : Z; rtc_udp_end : Z; prometheus_port : Z;
  node_ip : string; private_url : string; public_url : string; caddy_target : string;
  metrics_target : string
}.

Definition isalnum (c : ascii) : bool := islower c || isupper c || isdigit c.

Definition is_safe_node_id (id : string) : bool :=
  match front id, back id with
  | Some first, Some last =>
    if (63 <? String.length id)%nat || negb (isalnum first) || negb (isalnum last) then false
    else all_chars (fun ch => islower ch || isdigit ch || bool_decide (ch = "-"%char)) id
  | _, _ => false
  end.

(** The JSON value as an [int64_t], if [is_number_integer]. *)
Definition as_int64 (j : json) : option Z :=
  match j with
  | JInteger n => Some n
  | JUnsigned n => Some (if n <? two63 then n else n - two64)%Z
  | _ => None
  end.

Definition parse_port (node : gmap string json) (key : string) : expected Z string :=
  match (node !! key ≫= as_int64) with
  | None => Unexpected ("LIVEKIT_NODES field '" ++ key ++ "' must be an integer")
  | Some value =>
    if ((value <? 1) || (65535 <? value))%Z
    then Unexpected ("LIVEKIT_NODES field '" ++ key ++ "' must be between 1 and 65535")
    else Ok value
  end.

(** The first field, in the order of the names, that is not one of a node's. *)
Definition unknown_field (node : gmap string json) : option string :=
  match filter (fun key => key ∉ kNodeFields) (map_to_list node).*1 with
  | [] => None
  | key :: keys => Some (foldl (fun a b => if String.ltb b a then b else a) key keys)
  end.

Definition reject_unknown_fields (node : gmap string json) : expected unit string :=
  match unknown_field node with
  | Some key => Unexpected ("LIVEKIT_NODES contains unknown field '" ++ key ++ "'")
  | None => Ok tt
  end.

Definition add_tcp_port (ports : gset Z) (port : Z) : expected (gset Z) string :=
  if bool_decide (port ∈ kReservedHostTcpPorts)
  then Unexpected ("LIVEKIT_NODES TCP port collides with a shared service: " ++ std_to_string port)
  else if bool_decide (port ∈ ports)
  then Unexpected ("LIVEKIT_NODES contains a duplicate TCP port: " ++ std_to_string port)
  else Ok ({[port]} ∪ ports).

(** The loop's variables. *)
Record progress := mkProgress { nodes : list LivekitNodeConfig; ids : gset string; tcp_ports : gset Z }.

Section Cluster.
Context `{JsonLib, InetPton}.

Definition is_valid_ip (value : string) : bool :=
  inet_pton4 (OriginPolicy.c_str value) || inet_pton6 (OriginPolicy.c_str value).

(** The checks of a new [id] against the ones before it. *)
Definition check_id (seen : gset string) (id : string) : expected unit string :=
  (throw_if (negb (is_safe_node_id id))
     "LIVEKIT_NODES node id must use lowercase letters, digits, and internal hyphens";;;
   throw_if (bool_decide (id ∈ kReservedNodeIds)) "LIVEKIT_NODES node id collides with a shared service";;;
   throw_if (bool_decide (id ∈ seen)) ("LIVEKIT_NODES contains duplicate node id '" ++ id ++ "'");;;
   throw_if (existsb (fun existing => String.prefix existing id || String.prefix id existing) (elements seen))
     "LIVEKIT_NODES node ids must not be path prefixes")%throws.

Definition parse_id (node : gmap string json) : expected string string :=
  match node !! "id" with
  | Some (JString id) => Ok id
  | _ => Unexpected "LIVEKIT_NODES field 'id' must be a string"
  end.

Definition parse_node_ip (node : gmap string json) (require_node_ip : bool) : expected string string :=
  (ip <-- match node !! "node_ip" with
          | None => Ok ""
          | Some (JString ip) =>
            if negb (bool_decide (ip = "")) && negb (is_valid_ip ip)
            then Unexpected "LIVEKIT_NODES field 'node_ip' must be a valid IP address"
            else Ok ip
          | Some _ => Unexpected "LIVEKIT_NODES field 'node_ip' must be a string"
          end;
   throw_if (require_node_ip && bool_decide (ip = ""))
     "Production LIVEKIT_NODES entries require node_ip";;;
   Ok ip)%throws.

(** One entry of the document. *)
Definition add_entry (endpoints : PublicEndpointConfig.t) (require_node_ip : bool) (p : progress)
    (value : json) : expected progress string :=
  match value with
  | JObject node =>
    (reject_unknown_fields node;;;
     id <-- parse_id node;
     check_id (ids p) id;;;
     signal <-- parse_port node "signal_port";
     rtc_tcp <-- parse_port node "rtc_tcp_port";
     udp_start <-- parse_port node "rtc_udp_start";
     udp_end <-- parse_port node "rtc_udp_end";
     prometheus <-- parse_port node "prometheus_port";
     throw_if (udp_end <? udp_start)%Z "LIVEKIT_NODES rtc_udp_start must not exceed rtc_udp_end";;;
     ports <-- add_tcp_port (tcp_ports p) signal;
     ports <-- add_tcp_port ports rtc_tcp;
     ports <-- add_tcp_port ports prometheus;
     ip <-- parse_node_ip node require_node_ip;
     throw_if (existsb (fun existing => (udp_start <=? rtc_udp_end existing)%Z &&
                                        (rtc_udp_start existing <=? udp_end)%Z) (nodes p))
       "LIVEKIT_NODES contains overlapping RTC UDP ranges";;;
     public <-- PublicEndpointConfig.livekit_node_url endpoints id;
     Ok (mkProgress
           (nodes p ++
            [mkNode id signal rtc_tcp udp_start udp_end prometheus ip
               ("http://" ++ id ++ ":" ++ std_to_string signal) public
               (id ++ ":" ++ std_to_string signal) (id ++ ":" ++ std_to_string prometheus)])%list
           ({[id]} ∪ ids p) ports))%throws
  | _ => Unexpected "Every LIVEKIT_NODES entry must be an object"
  end.

Fixpoint add_entries (endpoints : PublicEndpointConfig.t) (require_node_ip : bool) (p : progress)
    (document : list json) : expected progress string :=
  match document with
  | [] => Ok p
  | value :: rest =>
    (p' <-- add_entry endpoints require_node_ip p value;
     add_entries endpoints require_node_ip p' rest)%throws
  end.

Definition from_json (raw : string) (endpoints : PublicEndpointConfig.t) (require_node_ip : bool)
  : expected (list LivekitNodeConfig) string :=
  match json_parse raw with
  | Some (JArray (value :: rest)) =>
    (p <-- add_entries endpoints require_node_ip (mkProgress [] ∅ ∅) (value :: rest); Ok (nodes p))%throws
  | _ => Unexpected "LIVEKIT_NODES must be a non-empty JSON array"
  end.

Definition from_env (getenv : Env) (e : EnvLoader.t) (endpoints : PublicEndpointConfig.t)
  : expected (list LivekitNodeConfig) string :=
  match List.find (EnvLoader.has_env getenv e) kRetiredLivekitNodeVariables with
  | Some key =>
    Unexpected ("Retired LiveKit node variable '" ++ key ++ "' is set; configure only LIVEKIT_NODES")
  | None =>
    (production <-- EnvLoader.get_bool getenv e "LIVEKIT_PRODUCTION_MODE" false;
     from_json (EnvLoader.get_env getenv e "LIVEKIT_NODES" "") endpoints production)%throws
  end.

(** ** The rules, declaratively *)

(** A field holds an integer that is a port. *)
Definition port_field (node : gmap string json) (key : string) (port : Z) : Prop :=
  (exists j, node !! key = Some j /\ as_int64 j = Some port) /\ (1 <= port <= 65535)%Z.

(** What an entry of the document says of a node. *)
Record describes (endpoints : PublicEndpointConfig.t) (production : bool) (value : json)
    (n : LivekitNodeConfig) : Prop := mkDescribes {
  d_fields : exists node, value = JObject node /\ (forall key, key ∈ dom node -> key ∈ kNodeFields) /\
    node !! "id" = Some (JString (id n)) /\
    port_field node "signal_port" (signal_port n) /\ port_field node "rtc_tcp_port" (rtc_tcp_port n) /\
    port_field node "rtc_udp_start" (rtc_udp_start n) /\ port_field node "rtc_udp_end" (rtc_udp_end n) /\
    port_field node "prometheus_port" (prometheus_port n) /\
    (node !! "node_ip" = None /\ node_ip n = "" \/ node !! "node_ip" = Some (JString (node_ip n)));
  d_ip : node_ip n = "" \/ is_valid_ip (node_ip n) = true;
  d_production : production = true -> node_ip n <> "";
  d_private : private_url n = "http://" ++ id n ++ ":" ++ std_to_string (signal_port n);
  d_public : public_url n = PublicEndpointConfig.app_origin endpoints ++ "/livekit/" ++ id n;
  d_caddy : caddy_target n = id n ++ ":" ++ std_to_string (signal_port n);
  d_metrics : metrics_target n = id n ++ ":" ++ std_to_string (prometheus_port n)
}.

(** The TCP ports a node listens on. *)
Definition tcp (n : LivekitNodeConfig) : list Z := [signal_port n; rtc_tcp_port n; prometheus_port n].

(** Two nodes can run side by side: neither id is a prefix of the other, and
    their UDP ranges are disjoint. *)
Definition apart (a b : LivekitNodeConfig) : Prop :=
  String.prefix (id a) (id b) = false /\ String.prefix (id b) (id a) = false /\
  forall port, ~ ((rtc_udp_start a <= port <= rtc_udp_end a)%Z /\ (rtc_udp_start b <= port <= rtc_udp_end b)%Z).

Definition node_rules (n : LivekitNodeConfig) : Prop :=
  is_safe_node_id (id n) = true /\ id n ∉ kReservedNodeIds /\
  (rtc_udp_start n <= rtc_udp_end n)%Z /\ forall port, port ∈ tcp n -> port ∉ kReservedHostTcpPorts.

Definition cluster_ok (ns : list LivekitNodeConfig) : Prop :=
  Forall node_rules ns /\ NoDup (ns ≫= tcp) /\
  forall i j a b, ns !! i = Some a -> ns !! j = Some b -> i <> j -> apart a b.

(** ** One entry *)

Lemma unknown_none node :
  unknown_field node = None <-> forall key, key ∈ dom node -> key ∈ kNodeFields.
Proof.
  unfold unknown_field. set (l := filter _ _).
  assert (forall key, key ∈ l <-> key ∈ dom node /\ key ∉ kNodeFields) as Hl.
  { intros key. unfold l. rewrite list_elem_of_filter, list_elem_of_fmap. split.
    - intros [Hk ([k v] & -> & Hv%elem_of_map_to_list)]. split; [|done]. by apply elem_of_dom.
    - intros [[v Hv]%elem_of_dom Hk]. split; [done|]. exists (key, v). split; [done|].
      by apply elem_of_map_to_list. }
  clearbody l. destruct l as [|k l].
  - split; [|done]. intros _ key Hk. destruct (decide (key ∈ kNodeFields)) as [|Hn]; [done|].
    exfalso. by apply (not_elem_of_nil key), Hl.
  - split; [done|]. intros Hall. destruct (proj1 (Hl k)) as [H1 H2]; [left|]. by destruct (H2 (Hall k H1)).
Qed.

Lemma parse_port_ok node key port : parse_port node key = Ok port <-> port_field node key port.
Proof.
  unfold parse_port, port_field. destruct (node !! key) as [j|] eqn:E; simpl.
  2: { split; [done|]. by intros ((? & [=] & _) & _). }
  destruct (as_int64 j) as [v|] eqn:Ej; simpl.
  2: { split; [done|]. intros ((? & [= <-] & ?) & _). congruence. }
  destruct (Z.ltb_spec v 1), (Z.ltb_spec 65535 v); simpl; split;
    try (by intros [=]); try (intros ((? & [= <-] & E') & ?); rewrite Ej in E'; injection E' as ->; lia).
  - intros [= <-]. split; [by exists j|lia].
  - intros ((? & [= <-] & E') & ?). congruence.
Qed.

Lemma add_tcp_ok ports port ports' :
  add_tcp_port ports port = Ok ports' <->
  port ∉ kReservedHostTcpPorts /\ port ∉ ports /\ ports' = {[port]} ∪ ports.
Proof.
  unfold add_tcp_port. destruct (bool_decide (port ∈ kReservedHostTcpPorts)) eqn:E1.
  { apply bool_decide_eq_true_1 in E1. split; [done|]. by intros []. }
  destruct (bool_decide (port ∈ ports)) eqn:E2.
  { apply bool_decide_eq_true_1 in E2. split; [done|]. by intros (_ & [] & _). }
  apply bool_decide_eq_false_1 in E1, E2. split; [by intros [= <-]|]. by intros (_ & _ & ->).
Qed.

Lemma check_id_ok seen i u :
  check_id seen i = Ok u <->
  is_safe_node_id i = true /\ i ∉ kReservedNodeIds /\ i ∉ seen /\
  forall e, e ∈ seen -> String.prefix e i = false /\ String.prefix i e = false.
Proof.
  assert (existsb (fun e => String.prefix e i || String.prefix i e) (elements seen) = false <->
          forall e, e ∈ seen -> String.prefix e i = false /\ String.prefix i e = false) as He.
  { rewrite <- not_true_iff_false, existsb_exists. split.
    - intros Hn e He. apply orb_false_iff. destruct (_ || _) eqn:Eo; [|done]. exfalso. apply Hn.
      exists e. split; [|done]. by apply list_elem_of_In, elem_of_elements.
    - intros Hall (e & He%list_elem_of_In%elem_of_elements & Eo). destruct (Hall e He) as [H1 H2].
      by rewrite H1, H2 in Eo. }
  rewrite <- He. destruct u. unfold check_id, throw_if.
  destruct (is_safe_node_id i); cbn [negb tr_bind]; [|by split; [|intros []]].
  destruct (bool_decide (i ∈ kReservedNodeIds)) eqn:E1; cbn [tr_bind].
  { apply bool_decide_eq_true_1 in E1. by split; [|intros (_ & [] & _)]. }
  destruct (bool_decide (i ∈ seen)) eqn:E2; cbn [tr_bind].
  { apply bool_decide_eq_true_1 in E2. by split; [|intros (_ & _ & [] & _)]. }
  apply bool_decide_eq_false_1 in E1, E2.
  destruct (existsb _ _); [by split; [|intros (_ & _ & _ & ?)]|done].
Qed.

Lemma parse_node_ip_ok node production ip :
  parse_node_ip node production = Ok ip <->
  (node !! "node_ip" = None /\ ip = "" \/ node !! "node_ip" = Some (JString ip)) /\
  (ip = "" \/ is_valid_ip ip = true) /\ (production = true -> ip <> "").
Proof.
  assert (forall x u, throw_if (production && bool_decide (x = ""))
            "Production LIVEKIT_NODES entries require node_ip" = Ok u <-> (production = true -> x <> "")) as Hp.
  { intros x u. rewrite throw_if_ok. destruct production; simpl; [|done].
    rewrite bool_decide_eq_false. split; [done|]. intros Hx. by apply Hx. }
  unfold parse_node_ip. rewrite tr_ok. split.
  - intros (x & Hx & (u & Hu & [= <-])%tr_ok). pose proof (proj1 (Hp _ _) Hu) as Hr. split; [|split; [|done]].
    + destruct (node !! "node_ip") as [[| | | | |s| |]|]; try done; [|by injection Hx as <-; left].
      destruct (_ && _); [done|]. injection Hx as <-. by right.
    + destruct (node !! "node_ip") as [[| | | | |s| |]|]; try done; [|by injection Hx as <-; left].
      destruct (bool_decide (s = "")) eqn:E, (is_valid_ip s) eqn:Ev; try done; injection Hx as <-;
        [by right|left; by apply bool_decide_eq_true_1 in E|by right].
  - intros (Hn & Hv & Hr). exists ip. split.
    + destruct Hn as [[-> ->]| ->]; [done|]. destruct Hv as [->| ->]; [done|].
      by destruct (bool_decide (ip = "")).
    + apply tr_ok. exists tt. split; [by apply Hp|done].
Qed.

Lemma safe_id_url endpoints i :
  is_safe_node_id i = true ->
  PublicEndpointConfig.livekit_node_url endpoints i =
    Ok (PublicEndpointConfig.app_origin endpoints ++ "/livekit/" ++ i).
Proof.
  unfold is_safe_node_id, PublicEndpointConfig.livekit_node_url. intros Hs.
  assert (split_on "/" i = None) as Hn.
  { apply OriginPolicy.split_on_none. destruct (front i), (back i); try done.
    destruct (_ || _ || _); [done|]. eapply PublicEndpointConfig.all_chars_impl; [|exact Hs].
    intros c. destruct c as [[][][][][][][][]]; by vm_compute. }
  rewrite Hn, bool_decide_eq_false_2 by (intros ->; done). done.
Qed.

(** ** Building the list *)

(** What a further node must satisfy. *)
Definition compatible (ns : list LivekitNodeConfig) (n : LivekitNodeConfig) : Prop :=
  node_rules n /\ NoDup (tcp n) /\ (forall port, port ∈ tcp n -> port ∉ (ns ≫= tcp)) /\
  Forall (fun e => apart e n) ns.

Lemma cluster_ok_snoc ns n : cluster_ok (ns ++ [n]) <-> cluster_ok ns /\ compatible ns n.
Proof.
  unfold cluster_ok, compatible. rewrite Forall_app, Forall_singleton, bind_app, list.NoDup_app.
  assert ((forall i j a b, (ns ++ [n])%list !! i = Some a -> (ns ++ [n])%list !! j = Some b -> i <> j -> apart a b) <->
          (forall i j a b, ns !! i = Some a -> ns !! j = Some b -> i <> j -> apart a b) /\
          Forall (fun e => apart e n) ns) as ->.
  { split.
    - intros Hall. split.
      + intros i j a b Ha Hb. apply (Hall i j); by apply lookup_app_l_Some.
      + apply Forall_lookup. intros i e He. apply (Hall i (length ns)).
        * by apply lookup_app_l_Some.
        * by apply list_lookup_middle.
        * intros ->. by rewrite lookup_ge_None_2 in He.
    - intros [Hall Hn] i j a b Ha Hb Hij. rewrite Forall_lookup in Hn.
      apply lookup_snoc_Some in Ha as [[_ Ha]|[-> <-]], Hb as [[_ Hb]|[-> <-]]; eauto.
      + destruct (Hn _ _ Hb) as (H1 & H2 & H3). split_and!; [done..|]. intros port [? ?]. by apply (H3 port).
      + done. }
  cbn [mbind list_bind]. rewrite app_nil_r.
  assert ((forall x, x ∈ (ns ≫= tcp) -> x ∉ tcp n) <-> (forall x, x ∈ tcp n -> x ∉ (ns ≫= tcp))) as -> by
    (split; intros Hd x H1 H2; by apply (Hd x)).
  tauto.
Qed.

(** The loop's sets hold the ids and ports of its nodes. *)
Definition synced (p : progress) : Prop :=
  (forall i, i ∈ ids p <-> i ∈ id <$> nodes p) /\ (forall port, port ∈ tcp_ports p <-> port ∈ (nodes p ≫= tcp)) /\
  Forall node_rules (nodes p).

Definition extend (p : progress) (n : LivekitNodeConfig) : progress :=
  mkProgress (nodes p ++ [n])%list ({[id n]} ∪ ids p)
    ({[prometheus_port n]} ∪ ({[rtc_tcp_port n]} ∪ ({[signal_port n]} ∪ tcp_ports p))).

Lemma synced_extend p n : synced p -> node_rules n -> synced (extend p n).
Proof.
  intros (Hi & Hp & Hr) Hn. unfold synced, extend. cbn [ids tcp_ports nodes]. split_and!.
  - intros i. rewrite elem_of_union, elem_of_singleton, Hi, fmap_app, elem_of_app. csimpl.
    rewrite list_elem_of_singleton. tauto.
  - intros port. rewrite !elem_of_union, !elem_of_singleton, Hp, bind_app, elem_of_app. csimpl.
    rewrite !elem_of_cons. pose proof (not_elem_of_nil port). tauto.
  - apply Forall_app. split; [done|by constructor].
Qed.

Lemma overlaps_apart ns start end_ :
  (start <= end_)%Z -> Forall node_rules ns ->
  existsb (fun e => (start <=? rtc_udp_end e)%Z && (rtc_udp_start e <=? end_)%Z) ns = false <->
  Forall (fun e => forall port, ~ ((rtc_udp_start e <= port <= rtc_udp_end e)%Z /\ (start <= port <= end_)%Z)) ns.
Proof.
  intros Hse. induction ns as [|e ns IH]; intros Hr; [done|].
  apply Forall_cons_1 in Hr as [(_ & _ & He & _) Hr]. cbn [existsb].
  rewrite orb_false_iff, IH, list.Forall_cons by done. apply and_iff_compat_r.
  rewrite andb_false_iff, !Z.leb_gt. split; [intros ? port; lia|]. intros Hn.
  destruct (Z.lt_ge_cases (rtc_udp_end e) start); [by left|]. right.
  destruct (Z.lt_ge_cases end_ (rtc_udp_start e)); [done|]. exfalso.
  apply (Hn (Z.max start (rtc_udp_start e))). lia.
Qed.

(** The checks the loop makes of a new node against the ones before it. *)
Definition admissible (p : progress) (n : LivekitNodeConfig) : Prop :=
  check_id (ids p) (id n) = Ok tt /\ (rtc_udp_start n <= rtc_udp_end n)%Z /\
  (forall port, port ∈ tcp n -> port ∉ kReservedHostTcpPorts) /\ signal_port n ∉ tcp_ports p /\
  rtc_tcp_port n ∉ {[signal_port n]} ∪ tcp_ports p /\
  prometheus_port n ∉ {[rtc_tcp_port n]} ∪ ({[signal_port n]} ∪ tcp_ports p) /\
  existsb (fun e => (rtc_udp_start n <=? rtc_udp_end e)%Z && (rtc_udp_start e <=? rtc_udp_end n)%Z) (nodes p) = false.

Lemma tcp_new p n :
  signal_port n ∉ tcp_ports p /\ rtc_tcp_port n ∉ {[signal_port n]} ∪ tcp_ports p /\
  prometheus_port n ∉ {[rtc_tcp_port n]} ∪ ({[signal_port n]} ∪ tcp_ports p) <->
  NoDup (tcp n) /\ forall port, port ∈ tcp n -> port ∉ tcp_ports p.
Proof.
  unfold tcp. rewrite !list.NoDup_cons, !not_elem_of_union, !not_elem_of_singleton.
  do 3 setoid_rewrite elem_of_cons. setoid_rewrite elem_of_nil.
  pose proof (NoDup_nil_2 (A := Z)). naive_solver.
Qed.

Lemma prefix_refl s : String.prefix s s = true.
Proof. induction s as [|c s IH]; [done|]. simpl. by destruct (ascii_dec c c). Qed.

Lemma compatible_admissible p n : synced p -> admissible p n <-> compatible (nodes p) n.
Proof.
  intros (Hi & Hp & Hr). unfold admissible, compatible, node_rules. rewrite check_id_ok.
  setoid_rewrite <- Hp.
  assert ((rtc_udp_start n <= rtc_udp_end n)%Z ->
    (id n ∉ ids p /\ (forall e, e ∈ ids p -> String.prefix e (id n) = false /\ String.prefix (id n) e = false)) /\
    existsb (fun e => (rtc_udp_start n <=? rtc_udp_end e)%Z && (rtc_udp_start e <=? rtc_udp_end n)%Z) (nodes p) = false
    <-> Forall (fun e => apart e n) (nodes p)) as Hap.
  { intros Hse. rewrite overlaps_apart by done. unfold apart. rewrite !list.Forall_forall. split.
    - intros [[_ Hpre] Hu] e He. destruct (Hpre (id e)) as [H1 H2]; [apply Hi, list_elem_of_fmap; by exists e|].
      split_and!; [done..|]. exact (Hu e He).
    - intros Hall. split; [|intros e He; by apply Hall]. split.
      + intros (e & E & He)%Hi%list_elem_of_fmap. destruct (Hall e He) as [Hf _]. rewrite E, prefix_refl in Hf. done.
      + intros i (e & -> & He)%Hi%list_elem_of_fmap. by destruct (Hall e He) as (? & ? & _). }
  pose proof (tcp_new p n) as Ht. tauto.
Qed.

Lemma reject_ok node u :
  reject_unknown_fields node = Ok u <-> forall key, key ∈ dom node -> key ∈ kNodeFields.
Proof.
  rewrite <- unknown_none. unfold reject_unknown_fields. by destruct (unknown_field node), u.
Qed.

Lemma parse_id_ok node i : parse_id node = Ok i <-> node !! "id" = Some (JString i).
Proof. unfold parse_id. destruct (node !! "id") as [[| | | | |s| |]|]; naive_solver. Qed.

(** An entry is accepted exactly when it describes a node the ones before it
    leave room for. *)
Lemma add_entry_ok endpoints production p value p' :
  add_entry endpoints production p value = Ok p' <->
  exists n, describes endpoints production value n /\ admissible p n /\ p' = extend p n.
Proof.
  split.
  - unfold add_entry. destruct value as [| | | | | | |node]; try done. intros H1.
    apply tr_ok in H1 as ([] & Hu & H1). pose proof (proj1 (reject_ok _ _) Hu) as Hk. apply tr_ok in H1 as (i & Hid%parse_id_ok & H1).
    apply tr_ok in H1 as ([] & Hc & H1). apply tr_ok in H1 as (sp & Hsp%parse_port_ok & H1).
    apply tr_ok in H1 as (rt & Hrt%parse_port_ok & H1). apply tr_ok in H1 as (us & Hus%parse_port_ok & H1).
    apply tr_ok in H1 as (ue & Hue%parse_port_ok & H1). apply tr_ok in H1 as (pp & Hpp%parse_port_ok & H1).
    apply tr_ok in H1 as ([] & Hse%throw_if_ok%Z.ltb_ge & H1).
    apply tr_ok in H1 as (p1 & (R1 & N1 & ->)%add_tcp_ok & H1).
    apply tr_ok in H1 as (p2 & (R2 & N2 & ->)%add_tcp_ok & H1).
    apply tr_ok in H1 as (p3 & (R3 & N3 & ->)%add_tcp_ok & H1).
    apply tr_ok in H1 as (ip & (Hn & Hv & Hq)%parse_node_ip_ok & H1).
    apply tr_ok in H1 as ([] & Ho%throw_if_ok & H1).
    pose proof (proj1 (proj1 (check_id_ok _ _ _) Hc)) as Hs.
    rewrite (safe_id_url _ _ Hs) in H1. cbn [tr_bind] in H1. injection H1 as <-.
    eexists (mkNode i sp rt us ue pp ip _ _ _ _). split_and!; [|split_and!|reflexivity]; try done.
    + split; try done. exists node. by split_and!.
    + unfold tcp. cbn. intros port Hport.
      repeat (apply elem_of_cons in Hport as [->|Hport]; [done|]). by apply not_elem_of_nil in Hport.
  - intros (n & [(node & -> & Hk & Hid & Hsp & Hrt & Hus & Hue & Hpp & Hn) Hv Hq E1 E2 E3 E4] &
             (Hc & Hse & HR & N1 & N2 & N3 & Ho) & ->).
    unfold add_entry, tr_bind at 1. rewrite (proj2 (reject_ok _ tt) Hk), (proj2 (parse_id_ok _ _) Hid). cbn [tr_bind].
    rewrite Hc. cbn [tr_bind]. rewrite (proj2 (parse_port_ok _ _ _) Hsp), (proj2 (parse_port_ok _ _ _) Hrt),
      (proj2 (parse_port_ok _ _ _) Hus), (proj2 (parse_port_ok _ _ _) Hue), (proj2 (parse_port_ok _ _ _) Hpp).
    cbn [tr_bind]. rewrite (proj2 (Z.ltb_ge _ _) Hse). cbn [throw_if tr_bind].
    rewrite (proj2 (add_tcp_ok _ _ _) (conj (HR _ ltac:(by left)) (conj N1 eq_refl))). cbn [tr_bind].
    rewrite (proj2 (add_tcp_ok _ _ _) (conj (HR _ ltac:(by right; left)) (conj N2 eq_refl))). cbn [tr_bind].
    rewrite (proj2 (add_tcp_ok _ _ _) (conj (HR _ ltac:(by right; right; left)) (conj N3 eq_refl))). cbn [tr_bind].
    rewrite (proj2 (parse_node_ip_ok _ _ _) (conj Hn (conj Hv Hq))). cbn [tr_bind]. rewrite Ho. cbn [throw_if tr_bind].
    rewrite (safe_id_url _ _ (proj1 (proj1 (check_id_ok _ _ _) Hc))). cbn [tr_bind].
    unfold extend. by destruct n; simpl in *; subst.
Qed.

Lemma cluster_ok_app ns ms : cluster_ok (ns ++ ms) -> cluster_ok ns.
Proof.
  induction ms as [|n ms IH] using rev_ind; [by rewrite app_nil_r|].
  rewrite (assoc_L (++)%list). intros [Hc _]%cluster_ok_snoc. auto.
Qed.

Lemma add_entries_ok endpoints production document : forall p p',
  synced p -> cluster_ok (nodes p) ->
  add_entries endpoints production p document = Ok p' <->
  exists ns, Forall2 (describes endpoints production) document ns /\ cluster_ok (nodes p ++ ns) /\
    p' = foldl extend p ns.
Proof.
  induction document as [|value rest IH]; intros p p' Hs Hc; cbn [add_entries].
  { split.
    - intros [= <-]. exists []. split_and!; [constructor|by rewrite app_nil_r|done].
    - by intros (ns & ->%Forall2_nil_inv_l & _ & ->). }
  assert (forall n, compatible (nodes p) n -> synced (extend p n) /\ cluster_ok (nodes (extend p n))) as Hx.
  { intros n Hn. split; [apply synced_extend; [done|apply Hn]|by apply cluster_ok_snoc]. }
  rewrite tr_ok. split.
  - intros (q & (n & Hd & Ha & ->)%add_entry_ok & Hr). pose proof (proj1 (compatible_admissible _ _ Hs) Ha) as Hn.
    destruct (Hx n Hn) as [Hs' Hc']. apply (IH _ _ Hs' Hc') in Hr as (ns & Hds & Hok & ->).
    exists (n :: ns). split_and!; [by constructor| |done]. simpl in Hok. by rewrite <- (assoc_L (++)%list) in Hok.
  - intros (ns & (n & ns' & Hd & Hds & ->)%Forall2_cons_inv_l & Hok & ->).
    rewrite cons_middle, (assoc_L (++)%list) in Hok.
    pose proof (cluster_ok_app _ _ Hok) as [_ Hn]%cluster_ok_snoc. destruct (Hx n Hn) as [Hs' Hc'].
    exists (extend p n). split; [|by apply IH; [..|exists ns']].
    apply add_entry_ok. exists n. split_and!; [done| |done]. by apply (compatible_admissible _ _ Hs).
Qed.

Lemma foldl_extend_nodes ns : forall p, nodes (foldl extend p ns) = (nodes p ++ ns)%list.
Proof.
  induction ns as [|n ns IH]; intros p; [by rewrite app_nil_r|]. simpl. rewrite IH. simpl.
  by rewrite <- (assoc_L (++)%list).
Qed.

Lemma from_json_ok (raw : string) (endpoints : PublicEndpointConfig.t) (production : bool)
    (ns : list LivekitNodeConfig) :
  from_json raw endpoints production = Ok ns <->
  exists document, json_parse raw = Some (JArray document) /\ document <> [] /\
    Forall2 (describes endpoints production) document ns /\ cluster_ok ns.
Proof.
  assert (synced (mkProgress [] ∅ ∅)) as Hs by (split_and!; [set_solver..|constructor]).
  assert (cluster_ok []) as Hc by (split_and!; [constructor|constructor|done]).
  unfold from_json. destruct (json_parse raw) as [[| | | | | |[|value rest]|]|];
    try (split; [done|]; by intros (? & [=] & ?)).
  { split; [done|]. intros (? & [= <-] & Hn & _). done. }
  rewrite tr_ok. split.
  - intros (p & Hp & [= <-]). apply (add_entries_ok _ _ _ _ _ Hs Hc) in Hp as (ns' & Hd & Hok & ->).
    rewrite foldl_extend_nodes. by exists (value :: rest).
  - intros (document & [= <-] & _ & Hd & Hok). exists (foldl extend (mkProgress [] ∅ ∅) ns). split.
    + apply add_entries_ok; [done..|]. by exists ns.
    + by rewrite foldl_extend_nodes.
Qed.

(** C31: [LIVEKIT_NODES] is accepted exactly when it is a non-empty array whose
    entries describe nodes by known fields only, every port between 1 and
    65535, a valid address where one is given and always in production, and
    the nodes together keep the rules: safe ids that are not reserved and none
    of which is a prefix of another, no TCP port shared between any two nodes
    or with the stack's services, and disjoint UDP ranges.  The result is then
    those nodes, in order, with the URLs derived from them. *)
Theorem cluster_config_exact (raw : string) (endpoints : PublicEndpointConfig.t) (production : bool)
    (ns : list LivekitNodeConfig) :
  from_json raw endpoints production = Ok ns <->
  exists document, json_parse raw = Some (JArray document) /\ document <> [] /\
    Forall2 (describes endpoints production) document ns /\ cluster_ok ns.
Proof. apply from_json_ok. Qed.

(** ** The registry *)

Definition registry_entry (n : LivekitNodeConfig) : string * string * string :=
  (id n, public_url n, private_url n).

(** The node as the registry starts with it. *)
Definition fresh_node (n : LivekitNodeConfig) : NodeRegistry.LivekitNode :=
  NodeRegistry.mkNode (id n) (public_url n) (private_url n) 0 0 0.

Lemma register_distinct ns : forall r,
  NoDup (id <$> ns) -> (forall n, n ∈ ns -> NodeRegistry.nodes_ r !! id n = None) ->
  exists r', VoiceService.register_nodes r (registry_entry <$> ns) = Some r' /\
    NodeRegistry.node_order_ r' = (NodeRegistry.node_order_ r ++ (id <$> ns))%list /\
    NodeRegistry.round_robin_cursor_ r' = NodeRegistry.round_robin_cursor_ r /\
    (forall n, n ∈ ns -> NodeRegistry.nodes_ r' !! id n = Some (fresh_node n)) /\
    (forall k, k ∉ id <$> ns -> NodeRegistry.nodes_ r' !! k = NodeRegistry.nodes_ r !! k).
Proof.
  induction ns as [|n ns IH]; intros r Hnd Hfree.
  { exists r. rewrite app_nil_r. split_and!; try done. by intros n ?%not_elem_of_nil. }
  csimpl. unfold NodeRegistry.register_node at 1. cbn [NodeRegistry.node_id].
  rewrite (Hfree n) by left. cbn [mbind option_bind].
  apply list.NoDup_cons in Hnd as [Hn Hnd]. edestruct IH as (r' & Hr & Ho & Hc & Hin & Hout); [done| |].
  2: { exists r'. split; [exact Hr|]. rewrite Ho, Hc. cbn [NodeRegistry.node_order_ NodeRegistry.nodes_] in *.
       split_and!; [by rewrite <- (assoc_L (++)%list)|done| |].
       - intros m [->|Hm]%elem_of_cons; [|by apply Hin]. by rewrite Hout, lookup_insert_eq.
       - intros k [Hk1 Hk2]%not_elem_of_cons. by rewrite Hout, lookup_insert_ne. }
  intros m Hm. cbn [NodeRegistry.nodes_]. rewrite lookup_insert_ne; [apply Hfree; by right|].
  intros E. apply Hn. rewrite E. apply list_elem_of_fmap. by exists m.
Qed.

Lemma cluster_ids_distinct ns : cluster_ok ns -> NoDup (id <$> ns).
Proof.
  intros (_ & _ & Hap). apply NoDup_alt. intros i j x Hi Hj.
  apply list_lookup_fmap_Some in Hi as (a & -> & Ea), Hj as (b & E & Eb).
  destruct (decide (i = j)) as [|Hne]; [done|]. destruct (Hap i j a b Ea Eb Hne) as [Hp _].
  by rewrite E, prefix_refl in Hp.
Qed.

(** The voice service is constructed from any accepted configuration:
    registering its nodes never meets a repeated id, the registry lists exactly
    them, idle and in the configuration's order, and the first room is offered
    the first of them. *)
Theorem accepted_cluster_registers (raw : string) (endpoints : PublicEndpointConfig.t) (production : bool)
    (ns : list LivekitNodeConfig) (Hok : from_json raw endpoints production = Ok ns) :
  exists r, VoiceService.register_nodes NodeRegistry.create (registry_entry <$> ns) = Some r /\
    NodeRegistry.list_nodes r = fresh_node <$> ns /\
    exists first rest, ns = first :: rest /\ (NodeRegistry.any_node r).1 = Some (fresh_node first).
Proof.
  apply from_json_ok in Hok as (document & _ & Hne & Hd & Hc).
  destruct (register_distinct ns NodeRegistry.create) as (r & Hr & Ho & Hcur & Hin & _);
    [by apply cluster_ids_distinct|done|].
  exists r. split; [exact Hr|]. change (NodeRegistry.node_order_ r = id <$> ns) in Ho. split.
  - unfold NodeRegistry.list_nodes. rewrite Ho. clear -Hin. induction ns as [|n ns IH]; [done|].
    csimpl. rewrite (Hin n) by left. f_equal. apply IH. intros m Hm. apply Hin. by right.
  - destruct ns as [|first rest]; [by apply Forall2_nil_inv_r in Hd|]. exists first, rest. split; [done|].
    unfold NodeRegistry.any_node. rewrite Ho. csimpl. cbn [NodeRegistry.any_attempts].
    rewrite Ho, Hcur. cbn [NodeRegistry.create NodeRegistry.round_robin_cursor_].
    rewrite Zmod_0_l. csimpl. by rewrite (Hin first) by left.
Qed.

End Cluster.

(** ** Two nodes *)

Module Demo.

Definition entry (name : string) (base : Z) : json :=
  JObject (list_to_map [("id", JString name); ("signal_port", JUnsigned base); ("rtc_tcp_port", JUnsigned (base + 1));
    ("rtc_udp_start", JUnsigned (base + 10)); ("rtc_udp_end", JUnsigned (base + 19));
    ("prometheus_port", JUnsigned (base + 2))]).

#[local] Instance demo_json : JsonLib := {
  json_parse := fun s => if bool_decide (s = "two") then Some (JArray [entry "media-a" 7880; entry "media-b" 7980])
                         else if bool_decide (s = "prefix") then Some (JArray [entry "media" 7880; entry "media-b" 7980])
                         else None;
  json_dump := fun _ => "";
  picojson_serialize := fun _ => ""
}.
#[local] Instance demo_inet : InetPton := { inet_pton4 := fun _ => false; inet_pton6 := fun _ => false }.

Definition endpoints : PublicEndpointConfig.t :=
  PublicEndpointConfig.mk "https://app.example" "https://db.example".

Definition media (name : string) (base : Z) (signal metrics : string) : LivekitNodeConfig :=
  mkNode name base (base + 1) (base + 10) (base + 19) (base + 2) "" ("http://" ++ name ++ ":" ++ signal)
    ("https://app.example/livekit/" ++ name) (name ++ ":" ++ signal) (name ++ ":" ++ metrics).

Definition two_nodes : list LivekitNodeConfig :=
  [media "media-a" 7880 "7880" "7882"; media "media-b" 7980 "7980" "7982"].

Lemma two_accepted : from_json "two" endpoints false = Ok two_nodes.
Proof. vm_compute. reflexivity. Qed.

Example prefix_refused :
  from_json "prefix" endpoints false = Unexpected "LIVEKIT_NODES node ids must not be path prefixes".
Proof. vm_compute. reflexivity. Qed.

Example production_needs_address :
  from_json "two" endpoints true = Unexpected "Production LIVEKIT_NODES entries require node_ip".
Proof. vm_compute. reflexivity. Qed.

End Demo.

Lemma accepted_cluster_registers_witness :
  exists r, VoiceService.register_nodes NodeRegistry.create (registry_entry <$> Demo.two_nodes) = Some r /\
    NodeRegistry.list_nodes r = fresh_node <$> Demo.two_nodes.
Proof.
  destruct (accepted_cluster_registers (H := Demo.demo_json) (H0 := Demo.demo_inet) "two" Demo.endpoints false
              Demo.two_nodes Demo.two_accepted) as (r & H1 & H2 & _).
  exact (ex_intro _ r (conj H1 H2)).
Defined.


(** ** The deployment script

    [scripts/render_livekit_runtime.py] reads the same variable to make the
    media servers' configuration and the reverse proxy's routes.  Its rules are
    written a second time, in Python; they are shown to be the server's. *)

Module LivekitRuntime.

(** [json.loads], with the message of its error, and whether
    [ipaddress.ip_address] returns.  A string is its UTF-8 text. *)
Class Python := {
  json_loads : string -> expected json string;
  ip_address : string -> bool
}.

Record node_dict := mkDict {
  n_id : string; n_signal_port : Z; n_rtc_tcp_port : Z; n_rtc_udp_start : Z; n_rtc_udp_end : Z;
  n_prometheus_port : Z; n_node_ip : string
}.

Definition NODE_FIELDS : gset string :=
  {["id"; "signal_port"; "rtc_tcp_port"; "rtc_udp_start"; "rtc_udp_end"; "prometheus_port"; "node_ip"]}.
Definition RESERVED_NODE_IDS : gset string :=
  {["admin-node"; "server-node"; "caddy-node"; "redis-node"; "web-node"; "web-node-dev"; "web-node-prod"]}.
Definition RESERVED_HOST_TCP_PORTS : gset Z := {[80; 443; 3000; 3001; 6379; 8080; 8081; 9001]}%Z.

(** [NODE_ID_RE.fullmatch]: a letter or digit, and then either nothing or at
    most 61 letters, digits and hyphens before a letter or digit. *)
Definition edge (c : ascii) : bool := islower c || isdigit c.
Definition NODE_ID_RE (s : string) : bool :=
  match s with
  | EmptyString => false
  | String first rest =>
    edge first &&
    match back rest with
    | None => true
    | Some last =>
      (String.length rest <=? 62)%nat && edge last &&
      all_chars (fun c => edge c || bool_decide (c = "-"%char)) rest
    end
  end.

Definition fail {A} (message : string) : expected A string := Unexpected ("LIVEKIT_NODES " ++ message).
Definition fail_if (b : bool) (message : string) : expected unit string :=
  throw_if b ("LIVEKIT_NODES " ++ message).

(** [type(value) is int]: neither a boolean nor a float. *)
Definition node_port (node : gmap string json) (field : string) : expected Z string :=
  match node !! field with
  | Some (JUnsigned value) | Some (JInteger value) =>
    if ((1 <=? value) && (value <=? 65535))%Z then Ok value
    else fail ("field '" ++ field ++ "' must be an integer between 1 and 65535")
  | _ => fail ("field '" ++ field ++ "' must be an integer between 1 and 65535")
  end.

(** The loop's variables. *)
Record loop := mkLoop {
  parsed : list node_dict; l_ids : gset string; l_tcp_ports : gset Z; udp_ranges : list (Z * Z)
}.

Fixpoint take_ports (ports : list Z) (taken : gset Z) : expected (gset Z) string :=
  match ports with
  | [] => Ok taken
  | port :: rest =>
    (fail_if (bool_decide (port ∈ RESERVED_HOST_TCP_PORTS))
       ("TCP port " ++ std_to_string port ++ " collides with a shared service");;;
     fail_if (bool_decide (port ∈ taken)) ("contains duplicate TCP port " ++ std_to_string port);;;
     take_ports rest ({[port]} ∪ taken))%throws
  end.

Section Script.
Context `{Python}.

Definition node_id (node : gmap string json) (ids : gset string) : expected string string :=
  match node !! "id" with
  | Some (JString i) =>
    (fail_if (negb (NODE_ID_RE i)) "node ids must use lowercase letters, digits, and internal hyphens";;;
     fail_if (bool_decide (i ∈ RESERVED_NODE_IDS)) ("node id '" ++ i ++ "' collides with a shared service");;;
     fail_if (bool_decide (i ∈ ids)) ("contains duplicate node id '" ++ i ++ "'");;;
     fail_if (existsb (fun existing => String.prefix existing i || String.prefix i existing) (elements ids))
       "node ids must not be path prefixes";;;
     Ok i)%throws
  | _ => fail "node ids must use lowercase letters, digits, and internal hyphens"
  end.

Definition node_address (node : gmap string json) (production : bool) : expected string string :=
  match default (JString "") (node !! "node_ip") with
  | JString ip =>
    (fail_if (negb (bool_decide (ip = "")) && negb (ip_address ip)) "field 'node_ip' must be a valid IP address";;;
     fail_if (production && bool_decide (ip = "")) "production entries require node_ip";;;
     Ok ip)%throws
  | _ => fail "field 'node_ip' must be a string"
  end.

Definition known_fields (node : gmap string json) : expected unit string :=
  match elements (dom node ∖ NODE_FIELDS) with
  | [] => Ok tt
  | key :: keys =>
    fail ("contains unknown field '" ++ foldl (fun a b => if String.ltb b a then b else a) key keys ++ "'")
  end.

Definition parse_node (production : bool) (l : loop) (value : json) : expected loop string :=
  match value with
  | JObject node =>
    (known_fields node;;;
     i <-- node_id node (l_ids l);
     signal <-- node_port node "signal_port";
     rtc_tcp <-- node_port node "rtc_tcp_port";
     udp_start <-- node_port node "rtc_udp_start";
     udp_end <-- node_port node "rtc_udp_end";
     prometheus <-- node_port node "prometheus_port";
     fail_if (udp_end <? udp_start)%Z "rtc_udp_start must not exceed rtc_udp_end";;;
     ports <-- take_ports [signal; rtc_tcp; prometheus] (l_tcp_ports l);
     fail_if (existsb (fun '(s, e) => (udp_start <=? e)%Z && (s <=? udp_end)%Z) (udp_ranges l))
       "contains overlapping RTC UDP ranges";;;
     ip <-- node_address node production;
     Ok (mkLoop (parsed l ++ [mkDict i signal rtc_tcp udp_start udp_end prometheus ip])%list
           ({[i]} ∪ l_ids l) ports (udp_ranges l ++ [(udp_start, udp_end)])%list))%throws
  | _ => fail "entries must be objects"
  end.

Fixpoint parse_each (production : bool) (l : loop) (nodes : list json) : expected loop string :=
  match nodes with
  | [] => Ok l
  | value :: rest => (l' <-- parse_node production l value; parse_each production l' rest)%throws
  end.

Definition parse_nodes (raw : string) (production : bool) : expected (list node_dict) string :=
  match json_loads raw with
  | Unexpected msg => fail ("must be valid JSON: " ++ msg)
  | Ok (JArray (value :: rest)) =>
    (l <-- parse_each production (mkLoop [] ∅ ∅ []) (value :: rest); Ok (parsed l))%throws
  | Ok _ => fail "must be a non-empty JSON array"
  end.
End Script.

Definition newline : string := String (chr 10) "".

Definition metrics_block (i target : string) : string :=
  "handle_path /admin-livekit-metrics/" ++ i ++ "* {" ++ newline ++ "  rewrite * /metrics" ++ newline ++
  "  reverse_proxy " ++ target ++ newline ++ "}".
Definition gateway_block (upstreams : string) : string :=
  "handle_path /livekit* {" ++ newline ++ "  import livekit_gateway " ++ upstreams ++ newline ++ "}".

Definition render_caddy_routes (nodes : list node_dict) : string :=
  String.concat (newline ++ newline)
    (map (fun n => metrics_block (n_id n) (n_id n ++ ":" ++ std_to_string (n_prometheus_port n))) nodes ++
     [gateway_block (String.concat " " (map (fun n => n_id n ++ ":" ++ std_to_string (n_signal_port n)) nodes))])
  ++ newline.

(** *** Agreement *)

Definition as_dict (n : LivekitNodeConfig) : node_dict :=
  mkDict (id n) (signal_port n) (rtc_tcp_port n) (rtc_udp_start n) (rtc_udp_end n) (prometheus_port n) (node_ip n).

Lemma back_cons c s : back (String c s) = Some (default c (back s)).
Proof. destruct s as [|d s]; [done|]. change (back (String c (String d s))) with (back (String d s)).
  revert d. induction s as [|e s IH]; intros d; [done|]. apply IH. Qed.

Lemma back_char p s l : back s = Some l -> all_chars p s = true -> p l = true.
Proof.
  revert l. induction s as [|c s IH]; intros l; [done|]. rewrite back_cons. intros [= <-] [Hc Hs]%andb_prop.
  destruct (back s) as [d|]; [by apply IH|done].
Qed.

Lemma edge_alnum c : edge c = isalnum c && (edge c || bool_decide (c = "-"%char)).
Proof. destruct c as [[][][][][][][][]]; by vm_compute. Qed.

Lemma node_id_safe s : NODE_ID_RE s = is_safe_node_id s.
Proof.
  destruct s as [|c s]; [done|]. unfold NODE_ID_RE, is_safe_node_id. rewrite back_cons. cbn [front String.length].
  set (inner := fun ch => edge ch || bool_decide (ch = "-"%char)).
  change (fun ch => islower ch || isdigit ch || bool_decide (ch = "-"%char)) with inner.
  cbn [all_chars]. rewrite (edge_alnum c). fold (inner c). destruct (back s) as [l|] eqn:El.
  - pose proof (back_char inner s l El) as Hl. rewrite (edge_alnum l). fold (inner l).
    change (default c (Some l)) with l.
    assert ((63 <? S (String.length s))%nat = negb (String.length s <=? 62)%nat) as ->.
    { destruct (Nat.ltb_spec 63 (S (String.length s))), (Nat.leb_spec (String.length s) 62); try done; lia. }
    destruct (isalnum c), (isalnum l), (String.length s <=? 62)%nat, (all_chars inner s), (inner c); try done;
      cbn; by rewrite ?(Hl eq_refl), ?andb_false_r.
  - destruct s as [|d s]; [|by rewrite back_cons in El]. change (default c None) with c.
    by destruct (isalnum c), (inner c).
Qed.

Section Agreement.
Context `{JsonLib, InetPton, Python}.

(** What the entry's numbers and address have to be for the two sides to read
    them alike. *)
Definition read_alike (value : json) : Prop :=
  forall node, value = JObject node ->
  (forall key n, node !! key = Some (JUnsigned n) -> (n < two64)%Z) /\
  (forall ip, node !! "node_ip" = Some (JString ip) -> ip_address ip = is_valid_ip ip).

Lemma known_fields_ok node u : known_fields node = Ok u <-> reject_unknown_fields node = Ok u.
Proof.
  rewrite reject_ok. unfold known_fields. destruct u.
  assert (forall key, key ∈ NODE_FIELDS <-> key ∈ kNodeFields) as Hf.
  { intros key. unfold NODE_FIELDS, kNodeFields. rewrite !elem_of_union, !elem_of_singleton, !elem_of_cons, elem_of_nil. tauto. }
  destruct (elements (dom node ∖ NODE_FIELDS)) as [|k ks] eqn:E.
  - split; [|done]. intros _ key Hk. apply Hf. destruct (decide (key ∈ NODE_FIELDS)) as [|Hn]; [done|].
    apply elements_empty_inv in E. exfalso. apply (not_elem_of_empty (C := gset string) key). rewrite <- E. set_solver.
  - split; [done|]. intros Hall. assert (k ∈ dom node ∖ NODE_FIELDS) as [Hk Hn]%elem_of_difference.
    { apply elem_of_elements. rewrite E. left. }
    by destruct (Hn (proj2 (Hf k) (Hall k Hk))).
Qed.

Lemma node_port_ok node key port :
  (forall n, node !! key = Some (JUnsigned n) -> (n < two64)%Z) ->
  node_port node key = Ok port <-> parse_port node key = Ok port.
Proof.
  intros Hfit. rewrite parse_port_ok. unfold node_port, port_field.
  assert (forall v, ((if ((1 <=? v) && (v <=? 65535))%Z then Ok v
     else fail ("field '" ++ key ++ "' must be an integer between 1 and 65535")) = Ok port) <->
     v = port /\ (1 <= port <= 65535)%Z) as Hv.
  { intros v. destruct (Z.leb_spec 1 v), (Z.leb_spec v 65535); cbn; split; try done; try (intros [-> ?]; lia).
    - intros [= <-]. lia.
    - by intros [-> _]. }
  destruct (node !! key) as [[| |n|n| | | |]|]; try (split; [done|]; by intros ((? & [= <-] & [=]) & _)).
  - rewrite Hv. specialize (Hfit n eq_refl). unfold as_int64, two63, two64 in *. split.
    + intros [-> Hr]. split; [|done]. eexists. split; [done|]. cbn. by rewrite (proj2 (Z.ltb_lt _ _)) by lia.
    + intros ((? & [= <-] & E) & Hr). split; [|done]. destruct (Z.ltb_spec n 9223372036854775808); injection E as E; lia.
  - rewrite Hv. split.
    + intros [-> Hr]. split; [|done]. by eexists.
    + intros ((? & [= <-] & [= ->]) & Hr). done.
Qed.

Lemma take_ports_cons port rest taken r :
  take_ports (port :: rest) taken = Ok r <->
  exists t, add_tcp_port taken port = Ok t /\ take_ports rest t = Ok r.
Proof.
  assert (port ∈ RESERVED_HOST_TCP_PORTS <-> port ∈ kReservedHostTcpPorts) as Hr.
  { unfold RESERVED_HOST_TCP_PORTS, kReservedHostTcpPorts.
    rewrite !elem_of_union, !elem_of_singleton, !elem_of_cons, elem_of_nil. tauto. }
  cbn [take_ports]. unfold fail_if, add_tcp_port, throw_if. rewrite (bool_decide_ext _ _ Hr).
  destruct (bool_decide _); [split; [done|by intros (? & ? & _)]|]. cbn [tr_bind].
  destruct (bool_decide _); [split; [done|by intros (? & ? & _)]|]. cbn [tr_bind].
  split; [by eexists|]. by intros (? & [= <-] & ?).
Qed.

Lemma node_id_ok node seen i :
  node_id node seen = Ok i <-> parse_id node = Ok i /\ check_id seen i = Ok tt.
Proof.
  rewrite parse_id_ok, check_id_ok.
  assert (forall j, j ∈ RESERVED_NODE_IDS <-> j ∈ kReservedNodeIds) as Hr.
  { intros j. unfold RESERVED_NODE_IDS, kReservedNodeIds.
    rewrite !elem_of_union, !elem_of_singleton, !elem_of_cons, elem_of_nil. tauto. }
  unfold node_id. destruct (node !! "id") as [[| | | | |j| |]|]; try (split; [done|]; by intros [[=] _]).
  rewrite node_id_safe, (bool_decide_ext _ _ (Hr j)).
  assert (((fail_if (negb (is_safe_node_id j)) "node ids must use lowercase letters, digits, and internal hyphens";;;
     fail_if (bool_decide (j ∈ kReservedNodeIds)) ("node id '" ++ j ++ "' collides with a shared service");;;
     fail_if (bool_decide (j ∈ seen)) ("contains duplicate node id '" ++ j ++ "'");;;
     fail_if (existsb (fun existing => String.prefix existing j || String.prefix j existing) (elements seen))
       "node ids must not be path prefixes";;; Ok j)%throws = Ok i) <-> j = i /\ check_id seen j = Ok tt) as ->.
  { unfold fail_if, check_id, throw_if. destruct (negb _); cbn [tr_bind]; [by split; [|intros [_ ?]]|].
    destruct (bool_decide (j ∈ kReservedNodeIds)); cbn [tr_bind]; [by split; [|intros [_ ?]]|].
    destruct (bool_decide (j ∈ seen)); cbn [tr_bind]; [by split; [|intros [_ ?]]|].
    destruct (existsb _ _); cbn [tr_bind]; [by split; [|intros [_ ?]]|]. split; [by intros [= <-]|by intros [-> _]]. }
  rewrite check_id_ok. split; [by intros [-> ?]|by intros [[= ->] ?]].
Qed.

Lemma node_address_ok node production ip :
  (forall ip, node !! "node_ip" = Some (JString ip) -> ip_address ip = is_valid_ip ip) ->
  node_address node production = Ok ip <-> parse_node_ip node production = Ok ip.
Proof.
  intros Hip. unfold node_address, parse_node_ip. destruct (node !! "node_ip") as [[| | | | |a| |]|]; cbn; try done.
  - rewrite (Hip a eq_refl). unfold fail_if, throw_if. destruct (_ && negb (is_valid_ip a)); cbn; [done|].
    by destruct (production && _).
  - unfold fail_if, throw_if. by destruct production.
Qed.

(** The loops of the two programs, side by side. *)
Definition alongside (l : loop) (p : progress) : Prop :=
  parsed l = as_dict <$> nodes p /\ l_ids l = ids p /\ l_tcp_ports l = tcp_ports p /\
  udp_ranges l = (fun n => (rtc_udp_start n, rtc_udp_end n)) <$> nodes p.

Lemma overlaps_alongside l p us ue :
  alongside l p ->
  existsb (fun '(s, e) => (us <=? e)%Z && (s <=? ue)%Z) (udp_ranges l) =
  existsb (fun e => (us <=? rtc_udp_end e)%Z && (rtc_udp_start e <=? ue)%Z) (nodes p).
Proof. intros (_ & _ & _ & ->). induction (nodes p) as [|n ns IH]; [done|]. csimpl. by rewrite IH. Qed.

Lemma parse_node_forward endpoints production l p value l' :
  read_alike value -> alongside l p -> parse_node production l value = Ok l' ->
  exists p', add_entry endpoints production p value = Ok p' /\ alongside l' p'.
Proof.
  intros Hr Hl. unfold parse_node. destruct value as [| | | | | | |node]; try done. intros Hp.
  destruct (Hr node eq_refl) as [Hnum Hip]. pose proof Hl as (L1 & L2 & L3 & L4).
  apply tr_ok in Hp as ([] & Hk%known_fields_ok & Hp).
  apply tr_ok in Hp as (i & [Hi Hc]%node_id_ok & Hp).
  apply tr_ok in Hp as (sp & Hsp%node_port_ok & Hp); [|apply Hnum].
  apply tr_ok in Hp as (rt & Hrt%node_port_ok & Hp); [|apply Hnum].
  apply tr_ok in Hp as (us & Hus%node_port_ok & Hp); [|apply Hnum].
  apply tr_ok in Hp as (ue & Hue%node_port_ok & Hp); [|apply Hnum].
  apply tr_ok in Hp as (pp & Hpp%node_port_ok & Hp); [|apply Hnum].
  apply tr_ok in Hp as ([] & Hse%throw_if_ok & Hp).
  apply tr_ok in Hp as (t3 & Ht & Hp). apply take_ports_cons in Ht as (t1 & Ht1 & Ht).
  apply take_ports_cons in Ht as (t2 & Ht2 & Ht). apply take_ports_cons in Ht as (? & Ht3 & [= ->]).
  apply tr_ok in Hp as ([] & Ho%throw_if_ok & Hp). rewrite (overlaps_alongside _ p) in Ho by done.
  apply tr_ok in Hp as (ip & Hadr%node_address_ok & [= <-]); [|done].
  rewrite L2 in Hc. rewrite L3 in Ht1. pose proof (proj1 (proj1 (check_id_ok _ _ _) Hc)) as Hs.
  eexists. split.
  - unfold add_entry. rewrite Hk. cbn [tr_bind]. rewrite Hi. cbn [tr_bind]. rewrite Hc. cbn [tr_bind].
    rewrite Hsp, Hrt, Hus, Hue, Hpp. cbn [tr_bind]. rewrite Hse. cbn [throw_if tr_bind]. rewrite Ht1. cbn [tr_bind].
    rewrite Ht2. cbn [tr_bind]. rewrite Ht3. cbn [tr_bind]. rewrite Hadr. cbn [tr_bind]. rewrite Ho.
    cbn [throw_if tr_bind]. rewrite (safe_id_url _ _ Hs). cbn [tr_bind]. reflexivity.
  - unfold alongside. cbn. rewrite !fmap_app, L1, L2, L4. done.
Qed.

Lemma parse_node_backward endpoints production l p value p' :
  read_alike value -> alongside l p -> add_entry endpoints production p value = Ok p' ->
  exists l', parse_node production l value = Ok l' /\ alongside l' p'.
Proof.
  intros Hr Hl. unfold add_entry. destruct value as [| | | | | | |node]; try done. intros Hp.
  destruct (Hr node eq_refl) as [Hnum Hip]. pose proof Hl as (L1 & L2 & L3 & L4).
  apply tr_ok in Hp as ([] & Hk & Hp). apply tr_ok in Hp as (i & Hi & Hp). apply tr_ok in Hp as ([] & Hc & Hp).
  apply tr_ok in Hp as (sp & Hsp & Hp). apply tr_ok in Hp as (rt & Hrt & Hp). apply tr_ok in Hp as (us & Hus & Hp).
  apply tr_ok in Hp as (ue & Hue & Hp). apply tr_ok in Hp as (pp & Hpp & Hp).
  apply tr_ok in Hp as ([] & Hse%throw_if_ok & Hp). apply tr_ok in Hp as (t1 & Ht1 & Hp).
  apply tr_ok in Hp as (t2 & Ht2 & Hp). apply tr_ok in Hp as (t3 & Ht3 & Hp). apply tr_ok in Hp as (ip & Hadr & Hp).
  apply tr_ok in Hp as ([] & Ho%throw_if_ok & Hp). rewrite <- (overlaps_alongside l) in Ho by done.
  apply tr_ok in Hp as (url & _ & [= <-]). rewrite <- L2 in Hc. rewrite <- L3 in Ht1.
  assert (take_ports [sp; rt; pp] (l_tcp_ports l) = Ok t3) as Ht.
  { apply take_ports_cons. exists t1. split; [done|]. apply take_ports_cons. exists t2. split; [done|].
    apply take_ports_cons. by exists t3. }
  eexists. split.
  - unfold parse_node. rewrite (proj2 (known_fields_ok _ _) Hk). cbn [tr_bind].
    rewrite (proj2 (node_id_ok _ _ _) (conj Hi Hc)). cbn [tr_bind].
    rewrite (proj2 (node_port_ok _ _ _ (Hnum _)) Hsp), (proj2 (node_port_ok _ _ _ (Hnum _)) Hrt),
      (proj2 (node_port_ok _ _ _ (Hnum _)) Hus), (proj2 (node_port_ok _ _ _ (Hnum _)) Hue),
      (proj2 (node_port_ok _ _ _ (Hnum _)) Hpp).
    cbn [tr_bind]. rewrite Hse. cbn [fail_if throw_if tr_bind]. rewrite Ht. cbn [tr_bind]. rewrite Ho.
    cbn [fail_if throw_if tr_bind]. rewrite (proj2 (node_address_ok _ _ _ Hip) Hadr). cbn [tr_bind]. reflexivity.
  - unfold alongside. cbn. rewrite !fmap_app, L1, L2, L4. done.
Qed.

Lemma parse_each_alongside endpoints production document : forall l p,
  Forall read_alike document -> alongside l p ->
  (forall l', parse_each production l document = Ok l' ->
     exists p', add_entries endpoints production p document = Ok p' /\ alongside l' p') /\
  (forall p', add_entries endpoints production p document = Ok p' ->
     exists l', parse_each production l document = Ok l' /\ alongside l' p').
Proof.
  induction document as [|value rest IH]; intros l p Hr Hl; cbn [parse_each add_entries].
  - split; intros ? [= <-]; eauto.
  - apply Forall_cons_1 in Hr as [Hv Hr]. split.
    + intros l' (l1 & Hf & Hg)%tr_ok. destruct (parse_node_forward endpoints _ _ _ _ _ Hv Hl Hf) as (p1 & E1 & Hl1).
      rewrite E1. cbn [tr_bind]. exact (proj1 (IH l1 p1 Hr Hl1) l' Hg).
    + intros p' (p1 & Hf & Hg)%tr_ok. destruct (parse_node_backward _ _ _ _ _ _ Hv Hl Hf) as (l1 & E1 & Hl1).
      rewrite E1. cbn [tr_bind]. exact (proj2 (IH l1 p1 Hr Hl1) p' Hg).
Qed.

(** The two parsers give the same document, with numbers of at most 64 bits
    and addresses both sides judge alike. *)
Definition libraries_agree (raw : string) : Prop :=
  (forall j, json_loads raw = Ok j <-> json_parse raw = Some j) /\
  (forall document, json_parse raw = Some (JArray document) -> Forall read_alike document).

Lemma parse_nodes_agree raw endpoints production ps :
  libraries_agree raw ->
  parse_nodes raw production = Ok ps <->
  exists ns, from_json raw endpoints production = Ok ns /\ ps = as_dict <$> ns.
Proof.
  intros [Hdoc Hread]. unfold parse_nodes, from_json.
  destruct (json_parse raw) as [j|] eqn:Ej.
  2: { destruct (json_loads raw) as [j|] eqn:El; [by discriminate (proj1 (Hdoc j) eq_refl)|]. split; [done|by intros (? & ? & _)]. }
  rewrite (proj2 (Hdoc j) eq_refl).
  destruct j as [| | | | | |[|value rest]|]; try (split; [done|by intros (? & ? & _)]).
  destruct (parse_each_alongside endpoints production (value :: rest) (mkLoop [] ∅ ∅ []) (mkProgress [] ∅ ∅))
    as [Hf Hb]; [by apply Hread|done|]. split.
  - intros (l & Hl & [= <-])%tr_ok. destruct (Hf l Hl) as (p & Hp & (E & _)). exists (nodes p). split; [|done].
    apply tr_ok. by exists p.
  - intros (ns & (p & Hp & [= <-])%tr_ok & ->). destruct (Hb p Hp) as (l & Hl & (E & _)). apply tr_ok. exists l.
    by rewrite <- E.
Qed.

(** The proxy's file, for the servers and targets the server's configuration
    lists. *)
Definition routes_for (ns : list LivekitNodeConfig) : string :=
  String.concat (newline ++ newline)
    (map (fun n => metrics_block (id n) (metrics_target n)) ns ++
     [gateway_block (String.concat " " (map caddy_target ns))]) ++ newline.

Lemma routes_agree endpoints production document ns :
  Forall2 (describes endpoints production) document ns -> render_caddy_routes (as_dict <$> ns) = routes_for ns.
Proof.
  intros Hd. unfold render_caddy_routes, routes_for.
  assert (map (fun n => metrics_block (n_id n) (n_id n ++ ":" ++ std_to_string (n_prometheus_port n))) (as_dict <$> ns) =
          map (fun n => metrics_block (id n) (metrics_target n)) ns /\
          map (fun n => n_id n ++ ":" ++ std_to_string (n_signal_port n)) (as_dict <$> ns) = map caddy_target ns)
    as [-> ->]; [|done].
  induction Hd as [|v n vs ns Hn _ [IH1 IH2]]; [done|]. csimpl. rewrite IH1, IH2. destruct Hn as [_ _ _ _ _ -> ->]. done.
Qed.

(** The path of a node's metrics route, [handle_path /admin-livekit-metrics/id*]. *)
Definition metrics_route (n : LivekitNodeConfig) (path : string) : bool :=
  String.prefix ("/admin-livekit-metrics/" ++ id n) path.

Lemma prefix_chain a : forall b s,
  String.prefix a s = true -> String.prefix b s = true -> String.prefix a b = true \/ String.prefix b a = true.
Proof.
  induction a as [|c a IH]; intros b s; [by left; destruct b|]. destruct b as [|d b]; [by right|].
  destruct s as [|e s]; [done|]. cbn. destruct (ascii_dec c e) as [->|], (ascii_dec d e) as [->|]; try done.
  intros Ha Hb. destruct (ascii_dec e e); [|done]. by apply (IH b s).
Qed.

Lemma prefix_app p a b : String.prefix (p ++ a) (p ++ b) = String.prefix a b.
Proof.
  induction p as [|c p IH]; [done|]. change (String.prefix (String c (p ++ a)) (String c (p ++ b)) = String.prefix a b).
  cbn [String.prefix]. by destruct (ascii_dec c c).
Qed.

Lemma routes_distinct ns i j a b path :
  cluster_ok ns -> ns !! i = Some a -> ns !! j = Some b ->
  metrics_route a path = true -> metrics_route b path = true -> i = j.
Proof.
  intros (_ & _ & Hap) Ha Hb Hpa Hpb. destruct (decide (i = j)) as [|Hne]; [done|].
  destruct (Hap i j a b Ha Hb Hne) as (Hab & Hba & _).
  destruct (prefix_chain _ _ _ Hpa Hpb) as [E|E]; rewrite prefix_app in E; congruence.
Qed.

(** C32: the deployment script and the server read [LIVEKIT_NODES] alike.
    With libraries that agree on its text, the script accepts it exactly when
    the server does, with the same nodes in the same order; the proxy's file
    then sends clients and metrics to exactly the targets of the server's
    configuration; and no request path belongs to the metrics routes of two
    nodes. *)
Theorem script_agrees_with_server (raw : string) (endpoints : PublicEndpointConfig.t) (production : bool)
    (Hlib : libraries_agree raw) :
  (forall ps, parse_nodes raw production = Ok ps <->
     exists ns, from_json raw endpoints production = Ok ns /\ ps = as_dict <$> ns) /\
  (forall ns, from_json raw endpoints production = Ok ns ->
     render_caddy_routes (as_dict <$> ns) = routes_for ns /\
     forall i j a b path, ns !! i = Some a -> ns !! j = Some b ->
       metrics_route a path = true -> metrics_route b path = true -> i = j).
Proof.
  split; [intros ps; by apply parse_nodes_agree|].
  intros ns (document & _ & _ & Hd & Hc)%from_json_ok. split; [by eapply routes_agree|].
  intros i j a b path. by apply routes_distinct.
Qed.

End Agreement.

Module ScriptDemo.

#[local] Instance demo_python : Python := {
  json_loads := fun s => match json_parse (JsonLib := Demo.demo_json) s with Some j => Ok j | None => Unexpected "" end;
  ip_address := fun _ => false
}.

Lemma demo_agrees : libraries_agree (H := Demo.demo_json) (H0 := Demo.demo_inet) "two".
Proof.
  split.
  - intros j. cbn. split; [by intros [= <-]|]. by intros [= <-].
  - intros document [= <-]. constructor; [|constructor; [|constructor]]; intros node [= <-]; split.
    1, 3: intros key n Hn; repeat (apply lookup_insert_Some in Hn as [[_ Hn]|[_ Hn]]; [by simplify_eq|]);
      by rewrite lookup_empty in Hn.
    all: intros ip Hip; by vm_compute in Hip.
Qed.

End ScriptDemo.

Lemma script_agrees_with_server_witness :
  exists ps, parse_nodes (H := ScriptDemo.demo_python) "two" false = Ok ps /\ length ps = 2 /\
    render_caddy_routes ps = routes_for Demo.two_nodes.
Proof.
  exists (as_dict <$> Demo.two_nodes).
  destruct (script_agrees_with_server (H := Demo.demo_json) (H0 := Demo.demo_inet) (H1 := ScriptDemo.demo_python) "two"
              Demo.endpoints false ScriptDemo.demo_agrees) as [Hp Hr].
  split; [|split; [done|]].
  - apply Hp. exists Demo.two_nodes. split; [exact Demo.two_accepted|done].
  - exact (proj1 (Hr _ Demo.two_accepted)).
Defined.

End LivekitRuntime.
End ClusterConfig.
