(* ===== verification/ServerConfig.v ===== *)
(** * The server's configuration

    [core/ServerConfig.h], [utils/PathResolver.h] and the first half of [main]:
    the options with their defaults, how the environment fills them, the
    database connection string, and where a relative path is looked for; and
    the intervals of [VoiceReconciler].  The process environment and the files that exist are parameters. *)

From S2P Require Import Prelude.
From S2P Require Import CStrings.
From S2P Require Import External.
From S2P Require Import Endpoints.
From S2P Require Import OriginPolicy.
From S2P Require Import EnvConfig.
From S2P Require Import ClusterConfig.
From Stdlib Require Import Ascii.

Local Open Scope string_scope.

(** ** Files *)

(** The file system: what exists, and the working directory. *)
Class Files := {
  file_exists : string -> bool;
  current_path : string;
  current_path_absolute : front current_path = Some "/"%char;
  exists_relative : forall p, p <> "" -> front p <> Some "/"%char -> file_exists p = true ->
    file_exists (if bool_decide (back current_path = Some "/"%char) then current_path ++ p
                 else current_path ++ "/" ++ p) = true
}.

Module Paths.
Section Paths.
Context `{Files}.

Definition is_absolute (p : string) : bool := bool_decide (front p = Some "/"%char).

(** [base / p] of [std::filesystem::path]. *)
Definition join (base p : string) : string :=
  if is_absolute p then p
  else if bool_decide (base = "") || bool_decide (back base = Some "/"%char) then base ++ p
  else base ++ "/" ++ p.

(** [std::filesystem::absolute]; an empty path is an error. *)
Definition absolute (p : string) : expected string string :=
  if bool_decide (p = "") then Unexpected "filesystem error: cannot make absolute path: Invalid argument"
  else Ok (join current_path p).

Definition push_unique (candidates : list string) (c : string) : list string :=
  if bool_decide (c = "") then candidates
  else if bool_decide (c ∈ candidates) then candidates
  else (candidates ++ [c])%list.

(** A variable that is set to something. *)
Definition nonempty (v : option string) : option string :=
  match v with Some "" | None => None | Some s => Some s end.

(** The places a relative path is looked for, in order, but for the last. *)
Definition candidates (getenv : Env) (requested : string) : list string :=
  let cs := [requested] in
  let cs :=
    match nonempty (getenv "BUILD_WORKSPACE_DIRECTORY") with
    | Some workspace_dir => push_unique cs (join workspace_dir requested)
    | None => cs
    end in
  let cs :=
    match nonempty (getenv "RUNFILES_DIR") with
    | Some base => push_unique (push_unique cs (join base requested)) (join (join base "_main") requested)
    | None => cs
    end in
  match nonempty (getenv "TEST_SRCDIR") with
  | Some base =>
    let cs :=
      match nonempty (getenv "TEST_WORKSPACE") with
      | Some test_workspace => push_unique cs (join (join base test_workspace) requested)
      | None => cs
      end in
    push_unique cs (join (join base "_main") requested)
  | None => cs
  end.

Definition resolve_path (getenv : Env) (requested : string) : expected string string :=
  if is_absolute requested then
    if file_exists requested then Ok requested else Unexpected ("File not found: " ++ requested)
  else
    (last <-- absolute requested;
     let cs := push_unique (candidates getenv requested) last in
     match List.find file_exists cs with
     | Some candidate => absolute candidate
     | None => Unexpected ("File not found: " ++ requested ++ " (checked: " ++ String.concat ", " cs ++ ")")
     end)%throws.

(** ** What is resolved *)

Lemma push_unique_mono cs c x : x ∈ cs -> x ∈ push_unique cs c.
Proof.
  intros Hx. unfold push_unique. destruct (bool_decide (c = "")); [done|].
  destruct (bool_decide (c ∈ cs)); [done|]. apply elem_of_app. by left.
Qed.

Lemma candidates_first getenv p : p ∈ candidates getenv p.
Proof.
  unfold candidates.
  destruct (nonempty (getenv "BUILD_WORKSPACE_DIRECTORY")), (nonempty (getenv "RUNFILES_DIR")),
    (nonempty (getenv "TEST_SRCDIR")), (nonempty (getenv "TEST_WORKSPACE"));
    repeat apply push_unique_mono; left.
Qed.

Lemma push_unique_elem cs c x : x ∈ push_unique cs c -> x ∈ cs \/ x = c /\ c <> "".
Proof.
  unfold push_unique. destruct (bool_decide (c = "")) eqn:E; [by left|].
  apply bool_decide_eq_false_1 in E. destruct (bool_decide (c ∈ cs)); [by left|].
  rewrite elem_of_app, list_elem_of_singleton. intros [?| ->]; auto.
Qed.

Lemma push_unique_nonempty cs c : "" ∉ cs -> "" ∉ push_unique cs c.
Proof. intros Hcs [?|[-> ?]]%push_unique_elem; done. Qed.

Lemma candidates_nonempty getenv p : p <> "" -> "" ∉ candidates getenv p.
Proof.
  intros Hp. unfold candidates.
  assert ("" ∉ [p]) by (rewrite list_elem_of_singleton; congruence).
  destruct (nonempty (getenv "BUILD_WORKSPACE_DIRECTORY")), (nonempty (getenv "RUNFILES_DIR")),
    (nonempty (getenv "TEST_SRCDIR")), (nonempty (getenv "TEST_WORKSPACE"));
    repeat apply push_unique_nonempty; done.
Qed.

Lemma front_app a b : a <> "" -> front (a ++ b) = front a.
Proof. by destruct a. Qed.

Lemma absolute_ok p r : absolute p = Ok r -> is_absolute r = true /\ (file_exists p = true -> file_exists r = true).
Proof.
  unfold absolute. destruct (bool_decide (p = "")) eqn:E; [done|]. apply bool_decide_eq_false_1 in E.
  intros [= <-]. unfold join, is_absolute.
  destruct (bool_decide (front p = Some "/"%char)) eqn:Ea; [done|].
  apply bool_decide_eq_false_1 in Ea. pose proof current_path_absolute as Hc.
  assert (current_path <> "") as Hne by (intros Hx; by rewrite Hx in Hc).
  rewrite (bool_decide_eq_false_2 (current_path = "")) by done. cbn [orb]. split.
  - destruct (bool_decide (back _ = _)); rewrite front_app by done; by apply bool_decide_eq_true_2.
  - apply (exists_relative p E Ea).
Qed.

(** A resolved path is absolute and exists; a path fails to resolve only if
    none of the places it is looked for has it. *)
Lemma resolve_path_exists getenv p r :
  resolve_path getenv p = Ok r -> is_absolute r = true /\ file_exists r = true.
Proof.
  unfold resolve_path. destruct (is_absolute p) eqn:Ea.
  { destruct (file_exists p) eqn:E; [|done]. by intros [= <-]. }
  intros (last & _ & H1)%tr_ok. destruct (List.find _ _) as [c|] eqn:Ef; [|done].
  apply find_some in Ef as [_ Hc]. destruct (absolute_ok _ _ H1) as [H2 H3]. auto.
Qed.

Lemma resolve_path_found getenv p :
  p <> "" -> file_exists p = true -> is_Some (match resolve_path getenv p with Ok r => Some r | _ => None end).
Proof.
  intros Hp Hf. unfold resolve_path. rewrite Hf. destruct (is_absolute p); [by eexists|].
  unfold absolute at 1. rewrite bool_decide_eq_false_2 by done. cbn [tr_bind].
  destruct (List.find _ _) as [c|] eqn:Ef.
  - apply find_some in Ef as [Hc%list_elem_of_In _]. unfold absolute.
    rewrite bool_decide_eq_false_2; [by eexists|]. intros ->.
    by apply (push_unique_nonempty _ (join current_path p) (candidates_nonempty getenv p Hp)).
  - exfalso. assert (p ∈ push_unique (candidates getenv p) (join current_path p)) as Hin.
    { apply push_unique_mono, candidates_first. }
    by rewrite (find_none _ _ Ef p (proj1 (list_elem_of_In _ _) Hin)) in Hf.
Qed.

End Paths.
End Paths.

(** ** Options *)

Module ServerConfig.

Record DataBaseConfig := mkDatabase {
  url : string; engine : string; user : string; password : string; db_host : string; db_port : Z;
  db_name : string; ssl : bool; pool_size : Z; read_pool_size : Z; write_pool_size : Z
}.

Record NetworkStackConfig := mkNetwork {
  host : string; port : Z; ws_path : string; net_stack_name : string; port_index : nat;
  ws_origin_policy_path : string; public_origin : string; max_connections : Z; max_message_size : Z;
  socket_threads : nat; outbound_queue_capacity : Z
}.
Definition default_network : NetworkStackConfig :=
  mkNetwork "0.0.0.0" 9001 "/*" "default_netstack" 0 "config/ws_origin_policy.yaml" "" 255 (256 * 1024) 2 50000.

Record AppStackConfig := mkApp {
  app_stack_name : string; environment : string; log_level : string; worker_threads : Z;
  max_sessions_per_user : Z; event_queue_capacity : Z; db_write_queue_capacity : Z;
  db_write_max_retries : Z; db_write_retry_ms : Z
}.
Definition default_app : AppStackConfig :=
  mkApp "default_appstack" "development" "info" 3 0 30000 10000 3 25.

Record Address := mkAddress { addr_host : string; addr_port : Z }.
Definition default_control : Address := mkAddress "127.0.0.1" 8081.
Definition default_redis : Address := mkAddress "localhost" 6379.

(** The database options have no initial value before they are filled, except
    the ones with an initialiser; [main] reads them after. *)
Definition default_database : DataBaseConfig := mkDatabase "" "" "" "" "" 0 "" false 1 0 0.

Record t := mk {
  public_endpoints : PublicEndpointConfig.t;
  livekit_cluster : list ClusterConfig.LivekitNodeConfig;
  network : NetworkStackConfig;
  database : DataBaseConfig;
  app_stack : AppStackConfig;
  control : Address;
  redis : Address;
  socket_ports : list Z
}.

Section Config.
Context `{JsonLib, InetPton, Files}.
Variable getenv : Env.

(** The constructor. *)
Definition create (e : EnvLoader.t) (endpoints : PublicEndpointConfig.t) : expected t string :=
  (cluster <-- ClusterConfig.from_env getenv e endpoints;
   let n := default_network in
   Ok (mk endpoints cluster
         (mkNetwork (host n) (port n) (ws_path n) (net_stack_name n) (port_index n) (ws_origin_policy_path n)
            (PublicEndpointConfig.app_origin endpoints) (max_connections n) (max_message_size n)
            (socket_threads n) (outbound_queue_capacity n))
         default_database default_app default_control default_redis []))%throws.

(** [static_cast<uint16_t>(std::stoi(port_str))] over the list. *)
Fixpoint parse_ports (ports : list string) : expected (list Z) string :=
  match ports with
  | [] => Ok []
  | p :: ps =>
    match stoi p with
    | None => Unexpected "stoi"
    | Some v => (vs <-- parse_ports ps; Ok (wrap16 v :: vs))%throws
    end
  end.

(** The listening ports: a list, or the one port. *)
Definition fill_ports (e : EnvLoader.t) (cfg : t) : expected (list Z * Z) string :=
  match EnvLoader.get_env_list getenv e "SOCKET_PORT" [] with
  | [] => (p <-- EnvLoader.get_u16 getenv e "SOCKET_PORT" (port (network cfg)); Ok (socket_ports cfg, p))%throws
  | ports => (ps <-- parse_ports ports; Ok (ps, port (network cfg)))%throws
  end.

Definition fill_network (e : EnvLoader.t) (cfg : t) : expected (NetworkStackConfig * list Z) string :=
  let n := network cfg in
  (ports <-- fill_ports e cfg;
   connections <-- EnvLoader.get_size getenv e "MAX_CONNECTIONS" (max_connections n);
   message_size <-- EnvLoader.get_size getenv e "MAX_MESSAGE_SIZE" (max_message_size n);
   capacity <-- EnvLoader.get_size getenv e "OUTBOUND_QUEUE_CAPACITY" (outbound_queue_capacity n);
   Ok (mkNetwork (EnvLoader.get_env getenv e "LISTEN_HOST" (host n)) ports.2
         (EnvLoader.get_env getenv e "SOCKET_PATTERN" (ws_path n)) (net_stack_name n) (port_index n)
         (EnvLoader.get_env getenv e "WS_ORIGIN_POLICY_PATH" (ws_origin_policy_path n)) (public_origin n)
         (Z.max 1 connections) (Z.max 1 message_size) (socket_threads n) capacity, ports.1))%throws.

Definition fill_database (e : EnvLoader.t) (cfg : t) : expected DataBaseConfig string :=
  (dbport <-- EnvLoader.get_u16 getenv e "DB_PORT" 5432;
   dbssl <-- EnvLoader.get_bool getenv e "DB_SSL" (ssl (database cfg));
   pool <-- EnvLoader.get_size getenv e "DB_POOL_SIZE" 3;
   read_pool <-- EnvLoader.get_size getenv e "DB_READ_POOL_SIZE" pool;
   write_pool <-- EnvLoader.get_size getenv e "DB_WRITE_POOL_SIZE" pool;
   Ok (mkDatabase (url (database cfg)) (EnvLoader.get_env getenv e "DB_ENGINE" "postgresql")
         (EnvLoader.get_env getenv e "DB_USER" "postgres") (EnvLoader.get_env getenv e "DB_PASSWORD" "password")
         (EnvLoader.get_env getenv e "DB_HOST" "localhost") dbport
         (EnvLoader.get_env getenv e "DB_NAME" "postgres") dbssl pool read_pool write_pool))%throws.

Definition fill_app (e : EnvLoader.t) (cfg : t) : expected AppStackConfig string :=
  let a := app_stack cfg in
  (workers <-- EnvLoader.get_size getenv e "WORKER_THREADS" (worker_threads a);
   sessions <-- EnvLoader.get_size getenv e "MAX_SESSIONS_PER_USER" (max_sessions_per_user a);
   events <-- EnvLoader.get_size getenv e "EVENT_QUEUE_CAPACITY" (event_queue_capacity a);
   writes <-- EnvLoader.get_size getenv e "DB_WRITE_QUEUE_CAPACITY" (db_write_queue_capacity a);
   retries <-- EnvLoader.get_size getenv e "DB_WRITE_MAX_RETRIES" (db_write_max_retries a);
   retry_ms <-- EnvLoader.get_size getenv e "DB_WRITE_RETRY_MS" (db_write_retry_ms a);
   Ok (mkApp (app_stack_name a) (environment a) (log_level a) workers sessions events writes retries retry_ms))%throws.

Definition fill_address (e : EnvLoader.t) (host_key port_key : string) (a : Address) : expected Address string :=
  (p <-- EnvLoader.get_u16 getenv e port_key (addr_port a);
   Ok (mkAddress (EnvLoader.get_env getenv e host_key (addr_host a)) p))%throws.

Definition fill_from_env (e : EnvLoader.t) (cfg : t) : expected t string :=
  (net <-- fill_network e cfg;
   db <-- fill_database e cfg;
   app <-- fill_app e cfg;
   ctl <-- fill_address e "CONTROL_HOST" "CONTROL_PORT" (control cfg);
   red <-- fill_address e "REDIS_HOST" "REDIS_PORT" (redis cfg);
   Ok (mk (public_endpoints cfg) (livekit_cluster cfg) net.1 db app ctl red net.2))%throws.

(** [main] up to the construction of the server; [file]: the [.env] file. *)
Definition configure (file : option string) : expected t string :=
  let e := (EnvLoader.load_env_file file EnvLoader.create).2 in
  (endpoints <-- PublicEndpointConfig.from_env (EnvLoader.lookup_env getenv e);
   cfg <-- create e endpoints;
   fill_from_env e cfg)%throws.

Definition to_connection_string (e : EnvLoader.t) (d : DataBaseConfig) : expected string string :=
  if negb (bool_decide (url d = "")) then Ok (url d)
  else if bool_decide (engine d = "postgres") || bool_decide (engine d = "postgresql") then
    let u := "host=" ++ db_host d ++ " port=" ++ std_to_string (db_port d) ++ " dbname=" ++ db_name d ++
             " user=" ++ user d ++ " password=" ++ password d in
    (mode <-- (if ssl d then
                 (cert <-- Paths.resolve_path getenv
                             (EnvLoader.get_env getenv e "DB_SSL_ROOT_CERT" "certs/database/root.crt");
                  Ok (" sslmode=verify-full sslrootcert=" ++ cert))
               else Ok " sslmode=disable");
     Ok (u ++ mode ++ " connect_timeout=5"))%throws
  else Unexpected ("Unsupported DB engine: " ++ engine d).

(** [Server::init_stacks]: one network stack per port, or [socket_threads] of
    them on the one port. *)
Definition set_port (n : NetworkStackConfig) (p : Z) (i : nat) : NetworkStackConfig :=
  mkNetwork (host n) p (ws_path n) (net_stack_name n) i (ws_origin_policy_path n) (public_origin n)
    (max_connections n) (max_message_size n) (socket_threads n) (outbound_queue_capacity n).
Definition stack_configs (cfg : t) : list NetworkStackConfig :=
  match socket_ports cfg with
  | [] => replicate (socket_threads (network cfg)) (network cfg)
  | ports => imap (fun i p => set_port (network cfg) p i) ports
  end.

(** ** What [main] accepts *)

Definition u16 (p : Z) : Prop := (0 <= p < two16)%Z.
Definition size_t (n : Z) : Prop := (0 <= n < two64)%Z.

Lemma read_digits_nonneg s : forall acc, (0 <= acc)%Z -> (0 <= read_digits acc s)%Z.
Proof.
  induction s as [|c s IH]; intros acc Hacc; simpl; [done|].
  destruct (digit c) as [d|] eqn:E; [|done]. apply IH. unfold digit in E.
  destruct (Z.leb_spec 48 (code c)), (Z.leb_spec (code c) 57); simplify_eq/=. lia.
Qed.

Lemma get_integral_range bound e key d v :
  EnvLoader.get_integral getenv bound e key d = Ok v -> (0 <= d < bound)%Z -> (0 <= v < bound)%Z.
Proof.
  unfold EnvLoader.get_integral. destruct (EnvLoader.lookup_env getenv e key) as [raw|]; [|by intros [= <-]].
  unfold EnvLoader.parse_integral, from_chars_below. destruct (starts_with_digit _); [|done].
  destruct (Z.ltb_spec (read_digits 0 (EnvLoader.trim raw)) bound); [|done].
  destruct (after_digits _); [|done]. intros [= <-] _. split; [by apply read_digits_nonneg|done].
Qed.

Lemma get_u16_range e key d v : EnvLoader.get_u16 getenv e key d = Ok v -> u16 d -> u16 v.
Proof. apply get_integral_range. Qed.
Lemma get_size_range e key d v : EnvLoader.get_size getenv e key d = Ok v -> size_t d -> size_t v.
Proof. apply get_integral_range. Qed.

Lemma parse_ports_range ps : forall vs, parse_ports ps = Ok vs -> length vs = length ps /\ Forall u16 vs.
Proof.
  induction ps as [|p ps IH]; intros vs; cbn [parse_ports]; [by intros [= <-]|].
  destruct (stoi p) as [v|]; [|done]. intros (vs' & Hvs & [= <-])%tr_ok. destruct (IH _ Hvs) as [H3 H4].
  split; [simpl; lia|]. constructor; [|done]. unfold u16, wrap16. apply Z.mod_pos_bound. done.
Qed.

Definition network_ok (origin : string) (n : NetworkStackConfig) : Prop :=
  u16 (port n) /\ public_origin n = origin /\ (1 <= max_connections n < two64)%Z /\
  (1 <= max_message_size n < two64)%Z /\ size_t (outbound_queue_capacity n) /\ socket_threads n = 2.

Definition database_ok (d : DataBaseConfig) : Prop :=
  url d = "" /\ u16 (db_port d) /\ size_t (pool_size d) /\ size_t (read_pool_size d) /\ size_t (write_pool_size d).

Definition app_ok (a : AppStackConfig) : Prop :=
  size_t (worker_threads a) /\ size_t (max_sessions_per_user a) /\ size_t (event_queue_capacity a) /\
  size_t (db_write_queue_capacity a) /\ size_t (db_write_max_retries a) /\ size_t (db_write_retry_ms a).

(** A configuration whose every number is in range and whose origins and
    cluster keep their rules. *)
Record config_ok (cfg : t) : Prop := mk_config_ok {
  co_app : PublicEndpointConfig.validate_origin "WEB_DOMAIN"
             (PublicEndpointConfig.app_origin (public_endpoints cfg)) = Ok tt;
  co_supabase : PublicEndpointConfig.validate_origin "NUXT_PUBLIC_SUPABASE_URL"
             (PublicEndpointConfig.supabase_origin (public_endpoints cfg)) = Ok tt;
  co_cluster : livekit_cluster cfg <> [] /\ ClusterConfig.cluster_ok (livekit_cluster cfg);
  co_network : network_ok (PublicEndpointConfig.app_origin (public_endpoints cfg)) (network cfg);
  co_database : database_ok (database cfg);
  co_app_stack : app_ok (app_stack cfg);
  co_control : u16 (addr_port (control cfg));
  co_redis : u16 (addr_port (redis cfg));
  co_ports : Forall u16 (socket_ports cfg)
}.

Lemma from_origins_ok a s c :
  PublicEndpointConfig.from_origins a s = Ok c ->
  PublicEndpointConfig.validate_origin "WEB_DOMAIN" (PublicEndpointConfig.app_origin c) = Ok tt /\
  PublicEndpointConfig.validate_origin "NUXT_PUBLIC_SUPABASE_URL" (PublicEndpointConfig.supabase_origin c) = Ok tt.
Proof.
  unfold PublicEndpointConfig.from_origins.
  destruct (PublicEndpointConfig.validate_origin "WEB_DOMAIN" a) as [[]|] eqn:E1; [|done].
  destruct (PublicEndpointConfig.validate_origin "NUXT_PUBLIC_SUPABASE_URL" s) as [[]|] eqn:E2; [|done].
  by intros [= <-].
Qed.

Lemma fill_ports_ok e cfg r :
  fill_ports e cfg = Ok r -> u16 (port (network cfg)) -> Forall u16 (socket_ports cfg) -> Forall u16 r.1 /\ u16 r.2.
Proof.
  unfold fill_ports. destruct (EnvLoader.get_env_list _ _ _ _) as [|p ps]; intros (x & Hx & [= <-])%tr_ok Hp Hs.
  - split; [done|]. by eapply get_u16_range.
  - split; [|done]. by apply parse_ports_range in Hx as [_ Hx].
Qed.

Lemma fill_network_ok origin e cfg r :
  fill_network e cfg = Ok r -> network_ok origin (network cfg) -> Forall u16 (socket_ports cfg) ->
  network_ok origin r.1 /\ Forall u16 r.2.
Proof.
  unfold fill_network. intros H2 (Hp & Ho & Hc & Hm & Hq & Ht) Hs.
  apply tr_ok in H2 as (ports & Hports & H2). apply tr_ok in H2 as (c & Hcs & H2).
  apply tr_ok in H2 as (m & Hms & H2). apply tr_ok in H2 as (q & Hqs & [= <-]).
  destruct (fill_ports_ok _ _ _ Hports Hp Hs) as [H3 H4].
  apply get_size_range in Hcs as [? ?]; [|unfold size_t; lia].
  apply get_size_range in Hms as [? ?]; [|unfold size_t; lia]. apply get_size_range in Hqs; [|done].
  split; [|done]. unfold network_ok. cbn. split_and!; try done; lia.
Qed.

Lemma fill_database_ok e cfg d : fill_database e cfg = Ok d -> url (database cfg) = "" -> database_ok d.
Proof.
  unfold fill_database. intros H2 Hu. apply tr_ok in H2 as (p & Hp & H2). apply tr_ok in H2 as (s & _ & H2).
  apply tr_ok in H2 as (n & Hn & H2). apply tr_ok in H2 as (r & Hr & H2). apply tr_ok in H2 as (w & Hw & [= <-]).
  apply get_u16_range in Hp; [|done]. apply get_size_range in Hn; [|done].
  apply get_size_range in Hr; [|done]. apply get_size_range in Hw; [|done]. by split_and!.
Qed.

Lemma fill_app_ok e cfg a : fill_app e cfg = Ok a -> app_ok (app_stack cfg) -> app_ok a.
Proof.
  unfold fill_app. intros Hf (? & ? & ? & ? & ? & ?). apply tr_ok in Hf as (x1 & E1 & Hf).
  apply tr_ok in Hf as (x2 & E2 & Hf). apply tr_ok in Hf as (x3 & E3 & Hf). apply tr_ok in Hf as (x4 & E4 & Hf).
  apply tr_ok in Hf as (x5 & E5 & Hf). apply tr_ok in Hf as (x6 & E6 & [= <-]).
  unfold app_ok. cbn. split_and!; by eapply get_size_range.
Qed.

Lemma fill_address_ok e hk pk a r : fill_address e hk pk a = Ok r -> u16 (addr_port a) -> u16 (addr_port r).
Proof. intros (p & Hp & [= <-])%tr_ok Ha. exact (get_u16_range _ _ _ _ Hp Ha). Qed.

Lemma config_create_ok e endpoints cfg :
  PublicEndpointConfig.from_env (EnvLoader.lookup_env getenv e) = Ok endpoints ->
  create e endpoints = Ok cfg -> config_ok cfg.
Proof.
  intros He (c & Hc & [= <-])%tr_ok. unfold PublicEndpointConfig.from_env in He.
  destruct (List.find _ _); [done|]. apply from_origins_ok in He as [Ha Hs].
  unfold ClusterConfig.from_env in Hc. destruct (List.find _ _); [done|].
  apply tr_ok in Hc as (prod & _ & Hc). apply ClusterConfig.from_json_ok in Hc as (doc & _ & Hne & Hd & Hok).
  split; try done.
  split; [|done]. cbn. intros ->. by apply Forall2_nil_inv_r in Hd.
Qed.

(** C33: every configuration [main] accepts is usable.  Both origins are
    canonical, the cluster is not empty and keeps its rules, every port fits
    16 bits, every size fits its type, connections and message sizes are at
    least 1, and the server starts at least one network stack, each of them
    with the configured origin as the only allowed one. *)
Theorem accepted_configuration_sound (file : option string) (cfg : t)
    (Hcfg : configure file = Ok cfg) :
  config_ok cfg /\ stack_configs cfg <> [] /\
  Forall (network_ok (PublicEndpointConfig.app_origin (public_endpoints cfg))) (stack_configs cfg).
Proof.
  unfold configure in Hcfg. apply tr_ok in Hcfg as (ep & Hep & Hcfg). apply tr_ok in Hcfg as (c0 & Hc0 & Hcfg).
  destruct (config_create_ok _ _ _ Hep Hc0) as [K1 K2 K3 K4 K5 K6 K7 K8 K9].
  apply tr_ok in Hcfg as (net & Hnet & Hcfg). apply tr_ok in Hcfg as (db & Hdb & Hcfg).
  apply tr_ok in Hcfg as (app & Happ & Hcfg). apply tr_ok in Hcfg as (ctl & Hctl & Hcfg).
  apply tr_ok in Hcfg as (red & Hred & [= <-]).
  destruct (fill_network_ok _ _ _ _ Hnet K4 K9) as [Hn Hp].
  apply fill_database_ok in Hdb; [|apply K5]. apply fill_app_ok in Happ; [|done].
  apply fill_address_ok in Hctl, Hred; [|done..].
  split; [by split|]. unfold stack_configs. cbn [socket_ports network public_endpoints].
  destruct Hn as (N1 & N2 & N3 & N4 & N5 & N6). destruct net as [n [|p ps]]; cbn [fst snd] in *.
  - split; [by rewrite N6|]. apply Forall_replicate. exact (conj N1 (conj N2 (conj N3 (conj N4 (conj N5 N6))))).
  - split; [done|]. apply Forall_lookup. intros i x Hx. rewrite list_lookup_imap in Hx.
    apply fmap_Some in Hx as (q & Hq & ->). rewrite Forall_lookup in Hp.
    exact (conj (Hp i q Hq) (conj N2 (conj N3 (conj N4 (conj N5 N6))))).
Qed.

End Config.

(** ** A configuration *)

Module Demo.
#[local] Existing Instance ClusterConfig.Demo.demo_json.
#[local] Existing Instance ClusterConfig.Demo.demo_inet.

Definition process_env : Env := fun key =>
  if bool_decide (key = "WEB_DOMAIN") then Some "https://app.example"
  else if bool_decide (key = "NUXT_PUBLIC_SUPABASE_URL") then Some "https://db.example"
  else if bool_decide (key = "LIVEKIT_NODES") then Some "two" else None.

(** The [.env] file with one line [key="value"]. *)
Definition file (key value : string) : option string := Some (EnvLoader.file_text [(key, value)]).

Definition ports_of (key value : string) : expected (list Z * Z) string :=
  (cfg <-- configure process_env (file key value); Ok (socket_ports cfg, addr_port (control cfg)))%throws.

(** A listening port that does not fit 16 bits is wrapped, and text after it is
    dropped; the same text is refused for the control port. *)
Example socket_port_wrapped :
  ports_of "SOCKET_PORT" "74537" = Ok ([9001], 8081)%Z /\
  ports_of "SOCKET_PORT" "[9001, 9002tls]" = Ok ([9001; 9002], 8081)%Z /\
  ports_of "CONTROL_PORT" "74537" = Unexpected "Invalid integer value for env key 'CONTROL_PORT': 74537".
Proof. vm_compute. done. Qed.

(** A listening port that is set to nothing is refused rather than defaulted. *)
Example socket_port_empty :
  ports_of "SOCKET_PORT" "" = Unexpected "Invalid integer value for env key 'SOCKET_PORT': ".
Proof. vm_compute. done. Qed.

Definition accepted : t :=
  match configure process_env (file "SOCKET_PORT" "9001") with
  | Ok cfg => cfg
  | Unexpected _ => mk ClusterConfig.Demo.endpoints [] default_network default_database default_app
                      default_control default_redis []
  end.

Lemma accepted_ok : configure process_env (file "SOCKET_PORT" "9001") = Ok accepted.
Proof. vm_compute. reflexivity. Qed.

End Demo.

Lemma accepted_configuration_sound_witness :
  config_ok (H0 := ClusterConfig.Demo.demo_inet) Demo.accepted /\ stack_configs Demo.accepted <> [].
Proof.
  destruct (accepted_configuration_sound (H := ClusterConfig.Demo.demo_json) (H0 := ClusterConfig.Demo.demo_inet)
              Demo.process_env _ _ Demo.accepted_ok) as (K1 & K2 & _).
  exact (conj K1 K2).
Defined.

End ServerConfig.

(** ** The reconciler's intervals

    The constructor of [VoiceReconciler] (app/services/voice/VoiceReconciler.cpp). *)

Module ReconcilerConfig.

Definition kDefaultReconcileInterval : Z := 60.
Definition kDefaultLivekitMissingClearTtl : Z := 60.

Record intervals := mkIntervals { reconcile_interval_ : Z; livekit_missing_clear_ttl_ : Z }.

Definition VoiceReconciler (getenv : Env) (e : EnvLoader.t) : intervals :=
  mkIntervals (parse_positive_seconds (EnvLoader.get_env getenv e "LIVEKIT_RECONCILE_INTERVAL_SEC" "") kDefaultReconcileInterval)
     (parse_positive_seconds (EnvLoader.get_env getenv e "LIVEKIT_MISSING_CLEAR_SEC" "") kDefaultLivekitMissingClearTtl).

(** Whatever the variables hold, the loop waits and the evidence is kept for a
    positive time. *)
Lemma reconciler_intervals_positive getenv e :
  (0 < reconcile_interval_ (VoiceReconciler getenv e))%Z /\ (0 < livekit_missing_clear_ttl_ (VoiceReconciler getenv e))%Z.
Proof. split; by apply parse_positive_seconds_pos. Qed.

End ReconcilerConfig.
