(* ===== verification/Metrics.v ===== *)
(** * Metrics

    [utils/Metrics.{h,cpp}]: the process-wide counters, the snapshot of them,
    the ring of one snapshot per second, and the lock-free high-water marks.
    An atomic counter is an integer below [2^64]; each atomic operation is one
    step.  The clock is a parameter. *)

From S2P Require Import Prelude.
From S2P Require Import CStrings.
From S2P Require Import Ids.
From S2P Require Import Protocol.
From S2P Require Import Endpoints.
From S2P Require Import EnvConfig.

Local Open Scope string_scope.

Module Metrics.

(** ** Counters *)

(** The counters that are one number. *)
Inductive counter :=
  | inbound_msgs_total | outbound_msgs_total | event_queue_highwater | outbound_queue_highwater
  | dropped_inbound_total | dropped_outbound_total | dropped_outbound_overflow_low_pri
  | dropped_outbound_overflow_high_pri | parse_fail_total | auth_fail_total | membership_fail_total
  | outbound_backpressure_total | dropped_inbound_low_overflow | dropped_inbound_high_overflow
  | evicted_inbound_low_for_high | payload_parse_total | payload_parse_fail_total
  | parsed_payload_violation_total | registry_view_access_total | registry_miss_total
  | registry_copy_eliminated_total | fanout_subscriber_snapshot_total | fanout_payload_shared_total
  | per_conn_queue_enqueued_total | per_conn_queue_dropped_low_total | per_conn_queue_overflow_total
  | slow_connection_dropped_total | outbound_flush_total | outbound_flush_empty_total
  | outbound_flush_send_fail_total | outbound_update_auth_state_total | outbound_drop_connection_total
  | outbound_backpressured_total | reliable_sent_total | reliable_acked_total
  | reliable_retransmit_total | reliable_drop_connection_total | reliable_buffer_highwater
  | db_write_enqueued_total | db_write_dropped_total | db_write_retry_total | db_write_success_total
  | db_write_fail_total | active_connections | active_users | http_health_rtt_ms | client_rtt_sum_ms
  | client_rtt_count | client_rtt_max_ms | active_workers | total_workers | current_queue_depth
  | commands_processed_total | db_write_queue_depth | db_write_queue_highwater.

#[global] Instance counter_eq_dec : EqDecision counter.
Proof. solve_decision. Defined.

Definition kEnvelopeTypeSlots : nat := 128.
Definition kMaxPorts : nat := 16.

Record Counters := mkCounters {
  scalar : counter -> Z;
  inbound_msgs_by_type : list Z;
  outbound_msgs_by_type : list Z;
  connections_by_port : list Z;
  outbound_msgs_per_tick_buckets : list Z;
  cmd_exec_time_sum_us : list Z;
  cmd_exec_time_count : list Z;
  cmd_exec_time_max_us : list Z
}.

Definition zero : Counters :=
  mkCounters (fun _ => 0%Z) (replicate kEnvelopeTypeSlots 0%Z) (replicate kEnvelopeTypeSlots 0%Z)
    (replicate kMaxPorts 0%Z) (replicate 6 0%Z) (replicate kEnvelopeTypeSlots 0%Z)
    (replicate kEnvelopeTypeSlots 0%Z) (replicate kEnvelopeTypeSlots 0%Z).

(** [c.store(v)]; [fetch_add] and [fetch_sub] wrap. *)
Definition store (k : counter) (v : Z) (c : Counters) : Counters :=
  mkCounters (fun k' => if decide (k' = k) then v else scalar c k') (inbound_msgs_by_type c)
    (outbound_msgs_by_type c) (connections_by_port c) (outbound_msgs_per_tick_buckets c)
    (cmd_exec_time_sum_us c) (cmd_exec_time_count c) (cmd_exec_time_max_us c).
Definition fetch_add (k : counter) (n : Z) (c : Counters) : Counters :=
  store k (wrap64 (scalar c k + n)) c.
Definition fetch_sub (k : counter) (n : Z) (c : Counters) : Counters :=
  store k (wrap64 (scalar c k - n)) c.

(** The loop that raises a mark, run without interference; [Highwater] below
    runs it with. *)
Definition update_highwater (k : counter) (value : Z) (c : Counters) : Counters :=
  if (scalar c k <? value)%Z then store k value c else c.

Definition inc_type (arr : list Z) (type : nat) : list Z :=
  if (type <? kEnvelopeTypeSlots)%nat then alter (fun n => wrap64 (n + 1)) type arr else arr.

Definition tick_bucket (count : Z) : nat :=
  if (count =? 0)%Z then 0
  else if (count <=? 10)%Z then 1
  else if (count <=? 50)%Z then 2
  else if (count <=? 200)%Z then 3
  else if (count <=? 1000)%Z then 4
  else 5.

Definition observe_outbound_msgs_per_tick (count : Z) (c : Counters) : Counters :=
  mkCounters (scalar c) (inbound_msgs_by_type c) (outbound_msgs_by_type c) (connections_by_port c)
    (alter (fun n => wrap64 (n + 1)) (tick_bucket count) (outbound_msgs_per_tick_buckets c))
    (cmd_exec_time_sum_us c) (cmd_exec_time_count c) (cmd_exec_time_max_us c).

Definition observe_client_rtt (rtt_ms : Z) (c : Counters) : Counters :=
  update_highwater client_rtt_max_ms rtt_ms
    (fetch_add client_rtt_count 1 (fetch_add client_rtt_sum_ms rtt_ms c)).

Definition set_ports (ports : list Z) (c : Counters) : Counters :=
  mkCounters (scalar c) (inbound_msgs_by_type c) (outbound_msgs_by_type c) ports
    (outbound_msgs_per_tick_buckets c) (cmd_exec_time_sum_us c) (cmd_exec_time_count c)
    (cmd_exec_time_max_us c).
Definition inc_port_connections (port_index : nat) (c : Counters) : Counters :=
  if (port_index <? kMaxPorts)%nat
  then set_ports (alter (fun n => wrap64 (n + 1)) port_index (connections_by_port c)) c else c.
Definition dec_port_connections (port_index : nat) (c : Counters) : Counters :=
  if (port_index <? kMaxPorts)%nat
  then set_ports (alter (fun n => if 0 <? n then n - 1 else n)%Z port_index (connections_by_port c)) c else c.

Definition observe_command_exec_time (type : nat) (duration_us : Z) (c : Counters) : Counters :=
  if (kEnvelopeTypeSlots <=? type)%nat then c
  else
    let c := mkCounters (scalar c) (inbound_msgs_by_type c) (outbound_msgs_by_type c) (connections_by_port c)
               (outbound_msgs_per_tick_buckets c)
               (alter (fun n => wrap64 (n + duration_us)) type (cmd_exec_time_sum_us c))
               (alter (fun n => wrap64 (n + 1)) type (cmd_exec_time_count c))
               (alter (fun n => Z.max n duration_us) type (cmd_exec_time_max_us c)) in
    fetch_add commands_processed_total 1 c.

Definition inc_active_workers : Counters -> Counters := fetch_add active_workers 1.
Definition dec_active_workers (c : Counters) : Counters :=
  if (0 <? scalar c active_workers)%Z then store active_workers (scalar c active_workers - 1) c else c.
Definition set_total_workers (count : Z) : Counters -> Counters := store total_workers count.
Definition set_queue_depth (depth : Z) : Counters -> Counters := store current_queue_depth depth.
Definition set_db_write_queue_depth (depth : Z) (c : Counters) : Counters :=
  update_highwater db_write_queue_highwater depth (store db_write_queue_depth depth c).

(** ** Snapshots *)

Record CommandTimings := mkTimings {
  ct_type : nat; ct_name : string; ct_avg_us : Z; ct_max_us : Z; ct_count : Z
}.

(** The fields of the snapshot's counters and gauges, under the names they are
    declared with.  A field that is never assigned stays 0. *)
Record MetricsSnapshot := mkSnapshot {
  timestamp_sec : Z;
  snap_counters : string -> Z;
  snap_gauges : string -> Z;
  snap_ports : list Z;
  outbound_tick_hist : list Z;
  command_timings : list CommandTimings
}.

(** The counter each field of [SnapshotCounters] is loaded from. *)
Definition counter_sources : list (string * counter) :=
  [("inbound_total", inbound_msgs_total); ("outbound_total", outbound_msgs_total);
   ("parse_fail", parse_fail_total); ("auth_fail", auth_fail_total);
   ("membership_fail", membership_fail_total); ("payload_parse_total", payload_parse_total);
   ("payload_parse_fail_total", payload_parse_fail_total);
   ("parsed_payload_violation_total", parsed_payload_violation_total);
   ("registry_view_access_total", registry_view_access_total); ("registry_miss_total", registry_miss_total);
   ("registry_copy_elim_total", registry_copy_eliminated_total);
   ("fanout_sub_snapshot_total", fanout_subscriber_snapshot_total);
   ("fanout_payload_shared_total", fanout_payload_shared_total);
   ("per_conn_enqueued_total", per_conn_queue_enqueued_total);
   ("per_conn_dropped_low_total", per_conn_queue_dropped_low_total);
   ("per_conn_overflow_total", per_conn_queue_overflow_total);
   ("slow_connection_dropped_total", slow_connection_dropped_total);
   ("outbound_flush_total", outbound_flush_total); ("outbound_flush_empty_total", outbound_flush_empty_total);
   ("outbound_flush_send_fail_total", outbound_flush_send_fail_total);
   ("outbound_update_auth_state_total", outbound_update_auth_state_total);
   ("outbound_drop_connection_total", outbound_drop_connection_total);
   ("outbound_backpressured_total", outbound_backpressured_total); ("dropped_in", dropped_inbound_total);
   ("dropped_in_low", dropped_inbound_low_overflow); ("dropped_in_high", dropped_inbound_high_overflow);
   ("evicted_in_low_for_high", evicted_inbound_low_for_high); ("dropped_out", dropped_outbound_total);
   ("dropped_out_low", dropped_outbound_overflow_low_pri);
   ("dropped_out_high", dropped_outbound_overflow_high_pri);
   ("outbound_backpressure", outbound_backpressure_total)].

(** ... and each plain field of [SnapshotGauges]. *)
Definition gauge_sources : list (string * counter) :=
  [("event_hiwat", event_queue_highwater); ("outbound_hiwat", outbound_queue_highwater);
   ("active_connections", active_connections); ("active_users", active_users);
   ("http_health_rtt_ms", http_health_rtt_ms); ("active_workers", active_workers);
   ("total_workers", total_workers); ("current_queue_depth", current_queue_depth)].

Fixpoint source (l : list (string * counter)) (name : string) : option counter :=
  match l with
  | [] => None
  | (n, k) :: l' => if bool_decide (n = name) then Some k else source l' name
  end.
Definition load_field (l : list (string * counter)) (c : Counters) (name : string) : Z :=
  match source l name with Some k => scalar c k | None => 0%Z end.

(** [Envelope_Type_Name]: the name in the [.proto] file; empty when the number
    has none. *)
Definition type_names : list (Z * string) :=
  [(0, "UNKNOWN"); (1, "CommandError"); (10, "PING"); (11, "PONG"); (12, "ACK"); (20, "AUTH");
   (21, "AUTH_OK"); (22, "REQUEST_STATE_SYNC"); (23, "STATE_SYNC"); (24, "STATE_DELTA");
   (25, "RT_SIGNAL"); (30, "TYPING"); (31, "ACTIVE_CHANNEL"); (33, "VOICE_JOIN");
   (34, "VOICE_KICK_PARTICIPANT"); (35, "VOICE_ACTIVITY"); (36, "VOICE_TOKEN_ISSUED");
   (37, "VOICE_SELF_STATUS"); (38, "VOICE_SELF_REVOKED"); (39, "VOICE_KEY_UPDATE");
   (40, "MESSAGE_SEND"); (42, "MESSAGE_FETCH_BEFORE"); (50, "HUB_CREATE"); (51, "HUB_JOIN");
   (52, "HUB_CREATE_JOIN_CODE"); (53, "HUB_LEAVE"); (54, "HUB_REMOVE"); (55, "HUB_MEMBER_KICK");
   (56, "HUB_UPDATE"); (57, "HUB_MEMBER_ROLE_UPDATE"); (58, "HUB_INVITE_VALIDATE");
   (70, "USER_UPDATE"); (80, "CHANNEL_CREATE"); (81, "CHANNEL_UPDATE"); (85, "CHANNEL_REMOVE")]%Z.
Definition Envelope_Type_Name (i : nat) : string :=
  match List.find (fun p => (p.1 =? Z.of_nat i)%Z) type_names with Some p => p.2 | None => "" end.

(** The slots with a count, in order. *)
Definition timing_slot (c : Counters) (i : nat) : option CommandTimings :=
  count ← cmd_exec_time_count c !! i;
  sum_us ← cmd_exec_time_sum_us c !! i;
  max_us ← cmd_exec_time_max_us c !! i;
  if (0 <? count)%Z then Some (mkTimings i (Envelope_Type_Name i) (sum_us / count)%Z max_us count) else None.
Definition timings (c : Counters) : list CommandTimings := omap (timing_slot c) (seq 0 kEnvelopeTypeSlots).

(** The snapshot, and the counters it leaves: the round-trip window starts
    again. *)
Definition capture_snapshot (ts_sec : Z) (c : Counters) : MetricsSnapshot * Counters :=
  let rtt_count := scalar c client_rtt_count in
  let avg := if (0 <? rtt_count)%Z then (scalar c client_rtt_sum_ms / rtt_count)%Z else 0%Z in
  let c1 := if (0 <? rtt_count)%Z then store client_rtt_count 0 (store client_rtt_sum_ms 0 c) else c in
  let rtt_max := scalar c1 client_rtt_max_ms in
  let c2 := store client_rtt_max_ms 0 c1 in
  let workers := scalar c total_workers in
  let pct := if (0 <? workers)%Z then (wrap64 (scalar c active_workers * 100) / workers)%Z else 0%Z in
  (mkSnapshot ts_sec (load_field counter_sources c)
     (fun name =>
        if bool_decide (name = "client_rtt_avg_ms") then avg
        else if bool_decide (name = "client_rtt_max_ms") then rtt_max
        else if bool_decide (name = "worker_utilization_pct") then pct
        else load_field gauge_sources c name)
     (connections_by_port c) (outbound_msgs_per_tick_buckets c) (timings c),
   c2).

(** ** The log line *)

Definition kLogInterval_ns : Z := 5000000000.

Definition metrics_log_enabled (getenv : Env) (e : EnvLoader.t) : expected bool string :=
  EnvLoader.get_bool getenv e "METRICS_LOG" true.

(** The numbers of the line, in its order. *)
Definition log_sources : list (string * counter) :=
  (counter_sources ++
   [("event_hiwat", event_queue_highwater); ("outbound_hiwat", outbound_queue_highwater);
    ("active_connections", active_connections); ("active_users", active_users);
    ("http_health_rtt_ms", http_health_rtt_ms)])%list.

Definition log_line (c : Counters) : string :=
  let rtt_count := scalar c client_rtt_count in
  let avg := if (0 <? rtt_count)%Z then (scalar c client_rtt_sum_ms / rtt_count)%Z else 0%Z in
  "metrics " ++
  String.concat " " ((fun p => p.1 ++ "=" ++ std_to_string (scalar c p.2)) <$> log_sources) ++
  " client_rtt_avg_ms=" ++ std_to_string avg ++
  " client_rtt_max_ms=" ++ std_to_string (scalar c client_rtt_max_ms) ++
  " outbound_tick_hist=[" ++ String.concat " " (std_to_string <$> outbound_msgs_per_tick_buckets c) ++ "]".

(** [last_log_ns] is the time of the last line; the line takes the high-water
    marks with it. *)
Definition maybe_log (getenv : Env) (e : EnvLoader.t) (now_ns last_log_ns : Z) (c : Counters)
  : expected (option string * Z * Counters) string :=
  (enabled <-- metrics_log_enabled getenv e;
   if negb enabled then Ok (None, last_log_ns, c)
   else if (wrap64 (now_ns - last_log_ns) <? kLogInterval_ns)%Z then Ok (None, last_log_ns, c)
   else Ok (Some (log_line c), now_ns,
            store outbound_queue_highwater 0 (store event_queue_highwater 0 c)))%throws.

(** ** The ring *)

Definition kTimeseriesCapacity : nat := 300.

Record Ring := mkRing { ring : list MetricsSnapshot; ring_index : nat; ring_size : nat; started : bool }.

Definition empty_snapshot : MetricsSnapshot :=
  mkSnapshot 0 (fun _ => 0%Z) (fun _ => 0%Z) (replicate kMaxPorts 0%Z) (replicate 6 0%Z) [].

Definition no_ring : Ring := mkRing [] 0 0 false.

(** [start_timeseries] up to the thread; [ring.resize] keeps what is there. *)
Definition start_timeseries (r : Ring) : Ring :=
  if started r then r
  else mkRing (take kTimeseriesCapacity (ring r) ++ replicate (kTimeseriesCapacity - length (ring r)) empty_snapshot)
         (ring_index r) (ring_size r) true.
Definition stop_timeseries (r : Ring) : Ring :=
  if started r then mkRing (ring r) (ring_index r) (ring_size r) false else r.

(** One turn of the thread. *)
Definition tick (snap : MetricsSnapshot) (r : Ring) : Ring :=
  mkRing (<[ring_index r := snap]> (ring r)) ((ring_index r + 1) mod kTimeseriesCapacity)
    (Nat.min (ring_size r + 1) kTimeseriesCapacity) (started r).

(** [ring[idx]] is inside the ring whenever it is not empty. *)
Definition timeseries (window_sec : nat) (r : Ring) : list MetricsSnapshot :=
  if (ring_size r =? 0)%nat then []
  else
    let window := Nat.min window_sec (ring_size r) in
    let start := (ring_index r + kTimeseriesCapacity - window) mod kTimeseriesCapacity in
    omap (fun i => ring r !! ((start + i) mod kTimeseriesCapacity)%nat) (seq 0 window).


(** ** The ring against a list *)

Lemma omap_seq {A} (f : nat -> option A) (l : list A) : forall a,
  (forall i, i < length l -> f (a + i) = l !! i) -> omap f (seq a (length l)) = l.
Proof.
  induction l as [|x l IH]; intros a Hf; [done|]. cbn [length seq]. csimpl.
  rewrite (eq_trans (f_equal f (plus_n_O a)) (Hf 0 ltac:(simpl; lia))). cbn. f_equal. apply IH.
  intros i Hi. replace (S a + i) with (a + S i) by lia. exact (Hf (S i) ltac:(simpl; lia)).
Qed.

Lemma omap_window {A} (f : nat -> option A) (l : list A) w :
  w = length l -> (forall i, i < w -> f i = l !! i) -> omap f (seq 0 w) = l.
Proof. intros -> Hf. by apply omap_seq. Qed.

(** After the snapshots [l], slot [k mod 300] holds the [k]-th of the last 300. *)
Definition ring_holds (l : list MetricsSnapshot) (r : Ring) : Prop :=
  length (ring r) = kTimeseriesCapacity /\ ring_index r = length l mod kTimeseriesCapacity /\
  ring_size r = Nat.min (length l) kTimeseriesCapacity /\
  forall k, length l <= k + kTimeseriesCapacity -> k < length l ->
    ring r !! (k mod kTimeseriesCapacity) = l !! k.

Lemma ring_start : ring_holds [] (start_timeseries no_ring).
Proof. split_and!; try done. intros k _ Hk. simpl in Hk. lia. Qed.

Lemma same_slot k n : n mod 300 = k mod 300 -> k < n -> n < k + 300 -> False.
Proof. intros E H1 H2. pose proof (Nat.div_mod_eq n 300). pose proof (Nat.div_mod_eq k 300). lia. Qed.

Lemma ring_tick l r s : ring_holds l r -> ring_holds (l ++ [s]) (tick s r).
Proof.
  intros (Hl & Hi & Hz & Hk). unfold tick, ring_holds. cbn [ring ring_index ring_size].
  rewrite length_app. cbn [length]. unfold kTimeseriesCapacity in *.
  assert (length l mod 300 < 300) by (apply Nat.mod_upper_bound; lia).
  split_and!; [by rewrite length_insert|by rewrite Hi, Nat.Div0.add_mod_idemp_l|lia|].
  intros k H1 H2. destruct (decide (k = length l)) as [->|Hne].
  - rewrite Hi, list_lookup_insert_eq by lia. symmetry. by apply list_lookup_middle.
  - rewrite list_lookup_insert_ne, Hk by (rewrite ?Hi; try (intros E; apply (same_slot k (length l)); lia); lia).
    by rewrite lookup_app_l by lia.
Qed.

Lemma ring_run snaps : forall l r, ring_holds l r -> ring_holds (l ++ snaps) (foldl (fun r s => tick s r) r snaps).
Proof.
  induction snaps as [|s snaps IH]; intros l r Hr; [by rewrite app_nil_r|].
  cbn [foldl]. rewrite cons_middle, (assoc_L (++)). by apply IH, ring_tick.
Qed.

Lemma slot_of n w i :
  w <= n -> w <= 300 -> i < w -> ((n mod 300 + 300 - w) mod 300 + i) mod 300 = (n - w + i) mod 300.
Proof.
  intros H1 H2 H3.
  pose proof (Nat.div_mod_eq n 300). pose proof (Nat.div_mod_eq (n mod 300 + 300 - w) 300).
  pose proof (Nat.div_mod_eq ((n mod 300 + 300 - w) mod 300 + i) 300). pose proof (Nat.div_mod_eq (n - w + i) 300).
  assert (forall x, x mod 300 < 300) as Hm by (intros; apply Nat.mod_upper_bound; lia).
  pose proof (Hm n). pose proof (Hm (n mod 300 + 300 - w)). pose proof (Hm ((n mod 300 + 300 - w) mod 300 + i)).
  pose proof (Hm (n - w + i)). lia.
Qed.

(** The series is the recent history.  Whatever snapshots the thread has
    taken, asking for a window gives exactly the last of them, oldest first: as
    many as asked for, as the ring keeps, or as there are. *)
Theorem timeseries_is_recent_history (snaps : list MetricsSnapshot) (window_sec : nat) :
  timeseries window_sec (foldl (fun r s => tick s r) (start_timeseries no_ring) snaps) =
  drop (length snaps - Nat.min window_sec kTimeseriesCapacity) snaps.
Proof.
  pose proof (ring_run snaps [] _ ring_start) as (Hl & Hi & Hz & Hk). cbn [app] in *.
  set (r := foldl _ _ snaps) in *. unfold timeseries. rewrite Hz. unfold kTimeseriesCapacity in *.
  destruct (Nat.eqb_spec (Nat.min (length snaps) 300) 0) as [E|E].
  { destruct snaps; [by rewrite drop_nil|simpl in E; lia]. }
  set (w := Nat.min window_sec (Nat.min (length snaps) 300)).
  assert (length snaps - Nat.min window_sec 300 = length snaps - w) as -> by lia.
  assert (w = length (drop (length snaps - w) snaps)) as Hw by (rewrite length_drop; lia).
  apply omap_window; [done|]. intros i Hlt.
  rewrite Hi, slot_of by lia. rewrite Hk by lia. by rewrite lookup_drop.
Qed.

(** ** The round-trip window *)

Definition rtt_idle (c : Counters) : Prop :=
  scalar c client_rtt_sum_ms = 0%Z /\ scalar c client_rtt_count = 0%Z /\ scalar c client_rtt_max_ms = 0%Z.

Definition sum_of (l : list Z) : Z := foldr Z.add 0%Z l.
Definition max_of (l : list Z) : Z := foldr Z.max 0%Z l.

Lemma store_eq k v c : scalar (store k v c) k = v.
Proof. cbn. by rewrite decide_True. Qed.
Lemma store_ne k k' v c : k <> k' -> scalar (store k v c) k' = scalar c k'.
Proof. intros Hk. cbn. by rewrite decide_False by congruence. Qed.

(** Reads counters through the stores before them. *)
Ltac peek := repeat first [rewrite store_eq | rewrite store_ne by done].

(** The window holds the samples [l]. *)
Definition rtt_window (l : list Z) (c : Counters) : Prop :=
  scalar c client_rtt_sum_ms = sum_of l /\ scalar c client_rtt_count = Z.of_nat (length l) /\
  scalar c client_rtt_max_ms = max_of l.

Lemma sum_nonneg l : Forall (fun x => 0 <= x)%Z l -> (0 <= sum_of l)%Z.
Proof. induction 1; simpl; lia. Qed.

Lemma rtt_observe l c x :
  Forall (fun x => 0 <= x)%Z (x :: l) -> (sum_of (x :: l) < two64)%Z -> (Z.of_nat (S (length l)) < two64)%Z ->
  rtt_window l c -> rtt_window (x :: l) (observe_client_rtt x c).
Proof.
  intros [Hx Hl]%Forall_cons_1 Hs Hn (H1 & H2 & H3). pose proof (sum_nonneg l Hl). simpl in Hs.
  unfold rtt_window, observe_client_rtt, update_highwater, fetch_add.
  peek. rewrite H1, H2, H3, !wrap64_small by lia.
  change (sum_of (x :: l)) with (x + sum_of l)%Z. change (max_of (x :: l)) with (Z.max x (max_of l)).
  cbn [length]. destruct (Z.ltb_spec (max_of l) x).
  - peek. lia.
  - peek. rewrite H3. lia.
Qed.

Lemma rtt_observe_all l : forall c,
  rtt_idle c -> Forall (fun x => 0 <= x)%Z l -> (sum_of l < two64)%Z -> (Z.of_nat (length l) < two64)%Z ->
  rtt_window l (foldr observe_client_rtt c l).
Proof.
  induction l as [|x l IH]; intros c Hc Hl Hs Hn; [exact Hc|].
  cbn [foldr]. pose proof (Forall_cons_1 _ _ _ Hl) as [Hx Hl']. simpl in Hs, Hn.
  apply rtt_observe; [done|done|simpl; lia|]. apply IH; [done|done|lia|lia].
Qed.

Lemma capture_rtt ts c :
  let s := (capture_snapshot ts c).1 in let c' := (capture_snapshot ts c).2 in
  let open := (0 <? scalar c client_rtt_count)%Z in
  snap_gauges s "client_rtt_avg_ms" =
    (if open then scalar c client_rtt_sum_ms / scalar c client_rtt_count else 0)%Z /\
  snap_gauges s "client_rtt_max_ms" = scalar c client_rtt_max_ms /\
  scalar c' client_rtt_sum_ms = (if open then 0 else scalar c client_rtt_sum_ms)%Z /\
  scalar c' client_rtt_count = (if open then 0 else scalar c client_rtt_count)%Z /\
  scalar c' client_rtt_max_ms = 0%Z.
Proof.
  unfold capture_snapshot. cbn [snap_gauges fst snd]. destruct (0 <? scalar c client_rtt_count)%Z; by split_and!.
Qed.

(** A snapshot reports the round-trip times seen since the last one, and
    starts a new window.  After the samples [l] its average is their mean
    rounded down, its maximum the greatest; taken again at once it reports 0. *)
Theorem rtt_snapshot_exact (c : Counters) (l : list Z) (ts ts' : Z)
    (Hc : rtt_idle c) (Hl : Forall (fun x => 0 <= x)%Z l) (Hs : (sum_of l < two64)%Z)
    (Hn : (Z.of_nat (length l) < two64)%Z) :
  let '(s, c') := capture_snapshot ts (foldr observe_client_rtt c l) in
  snap_gauges s "client_rtt_avg_ms" = (if decide (l = []) then 0 else sum_of l / Z.of_nat (length l))%Z /\
  snap_gauges s "client_rtt_max_ms" = max_of l /\ rtt_idle c' /\
  snap_gauges (capture_snapshot ts' c').1 "client_rtt_avg_ms" = 0%Z /\
  snap_gauges (capture_snapshot ts' c').1 "client_rtt_max_ms" = 0%Z.
Proof.
  pose proof (rtt_observe_all l c Hc Hl Hs Hn) as Hw. set (d := foldr _ c l) in *. clearbody d.
  pose proof (capture_rtt ts d) as Hcap. destruct (capture_snapshot ts d) as [s c'].
  cbn [fst snd] in Hcap. destruct Hcap as (E1 & E2 & E3).
  destruct Hw as (H1 & H2 & H3). rewrite E1, E2, H1, H2, H3.
  assert (rtt_idle c') as Hi.
  { unfold rtt_idle. destruct E3 as (-> & -> & ->). rewrite H1, H2. destruct l; by cbn. }
  split_and!; [by destruct l|done|done|..].
  - rewrite (proj1 (capture_rtt ts' c')). by destruct Hi as (_ & -> & _).
  - rewrite (proj1 (proj2 (capture_rtt ts' c'))). apply Hi.
Qed.

Lemma rtt_snapshot_exact_witness :
  snap_gauges (capture_snapshot 7 (foldr observe_client_rtt zero [10; 31]%Z)).1 "client_rtt_avg_ms" = 20%Z.
Proof.
  assert (Forall (fun x => 0 <= x)%Z [10; 31]%Z) as Hl by (repeat constructor; lia).
  pose proof (rtt_snapshot_exact zero [10; 31]%Z 7 8 (conj eq_refl (conj eq_refl eq_refl)) Hl eq_refl eq_refl) as Hw.
  exact (proj1 Hw).
Defined.

(** A sample that arrives between the loads of the count and of the sum raises
    the average above every sample. *)
Example racing_average :
  let c := observe_client_rtt 10 zero in
  (scalar (observe_client_rtt 10 c) client_rtt_sum_ms / scalar c client_rtt_count = 20)%Z /\
  (scalar (observe_client_rtt 10 c) client_rtt_max_ms = 10)%Z.
Proof. done. Qed.

(** ** High-water marks under contention *)

(** Where a thread is in [update_highwater]. *)
Inductive hw_pc :=
  | Before (value : Z)                (* about to load *)
  | Looping (value current : Z)       (* at the loop's condition *)
  | Finished (value : Z).

Definition hw_value (t : hw_pc) : Z :=
  match t with Before v | Looping v _ | Finished v => v end.

(** One atomic operation of thread [i]: the load, the exit, and the weak
    compare-and-exchange that succeeds, or fails and loads the mark anew. *)
Inductive hw_step : Z * list hw_pc -> Z * list hw_pc -> Prop :=
  | hw_load mark ts i v :
      ts !! i = Some (Before v) -> hw_step (mark, ts) (mark, <[i := Looping v mark]> ts)
  | hw_exit mark ts i v cur :
      ts !! i = Some (Looping v cur) -> (v <= cur)%Z -> hw_step (mark, ts) (mark, <[i := Finished v]> ts)
  | hw_swap mark ts i v :
      ts !! i = Some (Looping v mark) -> (mark < v)%Z -> hw_step (mark, ts) (v, <[i := Finished v]> ts)
  | hw_retry mark ts i v cur :
      ts !! i = Some (Looping v cur) -> (cur < v)%Z -> hw_step (mark, ts) (mark, <[i := Looping v mark]> ts).

Definition hw_ok (mark : Z) (t : hw_pc) : Prop :=
  match t with Before _ => True | Looping _ cur => (cur <= mark)%Z | Finished v => (v <= mark)%Z end.

Definition hw_inv (m0 : Z) (vs : list Z) (s : Z * list hw_pc) : Prop :=
  (m0 <= s.1)%Z /\ (s.1 = m0 \/ s.1 ∈ vs) /\ hw_value <$> s.2 = vs /\ Forall (hw_ok s.1) s.2.

Lemma hw_set vs (ts : list hw_pc) i t t' :
  hw_value <$> ts = vs -> ts !! i = Some t -> hw_value t' = hw_value t -> hw_value <$> <[i := t']> ts = vs.
Proof.
  intros <- Ht E. rewrite list_fmap_insert, E. apply list_insert_id. rewrite list_lookup_fmap, Ht. done.
Qed.

Lemma hw_inv_step m0 vs s s' : hw_inv m0 vs s -> hw_step s s' -> hw_inv m0 vs s'.
Proof.
  intros (H1 & H2 & H3 & H4) Hstep. destruct Hstep as [mark ts i v Ht|mark ts i v cur Ht Hle|mark ts i v Ht Hlt|mark ts i v cur Ht Hlt];
    cbn [fst snd] in *; pose proof (Forall_lookup_1 _ _ _ _ H4 Ht) as Hi; cbn [hw_ok] in Hi.
  - split_and!; [done..|by eapply hw_set|]. apply Forall_insert; [done|]. simpl. lia.
  - split_and!; [done..|by eapply hw_set|]. apply Forall_insert; [done|]. simpl. lia.
  - split_and!; cbn [fst snd]; [lia| |by eapply hw_set|].
    + right. rewrite <- H3. apply list_elem_of_fmap. exists (Looping v mark). split; [done|].
      by eapply list_elem_of_lookup_2.
    + apply Forall_insert; [|simpl; lia]. eapply list.Forall_impl; [exact H4|]. intros []; simpl; lia.
  - split_and!; [done..|by eapply hw_set|]. apply Forall_insert; [done|]. simpl. lia.
Qed.

(** C39: high-water marks are not lost under contention.  However the atomic
    operations of any number of threads raising a mark interleave, spurious
    failures included, the mark only rises, and when all have finished it is
    the greatest of its first value and the values offered. *)
Theorem highwater_is_maximum (mark0 : Z) (values : list Z) (s : Z * list hw_pc)
    (Hrun : rtc hw_step (mark0, Before <$> values) s) :
  (mark0 <= s.1)%Z /\ (forall s', hw_step s s' -> (s.1 <= s'.1)%Z) /\
  (Forall (fun t => exists v, t = Finished v) s.2 ->
   s.1 = foldr Z.max mark0 values).
Proof.
  assert (hw_inv mark0 values s) as (H1 & H2 & H3 & H4).
  { assert (hw_inv mark0 values (mark0, Before <$> values)) as H0.
    { split_and!; cbn [fst snd]; [lia|by left|rewrite <- list_fmap_compose; apply list_fmap_id|].
      apply Forall_fmap, Forall_true. done. }
    revert H0. induction Hrun; [done|]. eauto using hw_inv_step. }
  split_and!; [done| |].
  - intros s' Hs. destruct Hs; cbn [fst]; lia.
  - intros Hfin. assert (forall v, v ∈ values -> (v <= s.1)%Z) as Hge.
    { intros v Hv. rewrite <- H3 in Hv. apply list_elem_of_fmap in Hv as (t & -> & Ht).
      rewrite list.Forall_forall in Hfin, H4. specialize (H4 t Ht). by destruct (Hfin t Ht) as [v ->]. }
    clear -H1 H2 Hge. revert H2 Hge. generalize dependent (s.1). intros m Hm H2 Hge.
    assert (foldr Z.max mark0 values <= m)%Z.
    { clear H2. induction values as [|v vs IH]; simpl; [done|]. pose proof (Hge v ltac:(left)).
      specialize (IH ltac:(intros; apply Hge; by right)). lia. }
    assert (forall x, x = mark0 \/ x ∈ values -> x <= foldr Z.max mark0 values)%Z as Hu.
    { clear. induction values as [|v vs IH]; intros x [->|Hx]; simpl; try (by apply not_elem_of_nil in Hx); try lia.
      - specialize (IH mark0 ltac:(by left)). lia.
      - apply elem_of_cons in Hx as [->|Hx]; [lia|]. specialize (IH x ltac:(by right)). lia. }
    specialize (Hu m H2). lia.
Qed.

Lemma highwater_is_maximum_witness :
  exists s, rtc hw_step (3%Z, Before <$> [5; 9]%Z) s /\ s.1 = 9%Z.
Proof.
  assert (rtc hw_step (3%Z, Before <$> [5; 9]%Z) (9%Z, [Finished 5; Finished 9])) as Hr.
  { eapply rtc_l; [by apply (hw_load _ _ 0 5)|]. eapply rtc_l; [by apply (hw_load _ _ 1 9)|].
    eapply rtc_l; [by apply (hw_swap _ _ 1 9)|]. eapply rtc_l; [by apply (hw_retry _ _ 0 5 3)|].
    eapply rtc_l; [by apply (hw_exit _ _ 0 5 9)|]. apply rtc_refl. }
  exists (9%Z, [Finished 5; Finished 9]). split; [exact Hr|].
  refine (proj2 (proj2 (highwater_is_maximum 3 [5; 9]%Z _ Hr)) _). repeat constructor; by eexists.
Defined.
End Metrics.
