(* ===== verification/ControlHttp.v ===== *)
(** * The control server

    [control/http/HttpServer.cpp]: the JSON documents of the health and metrics
    endpoints, and the query they take; and the presence endpoints of
    [net/transport/websocket/WebSocketTransport.cpp].  The HTTP library (routing, headers and
    sockets) is not modelled; each route is the function that makes its body. *)

From S2P Require Import Prelude.
From S2P Require Import CStrings.
From S2P Require Import Endpoints.
From S2P Require Import OriginPolicy.
From S2P Require Import EnvConfig.
From S2P Require Import Metrics.
From Stdlib Require Import Ascii.

Local Open Scope string_scope.

(** ** JSON text

    A reader of compact JSON, for what the documents are read back with:
    unsigned numbers, texts without escapes, arrays and objects. *)

Module JsonText.

Inductive doc :=
  | DNum (n : Z)
  | DText (s : string)
  | DList (l : list doc)
  | DObj (l : list (string * doc)).

Definition q : ascii := OriginPolicy.quote.
Definition quoted (s : string) : string := String q (s ++ String q "").

Fixpoint show (d : doc) : string :=
  match d with
  | DNum n => std_to_string n
  | DText s => quoted s
  | DList l => "[" ++ String.concat "," (map show l) ++ "]"
  | DObj l => "{" ++ String.concat "," (map (fun m => quoted m.1 ++ ":" ++ show m.2) l) ++ "}"
  end.

(** A text: up to the next quote; an escape is not read. *)
Definition read_text (s : string) : option (string * string) :=
  '(t, rest) ← split_on q s;
  if all_chars (fun c => negb (bool_decide (c = "\"%char))) t then Some (t, rest) else None.

Fixpoint read_value (fuel : nat) (s : string) : option (doc * string) :=
  match fuel, s with
  | S f, String c s' =>
    if bool_decide (c = q) then '(t, rest) ← read_text s'; Some (DText t, rest)
    else if bool_decide (c = "["%char) then
      if bool_decide (front s' = Some "]"%char) then Some (DList [], drop_chars 1 s')
      else '(l, rest) ← read_items f s'; Some (DList l, rest)
    else if bool_decide (c = "{"%char) then
      if bool_decide (front s' = Some "}"%char) then Some (DObj [], drop_chars 1 s')
      else '(l, rest) ← read_members f s'; Some (DObj l, rest)
    else if isdigit c then Some (DNum (read_digits 0 s), after_digits s)
    else None
  | _, _ => None
  end
with read_items (fuel : nat) (s : string) : option (list doc * string) :=
  match fuel with
  | O => None
  | S f =>
    '(d, rest) ← read_value f s;
    if bool_decide (front rest = Some ","%char)
    then '(l, rest') ← read_items f (drop_chars 1 rest); Some (d :: l, rest')
    else if bool_decide (front rest = Some "]"%char) then Some ([d], drop_chars 1 rest)
    else None
  end
with read_members (fuel : nat) (s : string) : option (list (string * doc) * string) :=
  match fuel with
  | O => None
  | S f =>
    if negb (bool_decide (front s = Some q)) then None
    else
      '(name, rest) ← read_text (drop_chars 1 s);
      if negb (bool_decide (front rest = Some ":"%char)) then None
      else
        '(d, rest) ← read_value f (drop_chars 1 rest);
        if bool_decide (front rest = Some ","%char)
        then '(l, rest') ← read_members f (drop_chars 1 rest); Some ((name, d) :: l, rest')
        else if bool_decide (front rest = Some "}"%char) then Some ([(name, d)], drop_chars 1 rest)
        else None
  end.

(** Three steps per character are enough. *)
Definition read (s : string) : option doc :=
  match read_value (3 * String.length s) s with Some (d, EmptyString) => Some d | _ => None end.

(** ** Reading back what is written *)

Definition clean (s : string) : Prop :=
  all_chars (fun c => negb (bool_decide (c = q)) && negb (bool_decide (c = "\"%char))) s = true.

Fixpoint good (d : doc) : Prop :=
  match d with
  | DNum n => (0 <= n < two64)%Z
  | DText s => clean s
  | DList l => fold_right (fun d P => good d /\ P) True l
  | DObj l => fold_right (fun m P => (clean m.1 /\ good m.2) /\ P) True l
  end.

Fixpoint steps (d : doc) : nat :=
  match d with
  | DNum _ | DText _ => 1
  | DList l => S (list_sum (map (fun d => S (steps d)) l))
  | DObj l => S (list_sum (map (fun m => S (steps m.2)) l))
  end.

Lemma read_text_quoted s rest : clean s -> read_text (s ++ String q rest) = Some (s, rest).
Proof.
  intros Hs. unfold read_text. rewrite split_on_app.
  - cbn [mbind option_bind].
    assert (all_chars (fun c => negb (bool_decide (c = "\"%char))) s = true) as ->; [|done].
    eapply PublicEndpointConfig.all_chars_impl; [|exact Hs]. by intros c [_ ?]%andb_prop.
  - eapply PublicEndpointConfig.all_chars_impl; [|exact Hs]. by intros c [? _]%andb_prop.
Qed.

Lemma digits_app a rest : all_chars isdigit a = true ->
  starts_with_digit rest = false ->
  after_digits (a ++ rest) = rest /\ forall acc, read_digits acc (a ++ rest) = read_digits acc a.
Proof.
  intros Ha Hr. induction a as [|c a IH].
  - destruct rest as [|c rest]; [done|]. change ("" ++ String c rest) with (String c rest).
    cbn [starts_with_digit after_digits read_digits] in *. unfold isdigit. rewrite Hr. split; [done|].
    intros acc. destruct (digit c); [|done]. by rewrite bool_decide_eq_true_2 in Hr.
  - rewrite app_cons. cbn [all_chars] in Ha. apply andb_prop in Ha as [Hc Ha].
    destruct (IH Ha) as [H1 H2]. cbn [after_digits read_digits]. rewrite Hc. split; [done|].
    intros acc. destruct (digit c); [apply H2|done].
Qed.

Lemma to_string_digits f : forall n rest,
  (0 <= n)%Z -> all_chars isdigit rest = true -> all_chars isdigit (to_string_aux f n rest) = true.
Proof.
  induction f as [|f IH]; intros n rest Hn Hr; cbn [to_string_aux]; [done|].
  assert (forall k, (0 <= k < 10)%Z -> isdigit (chr (48 + k)) = true) as Hd.
  { intros k Hk. unfold isdigit. rewrite digit_chr by done. done. }
  destruct (Z.ltb_spec n 10).
  - cbn [all_chars]. by rewrite Hd, Hr by lia.
  - apply IH; [apply Z.div_pos; lia|]. cbn [all_chars]. by rewrite Hd, Hr by (apply Z.mod_pos_bound; lia).
Qed.

Lemma number_text n : (0 <= n < two64)%Z ->
  all_chars isdigit (std_to_string n) = true /\ starts_with_digit (std_to_string n) = true /\
  read_digits 0 (std_to_string n) = n.
Proof.
  intros Hn. unfold std_to_string. split_and!.
  - by apply to_string_digits; [lia|].
  - apply to_string_aux_head; [lia|]. right. lia.
  - rewrite to_string_aux_read; [done|]. unfold two64 in Hn. cbn. lia.
Qed.

(** The first character of a value. *)
Definition opens (c : ascii) : bool :=
  bool_decide (c = q) || bool_decide (c = "["%char) || bool_decide (c = "{"%char) || isdigit c.

Lemma show_opens d rest : good d -> exists c s, show d ++ rest = String c s /\ opens c = true.
Proof.
  destruct d as [n|t|l|l]; intros Hd; cbn [show].
  - destruct (number_text n Hd) as (H1 & H2 & _). destruct (std_to_string n) as [|c s]; [done|].
    exists c, (s ++ rest). split; [done|]. cbn [all_chars] in H1. apply andb_prop in H1 as [H1 _].
    unfold opens. rewrite H1. by rewrite !orb_true_r.
  - by eexists q, _.
  - by eexists "["%char, _.
  - by eexists "{"%char, _.
Qed.

Lemma opens_not c : opens c = true -> c <> "]"%char /\ c <> "}"%char /\ c <> ","%char.
Proof. intros Ho. split_and!; intros ->; by vm_compute in Ho. Qed.

Lemma app_nil_text x : x ++ "" = x.
Proof. induction x as [|c x IH]; [done|]. rewrite app_cons. by rewrite IH. Qed.

Lemma concat_cons (x : string) l :
  String.concat "," (x :: l) = x ++ match l with [] => "" | _ => "," ++ String.concat "," l end.
Proof. destruct l; [|done]. by rewrite app_nil_text. Qed.

Lemma one_app c x : String c "" ++ x = String c x.
Proof. done. Qed.
Lemma comma_app x y : ("," ++ x) ++ y = String "," (x ++ y).
Proof. done. Qed.

Lemma member_text name t tail rest :
  ((quoted name ++ ":" ++ t) ++ tail) ++ rest = String q (name ++ String q (String ":" (t ++ tail ++ rest))).
Proof. unfold quoted. by rewrite !app_cons, !app_text_assoc, !one_app. Qed.

Definition reads_back (d : doc) : Prop :=
  forall fuel rest, steps d <= fuel -> starts_with_digit rest = false ->
    read_value fuel (show d ++ rest) = Some (d, rest).

Lemma items_back l : Forall reads_back l -> l <> [] -> forall fuel rest,
  list_sum (map (fun d => S (steps d)) l) <= fuel ->
  read_items fuel (String.concat "," (map show l) ++ String "]" rest) = Some (l, rest).
Proof.
  induction 1 as [|d l Hd Hl IH]; [done|]. intros _ fuel rest Hf.
  change (S (steps d) + list_sum (map (fun d => S (steps d)) l) <= fuel) in Hf. destruct fuel as [|f]; [lia|].
  cbn [map read_items]. rewrite concat_cons, app_text_assoc. destruct l as [|d' l].
  - cbn [map]. rewrite Hd by (done || lia). done.
  - cbn [map]. rewrite comma_app, Hd by (done || lia). cbn [mbind option_bind front drop_chars].
    rewrite bool_decide_eq_true_2 by done.
    specialize (IH ltac:(done) f rest ltac:(lia)). cbn [map] in IH. by rewrite IH.
Qed.

Lemma members_back l : Forall (fun m => clean m.1 /\ reads_back m.2) l -> l <> [] -> forall fuel rest,
  list_sum (map (fun m => S (steps m.2)) l) <= fuel ->
  read_members fuel (String.concat "," (map (fun m => quoted m.1 ++ ":" ++ show m.2) l) ++ String "}" rest) = Some (l, rest).
Proof.
  induction 1 as [|[name d] l [Hn Hd] Hl IH]; [done|]. intros _ fuel rest Hf. cbn [fst snd] in Hn, Hd.
  change (S (steps d) + list_sum (map (fun m => S (steps m.2)) l) <= fuel) in Hf. destruct fuel as [|f]; [lia|].
  cbn [map fst snd]. rewrite concat_cons, member_text. cbn [read_members front drop_chars].
  rewrite bool_decide_eq_true_2 by done. cbn [negb]. rewrite read_text_quoted by done.
  cbn [mbind option_bind front drop_chars]. rewrite bool_decide_eq_true_2 by done. cbn [negb].
  destruct l as [|m l].
  - cbn [map]. rewrite Hd by (done || lia). done.
  - cbn [map]. rewrite comma_app, Hd by (done || lia). cbn [mbind option_bind front drop_chars].
    rewrite bool_decide_eq_true_2 by done.
    specialize (IH ltac:(done) f rest ltac:(lia)). cbn [map] in IH. by rewrite IH.
Qed.

Lemma front_concat_opens l rest c : l <> [] -> Forall (fun s => forall t, exists c' u, s ++ t = String c' u /\ c' <> c) l ->
  front (String.concat "," l ++ rest) <> Some c.
Proof.
  intros Hne Hl. destruct l as [|s l]; [done|]. apply Forall_cons_1 in Hl as [Hs _].
  rewrite concat_cons, app_text_assoc. destruct (Hs (match l with [] => "" | _ => "," ++ String.concat "," l end ++ rest))
    as (c' & u & -> & Hc). cbn. congruence.
Qed.

Lemma good_list l : good (DList l) -> Forall good l.
Proof. induction l as [|d l IH]; [constructor|]. cbn. intros [Hd Hl]. constructor; [done|by apply IH]. Qed.
Lemma good_obj l : good (DObj l) -> Forall (fun m => clean m.1 /\ good m.2) l.
Proof. induction l as [|d l IH]; [constructor|]. cbn. intros [Hd Hl]. constructor; [done|by apply IH]. Qed.

Lemma steps_list_cons d l : steps (DList (d :: l)) = S (steps d + steps (DList l)).
Proof. change (S (S (steps d) + list_sum (map (fun d => S (steps d)) l)) = S (steps d + S (list_sum (map (fun d => S (steps d)) l)))). lia. Qed.
Lemma steps_obj_cons m l : steps (DObj (m :: l)) = S (steps m.2 + steps (DObj l)).
Proof. change (S (S (steps m.2) + list_sum (map (fun m => S (steps m.2)) l)) = S (steps m.2 + S (list_sum (map (fun m => S (steps m.2)) l)))). lia. Qed.

Lemma steps_in_list d l : d ∈ l -> steps d < steps (DList l).
Proof.
  induction l as [|e l IH]; [by intros ?%not_elem_of_nil|]. rewrite steps_list_cons.
  intros [->|Hd]%elem_of_cons; [lia|]. specialize (IH Hd). lia.
Qed.
Lemma steps_in_obj m l : m ∈ l -> steps m.2 < steps (DObj l).
Proof.
  induction l as [|e l IH]; [by intros ?%not_elem_of_nil|]. rewrite steps_obj_cons.
  intros [->|Hd]%elem_of_cons; [lia|]. specialize (IH Hd). lia.
Qed.

Lemma show_text s rest : show (DText s) ++ rest = String q (s ++ String q rest).
Proof. cbn [show]. unfold quoted. by rewrite app_cons, app_text_assoc, one_app. Qed.
Lemma show_list l rest : show (DList l) ++ rest = String "[" (String.concat "," (map show l) ++ String "]" rest).
Proof. cbn [show]. by rewrite !app_text_assoc, !one_app. Qed.
Lemma show_obj l rest :
  show (DObj l) ++ rest =
  String "{" (String.concat "," (map (fun m => quoted m.1 ++ ":" ++ show m.2) l) ++ String "}" rest).
Proof. cbn [show]. by rewrite !app_text_assoc, !one_app. Qed.

Lemma number_back n : good (DNum n) -> reads_back (DNum n).
Proof.
  intros Hd fuel rest Hf Hr. destruct (number_text n Hd) as (H1 & H2 & H3).
  destruct fuel as [|f]; [simpl in Hf; lia|]. cbn [show].
  destruct (digits_app _ _ H1 Hr) as [H4 H5]. destruct (std_to_string n) as [|c s] eqn:E; [done|].
  rewrite app_cons in *. pose proof H1 as [Hc _]%andb_prop. cbn [read_value].
  assert (c <> q /\ c <> "["%char /\ c <> "{"%char) as (K1 & K2 & K3).
  { split_and!; intros ->; by vm_compute in Hc. }
  rewrite !bool_decide_eq_false_2, Hc by done. by rewrite H4, H5, H3.
Qed.

Lemma read_show n : forall d, steps d <= n -> good d -> reads_back d.
Proof.
  induction n as [|n IH]; intros d Hn Hd; [destruct d; simpl in Hn; lia|].
  destruct d as [k|t|l|l]; [by apply number_back|..]; intros fuel rest Hf Hr; (destruct fuel as [|f]; [simpl in Hf; lia|]).
  - rewrite show_text. cbn [read_value]. rewrite bool_decide_eq_true_2 by done. by rewrite read_text_quoted.
  - assert (Forall reads_back l) as Hl.
    { apply list.Forall_forall. intros d Hin. apply IH; [apply steps_in_list in Hin; lia|].
      apply good_list in Hd. by rewrite list.Forall_forall in Hd; auto. }
    rewrite show_list. cbn [read_value]. rewrite (bool_decide_eq_false_2 ("["%char = q)), bool_decide_eq_true_2 by done.
    destruct l as [|d l]; [done|]. rewrite bool_decide_eq_false_2.
    + rewrite items_back; [done|done|done|]. cbn [steps] in Hf. lia.
    + apply front_concat_opens; [done|]. apply good_list in Hd. apply List.Forall_map.
      eapply list.Forall_impl; [exact Hd|]. intros e He t. destruct (show_opens e t He) as (c & u & E & Ho).
      exists c, u. split; [done|]. by apply opens_not.
  - assert (Forall (fun m => clean m.1 /\ reads_back m.2) l) as Hl.
    { apply list.Forall_forall. intros m Hin. apply good_obj in Hd. rewrite list.Forall_forall in Hd.
      destruct (Hd m Hin). split; [done|]. apply IH; [apply steps_in_obj in Hin; lia|done]. }
    rewrite show_obj. cbn [read_value]. rewrite (bool_decide_eq_false_2 ("{"%char = q)),
      (bool_decide_eq_false_2 ("{"%char = "["%char)), (bool_decide_eq_true_2 ("{"%char = "{"%char)) by done.
    destruct l as [|m l]; [done|]. rewrite bool_decide_eq_false_2.
    + rewrite members_back; [done|done|done|]. cbn [steps] in Hf. lia.
    + apply front_concat_opens; [done|]. apply List.Forall_map. apply Forall_true.
      intros e t. exists q. eexists. unfold compose. unfold quoted. rewrite !app_cons. split; [reflexivity|]. done.
Qed.

Lemma concat_length l :
  list_sum (map String.length l) + length l <= S (String.length (String.concat "," l)).
Proof.
  induction l as [|s l IH]; [simpl; lia|]. rewrite concat_cons, length_text_app.
  change (String.length s + list_sum (map String.length l) + S (length l) <=
          S (String.length s + String.length (match l with [] => "" | _ => "," ++ String.concat "," l end))).
  destruct l as [|t l]; [cbn; lia|]. rewrite length_text_app. cbn [String.length]. lia.
Qed.

Lemma list_sum_le {A} (f g : A -> nat) l : Forall (fun x => f x <= g x) l -> list_sum (map f l) <= list_sum (map g l).
Proof.
  induction 1 as [|x l Hx _ IH]; [done|].
  change (f x + list_sum (map f l) <= g x + list_sum (map g l)). lia.
Qed.

Lemma list_sum_affine {A} (f : A -> nat) l :
  list_sum (map (fun x => S (3 * f x)) l) = length l + 3 * list_sum (map f l).
Proof.
  induction l as [|x l IH]; [done|].
  change (S (3 * f x) + list_sum (map (fun x => S (3 * f x)) l) = S (length l) + 3 * (f x + list_sum (map f l))). lia.
Qed.

Lemma steps_length n : forall d, steps d <= n -> good d -> steps d <= 3 * String.length (show d).
Proof.
  induction n as [|n IH]; intros d Hn Hd; [destruct d; simpl in Hn; lia|]. destruct d as [k|t|l|l].
  - destruct (number_text k Hd) as (_ & H2 & _). cbn [show steps]. destruct (std_to_string k); [done|]. simpl. lia.
  - cbn [show steps]. unfold quoted. cbn [String.length]. lia.
  - cbn [show steps]. rewrite !length_text_app. pose proof (concat_length (map show l)) as Hc.
    rewrite map_map, length_map in Hc. cbn [String.length].
    assert (list_sum (map (fun d => S (steps d)) l) <= list_sum (map (fun d => S (3 * String.length (show d))) l)) as Hs.
    { apply list_sum_le, list.Forall_forall. intros d Hin. apply good_list in Hd. rewrite list.Forall_forall in Hd.
      pose proof (steps_in_list d l Hin). specialize (IH d ltac:(lia) (Hd d Hin)). lia. }
    rewrite list_sum_affine in Hs. lia.
  - cbn [show steps]. rewrite !length_text_app.
    pose proof (concat_length (map (fun m => quoted m.1 ++ ":" ++ show m.2) l)) as Hc.
    rewrite map_map, length_map in Hc. cbn [String.length].
    assert (list_sum (map (fun m => S (steps m.2)) l) <=
            list_sum (map (fun m => S (3 * String.length (quoted m.1 ++ ":" ++ show m.2))) l)) as Hs.
    { apply list_sum_le, list.Forall_forall. intros m Hin. apply good_obj in Hd. rewrite list.Forall_forall in Hd.
      pose proof (steps_in_obj m l Hin). specialize (IH m.2 ltac:(lia) (proj2 (Hd m Hin))).
      rewrite !length_text_app. lia. }
    rewrite list_sum_affine in Hs. lia.
Qed.

(** What is written is read back. *)
Lemma read_back d : good d -> read (show d) = Some d.
Proof.
  intros Hd. unfold read. pose proof (steps_length (steps d) d ltac:(lia) Hd) as Hf.
  pose proof (read_show (steps d) d ltac:(lia) Hd _ "" Hf eq_refl) as Hr.
  by rewrite app_nil_text in Hr; rewrite Hr.
Qed.

End JsonText.

Module ControlHttp.
Import JsonText Metrics.

(** ** Documents *)

Definition UINT32_MAX : Z := 4294967295.

(** The loop; [val] is a [uint64_t]. *)
Fixpoint parse_u32_loop (s : string) (val : Z) : option Z :=
  match s with
  | EmptyString => Some val
  | String c s' =>
    match digit c with
    | None => None
    | Some d =>
      let val := wrap64 (wrap64 (val * 10) + d) in
      if (UINT32_MAX <? val)%Z then None else parse_u32_loop s' val
    end
  end.
Definition parse_u32 (s : string) (fallback : Z) : Z :=
  if bool_decide (s = "") then fallback
  else match parse_u32_loop s 0 with Some val => val | None => fallback end.

Definition num (value : Z) : string := std_to_string value.
Definition member (name : string) (value : Z) : string := quoted name ++ ":" ++ num value.
Definition members (value : string -> Z) (names : list string) : string :=
  String.concat "," (map (fun name => member name (value name)) names).
Definition numbers (l : list Z) : string := String.concat "," (map num l).

Definition counter_names : list string :=
  ["inbound_total"; "outbound_total"; "parse_fail"; "auth_fail"; "membership_fail"; "payload_parse_total";
   "payload_parse_fail_total"; "parsed_payload_violation_total"; "registry_view_access_total";
   "registry_miss_total"; "registry_copy_elim_total"; "fanout_sub_snapshot_total";
   "fanout_payload_shared_total"; "per_conn_enqueued_total"; "per_conn_dropped_low_total";
   "per_conn_overflow_total"; "slow_connection_dropped_total"; "outbound_flush_total";
   "outbound_flush_empty_total"; "outbound_flush_send_fail_total"; "outbound_backpressured_total";
   "dropped_in"; "dropped_in_low"; "dropped_in_high"; "evicted_in_low_for_high"; "dropped_out";
   "dropped_out_low"; "dropped_out_high"; "outbound_backpressure"].
Definition gauge_names_before : list string :=
  ["event_hiwat"; "outbound_hiwat"; "active_connections"; "active_users"; "http_health_rtt_ms";
   "client_rtt_avg_ms"; "client_rtt_max_ms"].
Definition gauge_names_after : list string :=
  ["active_workers"; "total_workers"; "current_queue_depth"; "worker_utilization_pct"].

Definition timing_to_json (ct : CommandTimings) : string :=
  "{" ++ member "type" (Z.of_nat (ct_type ct)) ++ "," ++ quoted "name" ++ ":" ++ quoted (ct_name ct) ++ "," ++
  member "avg_us" (ct_avg_us ct) ++ "," ++ member "max_us" (ct_max_us ct) ++ "," ++
  member "count" (ct_count ct) ++ "}".

Definition snapshot_to_json (s : MetricsSnapshot) : string :=
  "{" ++ quoted "version" ++ ":1," ++ member "ts" (timestamp_sec s) ++ "," ++ quoted "counters" ++ ":{" ++
  members (snap_counters s) counter_names ++ "}," ++ quoted "gauges" ++ ":{" ++
  members (snap_gauges s) gauge_names_before ++ "," ++
  quoted "connections_by_port" ++ ":[" ++ numbers (snap_ports s) ++ "]," ++
  members (snap_gauges s) gauge_names_after ++ "}," ++ quoted "histograms" ++ ":{" ++
  quoted "outbound_tick_hist" ++ ":[" ++ numbers (outbound_tick_hist s) ++ "]}," ++
  quoted "command_timings" ++ ":[" ++ String.concat "," (map timing_to_json (command_timings s)) ++ "]}".

Definition timeseries_to_json (window : Z) (series : list MetricsSnapshot) : string :=
  "{" ++ quoted "version" ++ ":1," ++ member "window_sec" window ++ "," ++ quoted "samples" ++ ":[" ++
  String.concat "," (map snapshot_to_json series) ++ "]}".

Definition public_names : list (string * string) :=
  [("connections", "active_connections"); ("users", "active_users"); ("ping_ms", "client_rtt_avg_ms");
   ("ping_max_ms", "client_rtt_max_ms"); ("active_workers", "active_workers");
   ("total_workers", "total_workers"); ("worker_utilization_pct", "worker_utilization_pct");
   ("queue_depth", "current_queue_depth")].

Definition public_to_json (s : MetricsSnapshot) (commands_processed : Z) : string :=
  "{" ++ quoted "status" ++ ":" ++ quoted "ok" ++ "," ++
  String.concat "," (map (fun p => member p.1 (snap_gauges s p.2)) public_names) ++ "," ++
  member "commands_processed" commands_processed ++ "}".

(** ** Routes *)

(** What the handlers share. *)
Record World := mkWorld { counters : Counters; series : Ring }.

Definition set_counters (w : World) (c : Counters) : World := mkWorld c (series w).

(** [elapsed]: the milliseconds the handler measures; [now]: the clock in
    seconds. *)
Definition health (elapsed : Z) (w : World) : string * World :=
  ("{" ++ quoted "status" ++ ":" ++ quoted "ok" ++ "}",
   set_counters w (store http_health_rtt_ms elapsed (counters w))).

Definition metrics_snapshot (now elapsed : Z) (w : World) : string * World :=
  let '(snap, c) := capture_snapshot now (counters w) in
  (snapshot_to_json snap, set_counters w (store http_health_rtt_ms elapsed c)).

Definition metrics_timeseries (query : string) (elapsed : Z) (w : World) : string * World :=
  let window := parse_u32 query 60 in
  (timeseries_to_json window (timeseries (Z.to_nat window) (series w)),
   set_counters w (store http_health_rtt_ms elapsed (counters w))).

Definition metrics_public (now : Z) (w : World) : string * World :=
  let '(snap, c) := capture_snapshot now (counters w) in
  (public_to_json snap (scalar c commands_processed_total), set_counters w c).

(** ** The query *)

Lemma digit_range c d : digit c = Some d -> (0 <= d <= 9)%Z.
Proof.
  unfold digit. destruct (Z.leb_spec 48 (code c)), (Z.leb_spec (code c) 57); simpl; try done. intros [= <-]. lia.
Qed.

Lemma read_digits_ge s : forall acc, (0 <= acc)%Z -> (acc <= read_digits acc s)%Z.
Proof.
  induction s as [|c s IH]; intros acc Hacc; simpl; [lia|]. destruct (digit c) as [d|] eqn:E; [|lia].
  apply digit_range in E. specialize (IH (10 * acc + d)%Z ltac:(lia)). lia.
Qed.

Lemma parse_u32_loop_spec s : forall val, (0 <= val <= UINT32_MAX)%Z ->
  parse_u32_loop s val =
    if all_chars isdigit s && (read_digits val s <=? UINT32_MAX)%Z then Some (read_digits val s) else None.
Proof.
  induction s as [|c s IH]; intros val Hv; cbn [parse_u32_loop all_chars read_digits].
  { by rewrite (proj2 (Z.leb_le _ _)) by lia. }
  unfold isdigit at 1. destruct (digit c) as [d|] eqn:E; [|done]. pose proof (digit_range c d E) as Hd.
  rewrite (bool_decide_eq_true_2 (is_Some (Some d))) by done. cbn [andb]. unfold UINT32_MAX in *.
  assert (wrap64 (wrap64 (val * 10) + d) = 10 * val + d)%Z as ->.
  { unfold two64 in *. rewrite (wrap64_small (val * 10)) by (unfold two64; lia). rewrite wrap64_small by (unfold two64; lia). lia. }
  destruct (Z.ltb_spec 4294967295 (10 * val + d)) as [Hlt|Hge].
  - pose proof (read_digits_ge s (10 * val + d) ltac:(lia)).
    rewrite (proj2 (Z.leb_gt _ _)) by lia. by rewrite andb_false_r.
  - apply IH. lia.
Qed.

(** ** The documents, read back *)

Definition named (value : string -> Z) (names : list string) : list (string * doc) :=
  map (fun name => (name, DNum (value name))) names.

Definition timing_doc (ct : CommandTimings) : doc :=
  DObj [("type", DNum (Z.of_nat (ct_type ct))); ("name", DText (ct_name ct)); ("avg_us", DNum (ct_avg_us ct));
        ("max_us", DNum (ct_max_us ct)); ("count", DNum (ct_count ct))].

Definition snapshot_doc (s : MetricsSnapshot) : doc :=
  DObj [("version", DNum 1); ("ts", DNum (timestamp_sec s));
        ("counters", DObj (named (snap_counters s) counter_names));
        ("gauges", DObj (named (snap_gauges s) gauge_names_before ++
                         [("connections_by_port", DList (map DNum (snap_ports s)))] ++
                         named (snap_gauges s) gauge_names_after)%list);
        ("histograms", DObj [("outbound_tick_hist", DList (map DNum (outbound_tick_hist s)))]);
        ("command_timings", DList (map timing_doc (command_timings s)))].

Definition series_doc (window : Z) (series : list MetricsSnapshot) : doc :=
  DObj [("version", DNum 1); ("window_sec", DNum window); ("samples", DList (map snapshot_doc series))].

Definition public_doc (s : MetricsSnapshot) (commands_processed : Z) : doc :=
  DObj (("status", DText "ok") :: map (fun p => (p.1, DNum (snap_gauges s p.2))) public_names ++
        [("commands_processed", DNum commands_processed)])%list.

Lemma concat_app l1 l2 : l1 <> [] -> l2 <> [] ->
  String.concat "," (l1 ++ l2) = String.concat "," l1 ++ "," ++ String.concat "," l2.
Proof.
  intros H1 H2. induction l1 as [|x l1 IH]; [done|]. cbn [app]. rewrite !concat_cons, app_text_assoc.
  destruct l1 as [|y l1]; [by destruct l2|]. cbn [app] in *. rewrite (IH ltac:(done)). by rewrite app_text_assoc.
Qed.

Lemma show_members l :
  show (DObj l) = "{" ++ String.concat "," (map (fun m => quoted m.1 ++ ":" ++ show m.2) l) ++ "}".
Proof. done. Qed.

Lemma named_text f names :
  String.concat "," (map (fun m => quoted m.1 ++ ":" ++ show m.2) (named f names)) = members f names.
Proof. unfold named, members. by rewrite map_map. Qed.

Lemma numbers_text l : show (DList (map DNum l)) = "[" ++ numbers l ++ "]".
Proof. cbn [show]. by rewrite map_map. Qed.

Lemma timing_text ct : show (timing_doc ct) = timing_to_json ct.
Proof.
  unfold timing_doc, timing_to_json, member, num. rewrite show_members. cbn [map fst snd show].
  rewrite !concat_cons, !app_text_assoc. reflexivity.
Qed.

Lemma snapshot_text s : show (snapshot_doc s) = snapshot_to_json s.
Proof.
  unfold snapshot_doc, snapshot_to_json. rewrite show_members. cbn [map fst snd].
  rewrite !show_members. rewrite !map_app, !concat_app, !named_text by done.
  cbn [map fst snd]. rewrite !numbers_text. rewrite !concat_cons. unfold member, num. cbn [show].
  rewrite map_map. rewrite (map_ext _ _ timing_text). by rewrite !app_text_assoc.
Qed.

Lemma series_text window series : show (series_doc window series) = timeseries_to_json window series.
Proof.
  unfold series_doc, timeseries_to_json. rewrite show_members. cbn [map fst snd show].
  rewrite map_map, (map_ext _ _ snapshot_text). rewrite !concat_cons. unfold member, num. by rewrite !app_text_assoc.
Qed.

Lemma public_text s n : show (public_doc s n) = public_to_json s n.
Proof.
  unfold public_doc, public_to_json, public_names, member, num. rewrite show_members.
  cbn [map fst snd app show]. rewrite !concat_cons, !app_text_assoc. reflexivity.
Qed.

(** ** Values in range *)

Definition u64 (n : Z) : Prop := (0 <= n < two64)%Z.

Definition counters_ok (c : Counters) : Prop :=
  (forall k, u64 (scalar c k)) /\ Forall u64 (connections_by_port c) /\
  Forall u64 (outbound_msgs_per_tick_buckets c) /\ Forall u64 (cmd_exec_time_sum_us c) /\
  Forall u64 (cmd_exec_time_count c) /\ Forall u64 (cmd_exec_time_max_us c) /\
  length (cmd_exec_time_sum_us c) = kEnvelopeTypeSlots /\
  length (cmd_exec_time_count c) = kEnvelopeTypeSlots /\
  length (cmd_exec_time_max_us c) = kEnvelopeTypeSlots.

Definition timing_ok (ct : CommandTimings) : Prop :=
  ct_type ct < kEnvelopeTypeSlots /\ clean (ct_name ct) /\ u64 (ct_avg_us ct) /\ u64 (ct_max_us ct) /\
  u64 (ct_count ct).

Definition snapshot_ok (s : MetricsSnapshot) : Prop :=
  u64 (timestamp_sec s) /\ (forall n, u64 (snap_counters s n)) /\ (forall n, u64 (snap_gauges s n)) /\
  Forall u64 (snap_ports s) /\ Forall u64 (outbound_tick_hist s) /\ Forall timing_ok (command_timings s).

Lemma u64_div a b : u64 a -> (0 < b)%Z -> u64 (a / b)%Z.
Proof.
  unfold u64. intros Ha Hb. split; [apply Z.div_pos; lia|].
  apply Z.le_lt_trans with a; [|lia]. apply Z.div_le_upper_bound; [lia|]. nia.
Qed.

Lemma counters_store_ok k v c : counters_ok c -> u64 v -> counters_ok (store k v c).
Proof.
  intros (H1 & H2) Hv. split; [|exact H2]. intros k'. cbn [scalar store]. by destruct (decide (k' = k)).
Qed.

Lemma load_field_ok l c n : counters_ok c -> u64 (load_field l c n).
Proof. intros [Hc _]. unfold load_field. destruct (source l n); [apply Hc|done]. Qed.

Lemma type_name_clean i : clean (Envelope_Type_Name i).
Proof.
  unfold Envelope_Type_Name. destruct (List.find _ _) as [p|] eqn:E; [|done].
  apply find_some in E as [Hin _]. assert (Forall (fun p => clean p.2) type_names) as Hall.
  { repeat (constructor; [reflexivity|]). constructor. }
  rewrite List.Forall_forall in Hall. by apply Hall.
Qed.

Lemma timing_slot_ok c i ct :
  counters_ok c -> i < kEnvelopeTypeSlots -> timing_slot c i = Some ct -> timing_ok ct.
Proof.
  intros (_ & _ & _ & Hs & Hc & Hm & _) Hi E. unfold timing_slot in E.
  destruct (cmd_exec_time_count c !! i) as [n|] eqn:En; [|done].
  destruct (cmd_exec_time_sum_us c !! i) as [s|] eqn:Es; [|done].
  destruct (cmd_exec_time_max_us c !! i) as [m|] eqn:Em; [|done]. cbn [mbind option_bind] in E.
  destruct (Z.ltb_spec 0 n) as [H|]; [|done]. injection E as <-.
  pose proof (Forall_lookup_1 _ _ _ _ Hs Es) as H0. pose proof (Forall_lookup_1 _ _ _ _ Hc En) as H1.
  pose proof (Forall_lookup_1 _ _ _ _ Hm Em) as H2.
  exact (conj Hi (conj (type_name_clean i) (conj (u64_div s n H0 H) (conj H2 H1)))).
Qed.

Lemma omap_seq_forall {A} (P : A -> Prop) (f : nat -> option A) n :
  (forall i x, i < n -> f i = Some x -> P x) -> Forall P (omap f (seq 0 n)).
Proof.
  intros Hf. apply list.Forall_forall. intros x (i & Hi & E)%list_elem_of_omap.
  apply elem_of_seq in Hi. apply (Hf i); [lia|done].
Qed.

Lemma timings_ok c : counters_ok c -> Forall timing_ok (timings c).
Proof. intros Hc. apply omap_seq_forall. intros i ct. by apply timing_slot_ok. Qed.

Lemma capture_ok now c : counters_ok c -> u64 now ->
  snapshot_ok (capture_snapshot now c).1 /\ counters_ok (capture_snapshot now c).2.
Proof.
  intros Hc Hnow. pose proof Hc as (Hk & Hp & Ht & _). split.
  - unfold capture_snapshot. cbn [fst]. split_and!; cbn [timestamp_sec snap_counters snap_gauges snap_ports outbound_tick_hist command_timings]; try done.
    + intros n. by apply load_field_ok.
    + intros n. destruct (bool_decide _).
      { destruct (Z.ltb_spec 0 (scalar c client_rtt_count)); [|done]. by apply u64_div. }
      destruct (bool_decide _).
      { destruct (0 <? scalar c client_rtt_count)%Z; rewrite ?store_ne by done; apply Hk. }
      destruct (bool_decide _); [|by apply load_field_ok].
      destruct (Z.ltb_spec 0 (scalar c total_workers)); [|done]. apply u64_div; [apply wrap64_range|done].
    + by apply timings_ok.
  - unfold capture_snapshot. cbn [snd]. apply counters_store_ok; [|done].
    destruct (0 <? scalar c client_rtt_count)%Z; [|done]. by repeat apply counters_store_ok.
Qed.

Lemma good_nums l : Forall u64 l -> good (DList (map DNum l)).
Proof. induction 1; [done|]. by split. Qed.

Lemma good_members l : Forall (fun m => clean m.1 /\ good m.2) l -> good (DObj l).
Proof. induction 1; [done|]. by split. Qed.

Lemma good_member n d l : clean n -> good d -> good (DObj l) -> good (DObj ((n, d) :: l)).
Proof. intros Hn Hd Hl. split; [by split|exact Hl]. Qed.

Lemma good_items l : Forall good l -> good (DList l).
Proof. induction 1; [done|]. by split. Qed.

Lemma named_good f names :
  (forall n, u64 (f n)) -> Forall clean names -> Forall (fun m => clean m.1 /\ good m.2) (named f names).
Proof. intros Hf. induction 1; [constructor|]. constructor; [|done]. split; [done|apply Hf]. Qed.

Lemma timing_good ct : timing_ok ct -> good (timing_doc ct).
Proof.
  intros (H1 & H2 & H3 & H4 & H5). unfold kEnvelopeTypeSlots in H1. unfold timing_doc.
  apply good_member; [reflexivity|cbn; unfold two64; lia|].
  apply good_member; [reflexivity|exact H2|]. apply good_member; [reflexivity|exact H3|].
  apply good_member; [reflexivity|exact H4|]. apply good_member; [reflexivity|exact H5|done].
Qed.

Lemma snapshot_good s : snapshot_ok s -> good (snapshot_doc s).
Proof.
  intros (H1 & H2 & H3 & H4 & H5 & H6).
  assert (Forall clean counter_names) by (repeat (constructor; [reflexivity|]); constructor).
  assert (Forall clean gauge_names_before) by (repeat (constructor; [reflexivity|]); constructor).
  assert (Forall clean gauge_names_after) by (repeat (constructor; [reflexivity|]); constructor).
  unfold snapshot_doc. apply good_member; [reflexivity|done|]. apply good_member; [reflexivity|exact H1|].
  apply good_member; [reflexivity|by apply good_members, named_good|].
  apply good_member; [reflexivity| |].
  { apply good_members. rewrite !Forall_app. split_and!; [by apply named_good| |by apply named_good].
    constructor; [|constructor]. split; [reflexivity|by apply good_nums]. }
  apply good_member; [reflexivity|by apply good_member; [reflexivity|by apply good_nums|]|].
  apply good_member; [reflexivity| |done].
  apply good_items, List.Forall_map. eapply list.Forall_impl; [exact H6|]. apply timing_good.
Qed.

Lemma parse_u32_spec s fallback :
  parse_u32 s fallback =
    if negb (bool_decide (s = "")) && all_chars isdigit s && (read_digits 0 s <=? UINT32_MAX)%Z
    then read_digits 0 s else fallback.
Proof.
  unfold parse_u32. destruct (bool_decide (s = "")); [done|]. cbn [negb andb].
  rewrite parse_u32_loop_spec by done. by destruct (_ && _).
Qed.

Lemma parse_u32_range s fallback : (0 <= fallback <= UINT32_MAX)%Z -> (0 <= parse_u32 s fallback <= UINT32_MAX)%Z.
Proof.
  intros Hf. rewrite parse_u32_spec. destruct (_ && _ && _) eqn:E; [|done].
  apply andb_prop in E as [_ E%Z.leb_le]. split; [|done]. by apply read_digits_ge.
Qed.

(** ** What the documents report

    Each name with the counter it stands for, and the derived figures. *)

(** The mean, rounded down; of nothing, 0. *)
Definition mean (total count : Z) : Z := if (count =? 0)%Z then 0%Z else (total / count)%Z.

(** How many percent of the workers are busy, rounded down; the product is a
    [uint64_t]. *)
Definition busy_percent (active total : Z) : Z :=
  if (total =? 0)%Z then 0%Z else (wrap64 (active * 100) / total)%Z.

Section Report.
Variable c : Counters.

Definition entry (name : string) (k : counter) : string * doc := (name, DNum (scalar c k)).

Definition counters_report : doc := DObj
  [entry "inbound_total" inbound_msgs_total; entry "outbound_total" outbound_msgs_total;
   entry "parse_fail" parse_fail_total; entry "auth_fail" auth_fail_total;
   entry "membership_fail" membership_fail_total; entry "payload_parse_total" payload_parse_total;
   entry "payload_parse_fail_total" payload_parse_fail_total;
   entry "parsed_payload_violation_total" parsed_payload_violation_total;
   entry "registry_view_access_total" registry_view_access_total; entry "registry_miss_total" registry_miss_total;
   entry "registry_copy_elim_total" registry_copy_eliminated_total;
   entry "fanout_sub_snapshot_total" fanout_subscriber_snapshot_total;
   entry "fanout_payload_shared_total" fanout_payload_shared_total;
   entry "per_conn_enqueued_total" per_conn_queue_enqueued_total;
   entry "per_conn_dropped_low_total" per_conn_queue_dropped_low_total;
   entry "per_conn_overflow_total" per_conn_queue_overflow_total;
   entry "slow_connection_dropped_total" slow_connection_dropped_total;
   entry "outbound_flush_total" outbound_flush_total; entry "outbound_flush_empty_total" outbound_flush_empty_total;
   entry "outbound_flush_send_fail_total" outbound_flush_send_fail_total;
   entry "outbound_backpressured_total" outbound_backpressured_total;
   entry "dropped_in" dropped_inbound_total; entry "dropped_in_low" dropped_inbound_low_overflow;
   entry "dropped_in_high" dropped_inbound_high_overflow;
   entry "evicted_in_low_for_high" evicted_inbound_low_for_high;
   entry "dropped_out" dropped_outbound_total; entry "dropped_out_low" dropped_outbound_overflow_low_pri;
   entry "dropped_out_high" dropped_outbound_overflow_high_pri;
   entry "outbound_backpressure" outbound_backpressure_total].

Definition rtt_mean : Z := mean (scalar c client_rtt_sum_ms) (scalar c client_rtt_count).
Definition busy : Z := busy_percent (scalar c active_workers) (scalar c total_workers).

Definition gauges_report : doc := DObj
  [entry "event_hiwat" event_queue_highwater; entry "outbound_hiwat" outbound_queue_highwater;
   entry "active_connections" active_connections; entry "active_users" active_users;
   entry "http_health_rtt_ms" http_health_rtt_ms; ("client_rtt_avg_ms", DNum rtt_mean);
   entry "client_rtt_max_ms" client_rtt_max_ms;
   ("connections_by_port", DList (map DNum (connections_by_port c)));
   entry "active_workers" active_workers; entry "total_workers" total_workers;
   entry "current_queue_depth" current_queue_depth; ("worker_utilization_pct", DNum busy)].

(** The line of a type of command that was run at least once. *)
Definition command_report (i : nat) : option doc :=
  let total := nth i (cmd_exec_time_sum_us c) 0%Z in
  let count := nth i (cmd_exec_time_count c) 0%Z in
  if (count =? 0)%Z then None
  else Some (DObj [("type", DNum (Z.of_nat i)); ("name", DText (Envelope_Type_Name i));
                   ("avg_us", DNum (mean total count));
                   ("max_us", DNum (nth i (cmd_exec_time_max_us c) 0%Z)); ("count", DNum count)]).

Definition snapshot_report (now : Z) : doc := DObj
  [("version", DNum 1); ("ts", DNum now); ("counters", counters_report); ("gauges", gauges_report);
   ("histograms", DObj [("outbound_tick_hist", DList (map DNum (outbound_msgs_per_tick_buckets c)))]);
   ("command_timings", DList (omap command_report (seq 0 128)))].

Definition public_report : doc := DObj
  [("status", DText "ok"); entry "connections" active_connections; entry "users" active_users;
   ("ping_ms", DNum rtt_mean); entry "ping_max_ms" client_rtt_max_ms; entry "active_workers" active_workers;
   entry "total_workers" total_workers; ("worker_utilization_pct", DNum busy);
   entry "queue_depth" current_queue_depth; entry "commands_processed" commands_processed_total].

End Report.

Definition window_of (query : string) : Z :=
  if negb (bool_decide (query = "")) && all_chars isdigit query && (read_digits 0 query <=? 4294967295)%Z
  then read_digits 0 query else 60%Z.

Lemma mean_positive total count : u64 count ->
  (if (0 <? count)%Z then (total / count)%Z else 0%Z) = mean total count.
Proof.
  unfold u64, mean. intros Hc. destruct (Z.ltb_spec 0 count), (Z.eqb_spec count 0); try lia; done.
Qed.

Lemma command_report_slot c i : counters_ok c -> i < 128 ->
  timing_doc <$> timing_slot c i = command_report c i.
Proof.
  intros (_ & _ & _ & _ & Hc & _ & L1 & L2 & L3) Hi. unfold timing_slot, command_report.
  assert (forall l, length l = kEnvelopeTypeSlots -> l !! i = Some (nth i l 0%Z)) as Hn.
  { intros l Hl. destruct (lookup_lt_is_Some_2 l i) as [x Hx]; [by rewrite Hl|].
    rewrite Hx. f_equal. symmetry. by apply nth_lookup_Some. }
  pose proof (Forall_lookup_1 _ _ _ _ Hc (Hn _ L2)) as Hu.
  rewrite (Hn _ L1), (Hn _ L2), (Hn _ L3). cbn [mbind option_bind].
  set (count := nth i (cmd_exec_time_count c) 0%Z) in *. unfold mean.
  destruct (Z.ltb_spec 0 count), (Z.eqb_spec count 0); unfold u64 in Hu; try lia; done.
Qed.

Lemma omap_fmap_ext {A B C} (f : A -> option B) (g : B -> C) (h : A -> option C) l :
  (forall x, x ∈ l -> g <$> f x = h x) -> map g (omap f l) = omap h l.
Proof.
  induction l as [|x l IH]; intros Hx; [done|]. csimpl. rewrite <- Hx by by left.
  destruct (f x); simpl; [f_equal|]; apply IH; intros; apply Hx; by right.
Qed.

Lemma command_reports c : counters_ok c -> map timing_doc (timings c) = omap (command_report c) (seq 0 128).
Proof.
  intros Hc. apply omap_fmap_ext. intros i [_ Hi]%elem_of_seq. by apply command_report_slot.
Qed.

(** The derived figures of a snapshot. *)
Lemma capture_figures now c : counters_ok c ->
  let gauge := snap_gauges (capture_snapshot now c).1 in
  gauge "client_rtt_avg_ms" = rtt_mean c /\ gauge "client_rtt_max_ms" = scalar c client_rtt_max_ms /\
  gauge "worker_utilization_pct" = busy c.
Proof.
  intros [Hk _]. destruct (capture_rtt now c) as (E1 & E2 & _). cbv zeta. rewrite E1, E2.
  split; [by rewrite mean_positive|]. split; [done|]. by apply mean_positive.
Qed.

(** The documents of a snapshot are the reports. *)
Lemma capture_report now c : counters_ok c ->
  snapshot_doc (capture_snapshot now c).1 = snapshot_report c now.
Proof.
  intros Hc. destruct (capture_figures now c Hc) as (E1 & E2 & E3).
  unfold snapshot_report, gauges_report, entry. rewrite <- E1, <- E2, <- E3, <- (command_reports c Hc).
  reflexivity.
Qed.

Lemma public_figures now c : counters_ok c ->
  let '(snap, c') := capture_snapshot now c in
  public_doc snap (scalar c' commands_processed_total) = public_report c.
Proof.
  intros Hc. destruct (capture_figures now c Hc) as (E1 & E2 & E3).
  assert (scalar (capture_snapshot now c).2 commands_processed_total = scalar c commands_processed_total) as E4.
  { unfold capture_snapshot. cbn [snd]. rewrite store_ne by done. by destruct (0 <? scalar c client_rtt_count)%Z. }
  destruct (capture_snapshot now c) as [snap c'] eqn:E. cbn [fst snd] in *. unfold public_report, entry.
  rewrite <- E1, <- E2, <- E3, <- E4. assert (snap = (capture_snapshot now c).1) as -> by by rewrite E. reflexivity.
Qed.

(** The samples the thread has taken, each with its time and the counters then. *)
Definition sampled (hist : list (Z * Counters)) : Ring :=
  foldl (fun r p => tick (capture_snapshot p.1 p.2).1 r) (start_timeseries no_ring) hist.

Lemma sampled_series hist n :
  timeseries n (sampled hist) =
  map (fun p => (capture_snapshot p.1 p.2).1) (drop (length hist - Nat.min n 300) hist).
Proof.
  pose proof (timeseries_is_recent_history ((fun p => (capture_snapshot p.1 p.2).1) <$> hist) n) as Ht.
  rewrite foldl_fmap, length_fmap in Ht. unfold sampled. rewrite Ht. symmetry. apply fmap_drop.
Qed.

Lemma series_body hist query elapsed c :
  Forall (fun p => u64 p.1 /\ counters_ok p.2) hist ->
  let window := window_of query in
  let recent := drop (length hist - Nat.min (Z.to_nat window) 300) hist in
  read (metrics_timeseries query elapsed (mkWorld c (sampled hist))).1 =
  Some (DObj [("version", DNum 1); ("window_sec", DNum window);
              ("samples", DList (map (fun p => snapshot_report p.2 p.1) recent))]).
Proof.
  intros Hh window recent. unfold metrics_timeseries. cbn [series fst].
  assert (parse_u32 query 60 = window) as Hw by by rewrite parse_u32_spec.
  pose proof (parse_u32_range query 60 ltac:(done)) as Hp. rewrite Hw in *. rewrite sampled_series. fold recent.
  assert (Forall (fun p => u64 p.1 /\ counters_ok p.2) recent) as Hr by by apply Forall_drop.
  rewrite <- series_text. rewrite read_back.
  - unfold series_doc. rewrite map_map. do 7 f_equal. apply map_ext_in. intros p Hin.
    apply capture_report. by apply (proj1 (List.Forall_forall _ _) Hr p Hin).
  - unfold series_doc. apply good_member; [reflexivity|done|]. apply good_member; [reflexivity| |].
    { unfold UINT32_MAX in Hp. cbn [good]. unfold two64. lia. }
    apply good_member; [reflexivity| |done]. apply good_items. rewrite map_map. apply List.Forall_map.
    eapply list.Forall_impl; [exact Hr|]. intros p [H1 H2]. by apply snapshot_good, capture_ok.
Qed.

(** C38: what the control server reports.  Each endpoint answers with a JSON
    document that reads back as the figures it promises, for any counters of 64
    bits and any samples taken before.  [/metrics/snapshot] gives the counters
    and gauges of the moment under their names, the mean and the greatest
    round-trip time since the last snapshot, the share of busy workers, and a
    line with mean, maximum and count for every type of command that was run;
    [/metrics/timeseries] gives the last samples, oldest first, as many as the
    window asks for and at most 300, where the window is the query when it is a
    number of 32 bits and 60 otherwise; [/metrics/public] the public figures.
    The expected documents are written out above, independently of the tables
    the code loads and prints with. *)
Theorem control_bodies_are_json (c : Counters) (hist : list (Z * Counters)) (now elapsed : Z) (query : string)
    (Hc : counters_ok c) (Hnow : u64 now) (Hhist : Forall (fun p => u64 p.1 /\ counters_ok p.2) hist) :
  let w := mkWorld c (sampled hist) in
  read (health elapsed w).1 = Some (DObj [("status", DText "ok")]) /\
  read (metrics_snapshot now elapsed w).1 = Some (snapshot_report c now) /\
  read (metrics_timeseries query elapsed w).1 =
    (let window := window_of query in
     let recent := drop (length hist - Nat.min (Z.to_nat window) 300) hist in
     Some (DObj [("version", DNum 1); ("window_sec", DNum window);
                 ("samples", DList (map (fun p => snapshot_report p.2 p.1) recent))])) /\
  read (metrics_public now w).1 = Some (public_report c).
Proof.
  intros w. pose proof (capture_ok now _ Hc Hnow) as [Hs Hc'].
  unfold metrics_snapshot, metrics_timeseries, metrics_public. cbn [counters series w].
  pose proof (public_figures now c Hc) as Hpub. rewrite <- (capture_report now c Hc).
  destruct (capture_snapshot now c) as [snap c'] eqn:E. cbn [fst snd] in *. split_and!.
  - reflexivity.
  - rewrite <- snapshot_text. by apply read_back, snapshot_good.
  - exact (series_body hist query elapsed c Hhist).
  - rewrite <- public_text, Hpub. apply read_back. rewrite <- Hpub. destruct Hs as (_ & _ & Hg & _). destruct Hc' as [Hk _].
    unfold public_doc, public_names. cbn [map app fst snd].
    repeat first [done | apply good_member; [reflexivity|first [apply Hg|apply Hk|done]|]].
Qed.

Lemma control_bodies_are_json_witness :
  let c := store active_workers 3 (store total_workers 4 (foldr observe_client_rtt zero [10; 31]%Z)) in
  read (metrics_public 9 (mkWorld c (sampled []))).1 =
    Some (DObj [("status", DText "ok"); ("connections", DNum 0); ("users", DNum 0); ("ping_ms", DNum 20);
                ("ping_max_ms", DNum 31); ("active_workers", DNum 3); ("total_workers", DNum 4);
                ("worker_utilization_pct", DNum 75); ("queue_depth", DNum 0); ("commands_processed", DNum 0)]).
Proof.
  intros c. assert (counters_ok c) as Hc.
  { split; [by intros []|]. split_and!; try done; by apply Forall_replicate. }
  exact (proj2 (proj2 (proj2 (control_bodies_are_json c [] 9 0 "" Hc (conj (Pos2Z.is_nonneg 9) eq_refl)
    (List.Forall_nil _))))).
Defined.

(** ** The presence endpoints

    [TextWSServer::wire] of [net/transport/websocket/WebSocketTransport.cpp]
    answers with the counts of the application; [None]: no provider is set. *)

Definition presence_body (name : string) (provider : option Z) : string :=
  "{" ++ quoted "status" ++ ":" ++ quoted "ok" ++ "," ++ quoted name ++ ":" ++ num (default 0%Z provider) ++ "}".
Definition presence_online : option Z -> string := presence_body "online_users".
Definition presence_voice_active : option Z -> string := presence_body "active_webrtc_users".

Lemma presence_is_json (provider : option Z) :
  (forall n, provider = Some n -> u64 n) ->
  read (presence_online provider) = Some (DObj [("status", DText "ok"); ("online_users", DNum (default 0%Z provider))]) /\
  read (presence_voice_active provider) =
    Some (DObj [("status", DText "ok"); ("active_webrtc_users", DNum (default 0%Z provider))]).
Proof.
  intros Hp. assert (u64 (default 0%Z provider)) as Hn by (destruct provider as [n|]; [exact (Hp n eq_refl)|done]).
  assert (forall name, show (DObj [("status", DText "ok"); (name, DNum (default 0%Z provider))]) =
                       presence_body name provider) as Ht.
  { intros name. unfold presence_body, num. rewrite show_members. cbn [map fst snd show].
    by rewrite !concat_cons, !app_text_assoc. }
  unfold presence_online, presence_voice_active. rewrite <- !Ht. destruct Hn. split; apply read_back; cbn; by split_and!.
Qed.

End ControlHttp.
