(* ===== verification/EventLog.v ===== *)
(** * The event log

    [utils/EventLogger.h]: the asynchronous log of session, voice and command
    events, its rows in a CSV file and on the terminal, and its writer thread.
    The clock and the file system (whether the log file opens) are inputs. *)

From S2P Require Import Prelude.
From S2P Require Import CStrings.
From S2P Require Import Ids.
From S2P Require Import Messages.
From S2P Require Import Endpoints.
From S2P Require Import OriginPolicy.
From S2P Require Import EnvConfig.
From S2P Require Import ControlHttp.
From Stdlib Require Import Ascii.

Local Open Scope string_scope.

Module EventLog.

Inductive EventCategory :=
  | AUTH | SESSION | MESSAGE | VOICE | HUB | CHANNEL | USER | DB | COMMAND | SYSTEM | DEBUG.

(** [LogDest]: bit 0 is the terminal, bit 1 the file. *)
Inductive LogDest := TERMINAL | FILE | BOTH.
Definition dest_bits (d : LogDest) : Z := match d with TERMINAL => 1 | FILE => 2 | BOTH => 3 end.
Definition to_terminal (d : LogDest) : bool := negb (Z.land (dest_bits d) 1 =? 0)%Z.
Definition to_file (d : LogDest) : bool := negb (Z.land (dest_bits d) 2 =? 0)%Z.

Record LogEntry := mkEntry {
  timestamp : string; category : EventCategory; user_id : string; event : string; duration_ms : Z;
  details : string; dest : LogDest
}.

Definition cat_str (c : EventCategory) : string :=
  match c with
  | AUTH => "AUTH" | SESSION => "SESSION" | MESSAGE => "MESSAGE" | VOICE => "VOICE" | HUB => "HUB"
  | CHANNEL => "CHANNEL" | USER => "USER" | DB => "DB" | COMMAND => "COMMAND" | SYSTEM => "SYSTEM"
  | DEBUG => "DEBUG"
  end.

Definition ansi (code : string) : string := String (chr 27) ("[" ++ code ++ "m").
Definition cat_color (c : EventCategory) : string :=
  match c with
  | AUTH => ansi "36"
  | SESSION => ansi "35"
  | MESSAGE => ansi "34"
  | VOICE => ansi "33"
  | HUB | CHANNEL | USER => ansi "32"
  | DB | DEBUG => ansi "90"
  | COMMAND => ansi "94"
  | SYSTEM => ansi "97"
  end.

(** ** Rows *)

Definition quote : ascii := OriginPolicy.quote.
Definition newline : ascii := chr 10.

(** The loop of [escape]: the text so far with its quotes doubled, and whether
    it needs quoting. *)
Fixpoint escape_loop (s : string) : string * bool :=
  match s with
  | EmptyString => ("", false)
  | String c s' =>
    let '(r, q) := escape_loop s' in
    if bool_decide (c = quote) then (String quote (String quote r), true)
    else if bool_decide (c = ","%char) || bool_decide (c = newline) then (String c r, true)
    else (String c r, q)
  end.
Definition escape (s : string) : string :=
  let '(r, q) := escape_loop s in if q then String quote (r ++ String quote "") else r.

(** [<<] of an [int64_t]. *)
Definition signed_text (n : Z) : string :=
  if (n <? 0)%Z then "-" ++ std_to_string (- n) else std_to_string n.

Definition file_row (e : LogEntry) : string :=
  timestamp e ++ "," ++ cat_str (category e) ++ "," ++ user_id e ++ "," ++ event e ++ "," ++
  signed_text (duration_ms e) ++ "," ++ escape (details e) ++ String newline "".

Definition terminal_line (e : LogEntry) : string :=
  ansi "90" ++ "[" ++ timestamp e ++ "]" ++ ansi "0" ++ " " ++ cat_color (category e) ++ "[" ++
  cat_str (category e) ++ "]" ++ ansi "0" ++ " " ++
  (if bool_decide (user_id e = "") then "" else ansi "93" ++ "<" ++ user_id e ++ ">" ++ ansi "0" ++ " ") ++
  event e ++
  (if (0 <? duration_ms e)%Z then " " ++ ansi "90" ++ "(" ++ signed_text (duration_ms e) ++ "ms)" ++ ansi "0" else "") ++
  (if bool_decide (details e = "") then "" else " " ++ details e).

Definition header : string := "timestamp,category,user_id,event,duration_ms,details" ++ String newline "".

(** ** The logger *)

(** The log's text, when its file is open, and the terminal's lines. *)
Record Sink := mkSink { file : option string; terminal : list string }.

Definition write (e : LogEntry) (s : Sink) : Sink :=
  let s := if to_terminal (dest e) then mkSink (file s) (terminal s ++ [terminal_line e])%list else s in
  if to_file (dest e)
  then mkSink (match file s with Some text => Some (text ++ file_row e) | None => None end) (terminal s)
  else s.

(** Where the writer thread is: in its loop, draining, or gone; [NoThread]
    before [init]. *)
Inductive phase := NoThread | Looping | Draining | Exited.
#[global] Instance phase_eq_dec : EqDecision phase.
Proof. solve_decision. Defined.

Record t := mk {
  queue_ : Tsq.t LogEntry; initialized_ : bool; stop_requested : bool; thread : phase; sink : Sink
}.
Definition create : t := mk Tsq.create false false NoThread (mkSink None []).

(** [ts]: what [timestamp] gives. *)
Definition log (ts : string) (c : EventCategory) (user ev : string) (ms : Z) (d : string) (to : LogDest) (l : t) : t :=
  mk (Tsq.push (queue_ l) (mkEntry ts c user ev ms d to)) (initialized_ l) (stop_requested l) (thread l) (sink l).

(** [opened]: the path of the log file, if its directory and the file could be
    made. *)
Definition init (opened : option string) (ts : string) (l : t) : t :=
  if initialized_ l then l
  else match opened with
       | None => l
       | Some path =>
         log ts SYSTEM "" "SERVER_START" 0 ("Log file: " ++ path) FILE
           (mk (queue_ l) true false Looping (mkSink (Some header) (terminal (sink l))))
       end.

Definition auth_failure ts (user reason : string) (ms : Z) : t -> t := log ts AUTH user "AUTH_FAILURE" ms reason FILE.
Definition session_connect ts (user ip : string) : t -> t := log ts SESSION user "CONNECT" 0 ip FILE.
Definition session_disconnect ts (user reason : string) : t -> t := log ts SESSION user "DISCONNECT" 0 reason FILE.
Definition message_sent ts (user ch : string) (ms : Z) : t -> t :=
  log ts MESSAGE user "MSG_SENT" ms ("channel:" ++ ch) FILE.
Definition voice_join ts (user ch source : string) : t -> t :=
  log ts VOICE user "VOICE_JOIN" 0
    ("channel:" ++ ch ++ (if bool_decide (source = "") then "" else " source:" ++ source)) FILE.
Definition voice_leave ts (user ch : string) : t -> t := log ts VOICE user "VOICE_LEAVE" 0 ("channel:" ++ ch) FILE.
Definition db_query ts (op : string) (ms : Z) (d : string) : t -> t := log ts DB "" op ms d FILE.
Definition debug ts (component msg : string) : t -> t := log ts DEBUG "" component 0 msg TERMINAL.

(** One turn of [run_writer]; [None]: the thread waits, or there is none. *)
Definition writer_turn (l : t) : option t :=
  match thread l with
  | NoThread | Exited => None
  | Looping =>
    if stop_requested l then Some (mk (queue_ l) (initialized_ l) true Draining (sink l))
    else match Tsq.pop (queue_ l) with
         | (Tsq.Blocked, _) => None
         | (Tsq.Closed, q) => Some (mk q (initialized_ l) false Draining (sink l))
         | (Tsq.Item e, q) => Some (mk q (initialized_ l) false Looping (write e (sink l)))
         end
  | Draining =>
    match Tsq.try_pop (queue_ l) with
    | (Some e, q) => Some (mk q (initialized_ l) (stop_requested l) Draining (write e (sink l)))
    | (None, q) => Some (mk q (initialized_ l) (stop_requested l) Exited (sink l))
    end
  end.

(** [shutdown] of an open log up to the join: the last entry, the queue's stop
    and the stop request; [close] is what follows the join. *)
Definition shutdown_queue (ts : string) (l : t) : t :=
  let l := log ts SYSTEM "" "SERVER_STOP" 0 "" FILE l in
  mk (Tsq.stop (queue_ l)) (initialized_ l) (stop_requested l) (thread l) (sink l).
Definition request_stop (l : t) : t := mk (queue_ l) (initialized_ l) true (thread l) (sink l).
Definition close (l : t) : t :=
  mk (queue_ l) false (stop_requested l) (thread l) (mkSink None (terminal (sink l))).


(** ** Reading the file

    A reader of comma-separated values after RFC 4180, with a newline alone at
    the end of every row: a field is in quotes with its quotes doubled, or holds
    no quote, comma, newline or carriage return. *)

Definition return_ : ascii := chr 13.

Inductive mode := AtStart | Plain | Quoted | Closing.

Fixpoint csv (m : mode) (field : string) (row : list string) (s : string) : option (list (list string)) :=
  match s with
  | EmptyString => match m, row with AtStart, [] => Some [] | _, _ => None end
  | String c s' =>
    match m with
    | Quoted =>
      if bool_decide (c = quote) then csv Closing field row s' else csv Quoted (field ++ String c "") row s'
    | _ =>
      if bool_decide (c = ","%char) then csv AtStart "" (row ++ [field])%list s'
      else if bool_decide (c = newline) then rows ← csv AtStart "" [] s'; Some ((row ++ [field])%list :: rows)
      else if bool_decide (c = return_) then None
      else match m with
           | Closing => if bool_decide (c = quote) then csv Quoted (field ++ String quote "") row s' else None
           | AtStart => if bool_decide (c = quote) then csv Quoted "" row s' else csv Plain (String c "") row s'
           | _ => if bool_decide (c = quote) then None else csv Plain (field ++ String c "") row s'
           end
    end
  end.
Definition read_csv (text : string) : option (list (list string)) := csv AtStart "" [] text.

Definition plain_char (c : ascii) : bool :=
  negb (bool_decide (c = quote)) && negb (bool_decide (c = ","%char)) && negb (bool_decide (c = newline)) &&
  negb (bool_decide (c = return_)).
Definition plain (s : string) : Prop := all_chars plain_char s = true.

Lemma plain_char_inv c : plain_char c = true -> c <> quote /\ c <> ","%char /\ c <> newline /\ c <> return_.
Proof.
  unfold plain_char. intros [[[?%negb_true_iff%bool_decide_eq_false_1 ?%negb_true_iff%bool_decide_eq_false_1]%andb_prop
    ?%negb_true_iff%bool_decide_eq_false_1]%andb_prop ?%negb_true_iff%bool_decide_eq_false_1]%andb_prop. done.
Qed.

Lemma snoc_app f c s : (f ++ String c "") ++ s = f ++ String c s.
Proof. by rewrite app_text_assoc. Qed.

Lemma csv_plain s : forall field row rest,
  plain s -> csv Plain field row (s ++ rest) = csv Plain (field ++ s) row rest.
Proof.
  induction s as [|c s IH]; intros field row rest Hs; [by rewrite JsonText.app_nil_text|].
  apply andb_prop in Hs as [Hc Hs]. apply plain_char_inv in Hc as (H1 & H2 & H3 & H4).
  rewrite app_cons. cbn [csv]. rewrite (bool_decide_eq_false_2 (c = ","%char)), (bool_decide_eq_false_2 (c = newline)),
    (bool_decide_eq_false_2 (c = return_)), (bool_decide_eq_false_2 (c = quote)) by done.
  rewrite IH by done. by rewrite snoc_app.
Qed.

(** A plain field and the character after it. *)
Lemma csv_field s row d rest :
  plain s -> d = ","%char \/ d = newline ->
  csv AtStart "" row (s ++ String d rest) =
    if bool_decide (d = ","%char) then csv AtStart "" (row ++ [s])%list rest
    else rows ← csv AtStart "" [] rest; Some ((row ++ [s])%list :: rows).
Proof.
  intros Hs Hd.
  assert (forall m f, m = Plain \/ m = AtStart -> csv m f row (String d rest) =
    if bool_decide (d = ","%char) then csv AtStart "" (row ++ [f])%list rest
    else rows ← csv AtStart "" [] rest; Some ((row ++ [f])%list :: rows)) as Hend.
  { intros m f Hm. destruct Hd as [->| ->]; by destruct Hm as [->| ->]. }
  destruct s as [|c s]; [apply Hend; by right|]. apply andb_prop in Hs as [Hc Hs].
  apply plain_char_inv in Hc as (H1 & H2 & H3 & H4). rewrite app_cons. cbn [csv].
  rewrite (bool_decide_eq_false_2 (c = ","%char)), (bool_decide_eq_false_2 (c = newline)),
    (bool_decide_eq_false_2 (c = return_)), (bool_decide_eq_false_2 (c = quote)) by done.
  rewrite csv_plain by done. rewrite (Hend Plain) by (by left). done.
Qed.

Lemma csv_quoted s : forall field row rest,
  csv Quoted field row ((escape_loop s).1 ++ String quote rest) = csv Closing (field ++ s) row rest.
Proof.
  induction s as [|c s IH]; intros field row rest; [by rewrite JsonText.app_nil_text|].
  cbn [escape_loop]. destruct (escape_loop s) as [r q]. cbn [fst] in IH.
  destruct (bool_decide (c = quote)) eqn:E.
  - apply bool_decide_eq_true_1 in E as ->. cbn [fst]. rewrite !app_cons. cbn [csv].
    rewrite (bool_decide_eq_true_2 (quote = quote)) by done. cbn [csv].
    rewrite IH. by rewrite snoc_app.
  - assert (forall b : bool, csv Quoted field row ((String c r, b).1 ++ String quote rest) = csv Closing (field ++ String c s) row rest) as Hc.
    { intros b. cbn [fst]. rewrite app_cons. cbn [csv]. rewrite E, IH. by rewrite snoc_app. }
    destruct (_ || _); apply Hc.
Qed.

(** The text has none of the characters. *)
Definition without (cs : list ascii) (s : string) : bool :=
  all_chars (fun c => negb (bool_decide (c ∈ cs))) s.

(** A carriage return is only readable next to a character that makes [escape]
    quote the text: [escape] does not look for it. *)
Definition details_ok (s : string) : Prop :=
  without [return_] s = true \/ without [quote; ","%char; newline] s = false.

Lemma without_cons cs c s : without cs (String c s) = negb (bool_decide (c ∈ cs)) && without cs s.
Proof. done. Qed.

Lemma escape_quotes s : (escape_loop s).2 = negb (without [quote; ","%char; newline] s).
Proof.
  induction s as [|c s IH]; [done|]. cbn [escape_loop]. rewrite without_cons.
  destruct (escape_loop s) as [r q]. cbn [snd] in IH. subst q.
  destruct (bool_decide (c = quote)) eqn:E1; [|destruct (bool_decide (c = ","%char) || _) eqn:E2].
  - apply bool_decide_eq_true_1 in E1 as ->. by rewrite bool_decide_eq_true_2 by set_solver.
  - rewrite bool_decide_eq_true_2; [done|]. apply orb_true_iff in E2 as [E2|E2];
      apply bool_decide_eq_true_1 in E2 as ->; set_solver.
  - apply orb_false_iff in E2 as [H2%bool_decide_eq_false_1 H3%bool_decide_eq_false_1].
    apply bool_decide_eq_false_1 in E1. by rewrite bool_decide_eq_false_2 by set_solver.
Qed.

Lemma escape_plain s :
  (escape_loop s).2 = false -> (escape_loop s).1 = s /\ (without [return_] s = true -> plain s).
Proof.
  induction s as [|c s IH]; [done|]. cbn [escape_loop]. destruct (escape_loop s) as [r q]. cbn [fst snd] in *.
  destruct (bool_decide (c = quote)) eqn:E1; [done|]. destruct (bool_decide (c = ","%char)) eqn:E2; [done|].
  destruct (bool_decide (c = newline)) eqn:E3; [done|]. cbn [orb fst snd]. intros Hq. destruct (IH Hq) as [-> Hp].
  split; [done|]. rewrite without_cons. intros [Hc Hs]%andb_prop. unfold plain. cbn [all_chars].
  rewrite (Hp Hs). unfold plain_char. rewrite E1, E2, E3.
  apply negb_true_iff, bool_decide_eq_false_1 in Hc. by rewrite bool_decide_eq_false_2 by set_solver.
Qed.

Lemma csv_details s row rest : details_ok s ->
  csv AtStart "" row (escape s ++ String newline rest) = rows ← csv AtStart "" [] rest; Some ((row ++ [s])%list :: rows).
Proof.
  intros Hok. unfold escape. pose proof (escape_plain s) as Hp. pose proof (escape_quotes s) as He.
  pose proof (csv_quoted s "" row (String newline rest)) as Hq.
  destruct (escape_loop s) as [r q]. cbn [fst snd] in *. destruct q.
  - rewrite app_cons, snoc_app. cbn [csv]. by rewrite Hq.
  - destruct (Hp eq_refl) as [-> Hs]. destruct Hok as [Hr|Hr]; [|by rewrite Hr in He]. by rewrite csv_field by auto.
Qed.

(** ** Rows *)

Definition fields (e : LogEntry) : list string :=
  [timestamp e; cat_str (category e); user_id e; event e; signed_text (duration_ms e); details e].

(** The fields that are written as they are hold no separators, and the
    details no carriage return that [escape] does not see. *)
Definition row_ok (e : LogEntry) : Prop :=
  plain (timestamp e) /\ plain (user_id e) /\ plain (event e) /\ (- two63 <= duration_ms e < two63)%Z /\
  details_ok (details e).

Lemma digits_plain s : all_chars isdigit s = true -> plain s.
Proof.
  apply PublicEndpointConfig.all_chars_impl. intros c. destruct c as [[][][][][][][][]]; by vm_compute.
Qed.

Lemma signed_plain n : (- two63 <= n < two63)%Z -> plain (signed_text n).
Proof.
  unfold two63. intros Hn. unfold signed_text. destruct (Z.ltb_spec n 0).
  - destruct (JsonText.number_text (- n)) as [Hd _]; [unfold two64; lia|]. apply digits_plain in Hd.
    unfold plain in *. by cbn.
  - destruct (JsonText.number_text n) as [Hd _]; [unfold two64; lia|]. by apply digits_plain.
Qed.

Lemma csv_row e rest : row_ok e ->
  read_csv (file_row e ++ rest) = rows ← read_csv rest; Some (fields e :: rows).
Proof.
  intros (H1 & H2 & H3 & H4 & H5). unfold read_csv, file_row. rewrite !app_text_assoc, !JsonText.one_app.
  assert (plain (cat_str (category e))) as Hc by by destruct (category e).
  rewrite csv_field by auto. rewrite (bool_decide_eq_true_2 (","%char = ","%char)) by done.
  rewrite csv_field by auto. rewrite (bool_decide_eq_true_2 (","%char = ","%char)) by done.
  rewrite csv_field by auto. rewrite (bool_decide_eq_true_2 (","%char = ","%char)) by done.
  rewrite csv_field by auto. rewrite (bool_decide_eq_true_2 (","%char = ","%char)) by done.
  rewrite csv_field by (auto using signed_plain). rewrite (bool_decide_eq_true_2 (","%char = ","%char)) by done.
  by rewrite csv_details.
Qed.

Definition write_all (es : list LogEntry) (s : Sink) : Sink := foldl (fun s e => write e s) s es.

Lemma write_all_snoc es e s : write_all (es ++ [e]) s = write e (write_all es s).
Proof. unfold write_all. by rewrite foldl_app. Qed.

Definition filed (es : list LogEntry) : list LogEntry := filter (fun e => to_file (dest e) = true) es.

Lemma write_all_file es : forall text lines,
  file (write_all es (mkSink (Some text) lines)) =
  Some (text ++ foldr (fun e rest => file_row e ++ rest) "" (filed es)).
Proof.
  induction es as [|e es IH]; intros text lines; [cbn; by rewrite JsonText.app_nil_text|].
  change (write_all (e :: es) (mkSink (Some text) lines)) with (write_all es (write e (mkSink (Some text) lines))).
  unfold filed. rewrite filter_cons. unfold write. destruct (dest e); simpl; rewrite IH; try done;
    cbn [foldr]; by rewrite app_text_assoc.
Qed.

Lemma csv_rows es : Forall row_ok es ->
  read_csv (foldr (fun e rest => file_row e ++ rest) "" es) = Some (fields <$> es).
Proof. induction 1 as [|e es He _ IH]; [done|]. cbn [foldr]. rewrite csv_row by done. by rewrite IH. Qed.

(** C37: the event log's file can be read back.  Take a freshly opened log and
    any entries written to it, of which those sent to the file have a
    timestamp, a user id and an event without quotes, commas, newlines and
    carriage returns (these three are written as they are), a 64-bit duration,
    and details with no carriage return unless they also hold a quote, a comma
    or a newline (the characters [escape] looks for).  Reading the file as
    comma-separated values then gives the header and one row per entry sent to
    the file, in order, with exactly its fields, whatever quotes, commas and
    newlines the details hold.  [unescaped_user_splits] and
    [lone_return_unreadable] show that the conditions are needed. *)
Theorem event_log_round_trip (es : list LogEntry) (lines : list string) (Hes : Forall row_ok (filed es)) :
  exists text, file (write_all es (mkSink (Some header) lines)) = Some text /\
    read_csv text =
      Some (["timestamp"; "category"; "user_id"; "event"; "duration_ms"; "details"] :: (fields <$> filed es)).
Proof.
  rewrite write_all_file. eexists. split; [reflexivity|]. pose proof (csv_rows _ Hes) as Hr.
  revert Hr. generalize (foldr (fun e text => file_row e ++ text) "" (filed es)). intros text Hr.
  unfold read_csv in *. unfold header. rewrite app_text_assoc, JsonText.one_app.
  change (csv AtStart "" [] ("timestamp,category,user_id,event,duration_ms,details" ++ String newline text)) with
    (rows ← csv AtStart "" [] text;
     Some (["timestamp"; "category"; "user_id"; "event"; "duration_ms"; "details"] :: rows)).
  by rewrite Hr.
Qed.

Definition demo_entry : LogEntry :=
  mkEntry "2026-01-02 03:04:05.006" SESSION "u1" "DISCONNECT" (-1)
    ("a,b" ++ String quote ("c" ++ String newline (String return_ ""))) FILE.

Definition with_user (u : string) (e : LogEntry) : LogEntry :=
  mkEntry (timestamp e) (category e) u (event e) (duration_ms e) (details e) (dest e).
Definition with_details (d : string) (e : LogEntry) : LogEntry :=
  mkEntry (timestamp e) (category e) (user_id e) (event e) (duration_ms e) d (dest e).

Lemma event_log_round_trip_witness :
  exists text, file (write_all [demo_entry; mkEntry "t" DEBUG "" "x" 0 "y" TERMINAL]
                       (mkSink (Some header) [])) = Some text /\
    read_csv text =
    Some [["timestamp"; "category"; "user_id"; "event"; "duration_ms"; "details"]; fields demo_entry].
Proof.
  assert (Forall row_ok (filed [demo_entry; mkEntry "t" DEBUG "" "x" 0 "y" TERMINAL])) as H.
  { constructor; [|constructor]. unfold row_ok. split_and!; try done. right. by vm_compute. }
  exact (event_log_round_trip [demo_entry; mkEntry "t" DEBUG "" "x" 0 "y" TERMINAL] [] H).
Defined.

(** A comma in the user id makes a row of seven fields. *)
Example unescaped_user_splits :
  length <$> (read_csv (file_row (with_user "a,b" demo_entry)) ≫= head) = Some 7.
Proof. by vm_compute. Qed.

(** Details with a carriage return alone are not quoted. *)
Example lone_return_unreadable :
  read_csv (file_row (with_details ("a" ++ String return_ "b") demo_entry)) = None.
Proof. by vm_compute. Qed.

(** ** The writer thread *)

(** Steps of the process: any thread logs, [shutdown] makes its calls, the
    writer takes a turn.  The second component is every entry logged so far. *)
Inductive step : t * list LogEntry -> t * list LogEntry -> Prop :=
  | step_log ts c user ev ms d to l g :
      step (l, g) (log ts c user ev ms d to l, g ++ [mkEntry ts c user ev ms d to])%list
  | step_shutdown ts l g :
      step (l, g) (shutdown_queue ts l, g ++ [mkEntry ts SYSTEM "" "SERVER_STOP" 0 "" FILE])%list
  | step_request l g : step (l, g) (request_stop l, g)
  | step_writer l l' g : writer_turn l = Some l' -> step (l, g) (l', g).

(** A turn writes the first waiting entry, or nothing; it ends the thread only
    when none is waiting. *)
Lemma writer_turn_cases l l' : writer_turn l = Some l' ->
  (exists e rest, Tsq.queue_ (queue_ l) = e :: rest /\ Tsq.queue_ (queue_ l') = rest /\
     sink l' = write e (sink l) /\ thread l' <> Exited /\ thread l <> Exited) \/
  (Tsq.queue_ (queue_ l') = Tsq.queue_ (queue_ l) /\ sink l' = sink l /\ thread l <> Exited /\
   (thread l' = Exited -> Tsq.queue_ (queue_ l) = [])).
Proof.
  unfold writer_turn, Tsq.pop, Tsq.try_pop. intros Ht. destruct (thread l) eqn:Eth; try done.
  - destruct (stop_requested l); [injection Ht as <-; by right|].
    destruct (Tsq.queue_ (queue_ l)) as [|e rest] eqn:Eq.
    + destruct (Tsq.stopped_ (queue_ l)); [|done]. injection Ht as <-. right. cbn. by rewrite Eq.
    + injection Ht as <-. left. by exists e, rest.
  - destruct (Tsq.queue_ (queue_ l)) as [|e rest] eqn:Eq; injection Ht as <-.
    + right. cbn. by rewrite Eq.
    + left. by exists e, rest.
Qed.

(** What holds from the moment [mark] is what has been logged: the entries
    written are the first of those logged, in order, the others wait, and a
    finished writer has written at least those of [mark]. *)
Definition follows (s0 : Sink) (mark : list LogEntry) (st : t * list LogEntry) : Prop :=
  exists w, st.2 = (w ++ Tsq.queue_ (queue_ st.1))%list /\ sink st.1 = write_all w s0 /\
    mark `prefix_of` st.2 /\ (thread st.1 = Exited -> mark `prefix_of` w).

Lemma follows_step s0 mark st st' : follows s0 mark st -> step st st' -> follows s0 mark st'.
Proof.
  intros (w & H1 & H2 & H3 & H4) Hs. destruct Hs as [ts c user ev ms d to l g|ts l g|l g|l l' g Ht]; cbn [fst snd] in *.
  - exists w. cbn. rewrite H1. split_and!; [by rewrite (assoc_L (++)%list)|done| |done].
    rewrite <- H1. by apply prefix_app_r.
  - exists w. cbn. rewrite H1. split_and!; [by rewrite (assoc_L (++)%list)|done| |done].
    rewrite <- H1. by apply prefix_app_r.
  - by exists w.
  - apply writer_turn_cases in Ht as [(e & rest & E1 & E2 & E3 & E4 & _)|(E1 & E2 & _ & E4)].
    + exists (w ++ [e])%list. cbn [fst snd]. rewrite E2, E3, H2, write_all_snoc. split_and!; [|done|done|done].
      rewrite H1, E1. by rewrite <- (assoc_L (++)%list).
    + exists w. cbn [fst snd]. rewrite E1, E2. split_and!; [done..|]. intros Hx.
      rewrite H1, (E4 Hx), app_nil_r in H3. done.
Qed.

Fixpoint turns (n : nat) (l : t) : t :=
  match n with
  | O => l
  | S n => match writer_turn l with Some l' => turns n l' | None => l end
  end.

Lemma drain_turns n : forall l, thread l = Draining -> length (Tsq.queue_ (queue_ l)) < n -> thread (turns n l) = Exited.
Proof.
  induction n as [|n IH]; intros l Ht Hn; [lia|]. cbn [turns]. unfold writer_turn, Tsq.try_pop. rewrite Ht.
  destruct (Tsq.queue_ (queue_ l)) as [|e rest] eqn:Eq.
  - by destruct n.
  - apply IH; [done|]. cbn. simpl in Hn. lia.
Qed.

Lemma stopped_turns n : forall l,
  thread l = Looping -> Tsq.stopped_ (queue_ l) = true -> S (length (Tsq.queue_ (queue_ l))) < n ->
  thread (turns n l) = Exited.
Proof.
  induction n as [|n IH]; intros l Ht Hs Hn; [lia|]. cbn [turns]. unfold writer_turn, Tsq.pop. rewrite Ht, Hs.
  destruct (stop_requested l); [apply drain_turns; [done|cbn; lia]|].
  destruct (Tsq.queue_ (queue_ l)) as [|e rest] eqn:Eq.
  - apply drain_turns; [done|]. cbn. rewrite Eq. simpl in *. lia.
  - apply IH; [done|done|]. cbn. simpl in Hn. lia.
Qed.

(** The whole [shutdown], the writer taking its turns during the join; with the
    queue stopped it needs at most two more than there are entries. *)
Definition shutdown (ts : string) (l : t) : t :=
  if initialized_ l then
    let l := request_stop (shutdown_queue ts l) in
    close (turns (2 + length (Tsq.queue_ (queue_ l))) l)
  else l.

(** C36: shutting the event log down loses nothing.  However logging, the
    shutdown and the writer interleave after [init], when the writer is gone
    every entry logged before the shutdown and the shutdown's own has been
    written, once and in order; and the join of a shutdown always returns: once
    the queue is stopped the writer ends within two turns more than there are
    entries waiting. *)
Theorem shutdown_writes_every_entry (l0 l1 l2 : t) (g1 g2 : list LogEntry) (ts : string)
    (Hstart : thread l0 = Looping)
    (Hbefore : rtc step (l0, Tsq.queue_ (queue_ l0)) (l1, g1)) (Hrunning : thread l1 <> Exited)
    (Hafter : rtc step (shutdown_queue ts l1, g1 ++ [mkEntry ts SYSTEM "" "SERVER_STOP" 0 "" FILE])%list (l2, g2)) :
  (thread l2 = Exited ->
   exists w, (g1 ++ [mkEntry ts SYSTEM "" "SERVER_STOP" 0 "" FILE])%list `prefix_of` w /\ w `prefix_of` g2 /\
     sink l2 = write_all w (sink l0)) /\
  (thread l1 = Looping ->
   thread (turns (3 + length (Tsq.queue_ (queue_ l1))) (shutdown_queue ts l1)) = Exited /\
   (initialized_ l1 = true -> thread (shutdown ts l1) = Exited)).
Proof.
  assert (forall mark st st', rtc step st st' -> follows (sink l0) mark st -> follows (sink l0) mark st') as Hrun.
  { intros mark st st' Hr Hf. induction Hr; [done|]. eauto using follows_step. }
  split.
  - intros Hx. assert (follows (sink l0) [] (l0, Tsq.queue_ (queue_ l0))) as H0.
    { exists []. cbn. split_and!; [done|done|apply prefix_nil|by rewrite Hstart]. }
    destruct (Hrun _ _ _ Hbefore H0) as (w & E1 & E2 & _ & _). cbn [fst snd] in *.
    edestruct (Hrun (g1 ++ [mkEntry ts SYSTEM "" "SERVER_STOP" 0 "" FILE])%list _ _ Hafter) as (w' & F1 & F2 & F3 & F4).
    { exists w. cbn. split_and!; [by rewrite E1, (assoc_L (++)%list)|done|done|done]. }
    cbn [fst snd] in *. exists w'. split_and!; [by apply F4|rewrite F1; by apply prefix_app_r|done].
  - intros Hl. split; [|intros Hi; unfold shutdown; rewrite Hi; cbn [close thread]];
      apply stopped_turns; try done; cbn; rewrite length_app; simpl; lia.
Qed.

Lemma shutdown_writes_every_entry_witness :
  let l1 := init (Some "logs/a.csv") "t0" create in
  thread (shutdown "t1" l1) = Exited.
Proof.
  cbv zeta. set (l1 := init (Some "logs/a.csv") "t0" create).
  assert (thread l1 <> Exited) as Hr by (vm_compute; discriminate).
  refine (proj2 (proj2 (shutdown_writes_every_entry l1 l1 (shutdown_queue "t1" l1) _ _ "t1" eq_refl (rtc_refl _ _) Hr (rtc_refl _ _)) eq_refl) eq_refl).
Defined.

(** Without an open log file nothing is ever written, and the queue keeps every
    entry. *)
Example unopened_log_keeps_everything :
  let l := voice_leave "t1" "u1" "c1" (session_connect "t0" "u1" "" (init None "t" create)) in
  writer_turn l = None /\ length (Tsq.queue_ (queue_ l)) = 2 /\ initialized_ l = false.
Proof. done. Qed.
End EventLog.
