(* ===== verification/Lifecycle.v ===== *)
(** * Starting and stopping the servers

    [StackRegistry]: the stacks of [net/NetworkRouter.cpp].  [LoopTimer]: the
    timers of [net/runtime/HeartbeatService.cpp] and
    [net/outbound/OutgoingWorker.cpp].  [NetworkStack]: [net/NetworkStack.cpp]
    with [TextWSServer::start] and [stop] of
    [net/transport/websocket/WebSocketTransport.cpp].  [LoopServer]: the webhook
    server (livekit/webhook/LivekitWebhookServer.cpp) and the control server
    (control/http/HttpServer.cpp).  A stack and each of these servers has a
    thread of its own that binds a socket and runs an event loop, and a caller
    that starts and stops it.  A step is one operation on the state the two
    share; whether the socket binds and when a wait times out is free. *)

From S2P Require Import Prelude.
From S2P Require Import CStrings.
From S2P Require Import Ids.
From S2P Require Import Endpoints.

(** ** The router's stacks *)

Module StackRegistry.
Section Registry.
Context {S : Type} (start_stack stop_stack : S -> bool * S).

(** [NetworkStack::IdGenerator::next]. *)
Definition next_id (prefix : string) (counter : Z) : NetStackId * Z :=
  (mkNetStackId (prefix +:+ "-" +:+ std_to_string counter), wrap64 (counter + 1)).

(** [emplace]: the stack of an id that is taken is destroyed. *)
Definition register_stack (id : NetStackId) (stack : S) (stacks : gmap NetStackId S) : gmap NetStackId S :=
  match stacks !! id with Some _ => stacks | None => <[id := stack]> stacks end.

(** The loop of [Server::init_stacks]. *)
Fixpoint register_each (prefix : string) (counter : Z) (l : list S) (stacks : gmap NetStackId S)
  : gmap NetStackId S :=
  match l with
  | [] => stacks
  | stack :: l' =>
    let '(id, counter') := next_id prefix counter in
    register_each prefix counter' l' (register_stack id stack stacks)
  end.

(** A stack that does not start is logged, and the others are started. *)
Definition start_all (stacks : gmap NetStackId S) : gmap NetStackId S := (fun s => (start_stack s).2) <$> stacks.
(** What [stop] has left of the stacks before they are destroyed, and the map
    after. *)
Definition stop_all (stacks : gmap NetStackId S) : gmap NetStackId S * gmap NetStackId S :=
  ((fun s => (stop_stack s).2) <$> stacks, ∅).

Definition id_at (prefix : string) (n : Z) : NetStackId := (next_id prefix n).1.

Lemma text_cancel (a b c : string) : (a +:+ b = a +:+ c -> b = c)%string.
Proof.
  induction a as [|x a IH]; [done|]. change (String x (a +:+ b) = String x (a +:+ c) -> b = c). by intros [= E%IH].
Qed.

Lemma id_at_inj prefix n m : (0 <= n < two64)%Z -> (0 <= m < two64)%Z -> id_at prefix n = id_at prefix m -> n = m.
Proof.
  intros Hn Hm [= E%text_cancel%(text_cancel "-")]. apply stoull_to_string in Hn, Hm. rewrite E in Hn. congruence.
Qed.

(** Every configured stack is registered under an id of its own. *)
Lemma every_stack_registered prefix l : forall counter stacks,
  (0 <= counter)%Z -> (counter + Z.of_nat (length l) < two64)%Z ->
  (forall n, (counter <= n < two64)%Z -> stacks !! id_at prefix n = None) ->
  (forall i s, l !! i = Some s -> register_each prefix counter l stacks !! id_at prefix (counter + Z.of_nat i) = Some s) /\
  (forall id s, stacks !! id = Some s -> register_each prefix counter l stacks !! id = Some s) /\
  size (register_each prefix counter l stacks) = size stacks + length l.
Proof.
  induction l as [|s l IH]; intros counter stacks Hc Hl Hfree.
  { cbn. split_and!; [done|done|lia]. }
  cbn [length] in Hl. cbn [register_each next_id]. change (mkNetStackId _) with (id_at prefix counter).
  rewrite wrap64_small by lia. unfold register_stack. pose proof (Hfree counter ltac:(lia)) as Hn. rewrite Hn.
  destruct (IH (counter + 1)%Z (<[id_at prefix counter := s]> stacks)) as (H1 & H2 & H3); [lia|lia| |].
  { intros n Hb. rewrite lookup_insert_ne; [apply Hfree; lia|]. intros E%id_at_inj; lia. }
  split_and!.
  - intros [|i] s'.
    + intros [= <-]. apply H2. rewrite Z.add_0_r. apply lookup_insert_eq.
    + intros Hi. rewrite <- (H1 i s' Hi). do 2 f_equal. lia.
  - intros id s' Hs. apply H2. rewrite lookup_insert_ne; [done|]. intros <-. congruence.
  - rewrite H3, map_size_insert_None by done. cbn [length]. lia.
Qed.
End Registry.
End StackRegistry.

(** ** Timers on the loop

    [HeartbeatService] and [OutgoingWorker] each run their [tick] from a timer
    of the stack's loop, with the same [start], [stop] and [on_timer]. *)

Module LoopTimer.

Record service := mkService {
  running_ : bool;
  timer_ : option nat;
  open_timers : gset nat;    (* those whose slot points to the service *)
  deferred : gset nat;       (* those the loop has been asked to close *)
  created : nat
}.
Definition new_service : service := mkService false None ∅ ∅ 0.

(** Whether there is a loop and whether [us_create_timer] succeeds is given. *)
Definition timer_start (loop created_ok : bool) (s : service) : service :=
  if running_ s then s
  else if loop && created_ok
  then mkService true (Some (created s)) ({[created s]} ∪ open_timers s) (deferred s) (S (created s))
  else mkService false (if loop then None else timer_ s) (open_timers s) (deferred s) (created s).

Definition timer_stop (loop : bool) (s : service) : service :=
  match timer_ s with
  | None => mkService false None (open_timers s) (deferred s) (created s)
  | Some timer =>
    if loop then mkService false None (open_timers s) ({[timer]} ∪ deferred s) (created s)
    else mkService false None (open_timers s ∖ {[timer]}) (deferred s) (created s)
  end.

(** The loop runs what was deferred to it. *)
Definition run_deferred (s : service) : service :=
  mkService (running_ s) (timer_ s) (open_timers s ∖ deferred s) ∅ (created s).

(** Whether a timer that fires does the service's work.  [on_timer] calls [tick]
    when the slot is set; the heartbeat's returns at once when it is not
    running, the worker's does not ask. *)
Definition worker_on_timer (timer : nat) (s : service) : bool := bool_decide (timer ∈ open_timers s).
Definition heartbeat_on_timer (timer : nat) (s : service) : bool := worker_on_timer timer s && running_ s.

Inductive service_step : service -> service -> Prop :=
  | do_start loop ok s : service_step s (timer_start loop ok s)
  | do_stop loop s : service_step s (timer_stop loop s)
  | do_deferred s : service_step s (run_deferred s).

Definition service_ok (s : service) : Prop :=
  (running_ s = true <-> is_Some (timer_ s)) /\
  (forall t, timer_ s = Some t -> t ∉ deferred s) /\
  (forall t, t ∈ open_timers s <-> timer_ s = Some t \/ t ∈ deferred s) /\
  (forall t, t ∈ open_timers s -> t < created s).

Lemma service_ok_step s s' : service_ok s -> service_step s s' -> service_ok s'.
Proof.
  intros (H1 & H2 & H3 & H4) Hs.
  assert (running_ s = false -> timer_ s = None) as Hoff.
  { intros E. destruct (timer_ s); [|done]. rewrite E in H1. by discriminate (proj2 H1 ltac:(by eexists)). }
  assert (forall t, t ∈ deferred s -> t < created s) as Hd by (intros t Ht; apply H4, H3; by right).
  destruct Hs as [loop ok s|loop s|s].
  - unfold timer_start. destruct (running_ s) eqn:Er; [by unfold service_ok; rewrite Er|]. specialize (Hoff eq_refl).
    rewrite Hoff in *. destruct (loop && ok).
    + split_and!; cbn; [by split; [eexists|]| | |].
      * intros t [= <-] Ht%Hd. lia.
      * intros t. rewrite elem_of_union, elem_of_singleton, H3. intuition congruence.
      * intros t [->%elem_of_singleton|Ht%H4]%elem_of_union; lia.
    + replace (if loop then None else None) with (@None nat) by by destruct loop.
      split_and!; cbn; [by split; [|intros []]|done|done|done].
  - unfold timer_stop. destruct (timer_ s) as [t0|] eqn:Et; [destruct loop|]; split_and!; cbn;
      try done; try (by split; [|intros []]).
    + intros t. rewrite H3, elem_of_union, elem_of_singleton. intuition congruence.
    + intros t. rewrite elem_of_difference, elem_of_singleton, H3. specialize (H2 t0 eq_refl).
      split; [intuition congruence|]. intros [[=]|Ht]. split; [by right|]. by intros ->.
    + intros t [Ht _]%elem_of_difference. by apply H4.
  - split_and!; cbn; [done|intros; apply not_elem_of_empty| |].
    + intros t. rewrite elem_of_difference, H3, elem_of_empty. specialize (H2 t). tauto.
    + intros t [Ht _]%elem_of_difference. by apply H4.
Qed.

(** Whatever a stack does with a service before: after [stop] the heartbeat does
    nothing more; when the loop has run what was deferred to it no timer is
    left, so that the worker does nothing more either and neither keeps the loop
    from ending. *)
Lemma stopped_service_silent s loop timer : rtc service_step new_service s ->
  heartbeat_on_timer timer (timer_stop loop s) = false /\
  open_timers (run_deferred (timer_stop loop s)) = ∅ /\
  worker_on_timer timer (run_deferred (timer_stop loop s)) = false.
Proof.
  intros Hr. assert (service_ok new_service) as H0.
  { split_and!; cbn; [by split; [|intros []]|done| |by intros t ?%elem_of_empty].
    intros t. rewrite !elem_of_empty. intuition congruence. }
  assert (service_ok s) as Hs.
  { clear -Hr H0. induction Hr; eauto using service_ok_step. }
  pose proof (service_ok_step _ _ Hs (do_stop loop s)) as (_ & _ & H3 & _).
  assert (open_timers (run_deferred (timer_stop loop s)) = ∅) as He.
  { apply set_eq. intros t. cbn. rewrite elem_of_difference, H3.
    assert (timer_ (timer_stop loop s) = None) as -> by (unfold timer_stop; by destruct (timer_ s), loop).
    rewrite elem_of_empty. intuition congruence. }
  split_and!; [|done|].
  - unfold heartbeat_on_timer, timer_stop. destruct (timer_ s), loop; cbn; apply andb_false_r.
  - unfold worker_on_timer. rewrite He. by apply bool_decide_eq_false_2.
Qed.

End LoopTimer.

(** ** Network stacks *)

Module NetworkStack.

(** The server thread: [run_server] from statement to statement. *)
Inductive server_pc :=
  | Absent      (* no thread *)
  | Wiring      (* wire_components *)
  | Publishing  (* about to publish the transport *)
  | Binding     (* TextWSServer::start, before loop_ is stored *)
  | Listening   (* about to listen *)
  | InLoop      (* app_->uws().run() *)
  | Clearing    (* the loop has returned *)
  | Unsetting   (* started_.store(false) *)
  | Marking     (* stopped_.store(true) *)
  | Gone.

(** The caller: in neither call, polling in [start], waiting and joining in
    [stop], or with the result of a call. *)
Inductive caller_pc :=
  | Idle
  | Polling
  | SawBound                    (* the poll found the transport started *)
  | Waiting
  | Joining
  | Started (ok : bool)
  | Stopped (ok : bool).

Record t := mk {
  start_requested_ : bool; started_ : bool; stopped_ : bool;
  running_transport_ : bool;    (* not null *)
  transport_layer_ : bool;      (* not null *)
  is_started : bool;            (* TextWSServer::started_ *)
  loop_ : bool;                 (* TextWSServer::loop_ is set *)
  stop_requested_ : bool;       (* TextWSServer::stop_requested_ *)
  closing : bool;               (* the app is being closed *)
  server : server_pc;
  caller : caller_pc
}.

Definition create : t := mk false false false false false false false false false Absent Idle.

Definition set_caller (c : caller_pc) (s : t) : t :=
  mk (start_requested_ s) (started_ s) (stopped_ s) (running_transport_ s) (transport_layer_ s) (is_started s)
    (loop_ s) (stop_requested_ s) (closing s) (server s) c.
Definition set_server (p : server_pc) (s : t) : t :=
  mk (start_requested_ s) (started_ s) (stopped_ s) (running_transport_ s) (transport_layer_ s) (is_started s)
    (loop_ s) (stop_requested_ s) (closing s) p (caller s).
Definition set_flags (req st sp : bool) (s : t) : t :=
  mk req st sp (running_transport_ s) (transport_layer_ s) (is_started s) (loop_ s) (stop_requested_ s) (closing s)
    (server s) (caller s).
Definition set_running (b : bool) (s : t) : t :=
  mk (start_requested_ s) (started_ s) (stopped_ s) b (transport_layer_ s) (is_started s) (loop_ s)
    (stop_requested_ s) (closing s) (server s) (caller s).

(** [TextWSServer::stop]: the first call closes the app from its loop; without
    a loop it closes the sockets there are, before any is bound. *)
Definition transport_stop (s : t) : t :=
  if stop_requested_ s then s
  else mk (start_requested_ s) (started_ s) (stopped_ s) (running_transport_ s) (transport_layer_ s) (is_started s)
         (loop_ s) true (closing s || loop_ s) (server s) (caller s).

(** [start] up to the loop.  The event sink is attached: [Server::init_stacks]
    attaches it before the stack is registered. *)
Definition start (s : t) : t :=
  if start_requested_ s then set_caller (Started (started_ s)) s
  else set_caller Polling (set_server Wiring (set_flags true (started_ s) (stopped_ s) s)).

(** [stop] up to its wait. *)
Definition stop (s : t) : t :=
  if stopped_ s then set_caller (Stopped true) s
  else set_caller Waiting (if transport_layer_ s then transport_stop s else s).

(** [wire_components]: a new transport. *)
Definition wire_components (s : t) : t :=
  mk (start_requested_ s) (started_ s) (stopped_ s) (running_transport_ s) true false false false false
    Publishing (caller s).

(** [loop_.store] and the listen callback: [bound] when the socket was. *)
Definition store_loop (s : t) : t :=
  mk (start_requested_ s) (started_ s) (stopped_ s) (running_transport_ s) (transport_layer_ s) (is_started s) true
    (stop_requested_ s) (closing s) Listening (caller s).
Definition bind (bound : bool) (s : t) : t :=
  mk (start_requested_ s) (started_ s) (stopped_ s) (running_transport_ s) (transport_layer_ s) bound (loop_ s)
    (stop_requested_ s) (closing s) InLoop (caller s).

(** The server thread's next operation; [None]: it is in its loop, or there is
    no thread.  The timers of the heartbeat and of the outgoing worker keep the
    loop running whether or not the socket was bound; [TextWSServer::stop] has
    them closed with the app ([LoopTimer]), and the loop then ends. *)
Definition turn (bound : bool) (s : t) : option t :=
  match server s with
  | Absent | Gone => None
  | Wiring => Some (wire_components s)
  | Publishing => Some (set_server Binding (set_running true s))
  | Binding => Some (store_loop s)
  | Listening => Some (bind bound s)
  | InLoop => if closing s then Some (set_server Clearing s) else None
  | Clearing => Some (set_server Unsetting (set_running false s))
  | Unsetting => Some (set_server Marking (set_flags (start_requested_ s) false (stopped_ s) s))
  | Marking => Some (set_server Gone (set_flags (start_requested_ s) (started_ s) true s))
  end.

Inductive step : t -> t -> Prop :=
  | server_turn s bound s' : turn bound s = Some s' -> step s s'
  | call_start s : caller s = Idle -> step s (start s)
  | poll_bound s : caller s = Polling -> running_transport_ s = true -> is_started s = true ->
      step s (set_caller SawBound s)
  | return_started s : caller s = SawBound ->
      step s (set_caller (Started true) (set_flags (start_requested_ s) true (stopped_ s) s))
  | poll_stopped s : caller s = Polling -> running_transport_ s && is_started s = false -> stopped_ s = true ->
      step s (set_caller (Started false) s)
  | poll_timeout s : caller s = Polling -> step s (set_caller (Started false) s)
  | call_stop s : caller s = Idle -> step s (stop s)
  | wait_stopped s : caller s = Waiting -> stopped_ s = true -> step s (set_caller Joining s)
  | wait_timeout s : caller s = Waiting -> step s (set_caller Joining s)
  | join s : caller s = Joining -> server s = Absent \/ server s = Gone ->
      step s (set_caller (Stopped (stopped_ s)) (set_flags false false (stopped_ s) s))
  | return_start s b : caller s = Started b -> step s (set_caller Idle s)
  | return_stop s b : caller s = Stopped b -> step s (set_caller Idle s).

(** ** What the calls report *)

(** The listen callback of this run has been called. *)
Definition past_listen (p : server_pc) : Prop :=
  match p with InLoop | Clearing | Unsetting | Marking | Gone => True | _ => False end.

(** Where the thread is and what it has published. *)
Definition server_ok (s : t) : Prop :=
  match server s with
  | Absent | Wiring => running_transport_ s = false
  | Publishing => running_transport_ s = false /\ transport_layer_ s = true /\ loop_ s = false /\ is_started s = false
  | Binding => transport_layer_ s = true /\ loop_ s = false /\ is_started s = false
  | Listening => transport_layer_ s = true /\ loop_ s = true /\ is_started s = false
  | InLoop | Clearing => transport_layer_ s = true /\ loop_ s = true
  | Unsetting | Marking => running_transport_ s = false /\ transport_layer_ s = true /\ loop_ s = true
  | Gone => running_transport_ s = false /\ transport_layer_ s = true /\ loop_ s = true /\ stopped_ s = true
  end.

Definition in_stop (c : caller_pc) : Prop := match c with Waiting | Joining => True | _ => False end.
Definition no_run (p : server_pc) : Prop := match p with Absent | Wiring | Gone => True | _ => False end.

Record inv (s : t) : Prop := mk_inv {
  i_server : server_ok s;
  i_started : started_ s = true -> is_started s = true /\ past_listen (server s);
  i_caller : caller s = SawBound \/ caller s = Started true -> is_started s = true /\ past_listen (server s);
  i_stop : stop_requested_ s = true -> closing s = true \/ in_stop (caller s) \/ no_run (server s);
  i_fresh : start_requested_ s = false -> (server s = Absent \/ server s = Gone) /\ started_ s = false;
  i_polling : caller s = Polling \/ caller s = SawBound -> start_requested_ s = true
}.

Lemma inv_create : inv create.
Proof. split; cbn; try done; try (intros [?|?]; done). auto. Qed.

Lemma inv_turn bound s s' : inv s -> turn bound s = Some s' -> inv s'.
Proof.
  intros [H1 H2 H3 H4 H5 H6] Ht. unfold turn, server_ok in *.
  destruct (server s) eqn:Es; simplify_eq/=.
  all: try (destruct (closing s) eqn:Ecl; [|done]; simplify_eq/=).
  all: split; unfold server_ok; cbn in *; intuition congruence.
Qed.

Lemma inv_caller_step s s' : inv s -> step s s' -> inv s'.
Proof.
  intros Hi Hs. destruct Hs as [s bound s' Ht|s Hc|s Hc Hr Hb|s Hc|s Hc Hb Hp|s Hc|s Hc|s Hc Hp|s Hc|s Hc Hp|s b Hc|s b Hc];
    [by eapply inv_turn|..]; destruct Hi as [H1 H2 H3 H4 H5 H6];
    rewrite Hc in H3, H4, H6; cbn in H4.
  - unfold start. destruct (start_requested_ s) eqn:Er.
    + split; unfold server_ok in *; cbn in *; try done; try (intuition congruence).
      intros [?|[= E]]; [done|auto].
    + destruct (H5 eq_refl) as [Hsv Hst]. split; unfold server_ok in *; cbn in *; rewrite ?Hst in *; try done; auto.
      * destruct Hsv as [E|E]; rewrite E in H1; [done|apply H1].
      * by intros [?|?].
  - split; unfold server_ok in *; cbn in *; try done; try (intuition congruence). intros _. split; [done|].
    destruct (server s); cbn in *; intuition congruence.
  - split; unfold server_ok in *; cbn in *; try done; try (intros; apply H3; by left); intuition congruence.
  - split; unfold server_ok in *; cbn in *; try done; intuition congruence.
  - split; unfold server_ok in *; cbn in *; try done; intuition congruence.
  - unfold stop. destruct (stopped_ s) eqn:Ep.
    + split; unfold server_ok in *; cbn in *; try done; intuition congruence.
    + unfold transport_stop. destruct (transport_layer_ s) eqn:El, (stop_requested_ s) eqn:Eq;
        split; unfold server_ok in *; cbn in *; try done; try (intuition congruence);
        destruct (server s); intuition congruence.
  - split; unfold server_ok in *; cbn in *; try done; intuition congruence.
  - split; unfold server_ok in *; cbn in *; try done; intuition congruence.
  - split; unfold server_ok in *; cbn in *; try done; try (intuition congruence).
    intros _. right. right. by destruct Hp as [->| ->].
  - split; unfold server_ok in *; cbn in *; try done; intuition congruence.
  - split; unfold server_ok in *; cbn in *; try done; intuition congruence.
Qed.

(** The thread, left to run. *)
Fixpoint turns (n : nat) (s : t) : t :=
  match n with
  | O => s
  | S n => match turn true s with Some s' => turns n s' | None => s end
  end.

Lemma turns_gone s :
  match server s with InLoop => closing s = true | Clearing | Unsetting | Marking => True | _ => False end ->
  server (turns 4 s) = Gone /\ stopped_ (turns 4 s) = true.
Proof.
  destruct s as [req st sp run tl bd lp sr cl sv ca]. destruct sv; try done. cbn [server closing]. by intros ->.
Qed.

(** C34: a network stack whose [start] returned true is listening, and a stop
    after that ends it.  One thread calls [start] and [stop] one after another,
    as [AppStack] does, and the server thread interleaves with it as it likes.
    Then, at the moment [start] returns true, the listen callback of this run
    has bound the socket; and if no [stop] was called before, a [stop] called
    at that moment makes the server thread leave its loop and end, so that the
    join returns.  Nothing is claimed of a [stop] after a [start] that returned
    false: [stop_while_wiring_hangs] below is a run in which it never returns. *)
Theorem started_stack_stops (s : t) (Hrun : rtc step create s) (Hret : caller s = Started true) :
  is_started s = true /\
  (stopped_ s = false -> server (turns 4 (stop (set_caller Idle s))) = Gone /\
                         stopped_ (turns 4 (stop (set_caller Idle s))) = true).
Proof.
  assert (inv s) as [H1 _ H3 H4 _ _].
  { assert (forall a b, rtc step a b -> inv a -> inv b) as Hstar.
    { intros a b Hab Ha. induction Hab; eauto using inv_caller_step. }
    exact (Hstar _ _ Hrun inv_create). }
  destruct (H3 (or_intror Hret)) as [Hb Hp]. split; [done|]. intros Hns.
  apply turns_gone. unfold stop, transport_stop, server_ok in *. cbn. rewrite Hns. rewrite Hret in H4.
  destruct (server s) eqn:Es; try done.
  - destruct H1 as [Ht Hl]. rewrite Ht. destruct (stop_requested_ s) eqn:Eq; cbn; rewrite ?Es.
    + by destruct (H4 eq_refl) as [Hcl|[[]|[]]].
    + by rewrite Hl, orb_true_r.
  - destruct H1 as [Ht _]. rewrite Ht. destruct (stop_requested_ s); cbn; by rewrite ?Es.
  - destruct H1 as (_ & Ht & _). rewrite Ht. destruct (stop_requested_ s); cbn; by rewrite ?Es.
  - destruct H1 as (_ & Ht & _). rewrite Ht. destruct (stop_requested_ s); cbn; by rewrite ?Es.
  - destruct H1 as (_ & _ & _ & Hx). congruence.
Qed.

(** A list of choices: the thread's turns and the caller's steps that lead to a
    state, for the runs below. *)
Inductive move := Server (bound : bool) | CallStart | PollBound | ReturnStarted | PollStopped | CallStop
  | WaitTimeout | Join | Return.

Definition play (m : move) (s : t) : option t :=
  match m with
  | Server bound => turn bound s
  | CallStart => match caller s with Idle => Some (start s) | _ => None end
  | PollBound =>
    match caller s with
    | Polling => if running_transport_ s && is_started s then Some (set_caller SawBound s) else None
    | _ => None
    end
  | ReturnStarted =>
    match caller s with
    | SawBound => Some (set_caller (Started true) (set_flags (start_requested_ s) true (stopped_ s) s))
    | _ => None
    end
  | PollStopped =>
    match caller s with
    | Polling => if running_transport_ s && is_started s then None
                 else if stopped_ s then Some (set_caller (Started false) s) else None
    | _ => None
    end
  | CallStop => match caller s with Idle => Some (stop s) | _ => None end
  | WaitTimeout => match caller s with Waiting => Some (set_caller Joining s) | _ => None end
  | Join =>
    match caller s, server s with
    | Joining, Absent | Joining, Gone => Some (set_caller (Stopped (stopped_ s)) (set_flags false false (stopped_ s) s))
    | _, _ => None
    end
  | Return => match caller s with Started _ | Stopped _ => Some (set_caller Idle s) | _ => None end
  end.

Lemma play_step m s s' : play m s = Some s' -> step s s'.
Proof.
  destruct m; cbn [play]; [apply server_turn|..]; intros Hp; destruct (caller s) eqn:Hc; try done.
  - injection Hp as <-. by apply call_start.
  - destruct (running_transport_ s) eqn:E1, (is_started s) eqn:E2; try done. injection Hp as <-. by apply poll_bound.
  - injection Hp as <-. by apply return_started.
  - destruct (running_transport_ s && is_started s) eqn:E1; [done|]. destruct (stopped_ s) eqn:E2; [|done].
    injection Hp as <-. by apply poll_stopped.
  - injection Hp as <-. by apply call_stop.
  - injection Hp as <-. by apply wait_timeout.
  - destruct (server s) eqn:Es; try done; injection Hp as <-; apply join; auto.
  - injection Hp as <-. by eapply return_start.
  - injection Hp as <-. by eapply return_stop.
Qed.

Fixpoint plays (ms : list move) (s : t) : option t :=
  match ms with [] => Some s | m :: ms' => s' ← play m s; plays ms' s' end.

Lemma plays_run ms : forall s s', plays ms s = Some s' -> rtc step s s'.
Proof.
  induction ms as [|m ms IH]; intros s s' Hp; [by injection Hp as <-; apply rtc_refl|].
  cbn [plays] in Hp. destruct (play m s) as [s1|] eqn:E; [|done].
  eapply rtc_l; [by eapply play_step|by apply IH].
Qed.

(** A start that succeeds. *)
Definition start_up : list move :=
  [CallStart; Server true; Server true; Server true; Server true; PollBound; ReturnStarted].
Definition shut_down : list move :=
  [Return; CallStop; Server true; Server true; Server true; Server true; WaitTimeout; Join; Return].

Lemma started_stack_stops_witness :
  exists s, rtc step create s /\ caller s = Started true /\ is_started s = true /\
    server (turns 4 (stop (set_caller Idle s))) = Gone.
Proof.
  destruct (plays start_up create) as [s|] eqn:E; [|discriminate E].
  assert (caller s = Started true /\ stopped_ s = false) as [Hc Hn]
    by (vm_compute in E; injection E as <-; split; reflexivity).
  destruct (started_stack_stops s (plays_run _ _ _ E) Hc) as [H1 H2].
  exact (ex_intro _ s (conj (plays_run _ _ _ E) (conj Hc (conj H1 (proj1 (H2 Hn)))))).
Defined.

(** [stopped_] is never reset.  A stack that was stopped and is started again
    reports failure although its thread binds the socket, and a further [stop]
    returns at once with the thread still in its loop. *)
Example restarted_stack_not_stoppable :
  exists s, rtc step create s /\ caller s = Stopped true /\ server s = InLoop /\ is_started s = true /\
    turn true s = None.
Proof.
  destruct (plays (start_up ++ shut_down ++
    [CallStart; PollStopped; Return; Server true; Server true; Server true; Server true; CallStop]) create) as [s|] eqn:E;
    [|discriminate E].
  exists s. split; [by eapply plays_run|]. vm_compute in E. by injection E as <-.
Qed.

(** A [stop] during [wire_components] finds no transport to stop: the thread
    binds afterwards, and the join never returns. *)
Example stop_while_wiring_hangs :
  exists s, rtc step create s /\ caller s = Joining /\ server s = InLoop /\ turn true s = None.
Proof.
  assert (rtc step create (set_caller Idle (start create))) as H0.
  { eapply rtc_l; [by apply call_start|]. eapply rtc_l; [by apply poll_timeout|].
    eapply rtc_l; [by eapply return_start|]. apply rtc_refl. }
  destruct (plays [CallStop; Server true; Server true; Server true; Server true; WaitTimeout]
              (set_caller Idle (start create))) as [s|] eqn:E; [|discriminate E].
  exists s. split; [transitivity (set_caller Idle (start create)); [exact H0|by eapply plays_run]|]. vm_compute in E. by injection E as <-.
Qed.

(** A socket that cannot be bound: the thread stays in its loop without it, and
    [start] neither sees it bound nor stopped; it reports the failure when its
    time is up. *)
Example failed_bind_waits_out :
  exists s, rtc step create s /\ caller s = Polling /\ server s = InLoop /\ is_started s = false /\
    stopped_ s = false /\ turn true s = None.
Proof.
  destruct (plays [CallStart; Server false; Server false; Server false; Server false] create) as [s|] eqn:E;
    [|discriminate E].
  exists s. split; [by eapply plays_run|]. vm_compute in E. by injection E as <-.
Qed.

End NetworkStack.

(** ** The webhook and control servers *)

Module LoopServer.

(** Both run an event loop on a thread of their own.  The webhook server
    stores its loop in the listen callback, and only when the socket is bound;
    the control server stores it first.  Neither resets it when the thread
    ends. *)
Inductive kind := Webhook | Control.

Inductive thread_pc := NotStarted | Entering | Listening | InLoop | Ended.

Record t := mk {
  running_ : bool;          (* [running_], [starting_] *)
  started_ : bool;          (* the control server's, set by the listen callback *)
  stop_requested_ : bool;
  loop_ : bool;             (* not null *)
  bound : bool;             (* a listen socket is open *)
  close_deferred : bool;    (* the loop has been asked to close it *)
  thread : thread_pc
}.
Definition fresh : t := mk false false false false false false NotStarted.

(** [start], the control server's up to its wait. *)
Definition webhook_start (s : t) : t :=
  if running_ s then s
  else mk true (started_ s) (stop_requested_ s) (loop_ s) (bound s) (close_deferred s) Entering.
Definition control_start (s : t) : t :=
  if running_ s then s
  else mk true false (stop_requested_ s) (loop_ s) (bound s) (close_deferred s) Entering.

(** The thread's next operation; [None]: there is none, or it stays in its
    loop, which it leaves when the socket is closed and its requests are
    answered. *)
Definition webhook_turn (binds : bool) (s : t) : option t :=
  match thread s with
  | NotStarted | Ended => None
  | Entering => Some (mk (running_ s) (started_ s) (stop_requested_ s) (loop_ s) (bound s) (close_deferred s) Listening)
  | Listening =>
    Some (mk (running_ s) (started_ s) (stop_requested_ s) (loop_ s || binds) binds (close_deferred s) InLoop)
  | InLoop =>
    if bound s && negb (close_deferred s) then None
    else Some (mk (running_ s) (started_ s) (stop_requested_ s) (loop_ s) false false Ended)
  end.

Definition control_turn (binds : bool) (s : t) : option t :=
  match thread s with
  | NotStarted | Ended => None
  | Entering => Some (mk (running_ s) (started_ s) (stop_requested_ s) true (bound s) (close_deferred s) Listening)
  | Listening => Some (mk (running_ s) binds (stop_requested_ s) (loop_ s) binds (close_deferred s) InLoop)
  | InLoop =>
    if bound s && negb (close_deferred s) then None
    else Some (mk false false (stop_requested_ s) (loop_ s) false false Ended)
  end.

(** The loop there is runs the deferred close; [None]: it belongs to a thread
    that has ended. *)
Definition defer_close (s : t) : option t :=
  match loop_ s, thread s with
  | false, _ => Some s
  | true, Ended => None
  | true, th => Some (mk (running_ s) (started_ s) (stop_requested_ s) true (bound s) true th)
  end.

(** [stop] up to the join. *)
Definition webhook_stop (s : t) : option t :=
  if stop_requested_ s then Some s
  else defer_close (mk false (started_ s) true (loop_ s) (bound s) (close_deferred s) (thread s)).
Definition control_stop (s : t) : option t :=
  if stop_requested_ s then Some s
  else defer_close (mk (running_ s) (started_ s) true (loop_ s) (bound s) (close_deferred s) (thread s)).

Definition start_server (k : kind) : t -> t := match k with Webhook => webhook_start | Control => control_start end.
Definition stop_server (k : kind) : t -> option t := match k with Webhook => webhook_stop | Control => control_stop end.
Definition server_turn (k : kind) : bool -> t -> option t :=
  match k with Webhook => webhook_turn | Control => control_turn end.

Fixpoint server_turns (n : nat) (k : kind) (binds : bool) (s : t) : t :=
  match n with
  | O => s
  | S n => match server_turn k binds s with Some s' => server_turns n k binds s' | None => s end
  end.

(** What the thread has made known: the loop is its own from the listen
    callback on, in the control server from the start. *)
Definition known (k : kind) (s : t) : Prop :=
  (thread s = InLoop -> bound s = true -> loop_ s = true) /\
  (k = Control -> thread s <> NotStarted -> thread s <> Entering -> loop_ s = true).

Lemma turn_known k binds s s' : known k s -> server_turn k binds s = Some s' -> known k s'.
Proof.
  intros [H1 H2] Ht. destruct s as [r st sr l b c th], k, th; cbn in *; try discriminate;
    try (destruct (b && negb c); [discriminate|]); injection Ht as <-; split; cbn; try done.
  - intros _ ->. by rewrite orb_true_r.
  - intros _ _. by apply H2.
  - intros _ _ _. by apply H2.
  - intros _ _ _. by apply H2.
Qed.

(** From a thread that has bound its socket, [stop] ends in its end, whichever
    server it is and whatever it did before. *)
Lemma bound_server_stops k s :
  known k s -> thread s = InLoop -> bound s = true -> stop_requested_ s = false ->
  exists s', stop_server k s = Some s' /\ forall binds, thread (server_turns 1 k binds s') = Ended.
Proof.
  intros [Hl _] Ht Hb Hs. specialize (Hl Ht Hb). destruct s as [r st sr l b c th]. cbn in *. subst.
  destruct k; by eexists.
Qed.

(** A webhook server that is stopped before its listen callback never ends:
    nothing was deferred, the socket is bound after, and the join waits. *)
Example webhook_stop_before_listen_hangs :
  exists s, stop_server Webhook (start_server Webhook fresh) = Some s /\
    thread (server_turns 5 Webhook true s) = InLoop /\ server_turn Webhook true (server_turns 5 Webhook true s) = None.
Proof. by eexists. Qed.

(** A control server whose port is taken ends its thread; [stop] then defers to
    the loop of a thread that is gone. *)
Example control_stop_uses_ended_loop : stop_server Control (server_turns 3 Control false (start_server Control fresh)) = None.
Proof. done. Qed.

End LoopServer.
