(* ===== verification/AppStack.v ===== *)
(** * The application stack: wiring and shutdown

    The order in which [Server::start] and [AppStack::bootstrap]
    (server/Server.cpp, app/AppStack.cpp) construct and use the components, and
    the order in which [AppStack::stop] takes them down under running
    workers. *)

From S2P Require Import Prelude.

Module AppStack.

(** The members of [AppStack] that are pointers, [out_queue_] among them. *)
Inductive part :=
  | Sink | Gateway | Audit | Redis | Subscriptions | Sessions | Auth | Presence | Users | Hubs | Messages
  | Voice | Invites | Context | Events | Dispatch | Pool.
#[global] Instance part_eq_dec : EqDecision part.
Proof. solve_decision. Defined.

(** What the functions do to them: construct one or use one, either of which
    may throw; use one if it is set; throw unless it is set. *)
Inductive action := Make (p : part) | Use (p : part) | UseIfSet (p : part) | Require (p : part).

Inductive outcome := Done (made : list part) | Threw (made : list part) | NullDereference (p : part).

Fixpoint exec (throws : action -> bool) (l : list action) (made : list part) : outcome :=
  match l with
  | [] => Done made
  | Make p :: l' => if throws (Make p) then Threw made else exec throws l' (p :: made)
  | Use p :: l' =>
      if bool_decide (p ∈ made) then if throws (Use p) then Threw made else exec throws l' made
      else NullDereference p
  | UseIfSet p :: l' =>
      if bool_decide (p ∈ made) && throws (Use p) then Threw made else exec throws l' made
  | Require p :: l' => if bool_decide (p ∈ made) then exec throws l' made else Threw made
  end.

Definition init_database : list action := [Make Gateway; Use Gateway; Make Audit; Use Audit].
Definition init_redis : list action := [Make Redis].
Definition init_managers : list action := [Make Subscriptions; Make Sessions].
Definition init_services : list action :=
  [Make Auth; Use Sessions; Use Subscriptions; Make Presence; Use Gateway; Make Users; Use Gateway; Make Hubs;
   Use Gateway; Make Messages; Use Messages; Use Redis; Use Sessions; Use Subscriptions; Use Hubs; Use Sink;
   Make Voice; Use Redis; Make Invites; Use Auth; Use Messages; Use Hubs; Use Voice; Use Users; Use Presence;
   Use Audit; Use Subscriptions; Use Sessions; Use Events; Use Invites; Make Context].
Definition init_dispatcher : list action := [Make Dispatch; Use Dispatch].
Definition init_workers : list action := [Use Events; Use Sink; Use Dispatch; Use Context; Make Pool].

(** [recover_from_restart], [start_reconcile_loop] and the webhook's callback
    use the voice service. *)
Definition bootstrap : list action :=
  ([Require Sink] ++ init_database ++ init_redis ++ init_managers ++ init_services ++ [Use Voice; Use Voice; Use Voice] ++
   init_dispatcher ++ init_workers)%list.
Definition start : list action := [Use Pool].
Definition stop : list action := [UseIfSet Voice; UseIfSet Messages; UseIfSet Audit; Use Pool].
Definition online_user_count : list action := [UseIfSet Presence].
Definition active_webrtc_user_count : list action := [UseIfSet Voice].

(** The constructor makes the queue; [Server::init_stacks] uses it for every
    stack, with the two counters, and attaches the sink. *)
Definition construct : list action := [Make Events].
Definition init_stacks (stacks : nat) : list action := (replicate stacks (Use Events) ++ [Make Sink])%list.

Definition server_start (stacks : nat) : list action := (init_stacks stacks ++ bootstrap ++ start)%list.

(** The order is right when every use comes after the construction. *)
Fixpoint ordered (l : list action) (made : list part) : bool :=
  match l with
  | [] => true
  | Make p :: l' => ordered l' (p :: made)
  | Use p :: l' | Require p :: l' => bool_decide (p ∈ made) && ordered l' made
  | UseIfSet _ :: l' => ordered l' made
  end.

Fixpoint made_by (l : list action) (made : list part) : list part :=
  match l with
  | [] => made
  | Make p :: l' => made_by l' (p :: made)
  | _ :: l' => made_by l' made
  end.

Lemma exec_ordered throws l made :
  ordered l made = true ->
  exec throws l made = Done (made_by l made) \/
  exists a m, throws a = true /\ exec throws l made = Threw m.
Proof.
  revert made. induction l as [|[p|p|p|p] l IH]; intros made Ho; cbn in Ho |- *; [by left|..];
    try (apply andb_prop in Ho as [Hp Ho]; rewrite Hp).
  - destruct (throws (Make p)) eqn:E; eauto.
  - destruct (throws (Use p)) eqn:E; eauto.
  - destruct (bool_decide (p ∈ made)), (throws (Use p)) eqn:E; cbn; eauto.
  - eauto.
Qed.

Lemma ordered_uses p n l made :
  p ∈ made -> ordered (replicate n (Use p) ++ l) made = ordered l made.
Proof. intros Hp. induction n as [|n IH]; [done|]. cbn. by rewrite bool_decide_eq_true_2, IH. Qed.

Lemma made_by_uses p n l made : made_by (replicate n (Use p) ++ l) made = made_by l made.
Proof. by induction n. Qed.

Lemma server_start_ordered stacks : ordered (construct ++ server_start stacks) [] = true.
Proof.
  unfold server_start, init_stacks. rewrite <-(assoc_L app). cbn [construct app ordered].
  rewrite ordered_uses by left. by vm_compute.
Qed.

Lemma server_start_makes stacks p : p ∈ made_by (construct ++ server_start stacks) [].
Proof.
  unfold server_start, init_stacks. rewrite <-(assoc_L app). cbn [construct app made_by].
  rewrite made_by_uses. destruct p; apply list_elem_of_In; cbn; tauto.
Qed.

(** C35: the server is wired in an order that uses nothing before it exists.
    Whatever throws on the way, starting never follows a null pointer; if nothing
    throws it completes, and then every part is made; and stopping a
    server that started follows none either, whatever throws then. *)
Theorem wiring_order_sound (throws later : action -> bool) (stacks : nat) :
  let run := exec throws (construct ++ server_start stacks) [] in
  (forall p, run <> NullDereference p) /\
  ((forall a, throws a = false) -> exists made, run = Done made) /\
  (forall made, run = Done made ->
    (forall p, p ∈ made) /\ forall p, exec later stop made <> NullDereference p).
Proof.
  cbv zeta.
  destruct (exec_ordered throws _ [] (server_start_ordered stacks)) as [->|(a & m & Ha & ->)].
  - pose proof (server_start_makes stacks) as Hm. revert Hm. generalize (made_by (construct ++ server_start stacks) []).
    intros m Hm. split_and!; [done|eauto|]. intros made [= <-]. split; [done|]. intros p.
    assert (ordered stop m = true) as Ho by (cbn [stop ordered]; by rewrite bool_decide_eq_true_2).
    by destruct (exec_ordered later stop m Ho) as [->|(? & ? & ? & ->)].
  - split_and!; [done| |done]. intros Hn. by rewrite Hn in Ha.
Qed.

(** [stop] is not safe before: a stack whose bootstrap failed has no pool. *)
Example stop_after_failed_bootstrap :
  exec (fun a => match a with Make Gateway => true | _ => false end) (construct ++ server_start 1) [] = Threw [Sink; Events] /\
  exec (fun _ => false) stop [Sink; Events] = NullDereference Pool.
Proof. done. Qed.

(** ** Stopping while workers run

    [stop] destroys the asynchronous writer before it stops the workers; a
    worker in [MessageService::sendMessage] first tests the pointer, then
    calls through it. *)

Inductive stop_pc := Running | WriterStopped | WriterReset | AuditStopped | WorkersStopped.
Inductive worker_pc := Ready | SawWriter | Enqueued | WroteItself | UsedAfterFree.
Record shutdown := mkShutdown { pc : stop_pc; worker : worker_pc }.

Inductive shutdown_step : shutdown -> shutdown -> Prop :=
  | stop_writer w : shutdown_step (mkShutdown Running w) (mkShutdown WriterStopped w)
  | reset_writer w : shutdown_step (mkShutdown WriterStopped w) (mkShutdown WriterReset w)
  | stop_audit w : shutdown_step (mkShutdown WriterReset w) (mkShutdown AuditStopped w)
  | stop_workers w : shutdown_step (mkShutdown AuditStopped w) (mkShutdown WorkersStopped w)
  | test_set p : p = Running \/ p = WriterStopped -> shutdown_step (mkShutdown p Ready) (mkShutdown p SawWriter)
  | test_null p : p = WriterReset \/ p = AuditStopped -> shutdown_step (mkShutdown p Ready) (mkShutdown p WroteItself)
  | enqueue p : p = Running \/ p = WriterStopped -> shutdown_step (mkShutdown p SawWriter) (mkShutdown p Enqueued)
  | enqueue_freed p : p = WriterReset \/ p = AuditStopped ->
      shutdown_step (mkShutdown p SawWriter) (mkShutdown p UsedAfterFree).

(** A worker that has seen the writer uses it after it is destroyed; one that
    enqueues after the writer's thread has ended leaves a message that was
    accepted and is never written. *)
Example shutdown_frees_writer_in_use :
  rtc shutdown_step (mkShutdown Running Ready) (mkShutdown WriterReset UsedAfterFree) /\
  rtc shutdown_step (mkShutdown Running Ready) (mkShutdown WorkersStopped Enqueued).
Proof.
  split.
  - eapply rtc_l; [by apply test_set; left|]. eapply rtc_l; [apply stop_writer|]. eapply rtc_l; [apply reset_writer|].
    eapply rtc_l; [by apply enqueue_freed; left|]. apply rtc_refl.
  - eapply rtc_l; [apply stop_writer|]. eapply rtc_l; [by apply test_set; right|].
    eapply rtc_l; [by apply enqueue; right|]. eapply rtc_l; [apply reset_writer|].
    eapply rtc_l; [apply stop_audit|]. eapply rtc_l; [apply stop_workers|]. apply rtc_refl.
Qed.

End AppStack.
