(* ===== verification/Invites.v ===== *)
(** * Invite links

    [app/services/invite/InviteService.cpp], and the way the commands read a
    link back ([JoinHubByInviteCommand.cpp], [ValidateHubInviteCommand.cpp]).
    Redis is the parameter [External X]. *)

From S2P Require Import Prelude.
From S2P Require Import CStrings.
From S2P Require Import Ids.
From S2P Require Import Endpoints.
From S2P Require Import External.
From Stdlib Require Import Ascii.

Local Open Scope string_scope.

Module InviteService.

Definition INVITE_TTL : Z := 3600.
Definition MIN_REUSE_TTL : Z := 180.
Definition REDIS_KEY_PREFIX : string := "invite:".
Definition REDIS_HUB_KEY_PREFIX : string := "invite_hub:".
Definition BASE62_CHARS : string :=
  "abcdefghijklmnopqrstuvwxyzABCDEFGHIJKLMNOPQRSTUVWXYZ0123456789".
Definition TOKEN_LENGTH : nat := 10.

Definition token_key (token : string) : string := REDIS_KEY_PREFIX ++ token.
Definition hub_key (hub : HubId) : string := REDIS_HUB_KEY_PREFIX ++ hub_value hub.

(** The token of a link or the bare token the client typed. *)
Definition invite_token (raw_code : string) : string :=
  match String.index 0 "/invite/" raw_code with
  | Some invite_pos => drop_chars (invite_pos + 8) raw_code
  | None => raw_code
  end.

Section Service.
Context {X : Type} `{External X} `{Uniform}.

(** One character per draw. *)
Fixpoint token_chars (n : nat) : ST X string :=
  match n with
  | O => st_ret ""
  | S n' =>
    (r <-- rng_next;
     rest <-- token_chars n';
     st_ret (match String.get (Z.to_nat (uniform 61 r)) BASE62_CHARS with
             | Some c => String c rest
             | None => rest
             end))%st
  end.

Definition generate_token : ST X string := token_chars TOKEN_LENGTH.

Variable base_url_ : string.

(** A new token, stored under both keys. *)
Definition new_invite (hub_id : HubId) : ST X string :=
  (token <-- generate_token;
   RedisClient.setex (token_key token) INVITE_TTL (hub_value hub_id);;;
   RedisClient.setex (hub_key hub_id) INVITE_TTL token;;;
   st_ret (base_url_ ++ "/" ++ token))%st.

Definition createInvite (hub_id : HubId) : ST X string :=
  (existing_token <-- RedisClient.get (hub_key hub_id);
   match existing_token with
   | Some token =>
     remaining <-- RedisClient.ttl (token_key token);
     match remaining with
     | Some n => if (MIN_REUSE_TTL <=? n)%Z then st_ret (base_url_ ++ "/" ++ token)
                 else new_invite hub_id
     | None => new_invite hub_id
     end
   | None => new_invite hub_id
   end)%st.

Definition resolveInvite (token : string) : ST X (option HubId) :=
  (value <-- RedisClient.get (token_key token);
   st_ret (mkHubId <$> value))%st.

Definition revokeInvitesForHub (hub_id : HubId) : ST X unit :=
  (existing_token <-- RedisClient.get (hub_key hub_id);
   match existing_token with
   | Some token => RedisClient.del (token_key token)
   | None => st_ret tt
   end;;;
   RedisClient.del (hub_key hub_id))%st.

End Service.

(** ** Tokens *)

Lemma base62_get n : (n < 62)%nat -> exists c, String.get n BASE62_CHARS = Some c /\
  islower c || isupper c || isdigit c = true.
Proof.
  intros Hn. assert (Hall : forallb (fun n => match String.get n BASE62_CHARS with
      | Some c => islower c || isupper c || isdigit c | None => false end) (seq 0 62) = true)
    by (vm_compute; reflexivity).
  rewrite forallb_forall in Hall. specialize (Hall n (proj2 (in_seq 62 0 n) ltac:(lia))).
  destruct (String.get n BASE62_CHARS) as [c|]; [eauto|done].
Qed.

(** A token is ten letters and digits. *)
Lemma token_chars_shape {X} `{External X} `{Uniform} n : forall x,
  String.length (token_chars n x).1 = n /\
  all_chars (fun c => islower c || isupper c || isdigit c) (token_chars n x).1 = true.
Proof.
  induction n as [|n IH]; intros x; [done|]. cbn [token_chars]. unfold st_bind, st_ret.
  destruct (rng_next x) as [r x1]. destruct (IH x1) as [Hl Hc].
  destruct (token_chars n x1) as [rest x2]. simpl in Hl, Hc.
  pose proof (uniform_range 61 r ltac:(lia)) as Hr.
  destruct (base62_get (Z.to_nat (uniform 61 r))) as (c & -> & Hch); [lia|]. simpl.
  by rewrite Hch, Hl, Hc.
Qed.

(** ** Reading a link back *)

Lemma prefix_cons c p d s :
  String.prefix (String c p) (String d s) = bool_decide (c = d) && String.prefix p s.
Proof.
  cbn [String.prefix]. destruct (ascii_dec c d) as [->|Hne].
  - by rewrite bool_decide_eq_true_2.
  - by rewrite bool_decide_eq_false_2.
Qed.

Lemma index_cons p c s :
  String.index 0 p (String c s) =
    if String.prefix p (String c s) then Some 0 else S <$> String.index 0 p s.
Proof.
  cbn [String.index]. destruct (String.prefix p (String c s)); [done|].
  by destruct (String.index 0 p s).
Qed.

Lemma drop_chars_app a b : drop_chars (String.length a) (a ++ b) = b.
Proof. induction a as [|c a IH]; [done|]. rewrite app_cons. apply IH. Qed.

Lemma prefix_self p s : String.prefix p (p ++ s) = true.
Proof.
  induction p as [|c p IH]; [by destruct s|]. rewrite app_cons, prefix_cons, IH.
  by rewrite bool_decide_eq_true_2.
Qed.

Lemma index_after_authority a rest : PublicEndpointConfig.no_slash a ->
  String.index 0 "/invite/" (a ++ "/invite/" ++ rest) = Some (String.length a).
Proof.
  unfold PublicEndpointConfig.no_slash. induction a as [|c a IH].
  { intros _. change ("" ++ "/invite/" ++ rest) with (String "/" ("invite/" ++ rest)).
    rewrite index_cons. change (String "/" ("invite/" ++ rest)) with ("/invite/" ++ rest).
    by rewrite prefix_self. }
  rewrite app_cons. cbn [all_chars String.length]. rewrite andb_true_iff. intros [Hc Ha].
  apply bool_decide_eq_true_1 in Hc. rewrite index_cons, prefix_cons, IH by done.
  by rewrite bool_decide_eq_false_2 by congruence.
Qed.

(** Two texts without a slash that meet one at the same place are equal. *)
Lemma prefix_to_slash p : forall a rest,
  PublicEndpointConfig.no_slash a -> PublicEndpointConfig.no_slash p ->
  String.prefix (p ++ "/") (a ++ "/" ++ rest) = true -> a = p.
Proof.
  unfold PublicEndpointConfig.no_slash.
  induction p as [|c p IH]; intros a rest; destruct a as [|d a]; cbn [all_chars]; [done|..];
    rewrite ?andb_true_iff.
  - intros [Hd%bool_decide_eq_true_1 _] _.
    change (String.prefix (String "/" "") (String d (a ++ "/" ++ rest)) = true -> String d a = "").
    rewrite prefix_cons. by rewrite bool_decide_eq_false_2 by congruence.
  - intros _ [Hc%bool_decide_eq_true_1 _].
    change (String.prefix (String c (p ++ "/")) (String "/" rest) = true -> "" = String c p).
    rewrite prefix_cons. by rewrite bool_decide_eq_false_2 by congruence.
  - intros [_ Ha] [_ Hp]. rewrite !app_cons, prefix_cons, andb_true_iff.
    intros [->%bool_decide_eq_true_1 Hpre]. f_equal. by eapply IH.
Qed.

(** A link into an origin whose host is not [invite] gives its token back. *)
Lemma invite_token_of_link authority token :
  PublicEndpointConfig.no_slash authority -> authority <> "invite" ->
  invite_token (("https://" ++ authority ++ "/invite") ++ "/" ++ token) = token.
Proof.
  intros Ha Hne.
  replace (("https://" ++ authority ++ "/invite") ++ "/" ++ token)
    with (("https://" ++ authority ++ "/invite/") ++ token) by by rewrite !app_text_assoc.
  unfold invite_token.
  assert (Hi : String.index 0 "/invite/" (("https://" ++ authority ++ "/invite/") ++ token) =
    Some (8 + String.length authority)).
  { rewrite !app_text_assoc.
    change ("https://" ++ authority ++ "/invite/" ++ token) with
      (String "h" (String "t" (String "t" (String "p" (String "s" (String ":" (String "/"
        (String "/" (authority ++ "/invite/" ++ token))))))))).
    assert (Hp : String.prefix "invite/" (authority ++ "/invite/" ++ token) = false).
    { apply not_true_is_false. intros Hp. apply Hne.
      by apply (prefix_to_slash "invite" authority ("invite/" ++ token)). }
    do 8 rewrite index_cons. rewrite index_after_authority by done.
    rewrite (prefix_cons "/" "invite/" "/" (authority ++ _)), Hp, andb_false_r. done. }
  rewrite Hi. replace (8 + String.length authority + 8) with
    (String.length ("https://" ++ authority ++ "/invite/")).
  - apply drop_chars_app.
  - rewrite !length_text_app. simpl. lia.
Qed.

(** ** The life of a link *)

(** What the service relies on of Redis: [store] is its live keys. *)
Class RedisLaws (X : Type) `{External X} := {
  store : X -> gmap string string;
  law_setex k ttl v x : (0 < ttl)%Z ->
    match redis_setex k ttl v x with
    | (Some _, x') => store x' = <[k := v]> (store x)
    | (None, x') => True
    end;
  law_get k x : store (redis_get k x).2 = store x /\
    match (redis_get k x).1 with Some r => r = store x !! k | None => True end;
  law_del k x :
    match redis_del k x with
    | (Some _, x') => store x' = delete k (store x)
    | (None, x') => True
    end;
  law_ttl k x : store (redis_ttl k x).2 = store x /\
    match (redis_ttl k x).1 with
    | Some n => (0 <= n)%Z -> is_Some (store x !! k)
    | None => True
    end;
  law_rng x : store (rng_next x).2 = store x;
  (** reachable, and so for the duration of a command *)
  up : X -> Prop;
  up_setex k ttl v x : up x -> is_Some (redis_setex k ttl v x).1 /\ up (redis_setex k ttl v x).2;
  up_get k x : up x -> is_Some (redis_get k x).1 /\ up (redis_get k x).2;
  up_del k x : up x -> is_Some (redis_del k x).1 /\ up (redis_del k x).2;
  up_ttl k x : up x -> is_Some (redis_ttl k x).1 /\ up (redis_ttl k x).2;
  up_rng x : up x -> up (rng_next x).2
}.

Section Life.
Context {X : Type} `{External X} `{Uniform} `{!RedisLaws X}.

(** The reverse key of a hub names a token that is the hub's, or expired. *)
Definition links_ok (x : X) : Prop :=
  forall h tok, store x !! hub_key h = Some tok ->
    store x !! token_key tok = None \/ store x !! token_key tok = Some (hub_value h).

Lemma keys_differ tok h : token_key tok <> hub_key h.
Proof. done. Qed.

Lemma token_key_inj t1 t2 : token_key t1 = token_key t2 -> t1 = t2.
Proof.
  intros Ht%(f_equal (drop_chars (String.length REDIS_KEY_PREFIX))). unfold token_key in Ht.
  by rewrite !drop_chars_app in Ht.
Qed.

Lemma hub_key_inj h1 h2 : hub_key h1 = hub_key h2 -> h1 = h2.
Proof.
  intros Hh%(f_equal (drop_chars (String.length REDIS_HUB_KEY_PREFIX))). unfold hub_key in Hh.
  rewrite !drop_chars_app in Hh. destruct h1, h2. simpl in Hh. by subst.
Qed.

Lemma client_get k x : up x ->
  up (RedisClient.get k x).2 /\ store (RedisClient.get k x).2 = store x /\
  (RedisClient.get k x).1 = store x !! k.
Proof.
  intros Hup. unfold RedisClient.get. destruct (law_get k x) as [Hs Hr].
  destruct (up_get k x Hup) as [[v Hv] Hu]. destruct (redis_get k x) as [r x']; simpl in *.
  by subst r.
Qed.

Lemma client_setex k ttl v x : up x -> (0 < ttl)%Z ->
  up (RedisClient.setex k ttl v x).2 /\ store (RedisClient.setex k ttl v x).2 = <[k := v]> (store x).
Proof.
  intros Hup Ht. unfold RedisClient.setex. pose proof (law_setex k ttl v x Ht) as Hs.
  destruct (up_setex k ttl v x Hup) as [[r Hr] Hu]. destruct (redis_setex k ttl v x) as [o x'].
  simpl in *. by subst o.
Qed.

Lemma client_del k x : up x ->
  up (RedisClient.del k x).2 /\ store (RedisClient.del k x).2 = delete k (store x).
Proof.
  intros Hup. unfold RedisClient.del. pose proof (law_del k x) as Hs.
  destruct (up_del k x Hup) as [[r Hr] Hu]. destruct (redis_del k x) as [o x'].
  simpl in *. by subst o.
Qed.

Lemma client_ttl k x : up x ->
  up (RedisClient.ttl k x).2 /\ store (RedisClient.ttl k x).2 = store x /\
  forall n, (RedisClient.ttl k x).1 = Some n -> is_Some (store x !! k).
Proof.
  intros Hup. unfold RedisClient.ttl. destruct (law_ttl k x) as [Hs Hr].
  destruct (up_ttl k x Hup) as [[v Hv] Hu]. destruct (redis_ttl k x) as [r x']; simpl in *. subst r.
  split; [done|]. split; [done|]. intros n. simpl. destruct (Z.ltb_spec v 0); [done|]. by auto.
Qed.

Lemma token_chars_store n : forall x, up x ->
  up (token_chars n x).2 /\ store (token_chars n x).2 = store x.
Proof.
  induction n as [|n IH]; intros x Hup; [done|]. cbn [token_chars]. unfold st_bind.
  pose proof (law_rng x) as Hs. pose proof (up_rng x Hup) as Hu.
  destruct (rng_next x) as [r x1]. simpl in *. destruct (IH x1 Hu) as [Hu2 Hs2].
  destruct (token_chars n x1) as [rest x2]. simpl in *. by rewrite Hs2.
Qed.

Lemma new_invite_spec base hub x : up x ->
  exists tok, (new_invite base hub x).1 = base ++ "/" ++ tok /\ up (new_invite base hub x).2 /\
    store (new_invite base hub x).2 =
      <[hub_key hub := tok]> (<[token_key tok := hub_value hub]> (store x)).
Proof.
  intros Hup. unfold new_invite, generate_token, st_bind.
  destruct (token_chars_store TOKEN_LENGTH x Hup) as [Hu1 Hs1].
  destruct (token_chars TOKEN_LENGTH x) as [tok x1]. simpl in Hu1, Hs1.
  destruct (client_setex (token_key tok) INVITE_TTL (hub_value hub) x1 Hu1) as [Hu2 Hs2]; [done|].
  destruct (RedisClient.setex _ _ _ x1) as [[] x2]. simpl in Hu2, Hs2.
  destruct (client_setex (hub_key hub) INVITE_TTL tok x2 Hu2) as [Hu3 Hs3]; [done|].
  destruct (RedisClient.setex _ _ _ x2) as [[] x3]. simpl in Hu3, Hs3.
  exists tok. split_and!; [done|done|]. cbn [st_ret snd]. by rewrite Hs3, Hs2, Hs1.
Qed.

(** Either the registered token is reused and alive, or a new one is stored. *)
Lemma createInvite_spec base hub x : up x -> links_ok x ->
  exists tok, (createInvite base hub x).1 = base ++ "/" ++ tok /\ up (createInvite base hub x).2 /\
    store (createInvite base hub x).2 !! token_key tok = Some (hub_value hub) /\
    (store (createInvite base hub x).2 = store x \/
     store (createInvite base hub x).2 =
       <[hub_key hub := tok]> (<[token_key tok := hub_value hub]> (store x))).
Proof.
  intros Hup Hok.
  assert (Hnew : forall x', up x' -> store x' = store x -> exists tok,
    (new_invite base hub x').1 = base ++ "/" ++ tok /\ up (new_invite base hub x').2 /\
    store (new_invite base hub x').2 !! token_key tok = Some (hub_value hub) /\
    (store (new_invite base hub x').2 = store x \/ store (new_invite base hub x').2 =
       <[hub_key hub := tok]> (<[token_key tok := hub_value hub]> (store x)))).
  { intros x' Hu' Hs'. destruct (new_invite_spec base hub x' Hu') as (tok & H1 & H2 & H3).
    exists tok. rewrite H3, Hs'. split_and!; [done|done| |by right].
    rewrite lookup_insert_ne by done. by rewrite lookup_insert_eq. }
  unfold createInvite, st_bind.
  destruct (client_get (hub_key hub) x Hup) as (Hu1 & Hs1 & Hg).
  destruct (RedisClient.get (hub_key hub) x) as [existing x1]. simpl in Hu1, Hs1, Hg. subst existing.
  destruct (store x !! hub_key hub) as [tok|] eqn:Et; [|by apply Hnew].
  destruct (client_ttl (token_key tok) x1 Hu1) as (Hu2 & Hs2 & Ht).
  destruct (RedisClient.ttl (token_key tok) x1) as [remaining x2]. simpl in Hu2, Hs2, Ht.
  destruct remaining as [n|]; [|apply Hnew; congruence].
  destruct (MIN_REUSE_TTL <=? n)%Z; [|apply Hnew; congruence].
  exists tok. cbn [st_ret fst snd]. rewrite Hs2, Hs1. split_and!; [done|done| |by left].
  destruct (Ht n eq_refl) as [v Hv]. rewrite Hs1 in Hv.
  destruct (Hok hub tok Et) as [Hn|Hs]; congruence.
Qed.

(** An invite link works.  For an accepted origin, the link [createInvite]
    answers, read back the way the join command reads it, resolves to the hub
    it was created for, whether the registered token was reused or a new one
    was stored; and the two-way registration stays consistent unless the token
    drawn is another hub's.  (The origin [https://invite] is excluded: there
    the first "/invite/" of the link is the host's.) *)
Theorem invite_link_round_trip (key origin base : string) (hub : HubId) (x : X)
  `{InetPton} :
  PublicEndpointConfig.validate_origin key origin = Ok tt -> origin <> "https://invite" ->
  PublicEndpointConfig.invite_base_url (PublicEndpointConfig.mk origin "") = Ok base ->
  up x -> links_ok x ->
  let '(link, x1) := createInvite base hub x in
  (resolveInvite (invite_token link) x1).1 = Some hub /\
  ((forall h, h <> hub -> store x !! hub_key h <> Some (invite_token link)) -> links_ok x1).
Proof.
  intros Hv Hne Hb Hup Hok. destruct (PublicEndpointConfig.accepted_origin key origin Hv)
    as (a & -> & _ & Ha). injection Hb as <-.
  destruct (createInvite_spec ((PublicEndpointConfig.app_origin
    (PublicEndpointConfig.mk ("https://" ++ a) "")) ++ "/invite") hub x Hup Hok)
    as (tok & Hlink & Hup1 & Hres & Hst).
  destruct (createInvite _ hub x) as [link x1]. simpl in Hlink, Hup1, Hres, Hst. subst link.
  rewrite (app_text_assoc "https://" a "/invite"), invite_token_of_link; [|done|by intros ->].
  split.
  - unfold resolveInvite, st_bind. destruct (client_get (token_key tok) x1 Hup1) as (_ & _ & Hg).
    destruct (RedisClient.get _ x1). simpl in *. subst. rewrite Hres. by destruct hub.
  - intros Hfresh h t Ht. destruct Hst as [Hst|Hst]; rewrite Hst in Ht |- *; [by apply Hok|].
    rewrite (lookup_insert_ne _ (hub_key hub) (token_key t)) by done.
    destruct (decide (h = hub)) as [->|Hh].
    { rewrite lookup_insert_eq in Ht. injection Ht as <-. right. by rewrite lookup_insert_eq. }
    rewrite lookup_insert_ne in Ht by (intros Hk%hub_key_inj; congruence).
    rewrite lookup_insert_ne in Ht by done.
    rewrite lookup_insert_ne; [by apply Hok|]. intros Hk%token_key_inj. subst t.
    by apply (Hfresh h).
Qed.

(** Keys that expire keep the registration consistent. *)
Lemma links_ok_expire x x' : links_ok x -> store x' ⊆ store x -> links_ok x'.
Proof.
  intros Hok Hsub h tok Ht. pose proof (lookup_weaken _ _ _ _ Ht Hsub) as Ht'.
  destruct (store x' !! token_key tok) as [v|] eqn:E; [right|by left].
  pose proof (lookup_weaken _ _ _ _ E Hsub). destruct (Hok h tok Ht'); congruence.
Qed.

(** Revoking ends the registered link. *)
Lemma revoke_ends_registered_link hub tok x :
  up x -> store x !! hub_key hub = Some tok ->
  (resolveInvite tok (revokeInvitesForHub hub x).2).1 = None.
Proof.
  intros Hup Ht. unfold revokeInvitesForHub, st_bind.
  destruct (client_get (hub_key hub) x Hup) as (Hu1 & Hs1 & Hg).
  destruct (RedisClient.get (hub_key hub) x) as [r x1]. simpl in *. subst r. rewrite Ht.
  destruct (client_del (token_key tok) x1 Hu1) as [Hu2 Hs2].
  destruct (RedisClient.del (token_key tok) x1) as [[] x2]. simpl in *.
  destruct (client_del (hub_key hub) x2 Hu2) as [Hu3 Hs3].
  destruct (RedisClient.del (hub_key hub) x2) as [[] x3]. simpl in *.
  unfold resolveInvite, st_bind. destruct (client_get (token_key tok) x3 Hu3) as (_ & _ & Hg).
  destruct (RedisClient.get _ x3). simpl in *. subst. rewrite Hs3, Hs2.
  rewrite lookup_delete_ne by done. by rewrite lookup_delete_eq.
Qed.

End Life.

(** ** A Redis with expiry

    Keys carry the time they expire; the world has a clock. *)
Module Demo.

Record t := mk { keys : gmap string (string * Z); now : Z; draws : Z }.

Definition live (x : t) : gmap string string :=
  fst <$> filter (fun kv : string * (string * Z) => (now x < kv.2.2)%Z) (keys x).

#[export] Instance demo_redis : External t := {|
  redis_setex k ttl v x := (Some tt, mk (<[k := (v, now x + ttl)%Z]> (keys x)) (now x) (draws x));
  redis_setnx k v x := (Some true, x);
  redis_expire k ttl x := (Some tt, x);
  redis_get k x := (Some (live x !! k), x);
  redis_del k x := (Some tt, mk (delete k (keys x)) (now x) (draws x));
  redis_ttl k x :=
    (Some (match keys x !! k with
           | Some (_, e) => if (now x <? e)%Z then e - now x else -2
           | None => -2
           end)%Z, x);
  http_post url token body x := (mkHttp true 0 "", x);
  rand_bytes n x := (None, x);
  rng_next x := (draws x, mk (keys x) (now x) (draws x + 1)%Z);
  steady_now x := (now x, x);
  unix_now_seconds x := (now x, x);
  unix_now_ms x := ((now x * 1000)%Z, x);
  unix_now_us x := ((now x * 1000000)%Z, x)
|}.

Lemma live_lookup x k :
  live x !! k = '(v, e) ← keys x !! k; if decide (now x < e)%Z then Some v else None.
Proof.
  unfold live. rewrite lookup_fmap, map_lookup_filter.
  destruct (keys x !! k) as [[v e]|]; [|done]. cbn. case_guard; by destruct (decide (now x < e)%Z).
Qed.

#[export] Program Instance demo_laws : RedisLaws t := {| store := live; up x := True |}.
Next Obligation.
  intros k ttl v x Ht. simpl. apply map_eq. intros i. rewrite live_lookup. simpl.
  destruct (decide (i = k)) as [->|Hne].
  - rewrite !lookup_insert_eq. simpl. by rewrite decide_True by lia.
  - rewrite !lookup_insert_ne, live_lookup by done. done.
Qed.
Next Obligation. done. Qed.
Next Obligation.
  intros k x. simpl. apply map_eq. intros i. rewrite live_lookup. simpl.
  destruct (decide (i = k)) as [->|Hne].
  - by rewrite !lookup_delete_eq.
  - by rewrite !lookup_delete_ne, live_lookup.
Qed.
Next Obligation.
  intros k x. simpl. split; [done|]. rewrite live_lookup.
  destruct (keys x !! k) as [[v e]|]; simpl; [|lia].
  destruct (Z.ltb_spec (now x) e); [rewrite decide_True by done; eauto|lia].
Qed.
Next Obligation. done. Qed.
Next Obligation. by split; [eexists|]. Qed.
Next Obligation. by split; [eexists|]. Qed.
Next Obligation. by split; [eexists|]. Qed.
Next Obligation. by split; [eexists|]. Qed.
Next Obligation. done. Qed.

#[export] Instance demo_inet : InetPton := {| inet_pton4 s := false; inet_pton6 s := false |}.

Definition start : t := mk ∅ 0 7.
Definition wait (n : Z) (x : t) : t := mk (keys x) (now x + n)%Z (draws x).
Definition hub : HubId := mkHubId "h0".
Definition base : string := "https://kergit.example/invite".

End Demo.
Import Demo.

Lemma invite_link_round_trip_witness :
  (resolveInvite (invite_token (createInvite base hub start).1) (createInvite base hub start).2).1
    = Some hub.
Proof.
  pose proof (invite_link_round_trip "WEB_DOMAIN" "https://kergit.example" base hub start) as H.
  specialize (H ltac:(vm_compute; reflexivity) ltac:(done) ltac:(vm_compute; reflexivity) I).
  destruct (createInvite base hub start) as [link x1]. simpl. apply H.
  intros h tok Ht. vm_compute in Ht. done.
Defined.

(** A link handed out shortly before it would be renewed outlives a
    revocation: the registration has moved on to the newer token, and only that
    one is deleted. *)
Example old_link_survives_revoke :
  let '(link1, x1) := createInvite base hub start in
  let '(link2, x2) := createInvite base hub (wait 3500 x1) in
  let '(_, x3) := revokeInvitesForHub hub x2 in
  (resolveInvite (invite_token link2) x3).1 = None /\
  (resolveInvite (invite_token link1) x3).1 = Some hub.
Proof. vm_compute. done. Qed.

(** On the origin [https://invite] the join command looks for another token. *)
Example invite_host_link_broken :
  PublicEndpointConfig.validate_origin "WEB_DOMAIN" "https://invite" = Ok tt /\
  invite_token ("https://invite/invite" ++ "/" ++ "abc") = "invite/abc".
Proof. vm_compute. done. Qed.

End InviteService.
