(* ===== verification/Auth.v ===== *)
(** * Authentication

    [infra/security/token/SupabaseVerifier.cpp] and
    [app/services/auth/AuthService.cpp]: the ES256 tokens of Supabase, checked
    against the configured public keys.  jwt-cpp (splitting and decoding a
    token) and OpenSSL (points on P-256 and the signature equation) are
    parameters.  [JwtScan] models the unused scanner of
    [infra/security/token/JwtJsonUtils.cpp]. *)

From S2P Require Import Prelude.
From S2P Require Import CStrings.
From S2P Require Import Ids.
From S2P Require Import Endpoints.
From S2P Require Import External.
From S2P Require Import OriginPolicy.
From S2P Require Import EnvConfig.
From S2P Require Import ControlHttp.
From Stdlib Require Import Ascii.

Local Open Scope string_scope.

(** ** The libraries *)

(** [jwt::decoded_jwt]: the claims, and the parts the signature is over. *)
Record DecodedJwt := mkDecoded {
  dj_header : gmap string json; dj_payload : gmap string json;
  header_b64 : string; payload_b64 : string; signature_raw : string }.

Class JwtLib := {
  jwt_decode : string -> option DecodedJwt;       (* [None]: throws *)
  decode_b64url : string -> option string;        (* [None]: throws *)
  (** [EVP_PKEY] *)
  PKey : Type;
  (** [EC_KEY_set_public_key_affine_coordinates] on P-256 and the calls around
      it; [None] when one fails *)
  ec_public_key : string -> string -> option PKey;
  (** the DER form of the two 32-byte integers, and [EVP_DigestVerify] with
      SHA-256 over the message *)
  ecdsa_sha256_verify : PKey -> string -> string -> bool
}.

Inductive JwtVerifyError :=
  | EmptyToken | InvalidFormat | UnsupportedAlgorithm | InvalidSignature | TokenExpired
  | TokenNotYetValid | MissingClaims | KeyNotFound | JwkParseError | IssuerMismatch
  | AudienceMismatch.

Record UserClaims := mkUserClaims {
  uc_id : string; uc_iss : string; uc_aud : string; uc_exp : Z; uc_iat : Z; uc_role : string }.

Module SupabaseVerifier.

Record SupabaseJWK := mkJwk {
  kty : string; jwk_alg : string; kid : string; jwk_x : string; jwk_y : string; crv : string;
  jwk_n : string; jwk_e : string }.

Inductive ClaimType := CBool | CInteger | CNumber | CString | CArray | CObject.

(** [claim.get_type()]: throws ([None]) for null. *)
Definition get_type (j : json) : option ClaimType :=
  match j with
  | JNull => None
  | JBool _ => Some CBool
  | JUnsigned _ | JInteger _ => Some CInteger
  | JFloat _ => Some CNumber
  | JString _ => Some CString
  | JArray _ => Some CArray
  | JObject _ => Some CObject
  end.

Definition as_string (j : json) : option string := match j with JString s => Some s | _ => None end.
Definition as_integer (j : json) : option Z :=
  match j with JUnsigned n | JInteger n => Some n | _ => None end.

Section Verifier.
Context {X : Type} `{External X} `{JsonLib} `{JwtLib}.

Record KeyMaterial := mkKeyMaterial { key_jwk : SupabaseJWK; pkey : PKey }.

Record t := mk {
  keys_ : gmap string KeyMaterial;
  key_order_ : list string;
  expected_issuer_ : string;
  expected_audience_ : string
}.

(** The first element of an audience, when it is text. *)
Definition audience (j : json) : option string :=
  match j with
  | JString s => Some s
  | JArray (JString s :: _) => Some s
  | _ => None
  end.

(** A claim that is absent or of another type is left at its default; null
    throws, which the caller turns into [None]. *)
Definition optional_claim {A} (payload : gmap string json) (name : string)
  (read : json -> option A) (dflt : A) : option A :=
  match payload !! name with
  | None => Some dflt
  | Some j => _ ← get_type j; Some (default dflt (read j))
  end.

Definition fill_claims (decoded : DecodedJwt) : option UserClaims :=
  let p := dj_payload decoded in
  sub ← p !! "sub"; iss_claim ← p !! "iss"; aud_claim ← p !! "aud"; exp_claim ← p !! "exp";
  id ← as_string sub;
  iss ← as_string iss_claim;
  aud ← audience aud_claim;
  exp ← as_integer exp_claim;
  iat ← optional_claim p "iat" as_integer 0%Z;
  role ← optional_claim p "role" as_string "";
  if negb (bool_decide (id = "")) && negb (exp =? 0)%Z && negb (bool_decide (iss = "")) &&
     negb (bool_decide (aud = ""))
  then Some (mkUserClaims id iss aud exp iat role)
  else None.

Definition verify_es256_signature (k : PKey) (h p sig : string) : bool :=
  if negb (String.length sig =? 64)%nat then false
  else ecdsa_sha256_verify k (h ++ "." ++ p) sig.

(** [None]: [json::value] throws (not an object, or a value of another type);
    [Some None]: not JSON. *)
Definition parse_jwk_json (jwk_json : string) : option (option SupabaseJWK) :=
  match json_parse jwk_json with
  | None => Some None
  | Some j =>
    kty ← value_string j "kty" ""; alg ← value_string j "alg" ""; kid ← value_string j "kid" "";
    x ← value_string j "x" ""; y ← value_string j "y" ""; crv ← value_string j "crv" "";
    n ← value_string j "n" ""; e ← value_string j "e" "";
    Some (Some (mkJwk kty alg kid x y crv n e))
  end.

Definition build_public_key (jwk : SupabaseJWK) : option PKey :=
  if bool_decide (jwk_x jwk = "") || bool_decide (jwk_y jwk = "") then None
  else
    x_bytes ← decode_b64url (jwk_x jwk);
    y_bytes ← decode_b64url (jwk_y jwk);
    if negb (String.length x_bytes =? 32)%nat || negb (String.length y_bytes =? 32)%nat then None
    else ec_public_key x_bytes y_bytes.

(** One configured key; [None]: an exception. *)
Definition load_key (text : string) : option (expected KeyMaterial JwtVerifyError) :=
  jwk ← parse_jwk_json text;
  Some (match jwk with
        | None => Unexpected JwkParseError
        | Some jwk =>
          if bool_decide (kid jwk = "") then Unexpected JwkParseError
          else match build_public_key jwk with
               | None => Unexpected JwkParseError
               | Some k => Ok (mkKeyMaterial jwk k)
               end
        end).

(** [emplace] keeps the key already there under the same id. *)
Definition emplace (m : gmap string KeyMaterial) (k : KeyMaterial) : gmap string KeyMaterial :=
  match m !! kid (key_jwk k) with
  | Some _ => m
  | None => <[kid (key_jwk k) := k]> m
  end.

Definition create (env : Env) (expected_issuer : string) : option (expected t JwtVerifyError) :=
  let current := default "" (env "SUPABASE_JWT_CURRENT_KEY") in
  if bool_decide (current = "") then Some (Unexpected KeyNotFound)
  else
    current_key ← load_key current;
    match current_key with
    | Unexpected e => Some (Unexpected e)
    | Ok ck =>
      let keys := emplace ∅ ck in
      let audience := default "" (env "SUPABASE_EXPECTED_AUD") in
      let standby := default "" (env "SUPABASE_JWT_STANDBY_KEY") in
      if bool_decide (standby = "")
      then Some (Ok (mk keys [kid (key_jwk ck)] expected_issuer audience))
      else
        standby_key ← load_key standby;
        Some (match standby_key with
              | Unexpected e => Unexpected e
              | Ok sk => Ok (mk (emplace keys sk) [kid (key_jwk ck); kid (key_jwk sk)]
                               expected_issuer audience)
              end)
    end.

Definition verify_with_key (alg : string) (decoded : DecodedJwt) (k : KeyMaterial) : bool :=
  if negb (bool_decide (jwk_alg (key_jwk k) = "")) && negb (bool_decide (jwk_alg (key_jwk k) = alg))
  then false
  else verify_es256_signature (pkey k) (header_b64 decoded) (payload_b64 decoded)
         (signature_raw decoded).

(** The signature, by the key the token names or by any key in order;
    [Unexpected InvalidFormat] where the key id is not text. *)
Definition check_signature (v : t) (alg : string) (decoded : DecodedJwt)
  : expected unit JwtVerifyError :=
  match (match dj_header decoded !! "kid" with
         | Some j => as_string j
         | None => Some ""
         end) with
  | None => Unexpected InvalidFormat
  | Some kid =>
    if negb (bool_decide (kid = "")) then
      match keys_ v !! kid with
      | None => Unexpected KeyNotFound
      | Some k => if verify_with_key alg decoded k then Ok tt else Unexpected InvalidSignature
      end
    else if existsb (fun id => match keys_ v !! id with
                               | Some k => verify_with_key alg decoded k
                               | None => false
                               end) (key_order_ v)
    then Ok tt else Unexpected InvalidSignature
  end.

(** The checks after the claims have been read, at time [sec]. *)
Definition check_claims (v : t) (decoded : DecodedJwt) (claims : UserClaims) (sec : Z)
  : expected UserClaims JwtVerifyError :=
  let too_early :=
    match dj_payload decoded !! "nbf" with
    | None => None
    | Some j =>
      match get_type j with
      | None => Some InvalidFormat
      | Some _ =>
        match as_integer j with
        | None => Some MissingClaims
        | Some nbf => if (sec <? nbf)%Z then Some TokenNotYetValid else None
        end
      end
    end in
  match too_early with
  | Some e => Unexpected e
  | None =>
    if (uc_exp claims <? sec)%Z then Unexpected TokenExpired
    else if negb (bool_decide (expected_issuer_ v = "")) &&
            negb (bool_decide (uc_iss claims = expected_issuer_ v)) then Unexpected IssuerMismatch
    else if negb (bool_decide (expected_audience_ v = "")) &&
            negb (bool_decide (uc_aud claims = expected_audience_ v))
    then Unexpected AudienceMismatch
    else Ok claims
  end.

Definition verify_token (v : t) (token : string) : ST X (expected UserClaims JwtVerifyError) :=
  if bool_decide (token = "") then st_ret (Unexpected EmptyToken)
  else
    match jwt_decode token with
    | None => st_ret (Unexpected InvalidFormat)
    | Some decoded =>
      match j ← dj_header decoded !! "alg"; as_string j with
      | None => st_ret (Unexpected InvalidFormat)
      | Some alg =>
        if negb (bool_decide (alg = "ES256")) then st_ret (Unexpected UnsupportedAlgorithm)
        else
          match check_signature v alg decoded with
          | Unexpected e => st_ret (Unexpected e)
          | Ok _ =>
            match fill_claims decoded with
            | None => st_ret (Unexpected MissingClaims)
            | Some claims =>
              (sec <-- unix_now_seconds; st_ret (check_claims v decoded claims sec))%st
            end
          end
      end
    end.

(** ** What is accepted *)

(** A configured key signed the token with ES256. *)
Definition signed_by (v : t) (d : DecodedJwt) (k : KeyMaterial) : Prop :=
  (exists id, keys_ v !! id = Some k /\
     match dj_header d !! "kid" with
     | Some j => j = JString id /\ id <> "" \/ j = JString "" /\ id ∈ key_order_ v
     | None => id ∈ key_order_ v
     end) /\
  (jwk_alg (key_jwk k) = "" \/ jwk_alg (key_jwk k) = "ES256") /\
  String.length (signature_raw d) = 64 /\
  ecdsa_sha256_verify (pkey k) (header_b64 d ++ "." ++ payload_b64 d) (signature_raw d) = true.

(** A JSON integer. *)
Definition integer (j : json) (n : Z) : Prop := j = JUnsigned n \/ j = JInteger n.

(** The payload names the claims: a subject, issuer and audience that are not
    empty, the audience as text or as the first element of an array, and an
    expiry other than 0.  Issue time and role may be missing or of another type,
    but not null. *)
Definition carries (payload : gmap string json) (c : UserClaims) : Prop :=
  (payload !! "sub" = Some (JString (uc_id c)) /\ uc_id c <> "") /\
  (payload !! "iss" = Some (JString (uc_iss c)) /\ uc_iss c <> "") /\
  ((payload !! "aud" = Some (JString (uc_aud c)) \/
    exists others, payload !! "aud" = Some (JArray (JString (uc_aud c) :: others))) /\ uc_aud c <> "") /\
  ((exists j, payload !! "exp" = Some j /\ integer j (uc_exp c)) /\ uc_exp c <> 0%Z) /\
  match payload !! "iat" with
  | Some JNull => False
  | Some (JUnsigned n) | Some (JInteger n) => uc_iat c = n
  | _ => uc_iat c = 0%Z
  end /\
  match payload !! "role" with
  | Some JNull => False
  | Some (JString s) => uc_role c = s
  | _ => uc_role c = ""
  end.

(** The claims fit the verifier at time [sec]. *)
Definition claims_ok (v : t) (d : DecodedJwt) (c : UserClaims) (sec : Z) : Prop :=
  (forall j, dj_payload d !! "nbf" = Some j -> exists nbf, integer j nbf /\ (nbf <= sec)%Z) /\
  (sec <= uc_exp c)%Z /\
  (expected_issuer_ v = "" \/ uc_iss c = expected_issuer_ v) /\
  (expected_audience_ v = "" \/ uc_aud c = expected_audience_ v).

Lemma as_integer_spec j n : as_integer j = Some n <-> integer j n.
Proof. unfold integer. destruct j; simpl; naive_solver. Qed.
Lemma as_string_spec j s : as_string j = Some s <-> j = JString s.
Proof. destruct j; simpl; naive_solver. Qed.
Lemma audience_spec j s :
  audience j = Some s <-> j = JString s \/ exists others, j = JArray (JString s :: others).
Proof. destruct j as [| | | | | |[|[] l]|]; simpl; naive_solver. Qed.

Lemma fill_claims_spec d c : fill_claims d = Some c <-> carries (dj_payload d) c.
Proof.
  unfold fill_claims, carries. set (p := dj_payload d). split.
  - intros Hf. repeat (apply bind_Some in Hf as (? & ? & Hf)).
    match type of Hf with (if ?b then _ else _) = _ => destruct b eqn:E; [|done] end.
    injection Hf as <-. simpl. rewrite !andb_true_iff, !negb_true_iff, !bool_decide_eq_false in E.
    destruct E as [[[Hid Hexp%Z.eqb_neq] Hiss] Haud].
    repeat match goal with
    | H : as_string _ = Some _ |- _ => apply as_string_spec in H as ->
    | H : as_integer _ = Some _ |- _ => apply as_integer_spec in H
    | H : audience _ = Some _ |- _ => apply audience_spec in H
    end.
    unfold optional_claim in *. split_and!; try done; [naive_solver|by eexists|..].
    + destruct (p !! "iat") as [[]|]; simplify_option_eq; done.
    + destruct (p !! "role") as [[]|]; simplify_option_eq; done.
  - intros ((-> & Hid) & (-> & Hiss) & (Haud & Haud') & ((j & -> & Hexp) & Hexp') & Hiat & Hrole).
    destruct c as [id iss aud exp iat role]. simpl in *.
    assert (exists a, p !! "aud" = Some a /\ audience a = Some aud) as (a & -> & Ha).
    { destruct Haud as [->|[l ->]]; eexists; (split; [done|]); done. }
    simpl. rewrite Ha. simpl. rewrite (proj2 (as_integer_spec _ _) Hexp). simpl.
    assert (optional_claim p "iat" as_integer 0%Z = Some iat) as ->.
    { unfold optional_claim. destruct (p !! "iat") as [[]|]; simpl; by subst. }
    simpl. assert (optional_claim p "role" as_string "" = Some role) as ->.
    { unfold optional_claim. destruct (p !! "role") as [[]|]; simpl; by subst. }
    simpl. rewrite !bool_decide_eq_false_2 by done. by rewrite (proj2 (Z.eqb_neq _ _) Hexp').
Qed.

Lemma verify_with_key_spec d k :
  verify_with_key "ES256" d k = true <->
  (jwk_alg (key_jwk k) = "" \/ jwk_alg (key_jwk k) = "ES256") /\
  String.length (signature_raw d) = 64 /\
  ecdsa_sha256_verify (pkey k) (header_b64 d ++ "." ++ payload_b64 d) (signature_raw d) = true.
Proof.
  unfold verify_with_key, verify_es256_signature.
  destruct (decide (jwk_alg (key_jwk k) = "")) as [E1|E1],
    (decide (jwk_alg (key_jwk k) = "ES256")) as [E2|E2];
    rewrite ?(bool_decide_eq_true_2 _ E1), ?(bool_decide_eq_false_2 _ E1),
      ?(bool_decide_eq_true_2 _ E2), ?(bool_decide_eq_false_2 _ E2); simpl;
    try (destruct (Nat.eqb_spec (String.length (signature_raw d)) 64); simpl; naive_solver);
    naive_solver.
Qed.

Lemma check_signature_spec v d :
  check_signature v "ES256" d = Ok tt <-> exists k, signed_by v d k.
Proof.
  unfold check_signature, signed_by.
  assert (Hany : existsb (fun id => match keys_ v !! id with
      | Some k => verify_with_key "ES256" d k | None => false end) (key_order_ v) = true <->
    exists k id, keys_ v !! id = Some k /\ id ∈ key_order_ v /\ verify_with_key "ES256" d k = true).
  { rewrite existsb_exists. split.
    - intros (id & Hin & Hv). destruct (keys_ v !! id) as [k|] eqn:E; [|done].
      exists k, id. by rewrite list_elem_of_In.
    - intros (k & id & Hk & Hin & Hv). exists id. rewrite Hk. by rewrite <- list_elem_of_In. }
  destruct (dj_header d !! "kid") as [j|] eqn:Ek.
  2:{ simpl. destruct (existsb _ _) eqn:Ee.
      - split; [intros _|done]. destruct (proj1 Hany eq_refl) as (k & id & Hk & Hin & Hv).
        exists k. rewrite <- verify_with_key_spec. eauto.
      - split; [done|]. intros (k & (id & Hk & Hin) & Hv). rewrite <- verify_with_key_spec in Hv.
        assert (false = true) by (apply Hany; eauto). done. }
  destruct (as_string j) as [s|] eqn:Ej.
  2:{ split; [done|]. intros (k & (id & Hk & [[-> _]|[-> _]]) & _); done. }
  destruct j; try done. injection Ej as ->.
  destruct (decide (s = "")) as [->|Hs].
  - rewrite bool_decide_eq_true_2 by done. simpl. destruct (existsb _ _) eqn:Ee.
    + split; [intros _|done]. destruct (proj1 Hany eq_refl) as (k & id & Hk & Hin & Hv).
      exists k. rewrite <- verify_with_key_spec. eauto 7.
    + split; [done|]. intros (k & (id & Hk & Hin) & Hv). rewrite <- verify_with_key_spec in Hv.
      assert (false = true) by (apply Hany; naive_solver). done.
  - rewrite bool_decide_eq_false_2 by done. simpl.
    destruct (keys_ v !! s) as [k|] eqn:E.
    + destruct (verify_with_key "ES256" d k) eqn:Ev.
      * split; [intros _|done]. exists k. rewrite <- verify_with_key_spec. eauto 7.
      * split; [done|]. intros (k' & (id & Hk & Hin) & Hv). rewrite <- verify_with_key_spec in Hv.
        destruct Hin as [[[= ->] _]|[[= ->] _]]; congruence.
    + split; [done|]. intros (k' & (id & Hk & Hin) & Hv).
      destruct Hin as [[[= ->] _]|[[= ->] _]]; congruence.
Qed.

Lemma check_claims_spec v d c sec r :
  check_claims v d c sec = Ok r <-> r = c /\ claims_ok v d c sec.
Proof.
  unfold check_claims, claims_ok.
  assert (Hrest : (if (uc_exp c <? sec)%Z then Unexpected TokenExpired
     else if negb (bool_decide (expected_issuer_ v = "")) &&
            negb (bool_decide (uc_iss c = expected_issuer_ v)) then Unexpected IssuerMismatch
     else if negb (bool_decide (expected_audience_ v = "")) &&
            negb (bool_decide (uc_aud c = expected_audience_ v))
     then Unexpected AudienceMismatch else Ok c) = Ok r <->
    r = c /\ (sec <= uc_exp c)%Z /\ (expected_issuer_ v = "" \/ uc_iss c = expected_issuer_ v) /\
    (expected_audience_ v = "" \/ uc_aud c = expected_audience_ v)).
  { destruct (Z.ltb_spec (uc_exp c) sec); [split; [done|lia]|].
    do 4 case_bool_decide; simpl; naive_solver. }
  destruct (dj_payload d !! "nbf") as [j|]; [|rewrite Hrest; naive_solver].
  destruct (as_integer j) as [nbf|] eqn:Ej.
  - replace (get_type j) with (Some CInteger) by (by destruct j).
    destruct (Z.ltb_spec sec nbf).
    + split; [done|]. intros (_ & Hn & _).
      destruct (Hn j eq_refl) as (n & Hj%as_integer_spec & ?). simplify_eq. lia.
    + rewrite Hrest. apply as_integer_spec in Ej. naive_solver.
  - split; [by destruct (get_type j)|]. intros (_ & Hn & _).
    destruct (Hn j eq_refl) as (n & Hj%as_integer_spec & ?). congruence.
Qed.

(** C12: exactly the authentic tokens authenticate.  A token is accepted with
    claims [c] when and only when it decodes as an ES256 token whose signature
    verifies under a configured key (the one it names, when it names one), its
    payload carries exactly the claims [c] - [sub], [iss], [aud] and [exp]
    present, of the right type and not empty - and at the time of the check it
    is neither expired nor early ([nbf]) and is for the expected issuer and
    audience, where these are configured. *)
Theorem token_accepted_iff_authentic (v : t) (token : string) (c : UserClaims) (x : X) :
  (verify_token v token x).1 = Ok c <->
  token <> "" /\
  exists d, jwt_decode token = Some d /\ dj_header d !! "alg" = Some (JString "ES256") /\
    (exists k, signed_by v d k) /\ carries (dj_payload d) c /\
    claims_ok v d c (unix_now_seconds x).1.
Proof.
  unfold verify_token. destruct (decide (token = "")) as [->|Ht].
  { rewrite bool_decide_eq_true_2 by done. split; [done|]. by intros [? _]. }
  rewrite bool_decide_eq_false_2 by done.
  destruct (jwt_decode token) as [d|]; [|split; [done|]; by intros (_ & d & ? & _)].
  assert (Hd : forall P : DecodedJwt -> Prop, (exists d', Some d = Some d' /\ P d') <-> P d).
  { intros P. split; [by intros (? & [= <-] & ?)|eauto]. }
  rewrite Hd. clear Hd. destruct (dj_header d !! "alg") as [j|]; [|by split; [|intros (_ & ? & _)]].
  simpl. destruct (as_string j) as [alg|] eqn:Ej.
  2:{ split; [done|]. intros (_ & [= ->] & _). done. }
  destruct j; try done. injection Ej as ->.
  destruct (decide (alg = "ES256")) as [->|Halg].
  2:{ rewrite bool_decide_eq_false_2 by done. split; [done|]. by intros (_ & [= ->] & _). }
  rewrite bool_decide_eq_true_2 by done. simpl. pose proof (check_signature_spec v d) as Hsig.
  destruct (check_signature v "ES256" d) as [[]|e].
  2:{ split; [done|]. intros (_ & _ & Hs & _). by apply Hsig in Hs. }
  rewrite <- fill_claims_spec.
  destruct (fill_claims d) as [cl|]; [|split; [done|]; by intros (_ & _ & _ & ? & _)].
  unfold st_bind. destruct (unix_now_seconds x) as [sec x']. simpl. rewrite check_claims_spec.
  split.
  - intros [-> Hc]. by split_and!; [| |apply Hsig| |].
  - by intros (_ & _ & _ & [= ->] & Hc).
Qed.

End Verifier.
Arguments t : clear implicits.
Arguments t _ : assert.
End SupabaseVerifier.

(** ** The service *)

Module AuthService.

Inductive AuthError := InvalidToken | ExpiredToken | Other.

Definition auth_error (e : JwtVerifyError) : AuthError :=
  match e with
  | InvalidSignature => InvalidToken
  | TokenExpired => ExpiredToken
  | _ => Other
  end.

Section Service.
Context {X : Type} `{External X} `{JsonLib} `{!JwtLib}.

(** [None]: the constructor throws. *)
Definition create (env : Env) (supabase_issuer : string) : option (SupabaseVerifier.t _) :=
  match SupabaseVerifier.create env supabase_issuer with
  | Some (Ok v) => Some v
  | _ => None
  end.

Definition authenticate (v : SupabaseVerifier.t _) (token : string)
  : ST X (expected UserClaims AuthError) :=
  (result <-- SupabaseVerifier.verify_token v token;
   st_ret (match result with Ok c => Ok c | Unexpected e => Unexpected (auth_error e) end))%st.

End Service.
End AuthService.

(** ** The scanner

    [infra/security/token/JwtJsonUtils.cpp], an alternative to the JSON parser
    that is built with the verifier and not called by it.  A cursor is the text
    from it to the end. *)

Module JwtScan.

Definition quote : ascii := OriginPolicy.quote.

Definition ws (c : ascii) : bool :=
  bool_decide (c = " "%char) || bool_decide (c = chr 10) || bool_decide (c = chr 13) || bool_decide (c = chr 9).

Fixpoint skip_ws (p : string) : string :=
  match p with String c p' => if ws c then skip_ws p' else p | EmptyString => "" end.

(** The value, if there is one, and the cursor after the call. *)
Definition parse_string (p : string) : option string * string :=
  match p with
  | String c p' =>
    if bool_decide (c = quote)
    then match split_on quote p' with Some (out, rest) => (Some out, rest) | None => (None, "") end
    else (None, p)
  | EmptyString => (None, p)
  end.

(** [None]: the accumulator overflows. *)
Fixpoint scan_digits (v : Z) (p : string) : option (Z * string) :=
  match p with
  | String c p' =>
    match digit c with
    | Some d => let v' := (v * 10 + d)%Z in if (v' <? two63)%Z then scan_digits v' p' else None
    | None => Some (v, p)
    end
  | EmptyString => Some (v, p)
  end.

Definition parse_int (p : string) : option (option Z * string) :=
  let '(neg, p) := match p with
                   | String c p' => if bool_decide (c = "-"%char) then (true, p') else (false, p)
                   | EmptyString => (false, p)
                   end in
  if starts_with_digit p
  then match scan_digits 0 p with
       | Some (v, rest) => Some (Some (if neg then - v else v)%Z, rest)
       | None => None
       end
  else Some (None, p).

Fixpoint skip_until (stops : list ascii) (p : string) : string :=
  match p with
  | String c p' => if bool_decide (c ∈ stops) then p else skip_until stops p'
  | EmptyString => ""
  end.
Definition skip_value : string -> string := skip_until [","; "}"]%char.

(** [Overrun]: the character past the end is read; [Overflow]: a signed
    overflow. *)
Inductive outcome (A : Type) := Returned (ok : bool) (out : A) | Overrun | Overflow.
Arguments Returned {A} _ _.
Arguments Overrun {A}.
Arguments Overflow {A}.

(** What a known field does: go on from a cursor, or end. *)
Inductive after (A : Type) := Next (p : string) (out : A) | End (o : outcome A).
Arguments Next {A} _ _.
Arguments End {A} _.

Section Loop.
Context {A : Type} (field : string -> string -> A -> after A) (finish : A -> bool).

(** The loop of both parsers; a turn takes at least one character. *)
Fixpoint scan (fuel : nat) (p : string) (out : A) : outcome A :=
  match fuel with
  | O => Returned (finish out) out
  | S f =>
    match p with
    | EmptyString => Returned (finish out) out
    | _ =>
      match skip_ws p with
      | EmptyString => Overrun
      | String c p' =>
        if negb (bool_decide (c = quote)) then scan f p' out
        else match parse_string (String c p') with
             | (None, _) => Returned false out
             | (Some key, p1) =>
               match skip_ws p1 with
               | String d p2 =>
                 if bool_decide (d = ":"%char)
                 then match field key (skip_ws p2) out with Next p3 out' => scan f p3 out' | End o => o end
                 else Returned false out
               | EmptyString => Returned false out
               end
             end
      end
    end
  end.
End Loop.

Definition header_field (key p : string) (out : string * string) : after (string * string) :=
  if bool_decide (key = "alg")
  then match parse_string p with
       | (Some alg, p') => Next p' (alg, out.2)
       | (None, _) => End (Returned false out)
       end
  else if bool_decide (key = "kid")
  then match parse_string p with (kid, p') => Next p' (out.1, default out.2 kid) end
  else Next (skip_value p) out.

Definition parse_header (json : string) : outcome (string * string) :=
  scan header_field (fun out => negb (bool_decide (out.1 = ""))) (String.length json) json ("", "").

Definition payload_field (key p : string) (c : UserClaims) : after UserClaims :=
  if bool_decide (key = "sub") then
    match parse_string p with
    | (Some v, p') => Next p' (mkUserClaims v (uc_iss c) (uc_aud c) (uc_exp c) (uc_iat c) (uc_role c))
    | (None, _) => End (Returned false c)
    end
  else if bool_decide (key = "iss") then
    match parse_string p with
    | (Some v, p') => Next p' (mkUserClaims (uc_id c) v (uc_aud c) (uc_exp c) (uc_iat c) (uc_role c))
    | (None, _) => End (Returned false c)
    end
  else if bool_decide (key = "role") then
    match parse_string p with
    | (v, p') => Next p' (mkUserClaims (uc_id c) (uc_iss c) (uc_aud c) (uc_exp c) (uc_iat c) (default "" v))
    end
  else if bool_decide (key = "exp") then
    match parse_int p with
    | Some (Some v, p') => Next p' (mkUserClaims (uc_id c) (uc_iss c) (uc_aud c) v (uc_iat c) (uc_role c))
    | Some (None, _) => End (Returned false c)
    | None => End Overflow
    end
  else if bool_decide (key = "iat") then
    match parse_int p with
    | Some (v, p') => Next p' (mkUserClaims (uc_id c) (uc_iss c) (uc_aud c) (uc_exp c) (default (uc_iat c) v) (uc_role c))
    | None => End Overflow
    end
  else if bool_decide (key = "aud") then
    match p with
    | EmptyString => End Overrun
    | String ch p1 =>
      let set_aud v := mkUserClaims (uc_id c) (uc_iss c) v (uc_exp c) (uc_iat c) (uc_role c) in
      if bool_decide (ch = quote) then
        match parse_string p with (Some v, p') => Next p' (set_aud v) | (None, _) => End (Returned false c) end
      else if bool_decide (ch = "["%char) then
        match parse_string (skip_ws p1) with
        | (Some v, p') =>
          Next (match skip_until ["]"%char] p' with String _ p2 => p2 | EmptyString => "" end) (set_aud v)
        | (None, _) => End (Returned false c)
        end
      else Next p c
    end
  else Next (skip_value p) c.

Definition no_claims : UserClaims := mkUserClaims "" "" "" 0 0 "".

Definition payload_complete (c : UserClaims) : bool :=
  negb (bool_decide (uc_id c = "")) && negb (uc_exp c =? 0)%Z && negb (bool_decide (uc_iss c = "")) &&
  negb (bool_decide (uc_aud c = "")).

Definition parse_payload (json : string) : outcome UserClaims :=
  scan payload_field payload_complete (String.length json) json no_claims.


(** *** Enough fuel *)

Lemma skip_ws_length p : String.length (skip_ws p) <= String.length p.
Proof. induction p as [|c p IH]; [done|]. cbn [skip_ws]. destruct (ws c); simpl; lia. Qed.

Lemma split_on_length c s a b : split_on c s = Some (a, b) -> String.length b < String.length s.
Proof.
  revert a. induction s as [|d s IH]; intros a; [done|]. cbn [split_on].
  destruct (bool_decide (d = c)); [intros [= _ <-]; simpl; lia|].
  destruct (split_on c s) as [[a' b']|]; [|done]. intros [= _ <-]. specialize (IH _ eq_refl). simpl. lia.
Qed.

Lemma parse_string_length p : String.length (parse_string p).2 <= String.length p.
Proof.
  destruct p as [|c p]; [done|]. cbn [parse_string]. destruct (bool_decide (c = quote)); [|done].
  destruct (split_on quote p) as [[a b]|] eqn:E; [|simpl; lia]. apply split_on_length in E. simpl. lia.
Qed.

Section Fuel.
Context {A : Type} (field : string -> string -> A -> after A) (finish : A -> bool)
  (Hfield : forall k p out p' out', field k p out = Next p' out' -> String.length p' <= String.length p).

Lemma scan_fuel f1 : forall f2 p out,
  String.length p <= f1 -> String.length p <= f2 -> scan field finish f1 p out = scan field finish f2 p out.
Proof.
  induction f1 as [|f1 IH]; intros f2 p out H1 H2.
  { destruct p; [by destruct f2|simpl in H1; lia]. }
  destruct p as [|c p]; [by destruct f2|]. destruct f2 as [|f2]; [simpl in H2; lia|]. cbn [scan].
  pose proof (skip_ws_length (String c p)) as Hs. destruct (skip_ws (String c p)) as [|d q]; [done|]. simpl in *.
  destruct (bool_decide (d = quote)) eqn:Eq; cbn [negb]; [|apply IH; lia].
  pose proof (parse_string_length (String d q)) as Hp. cbn [parse_string] in Hp. rewrite Eq in Hp.
  destruct (split_on quote q) as [[key p1]|] eqn:Es; [|done]. apply split_on_length in Es.
  pose proof (skip_ws_length p1) as Hs1. destruct (skip_ws p1) as [|e p2]; [done|]. simpl in *.
  destruct (bool_decide (e = ":"%char)); [|done]. pose proof (skip_ws_length p2).
  destruct (field key (skip_ws p2) out) as [p3 out'|o] eqn:Ef; [|done]. apply Hfield in Ef. apply IH; lia.
Qed.
End Fuel.

Lemma skip_until_length stops p : String.length (skip_until stops p) <= String.length p.
Proof. induction p as [|c p IH]; [done|]. cbn [skip_until]. destruct (bool_decide _); simpl; lia. Qed.

Lemma scan_digits_length p : forall v w q, scan_digits v p = Some (w, q) -> String.length q <= String.length p.
Proof.
  induction p as [|c p IH]; intros v w q; cbn [scan_digits]; [by intros [= _ <-]|].
  destruct (digit c) as [d|]; [|by intros [= _ <-]]. cbv zeta. destruct (_ <? _)%Z; [|done].
  intros E%IH. simpl. lia.
Qed.

Lemma parse_int_length p v q : parse_int p = Some (v, q) -> String.length q <= String.length p.
Proof.
  unfold parse_int. destruct (match p with String _ _ => _ | EmptyString => _ end) as [neg p1] eqn:E.
  assert (String.length p1 <= String.length p) as Hp.
  { destruct p as [|c p]; [by injection E as _ <-|]. destruct (bool_decide _); injection E as _ <-; simpl; lia. }
  destruct (starts_with_digit p1); [|by intros [= _ <-]].
  destruct (scan_digits 0 p1) as [[w r]|] eqn:Es; [|done]. apply scan_digits_length in Es. intros [= _ <-]. lia.
Qed.

Lemma payload_field_shrinks k p c p' c' : payload_field k p c = Next p' c' -> String.length p' <= String.length p.
Proof.
  unfold payload_field. pose proof (parse_string_length p) as Hs. pose proof (skip_until_length [","; "}"]%char p) as Hv.
  destruct (parse_string p) as [o q] eqn:Eq. pose proof (fun v r => parse_int_length p v r) as Hi. simpl in Hs.
  destruct (bool_decide (k = "sub")); [destruct o; [by intros [= <- _]|done]|].
  destruct (bool_decide (k = "iss")); [destruct o; [by intros [= <- _]|done]|].
  destruct (bool_decide (k = "role")); [by intros [= <- _]|].
  destruct (bool_decide (k = "exp")).
  { destruct (parse_int p) as [[[v|] r]|]; try done. intros [= <- _]. by apply (Hi (Some v)). }
  destruct (bool_decide (k = "iat")).
  { destruct (parse_int p) as [[v r]|]; try done. intros [= <- _]. by apply (Hi v). }
  destruct (bool_decide (k = "aud")); [|by intros [= <- _]].
  destruct p as [|ch p1]; [done|]. cbv zeta.
  destruct (bool_decide (ch = quote)); [destruct o; [by intros [= <- _]|done]|].
  destruct (bool_decide (ch = "["%char)); [|by intros [= <- _]].
  pose proof (skip_ws_length p1) as Hw. pose proof (parse_string_length (skip_ws p1)) as Hs1.
  destruct (parse_string (skip_ws p1)) as [[v|] q1]; [|done]. simpl in Hs1.
  pose proof (skip_until_length ["]"%char] q1) as Hu. intros [= <- _]. destruct (skip_until _ q1); simpl in *; lia.
Qed.

(** So the fuel of [parse_payload] is never used up. *)
Lemma payload_fuel f json c : String.length json <= f ->
  scan payload_field payload_complete f json c = scan payload_field payload_complete (String.length json) json c.
Proof. intros Hf. by apply scan_fuel; [apply payload_field_shrinks|..]. Qed.

(** *** Flat objects *)

Inductive value := VText (s : string) | VNum (n : Z).
Definition show_value (v : value) : string :=
  match v with VText s => String quote (s ++ String quote "") | VNum n => std_to_string n end.
Definition member_text (m : string * value) : string :=
  String quote (m.1 ++ String quote (String ":" (show_value m.2))).
Fixpoint members_text (ms : list (string * value)) : string :=
  match ms with [] => "}" | m :: ms => String "," (member_text m ++ members_text ms) end.
Definition object_text (ms : list (string * value)) : string :=
  match ms with [] => "{}" | m :: ms => String "{" (member_text m ++ members_text ms) end.

Definition lacks (c : ascii) (s : string) : Prop := all_chars (fun d => negb (bool_decide (d = c))) s = true.

(** Keys and text without quotes, numbers that fit, each under the names it
    belongs to; text under other names without commas and braces. *)
Definition flat (m : string * value) : Prop :=
  lacks quote m.1 /\
  match m.2 with
  | VText s => lacks quote s /\ m.1 ∉ ["exp"; "iat"] /\
      (m.1 ∈ ["sub"; "iss"; "role"; "aud"] \/ lacks "," s /\ lacks "}" s)
  | VNum n => (0 <= n < two63)%Z /\ m.1 ∉ ["sub"; "iss"; "role"; "aud"]
  end.

(** The claims with the member read. *)
Definition with_member (c : UserClaims) (m : string * value) : UserClaims :=
  match m.2 with
  | VText v =>
    mkUserClaims (if bool_decide (m.1 = "sub") then v else uc_id c) (if bool_decide (m.1 = "iss") then v else uc_iss c)
      (if bool_decide (m.1 = "aud") then v else uc_aud c) (uc_exp c) (uc_iat c)
      (if bool_decide (m.1 = "role") then v else uc_role c)
  | VNum n =>
    mkUserClaims (uc_id c) (uc_iss c) (uc_aud c) (if bool_decide (m.1 = "exp") then n else uc_exp c)
      (if bool_decide (m.1 = "iat") then n else uc_iat c) (uc_role c)
  end.

Definition stops (t : string) : Prop := exists t', t = String "," t' \/ t = String "}" t'.

Lemma parse_string_text s t : lacks quote s -> parse_string (String quote (s ++ String quote t)) = (Some s, t).
Proof. intros Hs. cbn [parse_string]. rewrite bool_decide_eq_true_2 by done. by rewrite split_on_app. Qed.

Lemma skip_value_app s t : lacks "," s -> lacks "}" s -> stops t -> skip_value (s ++ t) = t.
Proof.
  unfold lacks, skip_value. intros Hc Hb Ht. induction s as [|d s IH].
  - destruct Ht as (t' & [->| ->]); by vm_compute.
  - rewrite app_cons. cbn [skip_until all_chars] in *. apply andb_prop in Hc as [Hc Hc'], Hb as [Hb Hb'].
    apply negb_true_iff, bool_decide_eq_false_1 in Hc, Hb.
    rewrite bool_decide_eq_false_2; [by apply IH|]. intros [->|[->|?%not_elem_of_nil]%elem_of_cons]%elem_of_cons; done.
Qed.

Lemma scan_digits_app a t : forall v,
  (0 <= v)%Z -> all_chars isdigit a = true -> starts_with_digit t = false -> (read_digits v a < two63)%Z ->
  scan_digits v (a ++ t) = Some (read_digits v a, t).
Proof.
  induction a as [|c a IH]; intros v Hv Ha Ht Hr.
  - change ("" ++ t) with t. destruct t as [|d t]; [done|]. cbn [scan_digits starts_with_digit] in *.
    apply bool_decide_eq_false_1 in Ht. destruct (digit d); [by destruct Ht|done].
  - rewrite app_cons. cbn [all_chars] in Ha. apply andb_prop in Ha as [Hc Ha]. cbn [scan_digits read_digits] in *.
    destruct (digit c) as [d|] eqn:Ed; [|unfold isdigit in Hc; by rewrite Ed in Hc].
    assert (0 <= d)%Z as Hd by (unfold digit in Ed; destruct (Z.leb_spec 48 (code c)); [|done];
      destruct (code c <=? 57)%Z; [injection Ed as <-; lia|done]).
    replace (v * 10 + d)%Z with (10 * v + d)%Z by lia.
    pose proof (ControlHttp.read_digits_ge a (10 * v + d) ltac:(lia)).
    rewrite (proj2 (Z.ltb_lt _ _)) by lia. apply IH; [lia|done..].
Qed.

Lemma number_value n t : (0 <= n < two63)%Z -> stops t ->
  parse_int (std_to_string n ++ t) = Some (Some n, t) /\ skip_value (std_to_string n ++ t) = t.
Proof.
  intros Hn Ht. destruct (JsonText.number_text n) as (H1 & H2 & H3); [unfold two63, two64 in *; lia|].
  assert (starts_with_digit t = false) as Hd by (destruct Ht as (? & [->| ->]); by vm_compute).
  assert (forall d, isdigit d = true -> d <> "-"%char /\ d <> ","%char /\ d <> "}"%char) as Hc.
  { intros d Hd'. split_and!; intros ->; by vm_compute in Hd'. }
  split.
  - unfold parse_int. destruct (std_to_string n) as [|d s] eqn:E; [done|]. rewrite app_cons.
    pose proof H1 as [Hx _]%andb_prop. destruct (Hc d Hx) as [Hm _]. rewrite bool_decide_eq_false_2 by done.
    rewrite <- app_cons. cbn [starts_with_digit] in H2 |- *. rewrite app_cons. cbn [starts_with_digit]. rewrite H2.
    rewrite <- app_cons, (scan_digits_app _ _ 0) by (done || lia). by rewrite H3.
  - apply skip_value_app; [..|done]; (eapply PublicEndpointConfig.all_chars_impl; [|exact H1]);
      intros d Hx; apply negb_true_iff, bool_decide_eq_false_2; by apply Hc.
Qed.

(** A member's value is read to its end and sets the claim it names. *)
Lemma field_flat m t c : flat m -> stops t ->
  payload_field m.1 (show_value m.2 ++ t) c = Next t (with_member c m).
Proof.
  intros [Hk Hv] Ht. destruct m as [k v], c as [id iss aud exp iat role]. cbn [fst snd] in *. unfold payload_field, with_member.
  destruct v as [s|n]; cbn [show_value fst snd uc_id uc_iss uc_aud uc_exp uc_iat uc_role].
  - destruct Hv as (Hq & Hn & Ho). rewrite app_cons, app_text_assoc. change (String quote "" ++ t) with (String quote t).
    rewrite !parse_string_text by done.
    apply not_elem_of_cons in Hn as [He [Hi _]%not_elem_of_cons].
    rewrite (bool_decide_eq_false_2 (k = "exp")), (bool_decide_eq_false_2 (k = "iat")) by done.
    destruct (decide (k = "sub")) as [->|K1]; [done|]. destruct (decide (k = "iss")) as [->|K2]; [done|].
    destruct (decide (k = "role")) as [->|K3]; [done|]. destruct (decide (k = "aud")) as [->|K4]; [done|].
    rewrite !bool_decide_eq_false_2 by done.
    destruct Ho as [Ho|[Hc Hb]]; [exfalso; repeat (apply elem_of_cons in Ho as [->|Ho]; [done|]); by apply not_elem_of_nil in Ho|].
    assert (forall x, x <> quote -> lacks x s -> lacks x (String quote (s ++ String quote ""))) as Hl.
    { intros x Hx Hs. unfold lacks in *. cbn [all_chars]. rewrite OriginPolicy.all_chars_app, Hs. cbn [all_chars].
      by rewrite bool_decide_eq_false_2 by congruence. }
    f_equal. change (String quote t) with (String quote "" ++ t). rewrite <- app_text_assoc, <- app_cons.
    apply skip_value_app; [by apply Hl..|done].
  - destruct Hv as [Hn Ho]. destruct (number_value n t Hn Ht) as [Hp Hs].
    apply not_elem_of_cons in Ho as [K1 [K2 [K3 [K4 _]%not_elem_of_cons]%not_elem_of_cons]%not_elem_of_cons].
    rewrite (bool_decide_eq_false_2 (k = "sub")), (bool_decide_eq_false_2 (k = "iss")),
      (bool_decide_eq_false_2 (k = "role")), (bool_decide_eq_false_2 (k = "aud")) by done. rewrite Hp, Hs.
    destruct (decide (k = "exp")) as [->|K5]; [done|]. destruct (decide (k = "iat")) as [->|K6]; [done|].
    by rewrite !bool_decide_eq_false_2.
Qed.

Lemma value_not_blank v t : (forall n, v = VNum n -> (0 <= n < two63)%Z) -> skip_ws (show_value v ++ t) = show_value v ++ t.
Proof.
  intros Hn. destruct v as [s|n]; [done|]. cbn [show_value].
  destruct (JsonText.number_text n) as (H1 & H2 & _); [specialize (Hn n eq_refl); unfold two63, two64 in *; lia|].
  destruct (std_to_string n) as [|d s]; [done|]. rewrite app_cons. cbn [skip_ws]. cbn [all_chars] in H1.
  apply andb_prop in H1 as [Hd _]. destruct (ws d) eqn:E; [|done]. exfalso. unfold ws in E.
  destruct (decide (d = " "%char)) as [->|N1]; [by vm_compute in Hd|]. rewrite (bool_decide_eq_false_2 _ N1) in E.
  destruct (decide (d = chr 10)) as [->|N2]; [by vm_compute in Hd|]. rewrite (bool_decide_eq_false_2 _ N2) in E.
  destruct (decide (d = chr 13)) as [->|N3]; [by vm_compute in Hd|]. rewrite (bool_decide_eq_false_2 _ N3) in E.
  destruct (decide (d = chr 9)) as [->|N4]; [by vm_compute in Hd|]. by rewrite (bool_decide_eq_false_2 _ N4) in E.
Qed.

(** Two turns: over the separator, and over the member. *)
Lemma scan_member f c m t sep : flat m -> stops t -> sep = ","%char \/ sep = "{"%char ->
  scan payload_field payload_complete (S (S f)) (String sep (member_text m ++ t)) c =
  scan payload_field payload_complete f t (with_member c m).
Proof.
  intros Hm Ht Hsep. pose proof Hm as [Hk Hv].
  assert (scan payload_field payload_complete (S (S f)) (String sep (member_text m ++ t)) c =
          scan payload_field payload_complete (S f) (member_text m ++ t) c) as -> by (by destruct Hsep as [->| ->]).
  unfold member_text. rewrite app_cons, app_text_assoc, !app_cons. cbn [scan]. cbn [skip_ws]. change (ws quote) with false.
  cbn iota. rewrite (bool_decide_eq_true_2 (quote = quote)) by done. cbn [negb].
  rewrite parse_string_text by done. change (skip_ws (String ":" (show_value m.2 ++ t))) with (String ":" (show_value m.2 ++ t)).
  cbv beta iota. rewrite (bool_decide_eq_true_2 (":"%char = ":"%char)) by done.
  rewrite value_not_blank, field_flat; [done..|].
  intros n En. rewrite En in Hv. apply Hv.
Qed.

Lemma members_stop ms : stops (members_text ms).
Proof. destruct ms as [|m ms]; [by exists ""; right|]. eexists. by left. Qed.

Lemma scan_members ms : forall f c, Forall flat ms -> 2 * length ms < f ->
  scan payload_field payload_complete f (members_text ms) c =
  Returned (payload_complete (foldl with_member c ms)) (foldl with_member c ms).
Proof.
  induction ms as [|m ms IH]; intros f c Hms Hf.
  - destruct f as [|[|f]]; [simpl in Hf; lia|done..].
  - apply Forall_cons_1 in Hms as [Hm Hms]. destruct f as [|[|f]]; [simpl in Hf; lia..|]. cbn [members_text foldl].
    rewrite scan_member by (done || apply members_stop || by left). apply IH; [done|]. simpl in Hf. lia.
Qed.

Lemma append_length a b : String.length (a ++ b) = String.length a + String.length b.
Proof. induction a as [|c a IH]; [done|]. rewrite app_cons. simpl. by rewrite IH. Qed.

Lemma members_length ms : 2 * length ms < String.length (members_text ms).
Proof.
  induction ms as [|m ms IH]; [simpl; lia|]. cbn [members_text String.length]. rewrite append_length.
  unfold member_text. simpl. lia.
Qed.

(** On a flat object with plain text and numbers the scanner finds exactly the
    claims it names, the last of a repeated name, and accepts them when none of
    the four it needs is missing. *)
Theorem scan_flat_claims (ms : list (string * value)) (Hms : Forall flat ms) :
  parse_payload (object_text ms) =
  Returned (payload_complete (foldl with_member no_claims ms)) (foldl with_member no_claims ms).
Proof.
  unfold parse_payload. destruct ms as [|m ms]; [done|]. apply Forall_cons_1 in Hms as [Hm Hms]. cbn [object_text foldl].
  pose proof (members_length ms) as Hl. cbn [String.length]. rewrite append_length. unfold member_text at 1.
  cbn [String.length].
  match goal with |- context [scan _ _ (S (S ?n + ?k))] => change (S (S n + k)) with (S (S (n + k))) end.
  rewrite scan_member by (done || apply members_stop || by right). apply scan_members; [done|lia].
Qed.

(** Only on flat ones: a name inside another member's object is taken for the
    claim itself, so that what users write about themselves can name them. *)
Example nested_subject_wins :
  parse_payload (object_text [("sub", VText "alice"); ("iss", VText "i"); ("aud", VText "a"); ("exp", VNum 1)]) =
    Returned true (mkUserClaims "alice" "i" "a" 1 0 "") /\
  parse_payload ("{" ++ member_text ("sub", VText "alice") ++ "," ++ member_text ("iss", VText "i") ++ "," ++
    member_text ("aud", VText "a") ++ "," ++ member_text ("exp", VNum 1) ++ "," ++ String quote ("user_metadata" ++
    String quote (":" ++ object_text [("name", VText "x"); ("sub", VText "bob")])) ++ "}") =
    Returned true (mkUserClaims "bob" "i" "a" 1 0 "").
Proof. split; vm_compute; reflexivity. Qed.

(** White space at the end is read past, and long numbers overflow. *)
Example scanner_leaves_the_text :
  parse_payload (object_text [("sub", VText "alice")] ++ String (chr 10) "") = Overrun /\
  parse_payload ("{" ++ String quote ("exp" ++ String quote ":9999999999999999999}")) = Overflow.
Proof. split; vm_compute; reflexivity. Qed.
End JwtScan.
