(* ===== verification/Webhook.v ===== *)
(** * The webhook server

    [livekit/webhook/LivekitWebhookServer.cpp]: the requests LiveKit posts, the
    check of their signature, and the event handed to the voice service.  jwt-cpp
    (decoding and verifying a token) and OpenSSL (the digest) are parameters. *)

From S2P Require Import Prelude.
From S2P Require Import CStrings.
From S2P Require Import Ids.
From S2P Require Import HubService.
From S2P Require Import External.
From S2P Require Import VoiceWorld.
From S2P Require Import VoiceService.
From S2P Require Import VoiceProofs.
From S2P Require Import Endpoints.
From S2P Require Import Auth.
From Stdlib Require Import Ascii.

Local Open Scope string_scope.

(** [jwt::verify().allow_algorithm(hs256{secret}).with_issuer(issuer).verify(decoded)]
    at a time; [false]: it throws. *)
Class Hs256 := {
  hs256_verify : string -> string -> DecodedJwt -> Z -> bool;
  (** the HMAC of a text under a secret is the signature *)
  hs256_signature : string -> string -> string -> bool;
  hs256_signed : forall secret issuer d now, hs256_verify secret issuer d now = true ->
    hs256_signature secret (header_b64 d ++ "." ++ payload_b64 d) (signature_raw d) = true;
  hs256_issuer : forall secret issuer d now, hs256_verify secret issuer d now = true ->
    dj_payload d !! "iss" = Some (JString issuer)
}.

Module WebhookServer.

Inductive HandleResult := OK | BAD_REQUEST | UNAUTHORIZED.

Record Config := mkWebhookConfig { api_key : string; api_secret : string }.

(** A request: its header, the chunks of its body, whether it was aborted
    before the last one, and when it is verified. *)
Record Post := mkPost { auth_header : string; chunks : list string; aborted : bool; post_time : Z }.

Definition body (p : Post) : string := foldr String.append "" (chunks p).

(** What [handle_body] reads beside the event's own fields. *)
Record Payload := mkPayload {
  pl_event : LiveKitEvent; track_sid : string; track_type : string; track_source : string;
  egress_id : string; ingress_id : string }.

Definition kBearer : string := "Bearer ".
Definition bearer_token (header : string) : string :=
  if (String.length kBearer <? String.length header)%nat && String.prefix kBearer header
  then drop_chars (String.length kBearer) header else header.

(** ** Reading the body *)

Definition string_or_empty (j : json) (k : string) : string := default "" (string_field j k).

(** [j.contains(k) && j[k].is_object()], then the object. *)
Definition object_field (j : json) (k : string) : option json :=
  match field j k with Some (JObject m) => Some (JObject m) | _ => None end.

(** The id under one of two spellings. *)
Definition either_id (j : option json) (k1 k2 : string) : string :=
  match j with
  | None => ""
  | Some o => match string_field o k1 with Some s => s | None => string_or_empty o k2 end
  end.

(** [room.name]: [None] when [get<std::string>] throws. *)
Definition room_name (j : json) : option string :=
  match object_field j "room" with
  | None => Some ""
  | Some room =>
    match field room "name" with
    | None => Some ""
    | Some (JString s) => Some s
    | Some _ => None
    end
  end.

(** Seconds to milliseconds, in 64 bits. *)
Definition created_at_ms (j : json) : Z :=
  match field j "createdAt" with
  | Some (JUnsigned n) | Some (JInteger n) | Some (JFloat n) => wrap64 (wrap64 n * 1000)
  | Some (JString s) => match stoull s with Some n => wrap64 (n * 1000) | None => 0%Z end
  | _ => 0%Z
  end.

Definition session_of_metadata (m : json) : Z :=
  match field m "app_session_id" with
  | Some (JUnsigned n) => n
  | Some (JString s) => default 0%Z (stoull s)
  | _ => 0%Z
  end.

Section Server.
Context {X D : Type} `{External X} `{HubRepo D} `{JsonLib} `{Crypto} `{JwtLib} `{Hs256}.
Variable vcfg : VoiceConfig.
Variable cfg : Config.

(** The node, session and nonce in the participant's metadata. *)
Definition read_metadata (raw : string) : string * Z * string :=
  match json_parse raw with
  | Some (JObject m) =>
    let o := JObject m in
    (string_or_empty o "node_id", session_of_metadata o, string_or_empty o "intent_nonce")
  | _ => (raw, 0%Z, "")
  end.

Definition read_event (j : json) (name : string) (channel : string) : LiveKitEvent :=
  let participant := default (JObject ∅) (object_field j "participant") in
  let metadata := string_field participant "metadata" in
  let md := match metadata with Some raw => read_metadata raw | None => ("", 0%Z, "") end in
  mkEvent (parseLiveKitEvent name) (string_or_empty j "id") name (mkChannelId channel)
    (mkUserId (string_or_empty participant "identity")) (string_or_empty participant "sid")
    (default "" metadata) md.1.2 md.2 md.1.1 (created_at_ms j).

Definition read_payload (j : json) (name channel : string) : Payload :=
  let track := default (JObject ∅) (object_field j "track") in
  mkPayload (read_event j name channel) (string_or_empty track "sid") (string_or_empty track "type")
    (string_or_empty track "source") (either_id (object_field j "egressInfo") "egressId" "egress_id")
    (either_id (object_field j "ingressInfo") "ingressId" "ingress_id").

(** ** The signature *)

Definition sha256_base64 (text : string) : option string :=
  digest ← evp_sha256 text;
  out ← evp_encode_block digest;
  if bool_decide (out = "") then None else Some out.

Definition verify_webhook_signature (text header : string) (now : Z) : bool :=
  if bool_decide (api_key cfg = "") || bool_decide (api_secret cfg = "") then false
  else
    let token := bearer_token header in
    if bool_decide (token = "") then false
    else match jwt_decode token with
         | None => false
         | Some decoded =>
           if negb (hs256_verify (api_secret cfg) (api_key cfg) decoded now) then false
           else match dj_payload decoded !! "sha256" with
                | Some (JString payload_hash) =>
                  match sha256_base64 text with
                  | Some computed_hash => bool_decide (payload_hash = computed_hash)
                  | None => false
                  end
                | _ => false
                end
         end.

(** ** Handling *)

Definition handle_body (text header : string) (now : Z) : EX (World X D) HandleResult :=
  if negb (verify_webhook_signature text header now) then ex_ret UNAUTHORIZED
  else match json_parse text with
       | Some (JObject m) =>
         let j := JObject m in
         match string_field j "event" with
         | None => ex_ret BAD_REQUEST
         | Some name =>
           match room_name j with
           | None => ex_throw
           | Some channel =>
             (VoiceService.on_livekit_event vcfg (pl_event (read_payload j name channel));;;
              ex_ret OK)%ex
           end
         end
       | _ => ex_ret BAD_REQUEST
       end.

Definition status (r : HandleResult) : Z :=
  match r with OK => 200 | BAD_REQUEST => 400 | UNAUTHORIZED => 401 end.

(** The last [onData]; [None]: no answer to an aborted request. *)
Definition serve (p : Post) (w : World X D) : option Z * World X D :=
  if aborted p then (None, w)
  else match handle_body (body p) (auth_header p) (post_time p) w with
       | (Some r, w') => (Some (status r), w')
       | (None, w') => (Some (status BAD_REQUEST), w')
       end.

(** ** Proofs *)

(** The request carries a token that is signed with the server's secret, names
    its key as the issuer, and holds the digest of the body. *)
Definition authentic (p : Post) : Prop :=
  exists d hash, jwt_decode (bearer_token (auth_header p)) = Some d /\
    hs256_signature (api_secret cfg) (header_b64 d ++ "." ++ payload_b64 d) (signature_raw d) = true /\
    dj_payload d !! "iss" = Some (JString (api_key cfg)) /\
    dj_payload d !! "sha256" = Some (JString hash) /\ sha256_base64 (body p) = Some hash /\
    api_key cfg <> "" /\ api_secret cfg <> "".

Lemma verified_authentic p :
  verify_webhook_signature (body p) (auth_header p) (post_time p) = true -> authentic p.
Proof.
  unfold verify_webhook_signature. destruct (bool_decide (api_key cfg = "")) eqn:E1; [done|].
  destruct (bool_decide (api_secret cfg = "")) eqn:E2; [done|]. cbn [orb].
  destruct (bool_decide (bearer_token _ = "")); [done|].
  destruct (jwt_decode _) as [d|] eqn:Ed; [|done].
  destruct (hs256_verify _ _ _ _) eqn:Ev; [|done]. cbn [negb].
  destruct (dj_payload d !! "sha256") as [[]|] eqn:Ep; try done.
  destruct (sha256_base64 (body p)) as [c|] eqn:Ec; [|done]. intros ->%bool_decide_eq_true_1.
  apply bool_decide_eq_false_1 in E1, E2. exists d, c. split_and!; eauto using hs256_signed, hs256_issuer.
Qed.

Lemma handle_unauthentic p w :
  ~ authentic p -> handle_body (body p) (auth_header p) (post_time p) w = (Some UNAUTHORIZED, w).
Proof.
  intros Hn. unfold handle_body. destruct (verify_webhook_signature _ _ _) eqn:E; [|done].
  by apply verified_authentic in E.
Qed.

(** C14: only LiveKit reaches the voice service.  A request without a token
    signed with the server's secret, issued in the name of its key and carrying
    the digest of the very body it comes with, is answered 401 and changes
    nothing, whatever else it contains; a request that is answered 200 is
    authentic and has had its event, with the room and user of the body, handled
    by the voice service to the end. *)
Theorem webhook_requires_signature (p : Post) (w : World X D) :
  let '(answer, w') := serve p w in
  (~ authentic p -> w' = w /\ (answer = if aborted p then None else Some 401%Z)) /\
  (answer = Some 401%Z \/ answer = None -> w' = w) /\
  (answer = Some 200%Z -> authentic p /\
     exists m e name, json_parse (body p) = Some (JObject m) /\ m !! "event" = Some (JString name) /\
       ev_type e = parseLiveKitEvent name /\
       (forall room, m !! "room" = Some (JObject room) -> forall c, room !! "name" = Some (JString c) ->
          channel_id e = mkChannelId c) /\
       (forall part u, m !! "participant" = Some (JObject part) -> part !! "identity" = Some (JString u) ->
          user_id e = mkUserId u) /\
       VoiceService.on_livekit_event vcfg e w = (Some tt, w')).
Proof.
  unfold serve. destruct (aborted p); [split_and!; [done|done|done]|].
  destruct (handle_body (body p) (auth_header p) (post_time p) w) as [r w'] eqn:E.
  assert (Hun : ~ authentic p -> r = Some UNAUTHORIZED /\ w' = w).
  { intros Hn. rewrite handle_unauthentic in E by done. by injection E as <- <-. }
  unfold handle_body in E. destruct (verify_webhook_signature _ _ _) eqn:Ev; simpl in E.
  - apply verified_authentic in Ev.
    assert (Hr : r <> Some UNAUTHORIZED /\ (r = Some OK -> exists m name channel,
      json_parse (body p) = Some (JObject m) /\ m !! "event" = Some (JString name) /\
      room_name (JObject m) = Some channel /\
      VoiceService.on_livekit_event vcfg (read_event (JObject m) name channel) w = (Some tt, w'))).
    { destruct (json_parse (body p)) as [[| | | | | | |m]|]; try (injection E as <- <-; by split).
      destruct (string_field (JObject m) "event") as [name|] eqn:En; [|injection E as <- <-; by split].
      destruct (room_name (JObject m)) as [channel|] eqn:Er; [|injection E as <- <-; by split].
      unfold ex_bind, ex_ret in E. simpl in E.
      destruct (VoiceService.on_livekit_event vcfg _ w) as [[[]|] w1] eqn:Eo; injection E as <- <-;
        (split; [done|]); [|done]. intros _. exists m, name, channel. split_and!; try done.
      unfold string_field, field in En. destruct (m !! "event") as [[]|]; congruence. }
    destruct Hr as [Hr HOK]. destruct r as [[]|]; simpl; split_and!; try done; try (by intros [|]).
    intros _. split; [done|]. destruct (HOK eq_refl) as (m & name & channel & Hj & Hn & Hroom & Ho).
    exists m, (read_event (JObject m) name channel), name. split_and!; try done.
    + intros room Hro c Hc. unfold room_name, object_field, field in Hroom. rewrite Hro, Hc in Hroom.
      by injection Hroom as <-.
    + intros part u Hp Hu. unfold read_event, object_field, field. rewrite Hp. simpl.
      unfold string_or_empty, string_field, field. by rewrite Hu.
  - injection E as <- <-. simpl. split_and!; done.
Qed.

(** The metadata is read as the recovery code reads it. *)
Lemma read_metadata_agrees raw :
  raw <> "" ->
  let md := VoiceService.parse_participant_metadata raw in
  read_metadata raw = (md_node_id md, md_app_session_id md, md_intent_nonce md).
Proof.
  intros Hne md. subst md. unfold VoiceService.parse_participant_metadata, read_metadata.
  rewrite bool_decide_false by done. by destruct (json_parse raw) as [[]|].
Qed.

(** *** The server's own tokens *)

(** The payload [jwt::create()] builds from the claims. *)
Definition claims_payload (c : Claims) : gmap string json :=
  <["iss" := JString (cl_issuer c)]> (<["sub" := JString (cl_subject c)]>
  (<["iat" := JUnsigned (cl_issued_at c)]> (<["exp" := JUnsigned (cl_expires_at c)]>
  (<["video" := cl_video c]>
    match cl_metadata c with Some m => <["metadata" := JString m]> ∅ | None => ∅ end)))).

Lemma bearer_of_token token : token <> "" -> bearer_token (kBearer ++ token) = token.
Proof.
  intros Hne. unfold bearer_token. rewrite length_text_app.
  destruct token as [|c token]; [done|]. simpl String.length.
  destruct (Nat.ltb_spec 7 (7 + S (String.length token))); [done|lia].
Qed.

Lemma claims_no_digest c : claims_payload c !! "sha256" = None.
Proof.
  unfold claims_payload. destruct (cl_metadata c); by rewrite !lookup_insert_ne, ?lookup_empty by done.
Qed.

(** A token that the server minted opens no webhook: it carries no digest.  So
    a participant cannot use the token of a call to post events of its own. *)
Lemma minted_token_rejected secret claims chunks_ ab now w :
  (forall d, jwt_decode (jwt_sign secret claims) = Some d -> dj_payload d = claims_payload claims) ->
  jwt_sign secret claims <> "" ->
  let p := mkPost (kBearer ++ jwt_sign secret claims) chunks_ ab now in
  serve p w = (if ab then None else Some 401%Z, w).
Proof.
  intros Hdec Hne p. unfold serve. destruct ab; [done|]. simpl aborted. cbn [negb].
  rewrite handle_unauthentic; [done|]. intros (d & hash & Hd & _ & _ & Hs & _).
  simpl auth_header in Hd. rewrite bearer_of_token in Hd by done.
  by rewrite (Hdec d Hd), claims_no_digest in Hs.
Qed.

(** C15: tokens for calls are not tokens for webhooks.  With a JWT library that
    decodes what it signed to the claims that were signed, the token the server
    mints for a participant, for any user, room, rights and time, authorizes no
    webhook request, though it is signed with the same secret and in the name of
    the same key. *)
Theorem call_tokens_open_no_webhook (ts : TokenService.t) (req : TokenService.ParticipantTokenRequest)
  (x : X) (chunks_ : list string) (now : Z) (w : World X D) :
  let claims := TokenService.participant_claims ts req (unix_now_seconds x).1 in
  (forall d, jwt_decode (jwt_sign (TokenService.api_secret_ ts) claims) = Some d ->
     dj_payload d = claims_payload claims) ->
  jwt_sign (TokenService.api_secret_ ts) claims <> "" ->
  serve (mkPost (kBearer ++ (TokenService.mint_participant_token ts req x).1) chunks_ false now) w =
    (Some 401%Z, w).
Proof.
  intros claims Hdec Hne. unfold TokenService.mint_participant_token. subst claims.
  destruct (unix_now_seconds x) as [t x']. simpl fst in *.
  by apply (minted_token_rejected _ _ chunks_ false now w).
Qed.

End Server.

(** *** A participant's token, replayed *)

Module Demo.
Import VoiceProofs Sample.

#[export] Existing Instances json0 crypto0.

Definition ts : TokenService.t := TokenService.mk "k" "s".
Definition req : TokenService.ParticipantTokenRequest :=
  TokenService.mkRequest u0 c0 "n1" 7 "nonce" true true 600.
Definition claims : Claims :=
  TokenService.participant_claims ts req (unix_now_seconds ext0).1.
Definition decoded : DecodedJwt := mkDecoded ∅ (claims_payload claims) "h" "p" "sig".

(** The library verifies what is signed and issued by anybody's name that is right. *)
#[export] Instance jwt0 : JwtLib := {|
  jwt_decode s := if bool_decide (s = "jwt") then Some decoded else None;
  decode_b64url _ := None; PKey := unit; ec_public_key _ _ := None; ecdsa_sha256_verify _ _ _ := false |}.
#[export] Instance hs0 : Hs256.
Proof.
  refine {| hs256_verify secret issuer d now :=
              match dj_payload d !! "iss" with
              | Some (JString s) => bool_decide (s = issuer) && bool_decide (signature_raw d = "sig")
              | _ => false
              end;
            hs256_signature secret text sig := bool_decide (sig = "sig") |}.
  - intros secret issuer d now. destruct (dj_payload d !! "iss") as [[]|]; try done.
    by intros [_ ?]%andb_prop.
  - intros secret issuer d now. destruct (dj_payload d !! "iss") as [[]|]; try done.
    by intros [->%bool_decide_eq_true_1 _]%andb_prop.
Defined.

End Demo.
Import Demo.

Lemma call_tokens_open_no_webhook_witness :
  jwt_decode "jwt" = Some Demo.decoded /\
  serve VoiceProofs.Sample.cfg0 (mkWebhookConfig "k" "s") (mkPost "Bearer jwt" ["{}"] false 5) VoiceProofs.Sample.boot =
    (Some 401%Z, VoiceProofs.Sample.boot).
Proof.
  split; [reflexivity|].
  assert (Hd : forall d, jwt_decode (jwt_sign "s" Demo.claims) = Some d -> dj_payload d = claims_payload Demo.claims).
  { intros d Hd. change (Some Demo.decoded = Some d) in Hd. injection Hd as <-. reflexivity. }
  exact (call_tokens_open_no_webhook VoiceProofs.Sample.cfg0 (mkWebhookConfig "k" "s") Demo.ts Demo.req
    VoiceProofs.Sample.ext0 ["{}"] 5
    VoiceProofs.Sample.boot Hd ltac:(discriminate)).
Defined.

End WebhookServer.
