(* ===== verification/AppWorld.v ===== *)
(** * The application state and the commands' context

    [app/dispatcher/CommandContext.h]: the services and managers a command
    reaches, as one record [App] around the voice services' [World] (which
    already holds the hub service, the session and subscription managers, Redis
    and the database).  With them, [app/services/audit/AuditService.cpp] and
    [app/services/presence/PresenceService.cpp].  A command runs in the monad
    [EX App]: an exception that leaves it is caught by the worker. *)

From S2P Require Import Prelude.
From S2P Require Import CStrings.
From S2P Require Import Ids.
From S2P Require Import Protocol.
From S2P Require Import PriorityQueues.
From S2P Require Import OutboundMsg.
From S2P Require Import SessionManager.
From S2P Require Import SubscriptionManager.
From S2P Require Import VoiceSessions.
From S2P Require Import HubService.
From S2P Require Import External.
From S2P Require Import VoiceWorld.
From S2P Require Import VoiceStores.
From S2P Require Import VoiceService.
From S2P Require Import ServerEvents.
From S2P Require Import CommandUtils.
From S2P Require Import Messages.
From S2P Require Import MessageService.
From S2P Require Import UserService.
From S2P Require Import Auth.

(** [AuditRepository::Event], without the fields no command sets. *)
Record AuditEvent := mkAudit {
  category : string; event_type_ : string; severity : string; actor_type : string;
  actor_user_id : option UserId; target_user_id : option UserId;
  au_hub_id : option HubId; au_channel_id : option ChannelId;
  au_session_id : option string; au_connection_id : option string; au_metadata : json }.

(** ** The audit log *)

Module AuditService.
Section Audit.
Context {D : Type}.
(** [AuditRepository::logEvent]. *)
Variable repo_logEvent : AuditEvent -> EX D unit.

Record t := mk { queue_ : Tsq.t AuditEvent; running_ : bool }.

Definition create : t := mk Tsq.create false.
Definition start (a : t) : t := mk (queue_ a) true.
Definition stop (a : t) : t :=
  if running_ a then mk (Tsq.stop (queue_ a)) false else a.

(** Never throws into the caller. *)
Definition log (event : AuditEvent) (a : t) : t := mk (Tsq.push (queue_ a) event) (running_ a).

(** One turn of the thread: [None] while it waits, [Some false] when it ends.
    A write that throws loses its event. *)
Definition run_once (a : t) (d : D) : option bool * t * D :=
  match Tsq.pop (queue_ a) with
  | (Tsq.Blocked, q) => (None, mk q (running_ a), d)
  | (Tsq.Closed, q) => (Some false, mk q (running_ a), d)
  | (Tsq.Item ev, q) => (Some true, mk q (running_ a), (repo_logEvent ev d).2)
  end.

End Audit.
End AuditService.

(** ** Loops that collect *)

Fixpoint ex_map {S A B} (f : A -> EX S B) (l : list A) : EX S (list B) :=
  match l with
  | [] => ex_ret []
  | x :: l' => (y <-- f x; ys <-- ex_map f l'; ex_ret (y :: ys))%ex
  end.

Fixpoint ex_filter {S A} (p : A -> EX S bool) (l : list A) : EX S (list A) :=
  match l with
  | [] => ex_ret []
  | x :: l' =>
    (keep <-- p x; ys <-- ex_filter p l'; ex_ret (if (keep : bool) then x :: ys else ys))%ex
  end.

Lemma ex_triple_map {S A B} (I : S -> Prop) (f : A -> EX S B) (l : list A) (phi : A -> B -> Prop) :
  (forall x, x ∈ l -> ex_triple I (f x) (fun y s => I s /\ phi x y) I) ->
  ex_triple I (ex_map f l) (fun ys s => I s /\ Forall2 phi l ys) I.
Proof.
  induction l as [|x l IH]; intros Hf; simpl; [apply ex_triple_ret; by split|].
  eapply ex_triple_bind; [apply Hf; left|]. intros y. apply ex_triple_pure. intros Hy.
  eapply ex_triple_bind; [apply IH; intros; apply Hf; by right|]. intros ys.
  apply ex_triple_pure. intros Hys. apply ex_triple_ret. intros s Hs. split; [done|by constructor].
Qed.

Lemma ex_preserves_filter {S A} (I : S -> Prop) (p : A -> EX S bool) (l : list A) :
  (forall x, x ∈ l -> ex_preserves I (p x)) -> ex_preserves I (ex_filter p l).
Proof.
  induction l as [|x l IH]; intros Hp; simpl; [by intros s|].
  apply ex_preserves_bind; [apply Hp; left|]. intros b.
  apply ex_preserves_bind; [apply IH; intros; apply Hp; by right|]. intros ys. by intros s.
Qed.

(** ** The state *)

Section App.
Context {X D : Type}.

Record App := mkApp {
  voice : World X D;
  user_cache : gmap Z User;
  async_writer : option Writer.t;
  audit : AuditService.t;
  event_sink : EventQueue.t
}.

Definition set_voice (w : World X D) (a : App) : App :=
  mkApp w (user_cache a) (async_writer a) (audit a) (event_sink a).

Definition M : Type -> Type := EX App.

Definition on_voice {A} (m : EX (World X D) A) : M A :=
  fun a => let '(r, w) := m (voice a) in (r, set_voice w a).

(** The hub service. *)
Definition hub_service {A} (m : EX (HubService.t (D := D)) A) : M A := on_voice (on_hubs m).

(** The user service, on its cache and the same database. *)
Definition user_service {A} (m : EX (UserService.t D) A) : M A :=
  fun a =>
    let h := hubs (voice a) in
    let '(r, u) := m (UserService.mk (user_cache a) (HubService.db h)) in
    (r, mkApp (set_hubs (HubService.mk (HubService.cache_ h) (HubService.channel_cache_ h)
                           (UserService.db u)) (voice a))
          (UserService.cache_ u) (async_writer a) (audit a) (event_sink a)).

(** The message service, on the same database and world. *)
Definition message_service {A} (m : ST (MessageService.t X D) A) : M A :=
  fun a =>
    let h := hubs (voice a) in
    let '(r, s) := m (MessageService.mk (async_writer a) (HubService.db h) (ext (voice a))) in
    (Some r,
     mkApp (set_ext (MessageService.ms_ext s)
              (set_hubs (HubService.mk (HubService.cache_ h) (HubService.channel_cache_ h)
                           (MessageService.ms_db s)) (voice a)))
       (user_cache a) (MessageService.async_writer_ s) (audit a) (event_sink a)).

(** The outside world: Redis, clocks and random numbers. *)
Definition on_world {A} (m : ST X A) : M A := on_voice (on_ext m).

Definition sessions (a : App) : Session.t := session_manager_ (voice a).
Definition subscriptions (a : App) : Subscription.t := subscription_manager_ (voice a).
Definition voice_sessions (a : App) : VoiceSessions.t := sessions_ (voice a).

Definition set_session_manager (sm : Session.t) (w : World X D) : World X D :=
  mkWorld (ext w) (hubs w) sm (subscription_manager_ w) (sessions_ w) (nodes_ w)
    (evidence_ w) (pending_channels_ w) (user_resume_ids_ w) (e2ee_keys_ w) (join_rotate_seen_ w)
    (channel_takeover_guard_ w) (channel_started_at_unix_ w) (user_last_event_ts_ms_ w)
    (channel_last_room_event_ts_ms_ w) (recovery_counter w) (outbox w).
Definition set_subscriptions (s : Subscription.t) (w : World X D) : World X D :=
  mkWorld (ext w) (hubs w) (session_manager_ w) s (sessions_ w) (nodes_ w)
    (evidence_ w) (pending_channels_ w) (user_resume_ids_ w) (e2ee_keys_ w) (join_rotate_seen_ w)
    (channel_takeover_guard_ w) (channel_started_at_unix_ w) (user_last_event_ts_ms_ w)
    (channel_last_room_event_ts_ms_ w) (recovery_counter w) (outbox w).

Definition on_session_manager (f : Session.t -> Session.t) : M unit :=
  ex_modify (fun a => set_voice (set_session_manager (f (sessions a)) (voice a)) a).
Definition on_subscriptions (f : Subscription.t -> Subscription.t) : M unit :=
  ex_modify (fun a => set_voice (set_subscriptions (f (subscriptions a)) (voice a)) a).
Definition on_voice_sessions {A} (f : VoiceSessions.t -> A * VoiceSessions.t) : M A :=
  on_voice (on_sessions f).

(** ** What every command does *)

Definition subscribe (conn : GlobalConnId) (topic : Topic.t) : M unit :=
  on_subscriptions (fun s => (Subscription.subscribeConnection s conn topic).2).
Definition unsubscribe (conn : GlobalConnId) (topic : Topic.t) : M unit :=
  on_subscriptions (fun s => (Subscription.unsubscribeConnection s conn topic).2).

(** [*getSubscribers(topic)], read while the pointer is held; a null pointer
    and an empty vector are treated alike by every caller. *)
Definition subscribers (topic : Topic.t) (a : App) : list GlobalConnId :=
  Publisher.subscribers (voice a) topic.

Definition ok_of {A E} (r : expected A E) : option A :=
  match r with Ok a => Some a | Unexpected _ => None end.

Definition session_of (conn : GlobalConnId) (a : App) : option UserId :=
  ok_of (Session.sessionOfConnection (sessions a) conn).
Definition session_id_of (conn : GlobalConnId) (a : App) : option Z :=
  ok_of (Session.sessionIdOfConnection (sessions a) conn).

(** [std::to_string(sessionIdOfConnection(conn).value_or(0))]. *)
Definition session_text (conn : GlobalConnId) (a : App) : string :=
  std_to_string (default 0%Z (session_id_of conn a)).

Definition log_audit (event : AuditEvent) : M unit :=
  ex_modify (fun a => mkApp (voice a) (user_cache a) (async_writer a)
                        (AuditService.log event (audit a)) (event_sink a)).

(** The audit events the commands log: an action of [actor] on a connection. *)
Definition log_action (cat ty : string) (conn : GlobalConnId) (actor : UserId)
  (target : option UserId) (hub : option HubId) (channel : option ChannelId) (metadata : json)
  : M unit :=
  (text <-- ex_gets (session_text conn);
   log_audit (mkAudit cat ty "info" "user" (Some actor) target hub channel (Some text)
                (Some (to_string conn)) metadata))%ex.

Definition push_event (evt : EventQueue.Event) : M unit :=
  ex_modify (fun a => mkApp (voice a) (user_cache a) (async_writer a) (audit a)
                        (EventQueue.push_impl (event_sink a) evt).2).

(** The user's connections, or the requesting one when there are none. *)
Definition self_conns_or (conn : GlobalConnId) (user : UserId) (a : App) : list GlobalConnId :=
  match Session.getSessionConnections (sessions a) user with
  | [] => [conn]
  | conns => conns
  end.

(** [try { m } catch (const std::exception& ex) { h(ex.what()) }]: the text of
    the exception is read from the database that threw. *)
Definition catch_what `{DbErrors D} {A} (m : M A) (h : string -> M A) : M A :=
  fun a => match m a with
           | (Some r, a') => (Some r, a')
           | (None, a') => h (err_what (HubService.db (hubs (voice a')))) a'
           end.

End App.
Arguments App : clear implicits.
Arguments M : clear implicits.

(** What a command answers. *)
Abbreviation Out := (list (OutgoingMessage ServerEvent)).

(** The services' configuration: the hash functions of the caches, the voice
    configuration, the token verifier and the invite links' prefix. *)
Record Services `{JwtLib} := mkServices {
  hash_hub : HubId -> Z;
  hash_user : UserId -> Z;
  voice_cfg : VoiceConfig;
  token_verifier : SupabaseVerifier.t _;
  invite_base : string
}.

(** Early returns. *)
Notation "'require' x := o 'orelse' e ; k" :=
  (match o with Some x => k | None => ex_ret e end)
  (at level 60, x name, o at next level, e at next level, k at level 200, right associativity)
  : ex_scope.
Notation "'unless' b 'reply' e ; k" :=
  (if b then k else ex_ret e)
  (at level 60, b at next level, e at next level, k at level 200, right associativity) : ex_scope.

(** ** Presence *)

Module PresenceService.
Section Presence.
Context {X D : Type}.

Definition onlineUsers (a : App X D) : list UserId := Session.activeUsers (sessions a).

(** The users behind a topic's subscribers, each once, in order. *)
Fixpoint users_of (sm : Session.t) (seen : list UserId) (conns : list GlobalConnId) : list UserId :=
  match conns with
  | [] => []
  | conn :: conns' =>
    match Session.sessionOfConnection sm conn with
    | Unexpected _ => users_of sm seen conns'
    | Ok u => if bool_decide (u ∈ seen) then users_of sm seen conns'
              else u :: users_of sm (u :: seen) conns'
    end
  end.

Definition onlineUsersInHub (hub : HubId) (a : App X D) : list UserId :=
  users_of (sessions a) [] (subscribers (Topic.HubTopic hub) a).
Definition onlineUsersInChannel (hub : HubId) (channel : ChannelId) (a : App X D) : list UserId :=
  users_of (sessions a) [] (subscribers (Topic.ChannelTopic hub channel) a).

Definition isUserOnline (user : UserId) (a : App X D) : bool :=
  Session.hasSession (sessions a) user.

End Presence.
End PresenceService.
