(* ===== verification/AppDemo.v ===== *)
(** * A small application

    A database with one hub, one channel and a number of calls it still answers
    before it fails; tokens whose text is their subject; Redis in memory.  The
    examples and witnesses about the commands run on it. *)

From S2P Require Import Prelude.
From S2P Require Import CStrings.
From S2P Require Import Ids.
From S2P Require Import Protocol.
From S2P Require Import PriorityQueues.
From S2P Require Import OutboundMsg.
From S2P Require Import SessionManager.
From S2P Require Import SubscriptionManager.
From S2P Require Import VoiceSessions.
From S2P Require Import Evidence.
From S2P Require Import NodeRegistry.
From S2P Require Import HubService.
From S2P Require Import HubCoherence.
From S2P Require Import External.
From S2P Require Import VoiceWorld.
From S2P Require Import VoiceProofs.
From S2P Require Import ServerEvents.
From S2P Require Import CommandUtils.
From S2P Require Import Messages.
From S2P Require Import MessageService.
From S2P Require Import UserService.
From S2P Require Import Invites.
From S2P Require Import Auth.
From S2P Require Import AppWorld.

Module AppDemo.
Import HubCoherence.

(** ** The database *)

Record db := mkDb { members : list MemberRole; posts : list Domain.Message; calls_left : nat }.

(** A call on the members, while the database answers. *)
Definition on_members {A} (m : EX (list MemberRole) A) : EX db A :=
  fun d => match calls_left d with
           | O => (None, d)
           | S n => let '(r, ms) := m (members d) in (r, mkDb ms (posts d) n)
           end.
Definition on_posts {A} (m : EX (list Domain.Message) A) : EX db A :=
  fun d => match calls_left d with
           | O => (None, d)
           | S n => let '(r, ps) := m (posts d) in (r, mkDb (members d) ps n)
           end.

#[export] Instance hub_repo : HubRepo db := {
  repo_getHub h := on_members (repo_getHub h);
  repo_getHubsByIds hs := on_members (repo_getHubsByIds hs);
  repo_getChannel c := on_members (repo_getChannel c);
  repo_getChannelsByIds cs := on_members (repo_getChannelsByIds cs);
  repo_getHubChannelsByHubIds hs := on_members (repo_getHubChannelsByHubIds hs);
  repo_getHubMemberRoles h := on_members (repo_getHubMemberRoles h);
  repo_getHubMemberRolesByHubIds hs := on_members (repo_getHubMemberRolesByHubIds hs);
  repo_getHubChannelIds h := on_members (repo_getHubChannelIds h);
  repo_getUserHubs u := on_members (repo_getUserHubs u);
  repo_createHub n o := on_members (repo_createHub n o);
  repo_createChannel h n ty u := on_members (repo_createChannel h n ty u);
  repo_renameChannel c n := on_members (repo_renameChannel c n);
  repo_deleteChannel c h := on_members (repo_deleteChannel c h);
  repo_renameHub h n := on_members (repo_renameHub h n);
  repo_updateHubAvatarSeed h n := on_members (repo_updateHubAvatarSeed h n);
  repo_deleteHub h o := on_members (repo_deleteHub h o);
  repo_addMember h u r := on_members (repo_addMember h u r);
  repo_removeMember h u := on_members (repo_removeMember h u)
}.

Definition db_tables (d : db) : Tables := tables (members d).

Lemma on_members_reads {A} (m : EX (list MemberRole) A) P :
  reads tables m P -> reads db_tables (on_members m) P.
Proof.
  intros Hm d. unfold on_members, db_tables. destruct (calls_left d); [done|].
  specialize (Hm (members d)). by destruct (m (members d)) as [[a|] ms].
Qed.

Lemma on_members_writes {A} (m : EX (list MemberRole) A) P :
  writes tables m P -> writes db_tables (on_members m) P.
Proof.
  intros Hm d. unfold on_members, db_tables. destruct (calls_left d); [done|].
  specialize (Hm (members d)). by destruct (m (members d)) as [[a|] ms].
Qed.

#[export] Instance hub_laws : HubRepoLaws db := {|
  tables := db_tables; norm_hub := norm_hub; norm_channel := norm_channel; norm_user := norm_user;
  law_tables d := law_tables (members d);
  law_norm_hub d := law_norm_hub (members d);
  law_norm_channel d := law_norm_channel (members d);
  law_norm_user d := law_norm_user (members d);
  law_getHub h := on_members_reads _ _ (law_getHub h);
  law_getHubsByIds hs := on_members_reads _ _ (law_getHubsByIds hs);
  law_getChannel c := on_members_reads _ _ (law_getChannel c);
  law_getChannelsByIds cs := on_members_reads _ _ (law_getChannelsByIds cs);
  law_getHubChannelsByHubIds hs := on_members_reads _ _ (law_getHubChannelsByHubIds hs);
  law_getHubMemberRoles h := on_members_reads _ _ (law_getHubMemberRoles h);
  law_getHubMemberRolesByHubIds hs := on_members_reads _ _ (law_getHubMemberRolesByHubIds hs);
  law_getHubChannelIds h := on_members_reads _ _ (law_getHubChannelIds h);
  law_getUserHubs u := on_members_reads _ _ (law_getUserHubs u);
  law_createHub n o := on_members_writes _ _ (law_createHub n o);
  law_createChannel h n ty u := on_members_writes _ _ (law_createChannel h n ty u);
  law_renameChannel c n := on_members_writes _ _ (law_renameChannel c n);
  law_deleteChannel c h := on_members_writes _ _ (law_deleteChannel c h);
  law_renameHub h n := on_members_writes _ _ (law_renameHub h n);
  law_updateHubAvatarSeed h n := on_members_writes _ _ (law_updateHubAvatarSeed h n);
  law_deleteHub h o := on_members_writes _ _ (law_deleteHub h o);
  law_addMember h u r := on_members_writes _ _ (law_addMember h u r);
  law_removeMember h u := on_members_writes _ _ (law_removeMember h u)
|}.

#[export] Instance message_repo : MessageRepo db := {
  repo_fetchMessages c n := on_posts (repo_fetchMessages c n);
  repo_fetchMessagesAfter c m n := on_posts (repo_fetchMessagesAfter c m n);
  repo_fetchMessagesBefore c m n := on_posts (repo_fetchMessagesBefore c m n);
  repo_sendMessage c u t ats lp := on_posts (repo_sendMessage c u t ats lp);
  repo_insertMessage m := on_posts (repo_insertMessage m)
}.

(** Profiles are not stored. *)
#[export] Instance user_repo : UserRepo db := {
  repo_getUser u d := (Some None, d);
  repo_getUsersByIds us d := (Some [], d);
  repo_updateUserProfile u n dn s d := (None, d)
}.

#[export] Instance errors : DbErrors db := {|
  err_what d := "connection lost"%string; err_unique_violation d := false |}.

(** ** The libraries *)

#[export] Instance uniform0 : Uniform.
Proof. refine {| uniform := fun max r => 0%Z |}. intros. lia. Defined.

#[export] Existing Instances VoiceProofs.Sample.json0 VoiceProofs.Sample.crypto0.

Definition claims (token : string) : gmap string json :=
  list_to_map [("sub", JString token); ("iss", JString "iss"); ("aud", JString "authenticated");
               ("exp", JInteger 5000)]%string.

#[export] Instance jwt0 : JwtLib := {|
  jwt_decode token := Some (mkDecoded {["alg"%string := JString "ES256"]} (claims token) "h" "p"
                              (DemoMessages.letters 64));
  decode_b64url := Some; PKey := unit; ec_public_key x y := Some tt;
  ecdsa_sha256_verify k m s := true |}.

Definition verifier : SupabaseVerifier.t _ :=
  SupabaseVerifier.mk {["k"%string := SupabaseVerifier.mkKeyMaterial
    (SupabaseVerifier.mkJwk "EC" "ES256" "k" "x" "y" "P-256" "" "") (tt : PKey)]} ["k"%string]
    "iss" "authenticated".

Definition sv : Services := mkServices jwt0 Demo.hash0 (fun u => Z.of_nat (String.length (user_value u)))
  VoiceProofs.Sample.cfg0 verifier "https://kergit.example/invite/".

(** ** The state *)

Definition alice : UserId := Demo.alice.
Definition conn (n : string) : GlobalConnId := mkGlobalConnId (mkNetStackId "net-1") (mkConnId n).

(** The owner and Alice are members; [n] calls until the database fails. *)
Definition boot (n : nat) : App DemoWorld.t db :=
  mkApp (mkWorld (DemoWorld.mk ∅ true 1000 0 [])
           (HubService.create (mkDb [(Demo.owner0, OWNER); (alice, ADMIN)] [] n))
           (Session.create 4) Subscription.create VoiceSessions.create NodeRegistry.create
           (Evidence.create 30) ∅ ∅ ∅ ∅ ∅ ∅ ∅ ∅ 1 [])
    ∅ None AuditService.create (EventQueue.create 8).

End AppDemo.
