(* ===== verification/SessionCommands.v ===== *)
(** * Commands on sessions

    [app/commands/session/*.cpp]: authentication, the bootstrap of a connection
    that has authenticated, disconnection, and the state snapshots a client
    asks for. *)

From S2P Require Import Prelude.
From S2P Require Import CStrings.
From S2P Require Import Ids.
From S2P Require Import Protocol.
From S2P Require Import PriorityQueues.
From S2P Require Import OutboundMsg.
From S2P Require Import SessionManager.
From S2P Require Import SubscriptionManager.
From S2P Require Import VoiceSessions.
From S2P Require Import HubService.
From S2P Require Import External.
From S2P Require Import VoiceWorld.
From S2P Require Import VoiceStores.
From S2P Require Import VoiceService.
From S2P Require Import ServerEvents.
From S2P Require Import CommandUtils.
From S2P Require Import Messages.
From S2P Require Import MessageService.
From S2P Require Import UserService.
From S2P Require Import Auth.
From S2P Require Import AppWorld.

From stdpp Require Import sorting.

Import Utils.

Section Commands.
Context {X D : Type} `{External X} `{JsonLib} `{Crypto} `{JwtLib} `{HubRepo D} `{UserRepo D}.
Variable sv : Services.

Abbreviation C := (M X D).

(** ** Snapshots *)

Record HubSyncInput := mkInput {
  in_hub : Hub; in_members : list MemberRole; in_channel_ids : list ChannelId }.

Definition populate_self_user (user_id : UserId) : C ProtoUser :=
  (db_user <-- user_service (UserService.getUser (hash_user sv) user_id);
   ex_ret (match db_user with
           | Some u => to_proto_user u
           | None => mkProtoUser (user_value user_id) None
           end))%ex.

Definition collect_hub_inputs (hubs : list Hub) : C (list HubSyncInput) :=
  match hubs with
  | [] => ex_ret []
  | _ =>
    (hub_service (HubService.warmSnapshotsForHubs (hash_hub sv) hubs);;;
     ex_map (fun hub =>
       topology <-- hub_service (HubService.getHubTopology (hash_hub sv) (hub_id hub));
       ex_ret (mkInput hub topology.1 topology.2)) hubs)%ex
  end.

Definition gather_user_ids (inputs : list HubSyncInput) : list UserId :=
  HubService.distinct_ids UserService.user_is_empty []
    (concat (map (fun i => (in_members i).*1) inputs)).
Definition gather_channel_ids (inputs : list HubSyncInput) : list ChannelId :=
  HubService.distinct_ids HubService.channel_is_empty [] (concat (map in_channel_ids inputs)).

Definition channel_state (channels_by_id : gmap ChannelId Channel) (a : App X D) (id : ChannelId)
  : ChannelState :=
  match channels_by_id !! id with
  | None =>
    mkChannelState (mkProtoChannel (channel_value id) ChannelType_UNSPECIFIED None) None
  | Some channel =>
    mkChannelState (to_proto_channel channel)
      (match ch_type channel with
       | VOICE =>
         Some (mkVoiceChannel
                 (VoiceService.read_channel_started_at_unix (voice a) (ch_id channel))
                 (map (fun p : UserId * VoiceSessions.ParticipantState =>
                         mkVoiceParticipant (user_value p.1) (VoiceSessions.muted p.2)
                           (VoiceSessions.deafened p.2))
                    (VoiceSessions.participants_in_channel (voice_sessions a) (ch_id channel))))
       | CHAT => None
       end)
  end.

(** [append_hub_sync]. *)
Definition hub_sync (users_by_id : gmap UserId User) (channels_by_id : gmap ChannelId Channel)
  (a : App X D) (input : HubSyncInput) : HubSync :=
  mkHubSync
    (mkProtoHub (hub_value (hub_id (in_hub input))) (hub_name (in_hub input))
       (hub_avatar_seed (in_hub input)))
    (map (fun m : MemberRole =>
            to_proto_hub_member m.1 (Some m.2) (PresenceService.isUserOnline m.1 a))
       (in_members input))
    (map (fun m : MemberRole =>
            match users_by_id !! m.1 with
            | Some u => to_proto_user u
            | None => mkProtoUser (user_value m.1) None
            end) (in_members input))
    (map (channel_state channels_by_id a) (in_channel_ids input)).

Definition sync_of_inputs (self : ProtoUser) (inputs : list HubSyncInput) : C StateSync :=
  (users_by_id <-- user_service (UserService.getUsersByIds (hash_user sv) (gather_user_ids inputs));
   channels_by_id <-- hub_service (HubService.getChannelsByIds (gather_channel_ids inputs));
   syncs <-- ex_gets (fun a => map (hub_sync users_by_id channels_by_id a) inputs);
   ex_ret (mkStateSync self syncs))%ex.

Definition build_state_sync_for_user (user_id : UserId) : C StateSync :=
  (self <-- populate_self_user user_id;
   hubs <-- hub_service (HubService.getUserHubs user_id);
   inputs <-- collect_hub_inputs hubs;
   sync_of_inputs self inputs)%ex.

Definition hub_le (a b : HubId) : Prop := String.leb (hub_value a) (hub_value b) = true.
#[local] Instance hub_le_dec a b : Decision (hub_le a b).
Proof. unfold hub_le. apply _. Defined.

Definition build_state_sync_for_requested_hubs (user_id : UserId) (requested : gset HubId)
  : C StateSync :=
  (self <-- populate_self_user user_id;
   if bool_decide (requested = ∅) then ex_ret (mkStateSync self [])
   else
     authorized <-- ex_filter (fun hub =>
                      role <-- hub_service (HubService.getMembershipRole (hash_hub sv) hub user_id);
                      ex_ret (bool_decide (is_Some role)))
                      (merge_sort hub_le (elements requested));
     hubs_by_id <-- hub_service (HubService.getHubsByIds (hash_hub sv) authorized);
     inputs <-- collect_hub_inputs (omap (fun h => hubs_by_id !! h) authorized);
     sync_of_inputs self inputs)%ex.

(** ** [RequestStateSyncCommand] *)

Definition RequestStateSync_execute (conn : GlobalConnId) (cmd : RequestStateSync) : C Out :=
  (user <-- ex_gets (session_of conn);
   require user_id := user orelse [drop_connection conn UNAUTHORIZED "Authenticate first"];
   sync <-- match rss_hub_ids cmd with
            | [] => build_state_sync_for_user user_id
            | ids =>
              build_state_sync_for_requested_hubs user_id
                (list_to_set (mkHubId <$> filter (fun s => s <> ""%string) ids))
            end;
   ex_ret [make_outgoing_message [conn] (make_state_sync sync)])%ex.

(** ** [AuthenticateCommand] *)

Definition make_auth_ok (conn : GlobalConnId) : OutgoingMessage ServerEvent :=
  make_outgoing_message [conn] SvAuthOk.

Definition make_auth_update (conn : GlobalConnId) (state : AuthState) (user : option UserId)
  (expires_at_unix : Z) : OutgoingMessage ServerEvent :=
  mkOutgoing High [conn] (ActAuth (mkUpdateAuthState state expires_at_unix user)).

Definition auth_failed (conn : GlobalConnId) : Out := [make_auth_update conn AUTH_FAILED None 0].

Definition voice_self_disconnected : ServerEvent := SvVoiceSelfStatus false false None "".

(** Hand the voice ownership of a previous session over, on request. *)
Definition resume_voice (user_id : UserId) (resume : option VoiceResume) (session : Z) : C Out :=
  match resume with
  | None => ex_ret []
  | Some r =>
    match to_channel_scope (vr_channel r) with
    | None => ex_ret []
    | Some scope =>
      (transfer <-- on_voice (VoiceService.try_resume_voice_ownership user_id (scope_hub scope)
                      (scope_channel scope) (vr_resume_id r) session);
       match transfer with
       | None => ex_ret []
       | Some tr =>
         let previous := VoiceService.previous_owner_session tr in
         if (previous =? session)%Z then ex_ret []
         else
           old_conns <-- ex_gets (fun a => Session.getSessionIdConnections (sessions a) previous);
           on_voice (VoiceService.resync_voice_key_for_user user_id);;;
           ex_ret (match old_conns with
                   | [] => []
                   | _ => [make_outgoing_message old_conns SvVoiceSelfRevoked;
                           make_outgoing_message old_conns voice_self_disconnected]
                   end)
       end)%ex
    end
  end.

(** [attachConnection], its result kept with the new manager. *)
Definition attach (conn : GlobalConnId) (user_id : UserId) : C (expected Z CommandErrorCode) :=
  fun a => let '(r, sm) := Session.attachConnection (sessions a) conn user_id in
           (Some r, set_voice (set_session_manager sm (voice a)) a).

Definition Authenticate_execute (conn : GlobalConnId) (auth : Authenticate) : C Out :=
  if negb (bool_decide (auth_type auth = AuthType_REAUTH)) &&
     negb (bool_decide (auth_type auth = AuthType_AUTH)) then ex_ret (auth_failed conn)
  else if negb (bool_decide (auth_provider auth = AuthProvider_SUPABASE))
  then ex_ret (auth_failed conn)
  else if bool_decide (auth_token auth = ""%string) then ex_ret (auth_failed conn)
  else
    (auth_result <-- on_world (AuthService.authenticate (token_verifier sv) (auth_token auth));
     match auth_result with
     | Unexpected _ =>
       log_audit (mkAudit "auth" "auth.login_failed" "info" "user" None None None None None
                    (Some (to_string conn)) (JObject ∅));;;
       ex_ret (auth_failed conn)
     | Ok claims =>
       let user_id := mkUserId (uc_id claims) in
       let accepted := make_auth_update conn AUTHENTICATED (Some user_id) (uc_exp claims) in
       existing <-- ex_gets (session_of conn);
       match existing with
       | Some u =>
         ex_ret (if bool_decide (user_value u = uc_id claims) then [accepted; make_auth_ok conn]
                 else auth_failed conn)
       | None =>
         attach_result <-- attach conn user_id;
         match attach_result with
         | Unexpected code =>
           ex_ret [make_command_error conn Envelope.AUTH code "Session limit exceeded"]
         | Ok new_session_id =>
           revoked <-- resume_voice user_id (auth_voice_resume auth) new_session_id;
           push_event (EventQueue.ConnectionEvent conn user_id);;;
           log_audit (mkAudit "auth" "auth.login_succeeded" "info" "user" (Some user_id) None None
                        None (Some (std_to_string new_session_id)) (Some (to_string conn))
                        (JObject ∅));;;
           ex_ret (revoked ++ [accepted; make_auth_ok conn])
         end
       end
     end)%ex.

(** ** [BootstrapCommand] *)

Definition make_voice_self_status (connected is_owner : bool) (hub : option HubId)
  (channel : option ChannelId) (resume_id : option string) : ServerEvent :=
  SvVoiceSelfStatus connected is_owner
    (match connected, hub, channel with
     | true, Some h, Some c => Some (to_proto_channel_ref h c)
     | _, _, _ => None
     end)
    (if connected && is_owner then default ""%string resume_id else ""%string).

Definition make_presence_signal (hub : HubId) (user_id : UserId) (is_online : bool) : ServerEvent :=
  make_rt_signal (Presence (hub_value hub) (user_value user_id) is_online).

(** Tell the subscribers of each hub, the user's own connections aside. *)
Definition announce_presence (user_id : UserId) (own : list GlobalConnId) (is_online : bool)
  (hub_ids : list HubId) (a : App X D) : Out :=
  omap (fun hub =>
    match filter (fun c => c ∉ own) (subscribers (Topic.HubTopic hub) a) with
    | [] => None
    | targets => Some (make_outgoing_message targets (make_presence_signal hub user_id is_online))
    end) hub_ids.

Definition Bootstrap_execute (conn : GlobalConnId) (user_id : UserId) : C Out :=
  if bool_decide (user_value user_id = ""%string)
  then ex_ret [drop_connection conn UNAUTHORIZED "Authenticate first"]
  else
    (sid <-- ex_gets (session_id_of conn);
     require session_id := sid orelse [drop_connection conn UNAUTHORIZED "Session not found"];
     sync <-- build_state_sync_for_user user_id;
     let hub_ids := mkHubId <$> filter (fun s => s <> ""%string)
                      (map (fun h => ph_id (hs_hub h)) (ss_hubs sync)) in
     ex_for hub_ids (fun hub => subscribe conn (Topic.HubTopic hub));;;
     voice_channel <-- ex_gets (fun a => VoiceSessions.user_channel (voice_sessions a) user_id);
     voice_owner <-- ex_gets (fun a => VoiceSessions.user_session (voice_sessions a) user_id);
     voice_hub <-- match voice_channel with
                   | Some c =>
                     channel <-- hub_service (HubService.getChannel c);
                     ex_ret (ch_hub_id <$> channel)
                   | None => ex_ret None
                   end;
     let is_voice_owner := bool_decide (voice_owner = Some session_id) in
     resume_id <-- (if (is_voice_owner : bool) then on_voice (Resume.read user_id)
                    else ex_ret None);
     let out :=
       [make_outgoing_message [conn] (make_state_sync sync);
        make_outgoing_message [conn]
          (make_voice_self_status (bool_decide (is_Some voice_channel)) is_voice_owner voice_hub
             voice_channel resume_id)] in
     user_conns <-- ex_gets (fun a => Session.getSessionConnections (sessions a) user_id);
     if negb (length user_conns =? 1)%nat then ex_ret out
     else
       online <-- ex_gets (announce_presence user_id user_conns true hub_ids);
       ex_ret (out ++ online))%ex.

(** ** [DisconnectionCommand] *)

(** The hubs a connection is subscribed to. *)
Definition hubs_of_connection (conn : GlobalConnId) (a : App X D) : list HubId :=
  match Subscription.getSubscriptionsForConnection (subscriptions a) conn with
  | Unexpected _ => []
  | Ok topics =>
    Topic.extractHubId <$> filter (fun tp => Topic.kind tp = Topic.Hub) (elements topics)
  end.

Definition Disconnection_execute (conn : GlobalConnId) : C Out :=
  (user <-- ex_gets (session_of conn);
   require user_id := user orelse [];
   sid <-- ex_gets (session_id_of conn);
   require session_id := sid orelse [];
   hub_ids <-- ex_gets (hubs_of_connection conn);
   on_session_manager (fun sm => Session.removeConnection sm conn);;;
   on_subscriptions (fun s => Subscription.removeAllForConnection s conn);;;
   still <-- ex_gets (fun a => Session.hasSession (sessions a) user_id);
   if (still : bool) then ex_ret []
   else
     on_voice (VoiceService.on_session_destroyed user_id);;;
     out <-- ex_gets (announce_presence user_id [] false hub_ids);
     log_audit (mkAudit "auth" "auth.logout" "info" "user" (Some user_id) None None None
                  (Some (std_to_string session_id)) (Some (to_string conn)) (JObject ∅));;;
     ex_ret out)%ex.

End Commands.
