(* ===== verification/HubCommands.v ===== *)
(** * Commands on hubs

    [app/commands/hub/*.cpp]. *)

From S2P Require Import Prelude.
From S2P Require Import CStrings.
From S2P Require Import Ids.
From S2P Require Import Protocol.
From S2P Require Import OutboundMsg.
From S2P Require Import SessionManager.
From S2P Require Import SubscriptionManager.
From S2P Require Import VoiceSessions.
From S2P Require Import HubService.
From S2P Require Import External.
From S2P Require Import VoiceWorld.
From S2P Require Import VoiceService.
From S2P Require Import ServerEvents.
From S2P Require Import CommandUtils.
From S2P Require Import UserService.
From S2P Require Import Invites.
From S2P Require Import Auth.
From S2P Require Import AppWorld.
From S2P Require Import SessionCommands.

Import Utils.

Section Commands.
Context {X D : Type} `{External X} `{Uniform} `{JsonLib} `{Crypto} `{JwtLib} `{HubRepo D}
  `{UserRepo D} `{DbErrors D}.
Variable sv : Services.

Abbreviation C := (M X D).

Definition fail (conn : GlobalConnId) (ty : Envelope.Type_) (code : CommandErrorCode)
  (message : string) : Out := [make_command_error conn ty code message].

(** A delta about one hub. *)
Definition hub_delta (hub : HubId) (hub_ops : list HubOp) (member_ops : list MemberOp)
  (user_ops : list UserOp) (channels : list ChannelDelta) : ServerEvent :=
  make_state_delta [mkHubDelta (hub_value hub) hub_ops member_ops user_ops channels].

(** One message to [conns], when there are any. *)
Definition to_all (conns : list GlobalConnId) (ev : ServerEvent) : Out :=
  match conns with [] => [] | _ => [make_outgoing_message conns ev] end.

Definition code_metadata (code : string) : json := JObject {["code"%string := JString code]}.

(** The members lose the hub's topics and those of its channels. *)
Definition unsubscribe_all (conns : list GlobalConnId) (hub : HubId) (channel_ids : list ChannelId)
  : C unit :=
  ex_for conns (fun conn =>
    (unsubscribe conn (Topic.HubTopic hub);;;
     ex_for channel_ids (fun channel => unsubscribe conn (Topic.ChannelTopic hub channel)))%ex).

(** ** [CreateHubCommand] *)

Definition kMaxHubNameLength : nat := 80.
Definition kMaxHubAvatarSeedLength : nat := 128.

Definition hub_write_failure (conn : GlobalConnId) (ty : Envelope.Type_) (otherwise what : string)
  : Out :=
  match map_hub_write_error what with
  | Some mapped => fail conn ty INVALID_ARGUMENT mapped
  | None => fail conn ty INTERNAL_ERROR otherwise
  end.

Definition CreateHub_execute (conn : GlobalConnId) (cmd : CreateHub) : C Out :=
  let err := fail conn Envelope.HUB_CREATE in
  (user <-- ex_gets (session_of conn);
   require user_id := user orelse err UNAUTHORIZED "Authenticate first"%string;
   let name := sanitize (Protocol.ch_name cmd) in
   unless negb (bool_decide (name = ""%string))
     reply err INVALID_ARGUMENT "Hub name is required"%string;
   unless (utf8_length name <=? kMaxHubNameLength)%nat
     reply err INVALID_ARGUMENT "Hub name must be at most 80 characters"%string;
   created <-- catch_what
     (hub <-- hub_service (HubService.createHub (hash_hub sv) name user_id);
      log_action "hub" "hub.created" conn user_id None (Some (hub_id hub)) None (JObject ∅);;;
      ex_ret (Ok hub))
     (fun what =>
        ex_ret (Unexpected (hub_write_failure conn Envelope.HUB_CREATE "Failed to create hub" what)));
   match created with
   | Unexpected out => ex_ret out
   | Ok hub =>
     ex_catch
       (channel <-- hub_service (HubService.createChannel (hash_hub sv) (hub_id hub) "general"
                      "text" user_id);
        log_action "channel" "channel.created" conn user_id None (Some (hub_id hub)) (Some channel)
          (JObject ∅))
       (ex_ret tt);;;
     self_conns <-- ex_gets (self_conns_or conn user_id);
     ex_for self_conns (fun c => subscribe c (Topic.HubTopic (hub_id hub)));;;
     sync <-- build_state_sync_for_requested_hubs sv user_id {[hub_id hub]};
     ex_ret [make_outgoing_message self_conns (make_state_sync sync)]
   end)%ex.

(** ** [DeleteHubCommand] *)

Definition DeleteHub_execute (conn : GlobalConnId) (cmd : RemoveHub) : C Out :=
  let err := fail conn Envelope.HUB_REMOVE in
  (user <-- ex_gets (session_of conn);
   require user_id := user orelse [drop_connection conn FORBIDDEN "Authenticate first"];
   let hub := mkHubId (rh_hub_id cmd) in
   r <-- hub_service (HubService.getMembershipRole (hash_hub sv) hub user_id);
   require role := r orelse err FORBIDDEN "Join the hub before removing it"%string;
   unless bool_decide (role = OWNER) reply err FORBIDDEN "Only owners can remove hubs"%string;
   channel_ids <-- hub_service (HubService.getHubChannelIds (hash_hub sv) hub);
   removed <-- ex_catch
     (ok <-- hub_service (HubService.deleteHub (hash_hub sv) hub user_id);
      if negb ok
      then ex_ret (Unexpected (err INTERNAL_ERROR "Unable to remove hub at this time"%string))
      else
        on_world (InviteService.revokeInvitesForHub hub);;;
        log_action "hub" "hub.deleted" conn user_id None (Some hub) None
          (JObject {["invites_revoked"%string := JBool true]});;;
        ex_ret (Ok tt))
     (ex_ret (Unexpected (err INTERNAL_ERROR "Unable to delete hub at this time"%string)));
   match removed with
   | Unexpected out => ex_ret out
   | Ok _ =>
     conns <-- ex_gets (subscribers (Topic.HubTopic hub));
     on_subscriptions (fun s => Subscription.removeAllForTopic s (Topic.HubTopic hub));;;
     ex_for channel_ids (fun channel =>
       on_subscriptions (fun s => Subscription.removeAllForTopic s (Topic.ChannelTopic hub channel)));;;
     ex_ret (to_all conns (hub_delta hub [HubRemove] [] [] []))
   end)%ex.

(** ** [GetHubInviteCommand] *)

Definition GetHubInvite_execute (conn : GlobalConnId) (cmd : CreateHubJoinCode) : C Out :=
  let err := fail conn Envelope.HUB_CREATE_JOIN_CODE in
  (user <-- ex_gets (session_of conn);
   require user_id := user orelse
     [drop_connection conn FORBIDDEN "Authenticate before sending messages"];
   let hub := mkHubId (chj_hub_id cmd) in
   r <-- hub_service (HubService.getMembershipRole (hash_hub sv) hub user_id);
   require role := r orelse err FORBIDDEN "Join the hub before requesting a join code"%string;
   unless RolePolicy.canInvite role
     reply err FORBIDDEN "Only owners or admins can create join codes"%string;
   join_code <-- on_world (InviteService.createInvite (invite_base sv) hub);
   log_action "hub" "hub.invite.created" conn user_id None (Some hub) None
     (code_metadata join_code);;;
   self_conns <-- ex_gets (self_conns_or conn user_id);
   ex_ret [make_outgoing_message self_conns
             (hub_delta hub [HubJoinCodeSet join_code] [] [] [])])%ex.

(** ** [JoinHubByInviteCommand] *)

(** The hub of a link, or the audited refusal. *)
Definition resolve_code (conn : GlobalConnId) (ty : Envelope.Type_) (user_id : UserId)
  (token : string) : C (expected HubId Out) :=
  (hub <-- on_world (InviteService.resolveInvite token);
   match hub with
   | Some h => ex_ret (Ok h)
   | None =>
     log_action "hub" "hub.invite.expired" conn user_id None None None (code_metadata token);;;
     ex_ret (Unexpected (fail conn ty INVITE_EXPIRED "Invite link is invalid or has expired"))
   end)%ex.

(** The new member, as the others see them. *)
Definition member_joined (hub : HubId) (user_id : UserId) (online : bool) (user : option User)
  : ServerEvent :=
  hub_delta hub [] [MemberUpsert (to_proto_hub_member user_id (Some USER) online)]
    [UserUpsert (match user with
                 | Some u => to_proto_user u
                 | None => mkProtoUser (user_value user_id) None
                 end)] [].

(** Whether the user is a member already, and a new one added. *)
Definition ensure_member (err : CommandErrorCode -> string -> Out) (hub : HubId) (user_id : UserId)
  : C (bool * expected unit Out) :=
  (existing_role <-- hub_service (HubService.resolveMembershipRole (hash_hub sv) hub user_id);
   if bool_decide (is_Some existing_role) then ex_ret (true, Ok tt)
   else
     row <-- hub_service (HubService.getHub (hash_hub sv) hub);
     match row with
     | None => ex_ret (false, Unexpected (err NOT_FOUND "Hub not found"%string))
     | Some _ =>
       ex_catch
         (hub_service (HubService.addMember (hash_hub sv) hub user_id USER);;;
          ex_ret (false, Ok tt))
         (ex_ret (false, Unexpected (err INTERNAL_ERROR "Failed to join hub"%string)))
     end)%ex.

Definition JoinHubByInvite_execute (conn : GlobalConnId) (cmd : JoinHub) : C Out :=
  let err := fail conn Envelope.HUB_JOIN in
  (user <-- ex_gets (session_of conn);
   require user_id := user orelse err UNAUTHORIZED "Authenticate first"%string;
   let token := InviteService.invite_token (jh_join_code cmd) in
   resolved <-- resolve_code conn Envelope.HUB_JOIN user_id token;
   match resolved with
   | Unexpected out => ex_ret out
   | Ok hub =>
     joined <-- ensure_member err hub user_id;
     match joined.2 with
     | Unexpected out => ex_ret out
     | Ok _ =>
       self_conns <-- ex_gets (self_conns_or conn user_id);
       ex_for self_conns (fun c => subscribe c (Topic.HubTopic hub));;;
       sync <-- build_state_sync_for_requested_hubs sv user_id {[hub]};
       log_action "hub" "hub.invite.used" conn user_id None (Some hub) None (code_metadata token);;;
       let out := [make_outgoing_message self_conns (make_state_sync sync)] in
       if (joined.1 : bool) then ex_ret out
       else
         recipients <-- ex_gets (fun a => filter (fun c => c ∉ self_conns)
                                            (subscribers (Topic.HubTopic hub) a));
         match recipients with
         | [] => ex_ret out
         | _ =>
           online <-- ex_gets (PresenceService.isUserOnline user_id);
           profile <-- user_service (UserService.getUser (hash_user sv) user_id);
           ex_ret (out ++ [make_outgoing_message recipients
                             (member_joined hub user_id online profile)])
         end
     end
   end)%ex.

(** ** [ValidateHubInviteCommand] *)

Definition ValidateHubInvite_execute (conn : GlobalConnId) (cmd : ValidateHubInvite) : C Out :=
  let err := fail conn Envelope.HUB_INVITE_VALIDATE in
  (user <-- ex_gets (session_of conn);
   require user_id := user orelse err UNAUTHORIZED "Authenticate first"%string;
   let token := InviteService.invite_token (vhi_join_code cmd) in
   resolved <-- resolve_code conn Envelope.HUB_INVITE_VALIDATE user_id token;
   match resolved with
   | Unexpected out => ex_ret out
   | Ok h =>
     row <-- hub_service (HubService.getHub (hash_hub sv) h);
     require hub := row orelse err NOT_FOUND "Hub not found"%string;
     self_conns <-- ex_gets (self_conns_or conn user_id);
     ex_ret [make_outgoing_message self_conns (SvHubPreview (to_proto_hub hub))]
   end)%ex.

(** ** [LeaveHubCommand] *)

Definition LeaveHub_execute (conn : GlobalConnId) (cmd : LeaveHub) : C Out :=
  let err := fail conn Envelope.HUB_LEAVE in
  (user <-- ex_gets (session_of conn);
   require user_id := user orelse err UNAUTHORIZED "Authenticate first"%string;
   let hub := mkHubId (lh_hub_id cmd) in
   r <-- hub_service (HubService.getMembershipRole (hash_hub sv) hub user_id);
   require role := r orelse err FORBIDDEN "Join the hub before leaving it"%string;
   unless negb (bool_decide (role = OWNER))
     reply err FORBIDDEN "Owners must transfer ownership before leaving"%string;
   left <-- ex_catch
     (hub_service (HubService.removeMember (hash_hub sv) hub user_id);;;
      log_action "hub" "hub.member.left" conn user_id None (Some hub) None (JObject ∅);;;
      ex_ret true)
     (ex_ret false);
   unless (left : bool) reply err INTERNAL_ERROR "Unable to leave hub at this time"%string;
   self_conns <-- ex_gets (self_conns_or conn user_id);
   channel_ids <-- hub_service (HubService.getHubChannelIds (hash_hub sv) hub);
   unsubscribe_all self_conns hub channel_ids;;;
   recipients <-- ex_gets (subscribers (Topic.HubTopic hub));
   ex_ret (to_all recipients (hub_delta hub [] [MemberRemove (user_value user_id)] [] []) ++
           [make_outgoing_message self_conns (hub_delta hub [HubRemove] [] [] [])]))%ex.

(** ** [KickHubMemberCommand] *)

(** Out of the hub's voice channel first; [false] when that fails. *)
Definition kick_from_voice (hub : HubId) (target : UserId) : C bool :=
  (target_channel <-- ex_gets (fun a => VoiceSessions.user_channel (voice_sessions a) target);
   match target_channel with
   | None => ex_ret true
   | Some tc =>
     channel <-- hub_service (HubService.getChannel tc);
     if bool_decide (ch_hub_id <$> channel = Some hub)
     then on_voice (VoiceService.verified_kick_user (voice_cfg sv) tc target)
     else ex_ret true
   end)%ex.

Definition KickHubMember_execute (conn : GlobalConnId) (cmd : KickHubMember) : C Out :=
  let err := fail conn Envelope.HUB_MEMBER_KICK in
  (actor <-- ex_gets (session_of conn);
   require actor_id := actor orelse err UNAUTHORIZED "Authenticate first"%string;
   let hub := mkHubId (kh_hub_id cmd) in
   let target := mkUserId (kh_user_id cmd) in
   unless negb (bool_decide (kh_hub_id cmd = ""%string) || bool_decide (kh_user_id cmd = ""%string))
     reply err INVALID_ARGUMENT "hub_id and user_id are required"%string;
   ar <-- hub_service (HubService.getMembershipRole (hash_hub sv) hub actor_id);
   require actor_role := ar orelse err FORBIDDEN "Join the hub before moderating members"%string;
   tr <-- hub_service (HubService.getMembershipRole (hash_hub sv) hub target);
   require target_role := tr orelse err NOT_FOUND "Target user is not a member"%string;
   unless RolePolicy.canKickHubMember actor_role target_role actor_id target
     reply err FORBIDDEN "You are not allowed to kick this member"%string;
   out_of_voice <-- kick_from_voice hub target;
   unless (out_of_voice : bool)
     reply err INTERNAL_ERROR "Failed to remove user from voice channel"%string;
   removed <-- ex_catch
     (hub_service (HubService.removeMember (hash_hub sv) hub target);;;
      log_action "hub" "hub.member.kicked" conn actor_id (Some target) (Some hub) None (JObject ∅);;;
      ex_ret true)
     (ex_ret false);
   unless (removed : bool) reply err INTERNAL_ERROR "Failed to kick member"%string;
   on_world (InviteService.revokeInvitesForHub hub);;;
   log_action "hub" "hub.invite.revoked" conn actor_id None (Some hub) None (JObject ∅);;;
   target_conns <-- ex_gets (fun a => Session.getSessionConnections (sessions a) target);
   channel_ids <-- hub_service (HubService.getHubChannelIds (hash_hub sv) hub);
   unsubscribe_all target_conns hub channel_ids;;;
   recipients <-- ex_gets (subscribers (Topic.HubTopic hub));
   ex_ret (to_all recipients
             (hub_delta hub [HubJoinCodeSet ""] [MemberRemove (user_value target)] [] []) ++
           to_all target_conns (hub_delta hub [HubRemove] [] [] [])))%ex.

(** ** [UpdateHubCommand] *)

(** A text field: absent, accepted, or the answer to a bad one. *)
Definition optional_text (err : CommandErrorCode -> string -> Out) (raw : option string)
  (max : nat) (required too_long : string) : expected (option string) Out :=
  match raw with
  | None => Ok None
  | Some s =>
    let value := sanitize s in
    if bool_decide (value = ""%string) then Unexpected (err INVALID_ARGUMENT required)
    else if (max <? utf8_length value)%nat then Unexpected (err INVALID_ARGUMENT too_long)
    else Ok (Some value)
  end.

(** Rename, then change the avatar, stopping at the first refusal. *)
Definition apply_hub_update (err : CommandErrorCode -> string -> Out) (hub : HubId)
  (name seed : option string) : C (option Out) :=
  (renamed <-- match name with
               | Some n => hub_service (HubService.renameHub (hash_hub sv) hub n)
               | None => ex_ret true
               end;
   if negb renamed then ex_ret (Some (err INTERNAL_ERROR "Unable to rename hub at this time"%string))
   else
     seeded <-- match seed with
                | Some s => hub_service (HubService.updateHubAvatarSeed (hash_hub sv) hub s)
                | None => ex_ret true
                end;
     if negb seeded
     then ex_ret (Some (err INTERNAL_ERROR "Unable to update hub avatar at this time"%string))
     else ex_ret None)%ex.

Definition UpdateHub_execute (conn : GlobalConnId) (cmd : UpdateHub) : C Out :=
  let err := fail conn Envelope.HUB_UPDATE in
  (user <-- ex_gets (session_of conn);
   require user_id := user orelse err UNAUTHORIZED "Authenticate first"%string;
   match optional_text err (uh_name cmd) kMaxHubNameLength "Hub name is required"
           "Hub name must be at most 80 characters" with
   | Unexpected out => ex_ret out
   | Ok name =>
     match optional_text err (uh_avatar_seed cmd) kMaxHubAvatarSeedLength "Avatar seed is required"
             "Avatar seed must be at most 128 characters" with
     | Unexpected out => ex_ret out
     | Ok seed =>
       unless negb (bool_decide (name = None) && bool_decide (seed = None))
         reply err INVALID_ARGUMENT "No changes requested"%string;
       let hub := mkHubId (uh_hub_id cmd) in
       r <-- hub_service (HubService.getMembershipRole (hash_hub sv) hub user_id);
       require role := r orelse err FORBIDDEN "Join the hub before updating it"%string;
       unless bool_decide (role = OWNER) || bool_decide (role = ADMIN)
         reply err FORBIDDEN "Only admins or owners can update hub settings"%string;
       refused <-- catch_what
         (refused <-- apply_hub_update err hub name seed;
          match refused with
          | Some out => ex_ret (Some out)
          | None =>
            log_action "hub" "hub.updated" conn user_id None (Some hub) None
              (JObject (<["name" := JString (default "" name)]>
                        {["avatar_seed" := JString (default "" seed)]})%string);;;
            ex_ret None
          end)
         (fun what => ex_ret (Some (hub_write_failure conn Envelope.HUB_UPDATE
                                      "Unable to update hub settings" what)));
       match refused with
       | Some out => ex_ret out
       | None =>
         updated <-- hub_service (HubService.getHub (hash_hub sv) hub);
         require updated_hub := updated orelse [];
         conns <-- ex_gets (subscribers (Topic.HubTopic hub));
         ex_ret (to_all conns
                   (hub_delta hub [HubUpsert (mkProtoHub (uh_hub_id cmd) (hub_name updated_hub)
                                                (hub_avatar_seed updated_hub))] [] [] []))
       end
     end
   end)%ex.

(** ** [UpdateHubMemberRoleCommand] *)

Definition parse_target_role (role : HubRole) : option Role :=
  match role with
  | HubRole_ADMIN => Some ADMIN
  | HubRole_MEMBER => Some USER
  | _ => None
  end.

(** The enumerator's number. *)
Definition hub_role_number (role : HubRole) : Z :=
  match role with
  | HubRole_UNSPECIFIED => 0 | HubRole_MEMBER => 1 | HubRole_OWNER => 2 | HubRole_ADMIN => 3
  | HubRole_other n => n
  end%Z.

Definition UpdateHubMemberRole_execute (conn : GlobalConnId) (cmd : UpdateHubMemberRole) : C Out :=
  let err := fail conn Envelope.HUB_MEMBER_ROLE_UPDATE in
  (actor <-- ex_gets (session_of conn);
   require actor_id := actor orelse err UNAUTHORIZED "Authenticate first"%string;
   let hub := mkHubId (ur_hub_id cmd) in
   let target := mkUserId (ur_user_id cmd) in
   unless negb (bool_decide (ur_hub_id cmd = ""%string) || bool_decide (ur_user_id cmd = ""%string))
     reply err INVALID_ARGUMENT "hub_id and user_id are required"%string;
   require desired_role := parse_target_role (ur_role cmd) orelse
     err INVALID_ARGUMENT "Role must be MEMBER or ADMIN"%string;
   ar <-- hub_service (HubService.getMembershipRole (hash_hub sv) hub actor_id);
   require actor_role := ar orelse err FORBIDDEN "Join the hub before updating member roles"%string;
   tr <-- hub_service (HubService.getMembershipRole (hash_hub sv) hub target);
   require target_role := tr orelse err NOT_FOUND "Target user is not a member"%string;
   unless RolePolicy.canChangeMemberRole actor_role target_role desired_role actor_id target
     reply err FORBIDDEN "You are not allowed to update this member role"%string;
   updated <-- ex_catch
     (hub_service (HubService.addMember (hash_hub sv) hub target desired_role);;;
      log_action "hub" "hub.member.role_changed" conn actor_id (Some target) (Some hub) None
        (JObject {["new_role"%string := JInteger (hub_role_number (ur_role cmd))]});;;
      ex_ret true)
     (ex_ret false);
   unless (updated : bool)
     reply err INTERNAL_ERROR "Unable to update member role at this time"%string;
   subs <-- ex_gets (subscribers (Topic.HubTopic hub));
   online <-- ex_gets (PresenceService.isUserOnline target);
   let delta := hub_delta hub []
     [MemberUpsert (to_proto_hub_member target (Some desired_role) online)] [] [] in
   ex_ret [make_outgoing_message (match subs with [] => [conn] | _ => subs end) delta])%ex.

End Commands.
