(* ===== verification/ChannelCommands.v ===== *)
(** * Commands on channels and profiles

    [app/commands/channel/*.cpp] and [app/commands/user/UpdateUserCommand.cpp]. *)

From S2P Require Import Prelude.
From S2P Require Import CStrings.
From S2P Require Import Ids.
From S2P Require Import Protocol.
From S2P Require Import OutboundMsg.
From S2P Require Import SessionManager.
From S2P Require Import SubscriptionManager.
From S2P Require Import HubService.
From S2P Require Import External.
From S2P Require Import ServerEvents.
From S2P Require Import CommandUtils.
From S2P Require Import UserService.
From S2P Require Import Auth.
From S2P Require Import AppWorld.
From S2P Require Import HubCommands.

Import Utils.

Section Commands.
Context {X D : Type} `{External X} `{JsonLib} `{JwtLib} `{HubRepo D} `{UserRepo D} `{DbErrors D}.
Variable sv : Services.

Abbreviation C := (M X D).

Definition kMaxChannelNameLength : nat := 80.
Definition kMaxChannelsPerHub : nat := 3.

(** A delta about one channel. *)
Definition channel_delta (hub : HubId) (channel : ChannelId) (channel_ops : list ChannelOp)
  (message_ops : list MessageOp) (voice_ops : list VoiceOp) : ServerEvent :=
  hub_delta hub [] [] [] [mkChannelDelta (channel_value channel) channel_ops message_ops voice_ops].

Definition channel_write_failure (conn : GlobalConnId) (ty : Envelope.Type_)
  (otherwise what : string) : Out :=
  match map_channel_write_error what with
  | Some mapped => fail conn ty INVALID_ARGUMENT mapped
  | None => fail conn ty INTERNAL_ERROR otherwise
  end.

(** A channel other than [self] already has the name. *)
Definition name_taken (existing : gmap ChannelId Channel) (self : option ChannelId) (name : string)
  : bool :=
  bool_decide (Exists (fun kc : ChannelId * Channel =>
    Some (ch_id kc.2) <> self /\
    normalize_name_lowercase (HubService.ch_name kc.2) = normalize_name_lowercase name)
    (map_to_list existing)).

(** ** [CreateChannelCommand] *)

Definition CreateChannel_execute (conn : GlobalConnId) (cmd : CreateChannel) : C Out :=
  let err := fail conn Envelope.CHANNEL_CREATE in
  (user <-- ex_gets (session_of conn);
   require user_id := user orelse err UNAUTHORIZED "Authenticate first"%string;
   let hub := mkHubId (cc_hub_id cmd) in
   unless negb (bool_decide (cc_hub_id cmd = ""%string))
     reply err INVALID_ARGUMENT "hub_id is required"%string;
   unless (match cc_type cmd with ChannelType_TEXT | ChannelType_VOICE => true | _ => false end)
     reply err INVALID_ARGUMENT "Channel type must be text or voice"%string;
   let name := sanitize (cc_name cmd) in
   unless negb (bool_decide (name = ""%string))
     reply err INVALID_ARGUMENT "Channel name is required"%string;
   unless (utf8_length name <=? kMaxChannelNameLength)%nat
     reply err INVALID_ARGUMENT "Channel name must be at most 80 characters"%string;
   r <-- hub_service (HubService.getMembershipRole (hash_hub sv) hub user_id);
   require role := r orelse err FORBIDDEN "Join the hub before creating channels"%string;
   unless bool_decide (role = OWNER) || bool_decide (role = ADMIN)
     reply err FORBIDDEN "Only admins/owners can create channels"%string;
   channel_ids <-- hub_service (HubService.getHubChannelIds (hash_hub sv) hub);
   unless (length channel_ids <? kMaxChannelsPerHub)%nat
     reply err INVALID_ARGUMENT "Channel limit reached: max 3 channels per hub"%string;
   existing <-- hub_service (HubService.getChannelsByIds channel_ids);
   unless negb (name_taken existing None name)
     reply err INVALID_ARGUMENT "Channel name already exists"%string;
   let channel_type := from_proto_channel_type (cc_type cmd) in
   let type_str := match channel_type with VOICE => "voice" | CHAT => "text" end%string in
   created <-- catch_what
     (channel <-- hub_service (HubService.createChannel (hash_hub sv) hub name type_str user_id);
      log_action "channel" "channel.created" conn user_id None (Some hub) (Some channel)
        (JObject ∅);;;
      ex_ret (Ok channel))
     (fun what => ex_ret (Unexpected (channel_write_failure conn Envelope.CHANNEL_CREATE
                                        "Unable to create channel" what)));
   match created with
   | Unexpected out => ex_ret out
   | Ok channel =>
     conns <-- ex_gets (subscribers (Topic.HubTopic hub));
     ex_ret (to_all conns
               (channel_delta hub channel
                  [ChannelUpsert (to_proto_channel (mkChannel name channel hub channel_type))]
                  [] []))
   end)%ex.

(** ** [RemoveChannelCommand] *)

(** The channel a reference names, when the reference's hub is the channel's. *)
Definition channel_in_hub (scope : ChannelScope) : C (option Channel) :=
  (channel <-- hub_service (HubService.getChannel (scope_channel scope));
   ex_ret (match channel with
           | Some c => if bool_decide (ch_hub_id c = scope_hub scope) then Some c else None
           | None => None
           end))%ex.

Definition scope_required : string := "channel.hub_id and channel.channel_id are required".

Definition RemoveChannel_execute (conn : GlobalConnId) (cmd : RemoveChannel) : C Out :=
  let err := fail conn Envelope.CHANNEL_REMOVE in
  (user <-- ex_gets (session_of conn);
   require user_id := user orelse err UNAUTHORIZED "Authenticate first"%string;
   require scope := to_channel_scope (rc_channel cmd) orelse err INVALID_ARGUMENT scope_required;
   found <-- channel_in_hub scope;
   require channel := found orelse err NOT_FOUND "Channel not found"%string;
   let hub := ch_hub_id channel in
   r <-- hub_service (HubService.getMembershipRole (hash_hub sv) hub user_id);
   require role := r orelse err FORBIDDEN "Join the hub before removing channels"%string;
   unless bool_decide (role = OWNER) reply err FORBIDDEN "Only owners can delete channels"%string;
   deleted <-- hub_service (HubService.deleteChannel (hash_hub sv) (ch_id channel) hub);
   unless (deleted : bool)
     reply err INTERNAL_ERROR "Unable to delete channel at this time"%string;
   log_action "channel" "channel.deleted" conn user_id None (Some hub) (Some (ch_id channel))
     (JObject ∅);;;
   on_subscriptions (fun s =>
     Subscription.removeAllForTopic s (Topic.ChannelTopic hub (ch_id channel)));;;
   conns <-- ex_gets (subscribers (Topic.HubTopic hub));
   ex_ret (to_all conns (channel_delta hub (ch_id channel) [ChannelRemove] [] [])))%ex.

(** ** [RenameChannelCommand] *)

Definition RenameChannel_execute (conn : GlobalConnId) (cmd : UpdateChannel) : C Out :=
  let err := fail conn Envelope.CHANNEL_UPDATE in
  (user <-- ex_gets (session_of conn);
   require user_id := user orelse err UNAUTHORIZED "Authenticate first"%string;
   require scope := to_channel_scope (uc_channel cmd) orelse err INVALID_ARGUMENT scope_required;
   found <-- channel_in_hub scope;
   require channel := found orelse err NOT_FOUND "Channel not found"%string;
   let hub := ch_hub_id channel in
   require raw := uc_name cmd orelse err INVALID_ARGUMENT "No changes requested"%string;
   let requested_name := sanitize raw in
   unless negb (bool_decide (requested_name = ""%string))
     reply err INVALID_ARGUMENT "Channel name is required"%string;
   unless (utf8_length requested_name <=? kMaxChannelNameLength)%nat
     reply err INVALID_ARGUMENT "Channel name must be at most 80 characters"%string;
   r <-- hub_service (HubService.getMembershipRole (hash_hub sv) hub user_id);
   require role := r orelse err FORBIDDEN "Join the hub before renaming channels"%string;
   unless bool_decide (role = OWNER) || bool_decide (role = ADMIN)
     reply err FORBIDDEN "Only admins/owners can rename channels"%string;
   channel_ids <-- hub_service (HubService.getHubChannelIds (hash_hub sv) hub);
   existing <-- hub_service (HubService.getChannelsByIds channel_ids);
   unless negb (name_taken existing (Some (ch_id channel)) requested_name)
     reply err INVALID_ARGUMENT "Channel name already exists"%string;
   refused <-- catch_what
     (renamed <-- hub_service (HubService.renameChannel (ch_id channel) requested_name);
      if negb renamed
      then ex_ret (Some (err INTERNAL_ERROR "Unable to rename channel at this time"%string))
      else
        log_action "channel" "channel.updated" conn user_id None (Some hub) (Some (ch_id channel))
          (JObject ∅);;;
        ex_ret None)
     (fun what => ex_ret (Some (channel_write_failure conn Envelope.CHANNEL_UPDATE
                                  "Unable to rename channel at this time" what)));
   match refused with
   | Some out => ex_ret out
   | None =>
     conns <-- ex_gets (subscribers (Topic.HubTopic hub));
     ex_ret (to_all conns
               (channel_delta hub (ch_id channel)
                  [ChannelUpsert (to_proto_channel
                     (mkChannel requested_name (ch_id channel) hub (ch_type channel)))] [] []))
   end)%ex.

(** ** [UpdateUserCommand] *)

Definition kMaxUsernameSize : nat := 48.
Definition kMaxAvatarSeedSize : nat := 64.
Definition kMaxDisplayNameSize : nat := 48.

(** A profile field: its size is counted in bytes. *)
Definition profile_text (err : CommandErrorCode -> string -> Out) (raw : option string) (max : nat)
  (bad : string) : expected (option string) Out :=
  match raw with
  | None => Ok None
  | Some s =>
    let value := sanitize s in
    if bool_decide (value = ""%string) || (max <? String.length value)%nat
    then Unexpected (err INVALID_ARGUMENT bad)
    else Ok (Some value)
  end.

Definition duplicate_username_text : string :=
  "Bu kullanıcı adı kullanımda. Lütfen başka bir kullanıcı adı seçin.".

(** The recipients are a set: subscribers of the hub and the user's own
    connections, in no particular order. *)
Definition profile_recipients (self : gset GlobalConnId) (hub : HubId) (a : App X D)
  : list GlobalConnId :=
  elements (self ∪ list_to_set (subscribers (Topic.HubTopic hub) a)).

Definition UpdateUser_execute (conn : GlobalConnId) (cmd : UpdateUser) : C Out :=
  let err := fail conn Envelope.USER_UPDATE in
  (user <-- ex_gets (session_of conn);
   require user_id := user orelse
     [drop_connection conn FORBIDDEN "Must be authenticated to update user"];
   match profile_text err (uu_username cmd) kMaxUsernameSize
           "Username length must be between 1 and 48" with
   | Unexpected out => ex_ret out
   | Ok username =>
     match profile_text err (uu_display_name cmd) kMaxDisplayNameSize
             "Display name length must be between 1 and 48" with
     | Unexpected out => ex_ret out
     | Ok display_name =>
       match profile_text err (uu_avatar_seed cmd) kMaxAvatarSeedSize
               "Avatar seed must be between 1 and 64" with
       | Unexpected out => ex_ret out
       | Ok seed =>
         unless negb (bool_decide (username = None) && bool_decide (display_name = None) &&
                      bool_decide (seed = None))
           reply err INVALID_ARGUMENT "No changes requested"%string;
         update_res <-- user_service (UserService.updateProfile (hash_user sv) user_id username
                          display_name seed);
         match update_res with
         | Unexpected UserService.DuplicateUsername =>
           ex_ret (err INVALID_ARGUMENT duplicate_username_text)
         | Unexpected UserService.RepoFailure =>
           ex_ret (err INTERNAL_ERROR "Unable to update user settings"%string)
         | Ok final_user =>
           hubs <-- hub_service (HubService.getUserHubs user_id);
           self <-- ex_gets (fun a =>
                      list_to_set (C := gset GlobalConnId)
                        (Session.getSessionConnections (sessions a) user_id));
           ex_gets (fun a =>
             concat (map (fun hub =>
               to_all (profile_recipients self (hub_id hub) a)
                 (hub_delta (hub_id hub) [] [] [UserUpsert (to_proto_user final_user)] [])) hubs))
         end
       end
     end
   end)%ex.

End Commands.
