(* ===== verification/ActivityCommands.v ===== *)
(** * Commands on messages and voice

    [app/commands/message/*.cpp] and [app/commands/activity/*.cpp]. *)

From S2P Require Import Prelude.
From S2P Require Import CStrings.
From S2P Require Import Ids.
From S2P Require Import Protocol.
From S2P Require Import PriorityQueues.
From S2P Require Import OutboundMsg.
From S2P Require Import SessionManager.
From S2P Require Import SubscriptionManager.
From S2P Require Import VoiceSessions.
From S2P Require Import HubService.
From S2P Require Import External.
From S2P Require Import VoiceWorld.
From S2P Require Import VoiceStores.
From S2P Require Import VoiceService.
From S2P Require Import ServerEvents.
From S2P Require Import CommandUtils.
From S2P Require Import Messages.
From S2P Require Import MessageService.
From S2P Require Import UserService.
From S2P Require Import Auth.
From S2P Require Import AppWorld.
From S2P Require Import SessionCommands.
From S2P Require Import HubCommands.
From S2P Require Import ChannelCommands.

Import Utils.

Section Commands.
Context {X D : Type} `{External X} `{Uniform} `{JsonLib} `{Crypto} `{JwtLib} `{HubRepo D}
  `{UserRepo D} `{MessageRepo D} `{DbErrors D}.
Variable sv : Services.

Abbreviation C := (M X D).

(** ** [SelectActiveChannelCommand] *)

Definition message_batch (hub : HubId) (channel : ChannelId) (direction : Direction)
  (messages : list Domain.Message) (exhausted : bool) : ServerEvent :=
  channel_delta hub channel []
    [MessageBatch direction (to_proto_message_state <$> messages) exhausted] [].

(** A cursor of the client: the sequence number alone. *)
Definition cursor_at (seq : Z) : Domain.MessageCursor :=
  Domain.mkCursor seq (mkMessageId "") 0.

Definition SelectActiveChannel_execute (conn : GlobalConnId) (cmd : SelectActiveChannel) : C Out :=
  let err := fail conn Envelope.ACTIVE_CHANNEL in
  (require scope := to_channel_scope (sac_channel cmd) orelse err INVALID_ARGUMENT scope_required;
   let hub := scope_hub scope in
   let channel := scope_channel scope in
   user <-- ex_gets (session_of conn);
   require user_id := user orelse
     [drop_connection conn UNAUTHORIZED
        "Unauthorized: No session associated with this connection"];
   found <-- channel_in_hub scope;
   require info := found orelse err NOT_FOUND "Channel not found"%string;
   unless bool_decide (ch_type info = CHAT)
     reply err INVALID_ARGUMENT "Channel is not a text channel"%string;
   member <-- hub_service (HubService.isHubMember (hash_hub sv) hub user_id);
   unless (member : bool) reply err FORBIDDEN "Join the hub before selecting a channel"%string;
   subscribe conn (Topic.ChannelTopic hub channel);;;
   on_session_manager (fun sm => Session.joinTextChannel sm user_id hub channel);;;
   let latest_limit := clamp_limit (sac_latest_limit cmd) in
   match sac_known_latest_cursor cmd with
   | Some cursor =>
     unless negb (cur_message_seq cursor =? 0)%Z
       reply err INVALID_ARGUMENT "known_latest_cursor.message_seq is required"%string;
     page <-- message_service (MessageService.fetchMessagesAfter channel
                (cursor_at (cur_message_seq cursor)) latest_limit);
     match page with
     | Unexpected _ => ex_ret (err INTERNAL_ERROR "Failed to fetch latest messages"%string)
     | Ok [] => ex_ret []
     | Ok messages =>
       ex_ret [make_outgoing_message [conn] (message_batch hub channel LATEST messages false)]
     end
   | None =>
     page <-- message_service (MessageService.fetchMessages channel latest_limit);
     match page with
     | Unexpected _ => ex_ret (err INTERNAL_ERROR "Failed to fetch latest messages"%string)
     | Ok messages =>
       ex_ret [make_outgoing_message [conn] (message_batch hub channel LATEST (rev messages) false)]
     end
   end)%ex.

(** ** [FetchMessagesBeforeCommand] *)

Definition FetchMessagesBefore_execute (conn : GlobalConnId) (cmd : FetchMessagesBefore) : C Out :=
  let err := fail conn Envelope.MESSAGE_FETCH_BEFORE in
  (require scope := to_channel_scope (fm_channel cmd) orelse err INVALID_ARGUMENT scope_required;
   let hub := scope_hub scope in
   let channel := scope_channel scope in
   user <-- ex_gets (session_of conn);
   require user_id := user orelse
     [drop_connection conn FORBIDDEN "Must be authenticated to fetch messages"];
   found <-- channel_in_hub scope;
   require info := found orelse err NOT_FOUND "Channel not found"%string;
   member <-- hub_service (HubService.isHubMember (hash_hub sv) hub user_id);
   unless (member : bool) reply err FORBIDDEN "Join the hub before fetching messages"%string;
   let seq := from_option cur_message_seq 0%Z (fm_before_cursor cmd) in
   unless negb (seq =? 0)%Z
     reply err INVALID_ARGUMENT "before_cursor.message_seq is required"%string;
   let limit := clamp_limit (fm_limit cmd) in
   page <-- message_service (MessageService.fetchMessagesBefore channel (cursor_at seq) limit);
   match page with
   | Unexpected _ => ex_ret (err INTERNAL_ERROR "Failed to fetch messages"%string)
   | Ok messages =>
     ex_ret [make_outgoing_message [conn]
               (message_batch hub channel BEFORE (rev messages)
                  (Z.of_nat (length messages) <? wrap64 limit)%Z)]
   end)%ex.

(** ** [SendMessageCommand] *)

Definition kMaxMessageLength : nat := 4096.
Definition kMaxAttachmentCount : nat := 6.
Definition kMaxAttachmentDisplayNameLength : nat := 255.
Definition kMaxAttachmentMimeTypeLength : nat := 127.
Definition kMaxAttachmentStorageKeyLength : nat := 1024.
Definition kMaxAttachmentStorageBucketLength : nat := 80.
Definition kMaxAttachmentSizeBytes : Z := 15728640.
Definition kMaxLinkPreviewFieldLength : nat := 2048.

Definition is_http_or_https (value : string) : bool :=
  String.prefix "https://" value || String.prefix "http://" value.

Definition is_empty_text (s : string) : bool := bool_decide (s = ""%string).

Definition attachment_ok (prefix : string) (input : MessageAttachment) : bool :=
  negb (is_empty_text (at_id input) || is_empty_text (at_storage_key input) ||
        is_empty_text (at_storage_bucket input) || is_empty_text (at_display_name input)) &&
  (is_empty_text prefix || String.prefix prefix (at_storage_key input)) &&
  negb ((kMaxAttachmentDisplayNameLength <? String.length (at_display_name input))%nat ||
        (kMaxAttachmentMimeTypeLength <? String.length (at_mime_type input))%nat ||
        (kMaxAttachmentStorageKeyLength <? String.length (at_storage_key input))%nat ||
        (kMaxAttachmentStorageBucketLength <? String.length (at_storage_bucket input))%nat) &&
  negb ((at_size_bytes input =? 0)%Z || (kMaxAttachmentSizeBytes <? at_size_bytes input)%Z).

Definition to_attachment (input : MessageAttachment) : Domain.MessageAttachment :=
  Domain.mkAttachment (at_id input)
    (match at_kind input with
     | MessageAttachmentKind_IMAGE => Domain.IMAGE
     | _ => Domain.FILE
     end)
    (at_storage_bucket input) (at_storage_key input) (at_mime_type input) (at_display_name input)
    (at_size_bytes input).

Definition parse_attachments (inputs : list MessageAttachment) (prefix : string)
  : option (list Domain.MessageAttachment) :=
  if forallb (attachment_ok prefix) inputs then Some (to_attachment <$> inputs) else None.

Definition parse_link_preview (preview : option MessageLinkPreview)
  : option Domain.MessageLinkPreview :=
  raw ← preview;
  if is_empty_text (lp_url raw) then None
  else if negb (is_http_or_https (lp_url raw)) then None
  else if negb (is_empty_text (lp_image_url raw)) && negb (is_http_or_https (lp_image_url raw))
  then None
  else if existsb (fun s => (kMaxLinkPreviewFieldLength <? String.length s)%nat)
            [lp_url raw; lp_title raw; lp_description raw; lp_site_name raw; lp_image_url raw]
  then None
  else Some (Domain.mkPreview (lp_url raw) (lp_title raw) (lp_description raw) (lp_site_name raw)
               (lp_image_url raw)).

Definition attachment_prefix (hub : HubId) (channel : ChannelId) (user : UserId) : string :=
  hub_value hub +:+ "/" +:+ channel_value channel +:+ "/" +:+ user_value user +:+ "/".

Definition SendMessage_execute (conn : GlobalConnId) (cmd : SendMessage) : C Out :=
  let err := fail conn Envelope.MESSAGE_SEND in
  (require scope := to_channel_scope (sm_channel cmd) orelse err INVALID_ARGUMENT scope_required;
   let hub := scope_hub scope in
   let channel := scope_channel scope in
   user <-- ex_gets (session_of conn);
   require user_id := user orelse
     [drop_connection conn FORBIDDEN "Authenticate before sending messages"];
   unless (String.length (sm_content cmd) <=? kMaxMessageLength)%nat
     reply err INVALID_ARGUMENT "Message content must be between 0 and 4096 characters"%string;
   unless (length (sm_attachments cmd) <=? kMaxAttachmentCount)%nat
     reply err INVALID_ARGUMENT "Too many attachments"%string;
   require attachments := parse_attachments (sm_attachments cmd) (attachment_prefix hub channel user_id)
     orelse err INVALID_ARGUMENT "Invalid attachment payload"%string;
   let link_preview := parse_link_preview (sm_link_preview cmd) in
   unless negb (bool_decide (is_Some (sm_link_preview cmd)) && bool_decide (link_preview = None))
     reply err INVALID_ARGUMENT "Invalid link preview payload"%string;
   unless negb (is_empty_text (sm_content cmd) && (length attachments =? 0)%nat)
     reply err INVALID_ARGUMENT "Message content or attachments are required"%string;
   found <-- channel_in_hub scope;
   require info := found orelse err NOT_FOUND "Channel not found"%string;
   member <-- hub_service (HubService.isHubMember (hash_hub sv) hub user_id);
   unless (member : bool)
     reply err FORBIDDEN "Must be a member of the channel's hub to send messages"%string;
   saved <-- message_service (MessageService.sendMessage channel user_id (sm_content cmd)
               attachments link_preview);
   match saved with
   | Unexpected MessageService.QueueFull =>
     ex_ret (err RATE_LIMITED "Message queue is full, try again later"%string)
   | Unexpected MessageService.RepoFailure =>
     ex_ret (err INTERNAL_ERROR "Failed to send message"%string)
   | Ok msg =>
     conns <-- ex_gets (subscribers (Topic.ChannelTopic hub channel));
     ex_ret (to_all conns (channel_delta hub channel []
                             [MessageAppend (to_proto_message_state msg)] []))
   end)%ex.

(** ** [TypingCommand] *)

Definition make_typing_signal (hub : HubId) (channel : ChannelId) (user_id : UserId)
  (is_typing : bool) : ServerEvent :=
  make_rt_signal (TypingSignal (to_proto_channel_ref hub channel) (user_value user_id) is_typing).

Definition with_low_priority (m : OutgoingMessage ServerEvent) : OutgoingMessage ServerEvent :=
  mkOutgoing Low (target m) (action m).

Definition Typing_execute (conn : GlobalConnId) (cmd : Typing) : C Out :=
  let err := fail conn Envelope.TYPING in
  (require scope := to_channel_scope (ty_channel cmd) orelse err INVALID_ARGUMENT scope_required;
   let hub := scope_hub scope in
   let channel := scope_channel scope in
   user <-- ex_gets (session_of conn);
   require user_id := user orelse [drop_connection conn UNAUTHORIZED "Authenticate first"];
   found <-- channel_in_hub scope;
   require info := found orelse err NOT_FOUND "Channel not found"%string;
   unless bool_decide (ch_type info = CHAT)
     reply err INVALID_ARGUMENT "Channel is not a text channel"%string;
   member <-- hub_service (HubService.isHubMember (hash_hub sv) hub user_id);
   unless (member : bool) reply err FORBIDDEN "Join the hub before typing"%string;
   subscribed <-- ex_gets (fun a => Subscription.isSubscribed (subscriptions a) conn
                                      (Topic.ChannelTopic hub channel));
   unless (subscribed : bool) reply [];
   conns <-- ex_gets (fun a => filter (fun c => c <> conn)
                                 (subscribers (Topic.ChannelTopic hub channel) a));
   ex_ret (with_low_priority <$>
             to_all conns (make_typing_signal hub channel user_id (ty_is_typing cmd))))%ex.

(** ** [KickVoiceParticipantCommand] *)

Definition KickVoiceParticipant_execute (conn : GlobalConnId) (cmd : KickVoiceParticipant) : C Out :=
  let err := fail conn Envelope.VOICE_KICK_PARTICIPANT in
  (require scope := to_channel_scope (kv_channel cmd) orelse err INVALID_ARGUMENT scope_required;
   let hub := scope_hub scope in
   let channel := scope_channel scope in
   let target := mkUserId (kv_user_id cmd) in
   unless negb (is_empty_text (kv_user_id cmd)) reply err INVALID_ARGUMENT "user_id is required"%string;
   actor <-- ex_gets (session_of conn);
   require actor_id := actor orelse [drop_connection conn UNAUTHORIZED "Authenticate first"];
   found <-- channel_in_hub scope;
   require info := found orelse err NOT_FOUND "Channel not found"%string;
   unless bool_decide (ch_type info = VOICE)
     reply err INVALID_ARGUMENT "Channel is not a voice channel"%string;
   ar <-- hub_service (HubService.getMembershipRole (hash_hub sv) hub actor_id);
   require actor_role := ar orelse err FORBIDDEN "Join the hub before moderating voice"%string;
   tr <-- hub_service (HubService.getMembershipRole (hash_hub sv) hub target);
   require target_role := tr orelse err NOT_FOUND "Target user is not a member"%string;
   unless RolePolicy.canKickVoiceParticipant actor_role target_role actor_id target
     reply err FORBIDDEN "You are not allowed to kick this participant"%string;
   target_channel <-- ex_gets (fun a => VoiceSessions.user_channel (voice_sessions a) target);
   unless bool_decide (target_channel = Some channel)
     reply err INVALID_ARGUMENT "Target user is not connected to this voice channel"%string;
   kicked <-- on_voice (VoiceService.verified_kick_user (voice_cfg sv) channel target);
   unless (kicked : bool)
     reply err INTERNAL_ERROR "Failed to remove user from voice channel"%string;
   ex_ret [])%ex.

(** ** [VoiceChannelActivityCommand] *)

(** The user's flags in the channel. *)
Definition current_flags (channel : ChannelId) (user_id : UserId) (a : App X D)
  : option VoiceSessions.ParticipantState :=
  snd <$> List.find (fun p => bool_decide (p.1 = user_id))
            (VoiceSessions.participants_in_channel (voice_sessions a) channel).

Definition connected_status (is_owner : bool) (hub : HubId) (channel : ChannelId)
  (resume_id : option string) : ServerEvent :=
  SvVoiceSelfStatus true is_owner (Some (to_proto_channel_ref hub channel))
    (if is_owner then default ""%string resume_id else ""%string).

(** The status each session of the user is told. *)
Definition tell_sessions (user_id : UserId) (owner : option Z) (hub : HubId) (channel : ChannelId)
  : C Out :=
  (ids <-- ex_gets (fun a => Session.getUserSessionIds (sessions a) user_id);
   outs <-- ex_map (fun session_id =>
     conns <-- ex_gets (fun a => Session.getSessionIdConnections (sessions a) session_id);
     match conns with
     | [] => ex_ret []
     | _ =>
       let is_owner := bool_decide (owner = Some session_id) in
       resume_id <-- (if (is_owner : bool) then on_voice (Resume.read user_id) else ex_ret None);
       ex_ret [make_outgoing_message conns (connected_status is_owner hub channel resume_id)]
     end) ids;
   ex_ret (concat outs))%ex.

Definition VoiceChannelActivity_execute (conn : GlobalConnId) (cmd : VoiceChannelActivity) : C Out :=
  let err := fail conn Envelope.VOICE_ACTIVITY in
  (require scope := to_channel_scope (va_channel cmd) orelse err INVALID_ARGUMENT scope_required;
   let hub := scope_hub scope in
   let channel := scope_channel scope in
   user <-- ex_gets (session_of conn);
   require user_id := user orelse [drop_connection conn UNAUTHORIZED "Authenticate first"];
   sid <-- ex_gets (session_id_of conn);
   require requester := sid orelse [drop_connection conn UNAUTHORIZED "Runtime session missing"];
   found <-- channel_in_hub scope;
   require info := found orelse err NOT_FOUND "Channel not found"%string;
   unless bool_decide (ch_type info = VOICE)
     reply err INVALID_ARGUMENT "Channel is not a voice channel"%string;
   member <-- hub_service (HubService.isHubMember (hash_hub sv) hub user_id);
   unless (member : bool) reply err FORBIDDEN "Join the hub before updating voice state"%string;
   current <-- ex_gets (fun a => VoiceSessions.user_channel (voice_sessions a) user_id);
   owner <-- ex_gets (fun a => VoiceSessions.user_session (voice_sessions a) user_id);
   require current_channel := current orelse
     err INVALID_ARGUMENT "Join a voice channel first"%string;
   unless match owner with Some o => (o =? requester)%Z | None => true end
     reply err FORBIDDEN "Voice is connected from another session"%string;
   unless bool_decide (current_channel = channel)
     reply err INVALID_ARGUMENT "Voice activity must target the active voice channel"%string;
   before <-- ex_gets (current_flags channel user_id);
   require flags := before orelse [];
   let desired_deafened := va_is_deafened cmd in
   let desired_muted := va_is_muted cmd || desired_deafened in
   unless negb (Bool.eqb (VoiceSessions.muted flags) desired_muted &&
                Bool.eqb (VoiceSessions.deafened flags) desired_deafened) reply [];
   changed1 <-- (if Bool.eqb (VoiceSessions.deafened flags) desired_deafened then ex_ret false
                 else on_voice_sessions (fun v => VoiceSessions.set_deafened v user_id desired_deafened));
   between <-- ex_gets (current_flags channel user_id);
   require flags1 := between orelse [];
   changed2 <-- (if Bool.eqb (VoiceSessions.muted flags1) desired_muted then ex_ret false
                 else on_voice_sessions (fun v => VoiceSessions.set_muted v user_id desired_muted));
   unless (changed1 || changed2) reply [];
   after <-- ex_gets (current_flags channel user_id);
   let final := default VoiceSessions.default_state after in
   subs <-- ex_gets (subscribers (Topic.HubTopic hub));
   statuses <-- tell_sessions user_id owner hub channel;
   ex_ret (to_all subs (channel_delta hub channel [] []
             [VoiceParticipantUpsert (mkVoiceParticipant (user_value user_id)
                (VoiceSessions.muted final) (VoiceSessions.deafened final))]) ++ statuses))%ex.

(** ** [JoinVoiceChannelCommand] *)

(** What a takeover or a switch of channel tells the sessions concerned. *)
Definition revoke_notices (taking_over switching : bool) (old_owner requester : Z) (a : App X D)
  : Out :=
  (if taking_over
   then let old_conns := Session.getSessionIdConnections (sessions a) old_owner in
        to_all old_conns SvVoiceSelfRevoked ++ to_all old_conns voice_self_disconnected
   else []) ++
  (if switching
   then to_all (Session.getSessionIdConnections (sessions a) requester) voice_self_disconnected
   else []).

(** End the voice connection the user has elsewhere; [None]: it could not be
    ended. *)
Definition leave_previous_voice (user_id : UserId) (requester : Z) (channel : ChannelId)
  (old_owner : option Z) (old_channel : option ChannelId) : C (option Out) :=
  match old_owner, old_channel with
  | Some o, Some oc =>
    let taking_over := negb (o =? requester)%Z in
    let switching := (o =? requester)%Z && negb (bool_decide (oc = channel)) in
    if taking_over || switching then
      (alone <-- ex_gets (fun a =>
         (length (VoiceSessions.participants_in_channel (voice_sessions a) oc) =? 1)%nat);
       (if taking_over && bool_decide (oc = channel) && alone
        then on_voice (VoiceService.mark_channel_takeover (voice_cfg sv) oc) else ex_ret tt);;;
       kicked <-- on_voice (VoiceService.verified_kick_user (voice_cfg sv) oc user_id);
       if (kicked : bool)
       then out <-- ex_gets (revoke_notices taking_over switching o requester); ex_ret (Some out)
       else ex_ret None)%ex
    else ex_ret (Some [])
  | _, _ => ex_ret (Some [])
  end.

Definition JoinVoiceChannel_execute (conn : GlobalConnId) (cmd : JoinVoiceChannelRequest) : C Out :=
  let err := fail conn Envelope.VOICE_JOIN in
  (require scope := to_channel_scope (jv_channel cmd) orelse err INVALID_ARGUMENT scope_required;
   let hub := scope_hub scope in
   let channel := scope_channel scope in
   user <-- ex_gets (session_of conn);
   require user_id := user orelse [drop_connection conn UNAUTHORIZED "Authenticate first"];
   sid <-- ex_gets (session_id_of conn);
   require requester := sid orelse [drop_connection conn UNAUTHORIZED "Runtime session missing"];
   found <-- channel_in_hub scope;
   require info := found orelse err NOT_FOUND "Channel not found"%string;
   unless bool_decide (ch_type info = VOICE)
     reply err INVALID_ARGUMENT "Channel is not a voice channel"%string;
   member <-- hub_service (HubService.isHubMember (hash_hub sv) hub user_id);
   unless (member : bool) reply err FORBIDDEN "Join the hub before joining voice"%string;
   old_owner <-- ex_gets (fun a => VoiceSessions.user_session (voice_sessions a) user_id);
   old_channel <-- ex_gets (fun a => VoiceSessions.user_channel (voice_sessions a) user_id);
   ended <-- leave_previous_voice user_id requester channel old_owner old_channel;
   require notices := ended orelse
     err INTERNAL_ERROR "Failed to revoke previous voice session"%string;
   let deafened := jv_prefer_deafened cmd in
   let muted := jv_prefer_muted cmd || deafened in
   nonce <-- on_world VoiceNonce.generate_nonce_hex;
   issued <-- ex_catch
     (tok <-- on_voice (VoiceService.join_voice (voice_cfg sv) channel user_id requester nonce);
      ex_ret (Some tok))
     (ex_ret None);
   require tok := issued orelse
     notices ++ err INTERNAL_ERROR "Unable to join voice channel"%string;
   let reason := VoiceService.error_reason tok in
   unless negb (is_empty_text (VoiceService.token tok) || is_empty_text (VoiceService.livekit_url tok))
     reply notices ++ err INTERNAL_ERROR
             (if is_empty_text reason then "Voice token issuance failed"%string else reason);
   let from := match old_channel with
               | Some oc => if bool_decide (oc = channel) then None else Some oc
               | None => None
               end in
   let pending := mkIntent requester nonce channel (default empty_channel from)
                    (bool_decide (is_Some from)) muted deafened false false 0 in
   staged <-- on_world (Intents.stage user_id pending (VoiceService.expires_in tok));
   unless (staged : bool)
     reply notices ++ err INTERNAL_ERROR "Failed to stage voice join intent"%string;
   ex_ret (notices ++ [make_outgoing_message [conn]
             (SvVoiceTokenIssued (VoiceService.token tok) (VoiceService.livekit_url tok)
                (VoiceService.expires_in tok) (VoiceService.e2ee_key tok)
                (VoiceService.tok_key_index tok) (VoiceService.resume_id tok))]))%ex.

End Commands.
