(* ===== verification/Workers.v ===== *)
(** * Dispatcher and worker pool

    [app/dispatcher/Dispatcher.cpp] and [app/worker/WorkerPool.cpp]: the table
    of commands, and the threads that take events from the inbound queue.  The
    pool is a step relation on what each worker holds, split where another
    worker can run: taking an event, entering it in the table of in-flight
    commands, executing it, leaving the table, and pushing the answers.  A
    command's own effect on the services is one step. *)

From S2P Require Import Prelude.
From S2P Require Import CStrings.
From S2P Require Import Ids.
From S2P Require Import Protocol.
From S2P Require Import PriorityQueues.
From S2P Require Import OutboundMsg.
From S2P Require Import SessionManager.
From S2P Require Import HubService.
From S2P Require Import External.
From S2P Require Import ServerEvents.
From S2P Require Import CommandUtils.
From S2P Require Import Messages.
From S2P Require Import UserService.
From S2P Require Import Auth.
From S2P Require Import AppWorld.
From S2P Require Import SessionCommands.
From S2P Require Import HubCommands.
From S2P Require Import ChannelCommands.
From S2P Require Import ActivityCommands.
From S2P Require Import AppDemo.

Section Workers.
Context {X D : Type} `{External X} `{Uniform} `{JsonLib} `{Crypto} `{JwtLib} `{HubRepo D}
  `{UserRepo D} `{MessageRepo D} `{DbErrors D}.
Variable sv : Services.

Abbreviation C := (M X D).

(** ** The dispatcher *)

(** [map_proto_[type]->execute]; [None]: [require_parsed] finds another
    alternative and terminates the process.  A type without a command is
    ignored. *)
Definition dispatch (ty : Envelope.Type_) (conn : GlobalConnId) (parsed : ParsedPayload)
  : option (C Out) :=
  match ty with
  | Envelope.AUTH =>
    match parsed with P_Authenticate m => Some (Authenticate_execute sv conn m) | _ => None end
  | Envelope.REQUEST_STATE_SYNC =>
    match parsed with
    | P_RequestStateSync m => Some (RequestStateSync_execute sv conn m)
    | _ => Some (ex_ret [])
    end
  | Envelope.ACTIVE_CHANNEL =>
    match parsed with
    | P_SelectActiveChannel m => Some (SelectActiveChannel_execute sv conn m)
    | _ => None
    end
  | Envelope.TYPING =>
    match parsed with P_Typing m => Some (Typing_execute sv conn m) | _ => None end
  | Envelope.VOICE_JOIN =>
    match parsed with
    | P_JoinVoiceChannelRequest m => Some (JoinVoiceChannel_execute sv conn m)
    | _ => None
    end
  | Envelope.VOICE_KICK_PARTICIPANT =>
    match parsed with
    | P_KickVoiceParticipant m => Some (KickVoiceParticipant_execute sv conn m)
    | _ => None
    end
  | Envelope.VOICE_ACTIVITY =>
    match parsed with
    | P_VoiceChannelActivity m => Some (VoiceChannelActivity_execute sv conn m)
    | _ => None
    end
  | Envelope.MESSAGE_SEND =>
    match parsed with P_SendMessage m => Some (SendMessage_execute sv conn m) | _ => None end
  | Envelope.MESSAGE_FETCH_BEFORE =>
    match parsed with
    | P_FetchMessagesBefore m => Some (FetchMessagesBefore_execute sv conn m)
    | _ => None
    end
  | Envelope.HUB_CREATE =>
    match parsed with P_CreateHub m => Some (CreateHub_execute sv conn m) | _ => None end
  | Envelope.HUB_JOIN =>
    match parsed with P_JoinHub m => Some (JoinHubByInvite_execute sv conn m) | _ => None end
  | Envelope.HUB_CREATE_JOIN_CODE =>
    match parsed with P_CreateHubJoinCode m => Some (GetHubInvite_execute sv conn m) | _ => None end
  | Envelope.HUB_INVITE_VALIDATE =>
    match parsed with
    | P_ValidateHubInvite m => Some (ValidateHubInvite_execute sv conn m)
    | _ => None
    end
  | Envelope.HUB_LEAVE =>
    match parsed with P_LeaveHub m => Some (LeaveHub_execute sv conn m) | _ => None end
  | Envelope.HUB_REMOVE =>
    match parsed with P_RemoveHub m => Some (DeleteHub_execute sv conn m) | _ => None end
  | Envelope.HUB_MEMBER_KICK =>
    match parsed with P_KickHubMember m => Some (KickHubMember_execute sv conn m) | _ => None end
  | Envelope.HUB_UPDATE =>
    match parsed with P_UpdateHub m => Some (UpdateHub_execute sv conn m) | _ => None end
  | Envelope.HUB_MEMBER_ROLE_UPDATE =>
    match parsed with
    | P_UpdateHubMemberRole m => Some (UpdateHubMemberRole_execute sv conn m)
    | _ => None
    end
  | Envelope.USER_UPDATE =>
    match parsed with P_UpdateUser m => Some (UpdateUser_execute sv conn m) | _ => None end
  | Envelope.CHANNEL_CREATE =>
    match parsed with P_CreateChannel m => Some (CreateChannel_execute sv conn m) | _ => None end
  | Envelope.CHANNEL_UPDATE =>
    match parsed with P_UpdateChannel m => Some (RenameChannel_execute sv conn m) | _ => None end
  | Envelope.CHANNEL_REMOVE =>
    match parsed with P_RemoveChannel m => Some (RemoveChannel_execute sv conn m) | _ => None end
  | _ => Some (ex_ret [])
  end.

(** [map_str_]: the events that are not messages. *)
Definition dispatch_connection (conn : GlobalConnId) (user_id : UserId) : C Out :=
  Bootstrap_execute sv conn user_id.
Definition dispatch_disconnection (conn : GlobalConnId) : C Out := Disconnection_execute conn.

Variable parsers : Parsers.

Lemma parsed_dispatch (env : Envelope.t) (p : ParsedPayload) (conn : GlobalConnId) :
  parse_inbound_payload parsers env = Ok p -> dispatch (Envelope.type env) conn p <> None.
Proof.
  unfold parse_inbound_payload, parse_payload_as. destruct (negb _); [done|].
  destruct (Envelope.type env); try done; simpl;
    match goal with |- context [match ?o with Some _ => _ | None => _ end] => destruct o end;
    try done; by intros [= <-].
Qed.

(** No inbound envelope makes a worker terminate the process: whatever
    [parse_inbound_payload] accepts is the alternative the registered command
    requires. *)
Theorem parsed_payload_fits_command (env : Envelope.t) (p : ParsedPayload) (conn : GlobalConnId) :
  parse_inbound_payload parsers env = Ok p ->
  dispatch (Envelope.type env) conn p <> None.
Proof. apply parsed_dispatch. Qed.

(** ** The pool *)

Definition command_uses_inflight_dedup (ty : Envelope.Type_) : bool :=
  match ty with
  | Envelope.MESSAGE_SEND | Envelope.MESSAGE_FETCH_BEFORE | Envelope.TYPING
  | Envelope.VOICE_ACTIVITY => false
  | _ => true
  end.

Abbreviation Executing_ := (gmap GlobalConnId (gset Envelope.Type_)).

(** The lookup creates the entry, also when the type is already there. *)
Definition try_mark_executing (m : Executing_) (conn : GlobalConnId) (ty : Envelope.Type_)
  : bool * Executing_ :=
  let set := default ∅ (m !! conn) in
  if bool_decide (ty ∈ set) then (false, <[conn := set]> m)
  else (true, <[conn := {[ty]} ∪ set]> m).

Definition unmark_executing (m : Executing_) (conn : GlobalConnId) (ty : Envelope.Type_)
  : Executing_ :=
  match m !! conn with
  | None => m
  | Some set =>
    let set' := set ∖ {[ty]} in
    if bool_decide (set' = ∅) then delete conn m else <[conn := set']> m
  end.

(** Where a worker is.  [Exited]: its thread does not run, not yet or not any
    more.  [Looping] to [Entering] are the head of [worker_loop]: the test of
    [running_], [wait_if_paused] - entered, its predicate about to be tested
    with [pause_mtx_] held, about to block, blocked - and the second test of
    [running_].  [Idle]: in [wait_pop]. *)
Inductive stage :=
  | Exited
  | Looping | Gate | Testing | Blocking | Parked | Entering
  | Idle
  | Holding (evt : EventQueue.Event)
  | Running (conn : GlobalConnId) (ty : Envelope.Type_) (parsed : ParsedPayload)
  | Returned (conn : GlobalConnId) (ty : Envelope.Type_) (out : Out)
  | Threw (conn : GlobalConnId) (ty : Envelope.Type_)
  | Pushing (out : Out).

Record pool := mkPool {
  app : App X D;
  executing_commands_ : Executing_;
  running_ : bool;
  paused_ : bool;
  workers : nat -> stage;
  sent : Out;
  terminated : bool
}.

Definition set_worker (w : nat) (st : stage) (p : pool) : pool :=
  mkPool (app p) (executing_commands_ p) (running_ p) (paused_ p)
    (fun w' => if bool_decide (w' = w) then st else workers p w') (sent p) (terminated p).
Definition set_app (a : App X D) (p : pool) : pool :=
  mkPool a (executing_commands_ p) (running_ p) (paused_ p) (workers p) (sent p) (terminated p).
Definition set_executing (m : Executing_) (p : pool) : pool :=
  mkPool (app p) m (running_ p) (paused_ p) (workers p) (sent p) (terminated p).
Definition set_flags (running paused : bool) (ws : nat -> stage) (p : pool) : pool :=
  mkPool (app p) (executing_commands_ p) running paused ws (sent p) (terminated p).

Definition with_queue (q : EventQueue.t) (a : App X D) : App X D :=
  mkApp (voice a) (user_cache a) (async_writer a) (audit a) q.

(** *** Lifecycle *)

(** The threads start at the head of their loop. *)
Definition start (worker_threads : nat) (p : pool) : pool :=
  if running_ p then p
  else set_flags true false (fun w => if (w <? worker_threads)%nat then Looping else workers p w) p.

(** [pause_cv_.notify_all()]: reaches the blocked workers only. *)
Definition notify_all (ws : nat -> stage) : nat -> stage :=
  fun w => match ws w with Parked => Testing | st => st end.

(** [stop] up to the join of the threads. *)
Definition stop (p : pool) : pool :=
  if running_ p then
    set_app (with_queue (EventQueue.stop (event_sink (app p))) (app p))
      (set_flags false false (notify_all (workers p)) p)
  else p.

Definition pause (p : pool) : pool :=
  if running_ p then set_flags true true (workers p) p else p.

Definition resume (p : pool) : pool :=
  if running_ p then set_flags true false (notify_all (workers p)) p else p.

(** *** Handling an event *)

(** [handle_event(MessageEvent&)] up to the dispatch. *)
Definition begin_message (w : nat) (conn : GlobalConnId) (env : Envelope.t) (p : pool) : pool :=
  match parse_inbound_payload parsers env with
  | Unexpected e =>
    set_worker w (Pushing [Utils.drop_connection conn INVALID_FORMAT ("Invalid envelope: " +:+ e)]) p
  | Ok parsed =>
    let ty := Envelope.type env in
    if command_uses_inflight_dedup ty then
      let '(marked, m) := try_mark_executing (executing_commands_ p) conn ty in
      if (marked : bool) then set_worker w (Running conn ty parsed) (set_executing m p)
      else set_worker w (Pushing []) (set_executing m p)
    else set_worker w (Running conn ty parsed) p
  end.

(** The dispatch: an exception is caught in [worker_loop]. *)
Definition run_message (w : nat) (conn : GlobalConnId) (ty : Envelope.Type_)
  (parsed : ParsedPayload) (p : pool) : pool :=
  match dispatch ty conn parsed with
  | None => mkPool (app p) (executing_commands_ p) (running_ p) (paused_ p) (workers p) (sent p) true
  | Some cmd =>
    match cmd (app p) with
    | (Some out, a) => set_worker w (Returned conn ty out) (set_app a p)
    | (None, a) => set_worker w (Threw conn ty) (set_app a p)
    end
  end.

(** The other events, from the dispatch to the answers. *)
Definition run_other (w : nat) (cmd : C Out) (p : pool) : pool :=
  match cmd (app p) with
  | (Some out, a) => set_worker w (Pushing out) (set_app a p)
  | (None, a) => set_worker w Looping (set_app a p)
  end.

(** The head of the loop. *)
Definition loop_head (w : nat) (st : stage) (p : pool) : option pool :=
  match st with
  | Looping => Some (set_worker w (if running_ p then Gate else Exited) p)
  | Gate => Some (set_worker w (if paused_ p then Testing else Entering) p)
  | Testing => Some (set_worker w (if negb (paused_ p) || negb (running_ p) then Entering else Blocking) p)
  | Blocking => Some (set_worker w Parked p)
  | Entering => Some (set_worker w (if running_ p then Idle else Exited) p)
  | Idle =>
    match EventQueue.wait_pop (event_sink (app p)) with
    | (Some (_, Some evt), q) => Some (set_worker w (Holding evt) (set_app (with_queue q (app p)) p))
    | (Some (_, None), q) => Some (set_worker w Looping (set_app (with_queue q (app p)) p))
    | (None, _) => None
    end
  | _ => None
  end.

(** One turn of worker [w]; [None]: it waits for an event or a notification,
    or its thread is not running. *)
Definition turn (w : nat) (p : pool) : option pool :=
  match workers p w with
  | Holding (EventQueue.MessageEvent conn env) => Some (begin_message w conn env p)
  | Holding (EventQueue.ConnectionEvent conn user) =>
    Some (run_other w (dispatch_connection conn user) p)
  | Holding (EventQueue.DisconnectionEvent conn _ _) =>
    Some (run_other w (dispatch_disconnection conn) p)
  | Running conn ty parsed => Some (run_message w conn ty parsed p)
  | Returned conn ty out =>
    Some (set_worker w (Pushing out)
            (if command_uses_inflight_dedup ty
             then set_executing (unmark_executing (executing_commands_ p) conn ty) p else p))
  | Threw conn ty =>
    Some (set_worker w Looping
            (set_executing (unmark_executing (executing_commands_ p) conn ty) p))
  | Pushing out =>
    Some (set_worker w Looping
            (mkPool (app p) (executing_commands_ p) (running_ p) (paused_ p) (workers p)
               (sent p ++ out) (terminated p)))
  | st => loop_head w st p
  end.

(** The pool runs: a worker takes a turn or wakes up spuriously, the network
    pushes an event, or the owner of the pool calls it.  [start] waits for the
    threads of an earlier [stop] to end. *)
Inductive step : pool -> pool -> Prop :=
  | step_turn w p p' : turn w p = Some p' -> step p p'
  | step_spurious w p : workers p w = Parked -> step p (set_worker w Testing p)
  | step_push evt p :
      step p (set_app (with_queue (EventQueue.push_impl (event_sink (app p)) evt).2 (app p)) p)
  | step_start n p : (forall w, running_ p = false -> workers p w = Exited) -> step p (start n p)
  | step_stop p : step p (stop p)
  | step_pause p : step p (pause p)
  | step_resume p : step p (resume p).

(** A pool whose threads have not been started. *)
Definition created (a : App X D) : pool := mkPool a ∅ false false (fun _ => Exited) [] false.

Inductive reachable (a : App X D) : pool -> Prop :=
  | reachable_created : reachable a (created a)
  | reachable_step p p' : reachable a p -> step p p' -> reachable a p'.

(** ** In-flight commands are exclusive *)

(** The command a worker has in flight, when it is one the guard covers. *)
Definition in_flight (st : stage) : option (GlobalConnId * Envelope.Type_) :=
  match st with
  | Running conn ty _ | Returned conn ty _ | Threw conn ty =>
    if command_uses_inflight_dedup ty then Some (conn, ty) else None
  | _ => None
  end.

Definition marked (m : Executing_) (conn : GlobalConnId) (ty : Envelope.Type_) : Prop :=
  ty ∈ default ∅ (m !! conn).

#[local] Instance marked_dec m conn ty : Decision (marked m conn ty).
Proof. unfold marked. apply _. Defined.

(** The table holds what the workers have in flight, each once. *)
Record pool_ok (p : pool) : Prop := mk_pool_ok {
  ok_marked : forall conn ty, marked (executing_commands_ p) conn ty <->
    exists w, in_flight (workers p w) = Some (conn, ty);
  ok_unique : forall w1 w2 c, in_flight (workers p w1) = Some c ->
    in_flight (workers p w2) = Some c -> w1 = w2
}.

Lemma mark_spec m conn ty : 
  (try_mark_executing m conn ty).1 = bool_decide (~ marked m conn ty) /\
  forall c t, marked (try_mark_executing m conn ty).2 c t <-> marked m c t \/ (c, t) = (conn, ty).
Proof.
  unfold try_mark_executing, marked. destruct (decide (ty ∈ default ∅ (m !! conn))) as [Hin|Hin].
  - rewrite (bool_decide_eq_true_2 _ Hin). simpl.
    split; [by rewrite bool_decide_eq_false_2 by auto|]. intros c t.
    destruct (decide (c = conn)) as [->|Hc]; [|rewrite lookup_insert_ne by done; naive_solver].
    rewrite lookup_insert_eq. simpl. naive_solver.
  - rewrite (bool_decide_eq_false_2 _ Hin). simpl.
    split; [by rewrite bool_decide_eq_true_2|]. intros c t.
    destruct (decide (c = conn)) as [->|Hc]; [|rewrite lookup_insert_ne by done; naive_solver].
    rewrite lookup_insert_eq. simpl. set_solver.
Qed.

Lemma unmark_spec m conn ty c t :
  marked (unmark_executing m conn ty) c t <-> marked m c t /\ (c, t) <> (conn, ty).
Proof.
  unfold unmark_executing, marked. destruct (m !! conn) as [set|] eqn:E.
  2:{ split; [|naive_solver]. intros Ht. split; [done|]. intros [= -> ->]. rewrite E in Ht. set_solver. }
  destruct (decide (set ∖ {[ty]} = ∅)) as [He|He].
  - rewrite (bool_decide_eq_true_2 _ He). destruct (decide (c = conn)) as [->|Hc].
    + rewrite lookup_delete_eq, E. simpl. set_solver.
    + rewrite lookup_delete_ne by done. naive_solver.
  - rewrite (bool_decide_eq_false_2 _ He). destruct (decide (c = conn)) as [->|Hc].
    + rewrite lookup_insert_eq, E. simpl. set_solver.
    + rewrite lookup_insert_ne by done. naive_solver.
Qed.

(** Only worker [w] changes; what it had in flight and has now decide. *)
Lemma pool_ok_update p p' w :
  pool_ok p ->
  (forall w', w' <> w -> workers p' w' = workers p w') ->
  (forall c, in_flight (workers p' w) = Some c ->
     in_flight (workers p w) = Some c \/ ~ marked (executing_commands_ p) c.1 c.2) ->
  (forall c t, marked (executing_commands_ p') c t <->
     in_flight (workers p' w) = Some (c, t) \/
     (marked (executing_commands_ p) c t /\ in_flight (workers p w) <> Some (c, t))) ->
  pool_ok p'.
Proof.
  intros [Hm Hu] Hw Hnew Hm'. split.
  - intros c t. rewrite Hm', Hm. split.
    + intros [Hc|[[w' Hc] Hne]]; [eauto|]. exists w'.
      destruct (decide (w' = w)) as [->|Hd]; [done|]. by rewrite Hw.
    + intros [w' Hc]. destruct (decide (w' = w)) as [->|Hd]; [by left|].
      rewrite Hw in Hc by done. right. split; [eauto|]. intros Hc'. apply Hd. by eapply Hu.
  - assert (Hone : forall w' c, w' <> w -> in_flight (workers p' w) = Some c ->
      in_flight (workers p w') = Some c -> False).
    { intros w' [c t] Hd Ha Hb. destruct (Hnew _ Ha) as [Hc|Hc].
      - apply Hd. by eapply Hu.
      - apply Hc, Hm. eauto. }
    intros w1 w2 c Ha Hb. destruct (decide (w1 = w)) as [->|D1], (decide (w2 = w)) as [->|D2];
      rewrite ?Hw in Ha by done; rewrite ?Hw in Hb by done; [done| | |by eapply Hu].
    + exfalso. by eapply Hone.
    + exfalso. by eapply Hone.
Qed.

Lemma workers_set w st p : workers (set_worker w st p) w = st.
Proof. simpl. by rewrite bool_decide_eq_true_2. Qed.
Lemma workers_set_ne w w' st p : w' <> w -> workers (set_worker w st p) w' = workers p w'.
Proof. intros. simpl. by rewrite bool_decide_eq_false_2. Qed.

(** A turn that neither enters nor leaves the table. *)
Lemma pool_ok_same p p' w st :
  pool_ok p -> executing_commands_ p' = executing_commands_ p -> workers p' = workers p ->
  in_flight st = in_flight (workers p w) -> pool_ok (set_worker w st p').
Proof.
  intros Hok Hm Hw Hst. apply (pool_ok_update p _ w Hok).
  - intros w' Hd. rewrite workers_set_ne by done. by rewrite Hw.
  - intros c. rewrite workers_set, Hst. auto.
  - intros c t. rewrite workers_set, Hst. simpl. rewrite Hm. destruct Hok as [Hok _].
    destruct (decide (in_flight (workers p w) = Some (c, t))); [|naive_solver].
    split; [by left|]. intros _. apply Hok. eauto.
Qed.

(** A turn that leaves the table. *)
Lemma pool_ok_leave p w st conn ty :
  pool_ok p -> in_flight st = None ->
  in_flight (workers p w) = Some (conn, ty) \/ ~ marked (executing_commands_ p) conn ty ->
  (in_flight (workers p w) = None \/ in_flight (workers p w) = Some (conn, ty)) ->
  pool_ok (set_worker w st (set_executing (unmark_executing (executing_commands_ p) conn ty) p)).
Proof.
  intros Hok Hst Hor Hw. apply (pool_ok_update p _ w Hok).
  - intros w' Hd. by rewrite workers_set_ne.
  - intros c. by rewrite workers_set, Hst.
  - intros c t. rewrite workers_set, Hst. simpl. rewrite unmark_spec. split.
    + intros [Hm Hne]. right. split; [done|]. destruct Hw as [->| ->]; [done|]. congruence.
    + intros [?|[Hm Hne]]; [done|]. split; [done|]. intros [= -> ->].
      destruct Hor as [Ha|Ha]; [by apply Hne|by apply Ha].
Qed.

Lemma begin_ok w conn env p : pool_ok p ->
  in_flight (workers p w) = None -> pool_ok (begin_message w conn env p).
Proof.
  intros Hok Hw. unfold begin_message.
  destruct (parse_inbound_payload parsers env) as [parsed|e]; [|by apply (pool_ok_same p)].
  destruct (command_uses_inflight_dedup (Envelope.type env)) eqn:Ed.
  2:{ apply (pool_ok_same p); [done..|]. simpl. by rewrite Ed. }
  pose proof (mark_spec (executing_commands_ p) conn (Envelope.type env)) as [Hb Hm].
  destruct (try_mark_executing _ _ _) as [b m]. simpl in Hb, Hm.
  apply (pool_ok_update p _ w Hok); destruct b; intros *;
    rewrite ?workers_set; simpl; rewrite ?Ed; try (by intros; rewrite bool_decide_eq_false_2);
    symmetry in Hb.
  - intros [= <-]. right. by apply bool_decide_eq_true_1 in Hb.
  - done.
  - rewrite Hm, Hw. naive_solver.
  - apply bool_decide_eq_false_1, dec_stable in Hb. rewrite Hm, Hw.
    split; [intros [?|[= -> ->]]; by right|naive_solver].
Qed.

(** What the workers have in flight decides. *)
Lemma pool_ok_ext p p' :
  pool_ok p -> executing_commands_ p' = executing_commands_ p ->
  (forall w, in_flight (workers p' w) = in_flight (workers p w)) -> pool_ok p'.
Proof.
  intros [Ha Hb] Hm Hw. split.
  - intros conn ty. rewrite Hm, Ha. by setoid_rewrite Hw.
  - intros w1 w2 c. rewrite !Hw. apply Hb.
Qed.

Lemma notify_in_flight ws w : in_flight (notify_all ws w) = in_flight (ws w).
Proof. unfold notify_all. by destruct (ws w). Qed.

Lemma loop_head_ok w p p' : pool_ok p -> in_flight (workers p w) = None ->
  loop_head w (workers p w) p = Some p' -> pool_ok p'.
Proof.
  intros Hok Hf. unfold loop_head. destruct (workers p w) eqn:Ew; try done.
  all: try (intros [= <-]; apply (pool_ok_same p); [done..|]; rewrite Ew; by repeat case_match).
  destruct (EventQueue.wait_pop _) as [[[b [evt|]]|] eq]; intros [= <-];
    (apply (pool_ok_same p); [done..|]; by rewrite Ew).
Qed.

Lemma turn_ok w q q' : pool_ok q -> turn w q = Some q' -> pool_ok q'.
Proof.
  intros Hok. unfold turn.
  destruct (workers q w) as [| | | | | | | |evt|conn ty parsed|conn ty out|conn ty|out] eqn:Ew;
    try (rewrite <- Ew; apply loop_head_ok; [done|by rewrite Ew]).
  - destruct evt as [conn user|conn code reason|conn env]; intros [= <-].
    + unfold run_other. destruct (dispatch_connection _ _ _) as [[out|] a];
        (apply (pool_ok_same q); [done..|]; by rewrite Ew).
    + unfold run_other. destruct (dispatch_disconnection _ _) as [[out|] a];
        (apply (pool_ok_same q); [done..|]; by rewrite Ew).
    + apply begin_ok; [done|]. by rewrite Ew.
  - intros [= <-]. unfold run_message. destruct (dispatch ty conn parsed) as [cmd|];
      [|by eapply pool_ok_ext].
    destruct (cmd (app q)) as [[out|] a]; (apply (pool_ok_same q); [done..|]; by rewrite Ew).
  - intros [= <-]. destruct (command_uses_inflight_dedup ty) eqn:Ed.
    + apply pool_ok_leave; [done|done| |]; rewrite Ew; simpl; rewrite Ed; auto.
    + apply (pool_ok_same q); [done..|]. rewrite Ew. simpl. by rewrite Ed.
  - intros [= <-]. apply pool_ok_leave; [done|done| |]; rewrite Ew; simpl;
      destruct (command_uses_inflight_dedup ty) eqn:Ed; auto.
    right. rewrite (ok_marked _ Hok). intros [w' Hw'].
    destruct (workers q w'); simpl in Hw'; try done;
      destruct (command_uses_inflight_dedup ty0) eqn:E0; try done; injection Hw' as -> ->; congruence.
  - intros [= <-]. apply (pool_ok_same q); [done..|]. by rewrite Ew.
Qed.

Lemma pool_step_ok p p' : pool_ok p -> step p p' -> pool_ok p'.
Proof.
  intros Hok Hs. destruct Hs as [w p p' Ht|w p Hw|evt p|n p Hw|p|p|p].
  - by eapply turn_ok.
  - apply (pool_ok_same p); [done..|]. by rewrite Hw.
  - by eapply pool_ok_ext.
  - unfold start. destruct (running_ p); [done|]. eapply pool_ok_ext; [done..|]. intros w. simpl.
    rewrite Hw by done. by destruct (w <? n)%nat.
  - unfold stop. destruct (running_ p); [|done]. eapply pool_ok_ext; [done..|]. intros w.
    apply notify_in_flight.
  - unfold pause. destruct (running_ p); [|done]. by eapply pool_ok_ext.
  - unfold resume. destruct (running_ p); [|done]. eapply pool_ok_ext; [done..|]. intros w.
    apply notify_in_flight.
Qed.

Lemma reachable_ok a p : reachable a p -> pool_ok p.
Proof.
  induction 1 as [|p p' _ IH Hs]; [|by eapply pool_step_ok]. split; simpl; [|done].
  intros conn ty. unfold marked. rewrite lookup_empty. simpl. set_solver.
Qed.

(** C20: a connection has at most one command of a guarded type in flight.  In
    every interleaving of the workers and the network, no two workers are
    between entering and leaving the table with the same connection and type,
    and the table holds exactly what is in flight: an exception leaves no
    entry behind that would block the type for the connection, and when nothing
    is in flight no type is blocked. *)
Theorem in_flight_exclusive (a : App X D) (p : pool) :
  reachable a p ->
  (forall w1 w2 conn ty, in_flight (workers p w1) = Some (conn, ty) ->
     in_flight (workers p w2) = Some (conn, ty) -> w1 = w2) /\
  (forall conn ty, marked (executing_commands_ p) conn ty <->
     exists w, in_flight (workers p w) = Some (conn, ty)) /\
  ((forall w, in_flight (workers p w) = None) ->
     forall conn ty, (try_mark_executing (executing_commands_ p) conn ty).1 = true).
Proof.
  intros Hr. destruct (reachable_ok a p Hr) as [Hm Hu]. split_and!; [eauto|done|].
  intros Hidle conn ty. destruct (mark_spec (executing_commands_ p) conn ty) as [-> _].
  apply bool_decide_eq_true_2. rewrite Hm. intros [w Hw]. by rewrite Hidle in Hw.
Qed.

End Workers.

Arguments pool : clear implicits.

(** ** On the small application *)

Module WorkersDemo.
Import AppDemo.

(** Parsers that read the payload of a ping and a token, and nothing else. *)
Definition parsers : Parsers := mkParsers
  (fun _ => Some (mkPing 0))
  (fun s => Some (mkAuthenticate AuthType_AUTH AuthProvider_SUPABASE s None))
  (fun _ => Some (mkRequestStateSync [])) (fun _ => None) (fun _ => None) (fun _ => None)
  (fun _ => None) (fun _ => None) (fun _ => None) (fun _ => None) (fun _ => None) (fun _ => None)
  (fun _ => None) (fun _ => None) (fun _ => None) (fun _ => None) (fun _ => None) (fun _ => None)
  (fun _ => None) (fun _ => None) (fun _ => None) (fun _ => None) (fun _ => None).

Definition login (n : string) : EventQueue.Event :=
  EventQueue.MessageEvent (conn n) (Envelope.mk 1 Envelope.AUTH 1 "alice").

(** What happens: the network pushes, or a worker takes a turn. *)
Definition act (p : pool DemoWorld.t db) (e : nat + EventQueue.Event) : pool DemoWorld.t db :=
  match e with
  | inl w => default p (turn sv parsers w p)
  | inr evt => set_app (with_queue (EventQueue.push_impl (event_sink (app p)) evt).2 (app p)) p
  end.

Lemma act_reachable a p e : reachable sv parsers a p -> reachable sv parsers a (act p e).
Proof.
  intros Hr. destruct e as [w|evt]; simpl.
  - destruct (turn sv parsers w p) as [p'|] eqn:E; [|done]. eapply reachable_step; [done|].
    by eapply step_turn.
  - eapply reachable_step; [done|]. apply step_push.
Qed.

Lemma acts_reachable a es : forall p,
  reachable sv parsers a p -> reachable sv parsers a (foldl act p es).
Proof. induction es as [|e es IH]; intros p Hp; [done|]. by apply IH, act_reachable. Qed.

Definition started (n : nat) : pool DemoWorld.t db := start 2 (created (AppDemo.boot n)).

Lemma started_reachable n : reachable sv parsers (AppDemo.boot n) (started n).
Proof. eapply reachable_step; [apply reachable_created|]. by apply step_start. Qed.

(** Worker [w] from the head of its loop into [wait_pop]. *)
Definition settle (w : nat) : list (nat + EventQueue.Event) := [inl w; inl w; inl w].

(** Two logins of one connection: the first is in flight when the second is
    taken. *)
Definition two_logins : pool DemoWorld.t db :=
  foldl act (started 100) (settle 0 ++ settle 1 ++
    [inr (login "1"); inr (login "1"); inl 0; inl 1; inl 0; inl 1]).

End WorkersDemo.
Import AppDemo.

Lemma parsed_payload_fits_command_witness :
  dispatch (X := DemoWorld.t) (D := AppDemo.db) AppDemo.sv Envelope.AUTH (AppDemo.conn "1")
    (P_Authenticate (mkAuthenticate AuthType_AUTH AuthProvider_SUPABASE "alice" None)) <> None.
Proof.
  apply (parsed_payload_fits_command AppDemo.sv WorkersDemo.parsers
    (Envelope.mk 1 Envelope.AUTH 1 "alice")). reflexivity.
Defined.

(** The second login of the connection is dropped. *)
Lemma in_flight_exclusive_witness :
  workers WorkersDemo.two_logins 1 = Pushing [] /\
  marked (executing_commands_ WorkersDemo.two_logins) (AppDemo.conn "1") Envelope.AUTH.
Proof.
  split; [vm_compute; reflexivity|].
  destruct (in_flight_exclusive AppDemo.sv WorkersDemo.parsers (AppDemo.boot 100)
    WorkersDemo.two_logins) as (_ & Hm & _).
  - apply WorkersDemo.acts_reachable, WorkersDemo.started_reachable.
  - apply Hm. exists 0. vm_compute. reflexivity.
Defined.
