(* ===== verification/HubEffects.v ===== *)
(** * What each call of the hub service does to the tables

    Hoare triples of [HubService]'s operations between coherent states: a read
    answers from the tables and keeps them, a write that returns relates the
    tables as the SQL does, and a write that throws leaves them as they were.
    The theorems on the commands are proved from these. *)

From S2P Require Import Prelude.
From S2P Require Import CStrings.
From S2P Require Import Ids.
From S2P Require Import Protocol.
From S2P Require Import HubService.
From S2P Require Import HubCoherence.

Module HubEffects.
Import HubService HubCoherence.
Section Effects.
Context {D : Type} {HR : HubRepo D} {HL : HubRepoLaws D}.
Variable hash : HubId -> Z.
Variable Hs : gset HubId.
Hypothesis hash_inj : forall h h', h ∈ Hs -> h' ∈ Hs -> hash h = hash h' -> h = h'.
Hypothesis hubs_known : forall d : D, dom (tb_hubs (tables d)) ⊆ Hs.
Hypothesis hubs_norm : forall h, h ∈ Hs -> norm_hub h = h.

Abbreviation at_' := (at_ (D := D) hash).

(** The role a user has in a hub that exists. *)
Definition role_in (tb : Tables) (h : HubId) (u : UserId) : option Role :=
  if decide (is_Some (tb_hubs tb !! h)) then roles_of (members_of tb h) !! u else None.

Definition channels_in (tb : Tables) (h : HubId) : list ChannelId :=
  if decide (is_Some (tb_hubs tb !! h)) then order_of tb h else [].

Lemma role_in_member tb h u r : role_in tb h u = Some r ->
  is_Some (tb_hubs tb !! h) /\ roles_of (members_of tb h) !! u = Some r.
Proof using. unfold role_in. by case_decide. Qed.

Lemma role_in_snapshot tb h u :
  (sn ← snapshot_of tb h; sn_member_roles sn !! u) = role_in tb h u.
Proof using.
  unfold role_in, snapshot_of. by destruct (tb_hubs tb !! h).
Qed.

Lemma channels_in_snapshot tb h :
  default [] (sn_channel_ids <$> snapshot_of tb h) = channels_in tb h.
Proof using.
  unfold channels_in, snapshot_of. by destruct (tb_hubs tb !! h).
Qed.

(** ** Reads *)

Lemma role_at tb h u : h ∈ Hs ->
  ex_triple (at_' tb) (getMembershipRole hash h u)
    (fun r s => at_' tb s /\ r = role_in tb h u) (at_' tb).
Proof using hash_inj hubs_known hubs_norm.
  intros Hh. eapply ex_triple_conseq; [by eapply (resolve_at hash Hs)|done| |done].
  intros r s [? ->]. by rewrite <- role_in_snapshot.
Qed.

Lemma is_member_at tb h u : h ∈ Hs ->
  ex_triple (at_' tb) (isHubMember hash h u)
    (fun b s => at_' tb s /\ b = bool_decide (is_Some (role_in tb h u))) (at_' tb).
Proof using hash_inj hubs_known hubs_norm.
  intros Hh. unfold isHubMember. eapply ex_triple_bind; [by apply role_at|].
  intros r. apply ex_triple_pure. intros ->. by apply ex_triple_ret.
Qed.

Lemma channel_ids_at tb h : h ∈ Hs ->
  ex_triple (at_' tb) (getHubChannelIds hash h)
    (fun r s => at_' tb s /\ r = channels_in tb h) (at_' tb).
Proof using hash_inj hubs_known hubs_norm.
  intros Hh. eapply ex_triple_conseq; [by eapply (channelIds_at hash Hs)|done| |done].
  intros r s [? ->]. by rewrite <- channels_in_snapshot.
Qed.

Lemma hub_at tb h : h ∈ Hs ->
  ex_triple (at_' tb) (getHub hash h)
    (fun r s => at_' tb s /\ (is_Some r <-> is_Some (tb_hubs tb !! h))) (at_' tb).
Proof using hash_inj hubs_known hubs_norm.
  intros Hh s Hs'. unfold getHub, ex_bind. simpl. destruct (cache_get hash s h) as [sn|] eqn:E.
  - simpl. split; [done|]. split; [intros _|by eexists].
    apply (cache_get_snapshot hash Hs hash_inj hubs_known hubs_norm tb) in E; [|done..].
    unfold snapshot_of in E. destruct (tb_hubs tb !! h); [by eexists|done].
  - pose proof (read_at hash _ _ tb (law_getHub h) s Hs') as Hr.
    destruct (repo (repo_getHub h) s) as [[r|] s']; [|done]. destruct Hr as [? ->].
    by rewrite hubs_norm.
Qed.

(** A hub value that shows the row of its id. *)
Definition shows_row (tb : Tables) (hub : Hub) : Prop :=
  exists row, tb_hubs tb !! hub_id hub = Some row /\ hub_owner row = hub_owner hub /\
    hub_name row = hub_name hub /\ hub_avatar_seed row = hub_avatar_seed hub.

Lemma user_hubs_at tb u :
  ex_triple (at_' tb) (getUserHubs u) (fun r s => at_' tb s /\ forall hub, hub ∈ r ->
    is_Some (role_in tb (hub_id hub) (norm_user u)) /\ shows_row tb hub) (at_' tb).
Proof using.
  eapply ex_triple_conseq; [apply read_at, law_getUserHubs|done| |done].
  intros r s [? Hr]. split; [done|]. intros hub Hin. destruct (Hr _ Hin) as [Hm Hrow].
  split; [|done]. unfold role_in. rewrite decide_True; [done|]. destruct Hrow as (row & -> & _). eauto.
Qed.

Lemma snapshot_shows tb s k sn :
  at_' tb s -> cache_ s !! k = Some sn -> shows_row tb (to_hub sn).
Proof using.
  intros Hat Hk. pose proof (at_wf _ _ _ Hat) as Hok.
  destruct (fit_hub _ _ _ (proj2 Hat) _ _ Hk) as [_ Hsn]. unfold snapshot_of in Hsn.
  destruct (tb_hubs tb !! sn_hub_id sn) as [row|] eqn:E; [|done]. simpl in Hsn. injection Hsn as <-.
  exists row. split; [|done]. simpl. by rewrite (tk_hub _ Hok _ _ E).
Qed.

Lemma hubs_by_ids_at tb hs :
  ex_triple (at_' tb) (getHubsByIds hash hs)
    (fun r s => at_' tb s /\ forall h hub, r !! h = Some hub -> shows_row tb hub) (at_' tb).
Proof using.
  intros s Hs'. pose proof (getHubsByIds_at hash tb hs s Hs') as Hk.
  destruct (getHubsByIds hash hs s) as [[r|] s'] eqn:Er; [|done]. split; [done|]. clear Hk.
  unfold getHubsByIds, ex_bind at 1 in Er. cbn [ex_gets] in Er.
  set (hits := omap _ _) in Er.
  assert (Hhits : forall h hub, (list_to_map hits : gmap HubId Hub) !! h = Some hub ->
    shows_row tb hub).
  { intros h hub Hl%elem_of_list_to_map_2. apply list_elem_of_omap in Hl as (h' & _ & Hh).
    destruct (cache_get hash s h') as [sn|] eqn:E; [|done]. simpl in Hh. injection Hh as <- <-.
    by eapply snapshot_shows. }
  destruct (filter _ _) as [|m ms]; [by injection Er as <- <-|].
  unfold ex_bind at 1 in Er. pose proof (read_at hash _ _ tb (law_getHubsByIds (m :: ms)) s Hs') as Hr.
  destruct (repo _ s) as [[fetched|] s1]; [|done]. destruct Hr as [_ Hrows].
  unfold ex_bind in Er. destruct (repo _ s1) as [[?|] s2]; [|done].
  destruct (repo _ s2) as [[?|] s3]; [|done]. destruct (ex_for _ _ s3) as [[?|] s4]; [|done].
  injection Er as <- _. clear -Hhits Hrows. revert Hhits Hrows. generalize (list_to_map hits : gmap HubId Hub).
  induction fetched as [|f fetched IH]; intros g Hg Hf; [exact Hg|]. simpl. apply IH.
  - intros h hub [[_ <-]|[_ Hl]]%lookup_insert_Some; [|by eapply Hg].
    exists f. split; [apply Hf; left|done].
  - intros hub Hin. apply Hf. by right.
Qed.

(** ** Writes *)

(** [m] as a write of the tables, the caches aside. *)
Definition effect {A} (m : EX (t (D := D)) A) (P : Tables -> A -> Tables -> Prop) : Prop :=
  forall tb, ex_triple (fun s : t (D := D) => tables (db s) = tb) m
    (fun a s => P tb a (tables (db s))) (fun s => tables (db s) = tb).

Lemma write_at {A} (m : EX (t (D := D)) A) P tb :
  keeps hash m -> effect m P ->
  ex_triple (at_' tb) m (fun a s => exists tb', at_' tb' s /\ P tb a tb') (at_' tb).
Proof using.
  intros Hk He s [Ht Hf].
  assert (Hco : coherent hash s) by (unfold coherent; by rewrite Ht).
  specialize (Hk s Hco). specialize (He tb s Ht).
  destruct (m s) as [[a|] s']; simpl in *.
  - exists (tables (db s')). by split.
  - unfold coherent in Hk. by rewrite He in Hk.
Qed.

Lemma repo_effect {A} (m : EX D A) P : writes tables m P -> effect (repo m) P.
Proof using.
  intros Hm tb s <-. unfold repo. specialize (Hm (db s)). by destruct (m (db s)) as [[a|] d'].
Qed.

(** What follows the repository call only touches the caches. *)
Lemma effect_then {A B} (m : EX (t (D := D)) A) (k : A -> EX (t (D := D)) B) P (Q : Tables -> B -> Tables -> Prop) :
  effect m P ->
  (forall tb a, ex_triple (fun s : t (D := D) => P tb a (tables (db s))) (k a)
     (fun b s => Q tb b (tables (db s))) (fun _ => False)) ->
  effect (ex_bind m k) Q.
Proof using.
  intros Hm Hk tb s Hs'. specialize (Hm tb s Hs'). unfold ex_bind.
  destruct (m s) as [[a|] s']; [|done]. specialize (Hk tb a s' Hm).
  by destruct (k a s') as [[b|] s''].
Qed.

(** A call that keeps the tables, then a write. *)
Definition same_tables {A} (tb : Tables) (a : A) (tb' : Tables) : Prop := tb' = tb.

Lemma effect_after {A B} (m : EX (t (D := D)) A) (k : A -> EX (t (D := D)) B) Q :
  effect m same_tables -> (forall a, effect (k a) Q) -> effect (ex_bind m k) Q.
Proof using. intros Hm Hk tb. eapply ex_triple_bind; [apply Hm|]. intros a. apply Hk. Qed.

Lemma read_effect {A} (m : EX D A) P : reads tables m P -> effect (repo m) same_tables.
Proof using.
  intros Hm tb s <-. unfold repo. destruct (Hm (db s)) as [Ht _].
  by destruct (m (db s)) as [[a|] d'].
Qed.

Lemma channel_ids_effect h : effect (getHubChannelIds hash h) same_tables.
Proof using HL.
  assert (Hret : forall A (a : A), effect (ex_ret a) same_tables) by (by intros A a tb s).
  assert (Hput : forall sn, effect (cache_put hash sn) same_tables) by (by intros sn tb s).
  unfold getHubChannelIds, getHubTopology, loadSnapshot, buildSnapshot.
  repeat (apply effect_after; [|intros a]); auto.
  - by intros tb s.
  - destruct a; [auto|]. repeat (apply effect_after; [eapply read_effect|intros a]);
      eauto using law_getHub.
    destruct a; [|auto].
    apply effect_after; [eapply read_effect, law_getHubChannelIds|intros ids].
    apply effect_after; [eapply read_effect, law_getHubMemberRoles|intros ms].
    apply effect_after; auto.
Qed.

(** Cache updates, then the answer. *)
Ltac after_write :=
  repeat first
    [ apply ex_triple_ret; done
    | eapply ex_triple_bind; [apply ex_triple_gets_keep|intros ?]
    | eapply ex_triple_bind; [apply ex_triple_modify_keep; done|intros ?]
    | eapply ex_triple_bind;
        [apply ex_triple_for; intros ? _; apply ex_triple_modify_keep; done|intros ?]
    | solve [intros ? Hx; exact Hx]
    | case_bool_decide
    | match goal with |- ex_triple _ (if negb ?b then _ else _) _ _ => destruct b; cbn [negb] end
    | match goal with |- ex_triple _ (match ?x with _ => _ end) _ _ => destruct x end ].

(** *** The effects *)

(** A hub without channels, whose only member is its owner. *)
Definition hub_created (o : UserId) (tb : Tables) (hub : Hub) (tb' : Tables) : Prop :=
  tb_hubs tb !! hub_id hub = None /\ tb_hubs tb' !! hub_id hub = Some hub /\
  roles_of (members_of tb' (hub_id hub)) = {[norm_user o := OWNER]} /\
  order_of tb' (hub_id hub) = [] /\ only_hub_changed (hub_id hub) tb tb' /\
  tb_channels tb' = tb_channels tb.

Definition channel_created (h : HubId) (n : string) (ty : ChannelType)
  (tb : Tables) (c : ChannelId) (tb' : Tables) : Prop :=
  tb_channels tb !! c = None /\
  tb_channels tb' = <[c := mkChannel n c h ty]> (tb_channels tb) /\
  only_hub_changed h tb tb' /\ tb_hubs tb' !! h = tb_hubs tb !! h /\
  members_of tb' h = members_of tb h /\ order_of tb' h = order_of tb h ++ [c].

Definition channel_renamed (c : ChannelId) (n : string) (tb : Tables) (b : bool) (tb' : Tables)
  : Prop :=
  same_hubs tb tb' /\
  tb_channels tb' = if b
    then alter (fun ch => mkChannel n (ch_id ch) (ch_hub_id ch) (ch_type ch)) c (tb_channels tb)
    else tb_channels tb.

Definition channel_deleted (c : ChannelId) (h : HubId) (tb : Tables) (b : bool) (tb' : Tables)
  : Prop :=
  if b
  then tb_channels tb' = delete c (tb_channels tb) /\ only_hub_changed h tb tb' /\
    tb_hubs tb' !! h = tb_hubs tb !! h /\ members_of tb' h = members_of tb h /\
    order_of tb' h = filter (fun c' => c' <> c) (order_of tb h)
  else same_hubs tb tb' /\ tb_channels tb' = tb_channels tb.

(** A new name or avatar: the members and channels stay. *)
Definition hub_updated (h : HubId) (tb : Tables) (b : bool) (tb' : Tables) : Prop :=
  tb_channels tb' = tb_channels tb /\
  if b then only_hub_changed h tb tb' /\ same_roster tb tb' h else same_hubs tb tb'.

Definition hub_deleted (h : HubId) (tb : Tables) (b : bool) (tb' : Tables) : Prop :=
  if b
  then is_Some (tb_hubs tb !! h) /\ only_hub_changed h tb tb' /\
    forall c, c ∉ order_of tb h -> tb_channels tb' !! c = tb_channels tb !! c
  else same_hubs tb tb' /\ tb_channels tb' = tb_channels tb.

(** The members of [h] become [f] of what they were. *)
Definition members_changed (h : HubId) (f : gmap UserId Role -> gmap UserId Role)
  (tb : Tables) (_ : unit) (tb' : Tables) : Prop :=
  only_hub_changed h tb tb' /\ tb_channels tb' = tb_channels tb /\
  tb_hubs tb' !! h = tb_hubs tb !! h /\ order_of tb' h = order_of tb h /\
  roles_of (members_of tb' h) = f (roles_of (members_of tb h)).

(** [m] returns into a coherent state related by [P], or throws and changes
    nothing. *)
Definition does {A} (m : EX (t (D := D)) A) (P : Tables -> A -> Tables -> Prop) : Prop :=
  forall tb, ex_triple (at_' tb) m (fun a s => exists tb', at_' tb' s /\ P tb a tb') (at_' tb).

Ltac write_triple law :=
  intros tb; apply write_at;
    [|eapply effect_then; [apply repo_effect, law|intros tb' a; after_write]].

Lemma createHub_does n o : does (createHub hash n o) (hub_created o).
Proof using.
  write_triple (law_createHub n o).
  apply (write_invalidate_keeps hash _ _ hub_id (fun a => a) (law_createHub _ _)). naive_solver.
Qed.

Lemma createChannel_does h n ty u : h ∈ Hs ->
  does (createChannel hash h n ty u) (channel_created h n (channel_type_from_storage ty)).
Proof using hash_inj hubs_known hubs_norm.
  intros Hh. pose proof (law_createChannel h n ty u) as Hlaw. rewrite (hubs_norm h Hh) in Hlaw.
  write_triple Hlaw. by apply (createChannel_keeps hash Hs).
Qed.

Lemma renameChannel_does c n : norm_channel c = c -> does (renameChannel c n) (channel_renamed c n).
Proof using.
  intros Hc. pose proof (law_renameChannel c n) as Hlaw. rewrite Hc in Hlaw.
  write_triple Hlaw. by apply renameChannel_keeps.
Qed.

Lemma deleteChannel_does c h : norm_channel c = c -> h ∈ Hs ->
  does (deleteChannel hash c h) (channel_deleted c h).
Proof using hash_inj hubs_known hubs_norm.
  intros Hc Hh. pose proof (law_deleteChannel c h) as Hlaw. rewrite Hc, (hubs_norm h Hh) in Hlaw.
  write_triple Hlaw. by apply (deleteChannel_keeps hash Hs).
Qed.

Lemma renameHub_does h n : h ∈ Hs -> does (renameHub hash h n) (hub_updated h).
Proof using hubs_norm.
  intros Hh. pose proof (law_renameHub h n) as Hlaw. rewrite (hubs_norm h Hh) in Hlaw.
  write_triple Hlaw. eapply write_if_invalidate_keeps; [exact Hlaw|]. intros ? [] ?; naive_solver.
Qed.

Lemma updateHubAvatarSeed_does h n : h ∈ Hs -> does (updateHubAvatarSeed hash h n) (hub_updated h).
Proof using hubs_norm.
  intros Hh. pose proof (law_updateHubAvatarSeed h n) as Hlaw. rewrite (hubs_norm h Hh) in Hlaw.
  write_triple Hlaw. eapply write_if_invalidate_keeps; [exact Hlaw|]. intros ? [] ?; naive_solver.
Qed.

Lemma deleteHub_does h o : h ∈ Hs -> does (deleteHub hash h o) (hub_deleted h).
Proof using hash_inj hubs_known hubs_norm.
  intros Hh tb. pose proof (law_deleteHub h o) as Hlaw. rewrite (hubs_norm h Hh) in Hlaw.
  apply write_at; [by apply (deleteHub_keeps hash Hs)|].
  apply effect_after; [apply channel_ids_effect|]. intros ids.
  eapply effect_then; [apply repo_effect, Hlaw|intros tb' a; after_write].
Qed.

Lemma addMember_does h u r : h ∈ Hs ->
  does (addMember hash h u r) (members_changed h <[norm_user u := r]>).
Proof using hubs_norm.
  intros Hh. pose proof (law_addMember h u r) as Hlaw. rewrite (hubs_norm h Hh) in Hlaw.
  write_triple Hlaw. eapply unit_keeps; [exact Hlaw|]. naive_solver.
Qed.

Lemma removeMember_does h u : h ∈ Hs ->
  does (removeMember hash h u) (members_changed h (delete (norm_user u))).
Proof using hubs_norm.
  intros Hh. pose proof (law_removeMember h u) as Hlaw. rewrite (hubs_norm h Hh) in Hlaw.
  write_triple Hlaw. eapply unit_keeps; [exact Hlaw|]. naive_solver.
Qed.

End Effects.
End HubEffects.
