(* ===== verification/CommandFrame.v ===== *)
(** * What the services keep of a command's state

    The part of the application state access control is about, [core]: the hub
    service is coherent with the tables [tb], the session manager is the table
    [tbl], the subscription manager the relation [R].  The calls of the other
    services, the voice coordinator among them, keep it; rules for the calls
    that change it. *)

From S2P Require Import Prelude.
From S2P Require Import CStrings.
From S2P Require Import Ids.
From S2P Require Import Protocol.
From S2P Require Import PriorityQueues.
From S2P Require Import OutboundMsg.
From S2P Require Import SessionManager.
From S2P Require Import SubscriptionManager.
From S2P Require Import VoiceSessions.
From S2P Require Import HubService.
From S2P Require Import HubCoherence.
From S2P Require Import HubEffects.
From S2P Require Import External.
From S2P Require Import VoiceWorld.
From S2P Require Import VoiceStores.
From S2P Require Import ChannelKeys.
From S2P Require Import VoiceService.
From S2P Require Import VoiceFrame.
From S2P Require Import ServerEvents.
From S2P Require Import CommandUtils.
From S2P Require Import Messages.
From S2P Require Import MessageService.
From S2P Require Import UserService.
From S2P Require Import Invites.
From S2P Require Import Auth.
From S2P Require Import AppWorld.
From S2P Require Import SessionCommands.

From stdpp Require Import sorting.

Import HubCoherence HubEffects.

(** Profiles and messages are in tables of their own: the calls on them keep
    hubs, channels and members. *)
Class SeparateTables (D : Type) `{HubRepoLaws D} `{UserRepo D} `{MessageRepo D} := {
  sep_getUser u d : tables (repo_getUser u d).2 = tables d;
  sep_getUsersByIds us d : tables (repo_getUsersByIds us d).2 = tables d;
  sep_updateUserProfile u n dn s d : tables (repo_updateUserProfile u n dn s d).2 = tables d;
  sep_fetchMessages c n d : tables (repo_fetchMessages c n d).2 = tables d;
  sep_fetchMessagesAfter c m n d : tables (repo_fetchMessagesAfter c m n d).2 = tables d;
  sep_fetchMessagesBefore c m n d : tables (repo_fetchMessagesBefore c m n d).2 = tables d;
  sep_sendMessage c u t ats lp d : tables (repo_sendMessage c u t ats lp d).2 = tables d
}.

Section Frame.
Context {X D : Type} {EXT : External X} {UN : Uniform} {JL : JsonLib} {CR : Crypto} {JW : JwtLib}
  {HR : HubRepo D} {HL : HubRepoLaws D} {UR : UserRepo D} {MR : MessageRepo D} {DE : DbErrors D}
  {SEP : SeparateTables D}.
Variable sv : Services.
Variable Hs : gset HubId.
Hypothesis hash_inj : forall h h', h ∈ Hs -> h' ∈ Hs -> hash_hub sv h = hash_hub sv h' -> h = h'.
Hypothesis hubs_known : forall d : D, dom (tb_hubs (tables d)) ⊆ Hs.
Hypothesis hubs_norm : forall h, h ∈ Hs -> norm_hub h = h.

Abbreviation C := (M X D).
Abbreviation hash := (hash_hub sv).

Definition wcore (tb : Tables) (tbl : Session.Table) (R : Subscription.Rel) (w : World X D) : Prop :=
  at_ hash tb (hubs w) /\ Session.repr (session_manager_ w) tbl /\
  Subscription.repr (subscription_manager_ w) R.

Definition core (tb : Tables) (tbl : Session.Table) (R : Subscription.Rel) (a : App X D) : Prop :=
  wcore tb tbl R (voice a).

(** ** Services outside the core *)

Section Keep.
Context (tb : Tables) (tbl : Session.Table) (R : Subscription.Rel).

Abbreviation kept := (ex_preserves (core tb tbl R)).

Lemma at_same_tables s d : at_ hash tb s -> tables d = tables (HubService.db s) ->
  at_ hash tb (HubService.mk (HubService.cache_ s) (HubService.channel_cache_ s) d).
Proof using. intros [<- [H1 H2]] Hd. split; [done|]. by split. Qed.

Lemma wcore_frame w w' : VoiceFrame.same_core w w' -> wcore tb tbl R w -> wcore tb tbl R w'.
Proof using.
  intros (_ & Hm & _ & _ & Hsub & Hh) (Hat & Hs' & HR'). unfold wcore. rewrite Hm, Hsub.
  split; [|done]. destruct Hh as [|c]; [done|].
  pose proof (getChannel_at hash tb c (hubs w) Hat) as Hc.
  by destruct (HubService.getChannel c (hubs w)) as [[r|] s']; [destruct Hc|].
Qed.

Lemma kept_voice {A} (m : EX (World X D) A) :
  ex_preserves (wcore tb tbl R) m -> kept (on_voice m).
Proof using.
  intros Hm a Ha. unfold on_voice, core in *. specialize (Hm _ Ha).
  by destruct (m (voice a)) as [r w].
Qed.

Ltac voice lem :=
  apply kept_voice; eapply lem; eauto using wcore_frame;
    try (by intros); try (by instantiate (1 := fun _ => True));
    try (instantiate (1 := fun _ => True); by intros).

Lemma kept_join_voice c u s n : kept (on_voice (VoiceService.join_voice (voice_cfg sv) c u s n)).
Proof using. voice @VoiceFrame.keeps_join_voice. Qed.
Lemma kept_verified_kick c u : kept (on_voice (VoiceService.verified_kick_user (voice_cfg sv) c u)).
Proof using. voice @VoiceFrame.keeps_verified_kick. Qed.
Lemma kept_takeover c : kept (on_voice (VoiceService.mark_channel_takeover (voice_cfg sv) c)).
Proof using. voice @VoiceFrame.keeps_takeover. Qed.
Lemma kept_destroyed u : kept (on_voice (VoiceService.on_session_destroyed u)).
Proof using. voice @VoiceFrame.keeps_destroyed. Qed.
Lemma kept_try_resume u h c r s :
  kept (on_voice (VoiceService.try_resume_voice_ownership u h c r s)).
Proof using.
  apply kept_voice. apply (VoiceFrame.keeps_try_resume _ (fun _ => True) (fun _ => True));
    eauto using wcore_frame.
Qed.
Lemma kept_resync u : kept (on_voice (VoiceService.resync_voice_key_for_user u)).
Proof using. voice @VoiceFrame.keeps_resync. Qed.

Lemma kept_read_resume u : kept (on_voice (Resume.read u)).
Proof using. apply kept_voice. by intros w Hw. Qed.
Lemma kept_voice_sessions {A} (f : VoiceSessions.t -> A * VoiceSessions.t) :
  kept (on_voice_sessions f).
Proof using. apply kept_voice. intros w Hw. unfold on_sessions. by destruct (f (sessions_ w)). Qed.
Lemma kept_world {A} (m : ST X A) : kept (on_world m).
Proof using. apply kept_voice. intros w Hw. unfold on_ext. by destruct (m (ext w)). Qed.
Lemma kept_log e : kept (log_audit e).
Proof using. by intros a Ha. Qed.
Lemma kept_action cat ty conn actor target hub channel md :
  kept (log_action cat ty conn actor target hub channel md).
Proof using. by intros a Ha. Qed.
Lemma kept_push e : kept (push_event e).
Proof using. by intros a Ha. Qed.

Lemma kept_catch_what {A} (m : C A) (h : string -> C A) :
  kept m -> (forall w, kept (h w)) -> kept (catch_what m h).
Proof using.
  intros Hm Hh a Ha. specialize (Hm a Ha). unfold catch_what.
  destruct (m a) as [[r|] a']; [done|]. by apply Hh.
Qed.

Lemma kept_user {A} (m : EX (UserService.t D) A) :
  (forall s, tables (UserService.db (m s).2) = tables (UserService.db s)) -> kept (user_service m).
Proof using.
  intros Hm a (Hat & Hs' & HR'). unfold user_service.
  specialize (Hm (UserService.mk (user_cache a) (HubService.db (hubs (voice a))))).
  destruct (m _) as [r u]. simpl in *. split; [|done]. simpl. by apply at_same_tables.
Qed.

Lemma kept_message {A} (m : ST (MessageService.t X D) A) :
  (forall s, tables (MessageService.ms_db (m s).2) = tables (MessageService.ms_db s)) ->
  kept (message_service m).
Proof using.
  intros Hm a (Hat & Hs' & HR'). unfold message_service.
  specialize (Hm (MessageService.mk (async_writer a) (HubService.db (hubs (voice a)))
                    (ext (voice a)))).
  destruct (m _) as [r s]. simpl in *. split; [|done]. simpl. by apply at_same_tables.
Qed.

(** *** The user service *)

Definition utables (d : Tables) (s : UserService.t D) : Prop := tables (UserService.db s) = d.

Lemma user_repo_tables {A} (m : EX D A) d :
  (forall x, tables (m x).2 = tables x) -> ex_preserves (utables d) (UserService.repo m).
Proof using.
  intros Hm s Hs'. unfold utables, UserService.repo in *. specialize (Hm (UserService.db s)).
  destruct (m (UserService.db s)). simpl in *. congruence.
Qed.

Lemma kept_user_inv {A} (m : EX (UserService.t D) A) :
  (forall d, ex_preserves (utables d) m) -> kept (user_service m).
Proof using. intros Hm. apply kept_user. intros s. by apply (Hm _ s). Qed.

Lemma kept_getUser u : kept (user_service (UserService.getUser (hash_user sv) u)).
Proof using SEP.
  apply kept_user_inv. intros d. unfold UserService.getUser. ex_split; try (by intros s Hs').
  apply user_repo_tables, sep_getUser.
Qed.
Lemma kept_getUsersByIds us : kept (user_service (UserService.getUsersByIds (hash_user sv) us)).
Proof using SEP.
  apply kept_user_inv. intros d. unfold UserService.getUsersByIds. ex_split; try (by intros s Hs').
  apply user_repo_tables, sep_getUsersByIds.
Qed.
Lemma kept_updateProfile u n dn seed :
  kept (user_service (UserService.updateProfile (hash_user sv) u n dn seed)).
Proof using SEP.
  apply kept_user_inv. intros d s Hs'. unfold UserService.updateProfile.
  pose proof (user_repo_tables _ d (sep_updateUserProfile u n dn seed) s Hs') as Hr.
  by destruct (UserService.repo _ s) as [[r|] s'].
Qed.

(** *** The message service *)

Lemma guarded_tables {A} (m : EX D A) (s : MessageService.t X D) :
  (forall d, tables (m d).2 = tables d) ->
  tables (MessageService.ms_db (MessageService.guarded m s).2) = tables (MessageService.ms_db s).
Proof using.
  intros Hm. unfold MessageService.guarded. specialize (Hm (MessageService.ms_db s)).
  by destruct (m (MessageService.ms_db s)) as [[r|] d].
Qed.

Lemma kept_fetch c n : kept (message_service (MessageService.fetchMessages c n)).
Proof using SEP. apply kept_message. intros s. apply guarded_tables, sep_fetchMessages. Qed.
Lemma kept_fetch_after c m n : kept (message_service (MessageService.fetchMessagesAfter c m n)).
Proof using SEP. apply kept_message. intros s. apply guarded_tables, sep_fetchMessagesAfter. Qed.
Lemma kept_fetch_before c m n : kept (message_service (MessageService.fetchMessagesBefore c m n)).
Proof using SEP. apply kept_message. intros s. apply guarded_tables, sep_fetchMessagesBefore. Qed.
Lemma kept_send c u t ats lp : kept (message_service (MessageService.sendMessage c u t ats lp)).
Proof using SEP.
  apply kept_message. intros s. unfold MessageService.sendMessage.
  destruct (MessageService.async_writer_ s) as [w|].
  - destruct (Uuid.generate_uuid_v4 _) as [id x1]. destruct (MessageService.now_unix_us _) as [now x2].
    by destruct (Writer.enqueue _ _) as [[] w'].
  - apply guarded_tables, sep_sendMessage.
Qed.

(** *** The hub service *)

(** A read of the hub service answers [phi]. *)
Definition answers {A} (m : EX (HubService.t (D := D)) A) (phi : A -> Prop) : Prop :=
  ex_triple (at_ hash tb) m (fun r s => at_ hash tb s /\ phi r) (at_ hash tb).

Lemma answers_keep {A} (m : EX (HubService.t (D := D)) A) :
  ex_triple (at_ hash tb) m (fun _ => at_ hash tb) (at_ hash tb) -> answers m (fun _ => True).
Proof using. intros Hm. eapply ex_triple_conseq; [exact Hm|done|done|done]. Qed.

Lemma read_triple {A} (m : EX (HubService.t (D := D)) A) phi : answers m phi ->
  ex_triple (core tb tbl R) (hub_service m) (fun r a => core tb tbl R a /\ phi r) (core tb tbl R).
Proof using.
  intros Hm a (Hat & Hs' & HR'). unfold hub_service, on_voice, on_hubs.
  specialize (Hm _ Hat). destruct (m (hubs (voice a))) as [[r|] s]; simpl.
  - destruct Hm as [Hat' Hphi]. done.
  - done.
Qed.

Lemma kept_hub {A} (m : EX (HubService.t (D := D)) A) phi : answers m phi -> kept (hub_service m).
Proof using.
  intros Hm a Ha. pose proof (read_triple m phi Hm a Ha) as Ht.
  by destruct (hub_service m a) as [[r|] a']; [destruct Ht|].
Qed.

Lemma answers_role h u : h ∈ Hs ->
  answers (HubService.getMembershipRole hash h u) (fun r => r = role_in tb h u).
Proof using hash_inj hubs_known hubs_norm. intros. by eapply role_at. Qed.
Lemma answers_member h u : h ∈ Hs ->
  answers (HubService.isHubMember hash h u) (fun b => b = bool_decide (is_Some (role_in tb h u))).
Proof using hash_inj hubs_known hubs_norm. intros. by eapply is_member_at. Qed.
Lemma answers_channel_ids h : h ∈ Hs ->
  answers (HubService.getHubChannelIds hash h) (fun r => r = channels_in tb h).
Proof using hash_inj hubs_known hubs_norm. intros. by eapply channel_ids_at. Qed.
Lemma answers_hub h : h ∈ Hs ->
  answers (HubService.getHub hash h) (fun r => is_Some r <-> is_Some (tb_hubs tb !! h)).
Proof using hash_inj hubs_known hubs_norm. intros. by eapply hub_at. Qed.
Lemma answers_channel c :
  answers (HubService.getChannel c) (fun r => r = tb_channels tb !! norm_channel c).
Proof using. apply getChannel_at. Qed.

(** ** The snapshots *)

Hypothesis rows_known : dom (tb_hubs tb) ⊆ Hs.

Lemma row_known hub : shows_row tb hub -> hub_id hub ∈ Hs.
Proof using rows_known. intros (row & Hrow & _). apply rows_known, elem_of_dom. eauto. Qed.

Lemma collect_triple hubs : (forall hub, hub ∈ hubs -> shows_row tb hub) ->
  ex_triple (core tb tbl R) (collect_hub_inputs sv hubs)
    (fun inputs a => core tb tbl R a /\ Forall2 (fun hub i => in_hub i = hub) hubs inputs)
    (core tb tbl R).
Proof using hash_inj hubs_known hubs_norm rows_known.
  intros Hrows. unfold collect_hub_inputs. destruct hubs as [|h hubs]; [by apply ex_triple_ret|].
  apply ex_triple_skip; [|intros _|done].
  - eapply kept_hub, answers_keep, warm_at. exact Hrows.
  - apply ex_triple_map. intros hub Hin. eapply ex_triple_bind.
    + eapply read_triple. by eapply (topology_at hash Hs); eauto using row_known.
    + intros top. apply ex_triple_pure. intros _. by apply ex_triple_ret.
Qed.

Definition sync_ids (sync : StateSync) : list string := map (fun h => ph_id (hs_hub h)) (ss_hubs sync).

Lemma sync_triple self hubs inputs : Forall2 (fun hub i => in_hub i = hub) hubs inputs ->
  ex_triple (core tb tbl R) (sync_of_inputs sv self inputs)
    (fun sync a => core tb tbl R a /\ sync_ids sync = map (fun hub => hub_value (hub_id hub)) hubs)
    (core tb tbl R).
Proof using SEP.
  intros Hin. unfold sync_of_inputs. apply ex_triple_skip; [apply kept_getUsersByIds|intros us|done].
  apply ex_triple_skip; [eapply kept_hub, answers_keep, getChannelsByIds_at|intros cs|done].
  apply ex_triple_read. intros a0 _. apply ex_triple_ret. intros a [Ha _]. split; [done|].
  unfold sync_ids. simpl. rewrite map_map. simpl. clear -Hin. by induction Hin; simpl; subst; f_equal.
Qed.

Lemma sync_user_triple u :
  ex_triple (core tb tbl R) (build_state_sync_for_user sv u)
    (fun sync a => core tb tbl R a /\ forall s, s ∈ sync_ids sync ->
       is_Some (role_in tb (mkHubId s) (norm_user u)) ) (core tb tbl R).
Proof using hash_inj hubs_known hubs_norm rows_known SEP.
  unfold build_state_sync_for_user, populate_self_user.
  apply ex_triple_skip; [apply ex_preserves_bind; [apply kept_getUser|intros ?; by intros ? ?]| |done].
  intros self. eapply ex_triple_bind; [eapply read_triple, user_hubs_at|]. intros hubs.
  apply ex_triple_pure. intros Hh.
  eapply ex_triple_bind; [apply collect_triple; intros; by apply Hh|]. intros inputs.
  apply ex_triple_pure. intros Hin. eapply ex_triple_conseq; [by eapply sync_triple|done| |done].
  intros sync a [Ha ->]. split; [done|]. intros s (hub & -> & Hhub)%list_elem_of_fmap.
  by destruct (Hh hub Hhub) as [Hr _]; destruct (hub_id hub).
Qed.

Lemma kept_sync_user u : kept (build_state_sync_for_user sv u).
Proof using hash_inj hubs_known hubs_norm rows_known SEP.
  intros a Ha. pose proof (sync_user_triple u a Ha) as Ht.
  by destruct (build_state_sync_for_user sv u a) as [[r|] a']; [destruct Ht|].
Qed.

Lemma kept_sync_requested u req : req ⊆ Hs -> kept (build_state_sync_for_requested_hubs sv u req).
Proof using hash_inj hubs_known hubs_norm rows_known SEP.
  intros Hreq a Ha.
  assert (Ht : ex_triple (core tb tbl R) (build_state_sync_for_requested_hubs sv u req)
    (fun _ => core tb tbl R) (core tb tbl R)).
  2:{ specialize (Ht a Ha). by destruct (build_state_sync_for_requested_hubs sv u req a) as [[r|] a']. }
  unfold build_state_sync_for_requested_hubs, populate_self_user.
  apply ex_triple_skip; [apply ex_preserves_bind; [apply kept_getUser|intros ?; by intros ? ?]| |done].
  intros self. case_bool_decide; [by apply ex_triple_ret|].
  apply ex_triple_skip; [| |done].
  { apply ex_preserves_filter. intros h Hh. apply ex_preserves_bind; [|intros; by intros ? ?].
    eapply kept_hub, answers_role, Hreq. rewrite merge_sort_Permutation in Hh. by apply elem_of_elements. }
  intros ids. eapply ex_triple_bind; [eapply read_triple, hubs_by_ids_at|]. intros m.
  apply ex_triple_pure. intros Hm. eapply ex_triple_bind.
  { apply collect_triple. intros hub (h & _ & Hl)%list_elem_of_omap. by eapply Hm. }
  intros inputs. apply ex_triple_pure. intros Hin.
  eapply ex_triple_conseq; [by eapply sync_triple|done| |done]. by intros ? ? [].
Qed.

End Keep.
End Frame.
