(* ===== verification/CommandPolicy.v ===== *)
(** * The access policy the commands implement

    [policy]: what a connection of user [u] may do to the tables and to the
    subscriptions, as one relation with a rule per kind of change and the role
    each needs.  [allowed]: a command refines the policy, when it returns and,
    for the tables, also when it throws.  One lemma per command. *)

From S2P Require Import Prelude.
From S2P Require Import CStrings.
From S2P Require Import Ids.
From S2P Require Import Protocol.
From S2P Require Import PriorityQueues.
From S2P Require Import OutboundMsg.
From S2P Require Import SessionManager.
From S2P Require Import SubscriptionManager.
From S2P Require Import VoiceSessions.
From S2P Require Import HubService.
From S2P Require Import HubCoherence.
From S2P Require Import HubEffects.
From S2P Require Import External.
From S2P Require Import VoiceWorld.
From S2P Require Import VoiceStores.
From S2P Require Import VoiceService.
From S2P Require Import VoiceFrame.
From S2P Require Import ServerEvents.
From S2P Require Import CommandUtils.
From S2P Require Import Messages.
From S2P Require Import MessageService.
From S2P Require Import UserService.
From S2P Require Import Invites.
From S2P Require Import Auth.
From S2P Require Import AppWorld.
From S2P Require Import SessionCommands.
From S2P Require Import HubCommands.
From S2P Require Import ChannelCommands.
From S2P Require Import ActivityCommands.
From S2P Require Import CommandFrame.

Import HubCoherence HubEffects.

(** ** Changes of the subscriptions *)

Abbreviation Rel := Subscription.Rel.

Definition connected (tbl : Session.Table) (u : UserId) : gset GlobalConnId :=
  dom (filter (fun p : GlobalConnId * (UserId * Z) => p.2.1 = u) tbl).

Definition subscribed (conns : gset GlobalConnId) (tp : Topic.t) (R : Rel) : Rel :=
  set_map (fun c => (c, tp)) conns ∪ R.

Definition hub_topics (h : HubId) (cs : list ChannelId) : list Topic.t :=
  Topic.HubTopic h :: (Topic.ChannelTopic h <$> cs).

Definition unsubscribed (conns : gset GlobalConnId) (tps : list Topic.t) (R : Rel) : Rel :=
  filter (fun p : GlobalConnId * Topic.t => ~ (p.1 ∈ conns /\ p.2 ∈ tps)) R.

Definition without_topics (tps : list Topic.t) (R : Rel) : Rel :=
  filter (fun p : GlobalConnId * Topic.t => p.2 ∉ tps) R.

(** ** The policy *)

Section Policy.
Context {D : Type} {HR : HubRepo D} {HL : HubRepoLaws D}.
(** The connection, its user and the sessions. *)
Context (conn : GlobalConnId) (u : UserId) (tbl : Session.Table).

Definition may_manage (r : Role) : Prop := r = OWNER \/ r = ADMIN.

(** Only the hub's own row differs. *)
Definition hub_renamed (h : HubId) (tb tb' : Tables) : Prop :=
  only_hub_changed h tb tb' /\ same_roster tb tb' h /\ tb_channels tb' = tb_channels tb.

Inductive policy (tb : Tables) (R : Rel) : Tables -> Rel -> Prop :=
  | may_nothing tb' :
      same_hubs tb tb' -> tb_channels tb' = tb_channels tb -> policy tb R tb' R
  | may_create_hub hub tb1 tb' :
      hub_created u tb hub tb1 ->
      tb' = tb1 \/ (exists c, channel_created (hub_id hub) "general" CHAT tb1 c tb') ->
      policy tb R tb' (subscribed (connected tbl u) (Topic.HubTopic (hub_id hub)) R)
  | may_join h tb' :
      is_Some (tb_hubs tb !! h) -> role_in tb h u = None ->
      members_changed h <[norm_user u := USER]> tb tt tb' ->
      policy tb R tb' (subscribed (connected tbl u) (Topic.HubTopic h) R)
  | may_rejoin h :
      is_Some (role_in tb h u) ->
      policy tb R tb (subscribed (connected tbl u) (Topic.HubTopic h) R)
  | may_leave h r tb' :
      role_in tb h u = Some r -> r <> OWNER ->
      members_changed h (delete u) tb tt tb' ->
      policy tb R tb' (unsubscribed (connected tbl u) (hub_topics h (order_of tb h)) R)
  | may_kick h target ra rt tb' :
      role_in tb h u = Some ra -> role_in tb h target = Some rt ->
      RolePolicy.canKickHubMember ra rt u target = true ->
      members_changed h (delete target) tb tt tb' ->
      policy tb R tb' (unsubscribed (connected tbl target) (hub_topics h (order_of tb h)) R)
  | may_change_role h target ra rt r tb' :
      role_in tb h u = Some ra -> role_in tb h target = Some rt ->
      RolePolicy.canChangeMemberRole ra rt r u target = true ->
      members_changed h <[target := r]> tb tt tb' ->
      policy tb R tb' R
  | may_update_hub h r tb' :
      role_in tb h u = Some r -> may_manage r -> hub_renamed h tb tb' ->
      policy tb R tb' R
  | may_delete_hub h tb' :
      role_in tb h u = Some OWNER -> hub_deleted h tb true tb' ->
      policy tb R tb' (without_topics (hub_topics h (order_of tb h)) R)
  | may_create_channel h r n ty c tb' :
      role_in tb h u = Some r -> may_manage r -> (length (order_of tb h) < 3)%nat ->
      channel_created h n ty tb c tb' ->
      policy tb R tb' R
  | may_rename_channel c ch r n tb' :
      tb_channels tb !! c = Some ch -> role_in tb (ch_hub_id ch) u = Some r -> may_manage r ->
      channel_renamed c n tb true tb' ->
      policy tb R tb' R
  | may_delete_channel c ch tb' :
      tb_channels tb !! c = Some ch -> role_in tb (ch_hub_id ch) u = Some OWNER ->
      channel_deleted c (ch_hub_id ch) tb true tb' ->
      policy tb R tb' (without_topics [Topic.ChannelTopic (ch_hub_id ch) c] R)
  | may_select c ch :
      tb_channels tb !! c = Some ch -> ch_type ch = CHAT -> is_Some (role_in tb (ch_hub_id ch) u) ->
      policy tb R tb (subscribed {[conn]} (Topic.ChannelTopic (ch_hub_id ch) c) R).

Lemma policy_refl tb R : policy tb R tb R.
Proof. by apply may_nothing. Qed.

End Policy.

(** ** Rules *)

Section Rules.
Context {X D : Type} {EXT : External X} {UN : Uniform} {JL : JsonLib} {CR : Crypto} {JW : JwtLib}
  {HR : HubRepo D} {HL : HubRepoLaws D} {UR : UserRepo D} {MR : MessageRepo D} {DE : DbErrors D}
  {SEP : SeparateTables D}.
Variable sv : Services.

Abbreviation C := (M X D).
Abbreviation core := (core (X := X) sv).

(** *** Reading the managers *)

Lemma core_session tb tbl R (a : App X D) conn :
  core tb tbl R a -> session_of conn a = fst <$> tbl !! conn.
Proof.
  intros (_ & Hs & _). unfold session_of, Session.sessionOfConnection, sessions.
  rewrite (Session.r_conn _ _ Hs). by destruct (tbl !! conn).
Qed.

Lemma core_session_id tb tbl R (a : App X D) conn :
  core tb tbl R a -> session_id_of conn a = snd <$> tbl !! conn.
Proof.
  intros (_ & Hs & _). unfold session_id_of, Session.sessionIdOfConnection, sessions.
  rewrite (Session.r_sid _ _ Hs). by destruct (tbl !! conn).
Qed.

Lemma connected_elem tbl u c : c ∈ connected tbl u <-> exists s, tbl !! c = Some (u, s).
Proof.
  unfold connected. rewrite elem_of_dom. split.
  - intros [[u' s] [Hl Hu]%map_lookup_filter_Some]. simpl in Hu. subst. eauto.
  - intros [s Hs]. exists (u, s). by apply map_lookup_filter_Some.
Qed.

Lemma core_connections tb tbl R (a : App X D) u :
  core tb tbl R a -> list_to_set (Session.getSessionConnections (sessions a) u) = connected tbl u.
Proof.
  intros (_ & Hs & _). apply set_eq. intros c.
  by rewrite elem_of_list_to_set, (Session.repr_user_conns _ _ _ _ Hs), connected_elem.
Qed.

Lemma core_self_conns tb tbl R (a : App X D) conn u s :
  core tb tbl R a -> tbl !! conn = Some (u, s) ->
  list_to_set (self_conns_or conn u a) = connected tbl u.
Proof.
  intros Ha Hc. rewrite <- (core_connections _ _ _ _ _ Ha). unfold self_conns_or.
  pose proof (core_connections _ _ _ _ u Ha) as He.
  destruct (Session.getSessionConnections (sessions a) u) as [|c cs]; [|done].
  assert (Hin : conn ∈ connected tbl u) by (apply connected_elem; eauto).
  rewrite <- He in Hin. simpl in Hin. set_solver.
Qed.

Lemma core_subscribers tb tbl R (a : App X D) tp c :
  core tb tbl R a -> c ∈ subscribers tp a <-> (c, tp) ∈ R.
Proof. intros (_ & _ & Hr). apply (Subscription.rp_subs _ _ Hr). Qed.

(** *** Steps of a command *)

Section Steps.
Context (tb : Tables) (tbl : Session.Table) (R : Rel).

Lemma bind_session {A} conn u s (k : option UserId -> C A) Q E :
  tbl !! conn = Some (u, s) -> ex_triple (core tb tbl R) (k (Some u)) Q E ->
  ex_triple (core tb tbl R) (ex_bind (ex_gets (session_of conn)) k) Q E.
Proof.
  intros Hc Hk a Ha. unfold ex_bind. simpl. rewrite (core_session _ _ _ _ _ Ha), Hc. by apply Hk.
Qed.

Lemma bind_session_id {A} conn u s (k : option Z -> C A) Q E :
  tbl !! conn = Some (u, s) -> ex_triple (core tb tbl R) (k (Some s)) Q E ->
  ex_triple (core tb tbl R) (ex_bind (ex_gets (session_id_of conn)) k) Q E.
Proof.
  intros Hc Hk a Ha. unfold ex_bind. simpl. rewrite (core_session_id _ _ _ _ _ Ha), Hc. by apply Hk.
Qed.

Lemma bind_gets {A B} (f : App X D -> A) (k : A -> C B) Q E :
  (forall a, core tb tbl R a -> ex_triple (core tb tbl R) (k (f a)) Q E) ->
  ex_triple (core tb tbl R) (ex_bind (ex_gets f) k) Q E.
Proof. intros Hk a Ha. exact (Hk a Ha a Ha). Qed.

Lemma bind_read {A B} (m : EX (HubService.t (D := D)) A) phi (k : A -> C B) Q (E : App X D -> Prop) :
  answers sv tb m phi -> (forall r, phi r -> ex_triple (core tb tbl R) (k r) Q E) ->
  (forall a, core tb tbl R a -> E a) ->
  ex_triple (core tb tbl R) (ex_bind (hub_service m) k) Q E.
Proof.
  intros Hm Hk HE. eapply ex_triple_bind.
  - eapply ex_triple_conseq; [by eapply read_triple|done|intros r a Hr; exact Hr|exact HE].
  - intros r. apply ex_triple_pure, Hk.
Qed.

Lemma write_triple {A} (m : EX (HubService.t (D := D)) A) P :
  does (hash_hub sv) m P ->
  ex_triple (core tb tbl R) (hub_service m)
    (fun r a => exists tb', core tb' tbl R a /\ P tb r tb') (core tb tbl R).
Proof.
  intros Hm a (Hat & Hs' & HR'). unfold hub_service, on_voice, on_hubs.
  specialize (Hm tb _ Hat). destruct (m (hubs (voice a))) as [[r|] s]; simpl.
  - destruct Hm as (tb' & Hat' & HP). by exists tb'.
  - done.
Qed.

Lemma bind_write {A B} (m : EX (HubService.t (D := D)) A) P (k : A -> C B) Q (E : App X D -> Prop) :
  does (hash_hub sv) m P ->
  (forall r tb', P tb r tb' -> ex_triple (core tb' tbl R) (k r) Q E) ->
  (forall a, core tb tbl R a -> E a) ->
  ex_triple (core tb tbl R) (ex_bind (hub_service m) k) Q E.
Proof.
  intros Hm Hk HE. eapply ex_triple_bind.
  - eapply ex_triple_conseq; [by eapply write_triple|done|intros r a Hr; exact Hr|exact HE].
  - intros r. apply ex_triple_ex. intros tb' HP. by apply Hk.
Qed.

Lemma bind_keep {A B} (m : C A) (k : A -> C B) Q (E : App X D -> Prop) :
  ex_preserves (core tb tbl R) m -> (forall r, ex_triple (core tb tbl R) (k r) Q E) ->
  (forall a, core tb tbl R a -> E a) ->
  ex_triple (core tb tbl R) (ex_bind m k) Q E.
Proof. apply ex_triple_skip. Qed.

(** *** Changes of the managers *)

Lemma subs_triple (f : Subscription.t -> Subscription.t) o E :
  (forall s, f s = (Subscription.step s o).2) ->
  ex_triple (core tb tbl R) (on_subscriptions f)
    (fun _ => core tb tbl (Subscription.spec_step R o).2) E.
Proof.
  intros Hf a (Hat & Hs & Hr). simpl. split; [done|]. split; [done|]. simpl. rewrite Hf.
  by apply Subscription.sub_step_refines.
Qed.

Lemma subscribe_triple c tp E :
  ex_triple (core tb tbl R) (subscribe c tp) (fun _ => core tb tbl ({[(c, tp)]} ∪ R)) E.
Proof.
  apply (subs_triple _ (Subscription.OpSubscribe c tp)). intros s. simpl. by destruct (Subscription.subscribeConnection s c tp).
Qed.

Lemma unsubscribe_triple c tp E :
  ex_triple (core tb tbl R) (unsubscribe c tp) (fun _ => core tb tbl (R ∖ {[(c, tp)]})) E.
Proof.
  apply (subs_triple _ (Subscription.OpUnsubscribe c tp)). intros s. simpl.
  by destruct (Subscription.unsubscribeConnection s c tp).
Qed.

Lemma remove_topic_triple tp E :
  ex_triple (core tb tbl R)
    (on_subscriptions (fun s => Subscription.removeAllForTopic s tp))
    (fun _ => core tb tbl (without_topics [tp] R)) E.
Proof.
  eapply ex_triple_conseq; [apply (subs_triple _ (Subscription.OpRemoveTopic tp)); done|done| |done].
  intros [] a. simpl. replace (without_topics [tp] R) with
    (filter (fun p : GlobalConnId * Topic.t => p.2 ≠ tp) R); [done|].
  apply set_eq. intros p. unfold without_topics. rewrite !elem_of_filter. set_solver.
Qed.

Lemma text_channel_triple u h c E :
  ex_triple (core tb tbl R) (on_session_manager (fun sm => Session.joinTextChannel sm u h c))
    (fun _ => core tb tbl R) E.
Proof.
  intros a (Hat & Hs & Hr). simpl. split; [done|]. split; [|done]. simpl.
  by apply (Session.step_text _ (Session.OpJoinText u h c)).
Qed.

End Steps.

Lemma subscribe_for tb tbl conns tp E : forall R,
  ex_triple (core tb tbl R) (ex_for conns (fun c => subscribe c tp))
    (fun _ => core tb tbl (subscribed (list_to_set conns) tp R)) E.
Proof.
  induction conns as [|c conns IH]; intros R; simpl.
  - apply ex_triple_ret. intros a. by replace (subscribed ∅ tp R) with R by set_solver.
  - eapply ex_triple_bind; [apply subscribe_triple|]. intros [].
    eapply ex_triple_conseq; [apply IH|done| |done]. intros [] a.
    replace (subscribed ({[c]} ∪ list_to_set conns) tp R) with
      (subscribed (list_to_set conns) tp ({[(c, tp)]} ∪ R)); [done|]. set_solver.
Qed.

Lemma unsubscribe_for tb tbl c tps E : forall R,
  ex_triple (core tb tbl R) (ex_for tps (fun tp => unsubscribe c tp))
    (fun _ => core tb tbl (unsubscribed {[c]} tps R)) E.
Proof.
  induction tps as [|tp tps IH]; intros R; simpl.
  - apply ex_triple_ret. intros a. replace (unsubscribed {[c]} [] R) with R; [done|].
    apply set_eq. intros p. unfold unsubscribed. rewrite elem_of_filter. set_solver.
  - eapply ex_triple_bind; [apply unsubscribe_triple|]. intros [].
    eapply ex_triple_conseq; [apply IH|done| |done]. intros [] a.
    replace (unsubscribed {[c]} (tp :: tps) R) with (unsubscribed {[c]} tps (R ∖ {[(c, tp)]})); [done|].
    apply set_eq. intros [c' tp']. unfold unsubscribed. rewrite !elem_of_filter, elem_of_difference.
    simpl. rewrite !elem_of_singleton, elem_of_cons. naive_solver.
Qed.

Lemma ex_for_map {S A B} (f : A -> B) (body : B -> EX S unit) l :
  forall s, ex_for (f <$> l) body s = ex_for l (fun x => body (f x)) s.
Proof.
  induction l as [|x l IH]; intros s; [done|]. csimpl. unfold ex_bind.
  destruct (body (f x) s) as [[]s']; [apply IH|done].
Qed.

Lemma unsubscribe_all_triple tb tbl conns h cs E : forall R,
  ex_triple (core tb tbl R) (unsubscribe_all conns h cs)
    (fun _ => core tb tbl (unsubscribed (list_to_set conns) (hub_topics h cs) R)) E.
Proof.
  unfold unsubscribe_all. induction conns as [|c conns IH]; intros R; simpl.
  - apply ex_triple_ret. intros a. replace (unsubscribed ∅ (hub_topics h cs) R) with R; [done|].
    apply set_eq. intros p. unfold unsubscribed. rewrite elem_of_filter. set_solver.
  - eapply ex_triple_bind with (Q := fun _ => core tb tbl (unsubscribed {[c]} (hub_topics h cs) R)).
    + intros a Ha. pose proof (unsubscribe_for tb tbl c (hub_topics h cs) E R a Ha) as Ht.
      unfold hub_topics in Ht at 1. cbn [ex_for] in Ht. unfold ex_bind in *.
      destruct (unsubscribe c (Topic.HubTopic h) a) as [[]a']; [|done].
      by rewrite ex_for_map in Ht.
    + intros []. eapply ex_triple_conseq; [apply IH|done| |done]. intros [] a.
      replace (unsubscribed ({[c]} ∪ list_to_set conns) (hub_topics h cs) R) with
        (unsubscribed (list_to_set conns) (hub_topics h cs) (unsubscribed {[c]} (hub_topics h cs) R)); [done|].
      apply set_eq. intros p. unfold unsubscribed. rewrite !elem_of_filter, elem_of_union.
      rewrite elem_of_singleton. naive_solver.
Qed.

Lemma without_topics_cons tp tps R :
  without_topics (tp :: tps) R = without_topics tps (without_topics [tp] R).
Proof.
  apply set_eq. intros p. unfold without_topics. rewrite !elem_of_filter. set_solver.
Qed.

Lemma remove_topics_for tb tbl h cs E : forall R,
  ex_triple (core tb tbl R)
    (ex_for cs (fun c => on_subscriptions (fun s =>
       Subscription.removeAllForTopic s (Topic.ChannelTopic h c))))
    (fun _ => core tb tbl (without_topics (Topic.ChannelTopic h <$> cs) R)) E.
Proof.
  induction cs as [|c cs IH]; intros R; cbn [ex_for].
  - apply ex_triple_ret. intros a. change (Topic.ChannelTopic h <$> []) with (@nil Topic.t).
    replace (without_topics [] R) with R; [done|].
    apply set_eq. intros p. unfold without_topics. rewrite elem_of_filter. set_solver.
  - eapply ex_triple_bind; [apply remove_topic_triple|]. intros [].
    rewrite fmap_cons, (without_topics_cons _ (fmap _ _)). apply IH.
Qed.

(** Redis and the clocks do not throw. *)
Lemma bind_world {A B} tb tbl R (m : ST X A) (k : A -> C B) Q E :
  (forall r, ex_triple (core tb tbl R) (k r) Q E) ->
  ex_triple (core tb tbl R) (ex_bind (on_world m) k) Q E.
Proof.
  intros Hk a Ha. pose proof (kept_world sv tb tbl R m a Ha) as Hw.
  unfold ex_bind, on_world, on_voice, on_ext in *. destruct (m (ext (voice a))) as [r x].
  by apply Hk.
Qed.

(** Logging does not throw. *)
Lemma bind_action {B} tb tbl R cat ty conn actor target hub channel md (k : unit -> C B) Q E :
  ex_triple (core tb tbl R) (k tt) Q E ->
  ex_triple (core tb tbl R)
    (ex_bind (log_action cat ty conn actor target hub channel md) k) Q E.
Proof. intros Hk a Ha. by apply (Hk (_ a)). Qed.

Lemma catch_what_triple {A} P (m : C A) (h : string -> C A) Q E1 E :
  ex_triple P m Q E1 -> (forall w, ex_triple E1 (h w) Q E) -> ex_triple P (catch_what m h) Q E.
Proof.
  intros Hm Hh a Ha. specialize (Hm a Ha). unfold catch_what.
  destruct (m a) as [[r|] a']; [done|]. by apply Hh.
Qed.

End Rules.
