(* ===== verification/CommandProofs.v ===== *)
(** * The commands refine the access policy

    One lemma per command of the dispatch table, from the triples of the
    services it calls. *)

From S2P Require Import Prelude.
From S2P Require Import CStrings.
From S2P Require Import Ids.
From S2P Require Import Protocol.
From S2P Require Import PriorityQueues.
From S2P Require Import OutboundMsg.
From S2P Require Import SessionManager.
From S2P Require Import SubscriptionManager.
From S2P Require Import VoiceSessions.
From S2P Require Import HubService.
From S2P Require Import HubCoherence.
From S2P Require Import HubEffects.
From S2P Require Import External.
From S2P Require Import VoiceWorld.
From S2P Require Import VoiceStores.
From S2P Require Import VoiceService.
From S2P Require Import VoiceFrame.
From S2P Require Import ServerEvents.
From S2P Require Import CommandUtils.
From S2P Require Import Messages.
From S2P Require Import MessageService.
From S2P Require Import UserService.
From S2P Require Import Invites.
From S2P Require Import Auth.
From S2P Require Import AppWorld.
From S2P Require Import SessionCommands.
From S2P Require Import HubCommands.
From S2P Require Import ChannelCommands.
From S2P Require Import ActivityCommands.
From S2P Require Import CommandFrame.
From S2P Require Import CommandPolicy.

Import HubCoherence HubEffects Utils.

Section Commands.
Context {X D : Type} {EXT : External X} {UN : Uniform} {JL : JsonLib} {CR : Crypto} {JW : JwtLib}
  {HR : HubRepo D} {HL : HubRepoLaws D} {UR : UserRepo D} {MR : MessageRepo D} {DE : DbErrors D}
  {SEP : SeparateTables D}.
Variable sv : Services.
Variable Hs : gset HubId.
Hypothesis hash_inj : forall h h', h ∈ Hs -> h' ∈ Hs -> hash_hub sv h = hash_hub sv h' -> h = h'.
Hypothesis hubs_known : forall d : D, dom (tb_hubs (tables d)) ⊆ Hs.
Hypothesis hubs_norm : forall h, h ∈ Hs -> norm_hub h = h.

Abbreviation C := (M X D).
Abbreviation core := (core (X := X) sv).

Lemma core_known tb tbl R a : core tb tbl R a -> dom (tb_hubs tb) ⊆ Hs.
Proof. intros ([<- _] & _). apply hubs_known. Qed.

Lemma core_tables tb tbl R a : core tb tbl R a -> tables_ok tb.
Proof. intros ([<- _] & _). apply law_tables. Qed.

(** A channel reference that names a hub in play and a canonical channel. *)
Definition ref_ok (ref : ChannelRef) : Prop :=
  forall sc, to_channel_scope ref = Some sc ->
    scope_hub sc ∈ Hs /\ norm_channel (scope_channel sc) = scope_channel sc.

Section Command.
Context (conn : GlobalConnId) (u : UserId) (s : Z) (tb : Tables) (tbl : Session.Table) (R : Rel).
Hypothesis Hconn : tbl !! conn = Some (u, s).
Hypothesis Hcanon : norm_user u = u.
Hypothesis rows_known : dom (tb_hubs tb) ⊆ Hs.
Hypothesis rows_ok : tables_ok tb.

Abbreviation kept := (ex_preserves (core tb tbl R)).

(** A command that returns has made a step of the policy. *)
Definition returned (a : App X D) : Prop :=
  exists tb' R', core tb' tbl R' a /\ policy conn u tbl tb R tb' R'.
(** One that throws has made at most the step's change of the tables. *)
Definition thrown (a : App X D) : Prop :=
  exists tb' R', core tb' tbl R' a /\ exists R1, policy conn u tbl tb R tb' R1.
Definition allowed (m : C Out) : Prop := ex_triple (core tb tbl R) m (fun _ => returned) thrown.

Lemma returned_same a : core tb tbl R a -> returned a.
Proof. intros Ha. exists tb, R. split; [done|apply policy_refl]. Qed.
Lemma thrown_same a : core tb tbl R a -> thrown a.
Proof. intros Ha. exists tb, R. split; [done|]. exists R. apply policy_refl. Qed.
Lemma thrown_step a tb' R' R1 : policy conn u tbl tb R tb' R1 -> core tb' tbl R' a -> thrown a.
Proof. intros Hp Ha. exists tb', R'. eauto. Qed.

Lemma allowed_kept m : kept m -> allowed m.
Proof.
  intros Hm. eapply ex_triple_conseq; [by apply ex_triple_keeps|done| |];
    simpl; eauto using returned_same, thrown_same.
Qed.

Hint Resolve returned_same thrown_same : core.

(** *** Calls that keep the core *)

Lemma kept_role h v : h ∈ Hs ->
  kept (hub_service (HubService.getMembershipRole (hash_hub sv) h v)).
Proof. intros. eapply kept_hub. by eapply answers_role. Qed.
Lemma kept_member h v : h ∈ Hs -> kept (hub_service (HubService.isHubMember (hash_hub sv) h v)).
Proof. intros. eapply kept_hub. by eapply answers_member. Qed.
Lemma kept_channel c : kept (hub_service (HubService.getChannel c)).
Proof. eapply kept_hub. apply answers_channel. Qed.
Lemma kept_get_hub h : kept (hub_service (HubService.getHub (hash_hub sv) h)).
Proof.
  eapply (kept_hub _ _ _ _ _ (fun _ => True)), answers_keep. intros t Ht.
  unfold HubService.getHub, ex_bind. simpl.
  destruct (HubService.cache_get (hash_hub sv) t h); [done|].
  pose proof (read_at (hash_hub sv) _ _ tb (law_getHub h) t Ht) as Hr.
  by destruct (HubService.repo (repo_getHub h) t) as [[r|] t']; [destruct Hr|].
Qed.
Lemma kept_user_hubs v : kept (hub_service (HubService.getUserHubs v)).
Proof. eapply kept_hub. apply user_hubs_at. Qed.
Lemma kept_in_hub sc : kept (channel_in_hub sc).
Proof. unfold channel_in_hub. ex_split. apply kept_channel. Qed.
Lemma kept_resolve ty v token : kept (resolve_code conn ty v token).
Proof. unfold resolve_code. ex_split; [apply kept_world|apply kept_action]. Qed.

Lemma kept_map {A B} (f : A -> C B) l : (forall x, kept (f x)) -> kept (ex_map f l).
Proof. intros Hf. induction l; simpl; ex_split; auto. Qed.

Ltac keep :=
  ex_split;
  try solve [ apply kept_world | apply kept_log | apply kept_action | apply kept_push
            | apply kept_getUser | apply kept_getUsersByIds | apply kept_updateProfile
            | apply kept_fetch | apply kept_fetch_after | apply kept_fetch_before | apply kept_send
            | apply kept_voice_sessions | apply kept_read_resume | apply kept_join_voice
            | apply kept_verified_kick | apply kept_takeover | apply kept_destroyed
            | apply kept_try_resume | apply kept_resync
            | apply kept_channel | apply kept_get_hub | apply kept_user_hubs | apply kept_in_hub
            | apply kept_resolve
            | eapply kept_sync_user; eauto
            | apply kept_role; by eauto | apply kept_member; by eauto ].

(** *** Commands that change nothing *)

Lemma kept_sync cmd : Forall (fun i => mkHubId i ∈ Hs) (rss_hub_ids cmd) ->
  kept (RequestStateSync_execute sv conn cmd).
Proof.
  intros Hids. unfold RequestStateSync_execute. keep.
  eapply kept_sync_requested; eauto. intros h.
  rewrite elem_of_list_to_set, list_elem_of_fmap. intros (i & -> & [_ Hi]%list_elem_of_filter).
  rewrite list.Forall_forall in Hids. by apply Hids.
Qed.

Lemma kept_invite cmd : mkHubId (chj_hub_id cmd) ∈ Hs -> kept (GetHubInvite_execute sv conn cmd).
Proof. intros Hh. unfold GetHubInvite_execute. keep. Qed.

Lemma kept_validate cmd : kept (ValidateHubInvite_execute sv conn cmd).
Proof. unfold ValidateHubInvite_execute. keep. Qed.

Lemma kept_update_user cmd : kept (UpdateUser_execute sv conn cmd).
Proof. unfold UpdateUser_execute. keep. Qed.

(** A command on a channel reference: the reference is complete. *)
Ltac scoped ref Href :=
  destruct (to_channel_scope ref) as [sc|] eqn:Esc; [|by intros ? ?];
  destruct (Href _ Esc) as [Hscope Hchan].

Lemma kept_fetch_messages cmd : ref_ok (fm_channel cmd) ->
  kept (FetchMessagesBefore_execute sv conn cmd).
Proof. intros Hr. unfold FetchMessagesBefore_execute. scoped (fm_channel cmd) Hr. keep. Qed.

Lemma kept_send_message cmd : ref_ok (sm_channel cmd) -> kept (SendMessage_execute sv conn cmd).
Proof. intros Hr. unfold SendMessage_execute. scoped (sm_channel cmd) Hr. keep. Qed.

Lemma kept_typing cmd : ref_ok (ty_channel cmd) -> kept (Typing_execute sv conn cmd).
Proof. intros Hr. unfold Typing_execute. scoped (ty_channel cmd) Hr. keep. Qed.

Lemma kept_kick_voice cmd : ref_ok (kv_channel cmd) -> kept (KickVoiceParticipant_execute sv conn cmd).
Proof. intros Hr. unfold KickVoiceParticipant_execute. scoped (kv_channel cmd) Hr. keep. Qed.

Lemma kept_tell v owner h c : kept (tell_sessions v owner h c).
Proof. unfold tell_sessions. ex_split. apply kept_map. intros i. keep. Qed.

Lemma kept_activity cmd : ref_ok (va_channel cmd) -> kept (VoiceChannelActivity_execute sv conn cmd).
Proof.
  intros Hr. unfold VoiceChannelActivity_execute. scoped (va_channel cmd) Hr. keep; apply kept_tell.
Qed.

Lemma kept_leave_previous v req c o oc : kept (leave_previous_voice sv v req c o oc).
Proof. unfold leave_previous_voice. keep. Qed.

Lemma kept_join cmd : ref_ok (jv_channel cmd) -> kept (JoinVoiceChannel_execute sv conn cmd).
Proof.
  intros Hr. unfold JoinVoiceChannel_execute. scoped (jv_channel cmd) Hr. keep;
    apply kept_leave_previous.
Qed.

End Command.
End Commands.
