(* ===== verification/CommandWrites.v ===== *)
(** * The commands that change hubs refine the access policy

    The commands of [CommandProofs.v]'s table that write the tables or the
    subscriptions. *)

From S2P Require Import Prelude.
From S2P Require Import CStrings.
From S2P Require Import Ids.
From S2P Require Import Protocol.
From S2P Require Import PriorityQueues.
From S2P Require Import OutboundMsg.
From S2P Require Import SessionManager.
From S2P Require Import SubscriptionManager.
From S2P Require Import VoiceSessions.
From S2P Require Import HubService.
From S2P Require Import HubCoherence.
From S2P Require Import HubEffects.
From S2P Require Import External.
From S2P Require Import VoiceWorld.
From S2P Require Import VoiceStores.
From S2P Require Import VoiceService.
From S2P Require Import VoiceFrame.
From S2P Require Import ServerEvents.
From S2P Require Import CommandUtils.
From S2P Require Import Messages.
From S2P Require Import MessageService.
From S2P Require Import UserService.
From S2P Require Import Invites.
From S2P Require Import Auth.
From S2P Require Import AppWorld.
From S2P Require Import SessionCommands.
From S2P Require Import HubCommands.
From S2P Require Import ChannelCommands.
From S2P Require Import ActivityCommands.
From S2P Require Import CommandFrame.
From S2P Require Import CommandPolicy.
From S2P Require Import CommandProofs.

Import HubCoherence HubEffects Utils.

Section Commands.
Context {X D : Type} {EXT : External X} {UN : Uniform} {JL : JsonLib} {CR : Crypto} {JW : JwtLib}
  {HR : HubRepo D} {HL : HubRepoLaws D} {UR : UserRepo D} {MR : MessageRepo D} {DE : DbErrors D}
  {SEP : SeparateTables D}.
Variable sv : Services.
Variable Hs : gset HubId.
Hypothesis hash_inj : forall h h', h ∈ Hs -> h' ∈ Hs -> hash_hub sv h = hash_hub sv h' -> h = h'.
Hypothesis hubs_known : forall d : D, dom (tb_hubs (tables d)) ⊆ Hs.
Hypothesis hubs_norm : forall h, h ∈ Hs -> norm_hub h = h.

Abbreviation C := (M X D).
Abbreviation core := (core (X := X) sv).

Section Command.
Context (conn : GlobalConnId) (u : UserId) (s : Z) (tb : Tables) (tbl : Session.Table) (R : Rel).
Hypothesis Hconn : tbl !! conn = Some (u, s).
Hypothesis Hcanon : norm_user u = u.
Hypothesis rows_known : dom (tb_hubs tb) ⊆ Hs.
Hypothesis rows_ok : tables_ok tb.

Abbreviation returned := (returned (X := X) (D := D) sv conn u tb tbl R).
Abbreviation thrown := (thrown (X := X) (D := D) sv conn u tb tbl R).
Abbreviation allowed := (allowed (X := X) (D := D) sv conn u tb tbl R).

Hint Resolve returned_same thrown_same : core.

(** An answer that leaves everything as it was. *)
Ltac refuse := apply ex_triple_ret; auto.

(** The next guard holds, or the command answers. *)
Ltac check :=
  match goal with
  | |- ex_triple _ (if ?b then _ else _) _ _ =>
    let E := fresh "E" in destruct b eqn:E; [|by refuse]
  | |- ex_triple _ (match ?o with Some _ => _ | None => _ end) _ _ =>
    let E := fresh "E" in destruct o eqn:E; [|by refuse]
  end.

(** The connection's user. *)
Ltac user := eapply bind_session; [exact Hconn|]; cbv beta iota.

(** The role of a user in a hub in play. *)
Ltac role :=
  eapply bind_read; [eapply answers_role; eauto|intros ? ->|by auto].

(** The channels of a hub whose members changed. *)
Lemma members_changed_channels h f tb' :
  members_changed h f tb tt tb' -> is_Some (tb_hubs tb !! h) -> channels_in tb' h = order_of tb h.
Proof.
  intros (_ & _ & Hh & Ho & _) He. unfold channels_in. by rewrite Hh, decide_True, Ho.
Qed.

(** A write of the members under [try]. *)
Lemma members_triple h f (m : EX (HubService.t (D := D)) unit) (log : C unit) :
  does (hash_hub sv) m (members_changed h f) ->
  (forall tb', ex_triple (core tb' tbl R) log (fun _ => core tb' tbl R) (fun _ => False)) ->
  ex_triple (core tb tbl R)
    (ex_catch (hub_service m;;; log;;; ex_ret true)%ex (ex_ret false))
    (fun (done : bool) a => if done then exists tb', core tb' tbl R a /\ members_changed h f tb tt tb'
                            else core tb tbl R a) thrown.
Proof.
  intros Hm Hlog. eapply ex_triple_catch with (E1 := core tb tbl R).
  - eapply bind_write; [exact Hm| |done]. intros [] tb' Htb.
    eapply ex_triple_bind; [eapply ex_triple_conseq; [apply Hlog|done|intros ? ? Hx; exact Hx|done]|].
    intros []. apply ex_triple_ret. eauto.
  - by apply ex_triple_ret.
Qed.

Lemma action_triple cat ty actor target hub channel md tb' E :
  ex_triple (core tb' tbl R) (log_action cat ty conn actor target hub channel md)
    (fun _ => core tb' tbl R) E.
Proof. by intros a Ha. Qed.

Lemma leave_allowed cmd : mkHubId (lh_hub_id cmd) ∈ Hs -> allowed (LeaveHub_execute sv conn cmd).
Proof.
  intros Hh. unfold LeaveHub_execute. user. role. check. check.
  apply negb_true_iff, bool_decide_eq_false_1 in E0.
  eapply ex_triple_bind; [apply members_triple; [by eapply removeMember_does|intros; apply action_triple]|].
  intros [|]; [|by refuse]. apply ex_triple_ex. intros tb' Hm. rewrite Hcanon in Hm.
  assert (Hp := may_leave conn u tbl tb R _ _ _ E E0 Hm).
  apply bind_gets. intros a Ha.
  eapply bind_read; [eapply answers_channel_ids; eauto|intros ? ->|by eauto using thrown_step].
  rewrite (members_changed_channels _ _ _ Hm) by (by apply role_in_member in E as []).
  eapply ex_triple_bind; [apply unsubscribe_all_triple|]. intros [].
  apply bind_gets. intros a1 _. apply ex_triple_ret. intros a2 Ha2.
  rewrite (core_self_conns _ _ _ _ _ _ _ _ Ha Hconn) in Ha2. by eexists _, _.
Qed.

(** A role that is there is that of a canonically spelled user. *)
Lemma with_member {A} h v r (m : C A) Q E :
  role_in tb h v = Some r -> (norm_user v = v -> ex_triple (core tb tbl R) m Q E) ->
  ex_triple (core tb tbl R) m Q E.
Proof.
  intros [_ Hr]%role_in_member Hm. apply ex_triple_fact with (phi := norm_user v = v); [|done].
  intros a ([<- _] & _). eapply law_norm_user. eauto.
Qed.

Lemma kick_allowed cmd :
  mkHubId (kh_hub_id cmd) ∈ Hs -> allowed (KickHubMember_execute sv conn cmd).
Proof.
  intros Hh. unfold KickHubMember_execute. user. check. role. check. role. check. check.
  apply (with_member _ _ _ _ _ _ E1). intros Ht.
  apply bind_keep; [|intros out|by auto].
  { unfold kick_from_voice. ex_split; [apply kept_channel|apply kept_verified_kick]. }
  check. eapply ex_triple_bind;
    [apply members_triple; [by eapply removeMember_does|intros; apply action_triple]|].
  intros [|]; [|by refuse]. apply ex_triple_ex. intros tb' Hm. rewrite Ht in Hm.
  assert (Hp := may_kick conn u tbl tb R _ _ _ _ _ E0 E1 E2 Hm).
  apply bind_keep; [apply kept_world|intros []|by eauto using thrown_step].
  apply bind_action. apply bind_gets. intros a Ha.
  eapply bind_read; [eapply answers_channel_ids; eauto|intros ? ->|by eauto using thrown_step].
  rewrite (members_changed_channels _ _ _ Hm) by (by apply role_in_member in E0 as []).
  eapply ex_triple_bind; [apply unsubscribe_all_triple|]. intros [].
  apply bind_gets. intros a1 _. apply ex_triple_ret. intros a2 Ha2.
  rewrite (core_connections _ _ _ _ _ _ Ha) in Ha2. by eexists _, _.
Qed.

Lemma role_update_allowed cmd :
  mkHubId (ur_hub_id cmd) ∈ Hs -> allowed (UpdateHubMemberRole_execute sv conn cmd).
Proof.
  intros Hh. unfold UpdateHubMemberRole_execute. user. check. check. role. check. role. check. check.
  apply (with_member _ _ _ _ _ _ E2). intros Ht.
  eapply ex_triple_bind;
    [apply members_triple; [by eapply addMember_does|intros; apply action_triple]|].
  intros [|]; [|by refuse]. apply ex_triple_ex. intros tb' Hm. rewrite Ht in Hm.
  assert (Hp := may_change_role conn u tbl tb R _ _ _ _ _ _ E1 E2 E3 Hm).
  apply bind_gets. intros a1 _. apply bind_gets. intros a2 _. apply ex_triple_ret.
  intros a Ha. by eexists _, _.
Qed.

Lemma manages r : bool_decide (r = OWNER) || bool_decide (r = ADMIN) = true -> may_manage r.
Proof. unfold may_manage. intros [?%bool_decide_eq_true_1|?%bool_decide_eq_true_1]%orb_true_iff; auto. Qed.

Lemma without_hub h cs R0 :
  without_topics (Topic.ChannelTopic h <$> cs) (without_topics [Topic.HubTopic h] R0) =
  without_topics (hub_topics h cs) R0.
Proof. unfold hub_topics. by rewrite (without_topics_cons _ (fmap _ _)). Qed.

Lemma delete_hub_allowed cmd :
  mkHubId (rh_hub_id cmd) ∈ Hs -> allowed (DeleteHub_execute sv conn cmd).
Proof.
  intros Hh. unfold DeleteHub_execute. user. role. check. check. apply bool_decide_eq_true_1 in E0.
  subst. eapply bind_read; [eapply answers_channel_ids; eauto|intros ? ->|by auto].
  set (h := mkHubId (rh_hub_id cmd)) in *.
  eapply ex_triple_bind with (Q := fun (r : expected unit Out) a =>
    match r with
    | Ok _ => exists tb', core tb' tbl R a /\ hub_deleted h tb true tb'
    | Unexpected _ => returned a
    end).
  { eapply ex_triple_catch with (E1 := core tb tbl R); [|apply ex_triple_ret; auto].
    eapply bind_write; [by eapply deleteHub_does| |done]. intros [] tb' Hd; cbn [negb].
    - apply bind_world. intros []. apply bind_action, ex_triple_ret. eauto.
    - apply ex_triple_ret. intros a Ha. destruct Hd. eexists _, _.
      split; [exact Ha|by apply may_nothing]. }
  intros [[]|out]; [|by apply ex_triple_ret]. apply ex_triple_ex. intros tb' Hd.
  assert (Hp := may_delete_hub conn u tbl tb R _ _ E Hd).
  apply bind_gets. intros a _. eapply ex_triple_bind; [apply remove_topic_triple|]. intros [].
  eapply ex_triple_bind; [apply remove_topics_for|]. intros [].
  unfold channels_in. rewrite decide_True by (by apply role_in_member in E as []).
  rewrite without_hub. apply ex_triple_ret. intros a' Ha'. by eexists _, _.
Qed.

(** *** Renaming a hub *)

Lemma hub_renamed_refl h tb0 : hub_renamed h tb0 tb0.
Proof. by split. Qed.

Lemma same_hub_trans tb1 tb2 tb3 h : same_hub tb1 tb2 h -> same_hub tb2 tb3 h -> same_hub tb1 tb3 h.
Proof. intros (? & ? & ?) (? & ? & ?). split_and!; congruence. Qed.

Lemma hub_renamed_step h tb1 tb2 b tb3 :
  hub_renamed h tb1 tb2 -> hub_updated h tb2 b tb3 -> hub_renamed h tb1 tb3.
Proof.
  intros (Ho & (Hi & Hor & Hm) & Hc) [Hc' Hb].
  assert (H' : only_hub_changed h tb2 tb3 /\ same_roster tb2 tb3 h).
  { destruct b; [done|]. split; [by intros h' _|]. destruct (Hb h) as (E1 & E2 & E3).
    split_and!; [by rewrite E1|done|done]. }
  destruct H' as (Ho' & Hi' & Hor' & Hm'). split_and!; [|split_and!|congruence].
  - intros h' Hne. eapply same_hub_trans; [by apply Ho|by apply Ho'].
  - by rewrite Hi.
  - congruence.
  - congruence.
Qed.

Definition renamed_core (h : HubId) (a : App X D) : Prop :=
  exists tb', core tb' tbl R a /\ hub_renamed h tb tb'.

Lemma update_step {B} h (m : option (EX (HubService.t (D := D)) bool)) (k : bool -> C B) Q E :
  (forall o, m = Some o -> does (hash_hub sv) o (hub_updated h)) ->
  (forall b, ex_triple (renamed_core h) (k b) Q E) -> (forall a, renamed_core h a -> E a) ->
  ex_triple (renamed_core h)
    (ex_bind (match m with Some o => hub_service o | None => ex_ret true end) k) Q E.
Proof.
  intros Hm Hk HE. destruct m as [o|]; [|intros a Ha; by apply Hk].
  apply ex_triple_ex. intros tb1 H1. eapply bind_write; [by apply Hm| |].
  - intros b tb2 H2. eapply ex_triple_conseq; [apply Hk| |done|done].
    intros a Ha. exists tb2. split; [done|]. by eapply hub_renamed_step.
  - intros a Ha. apply HE. by exists tb1.
Qed.

Lemma apply_update err h name seed : h ∈ Hs ->
  ex_triple (renamed_core h) (apply_hub_update sv err h name seed) (fun _ => renamed_core h)
    (renamed_core h).
Proof.
  intros Hh. unfold apply_hub_update.
  assert (H1 : forall o, HubService.renameHub (hash_hub sv) h <$> name = Some o ->
    does (hash_hub sv) o (hub_updated h)).
  { intros o (n & _ & ->)%fmap_Some. by eapply renameHub_does. }
  assert (H2 : forall o, HubService.updateHubAvatarSeed (hash_hub sv) h <$> seed = Some o ->
    does (hash_hub sv) o (hub_updated h)).
  { intros o (n & _ & ->)%fmap_Some. by eapply updateHubAvatarSeed_does. }
  pose proof (fun B k Q E => update_step (B := B) h _ k Q E H1) as S1.
  pose proof (fun B k Q E => update_step (B := B) h _ k Q E H2) as S2.
  destruct name, seed; simpl in S1, S2;
    (apply S1; [intros b1|done]); (destruct b1; cbn [negb]; [|by apply ex_triple_ret]);
    (apply S2; [intros b2|done]); destruct b2; by apply ex_triple_ret.
Qed.

Lemma update_hub_allowed cmd :
  mkHubId (uh_hub_id cmd) ∈ Hs -> allowed (UpdateHub_execute sv conn cmd).
Proof.
  intros Hh. unfold UpdateHub_execute. user.
  destruct (optional_text _ _ _ _ _) as [name|out]; [|by refuse].
  destruct (optional_text _ _ _ _ _) as [seed|out]; [|by refuse].
  check. role. check. check. apply manages in E1. set (h := mkHubId (uh_hub_id cmd)) in *.
  assert (Hret : forall a, renamed_core h a -> returned a).
  { intros a (tb' & Ha & Hr). eexists _, _. split; [exact Ha|by eapply may_update_hub]. }
  assert (Hthr : forall a, renamed_core h a -> thrown a).
  { intros a (tb' & Ha & Hr). eapply thrown_step; [|exact Ha]. by eapply may_update_hub. }
  eapply ex_triple_conseq with (P := renamed_core h) (E := thrown);
    [|intros a Ha; exists tb; split; [done|apply hub_renamed_refl]|intros ? ? Hq; exact Hq|done].
  eapply ex_triple_bind with (Q := fun _ => renamed_core h).
  { eapply catch_what_triple; [|intros w; by apply ex_triple_ret].
    eapply ex_triple_bind; [by apply apply_update|]. intros [out|]; [by apply ex_triple_ret|].
    apply ex_triple_ex. intros tb' Hr. apply bind_action, ex_triple_ret. intros a Ha. by exists tb'. }
  intros [out|]; [by apply ex_triple_ret|]. apply ex_triple_ex. intros tb' Hr.
  assert (Hc : forall a, core tb' tbl R a -> renamed_core h a) by (intros a Ha; by exists tb').
  apply bind_keep; [apply kept_get_hub|intros row|by auto].
  destruct row; [|apply ex_triple_ret; by auto].
  apply bind_gets. intros a _. apply ex_triple_ret. by auto.
Qed.

(** *** Channels *)

Lemma in_hub_triple sc :
  ex_triple (core tb tbl R) (channel_in_hub sc)
    (fun r a => core tb tbl R a /\ forall ch, r = Some ch ->
       tb_channels tb !! norm_channel (scope_channel sc) = Some ch /\ ch_hub_id ch = scope_hub sc)
    (core tb tbl R).
Proof.
  unfold channel_in_hub. eapply bind_read; [apply answers_channel|intros ? ->|done].
  apply ex_triple_ret. intros a Ha. split; [done|]. intros ch.
  destruct (tb_channels tb !! _) as [c|]; [|done]. case_bool_decide; [|done]. by intros [= ->].
Qed.

Lemma bind_in_hub {B} sc (k : option Channel -> C B) Q (E : App X D -> Prop) :
  norm_channel (scope_channel sc) = scope_channel sc ->
  ex_triple (core tb tbl R) (k None) Q E ->
  (forall ch, tb_channels tb !! ch_id ch = Some ch -> ch_id ch = scope_channel sc ->
     ch_hub_id ch = scope_hub sc -> ex_triple (core tb tbl R) (k (Some ch)) Q E) ->
  (forall a, core tb tbl R a -> E a) ->
  ex_triple (core tb tbl R) (ex_bind (channel_in_hub sc) k) Q E.
Proof using rows_ok.
  intros Hn Hnone Hsome HE. eapply ex_triple_bind.
  - eapply ex_triple_conseq; [apply in_hub_triple|done|intros r a Hr; exact Hr|exact HE].
  - intros [ch|]; apply ex_triple_pure; [|done]. intros Hch.
    destruct (Hch ch eq_refl) as [Hl Hh]. rewrite Hn in Hl.
    pose proof (tk_channel _ rows_ok _ _ Hl) as Hid. rewrite <- Hid in Hl. by apply Hsome.
Qed.

Ltac scoped ref Href :=
  destruct (to_channel_scope ref) as [sc|] eqn:Esc; [|by refuse];
  destruct (Href _ Esc) as [Hscope Hchan].

Ltac in_hub :=
  apply bind_in_hub; [done|by refuse|intros ch Hch Hid Hhub|by auto].

Lemma select_allowed cmd : ref_ok Hs (sac_channel cmd) -> allowed (SelectActiveChannel_execute sv conn cmd).
Proof.
  intros Hr. unfold SelectActiveChannel_execute. scoped (sac_channel cmd) Hr. user. in_hub.
  check. apply bool_decide_eq_true_1 in E.
  eapply bind_read; [eapply answers_member; eauto|intros ? ->|by auto].
  check. apply bool_decide_eq_true_1 in E0. rewrite <- Hhub in E0.
  assert (Hp := may_select conn u tbl tb R _ _ Hch E E0).
  eapply ex_triple_bind; [apply subscribe_triple|]. intros [].
  eapply ex_triple_bind; [apply text_channel_triple|]. intros [].
  rewrite Hid, Hhub in Hp.
  assert (Hret : forall a, core tb tbl ({[(conn, Topic.ChannelTopic (scope_hub sc) (scope_channel sc))]} ∪ R) a ->
    returned a).
  { intros a Ha. eexists _, _. split; [exact Ha|].
    by replace ({[_]} ∪ R) with
      (subscribed {[conn]} (Topic.ChannelTopic (scope_hub sc) (scope_channel sc)) R)
      by (unfold subscribed; set_solver). }
  assert (Hthr : forall a, core tb tbl ({[(conn, Topic.ChannelTopic (scope_hub sc) (scope_channel sc))]} ∪ R) a ->
    thrown a) by (intros a (tb' & R' & ? & ?)%Hret; by eapply thrown_step).
  destruct (sac_known_latest_cursor cmd).
  - destruct (negb _); [|apply ex_triple_ret; by auto].
    apply bind_keep; [apply kept_fetch_after|intros page|by auto].
    destruct page as [[|]|]; apply ex_triple_ret; by auto.
  - apply bind_keep; [apply kept_fetch|intros page|by auto].
    destruct page; apply ex_triple_ret; by auto.
Qed.

Lemma remove_channel_allowed cmd : ref_ok Hs (rc_channel cmd) -> allowed (RemoveChannel_execute sv conn cmd).
Proof.
  intros Hr. unfold RemoveChannel_execute. user. scoped (rc_channel cmd) Hr. in_hub.
  rewrite <- Hhub in Hscope. role. check. check. apply bool_decide_eq_true_1 in E0. subst.
  eapply bind_write; [eapply deleteChannel_does; [..|exact Hscope]; eauto; by rewrite Hid| |by auto].
  intros [] tb' Hd.
  - assert (Hp := may_delete_channel conn u tbl tb R _ _ _ Hch E Hd).
    apply bind_action. eapply ex_triple_bind; [apply remove_topic_triple|]. intros [].
    apply bind_gets. intros a _. apply ex_triple_ret. intros a' Ha'. by eexists _, _.
  - apply ex_triple_ret. intros a Ha. destruct Hd. eexists _, _.
    split; [exact Ha|by apply may_nothing].
Qed.

Lemma kept_channels cs : ex_preserves (core tb tbl R) (hub_service (HubService.getChannelsByIds cs)).
Proof. eapply kept_hub, answers_keep, getChannelsByIds_at. Qed.

Lemma rename_channel_allowed cmd : ref_ok Hs (uc_channel cmd) -> allowed (RenameChannel_execute sv conn cmd).
Proof.
  intros Hr. unfold RenameChannel_execute. user. scoped (uc_channel cmd) Hr. in_hub.
  rewrite <- Hhub in Hscope. check. check. check. role. check. check. apply manages in E3.
  eapply bind_read; [eapply answers_channel_ids; eauto|intros ? ->|by auto].
  apply bind_keep; [apply kept_channels|intros existing|by auto]. check.
  eapply ex_triple_bind with (Q := fun _ => returned).
  { eapply catch_what_triple with (E1 := core tb tbl R); [|intros w; apply ex_triple_ret; auto].
    eapply bind_write; [eapply renameChannel_does; by rewrite Hid| |done].
    intros [] tb' Hd; cbn [negb].
    - assert (Hp := may_rename_channel conn u tbl tb R _ _ _ _ _ Hch E2 E3 Hd).
      apply bind_action, ex_triple_ret. intros a Ha. by eexists _, _.
    - apply ex_triple_ret. intros a Ha. destruct Hd. eexists _, _.
      split; [exact Ha|by apply may_nothing]. }
  intros [out|]; [by apply ex_triple_ret|]. by intros a Ha.
Qed.

Lemma create_channel_allowed cmd : mkHubId (cc_hub_id cmd) ∈ Hs -> allowed (CreateChannel_execute sv conn cmd).
Proof.
  intros Hh. unfold CreateChannel_execute. user. do 4 check. role. check. check. apply manages in E4.
  eapply bind_read; [eapply answers_channel_ids; eauto|intros ? ->|by auto]. check.
  apply bind_keep; [apply kept_channels|intros existing|by auto]. check.
  apply Nat.ltb_lt in E5. unfold channels_in in E5.
  rewrite decide_True in E5 by (by apply role_in_member in E3 as []).
  eapply ex_triple_bind with (Q := fun _ => returned).
  { eapply catch_what_triple with (E1 := core tb tbl R); [|intros w; apply ex_triple_ret; auto].
    eapply bind_write; [by eapply createChannel_does| |done]. intros c tb' Hd.
    assert (Hp := may_create_channel conn u tbl tb R _ _ _ _ _ _ E3 E4 E5 Hd).
    apply bind_action, ex_triple_ret. intros a Ha. by eexists _, _. }
  intros [c|out]; [|by apply ex_triple_ret]. by intros a Ha.
Qed.

(** *** Creating and joining a hub *)

Lemma create_hub_allowed cmd : allowed (CreateHub_execute sv conn cmd).
Proof.
  unfold CreateHub_execute. user. check. check.
  eapply ex_triple_bind with (Q := fun (r : expected Hub Out) a =>
    match r with
    | Ok hub => exists tb', core tb' tbl R a /\ hub_created u tb hub tb'
    | Unexpected _ => returned a
    end).
  { eapply catch_what_triple with (E1 := core tb tbl R); [|intros w; apply ex_triple_ret; auto].
    eapply bind_write; [apply createHub_does| |done]. intros hub tb' Hc.
    apply bind_action, ex_triple_ret. eauto. }
  intros [hub|out]; [|by apply ex_triple_ret]. apply ex_triple_ex. intros tb1 Hc.
  apply ex_triple_fact with (phi := dom (tb_hubs tb1) ⊆ Hs);
    [intros a Ha; by eapply core_known|intros Hk1].
  assert (Hh : hub_id hub ∈ Hs) by (apply Hk1, elem_of_dom; destruct Hc as (_ & -> & _); eauto).
  eapply ex_triple_bind with (Q := fun _ a => exists tb', core tb' tbl R a /\
    (tb' = tb1 \/ exists c, channel_created (hub_id hub) "general" CHAT tb1 c tb')).
  { eapply ex_triple_catch with (E1 := core tb1 tbl R); [|apply ex_triple_ret; eauto].
    eapply bind_write; [by eapply createChannel_does| |done]. intros c tb' Hch.
    eapply ex_triple_conseq; [apply (action_triple _ _ _ _ _ _ _ tb' (fun _ => False))|done| |done].
    intros [] a Ha. exists tb'. split; [exact Ha|]. right. by exists c. }
  intros []. apply ex_triple_ex. intros tb' Htb.
  assert (Hp := may_create_hub conn u tbl tb R _ _ _ Hc Htb).
  apply bind_gets. intros a0 Ha0. rewrite <- (core_self_conns _ _ _ _ _ _ _ _ Ha0 Hconn) in Hp.
  eapply ex_triple_bind; [apply subscribe_for|]. intros [].
  apply bind_keep; [|intros sync|by eauto using thrown_step].
  - eapply kept_sync_requested; eauto; [by eapply core_known|set_solver].
  - apply ex_triple_ret. intros a Ha. by eexists _, _.
Qed.

(** What [resolve_code] answers is what Redis holds. *)
Lemma resolve_code_at ty token a : core tb tbl R a ->
  exists r a', resolve_code conn ty u token a = (Some r, a') /\ core tb tbl R a' /\
    forall h, r = Ok h -> (InviteService.resolveInvite token (ext (voice a))).1 = Some h.
Proof.
  intros Ha. unfold resolve_code, ex_bind at 1, on_world, on_voice, on_ext.
  destruct (InviteService.resolveInvite token (ext (voice a))) as [[h|] x]; simpl.
  - eexists _, _. split; [done|]. split; [exact Ha|]. by intros h' [= ->].
  - eexists _, _. split; [done|]. split; [exact Ha|]. done.
Qed.

Lemma ensure_member_triple h err : h ∈ Hs ->
  ex_triple (core tb tbl R) (ensure_member sv err h u)
    (fun r a => match r.2 with
                | Ok _ => exists tb', core tb' tbl R a /\
                    policy conn u tbl tb R tb' (subscribed (connected tbl u) (Topic.HubTopic h) R)
                | Unexpected _ => core tb tbl R a
                end) thrown.
Proof.
  intros Hh. unfold ensure_member. eapply bind_read; [by eapply answers_role|intros ? ->|by auto].
  case_bool_decide as Hm.
  { apply ex_triple_ret. intros a Ha. exists tb. split; [exact Ha|by apply may_rejoin]. }
  eapply bind_read; [by eapply answers_hub|intros row Hrow|by auto].
  destruct row as [row|]; [|by apply ex_triple_ret].
  eapply ex_triple_catch with (E1 := core tb tbl R); [|by apply ex_triple_ret].
  eapply bind_write; [by eapply addMember_does| |done]. intros [] tb' Ha.
  apply ex_triple_ret. intros a Hc. exists tb'. split; [exact Hc|]. eapply may_join; [|..|exact Ha].
  - apply Hrow. eauto.
  - destruct (role_in tb h u); [|done]. by destruct Hm.
Qed.

(** The link names a hub in play. *)
Lemma join_allowed cmd x :
  (forall h, (InviteService.resolveInvite (InviteService.invite_token (jh_join_code cmd)) x).1 = Some h ->
     h ∈ Hs) ->
  ex_triple (fun a => core tb tbl R a /\ ext (voice a) = x) (JoinHubByInvite_execute sv conn cmd)
    (fun _ => returned) thrown.
Proof.
  intros Hinv. unfold JoinHubByInvite_execute.
  eapply ex_triple_bind with (Q := fun r a => (core tb tbl R a /\ ext (voice a) = x) /\ r = Some u).
  { intros a [Ha Hx]. simpl. by rewrite (core_session _ _ _ _ _ _ Ha), Hconn. }
  intros r. apply ex_triple_pure. intros ->. cbv zeta.
  eapply ex_triple_bind with (Q := fun r a => core tb tbl R a /\ forall h, r = Ok h -> h ∈ Hs).
  { intros a [Ha Hx]. destruct (resolve_code_at Envelope.HUB_JOIN
      (InviteService.invite_token (jh_join_code cmd)) a Ha) as (r & a' & -> & Ha' & Hr).
    rewrite Hx in Hr. eauto. }
  intros [h|out]; apply ex_triple_pure; intros Hh; [|by refuse]. specialize (Hh h eq_refl).
  eapply ex_triple_bind; [by apply ensure_member_triple|]. intros [already [[]|out]]; cbn [fst snd];
    [|by refuse]. apply ex_triple_ex. intros tb' Hp. apply bind_gets. intros a0 Ha0.
  rewrite <- (core_self_conns _ _ _ _ _ _ _ _ Ha0 Hconn) in Hp.
  eapply ex_triple_bind; [apply subscribe_for|]. intros []. set (R1 := subscribed _ _ _) in *.
  assert (Hret : forall a, core tb' tbl R1 a -> returned a) by (intros a Ha; by eexists _, _).
  assert (Hthr : forall a, core tb' tbl R1 a -> thrown a) by eauto using thrown_step.
  apply bind_keep; [|intros sync|by auto].
  { eapply kept_sync_requested; eauto; [by eapply core_known|set_solver]. }
  apply bind_action. destruct already; [apply ex_triple_ret; by auto|].
  apply bind_gets. intros a1 _. destruct (filter _ _); [apply ex_triple_ret; by auto|].
  apply bind_gets. intros a2 _. apply bind_keep; [apply kept_getUser|intros row|by auto].
  apply ex_triple_ret. by auto.
Qed.

End Command.
End Commands.
