(* ===== verification/CommandSteps.v ===== *)
(** * What an event's handler does to the connections' users and the queue

    For any predicate of the map from connections to users and of the inbound
    queue: if it survives a login with an accepted token, the removal of
    connections and a push, then every command and every connection event keeps
    it, exceptions included. *)

From S2P Require Import Prelude.
From S2P Require Import CStrings.
From S2P Require Import Ids.
From S2P Require Import Protocol.
From S2P Require Import PriorityQueues.
From S2P Require Import OutboundMsg.
From S2P Require Import SessionManager.
From S2P Require Import SubscriptionManager.
From S2P Require Import VoiceSessions.
From S2P Require Import HubService.
From S2P Require Import External.
From S2P Require Import VoiceWorld.
From S2P Require Import VoiceStores.
From S2P Require Import VoiceService.
From S2P Require Import VoiceFrame.
From S2P Require Import ServerEvents.
From S2P Require Import CommandUtils.
From S2P Require Import Messages.
From S2P Require Import MessageService.
From S2P Require Import UserService.
From S2P Require Import Invites.
From S2P Require Import Auth.
From S2P Require Import AppWorld.
From S2P Require Import SessionCommands.
From S2P Require Import HubCommands.
From S2P Require Import ChannelCommands.
From S2P Require Import ActivityCommands.
From S2P Require Import AppDemo.
From S2P Require Import Workers.

Section Steps.
Context {X D : Type} {EXT : External X} {UN : Uniform} {JL : JsonLib} {CR : Crypto} {JW : JwtLib}
  {HR : HubRepo D} {UR : UserRepo D} {MR : MessageRepo D} {DE : DbErrors D}.
Variable sv : Services.

Abbreviation C := (M X D).

(** A user some token vouches for. *)
Definition has_token (u : UserId) : Prop :=
  exists token x claims, (AuthService.authenticate (token_verifier sv) token (x : X)).1 = Ok claims /\
    u = mkUserId (uc_id claims).

Variable I : gmap GlobalConnId UserId -> EventQueue.t -> Prop.
Hypothesis I_push : forall m q e, I m q -> I m (EventQueue.push_impl q e).2.
Hypothesis I_attach : forall m q c u, has_token u -> I m q -> I (<[c := u]> m) q.
Hypothesis I_remove : forall m m' q, m' ⊆ m -> I m q -> I m' q.

Definition wkeep (q : EventQueue.t) (w : World X D) : Prop :=
  I (Session.conn_to_session_ (session_manager_ w)) q.
Definition keep (a : App X D) : Prop := wkeep (event_sink a) (voice a).

Abbreviation kept := (ex_preserves keep).

Lemma wkeep_frame q w w' : VoiceFrame.same_core w w' -> wkeep q w -> wkeep q w'.
Proof. intros (_ & Hm & _). unfold wkeep. by rewrite Hm. Qed.

Lemma vkept_voice {A} (m : EX (World X D) A) :
  (forall q, ex_preserves (wkeep q) m) -> kept (on_voice m).
Proof.
  intros Hm a Ha. unfold on_voice, keep in *. specialize (Hm _ _ Ha).
  by destruct (m (voice a)) as [r w].
Qed.

Lemma vkept_hub {A} (m : EX (HubService.t (D := D)) A) : kept (hub_service m).
Proof. apply vkept_voice. intros q w Hw. unfold on_hubs. by destruct (m (hubs w)). Qed.
Lemma vkept_world {A} (m : ST X A) : kept (on_world m).
Proof. apply vkept_voice. intros q w Hw. unfold on_ext. by destruct (m (ext w)). Qed.
Lemma vkept_user {A} (m : EX (UserService.t D) A) : kept (user_service m).
Proof. intros a Ha. unfold user_service. by destruct (m _) as [r u]. Qed.
Lemma vkept_message {A} (m : ST (MessageService.t X D) A) : kept (message_service m).
Proof. intros a Ha. unfold message_service. by destruct (m _) as [r u]. Qed.
Lemma vkept_voice_sessions {A} (f : VoiceSessions.t -> A * VoiceSessions.t) : kept (on_voice_sessions f).
Proof. apply vkept_voice. intros q w Hw. unfold on_sessions. by destruct (f (sessions_ w)). Qed.
Lemma vkept_subs f : kept (on_subscriptions f).
Proof. by intros a Ha. Qed.
Lemma vkept_log e : kept (log_audit e).
Proof. by intros a Ha. Qed.
Lemma vkept_action cat ty conn actor target hub channel md :
  kept (log_action cat ty conn actor target hub channel md).
Proof. by intros a Ha. Qed.
Lemma vkept_push e : kept (push_event e).
Proof. intros a Ha. by apply I_push. Qed.
Lemma vkept_text u h c : kept (on_session_manager (fun sm => Session.joinTextChannel sm u h c)).
Proof.
  intros a Ha. unfold keep, wkeep in *. simpl. unfold Session.joinTextChannel.
  by destruct (Session.sessions_ (sessions a) !! u).
Qed.
Lemma vkept_resume u : kept (on_voice (Resume.read u)).
Proof. apply vkept_voice. by intros q w Hw. Qed.

Lemma vkept_join_voice c u s n : kept (on_voice (VoiceService.join_voice (voice_cfg sv) c u s n)).
Proof. apply vkept_voice. intros q. apply VoiceFrame.keeps_join_voice; eauto using wkeep_frame. Qed.
Lemma vkept_kick c u : kept (on_voice (VoiceService.verified_kick_user (voice_cfg sv) c u)).
Proof. apply vkept_voice. intros q. apply VoiceFrame.keeps_verified_kick; eauto using wkeep_frame. Qed.
Lemma vkept_takeover c : kept (on_voice (VoiceService.mark_channel_takeover (voice_cfg sv) c)).
Proof. apply vkept_voice. intros q. apply VoiceFrame.keeps_takeover; eauto using wkeep_frame. Qed.
Lemma vkept_destroyed u : kept (on_voice (VoiceService.on_session_destroyed u)).
Proof. apply vkept_voice. intros q. apply VoiceFrame.keeps_destroyed; eauto using wkeep_frame. Qed.
Lemma vkept_try_resume u h c r s : kept (on_voice (VoiceService.try_resume_voice_ownership u h c r s)).
Proof.
  apply vkept_voice. intros q. apply (VoiceFrame.keeps_try_resume _ (fun _ => True) (fun _ => True));
    eauto using wkeep_frame.
Qed.
Lemma vkept_resync u : kept (on_voice (VoiceService.resync_voice_key_for_user u)).
Proof. apply vkept_voice. intros q. apply VoiceFrame.keeps_resync; eauto using wkeep_frame. Qed.

Lemma vkept_catch_what {A} (m : C A) (h : string -> C A) :
  kept m -> (forall w, kept (h w)) -> kept (catch_what m h).
Proof.
  intros Hm Hh a Ha. specialize (Hm a Ha). unfold catch_what.
  destruct (m a) as [[r|] a']; [done|]. by apply Hh.
Qed.

Lemma vkept_map {A B} (f : A -> C B) l : (forall x, kept (f x)) -> kept (ex_map f l).
Proof. intros Hf. induction l; simpl; ex_split; auto. Qed.
Lemma vkept_filter {A} (f : A -> C bool) l : (forall x, kept (f x)) -> kept (ex_filter f l).
Proof. intros Hf. apply ex_preserves_filter. auto. Qed.

Ltac steps :=
  ex_split;
  try (first [ apply vkept_catch_what; [|intros ?] | apply vkept_map; intros ?
             | apply vkept_filter; intros ?
             | apply vkept_hub | apply vkept_world | apply vkept_user | apply vkept_message
             | apply vkept_voice_sessions | apply vkept_subs | apply vkept_action | apply vkept_log
             | apply vkept_push | apply vkept_text | apply vkept_resume | apply vkept_join_voice
             | apply vkept_kick | apply vkept_takeover | apply vkept_destroyed | apply vkept_try_resume
             | apply vkept_resync ]; steps).

Lemma vkept_sync_user u : kept (build_state_sync_for_user sv u).
Proof.
  unfold build_state_sync_for_user, populate_self_user, collect_hub_inputs, sync_of_inputs. steps.
Qed.
Lemma vkept_sync_requested u req : kept (build_state_sync_for_requested_hubs sv u req).
Proof.
  unfold build_state_sync_for_requested_hubs, populate_self_user, collect_hub_inputs, sync_of_inputs.
  steps.
Qed.

Lemma vkept_unsubscribe_all conns h cs : kept (unsubscribe_all conns h cs).
Proof. unfold unsubscribe_all, unsubscribe. steps. Qed.
Lemma vkept_in_hub sc : kept (channel_in_hub sc).
Proof. unfold channel_in_hub. steps. Qed.
Lemma vkept_resolve conn ty u token : kept (resolve_code conn ty u token).
Proof. unfold resolve_code. steps. Qed.
Lemma vkept_ensure err h u : kept (ensure_member sv err h u).
Proof. unfold ensure_member. steps. Qed.
Lemma vkept_update err h n a : kept (apply_hub_update sv err h n a).
Proof. unfold apply_hub_update. steps. Qed.
Lemma vkept_kick_from_voice h u : kept (kick_from_voice sv h u).
Proof. unfold kick_from_voice. steps. Qed.
Lemma vkept_tell v owner h c : kept (tell_sessions v owner h c).
Proof. unfold tell_sessions. steps. Qed.
Lemma vkept_leave_previous v req c o oc : kept (leave_previous_voice sv v req c o oc).
Proof. unfold leave_previous_voice. steps. Qed.

Ltac command :=
  steps;
  auto using vkept_sync_user, vkept_sync_requested, vkept_unsubscribe_all, vkept_in_hub, vkept_resolve,
    vkept_ensure, vkept_update, vkept_kick_from_voice, vkept_tell, vkept_leave_previous.

(** Every command but AUTH. *)
Lemma vkept_dispatch ty conn parsed cmd :
  dispatch sv ty conn parsed = Some cmd -> ty <> Envelope.AUTH -> kept cmd.
Proof.
  intros Hd Hty. destruct ty; try done; destruct parsed; try done; simpl in Hd; injection Hd as <-;
    try apply ex_preserves_ret;
    cbv beta delta [RequestStateSync_execute SelectActiveChannel_execute Typing_execute
      JoinVoiceChannel_execute KickVoiceParticipant_execute VoiceChannelActivity_execute
      SendMessage_execute FetchMessagesBefore_execute CreateHub_execute JoinHubByInvite_execute
      GetHubInvite_execute ValidateHubInvite_execute LeaveHub_execute DeleteHub_execute
      KickHubMember_execute UpdateHub_execute UpdateHubMemberRole_execute UpdateUser_execute
      CreateChannel_execute RenameChannel_execute RemoveChannel_execute subscribe]; cbv zeta; command.
Qed.

Lemma vkept_bootstrap conn u : kept (dispatch_connection sv conn u).
Proof. unfold dispatch_connection, Bootstrap_execute, subscribe. command. Qed.

Lemma removed_users sm conn :
  Session.conn_to_session_ (Session.removeConnection sm conn) ⊆ Session.conn_to_session_ sm.
Proof.
  unfold Session.removeConnection, Session.dropSession.
  repeat (case_match; simpl; try apply delete_subseteq; try done).
Qed.

Lemma vkept_disconnection conn : kept (dispatch_disconnection conn).
Proof.
  unfold dispatch_disconnection, Disconnection_execute. steps.
  intros a1 Ha1. eapply I_remove; [apply removed_users|exact Ha1].
Qed.

Lemma vkept_attach conn u : has_token u -> kept (attach conn u).
Proof.
  intros Hu a Ha. unfold attach, Session.attachConnection.
  destruct (Session.conn_to_session_id_ _ !! conn); [exact Ha|].
  destruct (match Session.user_to_session_ids_ _ !! u with Some _ => _ | None => _ end); [exact Ha|].
  by apply I_attach.
Qed.

Lemma vkept_authenticate conn auth : kept (Authenticate_execute sv conn auth).
Proof.
  apply ex_triple_preserves. unfold Authenticate_execute. do 3 (case_match; [by apply ex_triple_ret|]).
  eapply ex_triple_bind with (Q := fun r a => keep a /\
    forall claims, r = Ok claims -> has_token (mkUserId (uc_id claims))).
  { intros a Ha. unfold on_world, on_voice, on_ext.
    destruct (AuthService.authenticate _ _ (ext (voice a))) as [r x] eqn:E. simpl. split; [done|].
    intros claims ->. eexists _, _, claims. split; [by rewrite E|done]. }
  intros r. apply ex_triple_pure. intros Hv. apply ex_triple_keeps.
  destruct r as [claims|e]; [|steps]. specialize (Hv claims eq_refl).
  unfold resume_voice. steps. by apply vkept_attach.
Qed.

(** Every command. *)
Lemma vkept_command ty conn parsed cmd : dispatch sv ty conn parsed = Some cmd -> kept cmd.
Proof.
  destruct (decide (ty = Envelope.AUTH)) as [->|Hty]; [|intros Hd; by eapply vkept_dispatch].
  simpl. destruct parsed; try done. intros [= <-]. apply vkept_authenticate.
Qed.

End Steps.
