(* ===== verification/SessionTokens.v ===== *)
(** * Sessions come from tokens

    In every interleaving of the worker pool, a connection's session belongs to
    a user whose token the verifier accepted: only AUTH adds a session, every
    other command and event leaves the connections' users as they are. *)

From S2P Require Import Prelude.
From S2P Require Import CStrings.
From S2P Require Import Ids.
From S2P Require Import Protocol.
From S2P Require Import PriorityQueues.
From S2P Require Import OutboundMsg.
From S2P Require Import SessionManager.
From S2P Require Import SubscriptionManager.
From S2P Require Import VoiceSessions.
From S2P Require Import HubService.
From S2P Require Import External.
From S2P Require Import VoiceWorld.
From S2P Require Import VoiceStores.
From S2P Require Import VoiceService.
From S2P Require Import VoiceFrame.
From S2P Require Import ServerEvents.
From S2P Require Import CommandUtils.
From S2P Require Import Messages.
From S2P Require Import MessageService.
From S2P Require Import UserService.
From S2P Require Import Invites.
From S2P Require Import Auth.
From S2P Require Import AppWorld.
From S2P Require Import SessionCommands.
From S2P Require Import HubCommands.
From S2P Require Import ChannelCommands.
From S2P Require Import ActivityCommands.
From S2P Require Import AppDemo.
From S2P Require Import Workers.

From S2P Require Import CommandSteps.

Section Tokens.
Context {X D : Type} {EXT : External X} {UN : Uniform} {JL : JsonLib} {CR : Crypto} {JW : JwtLib}
  {HR : HubRepo D} {UR : UserRepo D} {MR : MessageRepo D} {DE : DbErrors D}.
Variable sv : Services.
Variable parsers : Parsers.

(** The users of the connections. *)
Definition vouched_for (m : gmap GlobalConnId UserId) (q : EventQueue.t) : Prop :=
  forall c u, m !! c = Some u -> has_token (X := X) sv u.

Abbreviation all_vouched := (keep (X := X) (D := D) vouched_for).

Lemma vouched_attach m q c u : has_token (X := X) sv u -> vouched_for m q -> vouched_for (<[c := u]> m) q.
Proof. intros Hu Hm c' v [[_ <-]|[_ Hc]]%lookup_insert_Some; [done|by eapply Hm]. Qed.
Lemma vouched_remove m m' q : m' ⊆ m -> vouched_for m q -> vouched_for m' q.
Proof. intros Hs Hm c u Hc. eapply Hm. by eapply lookup_weaken. Qed.

Lemma vouched_turn w q q' :
  turn sv parsers w q = Some q' -> all_vouched (app q) -> all_vouched (app q').
Proof.
  intros Ht Ha. revert Ht. unfold turn, loop_head.
  destruct (workers q w) as [| | | | | | | |evt|conn ty parsed|conn ty out|conn ty|out];
    try (by intros [= <-]).
  - destruct (EventQueue.wait_pop _) as [[[b [evt|]]|] eq]; intros [= <-]; exact Ha.
  - destruct evt as [conn user|conn code reason|conn env]; intros [= <-].
    + unfold run_other. pose proof (vkept_bootstrap sv vouched_for conn user _ Ha).
      by destruct (dispatch_connection _ _ _ _) as [[out|] a].
    + unfold run_other. pose proof (vkept_disconnection vouched_for vouched_remove conn _ Ha).
      by destruct (dispatch_disconnection _ _) as [[out|] a].
    + unfold begin_message. destruct (parse_inbound_payload parsers env); [|exact Ha].
      destruct (command_uses_inflight_dedup _); [|exact Ha].
      by destruct (try_mark_executing _ _ _) as [[] m].
  - intros [= <-]. unfold run_message. destruct (dispatch sv ty conn parsed) as [cmd|] eqn:Ed; [|exact Ha].
    pose proof (vkept_command sv vouched_for (fun _ _ _ H => H) vouched_attach _ _ _ _ Ed _ Ha).
    by destruct (cmd (app q)) as [[out|] a].
  - intros [= <-]. by destruct (command_uses_inflight_dedup ty).
Qed.

Lemma vouched_step p p' : step sv parsers p p' -> all_vouched (app p) -> all_vouched (app p').
Proof.
  intros [w q q' Ht|w q Hw|evt q|n q Hw|q|q|q] Ha; [by eapply vouched_turn|exact Ha|exact Ha|..];
    unfold start, stop, pause, resume; by destruct (running_ q).
Qed.

(** C11: every session is authenticated.  From a start without sessions, in
    every interleaving of any number of workers and of the network, exceptions
    included, the user of a connection's session is the subject of a token the
    verifier has accepted. *)
Theorem sessions_have_tokens (a0 : App X D) (p : pool X D) (conn : GlobalConnId) (u : UserId) :
  (forall c, session_of c a0 = None) -> reachable sv parsers a0 p ->
  session_of conn (app p) = Some u ->
  exists token x claims, (AuthService.authenticate (token_verifier sv) token (x : X)).1 = Ok claims /\
    u = mkUserId (uc_id claims).
Proof.
  assert (Hof : forall c v (a : App X D), session_of c a = Some v <->
    Session.conn_to_session_ (session_manager_ (voice a)) !! c = Some v).
  { intros c v a. unfold session_of, Session.sessionOfConnection, sessions.
    destruct (Session.conn_to_session_ _ !! c); simpl; naive_solver. }
  intros Hno Hr. assert (Hall : all_vouched (app p)).
  { induction Hr as [|p p' _ IH Hstep].
    - intros c v Hc. apply (Hof c v a0) in Hc. by rewrite Hno in Hc.
    - by eapply vouched_step. }
  intros Hu. apply Hof in Hu. by eapply Hall.
Qed.

End Tokens.

Import AppDemo.

(** Alice has logged in. *)
Definition logged_in_pool : pool DemoWorld.t AppDemo.db :=
  foldl WorkersDemo.act (WorkersDemo.started 100)
    (WorkersDemo.settle 0 ++ [inr (WorkersDemo.login "1"); inl 0; inl 0; inl 0]).

Lemma sessions_have_tokens_witness :
  session_of (AppDemo.conn "1") (app logged_in_pool) = Some AppDemo.alice /\
  has_token (X := DemoWorld.t) AppDemo.sv AppDemo.alice.
Proof.
  assert (Hs : session_of (AppDemo.conn "1") (app logged_in_pool) = Some AppDemo.alice)
    by (vm_compute; reflexivity).
  split; [exact Hs|].
  apply (sessions_have_tokens AppDemo.sv WorkersDemo.parsers (AppDemo.boot 100) logged_in_pool
    (AppDemo.conn "1")).
  - intros c. unfold session_of, Session.sessionOfConnection. simpl. by rewrite lookup_empty.
  - apply WorkersDemo.acts_reachable, WorkersDemo.started_reachable.
  - exact Hs.
Defined.
