(* ===== verification/WorkerShutdown.v ===== *)
(** * Stopping the worker pool

    [WorkerPool::stop] joins its threads: each of them has to reach the end of
    [worker_loop].  A worker does, in a bounded number of its own turns, unless
    it was about to block in [wait_if_paused] when the flags changed; then the
    notification is lost and it sleeps on. *)

From S2P Require Import Prelude.
From S2P Require Import CStrings.
From S2P Require Import Ids.
From S2P Require Import Protocol.
From S2P Require Import PriorityQueues.
From S2P Require Import OutboundMsg.
From S2P Require Import SessionManager.
From S2P Require Import SubscriptionManager.
From S2P Require Import VoiceSessions.
From S2P Require Import HubService.
From S2P Require Import External.
From S2P Require Import VoiceWorld.
From S2P Require Import VoiceStores.
From S2P Require Import VoiceService.
From S2P Require Import VoiceFrame.
From S2P Require Import ServerEvents.
From S2P Require Import CommandUtils.
From S2P Require Import Messages.
From S2P Require Import MessageService.
From S2P Require Import UserService.
From S2P Require Import Invites.
From S2P Require Import Auth.
From S2P Require Import AppWorld.
From S2P Require Import SessionCommands.
From S2P Require Import HubCommands.
From S2P Require Import ChannelCommands.
From S2P Require Import ActivityCommands.
From S2P Require Import AppDemo.
From S2P Require Import Workers.

From S2P Require Import CommandSteps.


Section Shutdown.
Context {X D : Type} {EXT : External X} {UN : Uniform} {JL : JsonLib} {CR : Crypto} {JW : JwtLib}
  {HR : HubRepo D} {UR : UserRepo D} {MR : MessageRepo D} {DE : DbErrors D}.
Variable sv : Services.
Variable parsers : Parsers.

(** ** A stopped queue stays stopped *)

Definition queue_stopped (m : gmap GlobalConnId UserId) (q : EventQueue.t) : Prop :=
  EventQueue.stopped_ q = true.

Abbreviation stopped := (keep (X := X) (D := D) queue_stopped).

Lemma push_stopped m q e : queue_stopped m q -> queue_stopped m (EventQueue.push_impl q e).2.
Proof.
  unfold queue_stopped, EventQueue.push_impl. intros Hq.
  by repeat (case_match; simpl).
Qed.

Lemma wait_pop_stopped q r q' : EventQueue.wait_pop q = (r, q') ->
  EventQueue.stopped_ q = true -> EventQueue.stopped_ q' = true /\ r <> None.
Proof.
  unfold EventQueue.wait_pop, EventQueue.pop_front_locked. intros Hp Hq. revert Hp. rewrite Hq.
  rewrite orb_true_r. destruct (EventQueue.size_ q =? 0)%Z; [by intros [= <- <-]|].
  destruct (EventQueue.high_ q); [destruct (EventQueue.low_ q)|]; by intros [= <- <-].
Qed.

(** ** The invariant *)

(** A started thread whose pool no longer runs finds the queue stopped, and what
    a worker runs is what the command of its type requires. *)
Record stop_ok (p : pool X D) : Prop := mk_stop_ok {
  ok_stopped : forall w, running_ p = false -> workers p w <> Exited -> stopped (app p);
  ok_fits : forall w conn ty parsed, workers p w = Running conn ty parsed ->
    dispatch (X := X) (D := D) sv ty conn parsed <> None
}.

(** Only worker [w] changes, and the queue does not start again. *)
Lemma stop_ok_update p p' w :
  stop_ok p -> running_ p' = running_ p ->
  (forall w', w' <> w -> workers p' w' = workers p w') -> workers p w <> Exited ->
  (stopped (app p) -> stopped (app p')) ->
  (forall conn ty parsed, workers p' w = Running conn ty parsed ->
     dispatch (X := X) (D := D) sv ty conn parsed <> None) ->
  stop_ok p'.
Proof.
  intros [Hs Hf] Hr Hw He Hq Hd. split.
  - intros w' Hrun Hw'. apply Hq, (Hs w); [congruence|done].
  - intros w' conn ty parsed Hw'. destruct (decide (w' = w)) as [->|Hne]; [by eapply Hd|].
    rewrite Hw in Hw' by done. by eapply Hf.
Qed.

Lemma stage_ok w st (p q : pool X D) :
  stop_ok p -> workers p w <> Exited -> running_ q = running_ p -> workers q = workers p ->
  (stopped (app p) -> stopped (app q)) ->
  (forall conn ty parsed, st = Running conn ty parsed ->
     dispatch (X := X) (D := D) sv ty conn parsed <> None) ->
  stop_ok (set_worker w st q).
Proof.
  intros Hok He Hr Hw Hq Hd. eapply (stop_ok_update p _ w); [done|done| |done|exact Hq|].
  - intros w' Hne. rewrite workers_set_ne by done. by rewrite Hw.
  - intros *. rewrite workers_set. apply Hd.
Qed.

Lemma run_other_ok w cmd (p : pool X D) :
  stop_ok p -> workers p w <> Exited -> ex_preserves (keep queue_stopped) cmd ->
  stop_ok (run_other w cmd p).
Proof.
  intros Hok He Hc. unfold run_other. destruct (cmd (app p)) as [r a] eqn:E.
  assert (Ha : stopped (app p) -> stopped a) by (intros Hs; specialize (Hc _ Hs); by rewrite E in Hc).
  destruct r as [out|]; by eapply (stage_ok w _ p).
Qed.

Lemma loop_head_stop w (p p' : pool X D) :
  stop_ok p -> workers p w <> Exited -> loop_head w (workers p w) p = Some p' -> stop_ok p'.
Proof.
  intros Hok He. assert (Hstage : forall st, (forall conn ty parsed, st <> Running conn ty parsed) ->
    stop_ok (set_worker w st p)) by (intros st Hst; eapply stage_ok; try done; intros * ->; by destruct (Hst _ _ _ eq_refl)).
  unfold loop_head. destruct (workers p w) eqn:Ew; try done;
    try (intros [= <-]; apply Hstage; intros *; by repeat case_match).
  destruct (EventQueue.wait_pop _) as [[[b [evt|]]|] q] eqn:Ep; intros [= <-];
    (eapply stage_ok; [done|by rewrite Ew|done|done| |by intros * [=]]);
    intros Hs; exact (proj1 (wait_pop_stopped _ _ _ Ep Hs)).
Qed.

Lemma begin_stop w conn env (p : pool X D) :
  stop_ok p -> workers p w <> Exited -> stop_ok (begin_message parsers w conn env p).
Proof.
  intros Hok He. unfold begin_message.
  destruct (parse_inbound_payload parsers env) as [parsed|e] eqn:Ep; [|by eapply stage_ok].
  pose proof (parsed_dispatch sv parsers env parsed conn Ep) as Hd.
  assert (Hrun : forall q : pool X D, running_ q = running_ p -> workers q = workers p -> app q = app p ->
    stop_ok (set_worker w (Running conn (Envelope.type env) parsed) q)).
  { intros q Hr Hw Ha. eapply stage_ok; [exact Hok|done|done|done|by rewrite Ha|].
    by intros * [= <- <- <-]. }
  destruct (command_uses_inflight_dedup _); [|by apply Hrun].
  destruct (try_mark_executing _ _ _) as [[] m]; [by apply Hrun|]. by eapply stage_ok.
Qed.

Lemma turn_stop w (p p' : pool X D) : stop_ok p -> turn sv parsers w p = Some p' -> stop_ok p'.
Proof.
  intros Hok. unfold turn. assert (Hne : workers p w <> Exited \/ workers p w = Exited)
    by (destruct (workers p w); auto).
  destruct Hne as [Hne|Hex]; [|by rewrite Hex].
  destruct (workers p w) as [| | | | | | | |evt|conn ty parsed|conn ty out|conn ty|out] eqn:Ew;
    try (rewrite <- Ew; apply loop_head_stop; [done|by rewrite Ew]); rewrite <- Ew in Hne.
  - destruct evt as [conn user|conn code reason|conn env]; intros [= <-].
    + apply run_other_ok; [done..|]. apply vkept_bootstrap.
    + apply run_other_ok; [done..|]. apply vkept_disconnection. by intros.
    + by apply begin_stop.
  - intros [= <-]. unfold run_message. destruct (dispatch sv ty conn parsed) as [cmd|] eqn:Ed;
      [|by destruct (ok_fits _ Hok _ _ _ _ Ew)].
    pose proof (vkept_command sv queue_stopped push_stopped (fun _ _ _ _ _ H => H) _ _ _ _ Ed (app p)) as Hk.
    destruct (cmd (app p)) as [[out|] a]; by eapply stage_ok.
  - intros [= <-]. destruct (command_uses_inflight_dedup ty); by eapply stage_ok.
  - intros [= <-]. by eapply stage_ok.
  - intros [= <-]. by eapply stage_ok.
Qed.

(** The threads and flags change, no worker starts running a command. *)
Lemma flags_stop (p p' : pool X D) :
  stop_ok p -> (running_ p' = false -> stopped (app p')) ->
  (forall w conn ty parsed, workers p' w = Running conn ty parsed -> workers p w = Running conn ty parsed) ->
  stop_ok p'.
Proof. intros [_ Hf] Hs Hw. split; [by intros; apply Hs|eauto]. Qed.

Lemma notify_running ws w conn ty parsed :
  notify_all ws w = Running conn ty parsed -> ws w = Running conn ty parsed.
Proof. unfold notify_all. by destruct (ws w). Qed.

Lemma step_keeps_stop p p' : step sv parsers p p' -> stop_ok p -> stop_ok p'.
Proof.
  intros [w q q' Ht|w q Hw|evt q|n q Hw|q|q|q] Hok.
  - by eapply turn_stop.
  - eapply (stage_ok w _ q); try done. by rewrite Hw.
  - destruct Hok as [Hs Hf]. split; [|exact Hf]. intros w Hr He. apply push_stopped. by eapply Hs.
  - unfold start. destruct (running_ q) eqn:Er; [done|]. eapply flags_stop; [done|done|]. simpl.
    intros w *. by destruct (w <? n)%nat.
  - unfold stop. destruct (running_ q); [|done]. eapply flags_stop; [done|done|]. simpl.
    intros *. apply notify_running.
  - unfold pause. destruct (running_ q); [|done]. by eapply flags_stop.
  - unfold resume. destruct (running_ q); [|done]. eapply flags_stop; [done|done|]. simpl.
    intros *. apply notify_running.
Qed.

Lemma reachable_stop a p : reachable sv parsers a p -> stop_ok p.
Proof. induction 1; [by split|]. by eapply step_keeps_stop. Qed.

(** ** The way out *)

(** A turn of worker [w], when it can take one. *)
Definition take_turn (w : nat) (p : pool X D) : pool X D := default p (turn sv parsers w p).

(** How many turns the stage is away from the exit of a stopped pool. *)
Definition turns_left (st : stage) : nat :=
  match st with
  | Exited => 0
  | Entering | Looping => 1
  | Testing | Pushing _ | Threw _ _ => 2
  | Gate | Returned _ _ _ => 3
  | Running _ _ _ => 4
  | Holding _ => 5
  | Idle => 6
  | Blocking | Parked => 7
  end.

Definition awake (st : stage) : bool := match st with Blocking | Parked => false | _ => true end.

(** While the pool is stopped a turn is possible and brings the exit closer. *)
Lemma turn_nearer w p :
  stop_ok p -> running_ p = false -> awake (workers p w) = true -> workers p w <> Exited ->
  exists p', turn sv parsers w p = Some p' /\ running_ p' = false /\
    awake (workers p' w) = true /\ turns_left (workers p' w) < turns_left (workers p w).
Proof.
  intros Hok Hr Haw He. unfold turn.
  assert (Hset : forall st (q : pool X D), running_ q = false -> awake st = true ->
    turns_left st < turns_left (workers p w) ->
    exists p', Some (set_worker w st q) = Some p' /\ running_ p' = false /\
      awake (workers p' w) = true /\ turns_left (workers p' w) < turns_left (workers p w)).
  { intros st q Hq Ha Hl. eexists. split; [done|]. by rewrite workers_set. }
  destruct (workers p w) as [| | | | | | | |evt|conn ty parsed|conn ty out|conn ty|out] eqn:Ew;
    unfold loop_head; rewrite ?Hr, ?orb_true_r; try done; try (apply Hset; simpl; by auto with lia).
  - apply Hset; [done|by destruct (paused_ p)|]. destruct (paused_ p); simpl; lia.
  - assert (Hs : stopped (app p)) by (apply (ok_stopped _ Hok w); [done|by rewrite Ew]).
    destruct (EventQueue.wait_pop _) as [[[b [evt|]]|] q] eqn:Ep; try (apply Hset; simpl; by auto with lia).
    by destruct (wait_pop_stopped _ _ _ Ep Hs).
  - destruct evt as [conn user|conn code reason|conn env]; unfold run_other, begin_message.
    + destruct (dispatch_connection _ _ _ _) as [[out|] a]; apply Hset; simpl; by auto with lia.
    + destruct (dispatch_disconnection _ _) as [[out|] a]; apply Hset; simpl; by auto with lia.
    + destruct (parse_inbound_payload parsers env); [|apply Hset; simpl; by auto with lia].
      destruct (command_uses_inflight_dedup _); [|apply Hset; simpl; by auto with lia].
      destruct (try_mark_executing _ _ _) as [[] m]; apply Hset; simpl; by auto with lia.
  - unfold run_message. destruct (dispatch sv ty conn parsed) as [cmd|] eqn:Ed;
      [|by destruct (ok_fits _ Hok _ _ _ _ Ew)].
    destruct (cmd (app p)) as [[out|] a]; apply Hset; simpl; by auto with lia.
  - apply Hset; [by destruct (command_uses_inflight_dedup ty)|done|simpl; lia].
Qed.

Lemma exits_within n : forall w p,
  stop_ok p -> running_ p = false -> awake (workers p w) = true -> turns_left (workers p w) <= n ->
  workers (Nat.iter n (take_turn w) p) w = Exited.
Proof.
  induction n as [|n IH]; intros w p Hok Hr Haw Hn; [simpl; destruct (workers p w); simpl in *; done || lia|].
  rewrite Nat.iter_succ_r. unfold take_turn at 2.
  assert (Hdec : workers p w = Exited \/ workers p w <> Exited) by (destruct (workers p w); auto).
  destruct Hdec as [He|He].
  - unfold turn at 1. rewrite He. simpl. apply IH; [done..|]. rewrite He. simpl. lia.
  - destruct (turn_nearer w p) as (p' & Ht & Hr' & Haw' & Hl); [done..|]. rewrite Ht. simpl.
    apply IH; [by eapply turn_stop|done|done|lia].
Qed.

(** A stopped pool winds down.  After [stop], whatever the threads were
    doing and whatever is still queued, a worker that is not blocked in
    [wait_if_paused] or about to block there reaches the end of its thread
    within six turns of its own, so that the join in [stop] returns. *)
Theorem stopped_worker_exits (a : App X D) (p : pool X D) (w : nat) :
  reachable sv parsers a p -> running_ p = false -> awake (workers p w) = true ->
  workers (Nat.iter 6 (take_turn w) p) w = Exited.
Proof.
  intros Hreach Hr Haw. apply exits_within; [by eapply reachable_stop|done|done|].
  destruct (workers p w); simpl in *; done || lia.
Qed.

End Shutdown.

(** ** On the small application *)

Import AppDemo.

(** A worker has taken a login when the pool is stopped. *)
Definition stopped_in_login : pool DemoWorld.t AppDemo.db :=
  stop (foldl WorkersDemo.act (WorkersDemo.started 100)
    (WorkersDemo.settle 0 ++ [inr (WorkersDemo.login "1"); inl 0])).

Lemma stopped_worker_exits_witness :
  workers stopped_in_login 0 = Holding (WorkersDemo.login "1") /\
  workers (Nat.iter 6 (take_turn AppDemo.sv WorkersDemo.parsers 0) stopped_in_login) 0 = Exited.
Proof.
  split; [vm_compute; reflexivity|].
  apply (stopped_worker_exits AppDemo.sv WorkersDemo.parsers (AppDemo.boot 100));
    [|vm_compute; reflexivity|vm_compute; reflexivity].
  eapply reachable_step; [|apply step_stop].
  apply WorkersDemo.acts_reachable, WorkersDemo.started_reachable.
Defined.

(** [pause], and a worker has tested the predicate of [wait_if_paused]; [stop]
    changes the flags and notifies without holding [pause_mtx_], then the worker
    blocks.  It has no turn any more: the join in [stop] never returns. *)
Example stop_loses_wakeup :
  let p := foldl WorkersDemo.act (pause (WorkersDemo.started 100)) [inl 0; inl 0; inl 0] in
  let p' := WorkersDemo.act (stop p) (inl 0) in
  reachable AppDemo.sv WorkersDemo.parsers (AppDemo.boot 100) p' /\
  running_ p' = false /\ paused_ p' = false /\ workers p' 0 = Parked /\
  turn AppDemo.sv WorkersDemo.parsers 0 p' = None.
Proof.
  intros p p'. split; [|by vm_compute].
  apply WorkersDemo.act_reachable. eapply reachable_step; [|apply step_stop].
  apply WorkersDemo.acts_reachable. eapply reachable_step; [apply WorkersDemo.started_reachable|].
  apply step_pause.
Qed.
