(* ===== verification/AccessControl.v ===== *)
(** * Access control

    What the commands guarantee together: without a session a command does
    nothing, every session comes from a verified token, the tables change only
    as the roles allow, and the subscribers of a hub are its members. *)

From S2P Require Import Prelude.
From S2P Require Import CStrings.
From S2P Require Import Ids.
From S2P Require Import Protocol.
From S2P Require Import PriorityQueues.
From S2P Require Import OutboundMsg.
From S2P Require Import SessionManager.
From S2P Require Import SubscriptionManager.
From S2P Require Import VoiceSessions.
From S2P Require Import HubService.
From S2P Require Import HubCoherence.
From S2P Require Import HubEffects.
From S2P Require Import External.
From S2P Require Import VoiceWorld.
From S2P Require Import VoiceStores.
From S2P Require Import VoiceService.
From S2P Require Import VoiceFrame.
From S2P Require Import ServerEvents.
From S2P Require Import CommandUtils.
From S2P Require Import Messages.
From S2P Require Import MessageService.
From S2P Require Import UserService.
From S2P Require Import Invites.
From S2P Require Import Auth.
From S2P Require Import AppWorld.
From S2P Require Import SessionCommands.
From S2P Require Import HubCommands.
From S2P Require Import ChannelCommands.
From S2P Require Import ActivityCommands.
From S2P Require Import CommandFrame.
From S2P Require Import CommandPolicy.
From S2P Require Import CommandProofs.
From S2P Require Import CommandWrites.
From S2P Require Import AppDemo.
From S2P Require Import Workers.
From S2P Require Import CommandSteps.
From S2P Require Import SessionTokens.

Import HubCoherence HubEffects Utils.

(** ** Subscribers are members *)

Section Members.
Context {D : Type} {HR : HubRepo D} {HL : HubRepoLaws D}.

(** [u] may receive what is published on [tp]: a member of its hub, and the
    channel is one of the hub's. *)
Definition entitled (tb : Tables) (tp : Topic.t) (u : UserId) : Prop :=
  is_Some (role_in tb (Topic.extractHubId tp) u) /\
  match Topic.kind tp with
  | Topic.Hub => tp = Topic.HubTopic (Topic.extractHubId tp)
  | Topic.Channel => Topic.extractChannelId tp ∈ order_of tb (Topic.extractHubId tp)
  | Topic.User => False
  end.

Definition members_only (tb : Tables) (tbl : Session.Table) (R : Rel) : Prop :=
  forall c tp, (c, tp) ∈ R -> exists u s, tbl !! c = Some (u, s) /\ entitled tb tp u.

Lemma entitled_mono tb tb' tp u :
  entitled tb tp u ->
  (is_Some (role_in tb (Topic.extractHubId tp) u) -> is_Some (role_in tb' (Topic.extractHubId tp) u)) ->
  (Topic.extractChannelId tp ∈ order_of tb (Topic.extractHubId tp) ->
   Topic.extractChannelId tp ∈ order_of tb' (Topic.extractHubId tp)) ->
  entitled tb' tp u.
Proof. intros [Hr Hk] Hrole Hord. split; [auto|]. destruct (Topic.kind tp); auto. Qed.

Lemma role_same tb tb' h u : same_hub tb tb' h -> role_in tb' h u = role_in tb h u.
Proof. intros (H1 & _ & H3). unfold role_in. by rewrite H1, H3. Qed.

Lemma entitled_same tb tb' tp u :
  same_hub tb tb' (Topic.extractHubId tp) -> entitled tb tp u -> entitled tb' tp u.
Proof.
  intros Hs He. apply (entitled_mono tb); [done|by rewrite (role_same _ _ _ _ Hs)|].
  destruct Hs as (_ & -> & _). done.
Qed.

(** Only hub [h] changed: what is left to show is about its topics. *)
Lemma entitled_other h tb tb' tp u :
  only_hub_changed h tb tb' -> entitled tb tp u ->
  (Topic.extractHubId tp = h -> entitled tb' tp u) -> entitled tb' tp u.
Proof.
  intros Ho He Hh. destruct (decide (Topic.extractHubId tp = h)) as [Heq|Hne]; [by apply Hh|].
  by apply (entitled_same tb); [apply Ho|].
Qed.

Lemma hub_of_topic h : Topic.extractHubId (Topic.HubTopic h) = h.
Proof. by destruct h. Qed.

Lemma entitled_topic tb tp u h : entitled tb tp u -> Topic.extractHubId tp = h ->
  tp ∈ hub_topics h (order_of tb h).
Proof.
  intros [_ Hk] <-. unfold hub_topics. destruct (Topic.kind tp) eqn:E; [| |done].
  - rewrite Hk. rewrite hub_of_topic. left.
  - right. apply list_elem_of_fmap. exists (Topic.extractChannelId tp). split; [|done].
    unfold Topic.extractHubId, Topic.extractChannelId in *. rewrite E. simpl.
    by destruct tp; simpl in *; subst.
Qed.

Lemma entitled_hub tb h u : is_Some (role_in tb h u) -> entitled tb (Topic.HubTopic h) u.
Proof. intros Hr. split; rewrite ?hub_of_topic; done. Qed.

(** *** Every step of the policy keeps it *)

Context (conn : GlobalConnId) (u : UserId) (sid : Z) (tbl : Session.Table).
Hypothesis Hconn : tbl !! conn = Some (u, sid).
Hypothesis Hcanon : norm_user u = u.

Lemma members_subscribed tb R C tp :
  members_only tb tbl R -> (forall c, c ∈ C -> exists v s, tbl !! c = Some (v, s) /\ entitled tb tp v) ->
  members_only tb tbl (subscribed C tp R).
Proof.
  intros Hm HC c tp' Hin. unfold subscribed in Hin. apply elem_of_union in Hin as [Hin|Hin]; [|by apply Hm].
  apply elem_of_map in Hin as (c' & [= -> ->] & Hc). by apply HC.
Qed.

Lemma connected_entitled tb tp v :
  entitled tb tp v -> forall c, c ∈ connected tbl v -> exists w s, tbl !! c = Some (w, s) /\ entitled tb tp w.
Proof. intros He c [s Hs]%connected_elem. eauto. Qed.

Lemma members_step tb tb' R R' :
  (forall p, p ∈ R' -> p ∈ R) ->
  (forall c tp v s, (c, tp) ∈ R' -> tbl !! c = Some (v, s) -> entitled tb tp v -> entitled tb' tp v) ->
  members_only tb tbl R -> members_only tb' tbl R'.
Proof.
  intros Hsub He Hm c tp Hin. destruct (Hm c tp (Hsub _ Hin)) as (v & s & Hv & Hev). eauto 6.
Qed.

Lemma role_exists tb h v : is_Some (role_in tb h v) <->
  is_Some (tb_hubs tb !! h) /\ is_Some (HubService.roles_of (members_of tb h) !! v).
Proof. unfold role_in. case_decide; naive_solver. Qed.

(** A change of the members of [h]. *)
Lemma entitled_members h f tb tb' tp v :
  members_changed h f tb tt tb' -> entitled tb tp v ->
  (Topic.extractHubId tp = h -> forall m, is_Some (m !! v) -> is_Some (f m !! v)) ->
  entitled tb' tp v.
Proof.
  intros (Ho & _ & Hh & Hor & Hr) He Hf. apply (entitled_other h tb); [done..|]. intros Heq.
  apply (entitled_mono tb); [done|..]; rewrite ?Heq, ?Hor; [|done].
  rewrite !role_exists, Hh, Hr. intros [? ?]. split; [done|]. by apply Hf.
Qed.

(** The removed user's topics of the hub are gone. *)
Lemma removed_member h w tb tb' R :
  members_changed h (delete w) tb tt tb' -> members_only tb tbl R ->
  members_only tb' tbl (unsubscribed (connected tbl w) (hub_topics h (order_of tb h)) R).
Proof.
  intros Hm. apply members_step.
  - intros p [_ ?]%elem_of_filter. done.
  - intros c tp v s [Hnot _]%elem_of_filter Hc He. eapply entitled_members; [exact Hm|exact He|].
    intros Heq m. rewrite lookup_delete_ne; [done|]. intros ->. apply Hnot.
    split; [apply connected_elem; eauto|]. by eapply entitled_topic.
Qed.

Lemma channel_created_keeps h n ty c tb tb' R :
  channel_created h n ty tb c tb' -> members_only tb tbl R -> members_only tb' tbl R.
Proof.
  intros (_ & _ & Ho & Hh & Hm & Hor). apply members_step; [done|]. intros c' tp v s _ _ He.
  apply (entitled_other h tb); [done..|]. intros Heq. apply (entitled_mono tb); [done|..]; rewrite Heq.
  - by rewrite !role_exists, Hh, Hm.
  - rewrite Hor, elem_of_app. auto.
Qed.

Lemma hub_deleted_keeps h tb tb' R :
  hub_deleted h tb true tb' -> members_only tb tbl R ->
  members_only tb' tbl (without_topics (hub_topics h (order_of tb h)) R).
Proof.
  intros (_ & Ho & _). apply members_step.
  - by intros p [_ ?]%elem_of_filter.
  - intros c tp v s [Hnot _]%elem_of_filter _ He. apply (entitled_other h tb); [done..|].
    intros Heq. destruct Hnot. by eapply entitled_topic.
Qed.

Lemma channel_deleted_keeps c h tb tb' R :
  channel_deleted c h tb true tb' -> members_only tb tbl R ->
  members_only tb' tbl (without_topics [Topic.ChannelTopic h c] R).
Proof.
  intros (_ & Ho & Hh & Hm & Hor). apply members_step.
  - by intros p [_ ?]%elem_of_filter.
  - intros c' tp v s [Hnot _]%elem_of_filter _ He. apply (entitled_other h tb); [done..|].
    intros Heq. destruct He as [Hr Hk]. split.
    + rewrite Heq in *. by rewrite role_exists, Hh, Hm, <- role_exists.
    + destruct (Topic.kind tp) eqn:E; [done| |done]. rewrite Heq in *. rewrite Hor.
      apply list_elem_of_filter. split; [|done]. intros <-. apply Hnot, list_elem_of_singleton.
      subst h. unfold Topic.extractHubId, Topic.extractChannelId. simpl. rewrite E.
      by destruct tp; simpl in *; subst.
Qed.

Lemma hub_created_keeps hub tb tb1 tb' R :
  hub_created u tb hub tb1 ->
  tb' = tb1 \/ (exists c, channel_created (hub_id hub) "general" CHAT tb1 c tb') ->
  members_only tb tbl R ->
  members_only tb' tbl (subscribed (connected tbl u) (Topic.HubTopic (hub_id hub)) R).
Proof.
  intros (Hnew & Hrow & Hroles & Hord & Ho & _) Htb Hm.
  assert (Hm1 : members_only tb1 tbl R).
  { revert Hm. apply members_step; [done|]. intros c tp v s _ _ He.
    apply (entitled_other (hub_id hub) tb); [done..|]. intros Heq. exfalso.
    destruct He as [Hr _]. rewrite role_exists, Heq, Hnew in Hr. by destruct Hr as [[] _]. }
  assert (Hr1 : is_Some (role_in tb1 (hub_id hub) u)).
  { rewrite role_exists, Hrow, Hroles, Hcanon, lookup_singleton_eq. eauto. }
  destruct Htb as [->|[c Hch]]; apply members_subscribed; try done.
  - by apply connected_entitled, entitled_hub.
  - by eapply channel_created_keeps.
  - destruct Hch as (_ & _ & _ & Hh & Hmem & _). apply connected_entitled, entitled_hub.
    by rewrite role_exists, Hh, Hmem, <- role_exists.
Qed.

(** A new or changed role takes nobody out. *)
Lemma member_set_keeps h v r tb tb' R :
  members_changed h <[v := r]> tb tt tb' -> members_only tb tbl R -> members_only tb' tbl R.
Proof.
  intros Hch. apply members_step; [done|]. intros c tp w s _ _ He.
  eapply entitled_members; [exact Hch|exact He|]. intros _ m Hv. rewrite lookup_insert.
  case_decide; [by eexists|done].
Qed.

Lemma policy_keeps_members tb tb' R R' :
  tables_ok tb -> policy conn u tbl tb R tb' R' -> members_only tb tbl R -> members_only tb' tbl R'.
Proof.
  intros Hok Hp Hm. destruct Hp as [tb' Hs Hc|hub tb1 tb' Hc Htb|h tb' Hex Hno Hch|h Hr|h r tb' Hr Hno Hch
    |h v ra rt tb' Ha Ht Hk Hch|h v ra rt r tb' Ha Ht Hk Hch|h r tb' Hr Hk (Ho & (Hi & Hor & Hme) & _)
    |h tb' Hr Hd|h r n ty c tb' Hr Hk Hl Hc|c ch r n tb' Hc Hr Hk [Hs _]|c ch tb' Hc Hr Hd|c ch Hc Hty Hr].
  - revert Hm. apply members_step; [done|]. intros. by eapply entitled_same.
  - by eapply hub_created_keeps.
  - apply members_subscribed.
    + by eapply member_set_keeps.
    + apply connected_entitled, entitled_hub. destruct Hch as (_ & _ & Hh & _ & Hroles).
      rewrite role_exists, Hh, Hroles, Hcanon, lookup_insert_eq. eauto.
  - apply members_subscribed; [done|]. by apply connected_entitled, entitled_hub.
  - by eapply removed_member.
  - by eapply removed_member.
  - by eapply member_set_keeps.
  - revert Hm. apply members_step; [done|]. intros c tp v s _ _ He.
    apply (entitled_other h tb); [done..|]. intros Heq.
    apply (entitled_mono tb); [done|..]; rewrite Heq, ?Hor; [|done].
    rewrite !role_exists, Hme. naive_solver.
  - by eapply hub_deleted_keeps.
  - by eapply channel_created_keeps.
  - revert Hm. apply members_step; [done|]. intros. by eapply entitled_same.
  - by eapply channel_deleted_keeps.
  - apply members_subscribed; [done|]. intros c' ->%elem_of_singleton. exists u, sid. split; [done|].
    split; simpl.
    + unfold Topic.extractHubId. simpl. by destruct (ch_hub_id ch).
    + unfold Topic.extractHubId, Topic.extractChannelId. simpl.
      pose proof (tk_listed _ Hok _ _ Hc). by destruct (ch_hub_id ch), c.
Qed.

(** *** Who may change what *)

Definition manages_hub (tb : Tables) (h : HubId) : Prop :=
  exists r, role_in tb h u = Some r /\ may_manage r.

Lemma manager tb h r : role_in tb h u = Some r -> may_manage r -> manages_hub tb h.
Proof. intros. by exists r. Qed.
Lemma owner_manages tb h : role_in tb h u = Some OWNER -> manages_hub tb h.
Proof. intros. apply (manager tb h OWNER); [done|by left]. Qed.

(** A hub [u] may have changed from [tb] to [tb']. *)
Definition may_change_hub (tb tb' : Tables) (h : HubId) : Prop :=
  manages_hub tb h \/
  (tb_hubs tb !! h = None /\ role_in tb' h u = Some OWNER) \/
  (tb_hubs tb' !! h = tb_hubs tb !! h /\ order_of tb' h = order_of tb h /\
   forall v, v <> u -> HubService.roles_of (members_of tb' h) !! v = HubService.roles_of (members_of tb h) !! v).

Definition may_change_channel (tb tb' : Tables) (c : ChannelId) : Prop :=
  exists ch, (tb_channels tb !! c = Some ch \/ tb_channels tb' !! c = Some ch) /\
    (manages_hub tb (ch_hub_id ch) \/
     (tb_hubs tb !! ch_hub_id ch = None /\ role_in tb' (ch_hub_id ch) u = Some OWNER)).

Lemma changed_here h h' tb tb' : only_hub_changed h tb tb' -> ~ same_hub tb tb' h' -> h' = h.
Proof. intros Ho Hd. destruct (decide (h' = h)) as [|Hne]; [done|]. by destruct Hd; apply Ho. Qed.

Lemma kick_manages ra rt v : RolePolicy.canKickHubMember ra rt u v = true -> may_manage ra.
Proof.
  unfold RolePolicy.canKickHubMember, may_manage. destruct ra; auto.
  by repeat case_bool_decide.
Qed.

Lemma change_role_manages ra rt r v : RolePolicy.canChangeMemberRole ra rt r u v = true -> may_manage ra.
Proof. unfold RolePolicy.canChangeMemberRole, may_manage. destruct ra; [done|done|by auto]. Qed.

Lemma created_owner hub tb tb1 tb' :
  hub_created u tb hub tb1 ->
  tb' = tb1 \/ (exists c, channel_created (hub_id hub) "general" CHAT tb1 c tb') ->
  only_hub_changed (hub_id hub) tb tb' /\ tb_hubs tb !! hub_id hub = None /\
  role_in tb' (hub_id hub) u = Some OWNER.
Proof using Hcanon.
  intros (Hnew & Hrow & Hroles & _ & Ho & _) Htb.
  assert (Hr : role_in tb1 (hub_id hub) u = Some OWNER).
  { unfold role_in. rewrite decide_True by eauto. by rewrite Hroles, Hcanon, lookup_singleton_eq. }
  destruct Htb as [->|(c & _ & _ & Ho' & Hh & Hm & _)]; split_and!; try done.
  - intros h Hne. specialize (Ho h Hne). specialize (Ho' h Hne). destruct Ho as (? & ? & ?), Ho' as (? & ? & ?).
    split_and!; congruence.
  - unfold role_in in *. by rewrite Hh, Hm.
Qed.

Lemma policy_hub tb tb' R R' h :
  policy conn u tbl tb R tb' R' -> ~ same_hub tb tb' h -> may_change_hub tb tb' h.
Proof using Hcanon.
  intros Hp Hd. destruct Hp as [tb' Hs Hc|hub tb1 tb' Hc Htb|h' tb' Hex Hno Hch|h' Hr|h' r tb' Hr Hno Hch
    |h' v ra rt tb' Ha Ht Hk Hch|h' v ra rt r tb' Ha Ht Hk Hch|h' r tb' Hr Hk (Ho & _)
    |h' tb' Hr (_ & Ho & _)|h' r n ty c tb' Hr Hk Hl (_ & _ & Ho & _)|c ch r n tb' Hc Hr Hk [Hs _]
    |c ch tb' Hc Hr (_ & Ho & _)|c ch Hc Hty Hr];
    try (by destruct Hd); try (by destruct Hd; apply Hs);
    try (apply (changed_here _ _ _ _ Ho) in Hd as ->; left; by eauto using manager, owner_manages).
  - destruct (created_owner _ _ _ _ Hc Htb) as (Ho & Hnew & Hr).
    apply (changed_here _ _ _ _ Ho) in Hd as ->. right. by left.
  - destruct Hch as (Ho & _ & Hh & Hor & Hroles). apply (changed_here _ _ _ _ Ho) in Hd as ->.
    right. right. split_and!; [done..|]. intros v Hv. rewrite Hroles, Hcanon. by rewrite lookup_insert_ne.
  - destruct Hch as (Ho & _ & Hh & Hor & Hroles). apply (changed_here _ _ _ _ Ho) in Hd as ->.
    right. right. split_and!; [done..|]. intros v Hv. rewrite Hroles. by rewrite lookup_delete_ne.
  - destruct Hch as (Ho & _). apply (changed_here _ _ _ _ Ho) in Hd as ->. left.
    exists ra. eauto using kick_manages.
  - destruct Hch as (Ho & _). apply (changed_here _ _ _ _ Ho) in Hd as ->. left.
    exists ra. eauto using change_role_manages.
Qed.

Lemma policy_channel tb tb' R R' c :
  tables_ok tb -> policy conn u tbl tb R tb' R' -> tb_channels tb' !! c <> tb_channels tb !! c ->
  may_change_channel tb tb' c.
Proof using Hcanon.
  intros Hok Hp Hd. destruct Hp as [tb' Hs Hc|hub tb1 tb' Hc Htb|h' tb' Hex Hno (_ & Hch & _)|h' Hr
    |h' r tb' Hr Hno (_ & Hch & _)|h' v ra rt tb' Ha Ht Hk (_ & Hch & _)|h' v ra rt r tb' Ha Ht Hk (_ & Hch & _)
    |h' r tb' Hr Hk (_ & _ & Hch)|h' tb' Hr (_ & _ & Hch)|h' r n ty c' tb' Hr Hk Hl (_ & Hch & _)
    |c' ch r n tb' Hc Hr Hk [_ Hch]|c' ch tb' Hc Hr (Hch & _)|c' ch Hc Hty Hr];
    try (by destruct Hd); try (by rewrite Hch in Hd); try (by rewrite Hc in Hd).
  - destruct (created_owner _ _ _ _ Hc Htb) as (_ & Hnew & Hr). destruct Hc as (_ & _ & _ & _ & _ & Hcs).
    destruct Htb as [->|(c' & _ & Hch & _)]; [by rewrite Hcs in Hd|]. rewrite Hch, Hcs in Hd.
    destruct (decide (c = c')) as [->|Hne]; [|by rewrite lookup_insert_ne in Hd].
    eexists. split; [right; rewrite Hch; apply lookup_insert_eq|]. simpl. auto.
  - destruct (decide (c ∈ order_of tb h')) as [Hin|Hin]; [|by rewrite Hch in Hd].
    destruct (tk_order _ Hok _ _ Hin) as (ch & Hl & Hh). exists ch. rewrite Hh. split; [by left|].
    left. by apply owner_manages.
  - rewrite Hch in Hd. destruct (decide (c = c')) as [->|Hne]; [|by rewrite lookup_insert_ne in Hd].
    eexists. split; [right; rewrite Hch; apply lookup_insert_eq|]. simpl. left. by exists r.
  - rewrite Hch in Hd. destruct (decide (c = c')) as [->|Hne]; [|by rewrite lookup_alter_ne in Hd].
    exists ch. split; [by left|]. left. by exists r.
  - rewrite Hch in Hd. destruct (decide (c = c')) as [->|Hne]; [|by rewrite lookup_delete_ne in Hd].
    exists ch. split; [by left|]. left. by apply owner_manages.
Qed.

End Members.

(** ** The system *)

Section System.
Context {X D : Type} {EXT : External X} {UN : Uniform} {JL : JsonLib} {CR : Crypto} {JW : JwtLib}
  {HR : HubRepo D} {HL : HubRepoLaws D} {UR : UserRepo D} {MR : MessageRepo D} {DE : DbErrors D}
  {SEP : SeparateTables D}.
Variable sv : Services.

Abbreviation C := (M X D).

(** *** Without a session *)

(** An answer to the connection itself: an error, or the end of it. *)
Definition refusal (conn : GlobalConnId) (m : OutgoingMessage ServerEvent) : Prop :=
  (exists ty code text, m = make_command_error conn ty code text) \/
  (exists code text, m = drop_connection conn code text).

Lemma refusal_error conn ty code text : Forall (refusal conn) (fail conn ty code text).
Proof. apply list.Forall_singleton. left. eauto. Qed.

Lemma refusal_drop conn code text : Forall (refusal conn) [drop_connection conn code text].
Proof. apply list.Forall_singleton. right. eauto. Qed.

Lemma unauthenticated_inert (ty : Envelope.Type_) (conn : GlobalConnId)
  (parsed : ParsedPayload) (cmd : C Out) (a : App X D) :
  dispatch sv ty conn parsed = Some cmd -> ty <> Envelope.AUTH -> session_of conn a = None ->
  exists out, cmd a = (Some out, a) /\ Forall (refusal conn) out.
Proof.
  intros Hd Hty Hs.
  assert (Hb : forall B (k : option UserId -> C B), ex_bind (ex_gets (session_of conn)) k a = k None a)
    by (intros B k; unfold ex_bind; simpl; by rewrite Hs).
  assert (Hr : forall o, Forall (refusal conn) o ->
    exists out, (ex_ret o : C Out) a = (Some out, a) /\ Forall (refusal conn) out) by eauto.
  pose proof refusal_error as He. pose proof refusal_drop as Hdrop.
  assert (Hn : Forall (refusal conn) []) by constructor.
  destruct ty; try done; destruct parsed; try done; simpl in Hd; injection Hd as <-;
    auto; cbv beta delta [RequestStateSync_execute SelectActiveChannel_execute Typing_execute
      JoinVoiceChannel_execute KickVoiceParticipant_execute VoiceChannelActivity_execute
      SendMessage_execute FetchMessagesBefore_execute CreateHub_execute JoinHubByInvite_execute
      GetHubInvite_execute ValidateHubInvite_execute LeaveHub_execute DeleteHub_execute
      KickHubMember_execute UpdateHub_execute UpdateHubMemberRole_execute UpdateUser_execute
      CreateChannel_execute RenameChannel_execute RemoveChannel_execute]; cbv zeta;
    try match goal with |- context [to_channel_scope ?r] => destruct (to_channel_scope r) end;
    try match goal with |- context [is_empty_text ?r] => destruct (is_empty_text r); cbn [negb] end;
    try rewrite Hb; auto.
Qed.

(** C16: nothing happens without authentication.  On a connection without a
    session every command but AUTH returns at once, leaves the whole
    application state as it was - database, caches, Redis, voice, audit log -
    and answers at most an error to that connection or its end. *)
Theorem unauthenticated_commands_inert (ty : Envelope.Type_) (conn : GlobalConnId)
  (parsed : ParsedPayload) (cmd : C Out) (a : App X D) :
  dispatch sv ty conn parsed = Some cmd -> ty <> Envelope.AUTH -> session_of conn a = None ->
  exists out, cmd a = (Some out, a) /\ Forall (refusal conn) out.
Proof. apply unauthenticated_inert. Qed.

(** *** With a session *)

Variable Hs : gset HubId.
Hypothesis hash_inj : forall h h', h ∈ Hs -> h' ∈ Hs -> hash_hub sv h = hash_hub sv h' -> h = h'.
Hypothesis hubs_known : forall d : D, dom (tb_hubs (tables d)) ⊆ Hs.
Hypothesis hubs_norm : forall h, h ∈ Hs -> norm_hub h = h.

(** The hubs a command names are in play and its channels spelled canonically;
    the hub of an invite link is what Redis holds. *)
Definition payload_ok (p : ParsedPayload) (x : X) : Prop :=
  match p with
  | P_RequestStateSync m => Forall (fun i => mkHubId i ∈ Hs) (rss_hub_ids m)
  | P_SelectActiveChannel m => ref_ok (D := D) Hs (sac_channel m)
  | P_Typing m => ref_ok (D := D) Hs (ty_channel m)
  | P_JoinVoiceChannelRequest m => ref_ok (D := D) Hs (jv_channel m)
  | P_KickVoiceParticipant m => ref_ok (D := D) Hs (kv_channel m)
  | P_VoiceChannelActivity m => ref_ok (D := D) Hs (va_channel m)
  | P_SendMessage m => ref_ok (D := D) Hs (sm_channel m)
  | P_FetchMessagesBefore m => ref_ok (D := D) Hs (fm_channel m)
  | P_JoinHub m =>
    forall h, (InviteService.resolveInvite (InviteService.invite_token (jh_join_code m)) x).1 = Some h ->
      h ∈ Hs
  | P_CreateHubJoinCode m => mkHubId (chj_hub_id m) ∈ Hs
  | P_LeaveHub m => mkHubId (lh_hub_id m) ∈ Hs
  | P_RemoveHub m => mkHubId (rh_hub_id m) ∈ Hs
  | P_KickHubMember m => mkHubId (kh_hub_id m) ∈ Hs
  | P_UpdateHub m => mkHubId (uh_hub_id m) ∈ Hs
  | P_UpdateHubMemberRole m => mkHubId (ur_hub_id m) ∈ Hs
  | P_CreateChannel m => mkHubId (cc_hub_id m) ∈ Hs
  | P_UpdateChannel m => ref_ok (D := D) Hs (uc_channel m)
  | P_RemoveChannel m => ref_ok (D := D) Hs (rc_channel m)
  | _ => True
  end.

Lemma dispatch_allowed ty conn parsed cmd a u s tb tbl R :
  dispatch sv ty conn parsed = Some cmd -> ty <> Envelope.AUTH ->
  core sv tb tbl R a -> tbl !! conn = Some (u, s) -> norm_user u = u ->
  payload_ok parsed (ext (voice a)) ->
  let '(r, a') := cmd a in
  match r with
  | Some _ => returned sv conn u tb tbl R a'
  | None => thrown sv conn u tb tbl R a'
  end.
Proof.
  intros Hd Hty Ha Hc Hu Hp.
  assert (Hk : dom (tb_hubs tb) ⊆ Hs) by (by eapply core_known).
  assert (Hok : tables_ok tb) by (by eapply core_tables).
  enough (Hall : ex_triple (fun b => core sv tb tbl R b /\ ext (voice b) = ext (voice a)) cmd
    (fun _ => returned sv conn u tb tbl R) (thrown sv conn u tb tbl R)).
  { apply (Hall a). by split. }
  assert (Hw : allowed sv conn u tb tbl R cmd ->
    ex_triple (fun b => core sv tb tbl R b /\ ext (voice b) = ext (voice a)) cmd
      (fun _ => returned sv conn u tb tbl R) (thrown sv conn u tb tbl R)).
  { intros Hal b [Hb _]. by apply Hal. }
  destruct ty; try done; destruct parsed; try done; simpl in Hd; injection Hd as <-; simpl in Hp;
    try (apply Hw; by eauto using leave_allowed, kick_allowed, role_update_allowed, delete_hub_allowed,
      update_hub_allowed, select_allowed, remove_channel_allowed, rename_channel_allowed,
      create_channel_allowed, create_hub_allowed);
    try (apply Hw, allowed_kept; by eauto using kept_sync, kept_invite, kept_validate, kept_update_user,
      kept_fetch_messages, kept_send_message, kept_typing, kept_kick_voice, kept_activity, kept_join,
      ex_preserves_ret).
  by eapply join_allowed.
Qed.

(** *** Connections come and go *)

(** Some subscriptions, all of members as long as [ok] says that no command was
    cut short. *)
Definition good (ok : bool) (tb : Tables) (tbl : Session.Table) (a : App X D) : Prop :=
  exists R, core sv tb tbl R a /\ (ok -> members_only tb tbl R).

Lemma subscribe_hubs (ok : bool) conn u s tb tbl ids E :
  tbl !! conn = Some (u, s) -> (forall h, h ∈ ids -> is_Some (role_in tb h u)) -> forall R,
  (ok -> members_only tb tbl R) ->
  ex_triple (core sv tb tbl R) (ex_for ids (fun h => subscribe conn (Topic.HubTopic h)))
    (fun _ => good ok tb tbl) E.
Proof.
  intros Hc. induction ids as [|h ids IH]; intros Hids R Hm; simpl.
  - apply ex_triple_ret. intros a Ha. by exists R.
  - eapply ex_triple_bind; [apply subscribe_triple|]. intros []. apply IH.
    + intros h' Hh'. apply Hids. by right.
    + intros Hk c tp [[= -> ->]%elem_of_singleton|Hin]%elem_of_union; [|by apply Hm].
      exists u, s. split; [done|]. apply entitled_hub, Hids. left.
Qed.

Lemma bootstrap_members (ok : bool) conn u tb tbl R :
  norm_user u = u -> (forall v s, tbl !! conn = Some (v, s) -> v = u) -> dom (tb_hubs tb) ⊆ Hs ->
  (ok -> members_only tb tbl R) ->
  ex_triple (core sv tb tbl R) (Bootstrap_execute sv conn u)
    (fun _ => good ok tb tbl) (good ok tb tbl).
Proof.
  intros Hu Hc Hk Hm.
  assert (Hsame : forall a, core sv tb tbl R a -> good ok tb tbl a) by (intros a Ha; by exists R).
  unfold Bootstrap_execute. case_bool_decide; [apply ex_triple_ret; by auto|].
  apply bind_gets. intros a0 Ha0. rewrite (core_session_id _ _ _ _ _ _ Ha0).
  destruct (tbl !! conn) as [[v s]|] eqn:Ec; simpl; [|apply ex_triple_ret; by auto].
  pose proof (Hc v s eq_refl). subst v. eapply ex_triple_bind.
  { eapply ex_triple_conseq; [by eapply sync_user_triple|done|intros r a Hr; exact Hr|exact Hsame]. }
  intros sync. apply ex_triple_pure. intros Hsync. rewrite Hu in Hsync.
  eapply ex_triple_bind; [eapply subscribe_hubs; [exact Ec| |exact Hm]|].
  { intros h (i & -> & [_ Hi]%list_elem_of_filter)%list_elem_of_fmap. by apply Hsync. }
  intros []. intros a (R' & Ha & Hm'). revert a Ha.
  assert (Hg : forall a, core sv tb tbl R' a -> good ok tb tbl a) by (intros a Ha; by exists R').
  eapply ex_triple_conseq with (P := core sv tb tbl R');
    [apply ex_triple_keeps|done|intros ? a Ha; exact (Hg a Ha)|exact Hg].
  ex_split; try apply kept_channel; apply kept_read_resume.
Qed.

Lemma disconnect_members (ok : bool) conn tb tbl R :
  (ok -> members_only tb tbl R) ->
  let tbl' := delete conn tbl in
  ex_triple (core sv tb tbl R) (Disconnection_execute conn)
    (fun _ => good ok tb tbl') (good ok tb tbl').
Proof.
  intros Hm tbl'.
  assert (Hm' : ok -> members_only tb tbl' (filter (fun p : GlobalConnId * Topic.t => p.1 ≠ conn) R)).
  { intros Hk c tp [Hne Hin]%elem_of_filter. destruct (Hm Hk c tp Hin) as (v & s & Hv & He).
    exists v, s. split; [|done]. simpl in Hne. unfold tbl'. by rewrite lookup_delete_ne. }
  unfold Disconnection_execute.
  apply bind_gets. intros a0 Ha0. rewrite (core_session _ _ _ _ _ _ Ha0).
  destruct (tbl !! conn) as [[v s]|] eqn:Ec; simpl.
  2:{ apply ex_triple_ret. intros a Ha. exists R. subst tbl'. by rewrite delete_id. }
  apply bind_gets. intros a1 Ha1. rewrite (core_session_id _ _ _ _ _ _ Ha1), Ec. simpl.
  apply bind_gets. intros a2 _. eapply ex_triple_bind with (Q := fun _ => core sv tb tbl' R).
  { intros a (Hat & Hses & Hr). split; [exact Hat|]. split; [|exact Hr]. by apply Session.remove_repr. }
  intros []. eapply ex_triple_bind;
    [by apply (subs_triple _ _ _ _ _ (Subscription.OpRemoveConnection conn))|]. intros []. simpl.
  set (R' := filter _ _) in *.
  assert (Hg : forall a, core sv tb tbl' R' a -> good ok tb tbl' a) by (intros a Ha; by exists R').
  eapply ex_triple_conseq with (P := core sv tb tbl' R');
    [apply ex_triple_keeps|done|intros ? a Ha; exact (Hg a Ha)|exact Hg].
  ex_split; [apply kept_destroyed|apply kept_log].
Qed.

Abbreviation vouched := (has_token (X := X) sv).

(** Room for another session id. *)
Definition room (a : App X D) : Prop := (Session.next_session_id_ (sessions a) + 1 < two64)%Z.

(** The session table is the same, or has one more row, for a vouched user. *)
Definition logged_in (ok : bool) (conn : GlobalConnId) (tb : Tables) (tbl : Session.Table)
  (a : App X D) : Prop :=
  exists tbl', good ok tb tbl' a /\
    (tbl' = tbl \/ exists u s, tbl !! conn = None /\ vouched u /\ tbl' = <[conn := (u, s)]> tbl).

Lemma attach_triple conn u tb tbl R E :
  tbl !! conn = None ->
  ex_triple (fun a => core sv tb tbl R a /\ room a) (attach conn u)
    (fun r a => match r with
                | Ok s => core sv tb (<[conn := (u, s)]> tbl) R a
                | Unexpected _ => core sv tb tbl R a
                end) E.
Proof.
  intros Hn a [(Hat & Hses & Hr) Hroom]. unfold attach.
  pose proof (Session.step_refines (sessions a) (Session.mk_spec (Session.max_sessions_per_user_ (sessions a))
    (Session.next_session_id_ (sessions a)) tbl) (Session.OpAttach conn u)) as [Hans Href].
  { by split. }
  { exact Hroom. }
  simpl in Hans, Href. rewrite Hn in Hans, Href.
  destruct (Session.attachConnection (sessions a) conn u) as [r sm]. simpl in Hans, Href.
  case_bool_decide; simpl in Hans, Href; injection Hans as ->; destruct Href as [Hrep _]; simpl in Hrep;
    by split.
Qed.

Lemma authenticate_members (ok : bool) conn auth tb tbl R :
  (ok -> members_only tb tbl R) ->
  ex_triple (fun a => core sv tb tbl R a /\ room a) (Authenticate_execute sv conn auth)
    (fun _ => logged_in ok conn tb tbl) (logged_in ok conn tb tbl).
Proof.
  intros Hm. assert (Hsame : forall a, core sv tb tbl R a /\ room a -> logged_in ok conn tb tbl a)
    by (intros a [Ha _]; exists tbl; split; [by exists R|by left]).
  unfold Authenticate_execute. do 3 (case_match; [apply ex_triple_ret; by auto|]).
  eapply ex_triple_bind with (Q := fun r a => (core sv tb tbl R a /\ room a) /\
    forall claims, r = Ok claims -> vouched (mkUserId (uc_id claims))).
  { intros a [Ha Hr]. unfold on_world, on_voice, on_ext.
    destruct (AuthService.authenticate _ _ (ext (voice a))) as [r x] eqn:E. simpl. split; [done|].
    intros claims ->. eexists _, _, claims. split; [by rewrite E|done]. }
  intros [claims|e]; apply ex_triple_pure; intros Hv.
  2:{ intros a Ha. by apply Hsame. }
  specialize (Hv claims eq_refl). cbv zeta. apply ex_triple_read. intros a0 [Ha0 _].
  rewrite (core_session _ _ _ _ _ _ Ha0).
  eapply ex_triple_conseq with (P := fun a => core sv tb tbl R a /\ room a);
    [|by intros a [? _]|intros ? a Ha; exact Ha|intros a Ha; exact Ha].
  destruct (tbl !! conn) as [[v s]|] eqn:Ec; simpl; [apply ex_triple_ret; by auto|].
  eapply ex_triple_bind; [by apply attach_triple|]. intros [s|code].
  2:{ apply ex_triple_ret. intros a Ha. exists tbl. split; [by exists R|by left]. }
  set (tbl' := <[conn := (mkUserId (uc_id claims), s)]> tbl).
  assert (Hg : forall a, core sv tb tbl' R a -> logged_in ok conn tb tbl a).
  { intros a Ha. exists tbl'. split; [|right; eauto]. exists R. split; [done|]. intros Hk c tp Hin.
    destruct (Hm Hk c tp Hin) as (v & s' & Hv' & He). exists v, s'. split; [|done].
    unfold tbl'. rewrite lookup_insert_ne; [done|]. congruence. }
  eapply ex_triple_conseq with (P := core sv tb tbl' R);
    [apply ex_triple_keeps|done|intros ? a Ha; exact (Hg a Ha)|exact Hg].
  unfold resume_voice. ex_split; auto using kept_try_resume, kept_resync, kept_push, kept_log.
Qed.

(** *** Sequences of events *)

(** Supabase's user ids are canonical uuids. *)
Hypothesis tokens_canonical : forall u, vouched u -> norm_user u = u.

Definition tables_of (a : App X D) : Tables := tables (HubService.db (hubs (voice a))).

(** The invariant of the application: coherent caches, represented managers,
    canonical users, and members for subscribers as long as [ok] says that no
    command was cut short. *)
Definition sound (ok : bool) (a : App X D) : Prop :=
  exists tb tbl R, core sv tb tbl R a /\ (ok -> members_only tb tbl R) /\
    forall c u s, tbl !! c = Some (u, s) -> norm_user u = u.

Inductive event :=
  | Message (conn : GlobalConnId) (ty : Envelope.Type_) (parsed : ParsedPayload)
  | Opened (conn : GlobalConnId) (u : UserId)
  | Closed (conn : GlobalConnId).

Definition handle (e : event) : option (C Out) :=
  match e with
  | Message conn ty parsed => dispatch sv ty conn parsed
  | Opened conn u => Some (dispatch_connection sv conn u)
  | Closed conn => Some (dispatch_disconnection conn)
  end.

(** Canonical ids, room for a session id, and the bootstrap of a connection is
    that of its user. *)
Definition event_ok (e : event) (a : App X D) : Prop :=
  match e with
  | Message conn ty parsed => payload_ok parsed (ext (voice a)) /\ room a
  | Opened conn u => vouched u /\ forall v, session_of conn a = Some v -> v = u
  | Closed _ => True
  end.

(** Events handled one after the other, to their return or to an exception;
    the flag says that each of them returned. *)
Inductive served (a0 : App X D) : bool -> App X D -> Prop :=
  | served_start : served a0 true a0
  | served_event ok a e cmd r a' :
      served a0 ok a -> event_ok e a -> handle e = Some cmd -> cmd a = (r, a') ->
      served a0 (ok && bool_decide (is_Some r)) a'.

(** A server that has just started. *)
Definition started (a : App X D) : Prop :=
  exists d n, hubs (voice a) = HubService.create d /\ sessions a = Session.create n /\
    subscriptions a = Subscription.create.

Lemma started_sound a : started a -> sound true a.
Proof.
  intros (d & n & Hh & Hse & Hsu). exists (tables d), ∅, ∅. split_and!.
  - split_and!; unfold sessions, subscriptions in *; rewrite ?Hh, ?Hse, ?Hsu.
    + split; [done|]. split; intros ? ? Hl; simpl in Hl; by rewrite lookup_empty in Hl.
    + apply Session.session_create_repr.
    + apply Subscription.sub_create_repr.
  - intros _ c tp Hin. set_solver.
  - intros c u s. by rewrite lookup_empty.
Qed.

Lemma sound_weaken ok b a : sound ok a -> sound (ok && b) a.
Proof.
  intros (tb & tbl & R & Ha & Hm & Hcan). exists tb, tbl, R. split_and!; [done| |done].
  intros [Hok _]%andb_prop_elim. by apply Hm.
Qed.

Lemma core_tables_of tb tbl R a : core sv tb tbl R a -> tables_of a = tb.
Proof. by intros ([? _] & _). Qed.

Lemma authenticate_sound ok conn m a :
  sound ok a -> room a -> sound ok (Authenticate_execute sv conn m a).2.
Proof.
  intros (tb & tbl & R & Ha & Hm & Hcan) Hroom.
  pose proof (authenticate_members ok conn m tb tbl R Hm a (conj Ha Hroom)) as Ht.
  assert (Hl : logged_in ok conn tb tbl (Authenticate_execute sv conn m a).2)
    by (by destruct (Authenticate_execute sv conn m a) as [[r|] a']).
  destruct Hl as (tbl' & (R' & Ha' & Hm') & Htbl). exists tb, tbl', R'. split_and!; [done..|].
  intros c u s. destruct Htbl as [->|(v & s' & _ & Hv & ->)]; [by apply Hcan|].
  intros [[_ [= <- <-]]|[_ Hl]]%lookup_insert_Some; [by apply tokens_canonical|by eapply Hcan].
Qed.

Lemma message_sound ok conn ty parsed cmd a r a' :
  dispatch sv ty conn parsed = Some cmd -> payload_ok parsed (ext (voice a)) -> room a ->
  cmd a = (r, a') -> sound ok a -> sound (ok && bool_decide (is_Some r)) a'.
Proof.
  intros Hd Hp Hroom Hrun Hsound. destruct (decide (ty = Envelope.AUTH)) as [->|Hty].
  { simpl in Hd. destruct parsed; try done. injection Hd as <-. apply sound_weaken.
    pose proof (authenticate_sound ok conn m a Hsound Hroom) as Ha. by rewrite Hrun in Ha. }
  destruct Hsound as (tb & tbl & R & Ha & Hm & Hcan).
  destruct (tbl !! conn) as [[u s]|] eqn:Hc.
  - pose proof (dispatch_allowed ty conn parsed cmd a u s tb tbl R Hd Hty Ha Hc (Hcan _ _ _ Hc) Hp) as Hal.
    rewrite Hrun in Hal.
    destruct r as [out|]; destruct Hal as (tb' & R' & Ha' & Hpol); exists tb', tbl, R';
      (split_and!; [done| |done]); intros [Hok Hr]%andb_prop_elim; [|done].
    eapply (policy_keeps_members conn u s); eauto. by eapply core_tables.
  - destruct (unauthenticated_inert ty conn parsed cmd a Hd Hty) as (o & Ho & _).
    { by rewrite (core_session _ _ _ _ _ _ Ha), Hc. }
    rewrite Hrun in Ho. injection Ho as -> ->. apply sound_weaken. by exists tb, tbl, R.
Qed.

Lemma event_sound ok e cmd a r a' :
  event_ok e a -> handle e = Some cmd -> cmd a = (r, a') -> sound ok a ->
  sound (ok && bool_decide (is_Some r)) a'.
Proof.
  intros Hok Hh Hrun Hsound. destruct e as [conn ty parsed|conn u|conn]; simpl in Hok, Hh;
    [destruct Hok; by eapply message_sound|apply sound_weaken..]; injection Hh as <-.
  - destruct Hok as [Hv Hsame]. destruct Hsound as (tb & tbl & R & Ha & Hm & Hcan).
    pose proof (bootstrap_members ok conn u tb tbl R (tokens_canonical _ Hv)) as Hb.
    specialize (Hb ltac:(intros v s Hl; apply Hsame; by rewrite (core_session _ _ _ _ _ _ Ha), Hl)
      (core_known _ _ hubs_known _ _ _ _ Ha) Hm a Ha).
    unfold dispatch_connection in Hrun. destruct (Bootstrap_execute sv conn u a) as [r1 a1].
    injection Hrun as _ ->. destruct r1; destruct Hb as (R' & Ha' & Hm'); by exists tb, tbl, R'.
  - destruct Hsound as (tb & tbl & R & Ha & Hm & Hcan).
    pose proof (disconnect_members ok conn tb tbl R Hm a Ha) as Hd. unfold dispatch_disconnection in Hrun.
    rewrite Hrun in Hd. destruct r; destruct Hd as (R' & Ha' & Hm'); exists tb, (delete conn tbl), R';
      (split_and!; [done..|]); intros c v s [_ Hl]%lookup_delete_Some; by eapply Hcan.
Qed.

Lemma served_sound ok a0 a : started a0 -> served a0 ok a -> sound ok a.
Proof.
  intros H0 Hserved. induction Hserved as [|ok a e cmd r a' _ IH Hok Hh Hrun]; [by apply started_sound|].
  by eapply event_sound.
Qed.




(** *** Messages reach members *)

(** What a send answers: refusals, or the stored message for exactly the
    topic's subscribers, and then the sender is entitled to the topic. *)
Definition sent_to (tb : Tables) (R : Rel) (conn : GlobalConnId) (u : UserId) (ref : ChannelRef)
  (out : Out) : Prop :=
  Forall (refusal conn) out \/
  exists sc msg, to_channel_scope ref = Some sc /\
    let tp := Topic.ChannelTopic (scope_hub sc) (scope_channel sc) in
    entitled tb tp u /\
    (forall c, (c, tp) ∈ R <-> exists m, m ∈ out /\ c ∈ target m) /\
    (forall m, m ∈ out -> action m = action (make_outgoing_message [conn]
       (channel_delta (scope_hub sc) (scope_channel sc) []
          [MessageAppend (to_proto_message_state msg)] []))).

Lemma to_all_targets conns ev c :
  (exists m, m ∈ to_all conns ev /\ c ∈ target m) <-> c ∈ conns.
Proof.
  destruct conns as [|c0 cs]; simpl; split.
  - intros (m & Hm & _). by apply not_elem_of_nil in Hm.
  - intros Hc. by apply not_elem_of_nil in Hc.
  - by intros (m & ->%list_elem_of_singleton & Hc).
  - intros Hc. eexists. split; [by apply list_elem_of_singleton|done].
Qed.

Lemma to_all_action conns ev m c0 : m ∈ to_all conns ev -> action m = action (make_outgoing_message [c0] ev).
Proof. destruct conns; simpl; [by intros ?%not_elem_of_nil|]. by intros ->%list_elem_of_singleton. Qed.

Lemma channel_entitled tb u ch sc :
  tables_ok tb -> tb_channels tb !! ch_id ch = Some ch -> ch_id ch = scope_channel sc ->
  ch_hub_id ch = scope_hub sc -> is_Some (role_in tb (scope_hub sc) u) ->
  entitled tb (Topic.ChannelTopic (scope_hub sc) (scope_channel sc)) u.
Proof.
  intros Hok Hch Hid Hhub Hr. split; unfold Topic.extractHubId, Topic.extractChannelId; simpl.
  - by destruct (scope_hub sc).
  - pose proof (tk_listed _ Hok _ _ Hch) as Hl. rewrite Hid, Hhub in Hl.
    by destruct (scope_hub sc), (scope_channel sc).
Qed.

Lemma send_triple conn cmd u s tb tbl R :
  tbl !! conn = Some (u, s) -> ref_ok (D := D) Hs (sm_channel cmd) -> tables_ok tb ->
  ex_triple (core sv tb tbl R) (SendMessage_execute sv conn cmd)
    (fun out _ => sent_to tb R conn u (sm_channel cmd) out) (fun _ => True).
Proof.
  intros Hc Href Hok.
  assert (Herr : forall P code text, ex_triple P (ex_ret (fail conn Envelope.MESSAGE_SEND code text) : C Out)
    (fun out _ => sent_to tb R conn u (sm_channel cmd) out) (fun _ => True))
    by (intros; apply ex_triple_ret; intros; left; apply refusal_error).
  unfold SendMessage_execute. cbv zeta.
  destruct (to_channel_scope (sm_channel cmd)) as [sc|] eqn:Esc; [|apply Herr].
  destruct (Href _ Esc) as [Hscope Hchan]. eapply bind_session; [exact Hc|]. cbv beta iota.
  do 2 (destruct (_ <=? _)%nat; [|apply Herr]). destruct (parse_attachments _ _) as [ats|]; [|apply Herr].
  do 2 (destruct (negb _); [|apply Herr]).
  apply bind_in_hub; [done|done|apply Herr| |done]. intros ch Hch Hid Hhub.
  eapply bind_read; [eapply answers_member; eauto|intros ? ->|done].
  case_bool_decide as Hmem; [|apply Herr]. apply bind_keep; [apply kept_send|intros saved|done].
  destruct saved as [msg|[]]; [|apply Herr..]. apply bind_gets. intros a1 Ha1. apply ex_triple_ret.
  intros _ _. right. exists sc, msg. split; [done|]. split_and!.
  - by eapply channel_entitled.
  - intros c. by rewrite to_all_targets, (core_subscribers _ _ _ _ _ _ _ Ha1).
  - intros m Hm. by eapply to_all_action.
Qed.


End System.

(** ** On the small application *)

Module AccessDemo.
Import AppDemo.

#[export] Instance separate : SeparateTables db.
Proof.
  split; intros; try done; simpl; unfold on_posts; destruct (calls_left d); try done;
    by case_match.
Qed.

Definition hubs0 : gset HubId := {[Demo.h0]}.

Lemma hash_inj0 h h' : h ∈ hubs0 -> h' ∈ hubs0 -> hash_hub sv h = hash_hub sv h' -> h = h'.
Proof. by intros ->%elem_of_singleton ->%elem_of_singleton _. Qed.
Lemma hubs_known0 (d : db) : dom (tb_hubs (tables d)) ⊆ hubs0.
Proof. simpl. by rewrite dom_singleton_L. Qed.
Lemma hubs_norm0 h : h ∈ hubs0 -> norm_hub h = h.
Proof. by intros ->%elem_of_singleton. Qed.
Lemma canonical0 u : has_token (X := DemoWorld.t) sv u -> norm_user (D := db) u = u.
Proof. done. Qed.

Definition ref0 : ChannelRef := mkChannelRef "h0" "c0".
Lemma ref_ok0 : ref_ok (D := db) hubs0 ref0.
Proof. intros sc [= <-]. split; [by apply elem_of_singleton|reflexivity]. Qed.

Lemma started0 n : started (AppDemo.boot n).
Proof. eexists _, 4%nat. by split_and!. Qed.

Abbreviation A := (App DemoWorld.t db).
Abbreviation served0 := (served (X := DemoWorld.t) (D := db) sv hubs0).

Lemma served_next a0 (a : A) e cmd :
  served0 a0 true a -> event_ok sv hubs0 e a -> handle sv e = Some cmd -> is_Some (cmd a).1 ->
  served0 a0 true (cmd a).2.
Proof.
  intros Hs He Hh Ho.
  pose proof (served_event sv hubs0 a0 true a e cmd (cmd a).1 (cmd a).2 Hs He Hh
    (surjective_pairing _)) as H.
  by rewrite (bool_decide_eq_true_2 _ Ho) in H.
Qed.

(** Alice logs in, her connection is bootstrapped, she opens the channel. *)
Definition login : Authenticate := mkAuthenticate AuthType_AUTH AuthProvider_SUPABASE "alice" None.
Definition a1 (n : nat) : A := (Authenticate_execute sv (conn "1") login (boot n)).2.
Definition a2 (n : nat) : A := (Bootstrap_execute sv (conn "1") alice (a1 n)).2.
Definition a3 (n : nat) : A :=
  (SelectActiveChannel_execute sv (conn "1") (mkSelectActiveChannel ref0 10 None) (a2 n)).2.

Lemma has_token0 : has_token (X := DemoWorld.t) sv alice.
Proof.
  exists "alice"%string, (DemoWorld.mk ∅ true 1000 0 []). eexists. split; [vm_compute; reflexivity|].
  reflexivity.
Qed.

Lemma served3 : served0 (boot 100) true (a3 100).
Proof.
  assert (H1 : served0 (boot 100) true (a1 100)).
  { eapply (served_next _ (boot 100) (Message (conn "1") Envelope.AUTH (P_Authenticate login)));
      [apply served_start| |reflexivity|vm_compute; eauto].
    split; [done|]. by vm_compute. }
  assert (H2 : served0 (boot 100) true (a2 100)).
  { eapply (served_next _ (a1 100) (Opened (conn "1") alice)); [exact H1| |reflexivity|vm_compute; eauto].
    split; [exact has_token0|]. intros v Hv. vm_compute in Hv. by injection Hv as <-. }
  eapply (served_next _ (a2 100) (Message (conn "1") Envelope.ACTIVE_CHANNEL
    (P_SelectActiveChannel (mkSelectActiveChannel ref0 10 None))));
    [exact H2| |reflexivity|vm_compute; eauto].
  split; [exact ref_ok0|]. by vm_compute.
Qed.

Definition leave : M DemoWorld.t db Out := LeaveHub_execute sv (conn "1") (mkLeaveHub "h0").
Definition hello : SendMessage := mkSendMessage ref0 "hello" [] None.

End AccessDemo.
Import AppDemo AccessDemo.

(** A stranger's message is refused. *)
Lemma unauthenticated_commands_inert_witness :
  exists out, SendMessage_execute sv (conn "9") hello (a3 100) =
    (Some out, a3 100) /\ Forall (refusal (conn "9")) out.
Proof.
  apply (unauthenticated_commands_inert sv Envelope.MESSAGE_SEND (conn "9")
    (P_SendMessage hello));
    [reflexivity|discriminate|vm_compute; reflexivity].
Defined.





(** ** What an exception or a race leaves behind *)

(** The database fails between the deletion of the member row and the listing
    of the hub's channels: Alice is no member any more and stays subscribed to
    the channel, and the next messages of the hub still go to her. *)
Example failed_leave_stays_subscribed :
  let '(r, a') := leave (a3 5) in
  r = None /\ role_in (tables_of a') Demo.h0 alice = None /\
  subscribers (Topic.ChannelTopic Demo.h0 Demo.c0) a' = [conn "1"].
Proof. vm_compute. by split_and!. Qed.

(** A disconnection handled before the authentication of its connection, which
    another worker still runs, leaves a session nobody removes. *)
Example session_outlives_connection :
  let a := (Disconnection_execute (conn "1") (boot 100)).2 in
  let a' := (Authenticate_execute sv (conn "1") login a).2 in
  session_of (conn "1") a' = Some alice /\ session_of (conn "1") (boot 100) = None.
Proof. vm_compute. by split_and!. Qed.
